(* ===== verification/_CoqProject ===== *)
-Q . S2P
Prelude.v
RustStd.v
F64.v
Json.v
JsonMerge.v
Yaml.v
Attributes.v
Ir.v
Predicate.v
Pipelines.v
Orchestration.v
Routing.v
Constraint.v
PredParser.v
PipeParser.v
StepParser.v
StepFacts.v
Evaluator.v
Route.v
ExtData.v
Headers.v
Extensions.v
Message.v
Bag.v
Session.v
PluginTypes.v
Config.v
ConfigLoad.v
Registry.v
Executor.v
Manager.v
ManagerFacts.v
Dispatch.v
Delegation.v
Handler.v
Visitor.v
PdpInput.v
Opa.v
Cel.v
Cedar.v
JwtKeys.v
Jwt.v
HostError.v
HostWire.v
HostWorker.v
HostVenv.v
HostPlugin.v
Idp.v
OAuth.v
Biscuit.v
Ciba.v
Scanner.v
Valkey.v
Ffi.v
Hooks.v
PyConv.v
Builtins.v
PyBind.v
Approval.v
Legacy.v
Monotonic.v
