(* ===== verification/Prelude.v ===== *)
(** * A verification library for CPEX, the ContextForge plugin execution framework

    CPEX runs policy around the tool, prompt, resource and model calls of an
    agent.  A host invokes a hook; the plugin manager finds the entries of that
    hook in the registry; the executor runs them in five phases over one
    payload and one set of extensions, giving each plugin only the view its
    declared capabilities allow and merging back only what they allow it to
    change.  APL, the policy language, compiles YAML into routes: pipelines over
    the arguments and the result of a call, and effect trees over an attribute
    bag, which call plugins, policy decision points, token delegation and human
    elicitation through host traits.  [restrict] effects emit candidate
    constraints that are folded into an extension a model router obeys.

    ** Files and what they model (paths are under src/crates/)

    - [Prelude] shared types, tactics, hints and generic lemmas;
      [RustStd] Rust's [str], [char], [fmt]; [F64] Rust's [f64] with parsing
      and printing; [Json] [serde_json::Value] and the dotted-path helpers of
      apl-core/src/route.rs; [Yaml] [serde_yaml::Value] and mappings.
    - [JsonMerge] apl-cpex/src/message_projection.rs ([apply_changed_paths]) and
      the attribute trees of apl-core and apl-cpex (attribute_source.rs).
    - [Attributes] apl-core/src/attributes.rs: [AttributeBag], [resolve_key].
    - [Ir] apl-core/src/{rules,pipeline,step,constraint,plugin_decl}.rs: the
      data of a compiled policy, [validate_parallel_purity], [declared_phases],
      [apply_layer], [EffectivePlugin::resolve] ([effective_resolve]).
    - [Predicate] the condition evaluator and [evaluate_rules] of
      apl-core/src/evaluator.rs.
    - [Pipelines] [evaluate_pipeline] of the same file, one definition per
      stage.
    - [Orchestration] cpex-orchestration/src/lib.rs: [run_branches] under a
      runtime schedule.
    - [Routing] cpex-core/src/extensions/routing.rs: [accepts], [glob_match].
    - [Constraint] apl-core/src/constraint.rs ([RestrictSpec::resolve]) and
      apl-cpex/src/candidate_constraint.rs ([fold_candidate_constraints]).
    - [PredParser] the predicate lexer and parser of apl-core/src/parser.rs;
      [PipeParser] its pipelines, stages, ranges and taints; [StepParser] rule
      lines, call forms, steps and effects in YAML, restrict, and the
      compilation of policy blocks and files; [StepFacts] their theorems.
    - [Evaluator] [evaluate_effects], [dispatch_effect] and its arms, of
      apl-core/src/evaluator.rs.
    - [Route] apl-core/src/route.rs: [evaluate_pre], [evaluate_post],
      [evaluate_route].
    - [ExtData], [Extensions] cpex-core/src/extensions: the extension structs;
      the container with copy-on-write and merge-back; slot policies, tiers and
      [filter_extensions]; [Headers] the case-insensitive headers of http.rs.
    - [Message] cpex-core/src/cmf: messages, content parts, views and their JSON
      form; the projection of arguments and results.
    - [Bag] apl-cmf/src: the extractors that fill the attribute bag, the bag
      builder and the table of capability namespaces.
    - [Session] apl-cpex/src/session_store.rs and session_resolver.rs.
    - [PluginTypes] cpex-core/src/{plugin,error,context}.rs.
    - [Config] cpex-core/src/config.rs: validation, route scoring, resolution of
      the plugins and identity steps of an entity; [ConfigLoad] the hand-written
      deserializers, the scan for renamed keys and [parse_config].
    - [Registry] cpex-core/src/registry.rs: a step relation [reg_step] over
      registrations and removals.
    - [Executor] cpex-core/src/executor.rs: [execute] and its phases.
    - [Manager] cpex-core/src/manager.rs, factory.rs and visitor.rs: snapshots,
      generation, registration, configuration loading and visitors, lifecycle,
      annotations, route cache, override instances, invocation; [ManagerFacts]
      its theorems over the step relation [mg_step], in which an invocation loads
      its snapshot, looks up, resolves and stores in separate steps and a change
      is published and the cache cleared in separate steps, in any interleaving;
      the operations of [Manager] are shown to be runs of it.
    - [Dispatch] cpex-core/src/hooks/metadata.rs and, of apl-cpex/src,
      dispatch_plan.rs, pdp_router.rs and parallel_safety.rs; the step relation
      [dp_step] runs the plan cache beside the manager.
    - [Delegation] the payloads of cpex-core/src/{identity,delegation,
      elicitation} and the invokers delegation_invoker.rs and
      elicitation_invoker.rs of apl-cpex.
    - [Handler] apl-cpex/src/cmf_invoker.rs and route_handler.rs: one request
      through a compiled route.
    - [Visitor] apl-cpex/src/visitor.rs and register.rs: how a configuration
      becomes annotated routes.
    - [PdpInput], [Opa], [Cel], [Cedar] the policy engines of builtins/pdps: the
      document made of the bag, queries and their decisions, configuration and
      caches; [JwtKeys], [Jwt] the token resolver of builtins/plugins/identity-jwt,
      with the step relation [jwt_step] of its start-up fetches and refreshes.
    - [HostError], [HostWire], [HostWorker], [HostVenv], [HostPlugin]
      cpex-hosts-python/src: errors; what crosses the process boundary
      (conversion.rs, credentials.rs, extensions.rs); the worker client, with the
      step relation [worker_step] of callers (dropped ones included), reader and
      timers; the virtual environments over a file-system value, with what others
      write while pip runs; plugins, the respawn of their
      workers ([plugin_step]) and the factory.
    - [Idp], [OAuth], [Biscuit], [Ciba], [Scanner] the other plugins of
      builtins/plugins: what the clients of an identity provider share; the OAuth
      and Biscuit delegators; the CIBA approver, with the step relation
      [ciba_step] of its requests; the PII scanner and the audit logger.
    - [Valkey] builtins/session/valkey: endpoint rules and the label store.
    - [Ffi] cpex-ffi/src: every exported function over a heap of handles, and the
      step relation [ffi_step] of a host with the ledger of what it holds.
    - [Hooks] cpex-core/src/hooks/{types,trait_def,adapter}.rs: hook names, typed
      results, their erasure and the typed adapter, which gives the executor its
      handlers; the scanner as a guard of a pipeline.
    - [PyConv], [PyBind] bindings/python/src: Python objects as a heap with
      conversion in both directions; results, getters, and the manager with how a
      supervised call ends.  [Builtins] cpex-builtins/src and the factories of
      builtins/plugins: what [install_builtins] registers.
    - [Approval] an approval from the route to the provider: evaluator, bridge,
      executor, adapter and CIBA approver composed; the stand-in invokers of
      apl-core/src/step.rs.
    - [Legacy] cpex-hosts-python/src/legacy/payloads.rs: the payload structs, an
      instance of the [PayloadCodec] of [HostWire].
    - [Monotonic] cpex-core/src/extensions/{monotonic,guarded}.rs.

    ** How code becomes definitions

    Strings are byte strings, vectors are lists, hash maps and sets are [gmap]
    and [gset], a [BTreeSet] is a [gset] iterated in byte order.  [Option] is
    [option], [Result] is [Result]; early returns are values.  [&mut] parameters
    become a record that is passed and returned ([EvalState], [PhaseState]).
    Integers are [Z] or [nat]; where the code parses or casts at a width the
    bounds are written out ([in_i64], [u32_wrap], [timeout_ms]).  An [Arc] whose
    pointer is compared is a pointer with a value; an [AtomicBool] shared by
    clones is a cell address.  Host traits ([PdpResolver], [PluginInvoker],
    [DelegationInvoker], [ElicitationInvoker], [AnyHookHandler]) are type
    classes over an abstract world [W] threaded through the calls, so that the
    theorems hold for every implementation and every order of answers.  The
    tokio runtime is the class [Runtime]: it chooses the world each branch
    sees and the schedule in which tasks are joined, time out, panic or are
    cancelled; [Schedule_ok] states what [JoinSet] documents.  Timeouts of
    awaited handlers are the class [Timer].  The iteration order of hashed
    collections, where the code depends on it, is the class [HashOrder].  The
    regex, wildmatch, hashing and JSON-printing libraries are parameters, and so
    are the derived serde deserializers ([SerdeConfig], [SerdeApl]), the debug
    printing of YAML and effects ([YamlLib], [EffectDebug]) and the Unicode
    tables of [char::is_alphanumeric] ([UnicodeTables]).  In the parsers a slice
    out of range is the outcome [Panics].  The manager's operations run on a
    [PluginManager] and an [Env], the world with the allocator of plugin
    identities; plugin factories are a class, visitors a record of operations,
    and an invocation works on the snapshot it loaded.  In the bridge the session
    store, the PDP backends, SHA-256, the RFC 3339 printer, file reading, JSON
    printing, Unicode lower-casing, downcasting of payloads, pointer comparison
    of slots and the factories of stores and backends are the classes
    [SessionStore], [PdpBackend], [Sha256], [Rfc3339], [AttributeFiles],
    [JsonText], [UnicodeLower], [Erased], [SlotPointers], [HandlerObject],
    [VisitorSerde] and [FactoryBuild]; [SessionStoreSpec] is the contract of the
    store, which the in-memory store is shown to meet.  The engines and libraries
    behind the builtins are the classes [Rego], [Blocking], [PdpFiles], [CelLib],
    [CedarLib], [YamlJson], [KeyLib], [JwtLib] and [JwtSerde]; the network and the
    clock are arguments of the operations that read them.  In the Python host the
    classes are [PayloadCodec], [ExtSerde], [TokenOrder], [Utf8], [JsonCodec],
    [PrettyJson], [UnicodeAlnum], [DirView] and [SerdeText]; every call of the
    system that can fail takes its outcome, and what a failure leaves behind, from
    [BuildIo] or [LaunchEnv].  The remaining builtins use [IdpLib], [Calendar],
    [OAuthSerde], [BiscuitLib], [CibaSerde], [CibaTime], [ScanSerde] and
    [AuditTime]; the Valkey server and the url crate are [ValkeyServer] and
    [UrlCrate], with what their documentation says in [ValkeyDoc] (a clock, and a
    deadline per key, which ends it; no key is evicted) and [UrlDoc].  In
    the C interface a pointer is a block number, a dead one is undefined behaviour,
    and [Msgpack] is the codec.  In the Python bindings every reference of a heap
    denotes an object, panics, cancellation and elapsed clocks are the endings
    [PyEnding], and [PySerde] and [LegacySerde] are what serde derives for messages,
    extensions and results; compiled features are a set.

    ** What the theorems show

    - Executor: a denial is attributed and only blocking modes deny; blocking
      phases fail closed; the verdict of the concurrent phase is exact for every
      schedule; every slot of the extensions but the raw credentials respects the
      mutability tiers and the declared capabilities over a whole invocation, and
      the raw credentials become only what a modifying plugin returns
      ([PhaseOrder] is the invariant interface the phases are proved against).
    - Extensions: filtering is non-interference (an equivalence, both
      directions); merging respects the tier of every slot but the raw credentials,
      which it takes as returned, whatever a plugin returns.
    - Registry: the well-formedness invariant of every reachable registry;
      unregistering undoes registering; grouping by mode is a partition.
    - Effects: first stop decides; recorded taints and constraints are kept;
      flags are sound; parallel branches are isolated and lose no denial; a PDP
      denial stands; elicitation gates and refusals halt; the synchronous and
      the dispatched evaluation of rules agree.
    - Pipelines: redact is a barrier, mask reveals a suffix only, validators
      are exact.
    - Routes and layers: layering is associative, the most specific layer wins
      on fields, a base deny is final under the plugins of the effective route,
      modification flags are sound.
    - Configuration: the chosen route is the most specific one, resolution names
      each plugin once and from its last layer, a validated configuration
      resolves to declared plugins, [groups:] is sugar over tags.
    - Constraints: the fold is order-independent, sound for the real router
      test [accepts], complete on plain names, and conflicts only when
      unsatisfiable; resolution fails closed; the glob matcher agrees with its
      declarative meaning on star-free texts.
    - Parser: print/parse round trip and totality of predicates; steps always
      finish parsing; what compiles is well formed and free of mutations in
      parallel blocks; loading a policy file fails closed on renamed keys;
      [require] means what it says; both ways to write the phases agree.
    - Manager: over every interleaving the route cache refines uncached
      resolution under a published snapshot as long as tags are a function of the
      cache key, and stays within the limit of a published snapshot, of the
      current one in both cases if no change overlaps with a resolution; the
      generation identifies the snapshot; loading and initialising are all or
      nothing (as calls nothing interleaves with); shutdown drains; annotations take precedence; a denial names a
      known plugin; loading YAML stays within the reachable states.
    - Merging: a pipeline's edits and a plugin's edits of one payload are both
      kept; attribute documents merge exactly or report the conflict.
    - Messages, bag and sessions: a serialized view hides the rest of the
      request; projections round-trip; the bag holds only what the capabilities
      open, and its identity attributes come from the authenticated subject
      alone; sessions of different subjects are apart.
    - Dispatch: the check of parallel modes and the capability union are exact,
      plans carry narrowed capabilities, and the plan cache is never stale.
    - Delegation and elicitation: a delegation uses the named roles only, never
      changes identity, and keeps minted tokens apart; approval is explicit.
    - Handler and visitor: a request is let through exactly when everything
      agrees; session taints are stored; layers stack in order; a visited route
      is enforced for every entity it names.
    - Builtins: OPA, CEL and Cedar allow exactly when their engine grants or a
      runtime failure is configured to; their caches are transparent; the input
      document holds exactly the bag; entity ids read back from their text and
      the principal is the authenticated subject.  A token is accepted only
      under a key of its own issuer's configuration in every reachable state, a
      withdrawn key is refused after the next refresh, and the resolver always
      answers.
    - Python host: outside the payload a worker sees no sensitive header and no
      raw credential beside the gated channel, and what it returns keeps the tiers
      (raw credentials gain no token, but may lose those the plugin could not
      read); the credential object goes exactly to entitled plugins and only to
      workers that claim to read it, in every state reached by crashes and
      respawns; lines are read the same however bytes arrive, and every caller gets
      its own answer; respawns are bounded; a co-owner keeps its interpreter, a
      ready environment is reused unchanged, and for a plugin alone whose files
      nobody writes while pip runs a valid cache holds the current requirements.
    - Delegators and approver: a minted OAuth token has the audience, lifetime
      and, where they are single words, permissions that were asked for, and each
      credential travels under its own field; a biscuit handed on is the caller's
      with one block, whose text no other delegation has; an
      elicitation is valid only after the provider opened it and named the same
      approver; the cue fits the limits of the provider.
    - Scanner, logger, session store: what the scanner forwards is clean; audit
      records do not depend on credentials; acknowledged labels survive failures
      until their expiry, plaintext is used for local endpoints only, and errors
      hide credentials.
    - C interface: a host that keeps to the contract never meets undefined
      behaviour, leaks or dangles; replies are exact, a result that cannot be
      handed over included; identity resolution gates the hook of a fused call.
    - Typed hooks: the adapter runs a handler exactly on payloads of its type; a
      guard behind it decides what leaves the pipeline, and the scanner is such a
      guard.  An approval a route waits for was given, by the approver the gateway
      named, across all the layers between them; a host without invokers fails
      closed.
    - Python bindings: Python gets what the pipeline decided or an exception;
      values cross the boundary unchanged, within width and depth, cyclic objects
      included; a legacy payload survives the way through a worker, its token in
      clear, and printing one hides its secrets; labels of an add-only set stay without a token.
    - Behaviours that differ from what the comments of the code intend are
      theorems too: [glob_match_star_text],
      [unmodified_view_wipes_delegated_tokens], [append_label_needs_read],
      [sequential_bare_deny_dropped], [denial_drops_local_state],
      [cached_route_skips_tag_group], [stale_snapshot_poisons_cache],
      [reload_refused], [lone_quote_panics], [text_writeback_duplicates],
      [session_ids_collide], [field_op_plugins_unplanned],
      [pick_entry_crosses_families], [session_taint_on_request_label_lost],
      [header_edits_dropped], [removed_layers_survive_reload],
      [catchall_not_mode_checked], [route_keys_collide],
      [flat_attribute_files_dropped], [missing_header_uses_raw_token],
      [nbf_unchecked], [full_cache_fails_open], [user_type_lower_case],
      [return_drops_authorization], [custom_write_erases_tokens],
      [registration_after_clear], [co_tenant_loses_requirements],
      [failed_rebuild_reused_empty], [failed_relaunch_is_permanent],
      [huge_hint_expires_at_once], [biscuit_mode_ignores_subject],
      [approval_replayed_for_another_approver], [nested_value_passes],
      [zero_ttl_loses_labels], [remote_passes_for_local],
      [lost_result_reported_ok], [unwritable_extensions_vanish],
      [metadata_dropped], [builtin_names_without_metadata], [big_int_overflows],
      [u64_loses_digits], [list_payload_getter_raises], [replaced_set_is_caught],
      [stale_limit_exceeded], [override_lifts_deny], [abandoned_registration],
      [edit_during_install], [token_travels_in_payload],
      [blank_permission_is_split].

    ** Fuel

    The tokenizer loop runs with one more than the length of the source, the
    recursive-descent parser with [parser_fuel] of the tokens, the glob loop
    with [glob_fuel] of pattern and text, the step parser with [step_fuel] of
    the YAML value and bracketed delegate values with the length of the text.
    [parse_predicate_total], [glob_match_correct] and [parse_step_total] prove
    that this always suffices.  Merging and walking JSON runs with the depth of
    the value; the unfolding lemmas of [JsonMerge] and [Bag] show that the fuel
    never runs out; [read_block_datalog] gives the reader that shows the text of a
    block to be unambiguous one step per clause.
    Reading a Python object runs with the levels the code itself allows, 128, whose
    exhaustion is the error of the code.
    All other recursion is structural.

    ** Not modelled

    Log lines, the serde derives of messages and extensions, the re-exports of the
    SDK, the Go bindings over the C interface and the test support of the Python
    host.  Panics of handlers in the serial phases propagate to the host in the
    code and have no counterpart in the executor: where one reaches a boundary it
    is an ending of the call there ([Ffi], [PyBind]).  Background tasks are the
    values they are spawned with. *)

From stdpp Require Export base tactics option list gmap sets strings.
From stdpp Require Export pretty.
From Stdlib Require Export Lia ZArith.

#[global] Set Default Goal Selector "!".

(** ** Scope and notations *)

Declare Scope cpex_scope.
Delimit Scope cpex_scope with cpex.

(** Rust's [Result<T, E>]. *)
Inductive Result (T E : Type) : Type :=
| Ok (v : T)
| Err (e : E).
Arguments Ok {T E} v.
Arguments Err {T E} e.

#[global] Instance Result_eq_dec {T E} `{EqDecision T, EqDecision E} :
  EqDecision (Result T E).
Proof. solve_decision. Defined.

Definition result_bind {T U E} (r : Result T E) (k : T → Result U E) : Result U E :=
  match r with
  | Ok v => k v
  | Err e => Err e
  end.

Definition map_err {T E F} (f : E → F) (r : Result T E) : Result T F :=
  match r with Ok v => Ok v | Err e => Err (f e) end.
Definition result_map {T U E} (f : T → U) (r : Result T E) : Result U E :=
  match r with
  | Ok v => Ok (f v)
  | Err e => Err e
  end.

(** Rust's [?] operator on [Result]. *)
Notation "'let?' x ':=' r 'in' k" := (result_bind r (λ x, k))
  (at level 10, x name, r at level 100, k at level 200) : cpex_scope.
Notation "'let?' ''' p ':=' r 'in' k" :=
  (result_bind r (λ x, match x with p => k end))
  (at level 10, p strict pattern, r at level 100, k at level 200) : cpex_scope.

#[global] Open Scope cpex_scope.


(** Rust's machine widths, as the ranges of the values. *)
Definition i64_min : Z := (- 2 ^ 63)%Z.
Definition i64_max : Z := (2 ^ 63 - 1)%Z.
Definition in_i64 (z : Z) : bool := (i64_min <=? z)%Z && (z <=? i64_max)%Z.
Definition u32_wrap (z : Z) : Z := (z mod 2 ^ 32)%Z.
Definition u64_wrap (z : Z) : Z := (z mod 2 ^ 64)%Z.
(** [u64 as i64]. *)
Definition as_i64_cast (z : Z) : Z := if (z <=? i64_max)%Z then z else (z - 2 ^ 64)%Z.

(** [Vec::is_empty] and [Option::is_none]. *)
Definition is_nil {A} (l : list A) : bool := match l with [] => true | _ => false end.
Definition is_none {A} (o : option A) : bool := match o with None => true | Some _ => false end.

(** ** Tactics of the development *)

(** Split on the innermost [match] or [if] of a hypothesis or the goal. *)
Ltac destruct_match_goal :=
  match goal with
  | |- context [match ?x with _ => _ end] =>
      lazymatch x with
      | context [match _ with _ => _ end] => fail
      | _ => let H := fresh "Hm" in destruct x eqn:H
      end
  end.

Ltac destruct_match_hyp :=
  match goal with
  | H : context [match ?x with _ => _ end] |- _ =>
      lazymatch x with
      | context [match _ with _ => _ end] => fail
      | _ => let E := fresh "Hm" in destruct x eqn:E
      end
  end.

(** Walk every branch of a definition: split, clean up equations, repeat. *)
Ltac split_matches := repeat (destruct_match_goal; simplify_eq/=).
Ltac split_hyps := simplify_eq/=; repeat (destruct_match_hyp; simplify_eq/=).

(** ** Hint databases *)

Create HintDb cpex.
Create Rewrite HintDb cpex_rw.

#[export] Hint Resolve prefix_nil prefix_app_r : cpex.
#[export] Hint Extern 5 (_ ⊆ _) => set_solver : cpex.

(** ** Generic lemmas *)

Lemma result_bind_ok {T U E} (r : Result T E) (k : T → Result U E) u :
  result_bind r k = Ok u ↔ ∃ v, r = Ok v ∧ k v = Ok u.
Proof. destruct r; simpl; naive_solver. Qed.

Lemma result_bind_err {T U E} (r : Result T E) (k : T → Result U E) e :
  result_bind r k = Err e ↔ r = Err e ∨ ∃ v, r = Ok v ∧ k v = Err e.
Proof. destruct r; simpl; naive_solver. Qed.

Lemma prefix_trans_app {A} (l1 l2 l3 : list A) :
  l1 `prefix_of` l2 → l1 `prefix_of` l2 ++ l3.
Proof. intros ?. by apply prefix_app_r. Qed.

#[export] Hint Resolve prefix_trans_app : cpex.

Lemma forallb_Forall {A} (f : A → bool) l :
  forallb f l = true ↔ Forall (λ x, f x = true) l.
Proof.
  induction l as [|x l IH]; simpl; [naive_solver|].
  by rewrite andb_true_iff, IH, Forall_cons.
Qed.

Lemma existsb_false_Forall {A} (f : A → bool) l :
  existsb f l = false ↔ Forall (λ x, f x = false) l.
Proof.
  induction l as [|x l IH]; simpl; [naive_solver|].
  by rewrite orb_false_iff, IH, Forall_cons.
Qed.

Lemma filter_none {A} (P : A → Prop) `{!∀ x, Decision (P x)} l :
  (∀ x, x ∈ l → ¬ P x) → filter P l = [].
Proof.
  induction l as [|x l IH]; intros Hn; [done|].
  rewrite filter_cons_False by (apply Hn; set_solver). apply IH. set_solver.
Qed.

Lemma filter_every {A} (P : A → Prop) `{!∀ x, Decision (P x)} (l : list A) :
  (∀ x, x ∈ l → P x) → filter P l = l.
Proof.
  induction l as [|x l IH]; intros Ha; [done|].
  rewrite filter_cons_True by (apply Ha; set_solver). f_equal. apply IH. set_solver.
Qed.
