(* ===== verification/RustStd.v ===== *)
(** * The parts of Rust's [str], [char] and [fmt] the sources use

    A Rust [String] is the Rocq [string] of its UTF-8 bytes; a [char] is the
    [string] of its one to four bytes.  Indices are byte offsets, as in Rust.
    [Debug] formatting escapes the ASCII range as [str::escape_debug] does and
    passes bytes above 0x7f through. *)

From S2P Require Import Prelude.
From Stdlib Require Import Ascii.
From stdpp Require Import sorting.

Local Open Scope string_scope.
#[local] Arguments String.append !_ _ /.

(** ** Bytes *)

Definition byte_of (c : ascii) : N := N_of_ascii c.

Definition is_ascii_digit (c : ascii) : bool :=
  (48 <=? byte_of c)%N && (byte_of c <=? 57)%N.
Definition is_ascii_upper (c : ascii) : bool :=
  (65 <=? byte_of c)%N && (byte_of c <=? 90)%N.
Definition is_ascii_lower (c : ascii) : bool :=
  (97 <=? byte_of c)%N && (byte_of c <=? 122)%N.
Definition is_ascii_alphabetic (c : ascii) : bool :=
  is_ascii_upper c || is_ascii_lower c.
Definition is_ascii_alphanumeric (c : ascii) : bool :=
  is_ascii_alphabetic c || is_ascii_digit c.
Definition is_ascii_hexdigit (c : ascii) : bool :=
  is_ascii_digit c
  || ((65 <=? byte_of c)%N && (byte_of c <=? 70)%N)
  || ((97 <=? byte_of c)%N && (byte_of c <=? 102)%N).
(** [u8::is_ascii_whitespace]: space, \t, \n, \x0C, \r (not \x0B). *)
Definition is_ascii_whitespace (c : ascii) : bool :=
  bool_decide (byte_of c ∈ [32; 9; 10; 12; 13]%N).

Definition to_lower_byte (c : ascii) : ascii :=
  if is_ascii_upper c then ascii_of_N (byte_of c + 32) else c.

Fixpoint string_map (f : ascii → ascii) (s : string) : string :=
  match s with
  | EmptyString => EmptyString
  | String c s => String (f c) (string_map f s)
  end.

Definition to_ascii_lowercase (s : string) : string := string_map to_lower_byte s.
Definition eq_ignore_ascii_case (a b : string) : bool :=
  String.eqb (to_ascii_lowercase a) (to_ascii_lowercase b).

Fixpoint bytes (s : string) : list ascii :=
  match s with
  | EmptyString => []
  | String c s => c :: bytes s
  end.

Fixpoint of_bytes (l : list ascii) : string :=
  match l with
  | [] => EmptyString
  | c :: l => String c (of_bytes l)
  end.

(** ** Characters: [str::chars] on UTF-8 *)

Definition is_continuation (c : ascii) : bool :=
  (128 <=? byte_of c)%N && (byte_of c <? 192)%N.

Definition starts_with_continuation (s : string) : bool :=
  match s with
  | EmptyString => false
  | String c _ => is_continuation c
  end.

Fixpoint chars (s : string) : list string :=
  match s with
  | EmptyString => []
  | String c s =>
      match chars s with
      | [] => [String c EmptyString]
      | g :: gs =>
          if starts_with_continuation g then String c g :: gs
          else String c EmptyString :: g :: gs
      end
  end.

Fixpoint concat_str (l : list string) : string :=
  match l with
  | [] => EmptyString
  | s :: l => s +:+ concat_str l
  end.

Definition chr (n : N) : string := String (ascii_of_N n) EmptyString.
Definition utf8_2 (a b : N) : string := String (ascii_of_N a) (chr b).
Definition utf8_3 (a b c : N) : string := String (ascii_of_N a) (utf8_2 b c).

(** The code points of Unicode's [White_Space] property, in UTF-8. *)
Definition white_space : list string :=
  [chr 9; chr 10; chr 11; chr 12; chr 13; chr 32;
   utf8_2 194 133; utf8_2 194 160; utf8_3 225 154 128]
  ++ map (λ n, utf8_3 226 128 (128 + n)) (N.of_nat <$> seq 0 11)
  ++ [utf8_3 226 128 168; utf8_3 226 128 169; utf8_3 226 128 175;
      utf8_3 226 129 159; utf8_3 227 128 128].

Definition is_whitespace (c : string) : bool := existsb (String.eqb c) white_space.

Fixpoint drop_while {A} (f : A → bool) (l : list A) : list A :=
  match l with
  | [] => []
  | x :: l => if f x then drop_while f l else x :: l
  end.

(** [str::trim]. *)
Definition trim (s : string) : string :=
  concat_str (rev (drop_while is_whitespace (rev (drop_while is_whitespace (chars s))))).

(** ** Searching and splitting *)

(** [str::contains] of an ASCII char. *)
Fixpoint contains_char (c : ascii) (s : string) : bool :=
  match s with
  | EmptyString => false
  | String d s => Ascii.eqb c d || contains_char c s
  end.

(** [str::split_once] at the first occurrence of an ASCII char: the text
    before it and the text after it. *)
Fixpoint split_once (c : ascii) (s : string) : option (string * string) :=
  match s with
  | EmptyString => None
  | String d s =>
      if Ascii.eqb c d then Some (EmptyString, s)
      else match split_once c s with
           | Some (a, b) => Some (String d a, b)
           | None => None
           end
  end.

(** [str::split] on an ASCII char: at least one piece. *)
Fixpoint split_on (c : ascii) (s : string) : list string :=
  match s with
  | EmptyString => [EmptyString]
  | String d s =>
      if Ascii.eqb c d then EmptyString :: split_on c s
      else match split_on c s with
           | [] => [String d EmptyString]
           | p :: ps => String d p :: ps
           end
  end.

(** [str::strip_prefix]. *)
Fixpoint strip_prefix (p s : string) : option string :=
  match p, s with
  | EmptyString, s => Some s
  | String a p, String b s => if Ascii.eqb a b then strip_prefix p s else None
  | String _ _, EmptyString => None
  end.

(** [str::strip_suffix] of a char. *)
Definition strip_suffix_char (c : ascii) (s : string) : option string :=
  match rev (bytes s) with
  | d :: r => if Ascii.eqb d c then Some (of_bytes (rev r)) else None
  | [] => None
  end.

Definition starts_with (p s : string) : bool :=
  match strip_prefix p s with Some _ => true | None => false end.

(** ** Formatting *)

Definition quote_char : ascii := ascii_of_N 34.
Definition quote : string := String quote_char EmptyString.
Definition backtick : string := chr 96.
Definition newline : string := chr 10.

Definition hex_digit (n : N) : ascii :=
  if (n <? 10)%N then ascii_of_N (48 + n) else ascii_of_N (87 + n).

Fixpoint hex_fixed (width : nat) (n : N) (acc : string) : string :=
  match width with
  | O => acc
  | S w => hex_fixed w (n / 16) (String (hex_digit (n mod 16)) acc)
  end.
(** [{:016x}] of a [u64]. *)
Definition hex16 (z : Z) : string := hex_fixed 16 (Z.to_N z) EmptyString.

(** One byte of [str::escape_debug] (ASCII range). *)
Definition escape_byte (c : ascii) : string :=
  let n := byte_of c in
  if (n =? 0)%N then "\0"
  else if (n =? 9)%N then "\t"
  else if (n =? 10)%N then "\n"
  else if (n =? 13)%N then "\r"
  else if (n =? 34)%N then "\" +:+ quote
  else if (n =? 92)%N then "\\"
  else if ((n <? 16)%N) then "\u{" +:+ hex_fixed 1 n "}"
  else if ((n <? 32)%N || (n =? 127)%N) then "\u{" +:+ hex_fixed 2 n "}"
  else String c EmptyString.

Definition debug_string (s : string) : string :=
  quote +:+ concat_str (map escape_byte (bytes s)) +:+ quote.

(** [Path::is_absolute] and [Path::join] on Unix. *)
Definition is_absolute (path : string) : bool := starts_with "/" path.
Definition path_join (a b : string) : string :=
  if is_absolute b || String.eqb a EmptyString then b
  else if bool_decide (strip_suffix_char "/"%char a = None) then a +:+ "/" +:+ b else a +:+ b.

Fixpoint join_with (sep : string) (l : list string) : string :=
  match l with
  | [] => EmptyString
  | [s] => s
  | s :: l => s +:+ sep +:+ join_with sep l
  end.

Definition debug_list {A} (f : A → string) (l : list A) : string :=
  "[" +:+ join_with ", " (map f l) +:+ "]".

Definition debug_option {A} (f : A → string) (o : option A) : string :=
  match o with
  | None => "None"
  | Some x => "Some(" +:+ f x +:+ ")"
  end.

Definition show_bool (b : bool) : string := if b then "true" else "false".
Definition show_Z (z : Z) : string := pretty z.
Definition show_nat (n : nat) : string := pretty (N.of_nat n).

(** ** Parsing numbers *)

Definition digit_value (c : ascii) : Z := Z.of_N (byte_of c) - 48.

Fixpoint digits_value (acc : Z) (l : list ascii) : Z :=
  match l with
  | [] => acc
  | c :: l => digits_value (acc * 10 + digit_value c) l
  end.

(** The optional sign of a number: [true] for [-]. *)
Definition take_sign (l : list ascii) : bool * list ascii :=
  match l with
  | c :: r =>
      if (byte_of c =? 45)%N then (true, r)
      else if (byte_of c =? 43)%N then (false, r)
      else (false, l)
  | [] => (false, [])
  end.

(** [str::parse::<i64>]: [None] is the error (empty, bad digit, overflow). *)
Definition parse_i64 (s : string) : option Z :=
  let '(neg, ds) := take_sign (bytes s) in
  match ds with
  | [] => None
  | _ =>
      if forallb is_ascii_digit ds then
        let v := digits_value 0 ds in
        let z := if neg then (- v)%Z else v in
        if in_i64 z then Some z else None
      else None
  end.

(** [str::parse::<u64>], and [usize] on 64 bits: a plus sign is allowed. *)
Definition parse_u64 (s : string) : option Z :=
  let digits := match bytes s with
                | c :: l => if (byte_of c =? 43)%N then l else c :: l
                | [] => []
                end in
  if is_nil digits || negb (forallb is_ascii_digit digits) then None
  else
    let v := digits_value 0 digits in
    if (v <? 2 ^ 64)%Z then Some v else None.

(** ** UTF-8 *)

(** A byte in a range, and the continuation bytes. *)
Definition byte_in (lo hi : N) (c : ascii) : bool := (lo <=? byte_of c)%N && (byte_of c <=? hi)%N.
Abbreviation tail_byte := (byte_in 128 191).

(** [str::from_utf8] accepts: the well-formed sequences of one to four bytes. *)
Fixpoint valid_utf8 (l : list ascii) : bool :=
  match l with
  | [] => true
  | a :: l1 =>
      if byte_in 0 127 a then valid_utf8 l1
      else
        match l1 with
        | [] => false
        | b :: l2 =>
            if byte_in 194 223 a then tail_byte b && valid_utf8 l2
            else
              match l2 with
              | [] => false
              | c :: l3 =>
                  if byte_in 224 239 a then
                    byte_in (if (byte_of a =? 224)%N then 160 else 128)
                      (if (byte_of a =? 237)%N then 159 else 191) b && tail_byte c && valid_utf8 l3
                  else
                    match l3 with
                    | [] => false
                    | d :: l4 =>
                        byte_in 240 244 a
                        && byte_in (if (byte_of a =? 240)%N then 144 else 128)
                             (if (byte_of a =? 244)%N then 143 else 191) b
                        && tail_byte c && tail_byte d && valid_utf8 l4
                    end
              end
        end
  end.

(** ** Character boundaries *)

(** [str::is_char_boundary] and [str::floor_char_boundary]. *)
Definition is_char_boundary (s : string) (i : nat) : bool :=
  match String.get i s with
  | Some c => (i =? 0)%nat || negb (is_continuation c)
  | None => (i =? String.length s)%nat
  end.

Fixpoint floor_char_boundary (s : string) (i : nat) : nat :=
  match i with
  | O => O
  | S j => if is_char_boundary s i then i else floor_char_boundary s j
  end.

(** ** Hashed collections *)

(** The iteration order of hashed collections: unspecified, but every element
    occurs once. *)
Class HashOrder := {
  set_iter : gset string → list string;
  map_iter : ∀ {A}, gmap string A → list (string * A);
  set_iter_perm s : set_iter s ≡ₚ elements s;
  map_iter_perm {A} (m : gmap string A) : map_iter m ≡ₚ map_to_list m
}.

(** [sort] on a [Vec] of strings. *)
Definition sorted_strings (l : list string) : list string := merge_sort String.le l.

(** The elements of a [BTreeSet], or of a sorted [Vec] of distinct strings. *)
Definition sorted_elements (s : gset string) : list string := merge_sort String.le (elements s).

(** [str::to_lowercase]: full Unicode lower-casing. *)
Class UnicodeLower := to_lowercase : string → string.

(** ** Lemmas *)

Lemma append_empty_r s : s +:+ EmptyString = s.
Proof. induction s as [|c s IH]; simpl; [done|]. by rewrite IH. Qed.

Lemma append_assoc a b c : (a +:+ b) +:+ c = a +:+ (b +:+ c).
Proof. induction a as [|x a IH]; simpl; [done|]. by rewrite IH. Qed.

#[export] Hint Rewrite append_empty_r append_assoc : cpex_rw.

Lemma of_bytes_bytes s : of_bytes (bytes s) = s.
Proof. induction s as [|c s IH]; simpl; [done|]. by rewrite IH. Qed.

Lemma length_bytes s : length (bytes s) = String.length s.
Proof. by induction s as [|c s IH]; simpl; [|f_equal]. Qed.

Lemma bytes_append a b : bytes (a +:+ b) = (bytes a ++ bytes b)%list.
Proof. induction a as [|x a IH]; simpl; [done|]. by rewrite IH. Qed.

Lemma concat_str_app l1 l2 : concat_str (l1 ++ l2)%list = concat_str l1 +:+ concat_str l2.
Proof.
  induction l1 as [|s l1 IH]; simpl; [done|]. by rewrite IH, append_assoc.
Qed.

(** [chars] loses nothing: the characters spell the string. *)
Lemma concat_chars s : concat_str (chars s) = s.
Proof.
  induction s as [|c s IH]; [done|]. simpl.
  destruct (chars s) as [|g gs]; simpl in *; [by rewrite <-IH|].
  destruct (starts_with_continuation g); simpl; by rewrite IH.
Qed.

Lemma strip_prefix_spec p s r : strip_prefix p s = Some r ↔ s = p +:+ r.
Proof.
  revert s; induction p as [|a p IH]; intros s; simpl.
  - split; [by intros [= ->]|by intros ->].
  - destruct s as [|b s]; [done|].
    destruct (Ascii.eqb_spec a b) as [->|Hne].
    + rewrite IH. split; [by intros ->|by intros [= ->]].
    + split; [done|]. by intros [= -> _].
Qed.

Lemma split_once_spec c s a b :
  split_once c s = Some (a, b) ↔
  s = a +:+ String c b ∧ contains_char c a = false.
Proof.
  revert a b; induction s as [|d s IH]; intros a b; simpl.
  { split; [done|]. intros [H _]. by destruct a. }
  destruct (Ascii.eqb_spec c d) as [->|Hne].
  - split; [by intros [= <- <-]|]. intros [H Hc].
    destruct a as [|x a]; simpl in *; simplify_eq; [done|].
    by rewrite Ascii.eqb_refl in Hc.
  - transitivity (∃ a', a = String d a' ∧ split_once c s = Some (a', b)).
    + destruct (split_once c s) as [[x y]|]; naive_solver.
    + apply Ascii.eqb_neq in Hne. split.
      * intros (a' & -> & [-> Ha]%IH). simpl. by rewrite Hne.
      * intros [H Hc]. destruct a as [|z a]; simpl in *; simplify_eq.
        { by rewrite Ascii.eqb_refl in Hne. }
        apply orb_false_iff in Hc as [_ Hc]. exists a. by rewrite IH.
Qed.

Lemma split_once_None c s : split_once c s = None ↔ contains_char c s = false.
Proof.
  induction s as [|d s IH]; simpl; [done|].
  destruct (Ascii.eqb c d); simpl; [done|].
  destruct (split_once c s) as [[]|]; naive_solver.
Qed.

Lemma split_on_nonempty c s : split_on c s ≠ [].
Proof.
  destruct s as [|d s]; simpl; [done|].
  destruct (Ascii.eqb c d); [done|]. by destruct (split_on c s).
Qed.

Lemma split_on_no_sep c s : contains_char c s = false → split_on c s = [s].
Proof.
  induction s as [|d s IH]; simpl; [done|].
  intros [-> H]%orb_false_iff. by rewrite (IH H).
Qed.

(** Joining the pieces of a split gives the string back. *)
Lemma join_split c s : join_with (String c EmptyString) (split_on c s) = s.
Proof.
  induction s as [|d s IH]; [done|]. simpl.
  destruct (Ascii.eqb_spec c d) as [->|Hne].
  - destruct (split_on d s) as [|p ps] eqn:E; [by apply split_on_nonempty in E|].
    by rewrite <-IH.
  - destruct (split_on c s) as [|p ps] eqn:E; [by apply split_on_nonempty in E|].
    rewrite <-IH. by destruct ps.
Qed.

Lemma drop_while_In {A} (f : A → bool) l x : In x (drop_while f l) → In x l.
Proof.
  induction l as [|y l IH]; simpl; [done|]. destruct (f y); [by right; auto|done].
Qed.

Lemma contains_char_append c a b :
  contains_char c (a +:+ b) = contains_char c a || contains_char c b.
Proof. induction a as [|d a IH]; simpl; [done|]. by rewrite IH, orb_assoc. Qed.
#[export] Hint Rewrite contains_char_append bytes_append concat_str_app : cpex_rw.

(** *** Iteration order *)

Lemma elem_of_sorted_elements s x : x ∈ sorted_elements s ↔ x ∈ s.
Proof. unfold sorted_elements. rewrite merge_sort_Permutation. apply elem_of_elements. Qed.

Section Iteration.
Context `{order : HashOrder}.

Lemma map_iter_elem {A} (m : gmap string A) k a : (k, a) ∈ map_iter m ↔ m !! k = Some a.
Proof. by rewrite map_iter_perm, elem_of_map_to_list. Qed.

Lemma map_iter_keys {A} (m : gmap string A) : NoDup (map_iter m).*1.
Proof. rewrite map_iter_perm. apply NoDup_fst_map_to_list. Qed.

Lemma set_iter_elem (s : gset string) x : x ∈ set_iter s ↔ x ∈ s.
Proof. by rewrite set_iter_perm, elem_of_elements. Qed.

End Iteration.

Lemma floor_char_boundary_le s i : (floor_char_boundary s i ≤ i)%nat.
Proof. induction i; simpl; [done|]. destruct (is_char_boundary _ _); lia. Qed.

Lemma substring_length s n : (String.length (String.substring 0 n s) ≤ n)%nat.
Proof. revert n. induction s; intros [|n]; simpl; try lia. specialize (IHs n). lia. Qed.

Lemma string_app_length a b : String.length (a +:+ b) = (String.length a + String.length b)%nat.
Proof. induction a; simpl; [done|]. by rewrite IHa. Qed.
