(* ===== verification/F64.v ===== *)
(** * Rust's [f64]

    IEEE binary64 values are the Standard Library's [spec_float] at precision
    53 and maximal exponent 1024, a definition with no axioms.  [as f64] from
    an [i64] rounds to nearest even; parsing a decimal rounds the exact
    rational once; [Display] and [Debug] print the shortest digits that read
    back as the same value. *)

From S2P Require Import Prelude RustStd.
From Stdlib Require Import Ascii SpecFloat.

Local Open Scope string_scope.
Local Open Scope Z_scope.

Abbreviation f64 := spec_float.

Definition f64_prec : Z := 53.
Definition f64_emax : Z := 1024.

(** [z as f64]. *)
Definition f64_of_Z (z : Z) : f64 := binary_normalize f64_prec f64_emax z 0 false.

(** [a == b], [a < b], [a <= b]; every comparison with NaN is [false]. *)
Definition f64_eqb (a b : f64) : bool := SFeqb a b.
Definition f64_ltb (a b : f64) : bool := SFltb a b.
Definition f64_leb (a b : f64) : bool := SFleb a b.

(** The value nearest to [num / den], rounded once. *)
Definition f64_of_ratio (neg : bool) (num den : positive) : f64 :=
  SFdiv f64_prec f64_emax (S754_finite neg num 0) (S754_finite false den 0).

(** The value nearest to [m * 10 ^ e]. *)
Definition f64_of_decimal (neg : bool) (m e : Z) : f64 :=
  match m with
  | Zpos p =>
      if 0 <=? e then f64_of_ratio neg (p * Z.to_pos (10 ^ e)) 1
      else f64_of_ratio neg p (Z.to_pos (10 ^ (- e)))
  | _ => S754_zero neg
  end.

(** ** [str::parse::<f64>] *)

Fixpoint span {A} (f : A → bool) (l : list A) : list A * list A :=
  match l with
  | [] => ([], [])
  | x :: r => if f x then let '(a, b) := span f r in (x :: a, b) else ([], l)
  end.

Definition is_byte (n : N) (c : ascii) : bool := (byte_of c =? n)%N.

(** The exponent part [e] sign? digit+, or nothing. *)
Definition parse_exponent (l : list ascii) : option Z :=
  match l with
  | [] => Some 0
  | c :: r =>
      if is_byte 101 c || is_byte 69 c then
        let '(neg, ds) := take_sign r in
        match ds with
        | [] => None
        | _ =>
            if forallb is_ascii_digit ds then
              let v := digits_value 0 ds in
              Some (if neg then - v else v)
            else None
        end
      else None
  end.

Definition parse_decimal (neg : bool) (l : list ascii) : option f64 :=
  let '(ip, r1) := span is_ascii_digit l in
  let '(fp, r2) :=
    match r1 with
    | c :: r => if is_byte 46 c then span is_ascii_digit r else ([], r1)
    | [] => ([], [])
    end in
  match ip, fp with
  | [], [] => None
  | _, _ =>
      match parse_exponent r2 with
      | Some e =>
          Some (f64_of_decimal neg (digits_value 0 (ip ++ fp)%list)
                  (e - Z.of_nat (length fp)))
      | None => None
      end
  end.

Definition parse_f64 (s : string) : option f64 :=
  let '(neg, r) := take_sign (bytes s) in
  let low := to_ascii_lowercase (of_bytes r) in
  if String.eqb low "inf" || String.eqb low "infinity" then Some (S754_infinity neg)
  else if String.eqb low "nan" then Some S754_nan
  else parse_decimal neg r.

(** ** Printing *)

(** Number of decimal digits of a positive integer. *)
Fixpoint dec_len (fuel : nat) (z : Z) : Z :=
  match fuel with
  | O => 1
  | S k => if z <? 10 then 1 else 1 + dec_len k (z / 10)
  end.

(** Least [j >= 1] with [num * 10 ^ j >= den]. *)
Fixpoint leading_zeros (fuel : nat) (num den : Z) : Z :=
  match fuel with
  | O => 1
  | S k => if den <=? num * 10 then 1 else 1 + leading_zeros k (num * 10) den
  end.

(** [k] with [10 ^ (k-1) <= num / den < 10 ^ k]; a finite value has at most
    309 integer digits and at most 324 leading zeros. *)
Definition dec_exponent (num den : Z) : Z :=
  if den <=? num then dec_len 320 (num / den) else 1 - leading_zeros 330 num den.

(** A decimal with [n] digits that reads back as [x], the nearest if two do. *)
Definition digits_at (x : f64) (num den k n : Z) : option (Z * Z) :=
  let p := n - k in
  let nm := if 0 <=? p then num * 10 ^ p else num in
  let dn := if 0 <=? p then den else den * 10 ^ (- p) in
  let d := nm / dn in
  let lo := f64_eqb (f64_of_decimal false d (- p)) x in
  let hi := f64_eqb (f64_of_decimal false (d + 1) (- p)) x in
  if lo && hi then Some (if 2 * (nm - d * dn) <=? dn then (d, - p) else (d + 1, - p))
  else if lo then Some (d, - p)
  else if hi then Some (d + 1, - p)
  else None.

Fixpoint shortest_from (fuel : nat) (x : f64) (num den k n : Z) : Z * Z :=
  match fuel with
  | O => (0, 0)
  | S f =>
      match digits_at x num den k n with
      | Some r => r
      | None => shortest_from f x num den k (n + 1)
      end
  end.

Fixpoint strip_zeros (fuel : nat) (d e : Z) : Z * Z :=
  match fuel with
  | O => (d, e)
  | S f => if d mod 10 =? 0 then strip_zeros f (d / 10) (e + 1) else (d, e)
  end.

(** Shortest digits and decimal exponent of [m * 2 ^ e]: 17 digits suffice. *)
Definition shortest (m : positive) (e : Z) : Z * Z :=
  let num := if 0 <=? e then Zpos m * 2 ^ e else Zpos m in
  let den := if 0 <=? e then 1 else 2 ^ (- e) in
  let k := dec_exponent num den in
  let '(d, x) := shortest_from 17 (S754_finite false m e) num den k 1 in
  strip_zeros 20 d x.

Fixpoint zeros (n : nat) : string :=
  match n with O => EmptyString | S k => String "0"%char (zeros k) end.

Definition insert_point (ds : string) (e : Z) : string :=
  let len := Z.of_nat (String.length ds) in
  if - e <? len then
    String.substring 0 (Z.to_nat (len + e)) ds +:+ "."
      +:+ String.substring (Z.to_nat (len + e)) (Z.to_nat (- e)) ds
  else "0." +:+ zeros (Z.to_nat (- e - len)) +:+ ds.

Definition with_sign (neg : bool) (s : string) : string := if neg then "-" +:+ s else s.

(** [f64::to_string] ([Display]). *)
Definition f64_display (x : f64) : string :=
  match x with
  | S754_nan => "NaN"
  | S754_infinity neg => with_sign neg "inf"
  | S754_zero neg => with_sign neg "0"
  | S754_finite neg m e =>
      let '(d, x) := shortest m e in
      with_sign neg
        (if 0 <=? x then show_Z d +:+ zeros (Z.to_nat x) else insert_point (show_Z d) x)
  end.

(** [{:?}] of an [f64]: a fraction is always shown, and values outside
    [[1e-4, 1e16)] use an exponent. *)
Definition f64_debug (x : f64) : string :=
  match x with
  | S754_nan => "NaN"
  | S754_infinity neg => with_sign neg "inf"
  | S754_zero neg => with_sign neg "0.0"
  | S754_finite neg m e =>
      let '(d, x) := shortest m e in
      let ds := show_Z d in
      let len := Z.of_nat (String.length ds) in
      let sci := len + x - 1 in
      with_sign neg
        (if (16 <=? sci) || (sci <? -4) then
           String.substring 0 1 ds
             +:+ (if 1 <? len
                  then "." +:+ String.substring 1 (String.length ds - 1) ds
                  else EmptyString)
             +:+ "e" +:+ show_Z sci
         else if 0 <=? x then ds +:+ zeros (Z.to_nat x) +:+ ".0"
         else insert_point ds x)
  end.

(** ** Checks *)

Example f64_parse_display :
  map (λ s, f64_display <$> parse_f64 s)
      ["25000"; "2.5"; ".1"; "-0.30"; "1e3"; "1e-7"; "inf"; "x"; "."; "123456789012345678"]
  = [Some "25000"; Some "2.5"; Some "0.1"; Some "-0.3"; Some "1000"; Some "0.0000001";
     Some "inf"; None; None; Some "123456789012345680"].
Proof. vm_compute. reflexivity. Qed.

Example f64_debug_forms :
  map (λ s, f64_debug <$> parse_f64 s) ["5"; "0.25"; "1e16"; "0.00001"; "1.5e300"]
  = [Some "5.0"; Some "0.25"; Some "1e16"; Some "1e-5"; Some "1.5e300"].
Proof. vm_compute. reflexivity. Qed.

(** An [i64] above 2^53 loses precision: the promotion is not injective. *)
Example f64_of_Z_rounds : f64_of_Z (2 ^ 53 + 1) = f64_of_Z (2 ^ 53).
Proof. vm_compute. reflexivity. Qed.

Lemma f64_eqb_nan x : f64_eqb x S754_nan = false.
Proof. by destruct x. Qed.
