(* ===== verification/Json.v ===== *)
(** * JSON values and dotted paths

    [serde_json::Value] with its documented shape (objects are maps, a number
    is a [u64], a negative [i64] or an [f64]), the accessors the sources use,
    and the three path operations of [apl-core/src/route.rs]. *)

From S2P Require Import Prelude RustStd F64.
From Stdlib Require Import Ascii.

Local Open Scope string_scope.

(** ** [serde_json::Number] and [serde_json::Value] *)

Inductive Number :=
| PosInt (n : Z)      (** a [u64] *)
| NegInt (n : Z)      (** an [i64] below zero *)
| NumFloat (f : f64).

Inductive Value :=
| Null
| VBool (b : bool)
| VNumber (n : Number)
| VString (s : string)
| VArray (l : list Value)
| VObject (m : gmap string Value).

Definition number_as_i64 (n : Number) : option Z :=
  match n with
  | PosInt z => if (z <=? i64_max)%Z then Some z else None
  | NegInt z => Some z
  | NumFloat _ => None
  end.

Definition as_i64 (v : Value) : option Z :=
  match v with VNumber n => number_as_i64 n | _ => None end.
Definition is_i64 (v : Value) : bool := bool_decide (is_Some (as_i64 v)).
Definition is_f64 (v : Value) : bool :=
  match v with VNumber (NumFloat _) => true | _ => false end.
Definition is_string (v : Value) : bool := match v with VString _ => true | _ => false end.
Definition is_boolean (v : Value) : bool := match v with VBool _ => true | _ => false end.
Definition is_object (v : Value) : bool := match v with VObject _ => true | _ => false end.
Definition as_str (v : Value) : option string :=
  match v with VString s => Some s | _ => None end.

(** [Value::get] with a string index: only objects have string keys. *)
Definition value_get (v : Value) (k : string) : option Value :=
  match v with VObject m => m !! k | _ => None end.

(** ** Dotted paths (route.rs) *)

Definition dot : ascii := "."%char.

Fixpoint get_segments (cur : Value) (segs : list string) : option Value :=
  match segs with
  | [] => Some cur
  | seg :: segs =>
      match value_get cur seg with
      | Some next => get_segments next segs
      | None => None
      end
  end.

Definition get_dotted (root : Value) (path : string) : option Value :=
  get_segments root (split_on dot path).

(** The parents of a path are walked with [get_mut]; each must be an object.
    The last segment is the leaf.  [f] is what happens to the object that holds
    the leaf: the updated map and the reported success. *)
Fixpoint update_segments (f : gmap string Value → string → gmap string Value * bool)
    (cur : Value) (segs : list string) : Value * bool :=
  match segs with
  | [] => (cur, false)
  | [leaf] =>
      match cur with
      | VObject m => let '(m', ok) := f m leaf in (VObject m', ok)
      | _ => (cur, false)
      end
  | seg :: segs =>
      match cur with
      | VObject m =>
          match m !! seg with
          | Some next =>
              if is_object next then
                let '(next', ok) := update_segments f next segs in
                (VObject (<[seg := next']> m), ok)
              else (cur, false)
          | None => (cur, false)
          end
      | _ => (cur, false)
      end
  end.

Definition insert_leaf (value : Value) (m : gmap string Value) (leaf : string) :
    gmap string Value * bool :=
  (<[leaf := value]> m, true).
Definition remove_leaf (m : gmap string Value) (leaf : string) :
    gmap string Value * bool :=
  (delete leaf m, bool_decide (is_Some (m !! leaf))).

Definition set_dotted (root : Value) (path : string) (value : Value) : Value * bool :=
  update_segments (insert_leaf value) root (split_on dot path).
Definition remove_dotted (root : Value) (path : string) : Value * bool :=
  update_segments remove_leaf root (split_on dot path).

(** ** Lemmas on segments *)

Definition descend (f : gmap string Value → string → gmap string Value * bool)
    (m : gmap string Value) (seg : string) (segs : list string) : Value * bool :=
  match m !! seg with
  | Some next =>
      if is_object next then
        let '(next', ok) := update_segments f next segs in
        (VObject (<[seg := next']> m), ok)
      else (VObject m, false)
  | None => (VObject m, false)
  end.

Lemma update_segments_descend f m seg segs :
  segs ≠ [] →
  update_segments f (VObject m) (seg :: segs) = descend f m seg segs.
Proof. by destruct segs. Qed.

Lemma update_segments_not_object f cur segs :
  is_object cur = false → update_segments f cur segs = (cur, false).
Proof. destruct segs as [|s [|s' segs]]; destruct cur; simpl; done. Qed.

Lemma update_segments_false f cur segs v :
  (∀ m leaf m', f m leaf = (m', false) → m' = m) →
  update_segments f cur segs = (v, false) → v = cur.
Proof.
  intros Hf. revert cur v.
  induction segs as [|seg segs IH]; intros cur v; [by simpl; intros [= ->]|].
  destruct (is_object cur) eqn:Eo; [|by rewrite update_segments_not_object; naive_solver].
  destruct cur as [| | | | |m]; try done.
  destruct (decide (segs = [])) as [->|Hne].
  - simpl. destruct (f m seg) as [m' []] eqn:E; intros; simplify_eq.
    by rewrite (Hf _ _ _ E).
  - rewrite update_segments_descend by done. unfold descend.
    destruct (m !! seg) as [next|] eqn:Em; [|naive_solver].
    destruct (is_object next); [|naive_solver].
    destruct (update_segments f next segs) as [next' ok] eqn:E.
    intros; simplify_eq. apply IH in E as ->. by rewrite insert_id.
Qed.

Lemma get_segments_object cur segs v :
  get_segments cur segs = Some v → segs ≠ [] → is_object cur = true.
Proof. destruct segs; [done|]. by destruct cur. Qed.

(** A write either reaches the object that holds the leaf and is read back, or
    reports failure. *)
Lemma set_segments_get value cur segs cur' :
  update_segments (insert_leaf value) cur segs = (cur', true) →
  get_segments cur' segs = Some value.
Proof.
  revert cur cur'. induction segs as [|seg segs IH]; intros cur cur'; [done|].
  destruct (is_object cur) eqn:Eo; [|by rewrite update_segments_not_object].
  destruct cur as [| | | | |m]; try done.
  destruct (decide (segs = [])) as [->|Hne].
  - intros [= <-]. simpl. by rewrite lookup_insert_eq.
  - rewrite update_segments_descend by done. unfold descend.
    destruct (m !! seg) as [next|]; [|done]. destruct (is_object next); [|done].
    destruct (update_segments (insert_leaf value) next segs) as [n []] eqn:E;
      intros; simplify_eq.
    simpl. rewrite lookup_insert_eq. eauto.
Qed.

Lemma set_segments_existing value cur segs v :
  segs ≠ [] → get_segments cur segs = Some v →
  (update_segments (insert_leaf value) cur segs).2 = true.
Proof.
  revert cur. induction segs as [|seg segs IH]; intros cur Hne Hget; [done|].
  simpl in Hget. destruct (value_get cur seg) as [next|] eqn:E; [|done].
  destruct cur as [| | | | |m]; try done. simpl in E.
  destruct (decide (segs = [])) as [->|Hn]; [done|].
  rewrite update_segments_descend by done. unfold descend. rewrite E.
  rewrite (get_segments_object _ _ _ Hget) by done.
  specialize (IH _ Hn Hget). by destruct (update_segments _ next segs).
Qed.

(** A path that leaves [segs] at some segment keeps its value, whatever the
    leaf operation, as long as it touches no other key of the leaf's object. *)
Definition leaf_local (f : gmap string Value → string → gmap string Value * bool) : Prop :=
  ∀ m leaf k, k ≠ leaf → (f m leaf).1 !! k = m !! k.

Inductive diverges : list string → list string → Prop :=
| diverges_here a b l1 l2 : a ≠ b → diverges (a :: l1) (b :: l2)
| diverges_later a l1 l2 : diverges l1 l2 → diverges (a :: l1) (a :: l2).

Lemma update_segments_frame f cur segs other :
  leaf_local f → diverges segs other →
  get_segments (update_segments f cur segs).1 other = get_segments cur other.
Proof.
  intros Hf Hd. revert cur. induction Hd as [a b l1 l2 Hab|a l1 l2 Hd IH]; intros cur;
    (destruct (is_object cur) eqn:Eo; [|by rewrite update_segments_not_object]);
    destruct cur as [| | | | |m]; try done.
  - destruct (decide (l1 = [])) as [->|Hne].
    + simpl. pose proof (Hf m a b ltac:(done)) as H.
      destruct (f m a) as [m' ok]; simpl in *. by rewrite H.
    + rewrite update_segments_descend by done. unfold descend.
      destruct (m !! a) as [next|]; [|done]. destruct (is_object next); [|done].
      destruct (update_segments f next l1) as [n ok]. simpl.
      by rewrite lookup_insert_ne.
  - assert (l1 ≠ []) as Hne by (by inversion Hd).
    rewrite update_segments_descend by done. unfold descend.
    destruct (m !! a) as [next|] eqn:Em; [|done]. destruct (is_object next); [|done].
    specialize (IH next). destruct (update_segments f next l1) as [n ok]. simpl in *.
    by rewrite lookup_insert_eq, Em.
Qed.

Lemma insert_leaf_local v : leaf_local (insert_leaf v).
Proof. intros m leaf k Hk. simpl. by rewrite lookup_insert_ne. Qed.

Lemma remove_leaf_local : leaf_local remove_leaf.
Proof. intros m leaf k Hk. simpl. by rewrite lookup_delete_ne. Qed.

Lemma remove_leaf_false m leaf m' : remove_leaf m leaf = (m', false) → m' = m.
Proof.
  unfold remove_leaf. intros [= <- H]. apply bool_decide_eq_false in H.
  apply delete_id. by apply eq_None_not_Some.
Qed.

Lemma remove_segments_spec cur segs :
  segs ≠ [] →
  get_segments (update_segments remove_leaf cur segs).1 segs = None
  ∧ ((update_segments remove_leaf cur segs).2 = true
     ↔ is_Some (get_segments cur segs)).
Proof.
  revert cur. induction segs as [|seg segs IH]; intros cur Hne; [done|].
  destruct (is_object cur) eqn:Eo.
  2: { rewrite update_segments_not_object by done.
       destruct cur; simpl; try done; split; try done; split; try done; by intros []. }
  destruct cur as [| | | | |m]; try done.
  destruct (decide (segs = [])) as [->|Hn].
  - simpl. rewrite lookup_delete_eq, bool_decide_eq_true. split; [done|].
    destruct (m !! seg); naive_solver.
  - rewrite update_segments_descend by done. unfold descend. simpl.
    destruct (m !! seg) as [next|] eqn:Em.
    2: { simpl. rewrite Em. split; [done|]. split; [done|by intros []]. }
    destruct (is_object next) eqn:En.
    + destruct (IH next Hn) as [H1 H2].
      destruct (update_segments remove_leaf next segs) as [n ok]. simpl in *.
      rewrite lookup_insert_eq. done.
    + simpl. rewrite Em.
      destruct (get_segments next segs) as [v|] eqn:Eg.
      * by apply get_segments_object in Eg; rewrite ?Eg in En.
      * split; [done|]. split; [done|by intros []].
Qed.

(** ** Properties of the path operations *)

Lemma set_dotted_false root path v root' :
  set_dotted root path v = (root', false) → root' = root.
Proof. apply update_segments_false. by unfold insert_leaf. Qed.

Lemma remove_dotted_false root path root' :
  remove_dotted root path = (root', false) → root' = root.
Proof. apply update_segments_false, remove_leaf_false. Qed.

#[export] Hint Resolve split_on_nonempty insert_leaf_local remove_leaf_local : cpex.
