(* ===== verification/JsonMerge.v ===== *)
(** * Merging JSON trees

    Equality of [serde_json::Value], the three-way merge
    [apply_changed_paths] that folds a pipeline's edits into a payload a plugin
    has rewritten (apl-cpex/src/message_projection.rs), and the static [data.*]
    tree with its conflict-checked merge (apl-core/src/attribute_source.rs and
    apl-cpex/src/attribute_source.rs).  Objects are iterated in the order of
    the class [HashOrder], since serde_json's map has an iteration order that
    depends on how it is built. *)

From S2P Require Import Prelude RustStd F64 Json.

Local Open Scope string_scope.
Local Open Scope list_scope.

(** ** Depth and induction *)

Fixpoint value_depth (v : Value) : nat :=
  match v with
  | VArray l => S (foldr (λ x n, max (value_depth x) n) 0 l)
  | VObject m => S (map_fold (λ _ x n, max (value_depth x) n) 0 m)
  | _ => 0
  end.

Lemma depth_array x l : x ∈ l → value_depth x < value_depth (VArray l).
Proof.
  simpl. induction l as [|y l IH]; [by intros ?%not_elem_of_nil|].
  intros [<-|Hx]%elem_of_cons; simpl; [lia|]. specialize (IH Hx). lia.
Qed.

Lemma depth_object k v m : m !! k = Some v → value_depth v < value_depth (VObject m).
Proof.
  simpl. rewrite map_fold_foldr. intros Hk%elem_of_map_to_list.
  induction (map_to_list m) as [|[k' v'] l IH]; [by apply not_elem_of_nil in Hk|].
  apply elem_of_cons in Hk as [[= <- <-]|Hk]; simpl; [lia|]. specialize (IH Hk). lia.
Qed.

Lemma Value_nested_ind (Q : Value → Prop) :
  Q Null → (∀ b, Q (VBool b)) → (∀ n, Q (VNumber n)) → (∀ s, Q (VString s)) →
  (∀ l, Forall Q l → Q (VArray l)) → (∀ m, map_Forall (λ _, Q) m → Q (VObject m)) →
  ∀ v, Q v.
Proof.
  intros Hnull Hb Hn Hs Ha Ho v. remember (value_depth v) as d eqn:Hd.
  revert v Hd. induction (lt_wf d) as [d _ IH]. intros [|b|n|s|l|m] ->; auto.
  - apply Ha, Forall_forall. intros x Hx. eapply IH; [|done]. by apply depth_array.
  - apply Ho. intros k x Hx. eapply IH; [|done]. by eapply depth_object.
Qed.

(** ** Equality *)

Definition number_eqb (a b : Number) : bool :=
  match a, b with
  | PosInt x, PosInt y | NegInt x, NegInt y => (x =? y)%Z
  | NumFloat x, NumFloat y => f64_eqb x y
  | _, _ => false
  end.

(** [PartialEq] of [Value]: elementwise on arrays, and on objects the same
    number of keys with equal values. *)
Fixpoint value_eqb (a b : Value) : bool :=
  match a, b with
  | Null, Null => true
  | VBool x, VBool y => Bool.eqb x y
  | VNumber x, VNumber y => number_eqb x y
  | VString x, VString y => String.eqb x y
  | VArray l, VArray k =>
      (fix go l k := match l, k with
                     | [], [] => true
                     | x :: l, y :: k => value_eqb x y && go l k
                     | _, _ => false
                     end) l k
  | VObject m, VObject n =>
      (size m =? size n)%nat
      && map_fold (λ k x acc, match n !! k with Some y => value_eqb x y | None => false end && acc)
           true m
  | _, _ => false
  end.

Lemma value_eqb_object m n :
  value_eqb (VObject m) (VObject n) = true ↔
  ∀ k, match m !! k, n !! k with
       | Some x, Some y => value_eqb x y = true
       | None, None => True
       | _, _ => False
       end.
Proof.
  assert (map_fold (λ k x acc, match n !! k with Some y => value_eqb x y | None => false end && acc)
            true m = true
          ↔ map_Forall (λ k x, ∃ y, n !! k = Some y ∧ value_eqb x y = true) m) as Hfold.
  { rewrite map_fold_foldr, map_Forall_to_list.
    induction (map_to_list m) as [|[k x] l IH]; simpl; [by split|].
    rewrite andb_true_iff, IH, Forall_cons. simpl.
    destruct (n !! k) as [y|]; split; naive_solver. }
  simpl. rewrite andb_true_iff, Nat.eqb_eq, Hfold. split.
  - intros [Hsz Hall] k.
    assert (dom m = dom n :> gset string) as Hd.
    { apply set_subseteq_size_eq; [|by rewrite !size_dom, Hsz].
      intros j [x Hx]%elem_of_dom. apply elem_of_dom. destruct (Hall j x Hx) as (y & -> & _). done. }
    destruct (m !! k) as [x|] eqn:Ek.
    + destruct (Hall k x Ek) as (y & -> & Hy). done.
    + apply not_elem_of_dom in Ek. rewrite Hd in Ek. apply not_elem_of_dom in Ek. by rewrite Ek.
  - intros Hk. split.
    + rewrite <- !(size_dom (D := gset string)). f_equal. apply leibniz_equiv. intros k.
      rewrite !elem_of_dom. specialize (Hk k).
      destruct (m !! k), (n !! k); try done; split; intros []; done.
    + intros k x Hx. specialize (Hk k). rewrite Hx in Hk. destruct (n !! k) as [y|]; [|done]. eauto.
Qed.

(** [serde_json] numbers are never NaN. *)
Fixpoint no_nan (v : Value) : bool :=
  match v with
  | VNumber (NumFloat f) => f64_eqb f f
  | VArray l => forallb no_nan l
  | VObject m => map_fold (λ _ x acc, no_nan x && acc) true m
  | _ => true
  end.

Lemma no_nan_object m : no_nan (VObject m) = true ↔ map_Forall (λ _ x, no_nan x = true) m.
Proof.
  simpl. rewrite map_fold_foldr, map_Forall_to_list.
  induction (map_to_list m) as [|[k x] l IH]; simpl; [by split|].
  by rewrite andb_true_iff, IH, Forall_cons.
Qed.

Lemma value_eqb_refl v : no_nan v = true → value_eqb v v = true.
Proof.
  induction v as [|b|n|s|l IH|m IH] using Value_nested_ind; intros Hn.
  - done.
  - apply Bool.eqb_reflx.
  - destruct n; simpl; [apply Z.eqb_refl|apply Z.eqb_refl|done].
  - apply String.eqb_refl.
  - simpl in *. induction IH as [|x l Hx Hl IHl]; [done|]. simpl in Hn.
    apply andb_true_iff in Hn as [Hnx Hnl]. by rewrite Hx, IHl.
  - apply no_nan_object in Hn. apply value_eqb_object. intros k.
    destruct (m !! k) eqn:E; [|done]. by apply (IH k), (Hn k).
Qed.

(** ** Loops over a map

    A loop over the entries of a map that only touches the key at hand does the
    same in every order. *)

Section Loops.
Context `{order : HashOrder}.

Lemma key_loop {A B} (f : gmap string B → string * A → gmap string B)
    (g : string → A → option B → option B) :
  (∀ b k a, f b (k, a) !! k = g k a (b !! k)) →
  (∀ b k a j, j ≠ k → f b (k, a) !! j = b !! j) →
  ∀ l b, NoDup l.*1 → ∀ j,
    (∀ a, (j, a) ∈ l → foldl f b l !! j = g j a (b !! j))
    ∧ ((j ∉ l.*1) → foldl f b l !! j = b !! j).
Proof.
  intros Hk Hne l. induction l as [|[k a] l IH]; intros b Hnd j; simpl.
  { split; [by intros a ?%not_elem_of_nil|done]. }
  apply NoDup_cons in Hnd as [Hkl Hnd]. destruct (IH (f b (k, a)) Hnd j) as [Hin Hout]. split.
  - intros a' [[= -> ->]|Ha]%elem_of_cons; [by rewrite Hout, Hk|].
    rewrite (Hin a' Ha), Hne; [done|]. intros ->. apply Hkl.
    by apply (list_elem_of_fmap_2 fst _ (k, a')).
  - intros [Hjk Hjl]%not_elem_of_cons. by rewrite Hout, Hne.
Qed.

Lemma map_loop {A B} (f : gmap string B → string * A → gmap string B)
    (g : string → A → option B → option B) (m : gmap string A) b j :
  (∀ b k a, f b (k, a) !! k = g k a (b !! k)) →
  (∀ b k a j, j ≠ k → f b (k, a) !! j = b !! j) →
  foldl f b (map_iter m) !! j
  = match m !! j with Some a => g j a (b !! j) | None => b !! j end.
Proof.
  intros Hk Hne. destruct (key_loop f g Hk Hne _ b (map_iter_keys m) j) as [Hin Hout].
  destruct (m !! j) as [a|] eqn:E; [by apply Hin, map_iter_elem|]. apply Hout.
  intros ([j' a] & -> & Ha)%list_elem_of_fmap. apply map_iter_elem in Ha. simpl in E. congruence.
Qed.

(** ** The three-way merge (message_projection.rs) *)

(** First loop: a key the pipeline dropped goes. *)
Definition drop_omitted (post_map base_map : gmap string Value) (p : string * Value) :
    gmap string Value :=
  if is_none (post_map !! p.1) then delete p.1 base_map else base_map.

(** Second loop: a key the pipeline rewrote or added. *)
Definition change_key (nested : Value → Value → Value → Value) (pre_map base_map : gmap string Value)
    (p : string * Value) : gmap string Value :=
  let '(key, post_value) := p in
  match pre_map !! key with
  | Some pre_value =>
      if value_eqb pre_value post_value then base_map
      else
        match base_map !! key with
        | Some base_value =>
            if is_object base_value && (is_object pre_value && is_object post_value) then
              <[key := nested base_value pre_value post_value]> base_map
            else <[key := post_value]> base_map
        | None => <[key := post_value]> base_map
        end
  | None => <[key := post_value]> base_map
  end.

Fixpoint apply_changed_paths (fuel : nat) (base pre post : Value) : Value :=
  match fuel with
  | O => base
  | S fuel =>
      match pre, post with
      | VObject pre_map, VObject post_map =>
          match base with
          | VObject base_map =>
              let base_map := foldl (drop_omitted post_map) base_map (map_iter pre_map) in
              VObject (foldl (change_key (apply_changed_paths fuel) pre_map) base_map
                         (map_iter post_map))
          | _ => post
          end
      | _, _ => if value_eqb pre post then base else post
      end
  end.

(** The recursion descends in [pre], so its depth is enough fuel. *)
Definition merge_changes (base pre post : Value) : Value :=
  apply_changed_paths (S (value_depth pre)) base pre post.

(** What happens to one key. *)
Definition changed_key (nested : Value → Value → Value → Value)
    (base pre post : option Value) : option Value :=
  match post, pre with
  | None, None => base
  | None, Some _ => None
  | Some q, None => Some q
  | Some q, Some p =>
      if value_eqb p q then base
      else
        match base with
        | Some b =>
            if is_object b && (is_object p && is_object q) then Some (nested b p q) else Some q
        | None => Some q
        end
  end.

Lemma drop_loop pre_map post_map base_map k :
  foldl (drop_omitted post_map) base_map (map_iter pre_map) !! k
  = if is_none (post_map !! k) && negb (is_none (pre_map !! k)) then None else base_map !! k.
Proof.
  rewrite (map_loop _ (λ k _ b, if is_none (post_map !! k) then None else b)).
  - destruct (pre_map !! k), (post_map !! k); done.
  - intros b j a. unfold drop_omitted. simpl. case_match; [apply lookup_delete_eq|done].
  - intros b j a j' Hj. unfold drop_omitted. simpl. case_match; [by rewrite lookup_delete_ne|done].
Qed.

Lemma change_loop nested pre_map post_map base_map k :
  foldl (change_key nested pre_map) base_map (map_iter post_map) !! k
  = match post_map !! k with
    | Some q => changed_key nested (base_map !! k) (pre_map !! k) (Some q)
    | None => base_map !! k
    end.
Proof.
  rewrite (map_loop _ (λ k q b, changed_key nested b (pre_map !! k) (Some q))); [done| |].
  - intros b j q. simpl. destruct (pre_map !! j) as [p|]; [|apply lookup_insert_eq].
    destruct (value_eqb p q); [done|]. destruct (b !! j); [|apply lookup_insert_eq].
    destruct (_ && _); apply lookup_insert_eq.
  - intros b j q j' Hj. simpl. repeat case_match; by rewrite ?lookup_insert_ne by done.
Qed.

Lemma apply_changed_key fuel base_map pre_map post_map :
  ∃ r, apply_changed_paths (S fuel) (VObject base_map) (VObject pre_map) (VObject post_map) = VObject r
    ∧ ∀ k, r !! k = changed_key (apply_changed_paths fuel) (base_map !! k) (pre_map !! k) (post_map !! k).
Proof.
  eexists. split; [reflexivity|]. intros k. rewrite change_loop, drop_loop.
  destruct (post_map !! k) as [q|], (pre_map !! k) as [p|]; done.
Qed.

Lemma changed_key_ext f g b p q :
  (∀ b' p' q', p = Some p' → f b' p' q' = g b' p' q') → changed_key f b p q = changed_key g b p q.
Proof.
  intros He. destruct q as [q|], p as [p|]; simpl; try done.
  destruct (value_eqb p q); [done|]. destruct b as [b|]; [|done].
  destruct (_ && _); [|done]. by rewrite He.
Qed.

Lemma apply_fuel pre base post fuel :
  value_depth pre < fuel → apply_changed_paths fuel base pre post = merge_changes base pre post.
Proof.
  unfold merge_changes. intros Hf. remember (S (value_depth pre)) as f2 eqn:Hf2.
  assert (value_depth pre < f2) as Hlt by lia. clear Hf2. revert pre base post f2 Hf Hlt.
  induction fuel as [|fuel IH]; intros pre base post [|f2] H1 H2; try lia.
  destruct pre as [| | | | |pm]; try done. destruct post as [| | | | |qm]; try done.
  destruct base as [| | | | |bm]; try done.
  destruct (apply_changed_key fuel bm pm qm) as (r1 & E1 & L1).
  destruct (apply_changed_key f2 bm pm qm) as (r2 & E2 & L2). rewrite E1, E2. f_equal.
  apply map_eq. intros k. rewrite L1, L2. apply changed_key_ext. intros b p q Hp.
  pose proof (depth_object _ _ _ Hp). apply IH; lia.
Qed.

(** [merge_changes] satisfies the equations of the source, with no fuel. *)
Lemma merge_changes_object base_map pre_map post_map :
  ∃ r, merge_changes (VObject base_map) (VObject pre_map) (VObject post_map) = VObject r
    ∧ ∀ k, r !! k = changed_key merge_changes (base_map !! k) (pre_map !! k) (post_map !! k).
Proof.
  unfold merge_changes at 1.
  destruct (apply_changed_key (value_depth (VObject pre_map)) base_map pre_map post_map)
    as (r & E & L).
  exists r. split; [done|]. intros k. rewrite L. apply changed_key_ext.
  intros b p q Hp. apply apply_fuel. by eapply depth_object.
Qed.

Lemma merge_changes_flat base pre post :
  is_object pre && is_object post = false →
  merge_changes base pre post = if value_eqb pre post then base else post.
Proof. by destruct pre, post. Qed.

(** ** What the merge guarantees, path by path *)

(** The pipeline left the value at this path alone: everything at or above it
    is unchanged, or the path runs through objects that both had. *)
Inductive untouched : Value → Value → list string → Prop :=
| untouched_same pre post path : value_eqb pre post = true → untouched pre post path
| untouched_absent pm qm k path :
    pm !! k = None → qm !! k = None → untouched (VObject pm) (VObject qm) (k :: path)
| untouched_below pm qm k p q path :
    pm !! k = Some p → qm !! k = Some q → untouched p q path →
    untouched (VObject pm) (VObject qm) (k :: path).

(** The pipeline wrote [v] at this path. *)
Inductive rewritten : Value → Value → list string → Value → Prop :=
| rewritten_here pre post :
    value_eqb pre post = false → is_object pre && is_object post = false → rewritten pre post [] post
| rewritten_added pm qm k q path v :
    pm !! k = None → qm !! k = Some q → get_segments q path = Some v →
    rewritten (VObject pm) (VObject qm) (k :: path) v
| rewritten_below pm qm k p q path v :
    pm !! k = Some p → qm !! k = Some q → value_eqb p q = false → rewritten p q path v →
    rewritten (VObject pm) (VObject qm) (k :: path) v.

(** The pipeline dropped the field at this path. *)
Inductive omitted : Value → Value → list string → Prop :=
| omitted_here pm qm k p path :
    pm !! k = Some p → qm !! k = None → omitted (VObject pm) (VObject qm) (k :: path)
| omitted_below pm qm k p q path :
    pm !! k = Some p → qm !! k = Some q → value_eqb p q = false → omitted p q path →
    omitted (VObject pm) (VObject qm) (k :: path).

Lemma rewritten_in_post pre post path v : rewritten pre post path v → get_segments post path = Some v.
Proof. induction 1 as [|pm qm k q path v Hp Hq Hv|pm qm k p q path v Hp Hq He Hr IH];
  simpl; [done|by rewrite Hq|by rewrite Hq]. Qed.

Lemma omitted_in_post pre post path : omitted pre post path → get_segments post path = None.
Proof. induction 1 as [pm qm k p path Hp Hq|pm qm k p q path Hp Hq He Hr IH]; simpl; by rewrite Hq. Qed.

(** A value the pipeline did not change stays as the plugin left it. *)
Lemma merge_same base pre post :
  value_eqb pre post = true → is_object pre = true → is_object base = true →
  merge_changes base pre post = base.
Proof.
  intros He Hp Hb. destruct pre as [| | | | |pm]; try done. destruct base as [| | | | |bm]; try done.
  destruct post as [| | | | |qm]; try done.
  destruct (merge_changes_object bm pm qm) as (r & -> & L). f_equal. apply map_eq. intros k.
  rewrite L. pose proof (proj1 (value_eqb_object pm qm) He k) as Hk.
  destruct (pm !! k), (qm !! k); simpl; try done. by rewrite Hk.
Qed.

Lemma untouched_kept pre post path :
  untouched pre post path → path ≠ [] → ∀ base v,
  get_segments base path = Some v → get_segments (merge_changes base pre post) path = Some v.
Proof.
  induction 1 as [pre post path He|pm qm k path Hp Hq|pm qm k p q path Hp Hq Hu IH];
    intros Hne base v Hg.
  - pose proof (get_segments_object _ _ _ Hg Hne) as Hb. destruct (is_object pre) eqn:Ep.
    + by rewrite merge_same.
    + rewrite merge_changes_flat, He; [done|]. by rewrite Ep.
  - destruct base as [| | | | |bm]; try done. destruct (merge_changes_object bm pm qm) as (r & -> & L).
    simpl in *. by rewrite L, Hp, Hq.
  - destruct base as [| | | | |bm]; try done. destruct (merge_changes_object bm pm qm) as (r & -> & L).
    simpl in *. rewrite L, Hp, Hq. simpl. destruct (value_eqb p q) eqn:Epq; [done|].
    destruct (bm !! k) as [b|] eqn:Eb; [|done].
    destruct path as [|k' path].
    { inversion Hu; congruence. }
    assert (is_object b = true) as -> by (by eapply get_segments_object).
    assert (is_object p && is_object q = true) as ->.
    { inversion Hu; subst; try congruence; done. }
    simpl. by apply IH.
Qed.

Lemma rewritten_lands pre post path v :
  rewritten pre post path v → ∀ base, get_segments (merge_changes base pre post) path = Some v.
Proof.
  induction 1 as [pre post He Hf|pm qm k q path v Hp Hq Hv|pm qm k p q path v Hp Hq He Hr IH];
    intros base.
  - by rewrite merge_changes_flat, He.
  - destruct base as [| | | | |bm]; try (simpl; by rewrite Hq).
    destruct (merge_changes_object bm pm qm) as (r & -> & L). simpl. by rewrite L, Hp, Hq.
  - pose proof (rewritten_in_post _ _ _ _ Hr) as Hpost.
    destruct base as [| | | | |bm]; try (simpl; by rewrite Hq).
    destruct (merge_changes_object bm pm qm) as (r & -> & L). simpl. rewrite L, Hp, Hq. simpl.
    rewrite He. destruct (bm !! k) as [b|]; [|done]. destruct (_ && _); [apply IH|done].
Qed.

Lemma omitted_gone pre post path :
  omitted pre post path → ∀ base, get_segments (merge_changes base pre post) path = None.
Proof.
  induction 1 as [pm qm k p path Hp Hq|pm qm k p q path Hp Hq He Hr IH]; intros base.
  - destruct base as [| | | | |bm]; try (simpl; by rewrite Hq).
    destruct (merge_changes_object bm pm qm) as (r & -> & L). simpl. by rewrite L, Hp, Hq.
  - pose proof (omitted_in_post _ _ _ Hr) as Hpost.
    destruct base as [| | | | |bm]; try (simpl; by rewrite Hq).
    destruct (merge_changes_object bm pm qm) as (r & -> & L). simpl. rewrite L, Hp, Hq. simpl.
    rewrite He. destruct (bm !! k) as [b|]; [|done]. destruct (_ && _); [apply IH|done].
Qed.

(** Folding a pipeline's edits into a payload loses neither editor's work:
    at a path the pipeline left alone the plugin's value stands, a value the
    pipeline wrote is there afterwards, a field it dropped is gone, for every
    state the plugin left the payload in. *)
Theorem merge_keeps_both_edits base pre post path :
  (∀ v, untouched pre post path → path ≠ [] → get_segments base path = Some v →
        get_segments (merge_changes base pre post) path = Some v)
  ∧ (∀ v, rewritten pre post path v → get_segments (merge_changes base pre post) path = Some v)
  ∧ (omitted pre post path → get_segments (merge_changes base pre post) path = None).
Proof.
  split_and!.
  - intros v Hu Hne Hg. by eapply untouched_kept.
  - intros v Hr. by apply rewritten_lands.
  - intros Ho. by apply omitted_gone.
Qed.

(** When no plugin edited the payload the merge is exactly the pipeline's
    result. *)
Theorem merge_without_plugin pre post :
  no_nan post = true → value_eqb (merge_changes pre pre post) post = true.
Proof.
  revert post. induction pre as [|b|n|s|l IH|pm IH] using Value_nested_ind; intros post Hn;
    try (rewrite merge_changes_flat by done; case_match; [done|by apply value_eqb_refl]).
  destruct post as [| | | | |qm]; try (by apply value_eqb_refl).
  destruct (merge_changes_object pm pm qm) as (r & -> & L).
  pose proof (proj1 (no_nan_object qm) Hn) as Hq. apply value_eqb_object. intros k. rewrite L.
  destruct (qm !! k) as [q|] eqn:Eq, (pm !! k) as [p|] eqn:Ep; simpl; try done.
  - destruct (value_eqb p q) eqn:E; [done|].
    destruct (_ && _); [apply (IH k p Ep), (Hq k q Eq)|apply value_eqb_refl, (Hq k q Eq)].
  - apply value_eqb_refl, (Hq k q Eq).
Qed.
End Loops.

(** ** The static attribute tree *)

Record AttributeTree := mkTree { as_value : Value }.

Definition tree_empty : AttributeTree := mkTree (VObject ∅).
Definition tree_is_empty (t : AttributeTree) : bool :=
  match as_value t with
  | VObject m => bool_decide (m = ∅)
  | Null => true
  | _ => false
  end.

Inductive AttributeError :=
| AeLoad (msg : string)
| AeParse (msg : string)
| AeConflict (path existing incoming : string).

(** [Display] of a JSON value, the file system and the YAML reader. *)
Class JsonText := json_to_string : Value → string.
Class AttributeFiles := {
  read_to_string : string → Result string string;
  json_from_yaml : string → Result Value string
}.

Definition type_name (v : Value) : string :=
  match v with
  | Null => "null"
  | VBool _ => "boolean"
  | VNumber _ => "number"
  | VString _ => "string"
  | VArray _ => "array"
  | VObject _ => "mapping"
  end.

Definition extract_data (label : string) (doc : Value) :
    Result (gmap string Value) AttributeError :=
  match doc with
  | Null => Ok ∅
  | VObject m =>
      let rest := delete "data" m in
      if negb (bool_decide (rest = ∅)) then
        Err (AeParse (label +:+ ": attribute files may only contain a top-level `data:` mapping; found stray key(s): "
                        +:+ String.concat ", " (sorted_elements (dom rest))))
      else
        match m !! "data" with
        | None | Some Null => Ok ∅
        | Some (VObject d) => Ok d
        | Some other => Err (AeParse (label +:+ ": `data:` must be a mapping, got " +:+ type_name other))
        end
  | other => Err (AeParse (label +:+ ": top-level must be a `data:` mapping, got " +:+ type_name other))
  end.

Section Attributes.
Context `{order : HashOrder} `{JsonText}.
Implicit Types acc incoming m r : gmap string Value.

(** The body of the loop of [merge_object]. *)
Definition merge_entry (nested : gmap string Value → gmap string Value → string →
      Result (gmap string Value) AttributeError)
    (prefix k : string) (v : Value) acc : Result (gmap string Value) AttributeError :=
  let path := prefix +:+ "." +:+ k in
  match acc !! k with
  | Some existing =>
      match existing, v with
      | VObject e, VObject iv => let? e := nested e iv path in Ok (<[k := VObject e]> acc)
      | existing_val, incoming_val =>
          if value_eqb existing_val incoming_val then Ok acc
          else Err (AeConflict path (json_to_string existing_val) (json_to_string incoming_val))
      end
  | None => Ok (<[k := v]> acc)
  end.

Fixpoint merge_entries (nested : gmap string Value → gmap string Value → string →
      Result (gmap string Value) AttributeError)
    (prefix : string) (l : list (string * Value)) acc : Result (gmap string Value) AttributeError :=
  match l with
  | [] => Ok acc
  | (k, v) :: l => let? acc := merge_entry nested prefix k v acc in merge_entries nested prefix l acc
  end.

Fixpoint merge_object (fuel : nat) acc incoming (prefix : string) :
    Result (gmap string Value) AttributeError :=
  match fuel with
  | O => Ok acc
  | S fuel => merge_entries (merge_object fuel) prefix (map_iter incoming) acc
  end.

(** The recursion descends in [incoming]. *)
Definition merge_objects acc incoming (prefix : string) : Result (gmap string Value) AttributeError :=
  merge_object (value_depth (VObject incoming)) acc incoming prefix.

Fixpoint merge_docs (docs : list (string * Value)) acc : Result (gmap string Value) AttributeError :=
  match docs with
  | [] => Ok acc
  | (label, doc) :: docs =>
      let? data := extract_data label doc in
      let? acc := merge_objects acc data "data" in
      merge_docs docs acc
  end.

Definition merge_attribute_docs (docs : list (string * Value)) : Result AttributeTree AttributeError :=
  let? acc := merge_docs docs ∅ in Ok (mkTree (VObject acc)).

Fixpoint read_docs `{AttributeFiles} (paths : list string) : Result (list (string * Value)) AttributeError :=
  match paths with
  | [] => Ok []
  | path :: paths =>
      match read_to_string path with
      | Err e => Err (AeLoad (path +:+ ": " +:+ e))
      | Ok text =>
          match json_from_yaml text with
          | Err e => Err (AeParse (path +:+ ": " +:+ e))
          | Ok doc => let? docs := read_docs paths in Ok ((path, doc) :: docs)
          end
      end
  end.

(** [FileAttributeSource::load]. *)
Definition file_source_load `{AttributeFiles} (paths : list string) :
    Result AttributeTree AttributeError :=
  let? docs := read_docs paths in merge_attribute_docs docs.

(** *** The merge, path by path *)

(** Two trees disagree at a path: both have a value there, not both objects,
    and the values differ. *)
Definition conflict_at (a b : Value) (path : list string) : Prop :=
  ∃ x y, get_segments a path = Some x ∧ get_segments b path = Some y
    ∧ is_object x && is_object y = false ∧ value_eqb x y = false.

Definition key_merged (nested : gmap string Value → gmap string Value → gmap string Value → Prop)
    (a b r : option Value) : Prop :=
  match a, b with
  | None, b => r = b
  | Some x, None => r = Some x
  | Some (VObject e), Some (VObject i) => ∃ e', r = Some (VObject e') ∧ nested e i e'
  | Some x, Some y => value_eqb x y = true ∧ r = Some x
  end.

Lemma merge_entry_ok nested prefix k v acc acc' :
  merge_entry nested prefix k v acc = Ok acc' →
  key_merged (λ e i e', nested e i (prefix +:+ "." +:+ k) = Ok e') (acc !! k) (Some v) (acc' !! k)
  ∧ ∀ j, j ≠ k → acc' !! j = acc !! j.
Proof.
  unfold merge_entry. destruct (acc !! k) as [x|] eqn:Ex.
  - destruct x as [| | | | |e], v as [| | | | |i];
      try (destruct (value_eqb _ _) eqn:Eq; [intros [= <-]; by rewrite Ex|done]).
    intros (e' & He & [= <-])%result_bind_ok. rewrite lookup_insert_eq. split; [by exists e'|].
    intros j Hj. by rewrite lookup_insert_ne.
  - intros [= <-]. rewrite lookup_insert_eq. split; [done|]. intros j Hj. by rewrite lookup_insert_ne.
Qed.

Lemma merge_entries_ok nested prefix l acc r :
  merge_entries nested prefix l acc = Ok r → NoDup l.*1 → ∀ k,
  (∀ v, (k, v) ∈ l →
     key_merged (λ e i e', nested e i (prefix +:+ "." +:+ k) = Ok e') (acc !! k) (Some v) (r !! k))
  ∧ ((k ∉ l.*1) → r !! k = acc !! k).
Proof.
  revert acc. induction l as [|[k0 v0] l IH]; intros acc; simpl.
  { intros [= <-] _ k. split; [by intros v ?%not_elem_of_nil|done]. }
  intros (acc' & Ha & Hl)%result_bind_ok [Hk0 Hnd]%NoDup_cons k.
  destruct (merge_entry_ok _ _ _ _ _ _ Ha) as [Hkey Hother]. destruct (IH _ Hl Hnd k) as [Hin Hout].
  split.
  - intros v [[= -> ->]|Hv]%elem_of_cons; [by rewrite Hout|].
    assert (k ≠ k0) as Hne.
    { intros ->. apply Hk0. by apply (list_elem_of_fmap_2 fst _ (k0, v)). }
    rewrite <- (Hother k Hne). by apply Hin.
  - intros [Hne Hl']%not_elem_of_cons. by rewrite Hout, Hother.
Qed.

Lemma merge_entries_err nested prefix l acc e :
  merge_entries nested prefix l acc = Err e → NoDup l.*1 →
  ∃ k v x, (k, v) ∈ l ∧ acc !! k = Some x
    ∧ ((∃ em im, x = VObject em ∧ v = VObject im ∧ nested em im (prefix +:+ "." +:+ k) = Err e)
       ∨ is_object x && is_object v = false ∧ value_eqb x v = false).
Proof.
  revert acc. induction l as [|[k0 v0] l IH]; intros acc; [done|].
  intros [Hx|(acc' & Ha & Hl)]%result_bind_err [Hk0 Hnd]%NoDup_cons.
  - exists k0, v0. unfold merge_entry in Hx. destruct (acc !! k0) as [x|] eqn:Ex; [|done].
    exists x. split_and!; [by left|done|].
    destruct x as [| | | | |em], v0 as [| | | | |im];
      try (right; split; [done|]; by destruct (value_eqb _ _)).
    left. exists em, im. split_and!; [done|done|]. by apply result_bind_err in Hx as [?|(? & _ & ?)].
  - destruct (merge_entry_ok _ _ _ _ _ _ Ha) as [_ Hother].
    destruct (IH _ Hl Hnd) as (k & v & x & Hin & Hx & Hc). exists k, v, x. split_and!; [by right| |done].
    rewrite <- Hother; [done|]. intros ->. apply Hk0. by apply (list_elem_of_fmap_2 fst _ (k0, v)).
Qed.

Lemma conflict_cons em im k path x y :
  em !! k = Some x → im !! k = Some y →
  conflict_at (VObject em) (VObject im) (k :: path) ↔ conflict_at x y path.
Proof. intros Hx Hy. unfold conflict_at. simpl. by rewrite Hx, Hy. Qed.

Lemma no_conflict_leaf x y path :
  is_object x && is_object y = false → value_eqb x y = true → ¬ conflict_at x y path.
Proof.
  intros Ho He (x' & y' & Hx & Hy & Ho' & He'). destruct path as [|k path].
  - injection Hx as <-. injection Hy as <-. congruence.
  - apply get_segments_object in Hx; [|done]. apply get_segments_object in Hy; [|done].
    by rewrite Hx, Hy in Ho.
Qed.

Lemma get_leaf_cons m k path : get_segments (VObject m) (k :: path)
  = match m !! k with Some x => get_segments x path | None => None end.
Proof. done. Qed.

(** The leaves of a merge. *)
Definition leaves_merged (a b r : Value) : Prop :=
  ∀ path v, is_object v = false →
    (get_segments r path = Some v ↔
     get_segments a path = Some v ∨ get_segments a path = None ∧ get_segments b path = Some v).

Lemma merge_object_exact fuel acc incoming prefix :
  (value_depth (VObject incoming) ≤ fuel)%nat →
  match merge_object fuel acc incoming prefix with
  | Ok r => (∀ path, ¬ conflict_at (VObject acc) (VObject incoming) path)
            ∧ leaves_merged (VObject acc) (VObject incoming) (VObject r)
  | Err _ => ∃ path, conflict_at (VObject acc) (VObject incoming) path
  end.
Proof.
  revert acc incoming prefix. induction fuel as [|fuel IH]; intros acc incoming prefix Hf.
  { simpl in Hf. lia. }
  simpl merge_object.
  destruct (merge_entries _ _ _ _) as [r|e] eqn:E.
  - pose proof (merge_entries_ok _ _ _ _ _ E (map_iter_keys incoming)) as Hkeys.
    assert (∀ k, key_merged (λ em im em', merge_object fuel em im (prefix +:+ "." +:+ k) = Ok em')
                   (acc !! k) (incoming !! k) (r !! k)) as Hk.
    { intros k. destruct (Hkeys k) as [Hin Hout]. destruct (incoming !! k) as [v|] eqn:Ev.
      - by apply Hin, map_iter_elem.
      - rewrite Hout; [by destruct (acc !! k) as [[]|]|].
        intros ([k' v] & -> & Hv)%list_elem_of_fmap. apply map_iter_elem in Hv. simpl in Ev. congruence. }
    split.
    + intros [|k path] Hc; [by destruct Hc as (x & y & [= <-] & [= <-] & ? & _)|].
      specialize (Hk k). destruct (acc !! k) as [x|] eqn:Ex, (incoming !! k) as [y|] eqn:Ey;
        try (destruct Hc as (? & ? & Hx & Hy & _); simpl in Hx, Hy; by rewrite ?Ex, ?Ey in *).
      rewrite (conflict_cons _ _ _ _ _ _ Ex Ey) in Hc.
      destruct x as [| | | | |em], y as [| | | | |im];
        try (destruct Hk as [Hk _]; by eapply no_conflict_leaf in Hc).
      destruct Hk as (em' & _ & Hm). pose proof (depth_object _ _ _ Ey) as Hd.
      specialize (IH em im (prefix +:+ "." +:+ k)). rewrite Hm in IH. eapply IH; [lia|exact Hc].
    + intros [|k path] v Hv; [simpl; split; [|intros [?|[? ?]]]; naive_solver|].
      rewrite !get_leaf_cons. specialize (Hk k).
      destruct (acc !! k) as [x|] eqn:Ex, (incoming !! k) as [y|] eqn:Ey;
        try (simpl in Hk; rewrite ?Hk; naive_solver).
      2: { assert (r !! k = Some x) as -> by (by destruct x). naive_solver. }
      destruct x as [| | | | |em], y as [| | | | |im];
        try (destruct Hk as [He ->]; destruct path as [|k' path]; simpl in *; naive_solver).
      destruct Hk as (em' & -> & Hm). pose proof (depth_object _ _ _ Ey) as Hd.
      specialize (IH em im (prefix +:+ "." +:+ k)). rewrite Hm in IH. apply IH; [lia|done].
  - destruct (merge_entries_err _ _ _ _ _ E (map_iter_keys incoming))
      as (k & v & x & Hin%map_iter_elem & Hx & Hc).
    destruct Hc as [(em & im & -> & -> & Hm)|[Ho He]].
    + pose proof (depth_object _ _ _ Hin) as Hd. specialize (IH em im (prefix +:+ "." +:+ k)).
      rewrite Hm in IH. destruct IH as [path Hp]; [lia|]. exists (k :: path).
      by apply (conflict_cons _ _ _ _ _ _ Hx Hin).
    + exists [k], x, v. simpl. by rewrite Hx, Hin.
Qed.

(** Merging one attribute document into the tree fails exactly when the two
    disagree at some path, and otherwise the leaves of the result are those of
    both: nothing is overridden, dropped or invented, in any iteration order. *)
Theorem attribute_merge_exact acc incoming prefix :
  match merge_objects acc incoming prefix with
  | Ok r => (∀ path, ¬ conflict_at (VObject acc) (VObject incoming) path)
            ∧ leaves_merged (VObject acc) (VObject incoming) (VObject r)
  | Err _ => ∃ path, conflict_at (VObject acc) (VObject incoming) path
  end.
Proof. by apply merge_object_exact. Qed.

Lemma merge_docs_keeps docs acc r path v :
  merge_docs docs acc = Ok r → is_object v = false →
  get_segments (VObject acc) path = Some v → get_segments (VObject r) path = Some v.
Proof.
  revert acc. induction docs as [|[label doc] docs IH]; intros acc; [by intros [= <-]|].
  intros (data & Hd & (acc' & Hm & Hr)%result_bind_ok)%result_bind_ok Hv Hg.
  apply (IH acc' Hr Hv). pose proof (merge_object_exact (value_depth (VObject data)) acc data "data") as He.
  unfold merge_objects in Hm. rewrite Hm in He. destruct He as [_ Hl]; [done|]. apply Hl; auto.
Qed.

(** In a tree loaded from attribute files every leaf of every file is there
    with its own value. *)
Theorem attribute_files_kept docs tree label doc data path v :
  merge_attribute_docs docs = Ok tree → (label, doc) ∈ docs → extract_data label doc = Ok data →
  get_segments (VObject data) path = Some v → is_object v = false →
  ∃ v', get_segments (as_value tree) path = Some v' ∧ (v' = v ∨ value_eqb v' v = true).
Proof.
  intros (r & Hr & [= <-])%result_bind_ok Hin Hd Hg Hv. simpl. revert Hr Hin. generalize (∅ : gmap string Value).
  induction docs as [|[l0 d0] docs IH]; intros acc; [by intros _ ?%not_elem_of_nil|].
  intros (data0 & Hd0 & (acc' & Hm & Hr)%result_bind_ok)%result_bind_ok [[= <- <-]|Hin]%elem_of_cons;
    [|by eapply IH]. rewrite Hd in Hd0. injection Hd0 as <-.
  pose proof (merge_object_exact (value_depth (VObject data)) acc data "data") as He.
  unfold merge_objects in Hm. rewrite Hm in He. destruct He as [Hc Hl]; [done|].
  destruct (get_segments (VObject acc) path) as [x|] eqn:Ex.
  - destruct (value_eqb x v) eqn:Exv; [|exfalso; eapply Hc; exists x, v; by rewrite Hv, andb_false_r].
    exists x. split; [|by right]. assert (is_object x = false) as Hox by (by destruct x, v).
    eapply merge_docs_keeps; [exact Hr|done|]. apply Hl; auto.
  - exists v. split; [|by left]. eapply merge_docs_keeps; [exact Hr|done|]. apply Hl; auto.
Qed.

End Attributes.

(** ** Witnesses *)

Module JsonDemo.

#[local] Instance in_order : HashOrder :=
  {| set_iter := elements; map_iter := λ A, map_to_list;
     set_iter_perm := λ s, reflexivity _; map_iter_perm := λ A m, reflexivity _ |}.
#[local] Instance plain_json : JsonText := λ _, "value".

Definition str_obj (l : list (string * string)) : Value :=
  VObject (list_to_map (prod_map id VString <$> l)).

(** The plugin redacted [note], the pipeline masked [ssn]. *)
Example both_edits :
  merge_changes (str_obj [("ssn", "123"); ("note", "[REDACTED]")])
    (str_obj [("ssn", "123"); ("note", "secret")])
    (str_obj [("ssn", "***"); ("note", "secret")])
  = str_obj [("ssn", "***"); ("note", "[REDACTED]")].
Proof. vm_compute. reflexivity. Qed.

Lemma merge_without_plugin_witness :
  value_eqb (merge_changes (str_obj [("a", "1")]) (str_obj [("a", "1")]) (str_obj [("b", "2")]))
    (str_obj [("b", "2")]) = true.
Proof. apply (merge_without_plugin (str_obj [("a", "1")]) (str_obj [("b", "2")])). reflexivity. Defined.

Definition doc (l : list (string * string)) : Value := VObject {[ "data" := str_obj l ]}.

Lemma attribute_files_witness :
  ∃ v', match merge_attribute_docs [("a.yaml", doc [("region", "eu")]); ("b.yaml", doc [("tier", "gold")])] with
        | Ok tree => get_segments (as_value tree) ["region"]
        | Err _ => None
        end = Some v' ∧ (v' = VString "eu" ∨ value_eqb v' (VString "eu") = true).
Proof.
  destruct (merge_attribute_docs _) as [tree|e] eqn:E; [|by vm_compute in E].
  apply (attribute_files_kept _ tree "a.yaml" (doc [("region", "eu")])
           {[ "region" := VString "eu" ]} ["region"] (VString "eu") E);
    [by left|reflexivity|reflexivity|reflexivity].
Defined.

End JsonDemo.
