(* ===== verification/Yaml.v ===== *)
(** * YAML values

    [serde_yaml::Value] with its documented shape: a mapping keeps its entries
    in document order and its keys may be any value, and a value may carry a
    tag that the accessors look through. *)

From S2P Require Import Prelude RustStd F64 Json.

Local Open Scope string_scope.

Inductive Yaml :=
| YNull
| YBool (b : bool)
| YNumber (n : Number)
| YString (s : string)
| YSequence (l : list Yaml)
| YMapping (m : list (Yaml * Yaml))
| YTagged (tag : string) (v : Yaml).

Abbreviation Mapping := (list (Yaml * Yaml)).

Fixpoint untag (v : Yaml) : Yaml :=
  match v with YTagged _ v => untag v | _ => v end.

Definition yaml_as_str (v : Yaml) : option string :=
  match untag v with YString s => Some s | _ => None end.
Definition yaml_as_bool (v : Yaml) : option bool :=
  match untag v with YBool b => Some b | _ => None end.
Definition yaml_as_sequence (v : Yaml) : option (list Yaml) :=
  match untag v with YSequence l => Some l | _ => None end.
Definition yaml_as_mapping (v : Yaml) : option Mapping :=
  match untag v with YMapping m => Some m | _ => None end.
Definition yaml_is_null (v : Yaml) : bool :=
  match untag v with YNull => true | _ => false end.

Definition is_key (k : string) (y : Yaml) : bool :=
  match y with YString s => String.eqb s k | _ => false end.

(** [Mapping::get] with a string key. *)
Fixpoint mapping_get (m : Mapping) (k : string) : option Yaml :=
  match m with
  | [] => None
  | (key, v) :: m => if is_key k key then Some v else mapping_get m k
  end.

(** [Value::get] with a string key. *)
Definition yaml_get (v : Yaml) (k : string) : option Yaml :=
  match untag v with YMapping m => mapping_get m k | _ => None end.

(** What else the sources use of the library: [Debug] of a value, [Display] of
    a number, and [PartialEq]. *)
Class YamlLib := {
  debug_yaml : Yaml → string;
  show_yaml_number : Number → string;
  yaml_eqb : Yaml → Yaml → bool
}.

(** [Mapping::insert]: replaces in place, or appends. *)
Fixpoint mapping_insert `{YamlLib} (m : Mapping) (k v : Yaml) : Mapping :=
  match m with
  | [] => [(k, v)]
  | (k', v') :: m => if yaml_eqb k' k then (k', v) :: m else (k', v') :: mapping_insert m k v
  end.

(** The same with a string key. *)
Fixpoint mapping_insert_str (m : Mapping) (k : string) (v : Yaml) : Mapping :=
  match m with
  | [] => [(YString k, v)]
  | (k', v') :: m => if is_key k k' then (k', v) :: m else (k', v') :: mapping_insert_str m k v
  end.

(** How deep a value nests; a scalar has depth one. *)
Fixpoint yaml_depth (v : Yaml) : nat :=
  match v with
  | YSequence l => S (foldr (λ x n, yaml_depth x `max` n) 0 l)
  | YMapping m => S (foldr (λ p n, yaml_depth p.2 `max` n) 0 m)
  | YTagged _ v => S (yaml_depth v)
  | _ => 1
  end.

(** ** Lemmas *)

Lemma mapping_get_in m k v :
  mapping_get m k = Some v → (YString k, v) ∈ m.
Proof.
  induction m as [|[key v0] m IH]; simpl; [done|].
  destruct (is_key k key) eqn:E.
  - intros [= ->]. destruct key; try done. simpl in E. apply String.eqb_eq in E as ->. by left.
  - intros Hm. right. by apply IH.
Qed.

Lemma untag_idem v : untag (untag v) = untag v.
Proof. induction v; simpl; done. Qed.

Lemma untag_depth v : (yaml_depth (untag v) ≤ yaml_depth v)%nat.
Proof. induction v; simpl; lia. Qed.

Lemma sequence_depth l x : x ∈ l → (yaml_depth x < yaml_depth (YSequence l))%nat.
Proof.
  simpl. induction l as [|y l IH]; [by intros ?%not_elem_of_nil|].
  intros [->|Hx]%elem_of_cons; simpl; [lia|]. specialize (IH Hx). lia.
Qed.

Lemma mapping_depth m k v : (k, v) ∈ m → (yaml_depth v < yaml_depth (YMapping m))%nat.
Proof.
  simpl. induction m as [|[k' v'] m IH]; [by intros ?%not_elem_of_nil|].
  intros [[= -> ->]|Hx]%elem_of_cons; simpl; [lia|]. specialize (IH Hx). lia.
Qed.

Lemma as_sequence_depth v l x :
  yaml_as_sequence v = Some l → x ∈ l → (yaml_depth x < yaml_depth v)%nat.
Proof.
  unfold yaml_as_sequence. pose proof (untag_depth v) as Hu. destruct (untag v); try done.
  intros [= ->] Hx. apply sequence_depth in Hx. lia.
Qed.

Lemma as_mapping_depth v m k x :
  yaml_as_mapping v = Some m → (k, x) ∈ m → (yaml_depth x < yaml_depth v)%nat.
Proof.
  unfold yaml_as_mapping. pose proof (untag_depth v) as Hu. destruct (untag v); try done.
  intros [= ->] Hx. apply mapping_depth in Hx. lia.
Qed.
