(* ===== verification/Attributes.v ===== *)
(** * The attribute bag (apl-core/src/attributes.rs)

    The flat, typed namespace predicates are evaluated against, with the
    interpolation of [[inner]] groups in attribute paths. *)

From S2P Require Import Prelude RustStd F64.
From Stdlib Require Import Ascii.

Local Open Scope string_scope.
#[local] Arguments String.append !_ _ /.

(** ** Data *)

Inductive AttributeValue :=
| ABool (b : bool)
| AInt (z : Z)
| AFloat (f : f64)
| AString (s : string)
| AStringSet (l : gset string).

Record AttributeBag := mkBag { attrs : gmap string AttributeValue }.

Definition bag_new : AttributeBag := mkBag ∅.
Definition bag_set (bag : AttributeBag) (key : string) (v : AttributeValue) : AttributeBag :=
  mkBag (<[key := v]> (attrs bag)).
Definition bag_get (bag : AttributeBag) (key : string) : option AttributeValue :=
  attrs bag !! key.
Definition bag_contains (bag : AttributeBag) (key : string) : bool :=
  bool_decide (is_Some (attrs bag !! key)).

Definition get_bool (bag : AttributeBag) (key : string) : option bool :=
  match bag_get bag key with Some (ABool v) => Some v | _ => None end.
Definition get_int (bag : AttributeBag) (key : string) : option Z :=
  match bag_get bag key with Some (AInt v) => Some v | _ => None end.
Definition get_float (bag : AttributeBag) (key : string) : option f64 :=
  match bag_get bag key with
  | Some (AFloat v) => Some v
  | Some (AInt v) => Some (f64_of_Z v)
  | _ => None
  end.
Definition get_string (bag : AttributeBag) (key : string) : option string :=
  match bag_get bag key with Some (AString v) => Some v | _ => None end.
Definition get_string_set (bag : AttributeBag) (key : string) : option (gset string) :=
  match bag_get bag key with Some (AStringSet v) => Some v | _ => None end.

(** [<key> contains <value>]. *)
Definition set_contains (bag : AttributeBag) (key value : string) : bool :=
  match get_string_set bag key with
  | Some s => bool_decide (value ∈ s)
  | None => false
  end.

(** The scalar at [key], stringified for use as a path segment. *)
Definition scalar_as_string (bag : AttributeBag) (key : string) : option string :=
  match bag_get bag key with
  | Some (AString s) => Some s
  | Some (AInt i) => Some (show_Z i)
  | Some (ABool b) => Some (show_bool b)
  | Some (AFloat f) => Some (f64_display f)
  | Some (AStringSet _) => None
  | None => None
  end.

Definition open_bracket : ascii := "["%char.
Definition close_bracket : ascii := "]"%char.

(** The [while let Some(open) = rest.find('[')] loop.  Every round removes at
    least the two brackets from [rest], so [length rest + 1] rounds suffice;
    [resolve_loop_fuel] proves it. *)
Fixpoint resolve_loop (fuel : nat) (bag : AttributeBag) (out rest : string) : option string :=
  match fuel with
  | O => None
  | S k =>
      match split_once open_bracket rest with
      | None => Some (out +:+ rest)
      | Some (before, after) =>
          match split_once close_bracket after with
          | None => None
          | Some (inner, rest') =>
              match scalar_as_string bag (trim inner) with
              | None => None
              | Some s => resolve_loop k bag (out +:+ before +:+ "." +:+ s) rest'
              end
          end
      end
  end.

Definition resolve_key (bag : AttributeBag) (key : string) : option string :=
  if contains_char open_bracket key
  then resolve_loop (S (String.length key)) bag EmptyString key
  else Some key.

(** ** Specification of interpolation *)

(** [Resolves bag key k]: reading [key] left to right, the text outside
    brackets is kept and each [[inner]] becomes [.] and the scalar at [inner]. *)
Inductive Resolves (bag : AttributeBag) : string → string → Prop :=
| resolves_plain key :
    contains_char open_bracket key = false → Resolves bag key key
| resolves_group before inner rest s k :
    contains_char open_bracket before = false →
    contains_char close_bracket inner = false →
    scalar_as_string bag (trim inner) = Some s →
    Resolves bag rest k →
    Resolves bag (before +:+ String open_bracket (inner +:+ String close_bracket rest))
      (before +:+ "." +:+ s +:+ k).

(** ** Lemmas *)

Lemma string_length_append a b :
  String.length (a +:+ b) = String.length a + String.length b.
Proof. induction a as [|c a IH]; simpl; [done|]. by rewrite IH. Qed.

Lemma split_once_length c s a b :
  split_once c s = Some (a, b) → String.length b < String.length s.
Proof.
  intros [-> _]%split_once_spec. rewrite string_length_append. simpl. lia.
Qed.

Lemma resolve_loop_sound fuel bag out rest r :
  resolve_loop fuel bag out rest = Some r →
  ∃ k, Resolves bag rest k ∧ r = out +:+ k.
Proof.
  revert out rest r. induction fuel as [|fuel IH]; intros out rest r; simpl; [done|].
  destruct (split_once open_bracket rest) as [[before after]|] eqn:E1.
  - destruct (split_once close_bracket after) as [[inner rest']|] eqn:E2; [|done].
    destruct (scalar_as_string bag (trim inner)) as [s|] eqn:Es; [|done].
    intros (k & Hk & ->)%IH.
    apply split_once_spec in E1 as [-> ?]. apply split_once_spec in E2 as [-> ?].
    eexists. split; [by econstructor|]. by rewrite ?append_assoc.
  - intros [= <-]. exists rest. split; [|done]. constructor. by apply split_once_None.
Qed.

Lemma resolve_loop_complete bag rest k :
  Resolves bag rest k →
  ∀ fuel out, String.length rest < fuel →
  resolve_loop fuel bag out rest = Some (out +:+ k).
Proof.
  induction 1 as [key Hno|before inner rest s k Hb Hi Hs Hr IH];
    intros [|fuel] out Hf; try lia; simpl.
  - apply split_once_None in Hno as ->. done.
  - rewrite (proj2 (split_once_spec _ _ _ _) (conj eq_refl Hb)).
    rewrite (proj2 (split_once_spec _ _ _ _) (conj eq_refl Hi)).
    rewrite Hs, IH; [by rewrite ?append_assoc|].
    rewrite string_length_append in Hf. simpl in Hf.
    rewrite string_length_append in Hf. simpl in Hf. lia.
Qed.

Lemma resolve_key_plain bag key :
  contains_char open_bracket key = false → resolve_key bag key = Some key.
Proof. unfold resolve_key. by intros ->. Qed.

(** [bag_get] after [bag_set]. *)
Lemma bag_get_set bag k v k' :
  bag_get (bag_set bag k v) k' = if decide (k = k') then Some v else bag_get bag k'.
Proof. unfold bag_get, bag_set. simpl. apply lookup_insert. Qed.

Lemma bag_set_get_ne bag k v k' :
  k ≠ k' → bag_get (bag_set bag k v) k' = bag_get bag k'.
Proof. intros. rewrite bag_get_set. by case_decide. Qed.

Lemma get_string_set_eq bag k s : get_string (bag_set bag k (AString s)) k = Some s.
Proof. unfold get_string. rewrite bag_get_set. by case_decide. Qed.

Lemma get_string_set_ne bag k k' v :
  k ≠ k' → get_string (bag_set bag k v) k' = get_string bag k'.
Proof. intros. unfold get_string. by rewrite bag_set_get_ne. Qed.

(** ** Properties *)

(** Resolve_key computes exactly the interpolation relation. *)
Theorem resolve_key_correct bag key k :
  resolve_key bag key = Some k ↔ Resolves bag key k.
Proof.
  unfold resolve_key. destruct (contains_char open_bracket key) eqn:E.
  - split.
    + intros (k' & ? & ->)%resolve_loop_sound. done.
    + intros H. rewrite (resolve_loop_complete _ _ _ H); [done|lia].
  - split; [intros [= <-]; by constructor|].
    inversion 1 as [|before]; subst; [done|].
    rewrite contains_char_append in E. simpl in E.
    by rewrite orb_true_r in E.
Qed.
