(* ===== verification/Ir.v ===== *)
(** * The policy intermediate representation

    The data of apl-core: [rules.rs] (conditions, expressions, effects,
    compiled routes), [pipeline.rs] (stages), [step.rs] (delegation,
    elicitation and PDP steps with their outcomes), [constraint.rs]
    ([restrict] specs) and [plugin_decl.rs].  Constructors carry the source
    name with a letter for the enum it belongs to; record fields carry a
    prefix for the struct. *)

From S2P Require Import Prelude RustStd F64 Json Yaml.

Local Open Scope string_scope.

(** ** Predicates (rules.rs) *)

Inductive CompareOp := OpEq | OpNotEq | OpGt | OpGtEq | OpLt | OpLtEq | OpContains.

Inductive Literal :=
| LBool (b : bool)
| LInt (z : Z)
| LFloat (f : f64)
| LString (s : string).

Inductive Condition :=
| CComparison (key : string) (op : CompareOp) (value : Literal)
| CIsTrue (key : string)
| CIsFalse (key : string)
| CExists (key : string)
| CInSet (value_key set_key : string) (negate : bool).

Inductive Expression :=
| XCondition (c : Condition)
| XAnd (l : list Expression)
| XOr (l : list Expression)
| XNot (e : Expression)
| XAlways.

(** ** Pipelines (pipeline.rs) *)

Inductive TypeCheck := TStr | TInt | TBool | TFloat | TEmail | TUrl | TUuid.
Inductive TaintScope := Session | Message.
Inductive ScanKind := PiiRedact | PiiDetect | InjectionScan.

Inductive Stage :=
| SType (tc : TypeCheck)
| SRegex (pattern : string)
| SValidate (name : string)
| SLength (min max : option nat)
| SRange (min max : option Z)
| SEnum (values : list string)
| SMask (keep_last : nat)
| SRedact (condition : option Expression)
| SOmit
| SHash
| STaint (label : string) (scopes : list TaintScope)
| SPlugin (name : string)
| SScan (kind : ScanKind).

Record Pipeline := mkPipeline { stages : list Stage }.

Record FieldRule := mkFieldRule {
  fr_field : string;
  fr_pipeline : Pipeline;
  fr_source : string
}.

Record TaintEvent := mkTaint { te_label : string; te_scopes : list TaintScope }.

(** ** Constraints (constraint.rs) *)

Inductive OnEmpty := OeDeny | OeFallback.

Record CandidateConstraint := mkConstraint {
  cc_allow_models : option (list string);
  cc_deny_models : list string;
  cc_allow_regions : option (list string);
  cc_allow_sites : option (list string);
  cc_max_cost_tier : option string;
  cc_custom : gmap string string;
  cc_on_empty : OnEmpty
}.

Inductive StringSetSpec :=
| SsRef (path : string)
| SsLiteral (v : list string).

Record RestrictSpec := mkRestrict {
  rs_allow_models : option StringSetSpec;
  rs_deny_models : option StringSetSpec;
  rs_allow_regions : option StringSetSpec;
  rs_allow_sites : option StringSetSpec;
  rs_max_cost_tier : option string;
  rs_custom : gmap string string;
  rs_on_empty : OnEmpty
}.

(** ** Steps (step.rs) *)

Record DelegateStep := mkDelegate {
  ds_plugin_name : string;
  ds_config_override : option Yaml;
  ds_on_error : option string;
  ds_source : string
}.

Inductive ElicitKind := Approval | Confirm | StepUp | Attestation | Info | Review.

Record ElicitStep := mkElicit {
  es_kind : ElicitKind;
  es_plugin_name : string;
  es_channel : option string;
  es_from : string;
  es_purpose : option string;
  es_scope : option string;
  es_timeout : option string;
  es_config_override : option Yaml;
  es_on_error : option string;
  es_source : string
}.

Inductive PdpDialect := Cedar | Opa | AuthZen | NeMo | Cel | Custom (name : string).

Definition from_key (key : string) : PdpDialect :=
  if String.eqb key "cedar" then Cedar
  else if String.eqb key "opa" then Opa
  else if String.eqb key "authzen" then AuthZen
  else if String.eqb key "nemo" then NeMo
  else if String.eqb key "cel" then Cel
  else Custom key.

(** [{:?}] of a dialect. *)
Definition debug_dialect (d : PdpDialect) : string :=
  match d with
  | Cedar => "Cedar" | Opa => "Opa" | AuthZen => "AuthZen" | NeMo => "NeMo" | Cel => "Cel"
  | Custom s => "Custom(" +:+ debug_string s +:+ ")"
  end.

Record PdpCall := mkPdpCall { pc_dialect : PdpDialect; pc_args : Yaml }.

Inductive DispatchPhase := Pre | Post.

Inductive PluginInvocation :=
| InvStep (phase : DispatchPhase)
| InvField (name : string) (value : Value) (phase : DispatchPhase).

Definition invocation_phase (i : PluginInvocation) : DispatchPhase :=
  match i with InvStep p => p | InvField _ _ p => p end.

(** ** Decisions and outcomes (evaluator.rs, step.rs) *)

Inductive Decision :=
| Allow
| Deny (reason : option string) (rule_source : string).

Definition is_deny (d : Decision) : bool := match d with Deny _ _ => true | Allow => false end.

Record PdpDecision := mkPdpDecision { pd_decision : Decision; pd_diagnostics : list string }.

Record PluginOutcome := mkPluginOutcome {
  po_decision : Decision;
  po_taints : list TaintEvent;
  po_modified_value : option Value
}.

Record DelegationOutcome := mkDelegationOutcome {
  do_decision : Decision;
  do_granted_permissions : list string;
  do_granted_audience : option string;
  do_granted_expires_at : option string
}.

Record ElicitationDispatch := mkElicitationDispatch {
  ed_id : string;
  ed_approver : option string;
  ed_intent_id : option string;
  ed_expires_at : option string
}.

Inductive ElicitationOutcome := Approved | Denied.

Inductive ElicitationStatus :=
| StPending
| StResolved (outcome : ElicitationOutcome)
| StExpired.

Record ElicitationValidation := mkValidation {
  ev_valid : bool;
  ev_approver : option string;
  ev_intent_id : option string;
  ev_reason : option string
}.

Record PendingElicitation := mkPending {
  pe_id : string;
  pe_plugin_name : string;
  pe_approver : option string;
  pe_intent_id : option string;
  pe_channel : option string;
  pe_expires_at : option string;
  pe_source : string
}.

Inductive PdpError := PdpNoResolver (d : PdpDialect) | PdpDispatch (msg : string).
Inductive PluginError := PluginNotFound (name : string) | PluginDispatch (msg : string).
Inductive DelegationError :=
| DelegationNotFound (name : string)
| DelegationDispatch (msg : string)
| DelegationInvalidConfig (msg : string).
Inductive ElicitationError :=
| ElicitationNotFound (name : string)
| ElicitationHandler (msg : string).

(** The [Display] texts of the error enums ([#[error(...)]]). *)
Definition show_pdp_error (e : PdpError) : string :=
  match e with
  | PdpNoResolver d => "no PDP resolver registered for dialect " +:+ debug_dialect d
  | PdpDispatch m => "PDP dispatch failed: " +:+ m
  end.
Definition show_plugin_error (e : PluginError) : string :=
  match e with
  | PluginNotFound n => "no plugin invoker available for `" +:+ n +:+ "`"
  | PluginDispatch m => "plugin dispatch failed: " +:+ m
  end.
Definition show_delegation_error (e : DelegationError) : string :=
  match e with
  | DelegationNotFound n =>
      "no delegation invoker available for plugin `" +:+ n +:+ "`"
  | DelegationDispatch m => "delegation dispatch failed: " +:+ m
  | DelegationInvalidConfig m => "invalid delegation config: " +:+ m
  end.
Definition show_elicitation_error (e : ElicitationError) : string :=
  match e with
  | ElicitationNotFound n =>
      "no elicitation invoker available for plugin `" +:+ n +:+ "`"
  | ElicitationHandler m => "elicitation handler error: " +:+ m
  end.

(** Well-known bag keys ([delegation_bag_keys], [elicitation_bag_keys]). *)
Definition GRANTED : string := "delegation.granted".
Definition GRANTED_PERMISSIONS : string := "delegation.granted.permissions".
Definition GRANTED_AUDIENCE : string := "delegation.granted.audience".
Definition GRANTED_EXPIRES_AT : string := "delegation.granted.expires_at".
Definition EL_ID : string := "elicitation.id".
Definition EL_STATUS : string := "elicitation.status".
Definition EL_APPROVER : string := "elicitation.approver".
Definition EL_OUTCOME : string := "elicitation.outcome".
Definition EL_INTENT_ID : string := "elicitation.intent_id".
Definition EL_CHANNEL : string := "elicitation.channel".
Definition EL_EXPIRES_AT : string := "elicitation.expires_at".

(** ** Effects (rules.rs) *)

Inductive Effect :=
| EAllow
| EDeny (reason code : option string)
| EPlugin (name : string)
| EDelegate (d : DelegateStep)
| EElicit (e : ElicitStep)
| ETaint (label : string) (scopes : list TaintScope)
| ERestrict (spec : RestrictSpec)
| EFieldOp (path : string) (stages : list Stage)
| ESequential (l : list Effect)
| EParallel (l : list Effect)
| EWhen (condition : Expression) (body : list Effect) (source : string)
| EPdp (call : PdpCall) (on_allow on_deny : list Effect).

Record Rule := mkRule {
  r_condition : Expression;
  r_effects : list Effect;
  r_source : string
}.

Definition rule_single (c : Expression) (e : Effect) (source : string) : Rule :=
  mkRule c [e] source.

(** [impl From<Rule> for Effect]. *)
Definition effect_of_rule (r : Rule) : Effect := EWhen (r_condition r) (r_effects r) (r_source r).

(** [Effect::contains_mutation]. *)
Fixpoint contains_mutation (e : Effect) : bool :=
  match e with
  | EFieldOp _ _ | EDelegate _ | EElicit _ => true
  | ESequential l | EParallel l => existsb contains_mutation l
  | EWhen _ body _ => existsb contains_mutation body
  | EPdp _ on_allow on_deny =>
      existsb contains_mutation on_allow || existsb contains_mutation on_deny
  | EAllow | EDeny _ _ | EPlugin _ | ETaint _ _ | ERestrict _ => false
  end.

(** A loop of [?] calls over a list. *)
Fixpoint try_all {A E} (f : A → Result unit E) (l : list A) : Result unit E :=
  match l with
  | [] => Ok tt
  | x :: l =>
      match f x with
      | Ok _ => try_all f l
      | Err e => Err e
      end
  end.

(** [Effect::validate_parallel_purity]; the error is the effect its message
    interpolates. *)
Fixpoint validate_parallel_purity (e : Effect) : Result unit Effect :=
  match e with
  | EParallel l =>
      try_all (λ e, if contains_mutation e then Err e else validate_parallel_purity e) l
  | ESequential l => try_all validate_parallel_purity l
  | EWhen _ body _ => try_all validate_parallel_purity body
  | EPdp _ on_allow on_deny =>
      match try_all validate_parallel_purity on_allow with
      | Ok _ => try_all validate_parallel_purity on_deny
      | Err e => Err e
      end
  | _ => Ok tt
  end.

(** ** Phases and compiled routes (rules.rs) *)

Inductive Phase := PhArgs | PhPolicy | PhResult | PhPostPolicy.

(** [PhaseSet]: a [u8] bit set. *)
Definition PhaseSet := Z.

Definition phase_bit (p : Phase) : Z :=
  match p with PhArgs => 1 | PhPolicy => 2 | PhResult => 4 | PhPostPolicy => 8 end.
Definition phases_new : PhaseSet := 0%Z.
Definition phases_insert (s : PhaseSet) (p : Phase) : PhaseSet := Z.lor s (phase_bit p).
Definition phases_contains (s : PhaseSet) (p : Phase) : bool :=
  negb (Z.land s (phase_bit p) =? 0)%Z.
Definition phases_is_empty (s : PhaseSet) : bool := (s =? 0)%Z.

Record DenyResponse := mkDenyResponse {
  dr_status : option Z;
  dr_body : option string;
  dr_headers : gmap string string
}.

(** ** Plugin declarations (plugin_decl.rs) *)

Record PluginDeclaration := mkPluginDecl {
  pdl_name : string;
  pdl_kind : string;
  pdl_hooks : list string;
  pdl_capabilities : list string;
  pdl_config : option Yaml;
  pdl_on_error : option string;
  pdl_extra : gmap string Yaml
}.

Record PluginOverride := mkPluginOverride {
  pov_config : option Yaml;
  pov_capabilities : option (list string);
  pov_on_error : option string
}.

Inductive CapsView :=
| CapsGlobal (l : list string)
| CapsOverride (l : list string).
Definition caps_as_slice (c : CapsView) : list string :=
  match c with CapsGlobal l => l | CapsOverride l => l end.

Record EffectivePlugin := mkEffectivePlugin {
  ep_name : string;
  ep_kind : string;
  ep_hooks : list string;
  ep_capabilities : CapsView;
  ep_config : option Yaml;
  ep_on_error : option string
}.

Definition option_or {A} (a b : option A) : option A :=
  match a with Some x => Some x | None => b end.

(** [EffectivePlugin::resolve]. *)
Definition effective_resolve (name : string) (registry : gmap string PluginDeclaration)
    (route_overrides : gmap string PluginOverride) : option EffectivePlugin :=
  match registry !! name with
  | None => None
  | Some global =>
      let ovr := route_overrides !! name in
      Some (mkEffectivePlugin (pdl_name global) (pdl_kind global) (pdl_hooks global)
        (match ovr ≫= pov_capabilities with
         | Some c => CapsOverride c
         | None => CapsGlobal (pdl_capabilities global)
         end)
        (option_or (ovr ≫= pov_config) (pdl_config global))
        (option_or (ovr ≫= pov_on_error) (pdl_on_error global)))
  end.

Record CompiledRoute := mkRoute {
  cr_route_key : string;
  cr_args : list FieldRule;
  cr_policy : list Effect;
  cr_result : list FieldRule;
  cr_post_policy : list Effect;
  cr_plugin_overrides : gmap string PluginOverride;
  cr_response : option DenyResponse
}.

Definition route_new (key : string) : CompiledRoute := mkRoute key [] [] [] [] ∅ None.

(** [CompiledRoute::declared_phases]. *)
Definition declared_phases (r : CompiledRoute) : PhaseSet :=
  let s := phases_new in
  let s := if is_nil (cr_args r) then s else phases_insert s PhArgs in
  let s := if is_nil (cr_policy r) then s else phases_insert s PhPolicy in
  let s := if is_nil (cr_result r) then s else phases_insert s PhResult in
  if is_nil (cr_post_policy r) then s else phases_insert s PhPostPolicy.

Definition field_names (l : list FieldRule) : gset string := list_to_set (fr_field <$> l).

(** [retain] the fields the new layer does not redefine, then [extend]. *)
Definition layer_fields (base more : list FieldRule) : list FieldRule :=
  filter (λ f, fr_field f ∉ field_names more) base ++ more.

(** [CompiledRoute::apply_layer]; [HashMap::extend] is the right-biased union. *)
Definition apply_layer (self more : CompiledRoute) : CompiledRoute :=
  {| cr_route_key := cr_route_key self;
     cr_args := layer_fields (cr_args self) (cr_args more);
     cr_policy := cr_policy self ++ cr_policy more;
     cr_result := layer_fields (cr_result self) (cr_result more);
     cr_post_policy := cr_post_policy self ++ cr_post_policy more;
     cr_plugin_overrides := cr_plugin_overrides more ∪ cr_plugin_overrides self;
     cr_response := cr_response self |}.

(** ** Decidable equality *)

#[global] Instance OnEmpty_eq_dec : EqDecision OnEmpty.
Proof. solve_decision. Defined.
#[global] Instance DispatchPhase_eq_dec : EqDecision DispatchPhase.
Proof. solve_decision. Defined.
#[global] Instance Decision_eq_dec : EqDecision Decision.
Proof. solve_decision. Defined.
#[global] Instance CandidateConstraint_eq_dec : EqDecision CandidateConstraint.
Proof. solve_decision. Defined.

(** ** Induction principles for the nested types *)

Section Induction.

Lemma Expression_nested_ind (P : Expression → Prop) :
  (∀ c, P (XCondition c)) →
  (∀ l, Forall P l → P (XAnd l)) →
  (∀ l, Forall P l → P (XOr l)) →
  (∀ e, P e → P (XNot e)) →
  P XAlways →
  ∀ e, P e.
Proof.
  intros Hc Ha Ho Hn Hal. fix IH 1. intros [c|l|l|e|].
  - apply Hc.
  - apply Ha. induction l; constructor; auto.
  - apply Ho. induction l; constructor; auto.
  - apply Hn, IH.
  - apply Hal.
Qed.

Lemma Effect_nested_ind (P : Effect → Prop) :
  P EAllow →
  (∀ r c, P (EDeny r c)) →
  (∀ n, P (EPlugin n)) →
  (∀ d, P (EDelegate d)) →
  (∀ s, P (EElicit s)) →
  (∀ l s, P (ETaint l s)) →
  (∀ s, P (ERestrict s)) →
  (∀ p s, P (EFieldOp p s)) →
  (∀ l, Forall P l → P (ESequential l)) →
  (∀ l, Forall P l → P (EParallel l)) →
  (∀ c b s, Forall P b → P (EWhen c b s)) →
  (∀ c a d, Forall P a → Forall P d → P (EPdp c a d)) →
  ∀ e, P e.
Proof.
  intros H1 H2 H3 H4 H5 H6 H7 H8 Hs Hp Hw Hpdp. fix IH 1.
  intros [|r c|n|d|s|l s|s|p s|l|l|c b s|c a d];
    [apply H1|apply H2|apply H3|apply H4|apply H5|apply H6|apply H7|apply H8| | | |].
  - apply Hs. induction l; constructor; auto.
  - apply Hp. induction l; constructor; auto.
  - apply Hw. induction b; constructor; auto.
  - apply Hpdp; [induction a|induction d]; constructor; auto.
Qed.

End Induction.

(** ** Lemmas *)

Lemma try_all_ok {A E} (f : A → Result unit E) l :
  try_all f l = Ok tt ↔ Forall (λ x, f x = Ok tt) l.
Proof.
  induction l as [|x l IH]; simpl; [naive_solver|].
  rewrite Forall_cons, <-IH. destruct (f x) as [[]|]; naive_solver.
Qed.

(** Every [Parallel] node of the tree has only mutation-free branches: the
    property [validate_parallel_purity] is meant to check. *)
Inductive ParallelPure : Effect → Prop :=
| pp_leaf e :
    match e with
    | ESequential _ | EParallel _ | EWhen _ _ _ | EPdp _ _ _ => False
    | _ => True
    end → ParallelPure e
| pp_sequential l : Forall ParallelPure l → ParallelPure (ESequential l)
| pp_parallel l :
    Forall (λ e, contains_mutation e = false) l → Forall ParallelPure l →
    ParallelPure (EParallel l)
| pp_when c b s : Forall ParallelPure b → ParallelPure (EWhen c b s)
| pp_pdp c a d : Forall ParallelPure a → Forall ParallelPure d → ParallelPure (EPdp c a d).

Lemma validate_list_pure l :
  Forall (λ e, validate_parallel_purity e = Ok tt ↔ ParallelPure e) l →
  try_all validate_parallel_purity l = Ok tt ↔ Forall ParallelPure l.
Proof.
  intros Hall. rewrite try_all_ok, !Forall_forall. rewrite Forall_forall in Hall.
  split; intros H x Hx; apply (Hall x Hx); auto.
Qed.

Lemma field_names_spec l x : x ∈ field_names l ↔ ∃ f, f ∈ l ∧ fr_field f = x.
Proof.
  unfold field_names. rewrite elem_of_list_to_set, list_elem_of_fmap. naive_solver.
Qed.

Lemma field_names_layer b m : field_names (layer_fields b m) = field_names b ∪ field_names m.
Proof.
  apply set_eq. intros x. unfold layer_fields.
  rewrite elem_of_union, !field_names_spec. split.
  - intros (f & Hf & <-). apply elem_of_app in Hf as [Hf|Hf]; [|naive_solver].
    apply list_elem_of_filter in Hf as [_ Hf]. naive_solver.
  - intros [(f & Hf & <-)|(f & Hf & <-)].
    + destruct (decide (fr_field f ∈ field_names m)) as [Hin|Hnin].
      * apply field_names_spec in Hin as (g & Hg & Heq). exists g.
        rewrite elem_of_app. naive_solver.
      * exists f. rewrite elem_of_app, list_elem_of_filter. naive_solver.
    + exists f. rewrite elem_of_app. naive_solver.
Qed.

Lemma layer_fields_assoc a b c :
  layer_fields (layer_fields a b) c = layer_fields a (layer_fields b c).
Proof.
  unfold layer_fields at 1 3. unfold layer_fields at 1. rewrite filter_app.
  rewrite <-app_assoc. f_equal. rewrite list_filter_filter.
  apply list_filter_iff. intros f. rewrite field_names_layer. set_solver.
Qed.

Lemma layer_fields_at a b x :
  filter (λ f, fr_field f = x) (layer_fields a b)
  = if decide (x ∈ field_names b) then filter (λ f, fr_field f = x) b
    else filter (λ f, fr_field f = x) a.
Proof.
  unfold layer_fields. rewrite filter_app, list_filter_filter. case_decide as Hx.
  - rewrite filter_none; [done|]. by intros f _ [-> Hn].
  - rewrite (filter_none _ b), app_nil_r.
    + apply list_filter_iff. set_solver.
    + intros f Hf <-. apply Hx, field_names_spec. eauto.
Qed.

(** ** Properties *)

(** The config-load check [validate_parallel_purity] accepts an effect tree
    exactly when no branch of any [Parallel] node, at any depth, contains a
    state-mutating effect. *)
Theorem validate_parallel_purity_correct e :
  validate_parallel_purity e = Ok tt ↔ ParallelPure e.
Proof.
  induction e as [| | | | | | | |l IH|l IH|c b s IH|c a d IHa IHd]
    using Effect_nested_ind; simpl;
    try (split; [by constructor|done]).
  - rewrite (validate_list_pure l IH). split; [by constructor|by inversion 1].
  - rewrite try_all_ok. split.
    + intros H. constructor; apply Forall_forall; intros x Hx;
        rewrite Forall_forall in H, IH; specialize (H x Hx); specialize (IH x Hx);
        destruct (contains_mutation x); naive_solver.
    + inversion 1 as [| |? H1 H2| |]; subst; [done|].
      rewrite Forall_forall in H1, H2, IH |- *. intros x Hx.
      rewrite (H1 x Hx). by apply IH; auto.
  - rewrite (validate_list_pure b IH). split; [by constructor|by inversion 1].
  - pose proof (validate_list_pure a IHa) as Ha. pose proof (validate_list_pure d IHd) as Hd.
    destruct (try_all validate_parallel_purity a) as [[]|].
    + rewrite Hd. split; [constructor; naive_solver|by inversion 1].
    + split; [done|]. inversion 1; naive_solver.
Qed.

(** Stacking policy layers is associative, so the effective route of
    global / default / tag / route layers does not depend on how the visitor
    groups the applications. *)
Theorem apply_layer_assoc a b c :
  apply_layer (apply_layer a b) c = apply_layer a (apply_layer b c).
Proof.
  unfold apply_layer; simpl. f_equal; auto using layer_fields_assoc, eq_sym, app_assoc.
  by rewrite (assoc_L (∪)).
Qed.

(** On every field the more specific layer declares, its pipelines replace
    the inherited ones; every other field keeps its inherited pipelines; the
    policy effects of the inherited layer come first. *)
Theorem apply_layer_most_specific a b x :
  filter (λ f, fr_field f = x) (cr_args (apply_layer a b))
  = filter (λ f, fr_field f = x)
      (if decide (x ∈ field_names (cr_args b)) then cr_args b else cr_args a)
  ∧ cr_policy (apply_layer a b) = (cr_policy a ++ cr_policy b)%list
  ∧ (∀ p o, cr_plugin_overrides b !! p = Some o →
       cr_plugin_overrides (apply_layer a b) !! p = Some o)
  ∧ (∀ p, cr_plugin_overrides b !! p = None →
       cr_plugin_overrides (apply_layer a b) !! p = cr_plugin_overrides a !! p)
  ∧ cr_response (apply_layer a b) = cr_response a.
Proof.
  split_and!; simpl.
  - rewrite layer_fields_at. by case_decide.
  - done.
  - intros p o H. by apply lookup_union_Some_l.
  - intros p H. by apply lookup_union_r.
  - done.
Qed.

(** [declared_phases] has exactly the bits of the non-empty phases, and
    stays within the four bits of the [u8]. *)
Theorem declared_phases_spec r :
  (∀ p, phases_contains (declared_phases r) p =
        negb (match p with
              | PhArgs => is_nil (cr_args r)
              | PhPolicy => is_nil (cr_policy r)
              | PhResult => is_nil (cr_result r)
              | PhPostPolicy => is_nil (cr_post_policy r)
              end))
  ∧ (0 <= declared_phases r < 16)%Z.
Proof.
  unfold declared_phases.
  destruct (is_nil (cr_args r)), (is_nil (cr_policy r)), (is_nil (cr_result r)),
    (is_nil (cr_post_policy r)); (split; [by intros []|by vm_compute]).
Qed.

