(* ===== verification/Predicate.v ===== *)
(** * Predicate evaluation (apl-core/src/evaluator.rs, first half)

    [eval_expression] and its helpers, and the synchronous rule walk
    [evaluate_rules]. *)

From S2P Require Import Prelude RustStd F64 Attributes Ir.
From Stdlib Require Import Ascii.

Local Open Scope string_scope.

(** ** Comparisons *)

(** [values_eq]: equality with Int/Float promotion. *)
Definition values_eq (attr : AttributeValue) (lit : Literal) : bool :=
  match attr, lit with
  | ABool a, LBool b => Bool.eqb a b
  | AInt a, LInt b => (a =? b)%Z
  | AFloat a, LFloat b => f64_eqb a b
  | AString a, LString b => String.eqb a b
  | AInt a, LFloat b => f64_eqb (f64_of_Z a) b
  | AFloat a, LInt b => f64_eqb a (f64_of_Z b)
  | _, _ => false
  end.

Definition coerce_f64_attr (attr : AttributeValue) : option f64 :=
  match attr with
  | AInt a => Some (f64_of_Z a)
  | AFloat a => Some a
  | AString s => parse_f64 (trim s)
  | _ => None
  end.

Definition coerce_f64_lit (lit : Literal) : option f64 :=
  match lit with
  | LInt b => Some (f64_of_Z b)
  | LFloat b => Some b
  | LString s => parse_f64 (trim s)
  | _ => None
  end.

(** [numeric_compare]; it is called with the four order operators only, the
    source marks the others unreachable. *)
Definition numeric_compare (attr : AttributeValue) (lit : Literal) (op : CompareOp) : bool :=
  match coerce_f64_attr attr with
  | None => false
  | Some a =>
      match coerce_f64_lit lit with
      | None => false
      | Some b =>
          match op with
          | OpGt => f64_ltb b a
          | OpGtEq => f64_leb b a
          | OpLt => f64_ltb a b
          | OpLtEq => f64_leb a b
          | _ => false
          end
      end
  end.

Definition eval_comparison (key : string) (op : CompareOp) (lit : Literal)
    (bag : AttributeBag) : bool :=
  match bag_get bag key with
  | None => false
  | Some attr =>
      match op with
      | OpContains =>
          match attr, lit with
          | AStringSet _, LString s => set_contains bag key s
          | _, _ => false
          end
      | OpEq => values_eq attr lit
      | OpNotEq => negb (values_eq attr lit)
      | OpGt | OpGtEq | OpLt | OpLtEq => numeric_compare attr lit op
      end
  end.

(** ** Conditions and expressions *)

Definition eval_condition (cond : Condition) (bag : AttributeBag) : bool :=
  match cond with
  | CIsTrue key =>
      match resolve_key bag key with
      | Some k => default false (get_bool bag k)
      | None => false
      end
  | CIsFalse key =>
      match resolve_key bag key with
      | Some k => negb (default false (get_bool bag k))
      | None => true
      end
  | CExists key =>
      match resolve_key bag key with
      | Some k => bag_contains bag k
      | None => false
      end
  | CComparison key op value =>
      match resolve_key bag key with
      | Some k => eval_comparison k op value bag
      | None => false
      end
  | CInSet value_key set_key negate =>
      let in_set :=
        match resolve_key bag value_key, resolve_key bag set_key with
        | Some vk, Some sk =>
            match get_string bag vk, get_string_set bag sk with
            | Some s, Some l => bool_decide (s ∈ l)
            | _, _ => false
            end
        | _, _ => false
        end in
      if negate then negb in_set else in_set
  end.

Fixpoint eval_expression (expr : Expression) (bag : AttributeBag) : bool :=
  match expr with
  | XCondition c => eval_condition c bag
  | XAnd parts => forallb (λ e, eval_expression e bag) parts
  | XOr parts => existsb (λ e, eval_expression e bag) parts
  | XNot inner => negb (eval_expression inner bag)
  | XAlways => true
  end.

(** ** The synchronous rule walk *)

Definition option_code (code : option string) (fallback : string) : string :=
  default fallback code.

(** The inner [for effect in &rule.effects] loop of [evaluate_rules]: [Some]
    is its early return. *)
Fixpoint rule_effects (effects : list Effect) (source : string) : option Decision :=
  match effects with
  | [] => None
  | EDeny reason code :: _ => Some (Deny reason (option_code code source))
  | EAllow :: es => rule_effects es source
  | _ :: es => rule_effects es source
  end.

Fixpoint evaluate_rules (rules : list Rule) (bag : AttributeBag) : Decision :=
  match rules with
  | [] => Allow
  | rule :: rules =>
      if eval_expression (r_condition rule) bag then
        match rule_effects (r_effects rule) (r_source rule) with
        | Some d => d
        | None => evaluate_rules rules bag
        end
      else evaluate_rules rules bag
  end.

(** [looks_like_attribute_ref]: a dotted path of identifier characters. *)
Definition looks_like_attribute_ref (s : string) : bool :=
  contains_char "."%char s
  && match s with
     | EmptyString => false
     | String c _ => is_ascii_alphabetic c
     end
  && forallb (λ c, is_ascii_alphanumeric c || Ascii.eqb c "_"%char || Ascii.eqb c "."%char)
       (bytes s).

(** ** Lemmas *)

(** Keys a condition reads after interpolation. *)
Definition key_absent (bag : AttributeBag) (key : string) : Prop :=
  ∀ k, resolve_key bag key = Some k → bag_get bag k = None.

Lemma bag_contains_absent bag k : bag_get bag k = None → bag_contains bag k = false.
Proof. unfold bag_contains, bag_get. by intros ->. Qed.

Lemma eval_and_all parts bag :
  eval_expression (XAnd parts) bag = true ↔ Forall (λ e, eval_expression e bag = true) parts.
Proof. apply forallb_Forall. Qed.

(** ** Properties *)

(** A missing attribute (absent, or reached through an interpolation that
    does not resolve) never satisfies a positive condition: [IsTrue], [Exists],
    every comparison and [in] are false, while [IsFalse] and [not in] are
    true.  This is what makes a [require(...)] over missing data deny. *)
Theorem missing_attribute_fails_closed bag key :
  key_absent bag key →
  eval_condition (CIsTrue key) bag = false
  ∧ eval_condition (CExists key) bag = false
  ∧ (∀ op lit, eval_condition (CComparison key op lit) bag = false)
  ∧ (∀ set_key, eval_condition (CInSet key set_key false) bag = false)
  ∧ (∀ value_key, eval_condition (CInSet value_key key false) bag = false)
  ∧ eval_condition (CIsFalse key) bag = true
  ∧ (∀ set_key, eval_condition (CInSet key set_key true) bag = true).
Proof.
  intros Habs. unfold key_absent in Habs. simpl.
  destruct (resolve_key bag key) as [k|] eqn:E; [specialize (Habs k eq_refl)|].
  - assert (get_bool bag k = None) as Hb by (unfold get_bool; by rewrite Habs).
    assert (get_string bag k = None) as Hs by (unfold get_string; by rewrite Habs).
    assert (get_string_set bag k = None) as Hss by (unfold get_string_set; by rewrite Habs).
    rewrite Hb, Hs, Hss. split_and!; try done.
    + by apply bag_contains_absent.
    + intros op lit. unfold eval_comparison. by rewrite Habs.
    + intros set_key. by destruct (resolve_key bag set_key).
    + intros vk. destruct (resolve_key bag vk) as [v|]; [|done]. by destruct (get_string bag v).
    + intros set_key. by destruct (resolve_key bag set_key).
  - split_and!; try done. intros vk. by destruct (resolve_key bag vk).
Qed.

Lemma missing_attribute_witness :
  eval_condition (CIsTrue "data.tenants[subject.tenant].eu") bag_new = false.
Proof.
  apply (missing_attribute_fails_closed bag_new "data.tenants[subject.tenant].eu").
  intros k H. vm_compute in H. discriminate H.
Defined.
