(* ===== verification/Pipelines.v ===== *)
(** * Field pipelines (apl-core/src/evaluator.rs, [evaluate_pipeline])

    One definition per stage kind, each returning either the next loop state
    or the early return, and the loop that walks the stages.  The [regex]
    crate, [serde_json::to_string] and the unspecified algorithm behind
    [DefaultHasher] are parameters, as is the plugin invoker, whose world [W]
    is threaded through the calls. *)

From S2P Require Import Prelude RustStd F64 Json Attributes Ir Predicate.
From Stdlib Require Import Ascii.

Local Open Scope string_scope.

(** ** External code *)

(** The [regex] crate: compilation may fail with a displayable error. *)
Class RegexCrate := {
  Regex : Type;
  regex_new : string → Result Regex string;
  regex_is_match : Regex → string → bool
}.

(** [serde_json::to_string(v).unwrap_or_default()] and the [u64] a fresh
    [DefaultHasher] yields for a [String]. *)
Class HashText := {
  json_to_string : Value → string;
  default_hash : string → Z
}.

(** The [PluginInvoker] trait over a world [W]. *)
Class PluginInvoker (W : Type) :=
  plugin_invoke : string → AttributeBag → PluginInvocation → W →
    Result PluginOutcome PluginError * W.

(** ** Data *)

Inductive FieldOutcome :=
| FPass
| FReplace (v : Value)
| FOmit
| FDeny (reason : string) (stage_index : nat).

Record PipelineEvaluation := mkPipelineEval {
  ple_outcome : FieldOutcome;
  ple_taints : list TaintEvent
}.

(** The mutable locals of the loop. *)
Record PState := mkPState {
  ps_current : Value;
  ps_replaced : bool;
  ps_taints : list TaintEvent
}.

(** One round of the loop: continue with new locals, or return. *)
Inductive StageStep :=
| Advance (s : PState)
| Finish (e : PipelineEvaluation).

(** ** Value checks *)

Definition value_kind (v : Value) : string :=
  match v with
  | Null => "null"
  | VBool _ => "bool"
  | VNumber n => if is_i64 (VNumber n) then "int" else "float"
  | VString _ => "string"
  | VArray _ => "array"
  | VObject _ => "object"
  end.

(** The [for (i, &b) in bytes.iter().enumerate()] loop of [is_uuid_shape]. *)
Fixpoint uuid_bytes (i : nat) (l : list ascii) : bool :=
  match l with
  | [] => true
  | b :: l =>
      (if bool_decide (i ∈ [8; 13; 18; 23]) then Ascii.eqb b "-"%char
       else is_ascii_hexdigit b)
      && uuid_bytes (S i) l
  end.

Definition is_uuid_shape (s : string) : bool :=
  (length (bytes s) =? 36)%nat && uuid_bytes 0 (bytes s).

Definition str_and (v : Value) (f : string → bool) : bool :=
  match as_str v with Some s => f s | None => false end.

Definition type_check (tc : TypeCheck) (v : Value) : bool :=
  match tc with
  | TStr => is_string v
  | TInt => is_i64 v
  | TBool => is_boolean v
  | TFloat => is_f64 v || is_i64 v
  | TEmail => str_and v (λ s, contains_char "@"%char s && contains_char "."%char s)
  | TUrl => str_and v (λ s, starts_with "http://" s || starts_with "https://" s)
  | TUuid => str_and v is_uuid_shape
  end.

Definition debug_type_check (tc : TypeCheck) : string :=
  match tc with
  | TStr => "Str" | TInt => "Int" | TBool => "Bool" | TFloat => "Float"
  | TEmail => "Email" | TUrl => "Url" | TUuid => "Uuid"
  end.

(** ** Stages *)

Definition deny_at (idx : nat) (reason : string) (st : PState) : StageStep :=
  Finish (mkPipelineEval (FDeny reason idx) (ps_taints st)).

Definition with_value (st : PState) (v : Value) : PState :=
  mkPState v true (ps_taints st).
Definition with_taints (st : PState) (ts : list TaintEvent) : PState :=
  mkPState (ps_current st) (ps_replaced st) (ps_taints st ++ ts).

Definition stage_type (tc : TypeCheck) (idx : nat) (st : PState) : StageStep :=
  if type_check tc (ps_current st) then Advance st
  else deny_at idx
         ("expected " +:+ debug_type_check tc +:+ ", got " +:+ value_kind (ps_current st)) st.

Definition below {A} (lt : A → A → bool) (min : option A) (n : A) : bool :=
  match min with Some m => lt n m | None => false end.
Definition above {A} (lt : A → A → bool) (max : option A) (n : A) : bool :=
  match max with Some m => lt m n | None => false end.

Definition stage_length (min max : option nat) (idx : nat) (st : PState) : StageStep :=
  match as_str (ps_current st) with
  | None =>
      deny_at idx ("len(...) requires string value, got " +:+ value_kind (ps_current st)) st
  | Some s =>
      let len := length (chars s) in
      if below Nat.ltb min len || above Nat.ltb max len then
        deny_at idx ("length " +:+ show_nat len +:+ " outside [" +:+ debug_option show_nat min
                       +:+ ", " +:+ debug_option show_nat max +:+ "]") st
      else Advance st
  end.

Definition stage_range (min max : option Z) (idx : nat) (st : PState) : StageStep :=
  match as_i64 (ps_current st) with
  | None =>
      deny_at idx ("range requires integer value, got " +:+ value_kind (ps_current st)) st
  | Some n =>
      if below Z.ltb min n || above Z.ltb max n then
        deny_at idx ("value " +:+ show_Z n +:+ " outside [" +:+ debug_option show_Z min
                       +:+ ", " +:+ debug_option show_Z max +:+ "]") st
      else Advance st
  end.

Definition stage_enum (values : list string) (idx : nat) (st : PState) : StageStep :=
  match as_str (ps_current st) with
  | None =>
      deny_at idx ("enum(...) requires string value, got " +:+ value_kind (ps_current st)) st
  | Some s =>
      if existsb (λ v, String.eqb v s) values then Advance st
      else deny_at idx ("value `" +:+ s +:+ "` not in enum " +:+ debug_list debug_string values) st
  end.

Definition stage_regex `{RegexCrate} (pattern : string) (idx : nat) (st : PState) : StageStep :=
  match regex_new pattern with
  | Err e => deny_at idx ("invalid regex `" +:+ pattern +:+ "`: " +:+ e) st
  | Ok re =>
      match as_str (ps_current st) with
      | None =>
          deny_at idx ("regex requires string value, got " +:+ value_kind (ps_current st)) st
      | Some s =>
          if regex_is_match re s then Advance st
          else deny_at idx ("value did not match regex `" +:+ pattern +:+ "`") st
      end
  end.

Definition stage_validate (name : string) (idx : nat) (st : PState) : StageStep :=
  deny_at idx ("`validate(" +:+ name +:+ ")` is not implemented; use `regex(...)` or `plugin("
                 +:+ name +:+ ")` instead") st.

(** [mask(N)]: all but the last [N] characters become [*]. *)
Definition mask_string (keep_last : nat) (s : string) : string :=
  let cs := chars s in
  let keep := Nat.min keep_last (length cs) in
  let mask_count := length cs - keep in
  concat_str (replicate mask_count "*" ++ drop mask_count cs).

Definition stage_mask (keep_last : nat) (idx : nat) (st : PState) : StageStep :=
  match as_str (ps_current st) with
  | None =>
      deny_at idx ("mask(...) requires string value, got " +:+ value_kind (ps_current st)) st
  | Some s => Advance (with_value st (VString (mask_string keep_last s)))
  end.

Definition redacted : Value := VString "[REDACTED]".

Definition stage_redact (condition : option Expression) (bag : AttributeBag) (st : PState) :
    StageStep :=
  let should_redact :=
    match condition with
    | None => true
    | Some expr => eval_expression expr bag
    end in
  if should_redact then Advance (with_value st redacted) else Advance st.

Definition stage_omit (st : PState) : StageStep :=
  Finish (mkPipelineEval FOmit (ps_taints st)).

Definition stage_hash `{HashText} (st : PState) : StageStep :=
  Advance (with_value st
    (VString ("hash:" +:+ hex16 (default_hash (json_to_string (ps_current st)))))).

Definition stage_taint (label : string) (scopes : list TaintScope) (st : PState) : StageStep :=
  Advance (with_taints st [mkTaint label scopes]).

Definition stage_plugin {W} `{PluginInvoker W} (name field_name : string) (bag : AttributeBag)
    (phase : DispatchPhase) (idx : nat) (st : PState) (w : W) : StageStep * W :=
  let '(res, w) := plugin_invoke name bag (InvField field_name (ps_current st) phase) w in
  (match res with
   | Ok outcome =>
       let st := with_taints st (po_taints outcome) in
       match po_decision outcome with
       | Allow =>
           match po_modified_value outcome with
           | Some new_value => Advance (with_value st new_value)
           | None => Advance st
           end
       | Deny reason _ =>
           deny_at idx (default ("plugin `" +:+ name +:+ "` denied") reason) st
       end
   | Err e =>
       deny_at idx ("plugin `" +:+ name +:+ "` error: " +:+ show_plugin_error e) st
   end, w).

Definition stage_scan (kind : ScanKind) (st : PState) : StageStep :=
  let '(label, redact) :=
    match kind with
    | PiiDetect => ("PII", false)
    | PiiRedact => ("PII", true)
    | InjectionScan => ("injection", false)
    end in
  let st := with_taints st [mkTaint label [Session]] in
  if redact then Advance (with_value st redacted) else Advance st.

(** ** The loop *)

Section Loop.
Context {W : Type} `{RegexCrate} `{HashText} `{PluginInvoker W}.
Context (bag : AttributeBag) (field_name : string) (phase : DispatchPhase).

Definition run_stage (stage : Stage) (idx : nat) (st : PState) (w : W) : StageStep * W :=
  match stage with
  | SType tc => (stage_type tc idx st, w)
  | SLength min max => (stage_length min max idx st, w)
  | SRange min max => (stage_range min max idx st, w)
  | SEnum values => (stage_enum values idx st, w)
  | SRegex pattern => (stage_regex pattern idx st, w)
  | SValidate name => (stage_validate name idx st, w)
  | SMask keep_last => (stage_mask keep_last idx st, w)
  | SRedact condition => (stage_redact condition bag st, w)
  | SOmit => (stage_omit st, w)
  | SHash => (stage_hash st, w)
  | STaint label scopes => (stage_taint label scopes st, w)
  | SPlugin name => stage_plugin name field_name bag phase idx st w
  | SScan kind => (stage_scan kind st, w)
  end.

Fixpoint run_stages (idx : nat) (l : list Stage) (st : PState) (w : W) : StageStep * W :=
  match l with
  | [] => (Advance st, w)
  | stage :: l =>
      let '(r, w) := run_stage stage idx st w in
      match r with
      | Advance st => run_stages (S idx) l st w
      | Finish e => (Finish e, w)
      end
  end.

(** The code after the loop. *)
Definition finish_pipeline (st : PState) : PipelineEvaluation :=
  mkPipelineEval
    (if ps_replaced st then FReplace (ps_current st) else FPass) (ps_taints st).

Definition evaluate_pipeline (pipeline : Pipeline) (value : Value) (w : W) :
    PipelineEvaluation * W :=
  let '(r, w) := run_stages 0 (stages pipeline) (mkPState value false []) w in
  (match r with
   | Advance st => finish_pipeline st
   | Finish e => e
   end, w).

End Loop.

(** ** Lemmas *)

Ltac unfold_stages :=
  unfold stage_type, stage_length, stage_range, stage_enum, stage_regex, stage_validate,
    stage_mask, stage_redact, stage_omit, stage_hash, stage_taint, stage_plugin, stage_scan,
    deny_at in *.

Section Lemmas.
Context {W : Type} `{RegexCrate} `{HashText} `{PluginInvoker W}.
Context (bag : AttributeBag) (field_name : string) (phase : DispatchPhase).

Local Abbreviation run := (run_stages bag field_name phase).
Local Abbreviation one := (run_stage bag field_name phase).

Lemma run_stages_app l1 l2 idx st w :
  run idx (l1 ++ l2)%list st w =
  match run idx l1 st w with
  | (Advance st', w') => run (idx + length l1) l2 st' w'
  | (Finish e, w') => (Finish e, w')
  end.
Proof.
  revert idx st w. induction l1 as [|s l1 IH]; intros idx st w; simpl.
  { by rewrite Nat.add_0_r. }
  destruct (one s idx st w) as [[st'|e] w']; [|done].
  rewrite IH. by rewrite Nat.add_succ_r.
Qed.

Definition step_taints (r : StageStep) : list TaintEvent :=
  match r with Advance st => ps_taints st | Finish e => ple_taints e end.

Lemma run_stage_taints s idx st w :
  ps_taints st `prefix_of` step_taints (one s idx st w).1.
Proof.
  destruct s; simpl; unfold_stages; split_matches; eauto using prefix_app_r, prefix_app.
Qed.

Lemma run_stages_taints l idx st w :
  ps_taints st `prefix_of` step_taints (run idx l st w).1.
Proof.
  revert idx st w. induction l as [|s l IH]; intros idx st w; simpl; [done|].
  pose proof (run_stage_taints s idx st w) as Hs.
  destruct (one s idx st w) as [[st'|e] w']; simpl in *; [|done].
  etrans; [exact Hs|apply IH].
Qed.

(** Replacement is sticky: no stage clears it. *)
Lemma run_stage_replaced s idx st w st' w' :
  one s idx st w = (Advance st', w') → ps_replaced st = true → ps_replaced st' = true.
Proof.
  destruct s; simpl; unfold_stages; intros E; split_hyps; simpl; naive_solver.
Qed.

Lemma run_stages_replaced l idx st w st' w' :
  run idx l st w = (Advance st', w') → ps_replaced st = true → ps_replaced st' = true.
Proof.
  revert idx st w. induction l as [|s l IH]; intros idx st w; simpl.
  { by intros [= <- <-]. }
  destruct (one s idx st w) as [[st1|e] w1] eqn:E; [|done].
  intros Hr Hrep. eapply IH; [done|]. by eapply run_stage_replaced.
Qed.

Lemma run_stage_unchanged s idx st w st' w' :
  one s idx st w = (Advance st', w') → ps_replaced st' = false →
  ps_current st' = ps_current st ∧ ps_replaced st = false.
Proof.
  destruct s; simpl; unfold_stages; intros E; split_hyps; simpl; naive_solver.
Qed.

End Lemmas.

(** Stages whose effect on the value does not depend on a plugin. *)
Definition is_plugin_stage (s : Stage) : bool :=
  match s with SPlugin _ => true | _ => false end.

(** A run that ends without an early return is a function of the value alone
    when no plugin stage occurs, whatever the index, the taints and the world. *)
Definition same_value (st1 st2 : PState) : Prop := ps_current st1 = ps_current st2.

Lemma run_stage_same_value {W} `{RegexCrate} `{HashText} `{PluginInvoker W}
    bag f1 f2 ph1 ph2 s i1 i2 st1 st2 (w1 w2 : W) st1' st2' w1' w2' :
  is_plugin_stage s = false → same_value st1 st2 →
  run_stage bag f1 ph1 s i1 st1 w1 = (Advance st1', w1') →
  run_stage bag f2 ph2 s i2 st2 w2 = (Advance st2', w2') →
  same_value st1' st2'.
Proof.
  unfold same_value. intros Hp Hv.
  destruct s; try done; simpl; unfold_stages;
    rewrite ?Hv; intros E1 E2; split_hyps; simpl; congruence.
Qed.

Lemma run_stages_same_value {W} `{RegexCrate} `{HashText} `{PluginInvoker W}
    bag f1 f2 ph1 ph2 l i1 i2 st1 st2 (w1 w2 : W) st1' st2' w1' w2' :
  forallb (λ s, negb (is_plugin_stage s)) l = true → same_value st1 st2 →
  run_stages bag f1 ph1 i1 l st1 w1 = (Advance st1', w1') →
  run_stages bag f2 ph2 i2 l st2 w2 = (Advance st2', w2') →
  same_value st1' st2'.
Proof.
  revert i1 i2 st1 st2 w1 w2. induction l as [|s l IH]; intros i1 i2 st1 st2 w1 w2; simpl.
  { intros _ Hv [= <- <-] [= <- <-]. done. }
  intros [Hs Hl]%andb_true_iff Hv. apply negb_true_iff in Hs.
  destruct (run_stage bag f1 ph1 s i1 st1 w1) as [[s1|] x1] eqn:E1; [|done].
  destruct (run_stage bag f2 ph2 s i2 st2 w2) as [[s2|] x2] eqn:E2; [|done].
  apply IH; [done|]. by eapply run_stage_same_value.
Qed.

(** The check a validator stage makes on the current value. *)
Definition stage_accepts `{RegexCrate} (s : Stage) (v : Value) : bool :=
  match s with
  | SType tc => type_check tc v
  | SLength min max =>
      str_and v (λ s, negb (below Nat.ltb min (length (chars s))
                            || above Nat.ltb max (length (chars s))))
  | SRange min max =>
      match as_i64 v with
      | Some n => negb (below Z.ltb min n || above Z.ltb max n)
      | None => false
      end
  | SEnum values => str_and v (λ s, existsb (λ x, String.eqb x s) values)
  | SRegex pattern =>
      match regex_new pattern with
      | Ok re => str_and v (regex_is_match re)
      | Err _ => false
      end
  | _ => false
  end.

Definition is_validator (s : Stage) : bool :=
  match s with
  | SType _ | SLength _ _ | SRange _ _ | SEnum _ | SRegex _ | SValidate _ => true
  | _ => false
  end.

Lemma run_validator {W} `{RegexCrate} `{HashText} `{PluginInvoker W}
    bag f ph s idx st (w : W) :
  is_validator s = true →
  (stage_accepts s (ps_current st) = true ∧ run_stage bag f ph s idx st w = (Advance st, w))
  ∨ (stage_accepts s (ps_current st) = false ∧
     ∃ reason, run_stage bag f ph s idx st w =
       (Finish (mkPipelineEval (FDeny reason idx) (ps_taints st)), w)).
Proof.
  destruct s; try done; intros _; simpl; unfold_stages; unfold str_and; split_matches; eauto.
Qed.

(** An early return is an omission or a denial. *)
Definition is_terminal (o : FieldOutcome) : bool :=
  match o with FOmit | FDeny _ _ => true | FPass | FReplace _ => false end.

Lemma run_stages_finish {W} `{RegexCrate} `{HashText} `{PluginInvoker W}
    bag f ph l idx st (w w' : W) e :
  run_stages bag f ph idx l st w = (Finish e, w') → is_terminal (ple_outcome e) = true.
Proof.
  revert idx st w. induction l as [|s l IH]; intros idx st w; simpl; [done|].
  destruct (run_stage bag f ph s idx st w) as [[st'|e'] x] eqn:E; [apply IH|].
  intros [= -> ->]. destruct s; simpl in E; unfold_stages; split_hyps; done.
Qed.

Lemma pipeline_after_redact {W} `{RegexCrate} `{HashText} `{PluginInvoker W}
    bag f ph pre post v (w : W) :
  let o := ple_outcome
    (evaluate_pipeline bag f ph (mkPipeline (pre ++ SRedact None :: post)) v w).1 in
  is_terminal o = true ∨
  ∃ i st st' x y, ps_current st = redacted
    ∧ run_stages bag f ph i post st x = (Advance st', y) ∧ o = FReplace (ps_current st').
Proof.
  simpl. unfold evaluate_pipeline. simpl. rewrite run_stages_app.
  destruct (run_stages bag f ph 0 pre _ w) as [[s1|e1] x1] eqn:E1; simpl.
  2: { left. by eapply run_stages_finish. }
  destruct (run_stages bag f ph (S _) post _ x1) as [[t1|e1] y1] eqn:F1; simpl.
  2: { left. by eapply run_stages_finish. }
  right. rewrite (run_stages_replaced _ _ _ _ _ _ _ _ _ F1 eq_refl).
  eexists _, _, _, _, _. split_and!; [|exact F1|done]. done.
Qed.

(** ** Properties *)

(** An unconditional [redact] is a barrier.  Whatever stages run before it
    (plugins included), whatever the field's value and the plugins' answers,
    if no plugin stage follows it then the pipeline never passes the original
    value through, and a replacement value is one fixed value: two runs that
    both replace, on any two values, replace with the same one. *)
Theorem redact_barrier {W} `{RegexCrate} `{HashText} `{PluginInvoker W}
    (bag : AttributeBag) (post : list Stage) :
  forallb (λ s, negb (is_plugin_stage s)) post = true →
  ∀ pre1 pre2 f1 f2 ph1 ph2 v1 v2 (w1 w2 : W) r1 r2,
    let run pre f ph v w := ple_outcome
      (evaluate_pipeline bag f ph (mkPipeline (pre ++ SRedact None :: post)) v w).1 in
    run pre1 f1 ph1 v1 w1 ≠ FPass
    ∧ (run pre1 f1 ph1 v1 w1 = FReplace r1 → run pre2 f2 ph2 v2 w2 = FReplace r2 → r1 = r2).
Proof.
  intros Hpost pre1 pre2 f1 f2 ph1 ph2 v1 v2 w1 w2 r1 r2 run.
  pose proof (pipeline_after_redact bag f1 ph1 pre1 post v1 w1) as HA.
  pose proof (pipeline_after_redact bag f2 ph2 pre2 post v2 w2) as HB.
  simpl in HA, HB. fold (run pre1 f1 ph1 v1 w1) in HA. fold (run pre2 f2 ph2 v2 w2) in HB.
  split.
  - intros E. rewrite E in HA. destruct HA as [HA|HA]; [done|].
    destruct HA as (?&?&?&?&?&?&?&?); done.
  - intros E1 E2. rewrite E1 in HA. rewrite E2 in HB.
    destruct HA as [HA|(i1&s1&t1&x1&y1&Hs1&R1&[= ->])]; [done|].
    destruct HB as [HB|(i2&s2&t2&x2&y2&Hs2&R2&[= ->])]; [done|].
    eapply (run_stages_same_value bag f1 f2 ph1 ph2 post i1 i2 s1 s2); eauto.
    unfold same_value. congruence.
Qed.

(** [mask(N)] reveals only the number of characters and the last [N] of
    them: two strings that agree on these have the same mask, the mask has as
    many characters to show as the input, and the hidden ones are all [*]. *)
Theorem mask_reveals_suffix_only keep s1 s2 :
  length (chars s1) = length (chars s2) →
  drop (length (chars s1) - keep) (chars s1) = drop (length (chars s2) - keep) (chars s2) →
  mask_string keep s1 = mask_string keep s2
  ∧ ∃ shown, mask_string keep s1 = concat_str (replicate (length (chars s1) - keep) "*" ++ shown)
      ∧ length shown = Nat.min keep (length (chars s1))
      ∧ shown `suffix_of` chars s1.
Proof.
  intros Hlen Hdrop. unfold mask_string.
  replace (length (chars s1) - _) with (length (chars s1) - keep) by lia.
  replace (length (chars s2) - _) with (length (chars s2) - keep) by lia.
  split; [by rewrite Hlen in *; rewrite Hdrop|].
  eexists. split_and!; [done| |].
  - rewrite length_drop. lia.
  - exists (take (length (chars s1) - keep) (chars s1)). by rewrite take_drop.
Qed.

(** A pipeline made of validators denies at the first stage whose check
    the value fails, with that stage's index, and otherwise passes the value
    unchanged; it emits no taint and calls nothing. *)
Theorem validators_exact {W} `{RegexCrate} `{HashText} `{PluginInvoker W}
    bag f ph (l : list Stage) v (w : W) :
  forallb is_validator l = true →
  match list_find (λ s, stage_accepts s v = false) l with
  | None => evaluate_pipeline bag f ph (mkPipeline l) v w = (mkPipelineEval FPass [], w)
  | Some (i, _) =>
      ∃ reason,
        evaluate_pipeline bag f ph (mkPipeline l) v w = (mkPipelineEval (FDeny reason i) [], w)
  end.
Proof.
  intros Hall. unfold evaluate_pipeline. simpl.
  assert (∀ k, match list_find (λ s, stage_accepts s v = false) l with
    | None => run_stages bag f ph k l (mkPState v false []) w = (Advance (mkPState v false []), w)
    | Some (i, _) => ∃ reason, run_stages bag f ph k l (mkPState v false []) w
        = (Finish (mkPipelineEval (FDeny reason (k + i)) []), w)
    end) as Hrun.
  { induction l as [|s l IH]; intros k; [done|].
    apply andb_true_iff in Hall as [Hs Hl]. specialize (IH Hl (S k)). simpl.
    destruct (run_validator bag f ph s k (mkPState v false []) w Hs)
      as [[Ha ->]|[Ha [reason ->]]]; simpl in Ha; rewrite Ha; simpl.
    - destruct (list_find _ l) as [[i x]|]; simpl; [|done].
      destruct IH as [reason ->]. exists reason. by rewrite Nat.add_succ_r.
    - exists reason. by rewrite Nat.add_0_r. }
  specialize (Hrun 0). destruct (list_find _ l) as [[i x]|].
  - destruct Hrun as [reason ->]. by exists reason.
  - by rewrite Hrun.
Qed.

(** ** Witnesses *)

#[local] Instance no_regex : RegexCrate :=
  {| Regex := unit; regex_new := λ _, Ok tt; regex_is_match := λ _ _, true |}.
#[local] Instance plain_hash : HashText :=
  {| json_to_string := λ _, "{}"; default_hash := λ _, 255%Z |}.
#[local] Instance no_plugins : PluginInvoker unit :=
  λ name _ _ w, (Err (PluginNotFound name), w).

Lemma redact_barrier_witness :
  ple_outcome (evaluate_pipeline bag_new "ssn" Post
    (mkPipeline ([SType TStr] ++ SRedact None :: [SMask 4])) (VString "123-45-6789") tt).1
  ≠ FPass.
Proof.
  apply (redact_barrier bag_new [SMask 4] eq_refl
           [SType TStr] [] "ssn" "ssn" Post Post (VString "123-45-6789") Null tt tt Null Null).
Defined.

Lemma mask_witness : mask_string 4 "123-45-6789" = mask_string 4 "987-65-6789".
Proof.
  apply (mask_reveals_suffix_only 4 "123-45-6789" "987-65-6789"); vm_compute; reflexivity.
Defined.

Lemma validators_witness :
  ∃ reason, evaluate_pipeline bag_new "n" Pre
    (mkPipeline [SType TInt; SRange (Some 1%Z) (Some 10%Z)]) (VNumber (PosInt 11)) tt
  = (mkPipelineEval (FDeny reason 1) [], tt).
Proof.
  exact (validators_exact bag_new "n" Pre [SType TInt; SRange (Some 1%Z) (Some 10%Z)]
           (VNumber (PosInt 11)) tt eq_refl).
Defined.
