(* ===== verification/Orchestration.v ===== *)
(** * Concurrent branches (cpex-orchestration/src/lib.rs)

    [run_branches] spawns one tokio task per branch and drains the [JoinSet].
    What tokio decides, the order in which tasks are joined and the fate of
    each, is a [Schedule]; [Schedule_ok] states what [JoinSet] documents about
    it (every task is joined exactly once, and a task is cancelled only after
    [abort_all]).  The drain loop is translated as it is written. *)

From S2P Require Import Prelude.

(** ** Data *)

Record BranchConfig := mkBranchConfig {
  timeout_per_branch : option Z;
  short_circuit_on_deny : bool
}.

Inductive BranchOutcome (T : Type) :=
| Completed (v : T)
| TimedOut
| Aborted
| Panicked (msg : string).
Arguments Completed {T} v.
Arguments TimedOut {T}.
Arguments Aborted {T}.
Arguments Panicked {T} msg.

Definition completed {T} (o : BranchOutcome T) : option T :=
  match o with Completed v => Some v | _ => None end.

(** What [join_next_with_id] yields: the task's [(idx, outcome)], or a
    [JoinError], a panic with its payload's text or a cancellation, whose task
    id maps back to [idx]. *)
Inductive Joined (T : Type) :=
| JOk (idx : nat) (o : BranchOutcome T)
| JErr (idx : nat) (panic : option string).
Arguments JOk {T} idx o.
Arguments JErr {T} idx panic.

(** The runtime's decisions. *)
Inductive Fate := FateDone | FateTimeout | FatePanic (msg : string) | FateCancelled.
Abbreviation Schedule := (list (nat * Fate)).

(** The runtime as the callers of [run_branches] see it: the world the [i]-th
    branch observes, the schedule (given, per branch, whether its value denies)
    and the world once all branches are joined. *)
Class Runtime (W : Type) := {
  rt_fork : W → nat → W;
  rt_schedule : W → list bool → Schedule;
  rt_join : W → list W → W
}.

(** ** Operations *)

(** One value per branch, by index. *)
Fixpoint run_each {A B} (run : nat → A → B) (i : nat) (l : list A) : list B :=
  match l with
  | [] => []
  | x :: l => run i x :: run_each run (S i) l
  end.

Lemma run_each_elem {A B} (run : nat → A → B) i l b :
  b ∈ run_each run i l → ∃ j x, l !! j = Some x ∧ b = run (i + j) x.
Proof.
  revert i. induction l as [|x l IH]; intros i; simpl; [by intros ?%not_elem_of_nil|].
  rewrite elem_of_cons. intros [->|Hb].
  - exists 0, x. by rewrite Nat.add_0_r.
  - destruct (IH _ Hb) as (j & y & Hy & ->). exists (S j), y. by rewrite Nat.add_succ_r.
Qed.

Lemma run_each_lookup {A B} (run : nat → A → B) i l j :
  run_each run i l !! j = run (i + j) <$> l !! j.
Proof.
  revert i j. induction l as [|x l IH]; intros i [|j]; simpl; [done|done| |].
  - by rewrite Nat.add_0_r.
  - rewrite IH. by rewrite Nat.add_succ_r.
Qed.

Lemma run_each_length {A B} (run : nat → A → B) i l : length (run_each run i l) = length l.
Proof. revert i. induction l as [|x l IH]; intros i; simpl; [done|]. by rewrite IH. Qed.

Section RunBranches.
Context {T : Type} (config : BranchConfig) (is_deny : T → bool).

(** The event a task with that fate produces; [results] are the values the
    branch futures compute when they run to completion. *)
Definition joined_of (results : list T) (p : nat * Fate) : Joined T :=
  match p.2 with
  | FateDone =>
      match results !! p.1 with
      | Some v => JOk p.1 (Completed v)
      | None => JErr p.1 None
      end
  | FateTimeout => JOk p.1 TimedOut
  | FatePanic msg => JErr p.1 (Some msg)
  | FateCancelled => JErr p.1 None
  end.

Definition halts (o : BranchOutcome T) : bool :=
  match o with Completed v => is_deny v | _ => false end.

(** The [while let Some(joined)] loop: the slots and the [aborted] flag. *)
Fixpoint drain (events : list (Joined T)) (slots : list (option (BranchOutcome T)))
    (aborted : bool) : list (option (BranchOutcome T)) * bool :=
  match events with
  | [] => (slots, aborted)
  | JOk idx o :: events =>
      drain events (<[idx := Some o]> slots)
        (if halts o && short_circuit_on_deny config && negb aborted then true else aborted)
  | JErr idx (Some payload) :: events =>
      drain events (<[idx := Some (Panicked payload)]> slots) aborted
  | JErr idx None :: events => drain events slots aborted
  end.

Definition run_branches (results : list T) (sched : Schedule) : list (BranchOutcome T) :=
  match results with
  | [] => []
  | _ =>
      let '(slots, _) :=
        drain (joined_of results <$> sched) (replicate (length results) None) false in
      default Aborted <$> slots
  end.

(** ** The contract of [JoinSet] *)

Record Schedule_ok (results : list T) (sched : Schedule) : Prop := {
  so_once : sched.*1 ≡ₚ seq 0 (length results);
  so_cancelled : ∀ pre i post, sched = pre ++ (i, FateCancelled) :: post →
    short_circuit_on_deny config = true ∧
    ∃ j v, (j, FateDone) ∈ pre ∧ results !! j = Some v ∧ is_deny v = true;
  so_timeout : ∀ i, (i, FateTimeout) ∈ sched → is_Some (timeout_per_branch config)
}.

(** The slot a fate fills. *)
Definition outcome_of (results : list T) (p : nat * Fate) : option (BranchOutcome T) :=
  match p.2 with
  | FateDone => Completed <$> results !! p.1
  | FateTimeout => Some TimedOut
  | FatePanic msg => Some (Panicked msg)
  | FateCancelled => None
  end.

(** ** Lemmas *)

Lemma drain_length events slots ab : length (drain events slots ab).1 = length slots.
Proof.
  revert slots ab. induction events as [|[i o|i [m|]] events IH]; intros slots ab; simpl;
    rewrite ?IH, ?length_insert; done.
Qed.

Lemma drain_step results p sched slots ab :
  ∃ ab', drain (joined_of results <$> p :: sched) slots ab
  = drain (joined_of results <$> sched)
      (match outcome_of results p with
       | Some o => <[p.1 := Some o]> slots
       | None => slots
       end) ab'.
Proof.
  rewrite fmap_cons. destruct p as [i f]. unfold joined_of at 1, outcome_of. simpl.
  destruct f; [destruct (results !! i)| | |]; simpl; eauto.
Qed.

Lemma drain_untouched results sched slots ab i :
  i ∉ sched.*1 → (drain (joined_of results <$> sched) slots ab).1 !! i = slots !! i.
Proof.
  revert slots ab. induction sched as [|p sched IH]; intros slots ab Hi; [done|].
  rewrite fmap_cons, not_elem_of_cons in Hi. destruct Hi as [Hij Hi].
  destruct (drain_step results p sched slots ab) as [ab' ->]. rewrite IH by done.
  destruct (outcome_of results p); [|done]. by rewrite list_lookup_insert_ne.
Qed.

Lemma drain_at results sched slots ab i f :
  NoDup sched.*1 → (i, f) ∈ sched → slots !! i = Some None →
  (drain (joined_of results <$> sched) slots ab).1 !! i = Some (outcome_of results (i, f)).
Proof.
  revert slots ab. induction sched as [|p sched IH]; intros slots ab Hnd Hin Hs.
  { by apply not_elem_of_nil in Hin. }
  rewrite fmap_cons, NoDup_cons in Hnd. destruct Hnd as [Hj Hnd].
  pose proof (lookup_lt_Some _ _ _ Hs) as Hlt.
  destruct (drain_step results p sched slots ab) as [ab' ->].
  apply elem_of_cons in Hin as [<-|Hin].
  - rewrite drain_untouched by done. simpl.
    destruct (outcome_of results (i, f)); [by rewrite list_lookup_insert_eq|done].
  - apply IH; [done|done|]. destruct (outcome_of results p); [|done].
    rewrite list_lookup_insert_ne; [done|].
    intros <-. apply Hj, list_elem_of_fmap. by exists (p.1, f).
Qed.

Lemma run_branches_length results sched :
  length (run_branches results sched) = length results.
Proof.
  destruct results as [|r results]; [done|]. unfold run_branches.
  pose proof (drain_length (joined_of (r :: results) <$> sched)
                (replicate (length (r :: results)) None) false) as Hl.
  destruct (drain _ _ _) as [slots ab]. cbn [fst] in Hl.
  rewrite length_fmap, Hl. apply length_replicate.
Qed.

Lemma run_branches_at results sched i f :
  Schedule_ok results sched → (i, f) ∈ sched →
  run_branches results sched !! i = Some (default Aborted (outcome_of results (i, f))).
Proof.
  intros Hok Hin. pose proof (so_once _ _ Hok) as Hp.
  assert (i < length results) as Hlt.
  { assert (i ∈ sched.*1) as Hi by (apply list_elem_of_fmap; by exists (i, f)).
    rewrite Hp, elem_of_seq in Hi. lia. }
  assert (NoDup sched.*1) as Hnd by (rewrite Hp; apply NoDup_seq).
  destruct results as [|r results]; simpl in Hlt; [lia|]. unfold run_branches.
  pose proof (drain_at (r :: results) sched (replicate (length (r :: results)) None) false i f
                Hnd Hin ltac:(by apply lookup_replicate_2)) as Hd.
  destruct (drain _ _ _) as [slots ab]. cbn [fst] in Hd.
  by rewrite list_lookup_fmap, Hd.
Qed.

Lemma schedule_covers results sched i :
  Schedule_ok results sched → i < length results → ∃ f, (i, f) ∈ sched.
Proof.
  intros Hok Hlt. assert (i ∈ sched.*1) as Hi.
  { rewrite (so_once _ _ Hok), elem_of_seq. lia. }
  apply list_elem_of_fmap in Hi as ([j f] & -> & Hin). by exists f.
Qed.

(** A cancelled branch implies a joined deny. *)
Lemma cancelled_has_deny results sched i :
  Schedule_ok results sched → (i, FateCancelled) ∈ sched →
  ∃ j v, run_branches results sched !! j = Some (Completed v) ∧ is_deny v = true.
Proof.
  intros Hok Hin. apply list_elem_of_split in Hin as (pre & post & ->).
  destruct (so_cancelled _ _ Hok pre i post eq_refl) as (_ & j & v & Hj & Hv & Hd).
  exists j, v. split; [|done].
  rewrite (run_branches_at _ _ j FateDone Hok) by set_solver.
  unfold outcome_of. simpl. by rewrite Hv.
Qed.

(** What is reported as completed is a value some branch computed, whatever
    the schedule. *)
Lemma drain_completed results sched slots ab v :
  Some (Completed v) ∈ (drain (joined_of results <$> sched) slots ab).1 →
  v ∈ results ∨ Some (Completed v) ∈ slots.
Proof.
  revert slots ab. induction sched as [|p sched IH]; intros slots ab; [by right|].
  destruct (drain_step results p sched slots ab) as [ab' ->]. intros [|Hin]%IH; [by left|].
  destruct (outcome_of results p) as [o|] eqn:Eo; [|by right].
  apply list_elem_of_lookup in Hin as [j Hj].
  apply list_lookup_insert_Some in Hj as [(<- & [= ->] & _)|[_ Hj]];
    [left|right; by eapply list_elem_of_lookup_2].
  unfold outcome_of in Eo. destruct p as [i []]; simpl in Eo; simplify_eq.
  apply fmap_Some in Eo as (u & Hu & [= ->]). by eapply list_elem_of_lookup_2.
Qed.

Lemma run_branches_completed results sched v :
  Completed v ∈ run_branches results sched → v ∈ results.
Proof.
  destruct results as [|r results]; [by intros ?%not_elem_of_nil|]. unfold run_branches.
  pose proof (drain_completed (r :: results) sched
                (replicate (length (r :: results)) None) false v) as Hd.
  destruct (drain _ _ _) as [slots ab]. cbn [fst] in Hd.
  intros (o & Ho & Hin)%list_elem_of_fmap. destruct o as [o|]; simpl in Ho; [|done]. subst o.
  destruct (Hd Hin) as [|Hr]; [done|]. by apply elem_of_replicate in Hr as [].
Qed.

End RunBranches.

(** ** Properties *)

Lemma run_branches_deny_lost_free {T} config is_deny (results : list T) sched i v :
  Schedule_ok config is_deny results sched →
  results !! i = Some v → is_deny v = true →
  (∀ msg, (i, FatePanic msg) ∉ sched) → (i, FateTimeout) ∉ sched →
  ∃ j u, run_branches config is_deny results sched !! j = Some (Completed u)
         ∧ is_deny u = true.
Proof.
  intros Hok Hi Hd Hnp Hnt.
  destruct (schedule_covers config is_deny results sched i Hok) as [f Hf].
  { by eapply lookup_lt_Some. }
  destruct f as [| |msg|].
  - exists i, v. split; [|done].
    rewrite (run_branches_at _ _ _ _ _ _ Hok Hf). unfold outcome_of. simpl. by rewrite Hi.
  - done.
  - by destruct (Hnp msg).
  - by eapply cancelled_has_deny.
Qed.

(** [run_branches] returns one outcome per branch, in input order, whatever
    the completion order: a branch that ran to completion is [Completed] with
    its own value, a panicked or timed-out one is reported in its own slot,
    and only a cancelled one is [Aborted]. *)
Theorem run_branches_input_order {T} config is_deny (results : list T) sched :
  Schedule_ok config is_deny results sched →
  length (run_branches config is_deny results sched) = length results
  ∧ ∀ i f, (i, f) ∈ sched →
      run_branches config is_deny results sched !! i =
      Some (match f with
            | FateDone => match results !! i with Some v => Completed v | None => Aborted end
            | FateTimeout => TimedOut
            | FatePanic msg => Panicked msg
            | FateCancelled => Aborted
            end).
Proof.
  intros Hok. split; [apply run_branches_length|]. intros i f Hin.
  rewrite (run_branches_at config is_deny results sched i f Hok Hin). f_equal.
  unfold outcome_of; simpl. destruct f; try done. by destruct (results !! i).
Qed.

(** Short-circuiting never loses a denial: if the value some branch would
    compute is a deny and that branch neither panics nor times out, then at
    least one [Completed] outcome returned to the caller is a deny, also when
    the branch itself was aborted. *)
Theorem run_branches_deny_not_lost {T} config is_deny (results : list T) sched i v :
  Schedule_ok config is_deny results sched →
  results !! i = Some v → is_deny v = true →
  (∀ msg, (i, FatePanic msg) ∉ sched) → (i, FateTimeout) ∉ sched →
  ∃ j u, run_branches config is_deny results sched !! j = Some (Completed u)
         ∧ is_deny u = true.
Proof. apply run_branches_deny_lost_free. Qed.

(** With [short_circuit_on_deny] off no branch is ever [Aborted], and
    without a per-branch timeout none is [TimedOut]. *)
Theorem run_branches_no_abort {T} config is_deny (results : list T) sched :
  Schedule_ok config is_deny results sched →
  (short_circuit_on_deny config = false → Aborted ∉ run_branches config is_deny results sched)
  ∧ (timeout_per_branch config = None → TimedOut ∉ run_branches config is_deny results sched).
Proof.
  intros Hok.
  assert (∀ o, o ∈ run_branches config is_deny results sched →
    ∃ i f, (i, f) ∈ sched ∧ i < length results
           ∧ o = default Aborted (outcome_of results (i, f))) as Hcase.
  { intros o [i Ho]%list_elem_of_lookup. pose proof (lookup_lt_Some _ _ _ Ho) as Hlt.
    rewrite run_branches_length in Hlt.
    destruct (schedule_covers config is_deny results sched i Hok Hlt) as [f Hf].
    rewrite (run_branches_at _ _ _ _ _ _ Hok Hf) in Ho. naive_solver. }
  split; intros Hcfg (i & f & Hf & Hlt & Ho)%Hcase; unfold outcome_of in Ho; simpl in Ho.
  - apply lookup_lt_is_Some_2 in Hlt as [v Hv]. rewrite Hv in Ho.
    destruct f; try done. apply list_elem_of_split in Hf as (pre & post & ->).
    destruct (so_cancelled _ _ _ _ Hok pre i post eq_refl) as [Hs _]. congruence.
  - destruct f; try done.
    + destruct (results !! i); done.
    + destruct (so_timeout _ _ _ _ Hok i Hf) as [t Ht]. congruence.
Qed.

(** ** Witnesses *)

(** Three branches, the second denies; the third had finished before, the
    first is cancelled. *)
Definition demo_config : BranchConfig := mkBranchConfig None true.
Definition demo_schedule : Schedule := [(2, FateDone); (1, FateDone); (0, FateCancelled)].

Lemma demo_schedule_ok : Schedule_ok demo_config (λ b : bool, b) [true; true; false] demo_schedule.
Proof.
  constructor.
  - simpl. change [2; 1; 0] with (reverse (seq 0 3)). apply reverse_Permutation.
  - unfold demo_schedule. intros pre i post H. split; [done|].
    exists 1, true. split_and!; try done.
    destruct pre as [|a [|b [|c pre]]]; simplify_eq/=.
    { apply list_elem_of_In. simpl. tauto. }
    match goal with E : [] = ?l ++ _ :: _ |- _ => by destruct l end.
  - intros i Hi. apply list_elem_of_In in Hi. simpl in Hi. naive_solver.
Qed.

Lemma run_branches_order_witness :
  run_branches demo_config (λ b : bool, b) [true; true; false] demo_schedule !! 0 = Some Aborted.
Proof.
  apply (run_branches_input_order demo_config (λ b : bool, b) [true; true; false]
           demo_schedule demo_schedule_ok) with (f := FateCancelled).
  apply list_elem_of_In. simpl. auto.
Defined.

Lemma run_branches_deny_witness :
  ∃ j u, run_branches demo_config (λ b : bool, b) [true; true; false] demo_schedule !! j
         = Some (Completed u) ∧ u = true.
Proof.
  apply (run_branches_deny_not_lost demo_config (λ b : bool, b) [true; true; false]
           demo_schedule 0 true demo_schedule_ok eq_refl eq_refl);
    [intros msg|]; intros Hin; apply list_elem_of_In in Hin; simpl in Hin; naive_solver.
Defined.

Lemma run_branches_no_abort_witness :
  TimedOut ∉ run_branches demo_config (λ b : bool, b) [true; true; false] demo_schedule.
Proof.
  apply (run_branches_no_abort demo_config (λ b : bool, b) [true; true; false]
           demo_schedule demo_schedule_ok). reflexivity.
Defined.
