(* ===== verification/Routing.v ===== *)
(** * The routing constraint (cpex-core/src/extensions/routing.rs)

    The extension the policy engine writes for the host's router, the matcher
    [accepts] the router calls per backend, and its glob matcher.  The glob
    loop works on the pattern and text that remain, an index being the suffix
    that starts there. *)

From S2P Require Import Prelude RustStd Ir.
From Stdlib Require Import Ascii.

(** ** Data *)

Inductive CoreOnEmpty := CoreDeny | CoreFallback.

Record CandidateConstraintExtension := mkCandidateExt {
  ce_allow_models : option (list string);
  ce_deny_models : list string;
  ce_allow_regions : option (list string);
  ce_allow_sites : option (list string);
  ce_max_cost_tiers : list string;
  ce_custom : gmap string string;
  ce_on_empty : CoreOnEmpty
}.

#[global] Instance CoreOnEmpty_eq_dec : EqDecision CoreOnEmpty.
Proof. solve_decision. Defined.
#[global] Instance CandidateConstraintExtension_eq_dec : EqDecision CandidateConstraintExtension.
Proof. solve_decision. Defined.

Definition ext_is_empty (c : CandidateConstraintExtension) : bool :=
  bool_decide (ce_allow_models c = None)
  && is_nil (ce_deny_models c)
  && bool_decide (ce_allow_regions c = None)
  && bool_decide (ce_allow_sites c = None)
  && is_nil (ce_max_cost_tiers c)
  && bool_decide (ce_custom c = ∅).

Definition CAP_WRITE_CANDIDATE_CONSTRAINT : string := "write_candidate_constraint".
Definition LABEL_MODEL : string := "model".
Definition LABEL_REGION : string := "region".
Definition LABEL_SITE : string := "site".
Definition LABEL_COST_TIER : string := "cost_tier".

(** ** Glob matching *)

Definition star_char : ascii := "*"%char.

(** [while pi < p.len() && p[pi] == b'*' { pi += 1 } pi == p.len()]. *)
Definition only_stars (p : list ascii) : bool :=
  is_nil (drop_while (λ c, Ascii.eqb c star_char) p).

(** The main loop.  [star] holds the pattern after the last star and the text
    at [resume]. *)
Fixpoint glob_loop (fuel : nat) (p t : list ascii) (star : option (list ascii * list ascii)) :
    option bool :=
  match fuel with
  | O => None
  | S k =>
      let backtrack :=
        match star with
        | Some (sp, _ :: resume) => glob_loop k sp resume (Some (sp, resume))
        | _ => Some false
        end in
      match t with
      | [] => Some (only_stars p)
      | c :: t' =>
          match p with
          | x :: p' =>
              if Ascii.eqb x c then glob_loop k p' t' star
              else if Ascii.eqb x star_char then glob_loop k p' t (Some (p', t))
              else backtrack
          | [] => backtrack
          end
      end
  end.

(** Enough rounds: see [glob_loop_total]. *)
Definition glob_fuel (p t : list ascii) : nat := (length t + 2) * (length p + length t + 1).

Definition glob_match (pattern text : string) : bool :=
  let p := bytes pattern in
  let t := bytes text in
  default false (glob_loop (glob_fuel p t) p t None).

(** ** The matcher *)

Section Accepts.
(** [BackendLabels::label] and the host's [tier_rank] (a [u32] order). *)
Context (label : string → option string) (tier_rank : string → option Z).

Definition accepts_models (c : CandidateConstraintExtension) : bool :=
  match ce_allow_models c with
  | None => true
  | Some allow =>
      match label LABEL_MODEL with
      | Some m => existsb (λ pat, glob_match pat m) allow
      | None => false
      end
  end.

Definition denies_model (c : CandidateConstraintExtension) : bool :=
  match label LABEL_MODEL with
  | Some m => existsb (λ pat, glob_match pat m) (ce_deny_models c)
  | None => false
  end.

Definition accepts_set (allow : option (list string)) (key : string) : bool :=
  match allow with
  | None => true
  | Some allow =>
      match label key with
      | Some v => existsb (λ x, String.eqb x v) allow
      | None => false
      end
  end.

Definition accepts_tiers (c : CandidateConstraintExtension) : bool :=
  if is_nil (ce_max_cost_tiers c) then true
  else
    match label LABEL_COST_TIER ≫= tier_rank with
    | None => false
    | Some backend_rank =>
        forallb (λ ceiling, match tier_rank ceiling with
                            | Some ceiling_rank => (backend_rank <=? ceiling_rank)%Z
                            | None => false
                            end) (ce_max_cost_tiers c)
    end.

Definition accepts_custom (c : CandidateConstraintExtension) : bool :=
  forallb (λ p, match label p.1 with Some bv => String.eqb bv p.2 | None => false end)
    (map_to_list (ce_custom c)).

(** [CandidateConstraintExtension::accepts]. *)
Definition accepts (c : CandidateConstraintExtension) : bool :=
  accepts_models c
  && negb (denies_model c)
  && accepts_set (ce_allow_regions c) LABEL_REGION
  && accepts_set (ce_allow_sites c) LABEL_SITE
  && accepts_tiers c
  && accepts_custom c.

End Accepts.

(** ** What a glob means *)

Inductive GlobMatches : list ascii → list ascii → Prop :=
| glob_nil : GlobMatches [] []
| glob_char c p t : c ≠ star_char → GlobMatches p t → GlobMatches (c :: p) (c :: t)
| glob_star p skipped t : GlobMatches p t → GlobMatches (star_char :: p) (skipped ++ t).

#[local] Hint Constructors GlobMatches : core.

Lemma glob_char_inv c p x t :
  c ≠ star_char → GlobMatches (c :: p) (x :: t) ↔ x = c ∧ GlobMatches p t.
Proof. intros Hc. split; [inversion 1; subst; done|]. intros [-> Hm]. by constructor. Qed.

Lemma glob_star_inv p t : GlobMatches (star_char :: p) t ↔ ∃ s u, t = s ++ u ∧ GlobMatches p u.
Proof. split; [inversion 1; subst; naive_solver|]. intros (s & u & -> & Hm). by constructor. Qed.

Lemma only_stars_spec p : only_stars p = true ↔ GlobMatches p [].
Proof.
  unfold only_stars. induction p as [|x p IH]; simpl; [split; auto|].
  destruct (Ascii.eqb_spec x star_char) as [->|Hx].
  - rewrite IH, glob_star_inv. split; [by exists [], []|].
    intros (s & u & Hsu & Hm). symmetry in Hsu. by apply app_nil in Hsu as [-> ->].
  - split; [done|]. inversion 1; subst; done.
Qed.

(** A literal prefix of the pattern is matched literally. *)
Definition literal (l : list ascii) : Prop := Forall (λ c, c ≠ star_char) l.

Lemma glob_literal_prefix l p t :
  literal l → GlobMatches (l ++ p) t → ∃ u, t = l ++ u ∧ GlobMatches p u.
Proof.
  intros Hl. revert t. induction Hl as [|c l Hc _ IH]; intros t Hm; simpl in *; [eauto|].
  destruct t as [|x t]; [by inversion Hm|]. apply glob_char_inv in Hm as [-> Hm]; [|done].
  destruct (IH t Hm) as (u & -> & ?). eauto.
Qed.

(** ** The loop is correct *)

(** The attempt in progress: the last star's [sp] against [rt] has matched a
    literal run up to the current [p] and [t]. *)
Definition attempt (p t : list ascii) (star : option (list ascii * list ascii)) : Prop :=
  match star with
  | None => True
  | Some (sp, rt) => ∃ l, literal l ∧ sp = l ++ p ∧ rt = l ++ t
  end.

(** A match by letting the last star swallow more text. *)
Definition later (star : option (list ascii * list ascii)) : Prop :=
  match star with
  | None => False
  | Some (sp, rt) => ∃ s u, rt = s ++ u ∧ s ≠ [] ∧ GlobMatches sp u
  end.

Lemma later_step sp x rt :
  later (Some (sp, x :: rt)) ↔ GlobMatches sp rt ∨ later (Some (sp, rt)).
Proof.
  simpl. split.
  - intros (s & u & E & Hs & Hm). destruct s as [|y s]; [done|]. simplify_eq/=.
    destruct s as [|z s]; [by left|right]. by exists (z :: s), u.
  - intros [Hm|(s & u & -> & Hs & Hm)]; [by exists [x], rt|]. by exists (x :: s), u.
Qed.

Lemma star_now_or_later p t :
  GlobMatches (star_char :: p) t ↔ GlobMatches p t ∨ later (Some (p, t)).
Proof.
  rewrite glob_star_inv. simpl. split.
  - intros (s & u & -> & Hm). destruct s as [|x s]; [by left|right]. by exists (x :: s), u.
  - intros [Hm|(s & u & -> & _ & Hm)]; [by exists [], t|by exists s, u].
Qed.

(** A later match of an attempt leaves a shorter text than the current one. *)
Lemma later_shorter l p t s u :
  literal l → l ++ t = s ++ u → s ≠ [] → GlobMatches (l ++ p) u →
  ∃ s' u', t = s' ++ u' ∧ s' ≠ [] ∧ GlobMatches p u'.
Proof.
  intros Hl E Hs Hm. destruct (glob_literal_prefix l p u Hl Hm) as (u' & -> & Hm').
  assert (length t = length s + length u') as Hlen.
  { apply (f_equal length) in E. rewrite !length_app in E. lia. }
  assert (t = drop (length l) (s ++ l ++ u')) as Ht.
  { rewrite <-E, drop_app_length. done. }
  rewrite (assoc_L (++)) in Ht. rewrite drop_app_le in Ht by (rewrite length_app; lia).
  eexists _, u'. split; [exact Ht|]. split; [|done]. intros Hd.
  rewrite Hd in Ht. simpl in Ht. subst t.
  assert (length s = 0) by lia. by destruct s.
Qed.

Lemma later_star p' t star :
  attempt (star_char :: p') t star → later star → GlobMatches (star_char :: p') t.
Proof.
  destruct star as [[sp rt]|]; [|done]. intros (l & Hl & -> & ->) (s & u & E & Hs & Hm).
  destruct (later_shorter _ _ _ _ _ Hl E Hs Hm) as (s' & u' & -> & _ & Hm').
  apply glob_star_inv in Hm' as (s2 & u2 & -> & Hm2). apply glob_star_inv.
  exists (s' ++ s2), u2. by rewrite <-(assoc_L (++)).
Qed.

Lemma later_end p star : attempt p [] star → ¬ later star.
Proof.
  destruct star as [[sp rt]|]; [|by intros _ []]. intros (l & Hl & -> & ->) (s & u & E & Hs & Hm).
  destruct (later_shorter _ _ _ _ _ Hl E Hs Hm) as (s' & u' & E' & Hs' & _).
  symmetry in E'. by apply app_nil in E' as [-> _].
Qed.

Definition no_star_text (t : list ascii) (star : option (list ascii * list ascii)) : Prop :=
  literal t ∧ match star with Some (_, rt) => literal rt | None => True end.

(** When the loop returns, it returns whether the current attempt or a later
    one matches. *)
Lemma glob_loop_correct fuel p t star b :
  no_star_text t star → attempt p t star →
  glob_loop fuel p t star = Some b → b = true ↔ GlobMatches p t ∨ later star.
Proof.
  revert p t star. induction fuel as [|k IH]; intros p t star [Ht Hrt] Hat; [done|]. simpl.
  assert (¬ GlobMatches p t → (match star with
      | Some (sp, _ :: resume) => glob_loop k sp resume (Some (sp, resume))
      | _ => Some false end) = Some b → b = true ↔ GlobMatches p t ∨ later star) as Hback.
  { intros Hno. destruct star as [[sp [|x rt]]|].
    - intros [= <-]. split; [done|]. intros [?|(s & u & E & Hs & _)]; [done|].
      symmetry in E. by apply app_nil in E as [-> _].
    - intros Hloop. apply IH in Hloop.
      + rewrite later_step. tauto.
      + apply Forall_cons in Hrt as [_ Hrt]. by split.
      + exists []. by split_and!; [constructor| |].
    - intros [= <-]. split; [done|]. by intros [?|[]]. }
  destruct t as [|c t].
  { intros [= <-]. rewrite only_stars_spec. pose proof (later_end p star Hat). tauto. }
  apply Forall_cons in Ht as [Hc Ht].
  destruct p as [|x p]; [apply Hback; by inversion 1|].
  destruct (Ascii.eqb_spec x c) as [->|Hxc].
  - intros Hloop. apply IH in Hloop; [|by split|].
    + rewrite Hloop, glob_char_inv by done. tauto.
    + destruct star as [[sp rt]|]; [|done]. destruct Hat as (l & Hl & -> & ->).
      exists (l ++ [c]). rewrite <-!(assoc_L (++)). split_and!; [|done|done].
      apply Forall_app. auto using Forall_cons, Forall_nil.
  - destruct (Ascii.eqb_spec x star_char) as [->|Hx].
    + intros Hloop. apply IH in Hloop; [|split; by constructor|].
      * pose proof (later_star p (c :: t) star Hat). rewrite Hloop, <-star_now_or_later. tauto.
      * exists []. by split_and!; [constructor| |].
    + apply Hback. intros Hm. apply glob_char_inv in Hm as [? _]; [congruence|done].
Qed.

(** ** The loop terminates *)

Definition glob_measure (n m : nat) (p t : list ascii) (star : option (list ascii * list ascii)) :
    nat :=
  match star with
  | None => (m + 1) * (n + 1)
  | Some (_, rt) => length rt * (n + 1)
  end + length p + length t.

Lemma glob_loop_total n m fuel p t star :
  length p + length t ≤ n →
  match star with
  | Some (sp, rt) => length sp + length rt ≤ n ∧ length p ≤ length sp ∧ length t ≤ length rt
  | None => length t ≤ m
  end →
  glob_measure n m p t star < fuel → is_Some (glob_loop fuel p t star).
Proof.
  revert p t star. induction fuel as [|k IH]; intros p t star Hn Hs Hf; [lia|]. simpl.
  assert (is_Some (match star with
      | Some (sp, _ :: resume) => glob_loop k sp resume (Some (sp, resume))
      | _ => Some false end)) as Hback.
  { destruct star as [[sp [|x rt]]|]; [by eexists| |by eexists]. simpl in *.
    apply IH; simpl; [lia|lia|]. unfold glob_measure in *. simpl in *. lia. }
  destruct t as [|c t]; [by eexists|]. destruct p as [|x p]; [done|].
  destruct (Ascii.eqb x c).
  { unfold glob_measure in *.
    apply IH; [simpl in *; lia|destruct star as [[]|]; simpl in *; lia|].
    destruct star as [[]|]; simpl in *; lia. }
  destruct (Ascii.eqb x star_char); [|done].
  unfold glob_measure in *.
  apply IH; [simpl in *; lia|simpl in *; lia|].
  destruct star as [[sp rt]|]; simpl in *; nia.
Qed.

Lemma glob_match_returns p t : is_Some (glob_loop (glob_fuel p t) p t None).
Proof.
  apply (glob_loop_total (length p + length t) (length t)); [lia|done|].
  unfold glob_measure, glob_fuel. nia.
Qed.

Lemma literal_no_star s : contains_char star_char s = false ↔ literal (bytes s).
Proof.
  unfold literal. induction s as [|c s IH]; cbn [contains_char bytes].
  { split; [constructor|done]. }
  rewrite orb_false_iff, IH, Forall_cons. apply and_iff_compat_r.
  destruct (Ascii.eqb_spec star_char c) as [Hc|Hc]; split; congruence.
Qed.

Lemma glob_match_spec pattern text :
  contains_char star_char text = false →
  glob_match pattern text = true ↔ GlobMatches (bytes pattern) (bytes text).
Proof.
  intros Ht%literal_no_star. unfold glob_match.
  destruct (glob_match_returns (bytes pattern) (bytes text)) as [b Hb]. rewrite Hb. simpl.
  assert (no_star_text (bytes text) None) as Hn by done.
  rewrite (glob_loop_correct _ _ _ _ _ Hn I Hb). simpl. tauto.
Qed.

Lemma glob_match_literal p t :
  contains_char star_char p = false → glob_match p t = true → p = t.
Proof.
  intros Hp%literal_no_star. unfold glob_match.
  destruct (glob_loop _ _ _ _) as [b|] eqn:E; [|done]. simpl. intros ->.
  rewrite <-(of_bytes_bytes p), <-(of_bytes_bytes t). f_equal.
  revert E. generalize (glob_fuel (bytes p) (bytes t)) as fuel.
  generalize dependent (bytes t). induction Hp as [|c l Hc _ IH]; intros t' fuel;
    (destruct fuel as [|k]; [done|]); simpl; destruct t' as [|x t'].
  - done.
  - done.
  - unfold only_stars. simpl. by destruct (Ascii.eqb_spec c star_char).
  - destruct (Ascii.eqb_spec c x) as [->|]; [intros Hl; f_equal; by eapply IH|].
    by destruct (Ascii.eqb_spec c star_char).
Qed.

(** ** What the matcher accepts *)

Section Admits.
Context (label : string → option string) (tier_rank : string → option Z).

(** The model label matches a pattern; the tier label ranks at most a ceiling. *)
Definition model_matches (pat : string) : Prop :=
  ∃ m, label LABEL_MODEL = Some m ∧ glob_match pat m = true.
Definition tier_within (ceiling : string) : Prop :=
  ∃ br cr, label LABEL_COST_TIER ≫= tier_rank = Some br ∧ tier_rank ceiling = Some cr
           ∧ (br ≤ cr)%Z.

Definition admits_set (l : option (list string)) (P : string → Prop) : Prop :=
  match l with None => True | Some l => ∃ x, x ∈ l ∧ P x end.

Definition admits_ext (c : CandidateConstraintExtension) : Prop :=
  admits_set (ce_allow_models c) model_matches
  ∧ (∀ p, p ∈ ce_deny_models c → ¬ model_matches p)
  ∧ admits_set (ce_allow_regions c) (λ r, label LABEL_REGION = Some r)
  ∧ admits_set (ce_allow_sites c) (λ s, label LABEL_SITE = Some s)
  ∧ (∀ t, t ∈ ce_max_cost_tiers c → tier_within t)
  ∧ (∀ k v, ce_custom c !! k = Some v → label k = Some v).

Lemma existsb_elem {A} (f : A → bool) l : existsb f l = true ↔ ∃ x, x ∈ l ∧ f x = true.
Proof. rewrite existsb_exists. by setoid_rewrite list_elem_of_In. Qed.

Lemma accepts_set_spec l key :
  accepts_set label l key = true ↔ admits_set l (λ v, label key = Some v).
Proof.
  unfold accepts_set, admits_set. destruct l as [l|]; [|done].
  destruct (label key) as [v|].
  - rewrite existsb_elem. setoid_rewrite String.eqb_eq. naive_solver.
  - split; [done|]. by intros (? & _ & ?).
Qed.

Lemma accepts_models_spec c :
  accepts_models label c = true ↔ admits_set (ce_allow_models c) model_matches.
Proof.
  unfold accepts_models, admits_set, model_matches. destruct (ce_allow_models c); [|done].
  destruct (label LABEL_MODEL) as [m|]; [rewrite existsb_elem|]; naive_solver.
Qed.

Lemma denies_model_spec c :
  denies_model label c = false ↔ ∀ p, p ∈ ce_deny_models c → ¬ model_matches p.
Proof.
  unfold denies_model, model_matches. destruct (label LABEL_MODEL) as [m|]; [|naive_solver].
  rewrite <-not_true_iff_false, existsb_elem. naive_solver.
Qed.

Lemma accepts_tiers_spec c :
  accepts_tiers label tier_rank c = true ↔ ∀ t, t ∈ ce_max_cost_tiers c → tier_within t.
Proof.
  unfold accepts_tiers, tier_within. destruct (ce_max_cost_tiers c) as [|t0 ts]; simpl.
  { split; [|done]. by intros _ t ?%not_elem_of_nil. }
  destruct (label LABEL_COST_TIER ≫= tier_rank) as [br|].
  - change (_ && _) with (forallb (λ ceiling, match tier_rank ceiling with
      | Some ceiling_rank => (br <=? ceiling_rank)%Z | None => false end) (t0 :: ts)).
    rewrite forallb_Forall, Forall_forall. apply forall_proper. intros t.
    apply forall_proper. intros _. destruct (tier_rank t) as [cr|]; [|naive_solver].
    rewrite Z.leb_le. naive_solver.
  - split; [done|]. intros H. destruct (H t0) as (? & ? & ? & _); [by left|done].
Qed.

Lemma accepts_custom_spec c :
  accepts_custom label c = true ↔ ∀ k v, ce_custom c !! k = Some v → label k = Some v.
Proof.
  unfold accepts_custom. rewrite forallb_Forall, Forall_forall. split.
  - intros H k v Hk%elem_of_map_to_list. specialize (H _ Hk). simpl in H.
    destruct (label k); [|done]. by apply String.eqb_eq in H as ->.
  - intros H [k v] Hk%elem_of_map_to_list. simpl. rewrite (H k v Hk). apply String.eqb_refl.
Qed.

Lemma accepts_spec c : accepts label tier_rank c = true ↔ admits_ext c.
Proof.
  unfold accepts, admits_ext. rewrite !andb_true_iff, negb_true_iff, accepts_models_spec,
    denies_model_spec, !accepts_set_spec, accepts_tiers_spec, accepts_custom_spec. tauto.
Qed.

End Admits.

(** ** Properties *)

(** On texts that contain no [*] (model identifiers) the glob matcher
    decides exactly the declarative meaning of a pattern, where a [*] stands
    for any run of characters: backtracking to the last star only loses no
    match, and the loop always returns. *)
Theorem glob_match_correct pattern text :
  contains_char star_char text = false →
  is_Some (glob_loop (glob_fuel (bytes pattern) (bytes text)) (bytes pattern) (bytes text) None)
  ∧ (glob_match pattern text = true ↔ GlobMatches (bytes pattern) (bytes text)).
Proof. intros Ht. split; [apply glob_match_returns|by apply glob_match_spec]. Qed.

(** On a text that contains [*] the matcher is wrong: the pattern [*],
    which stands for every text, does not match the text [*a], because an
    equal byte is consumed before the star is considered; a deny-list [*] thus
    lets that model through. *)
Theorem glob_match_star_text :
  glob_match "*" "*a" = false ∧ GlobMatches (bytes "*") (bytes "*a")
  ∧ accepts (λ k, if String.eqb k LABEL_MODEL then Some "*a" else None) (λ _, None)
      (mkCandidateExt None ["*"] None None [] ∅ CoreDeny) = true.
Proof.
  split_and!; [reflexivity| |reflexivity].
  apply (glob_star [] (bytes "*a") []). constructor.
Qed.

Lemma glob_match_witness : glob_match "anthropic/*-4" "anthropic/claude-sonnet-4" = true.
Proof.
  apply (glob_match_correct "anthropic/*-4" "anthropic/claude-sonnet-4"); [reflexivity|].
  change (GlobMatches (bytes "anthropic/" ++ star_char :: bytes "-4")
            (bytes "anthropic/" ++ bytes "claude-sonnet" ++ bytes "-4")).
  repeat (apply glob_char; [done|]). apply (glob_star (bytes "-4") (bytes "claude-sonnet")).
  repeat (apply glob_char; [done|]). apply glob_nil.
Defined.
