(* ===== verification/Constraint.v ===== *)
(** * Backend constraints

    [RestrictSpec::resolve] (apl-core/src/constraint.rs) and the fold of the
    constraints a request emitted into the routing extension
    (apl-cpex/src/candidate_constraint.rs, cpex-core/src/extensions/routing.rs).
    A [BTreeSet<String>] is a [gset string]; iterating one yields its elements
    in byte order. *)

From S2P Require Import Prelude RustStd Attributes Ir Routing.
From stdpp Require Import sorting.

Local Open Scope string_scope.

(** ** Ordered iteration *)

Definition le_key (p q : string * string) : Prop := String.le p.1 q.1.
#[local] Instance le_key_dec p q : base.Decision (le_key p q).
Proof. unfold le_key. apply _. Defined.
Definition sorted_entries (m : gmap string string) : list (string * string) :=
  merge_sort le_key (map_to_list m).

(** ** Resolution (constraint.rs) *)

Definition constraint_is_empty (c : CandidateConstraint) : bool :=
  bool_decide (cc_allow_models c = None)
  && is_nil (cc_deny_models c)
  && bool_decide (cc_allow_regions c = None)
  && bool_decide (cc_allow_sites c = None)
  && bool_decide (cc_max_cost_tier c = None)
  && bool_decide (cc_custom c = ∅).

Definition restrict_is_empty (r : RestrictSpec) : bool :=
  match rs_allow_models r, rs_deny_models r, rs_allow_regions r, rs_allow_sites r,
        rs_max_cost_tier r with
  | None, None, None, None, None => bool_decide (rs_custom r = ∅)
  | _, _, _, _, _ => false
  end.

(** [StringSetSpec::resolve]. *)
Definition spec_resolve (spec : StringSetSpec) (bag : AttributeBag) : option (list string) :=
  match spec with
  | SsLiteral v => Some v
  | SsRef path =>
      match resolve_key bag path with
      | None => None
      | Some key =>
          match bag_get bag key with
          | Some (AStringSet s) => Some (sorted_elements s)
          | Some (AString s) => Some [s]
          | _ => None
          end
      end
  end.

Record RestrictResolveError := mkRestrictError { rre_field : string; rre_path : string }.

Definition show_restrict_error (e : RestrictResolveError) : string :=
  "restrict: `" +:+ rre_field e +:+ "` reference `" +:+ rre_path e
    +:+ "` did not resolve to a set — denying (a deny-list cannot fail open)".

(** An allow-list that does not resolve shrinks to the empty set. *)
Definition resolve_allow (s : option StringSetSpec) (bag : AttributeBag) : option (list string) :=
  (λ s, default [] (spec_resolve s bag)) <$> s.

(** [RestrictSpec::resolve]. *)
Definition restrict_resolve (r : RestrictSpec) (bag : AttributeBag) :
    Result CandidateConstraint RestrictResolveError :=
  let allow_models := resolve_allow (rs_allow_models r) bag in
  let allow_regions := resolve_allow (rs_allow_regions r) bag in
  let allow_sites := resolve_allow (rs_allow_sites r) bag in
  let deny_models :=
    match rs_deny_models r with
    | None => Ok []
    | Some spec =>
        match spec_resolve spec bag with
        | Some v => Ok v
        | None =>
            let path := match spec with SsRef p => p | SsLiteral _ => EmptyString end in
            Err (mkRestrictError "deny_models" path)
        end
    end in
  match deny_models with
  | Err e => Err e
  | Ok deny_models =>
      Ok {| cc_allow_models := allow_models; cc_deny_models := deny_models;
            cc_allow_regions := allow_regions; cc_allow_sites := allow_sites;
            cc_max_cost_tier := rs_max_cost_tier r; cc_custom := rs_custom r;
            cc_on_empty := rs_on_empty r |}
  end.

(** ** The fold (candidate_constraint.rs) *)

Record ConstraintConflict := mkConflict {
  cf_key : string; cf_existing : string; cf_incoming : string
}.

Definition strictest (a b : CoreOnEmpty) : CoreOnEmpty :=
  match a, b with CoreFallback, CoreFallback => CoreFallback | _, _ => CoreDeny end.

Definition map_on_empty (v : OnEmpty) : CoreOnEmpty :=
  match v with OeDeny => CoreDeny | OeFallback => CoreFallback end.

Definition intersect_into (acc : option (list string)) (incoming : option (list string)) :
    option (list string) :=
  match incoming with
  | None => acc
  | Some incoming =>
      let incoming : gset string := list_to_set incoming in
      match acc with
      | None => Some (sorted_elements incoming)
      | Some existing => Some (filter (λ e, e ∈ incoming) existing)
      end
  end.

(** The inner loop over [c.custom], in key order. *)
Fixpoint merge_custom (custom : gmap string string) (entries : list (string * string)) :
    Result (gmap string string) ConstraintConflict :=
  match entries with
  | [] => Ok custom
  | (k, v) :: entries =>
      match custom !! k with
      | Some existing =>
          if String.eqb existing v then merge_custom custom entries
          else Err (mkConflict k existing v)
      | None => merge_custom (<[k := v]> custom) entries
      end
  end.

(** The mutable locals of the fold. *)
Record FoldState := mkFold {
  fs_allow_models : option (list string);
  fs_allow_regions : option (list string);
  fs_allow_sites : option (list string);
  fs_deny_models : gset string;
  fs_tiers : gset string;
  fs_custom : gmap string string;
  fs_on_empty : CoreOnEmpty
}.

Definition fold_init : FoldState := mkFold None None None ∅ ∅ ∅ CoreFallback.

Definition fold_step (st : FoldState) (c : CandidateConstraint) :
    Result FoldState ConstraintConflict :=
  let allow_models := intersect_into (fs_allow_models st) (cc_allow_models c) in
  let allow_regions := intersect_into (fs_allow_regions st) (cc_allow_regions c) in
  let allow_sites := intersect_into (fs_allow_sites st) (cc_allow_sites c) in
  let deny_models := fs_deny_models st ∪ list_to_set (cc_deny_models c) in
  let tiers := match cc_max_cost_tier c with
               | Some tier => {[ tier ]} ∪ fs_tiers st
               | None => fs_tiers st
               end in
  match merge_custom (fs_custom st) (sorted_entries (cc_custom c)) with
  | Err e => Err e
  | Ok custom =>
      Ok (mkFold allow_models allow_regions allow_sites deny_models tiers custom
            (strictest (fs_on_empty st) (map_on_empty (cc_on_empty c))))
  end.

Fixpoint fold_loop (st : FoldState) (cs : list CandidateConstraint) :
    Result FoldState ConstraintConflict :=
  match cs with
  | [] => Ok st
  | c :: cs =>
      match fold_step st c with
      | Ok st => fold_loop st cs
      | Err e => Err e
      end
  end.

Definition fold_finish (st : FoldState) : option CandidateConstraintExtension :=
  let folded :=
    {| ce_allow_models := fs_allow_models st;
       ce_deny_models := sorted_elements (fs_deny_models st);
       ce_allow_regions := fs_allow_regions st;
       ce_allow_sites := fs_allow_sites st;
       ce_max_cost_tiers := sorted_elements (fs_tiers st);
       ce_custom := fs_custom st;
       ce_on_empty := fs_on_empty st |} in
  if ext_is_empty folded then None else Some folded.

Definition fold_candidate_constraints (constraints : list CandidateConstraint) :
    Result (option CandidateConstraintExtension) ConstraintConflict :=
  match constraints with
  | [] => Ok None
  | _ => result_map fold_finish (fold_loop fold_init constraints)
  end.

(** ** Lemmas: ordered iteration *)

Lemma sorted_elements_nil s : sorted_elements s = [] ↔ s = ∅.
Proof.
  split.
  - intros E. apply set_eq. intros x. rewrite <-elem_of_sorted_elements, E. set_solver.
  - intros ->. done.
Qed.

(** A sorted list without duplicates is determined by its elements. *)
Lemma sorted_elements_unique s l :
  StronglySorted String.le l → NoDup l → (∀ x, x ∈ l ↔ x ∈ s) → l = sorted_elements s.
Proof.
  intros Hs Hnd Hel. apply (StronglySorted_unique String.le); [done| |].
  - apply StronglySorted_merge_sort; apply _.
  - unfold sorted_elements. rewrite merge_sort_Permutation.
    apply NoDup_Permutation; [done|apply NoDup_elements|].
    intros x. by rewrite Hel, elem_of_elements.
Qed.

Lemma StronglySorted_filter {A} (R : relation A) (P : A → Prop) `{!∀ x, base.Decision (P x)} l :
  StronglySorted R l → StronglySorted R (filter P l).
Proof.
  induction 1 as [|x l Hl IH Hx]; [constructor|].
  rewrite filter_cons. case_decide; [|done]. constructor; [done|].
  rewrite Forall_forall in Hx |- *. intros y [_ Hy]%list_elem_of_filter. auto.
Qed.

Lemma filter_sorted_elements s (t : gset string) :
  filter (λ e, e ∈ t) (sorted_elements s) = sorted_elements (s ∩ t).
Proof.
  apply sorted_elements_unique.
  - apply StronglySorted_filter, StronglySorted_merge_sort; apply _.
  - apply NoDup_filter. unfold sorted_elements. rewrite merge_sort_Permutation.
    apply NoDup_elements.
  - intros x. rewrite list_elem_of_filter, elem_of_sorted_elements. set_solver.
Qed.

(** ** Lemmas: the fold on sets *)

(** The set view of an allow-list accumulator: [None] is the universe. *)
Definition meet (a b : option (gset string)) : option (gset string) :=
  match a, b with
  | None, x => x
  | x, None => x
  | Some a, Some b => Some (a ∩ b)
  end.

#[global] Instance meet_assoc : Assoc (=) meet.
Proof. intros [a|] [b|] [c|]; simpl; f_equal. set_solver. Qed.
#[global] Instance meet_comm : Comm (=) meet.
Proof. intros [a|] [b|]; simpl; f_equal. set_solver. Qed.
#[global] Instance strictest_assoc : Assoc (=) strictest.
Proof. by intros [] [] []. Qed.
#[global] Instance strictest_comm : Comm (=) strictest.
Proof. by intros [] []. Qed.

Definition allow_set (l : option (list string)) : option (gset string) := list_to_set <$> l.

Lemma intersect_into_meet (a : option (gset string)) inc :
  intersect_into (sorted_elements <$> a) inc = sorted_elements <$> meet a (allow_set inc).
Proof.
  destruct inc as [inc|], a as [a|]; simpl; try done. by rewrite filter_sorted_elements.
Qed.

Lemma sorted_entries_perm m : sorted_entries m ≡ₚ map_to_list m.
Proof. apply merge_sort_Permutation. Qed.

(** Merging entries with distinct keys: success is agreement with the
    accumulator, and the result is the union. *)
Lemma merge_custom_ok entries acc m :
  NoDup entries.*1 →
  merge_custom acc entries = Ok m ↔
  (∀ k v, (k, v) ∈ entries → acc !! k = None ∨ acc !! k = Some v)
  ∧ m = acc ∪ list_to_map entries.
Proof.
  revert acc. induction entries as [|[k v] entries IH]; intros acc Hnd; simpl.
  { rewrite (right_id_L ∅ (∪)). split; [|naive_solver].
    intros [= ->]. split; [|done]. intros ?? H. by apply not_elem_of_nil in H. }
  simpl in Hnd. apply NoDup_cons in Hnd as [Hk Hnd].
  assert (∀ v', (k, v') ∉ entries) as Hk'.
  { intros v' Hin. apply Hk, list_elem_of_fmap. by exists (k, v'). }
  destruct (acc !! k) as [ex|] eqn:Ek.
  - destruct (String.eqb_spec ex v) as [->|Hne].
    + rewrite IH by done. split; intros [H1 ->]; split.
      * intros k' v' [[= -> ->]|Hin]%elem_of_cons; eauto.
      * apply map_eq. intros i. rewrite !lookup_union, lookup_insert.
        case_decide; subst; [|done]. rewrite Ek. by destruct (list_to_map entries !! _).
      * intros k' v' Hin. apply H1. by right.
      * apply map_eq. intros i. rewrite !lookup_union, lookup_insert.
        case_decide; subst; [|done]. rewrite Ek. by destruct (list_to_map entries !! _).
    + split; [done|]. intros [H1 _]. destruct (H1 k v) as [?|?]; [by left| |]; congruence.
  - rewrite IH by done. split; intros [H1 ->]; split.
    + intros k' v' [[= -> ->]|Hin]%elem_of_cons; [by left|].
      destruct (H1 _ _ Hin) as [H2|H2]; rewrite lookup_insert in H2;
        case_decide; subst; naive_solver.
    + apply map_eq. intros i. rewrite !lookup_union, !lookup_insert.
      case_decide; subst; [|done]. rewrite Ek. by destruct (list_to_map entries !! _).
    + intros k' v' Hin. rewrite lookup_insert. case_decide; subst; [naive_solver|].
      apply H1. by right.
    + apply map_eq. intros i. rewrite !lookup_union, !lookup_insert.
      case_decide; subst; [|done]. rewrite Ek. by destruct (list_to_map entries !! _).
Qed.

Definition agree (m1 m2 : gmap string string) : Prop :=
  ∀ k v1 v2, m1 !! k = Some v1 → m2 !! k = Some v2 → v1 = v2.

Lemma merge_custom_map acc c m :
  merge_custom acc (sorted_entries c) = Ok m ↔ agree acc c ∧ m = acc ∪ c.
Proof.
  rewrite merge_custom_ok.
  - assert (list_to_map (sorted_entries c) = c) as ->.
    { rewrite (list_to_map_proper (sorted_entries c) (map_to_list c)).
      - apply list_to_map_to_list.
      - rewrite sorted_entries_perm. apply NoDup_fst_map_to_list.
      - apply sorted_entries_perm. }
    apply and_iff_compat_r. unfold agree. split.
    + intros H k v1 v2 H1 H2. destruct (H k v2) as [H3|H3]; [|congruence..].
      rewrite sorted_entries_perm. by apply elem_of_map_to_list.
    + intros H k v Hin. rewrite sorted_entries_perm, elem_of_map_to_list in Hin.
      destruct (acc !! k) as [v1|] eqn:E; [right|by left]. f_equal. eauto.
  - rewrite sorted_entries_perm. apply NoDup_fst_map_to_list.
Qed.

(** The fold state whose allow-lists are given as sets. *)
Definition of_sets (am ar asi : option (gset string)) (dm ti : gset string)
    (cu : gmap string string) (oe : CoreOnEmpty) : FoldState :=
  mkFold (sorted_elements <$> am) (sorted_elements <$> ar) (sorted_elements <$> asi)
    dm ti cu oe.

Definition tier_set (c : CandidateConstraint) : gset string :=
  match cc_max_cost_tier c with Some t => {[ t ]} | None => ∅ end.

Lemma fold_step_sets am ar asi dm ti cu oe c st' :
  fold_step (of_sets am ar asi dm ti cu oe) c = Ok st' ↔
  agree cu (cc_custom c) ∧
  st' = of_sets (meet am (allow_set (cc_allow_models c)))
          (meet ar (allow_set (cc_allow_regions c))) (meet asi (allow_set (cc_allow_sites c)))
          (dm ∪ list_to_set (cc_deny_models c)) (ti ∪ tier_set c) (cu ∪ cc_custom c)
          (strictest oe (map_on_empty (cc_on_empty c))).
Proof.
  unfold fold_step, of_sets; simpl. rewrite !intersect_into_meet.
  assert (match cc_max_cost_tier c with Some tier => {[tier]} ∪ ti | None => ti end
          = ti ∪ tier_set c) as ->.
  { unfold tier_set. destruct (cc_max_cost_tier c); set_solver. }
  pose proof (merge_custom_map cu (cc_custom c)) as Hm.
  destruct (merge_custom cu (sorted_entries (cc_custom c))) as [m|e].
  - destruct (proj1 (Hm m) eq_refl) as [Ha ->]. naive_solver.
  - split; [done|]. intros [Ha _]. by specialize (proj2 (Hm _) (conj Ha eq_refl)).
Qed.

Lemma option_union_swap {A} (a b c : option A) :
  (∀ x y, a = None → b = Some x → c = Some y → x = y) → (a ∪ b) ∪ c = (a ∪ c) ∪ b.
Proof.
  destruct a as [a|], b as [b|], c as [c|]; intros H; try done.
  by rewrite (H b c eq_refl eq_refl eq_refl).
Qed.

Lemma agree_union m c1 c2 : agree (m ∪ c1) c2 ↔ agree m c2 ∧
  (∀ k v1 v2, m !! k = None → c1 !! k = Some v1 → c2 !! k = Some v2 → v1 = v2).
Proof.
  unfold agree. split.
  - intros H. split.
    + intros k v1 v2 H1 H2. apply (H k); [|done]. by apply lookup_union_Some_l.
    + intros k v1 v2 Hn H1 H2. apply (H k); [|done]. by rewrite lookup_union_r.
  - intros [H1 H2] k v1 v2 Hk Hc. destruct (m !! k) as [v|] eqn:E.
    + rewrite (lookup_union_Some_l _ _ _ _ E) in Hk. naive_solver.
    + rewrite lookup_union_r in Hk by done. eauto.
Qed.

(** Two constraints can be folded in either order. *)
Lemma fold_step_comm am ar asi dm ti cu oe c1 c2 st1 st2 :
  fold_step (of_sets am ar asi dm ti cu oe) c1 = Ok st1 → fold_step st1 c2 = Ok st2 →
  ∃ st1', fold_step (of_sets am ar asi dm ti cu oe) c2 = Ok st1'
          ∧ fold_step st1' c1 = Ok st2.
Proof.
  intros [A1 ->]%fold_step_sets [A2 ->]%fold_step_sets.
  apply agree_union in A2 as [A2 A3].
  eexists. split; [apply fold_step_sets; split; [done|reflexivity]|].
  apply fold_step_sets. split.
  { apply agree_union. split; [done|]. intros k v1 v2 Hn H1 H2. symmetry. eauto. }
  unfold of_sets. f_equal; try (f_equal; rewrite <-!(assoc_L meet); f_equal; apply (comm_L meet)).
  - set_solver.
  - set_solver.
  - apply map_eq. intros k. rewrite !lookup_union. apply option_union_swap. eauto.
  - rewrite <-!(assoc_L strictest). f_equal. apply (comm_L strictest).
Qed.

(** A state the loop can reach. *)
Definition from_sets (st : FoldState) : Prop :=
  ∃ am ar asi dm ti cu oe, st = of_sets am ar asi dm ti cu oe.

Lemma fold_init_from_sets : from_sets fold_init.
Proof. by exists None, None, None, ∅, ∅, ∅, CoreFallback. Qed.

Lemma fold_step_from_sets st c st' : from_sets st → fold_step st c = Ok st' → from_sets st'.
Proof.
  intros (am & ar & asi & dm & ti & cu & oe & ->) [_ ->]%fold_step_sets.
  repeat eexists.
Qed.

Lemma fold_loop_perm cs cs' st r :
  cs ≡ₚ cs' → from_sets st → fold_loop st cs = Ok r → fold_loop st cs' = Ok r.
Proof.
  intros Hp. revert st. induction Hp as [|c cs cs' _ IH|c1 c2 cs|cs1 cs2 cs3 _ IH1 _ IH2];
    intros st Hst; simpl; auto.
  - destruct (fold_step st c) as [st1|] eqn:E; [|done].
    apply IH. by eapply fold_step_from_sets.
  - destruct (fold_step st c2) as [st1|] eqn:E1; [|done].
    destruct (fold_step st1 c1) as [st2|] eqn:E2; [|done]. intros Hr.
    destruct Hst as (am & ar & asi & dm & ti & cu & oe & ->).
    destruct (fold_step_comm _ _ _ _ _ _ _ _ _ _ _ E1 E2) as (s & -> & ->). done.
Qed.

(** ** Which backends a constraint admits *)

(** The fold against abstract tests: which allow patterns a backend matches,
    which deny patterns, its region and site, the ceilings it is within, and
    the labels it carries. *)
Section Admission.
Context (Pm Dm Pr Ps Ti : string → Prop) (Lb : string → string → Prop).

Definition admits_with (c : CandidateConstraint) : Prop :=
  admits_set (cc_allow_models c) Pm
  ∧ (∀ p, p ∈ cc_deny_models c → ¬ Dm p)
  ∧ admits_set (cc_allow_regions c) Pr
  ∧ admits_set (cc_allow_sites c) Ps
  ∧ (∀ t, cc_max_cost_tier c = Some t → Ti t)
  ∧ (∀ k v, cc_custom c !! k = Some v → Lb k v).

Definition admits_gset (l : option (gset string)) (P : string → Prop) : Prop :=
  match l with None => True | Some l => ∃ x, x ∈ l ∧ P x end.

Definition admits_state (am ar asi : option (gset string)) (dm ti : gset string)
    (cu : gmap string string) : Prop :=
  admits_gset am Pm
  ∧ (∀ p, p ∈ dm → ¬ Dm p)
  ∧ admits_gset ar Pr
  ∧ admits_gset asi Ps
  ∧ (∀ t, t ∈ ti → Ti t)
  ∧ (∀ k v, cu !! k = Some v → Lb k v).

(** The folded extension, against the same tests. *)
Definition admits_ext_with (c : CandidateConstraintExtension) : Prop :=
  admits_set (ce_allow_models c) Pm
  ∧ (∀ p, p ∈ ce_deny_models c → ¬ Dm p)
  ∧ admits_set (ce_allow_regions c) Pr
  ∧ admits_set (ce_allow_sites c) Ps
  ∧ (∀ t, t ∈ ce_max_cost_tiers c → Ti t)
  ∧ (∀ k v, ce_custom c !! k = Some v → Lb k v).

Lemma admits_meet a l P :
  admits_gset (meet a (allow_set l)) P → admits_gset a P ∧ admits_set l P.
Proof. destruct a as [a|], l as [l|]; simpl; try naive_solver set_solver. Qed.

Lemma admits_meet_unique a l P :
  (∀ x y, P x → P y → x = y) →
  admits_gset a P ∧ admits_set l P → admits_gset (meet a (allow_set l)) P.
Proof.
  intros Hu. destruct a as [a|], l as [l|]; simpl; try naive_solver.
  - intros [(x & Hx & Px) (y & Hy & Py)]. rewrite (Hu y x Py Px) in Hy.
    exists x. set_solver.
  - intros [_ (y & Hy & Py)]. exists y. set_solver.
Qed.

Lemma labels_union (cu c : gmap string string) :
  agree cu c →
  (∀ k v, (cu ∪ c) !! k = Some v → Lb k v)
  ↔ (∀ k v, cu !! k = Some v → Lb k v) ∧ (∀ k v, c !! k = Some v → Lb k v).
Proof.
  intros Ha. setoid_rewrite lookup_union_Some_raw. split; [|naive_solver].
  intros Hl. split; [naive_solver|]. intros k v Hk. apply Hl.
  destruct (cu !! k) as [u|] eqn:E; [left|by right]. f_equal. eauto.
Qed.

Lemma admits_step am ar asi dm ti cu c :
  agree cu (cc_custom c) →
  admits_state (meet am (allow_set (cc_allow_models c)))
    (meet ar (allow_set (cc_allow_regions c))) (meet asi (allow_set (cc_allow_sites c)))
    (dm ∪ list_to_set (cc_deny_models c)) (ti ∪ tier_set c) (cu ∪ cc_custom c) →
  admits_state am ar asi dm ti cu ∧ admits_with c.
Proof.
  intros Ha (H1 & H2 & H3 & H4 & H5 & H6). unfold admits_state, admits_with.
  apply admits_meet in H1 as [? ?]. apply admits_meet in H3 as [? ?].
  apply admits_meet in H4 as [? ?]. apply labels_union in H6 as [? ?]; [|done].
  split_and!; try done.
  - intros p Hp. apply H2. set_solver.
  - intros t Ht. apply H5. set_solver.
  - intros p Hp. apply H2. set_solver.
  - intros t Ht. apply H5. unfold tier_set. rewrite Ht. set_solver.
Qed.

(** Each test singles out at most one value: plain names. *)
Definition exact_tests : Prop :=
  (∀ x y, Pm x → Pm y → x = y) ∧ (∀ x y, Pr x → Pr y → x = y) ∧ (∀ x y, Ps x → Ps y → x = y).

Lemma admits_step_conv am ar asi dm ti cu c :
  exact_tests → agree cu (cc_custom c) →
  admits_state am ar asi dm ti cu → admits_with c →
  admits_state (meet am (allow_set (cc_allow_models c)))
    (meet ar (allow_set (cc_allow_regions c))) (meet asi (allow_set (cc_allow_sites c)))
    (dm ∪ list_to_set (cc_deny_models c)) (ti ∪ tier_set c) (cu ∪ cc_custom c).
Proof.
  intros (E1 & E2 & E3) Ha (H1 & H2 & H3 & H4 & H5 & H6) (C1 & C2 & C3 & C4 & C5 & C6).
  unfold admits_state. split_and!.
  - by apply admits_meet_unique.
  - intros p. rewrite elem_of_union, elem_of_list_to_set. naive_solver.
  - by apply admits_meet_unique.
  - by apply admits_meet_unique.
  - intros t. unfold tier_set. rewrite elem_of_union.
    destruct (cc_max_cost_tier c); set_solver.
  - by apply labels_union.
Qed.

Lemma fold_loop_admits cs am ar asi dm ti cu oe st :
  fold_loop (of_sets am ar asi dm ti cu oe) cs = Ok st →
  ∃ am' ar' asi' dm' ti' cu' oe', st = of_sets am' ar' asi' dm' ti' cu' oe' ∧
  (admits_state am' ar' asi' dm' ti' cu' →
   admits_state am ar asi dm ti cu ∧ Forall admits_with cs) ∧
  (exact_tests → admits_state am ar asi dm ti cu → Forall admits_with cs →
   admits_state am' ar' asi' dm' ti' cu').
Proof.
  revert am ar asi dm ti cu oe. induction cs as [|c cs IH]; intros am ar asi dm ti cu oe; simpl.
  { intros [= <-]. exists am, ar, asi, dm, ti, cu, oe. split_and!; [done| |].
    - intros Hb. by split.
    - by intros _ Hb _. }
  destruct (fold_step _ c) as [st1|] eqn:E; [|done].
  apply fold_step_sets in E as [Ha ->]. intros Hl. apply IH in Hl.
  destruct Hl as (a1 & a2 & a3 & a4 & a5 & a6 & a7 & -> & H1 & H2).
  exists a1, a2, a3, a4, a5, a6, a7. split_and!; [done| |].
  - intros Hb. destruct (H1 Hb) as [Hs Hc]. apply admits_step in Hs as [? ?]; [|done].
    by auto using Forall_cons_2.
  - intros Hg Hs [Hc Hcs]%Forall_cons. apply H2; [done| |done]. by apply admits_step_conv.
Qed.

Lemma admits_finish am ar asi dm ti cu oe e :
  fold_finish (of_sets am ar asi dm ti cu oe) = Some e →
  admits_ext_with e ↔ admits_state am ar asi dm ti cu.
Proof.
  unfold fold_finish. case_match; [done|]. intros [= <-].
  unfold admits_ext_with, admits_state, admits_set, admits_gset; simpl.
  destruct am, ar, asi; simpl;
    repeat setoid_rewrite elem_of_sorted_elements; done.
Qed.

Lemma admits_state_empty : admits_state None None None ∅ ∅ ∅.
Proof. unfold admits_state; simpl. split_and!; try done; set_solver. Qed.

Lemma admits_finish_none am ar asi dm ti cu oe :
  fold_finish (of_sets am ar asi dm ti cu oe) = None → admits_state am ar asi dm ti cu.
Proof.
  unfold fold_finish. case_match eqn:E; [|done]. intros _. unfold ext_is_empty in E. simpl in E.
  repeat (apply andb_true_iff in E as [E ?]).
  repeat match goal with H : bool_decide _ = true |- _ => apply bool_decide_eq_true in H end.
  destruct am, ar, asi; try done. subst.
  assert (dm = ∅) as ->. { apply sorted_elements_nil. by destruct (sorted_elements dm). }
  assert (ti = ∅) as ->. { apply sorted_elements_nil. by destruct (sorted_elements ti). }
  apply admits_state_empty.
Qed.

Lemma fold_sound_with cs :
  match fold_candidate_constraints cs with
  | Ok (Some ext) => admits_ext_with ext → Forall admits_with cs
  | Ok None => Forall admits_with cs
  | Err _ => True
  end.
Proof.
  unfold fold_candidate_constraints. destruct cs as [|c cs]; [done|].
  destruct (fold_loop fold_init (c :: cs)) as [st|] eqn:E; [|done]. cbn [result_map].
  destruct (fold_loop_admits _ None None None ∅ ∅ ∅ CoreFallback _ E)
    as (am & ar & asi & dm & ti & cu & oe & -> & Hs & _).
  destruct (fold_finish _) as [ext|] eqn:Ef.
  - intros Hb. apply Hs. by eapply admits_finish.
  - apply Hs. by eapply admits_finish_none.
Qed.

Lemma fold_complete_with cs ext :
  exact_tests → fold_candidate_constraints cs = Ok (Some ext) →
  Forall admits_with cs → admits_ext_with ext.
Proof.
  intros Hx. unfold fold_candidate_constraints. destruct cs as [|c cs]; [done|].
  destruct (fold_loop fold_init (c :: cs)) as [st|] eqn:E; [|done]. cbn [result_map].
  destruct (fold_loop_admits _ None None None ∅ ∅ ∅ CoreFallback _ E)
    as (am & ar & asi & dm & ti & cu & oe & -> & _ & Hc).
  intros [= Ef] Hall. eapply admits_finish; [done|].
  apply Hc; [done|apply admits_state_empty|done].
Qed.

(** Constraints a backend with functional labels satisfies do not conflict. *)
Lemma fold_loop_consistent st l :
  (∀ k v1 v2, Lb k v1 → Lb k v2 → v1 = v2) →
  from_sets st → (∀ k v, fs_custom st !! k = Some v → Lb k v) →
  Forall admits_with l → ∃ st', fold_loop st l = Ok st'.
Proof.
  intros Hf. revert st. induction l as [|c l IH]; intros st Hst Hsub Hall; simpl; eauto.
  apply Forall_cons in Hall as [Hc Hall].
  destruct Hst as (am & ar & asi & dm & ti & cu & oe & ->). simpl in Hsub.
  assert (∀ k v, cc_custom c !! k = Some v → Lb k v) as Hcc by apply Hc.
  assert (agree cu (cc_custom c)) as Ha by (intros k v1 v2 H1 H2; eauto).
  rewrite (proj2 (fold_step_sets am ar asi dm ti cu oe c _) (conj Ha eq_refl)).
  apply IH; [by repeat eexists| |done]. simpl. by apply labels_union.
Qed.

End Admission.

(** ** The router's view *)

Section Router.
Context (label : string → option string) (tier_rank : string → option Z).

(** What one [restrict] asks of a backend, with the router's own matcher. *)
Definition admits (c : CandidateConstraint) : Prop :=
  admits_with (model_matches label) (model_matches label) (λ r, label LABEL_REGION = Some r)
    (λ s, label LABEL_SITE = Some s) (tier_within label tier_rank) (λ k v, label k = Some v) c.

(** A [restrict] whose model allow-list has no globs. *)
Definition literal_models (c : CandidateConstraint) : Prop :=
  ∀ l p, cc_allow_models c = Some l → p ∈ l → contains_char star_char p = false.

(** Matching a literal pattern. *)
Definition literal_match (p : string) : Prop :=
  contains_char star_char p = false ∧ model_matches label p.

Lemma literal_match_unique x y : literal_match x → literal_match y → x = y.
Proof.
  intros [Hx (m & Hm & Hgx)] [Hy (m' & Hm' & Hgy)]. simplify_eq.
  apply glob_match_literal in Hgx; [|done]. apply glob_match_literal in Hgy; [|done]. congruence.
Qed.

Lemma admits_literal c :
  literal_models c → admits c →
  admits_with literal_match (model_matches label) (λ r, label LABEL_REGION = Some r)
    (λ s, label LABEL_SITE = Some s) (tier_within label tier_rank) (λ k v, label k = Some v) c.
Proof.
  intros Hl (H1 & Hrest). split; [|done]. unfold admits_set in *.
  destruct (cc_allow_models c) as [l|] eqn:E; [|done].
  destruct H1 as (x & Hx & Hm). exists x. split; [done|]. split; [|done]. by eapply Hl.
Qed.

End Router.

(** ** Properties *)

(** Folding the constraints of a request is order-independent: every
    reordering (constraints of parallel branches arrive in any order) folds to
    the same extension, or conflicts too. *)
Theorem fold_order_independent cs cs' :
  cs ≡ₚ cs' →
  (∀ r, fold_candidate_constraints cs = Ok r ↔ fold_candidate_constraints cs' = Ok r).
Proof.
  assert (∀ l l', l ≡ₚ l' → ∀ r, fold_candidate_constraints l = Ok r →
            fold_candidate_constraints l' = Ok r) as Hdir.
  { intros l l' Hp r. unfold fold_candidate_constraints. destruct l as [|c l].
    { apply Permutation_nil in Hp. by subst. }
    destruct l' as [|c' l']; [by symmetry in Hp; apply Permutation_nil in Hp|].
    destruct (fold_loop fold_init (c :: l)) as [st|] eqn:E; [|done].
    by rewrite (fold_loop_perm _ _ _ _ Hp fold_init_from_sets E). }
  intros Hp r. split; apply Hdir; [done|by symmetry].
Qed.

(** C10: the fold only narrows: a backend the router accepts under the folded
    extension satisfies every [restrict] that contributed, whatever its labels
    and whatever the tier order; an empty fold means that every contributing
    constraint is satisfied by every backend. *)
Theorem fold_sound label tier_rank cs :
  match fold_candidate_constraints cs with
  | Ok (Some ext) =>
      accepts label tier_rank ext = true → Forall (admits label tier_rank) cs
  | Ok None => Forall (admits label tier_rank) cs
  | Err _ => True
  end.
Proof.
  pose proof (fold_sound_with (model_matches label) (model_matches label)
    (λ r, label LABEL_REGION = Some r) (λ s, label LABEL_SITE = Some s)
    (tier_within label tier_rank) (λ k v, label k = Some v) cs) as Hs.
  destruct (fold_candidate_constraints cs) as [[ext|]|]; [|done|done].
  by rewrite accepts_spec.
Qed.

(** Where the model allow-lists are plain names the fold is exact: the
    router accepts a backend under the folded extension if and only if the
    backend satisfies every contributing [restrict]. *)
Theorem fold_complete label tier_rank cs ext :
  Forall literal_models cs → fold_candidate_constraints cs = Ok (Some ext) →
  accepts label tier_rank ext = true ↔ Forall (admits label tier_rank) cs.
Proof.
  intros Hlit Hf. split.
  { pose proof (fold_sound_with (model_matches label) (model_matches label)
      (λ r, label LABEL_REGION = Some r) (λ s, label LABEL_SITE = Some s)
      (tier_within label tier_rank) (λ k v, label k = Some v) cs) as Hs.
    rewrite Hf in Hs. by rewrite accepts_spec. }
  intros Hall. apply accepts_spec.
  assert (admits_ext_with (literal_match label) (model_matches label)
    (λ r, label LABEL_REGION = Some r) (λ s, label LABEL_SITE = Some s)
    (tier_within label tier_rank) (λ k v, label k = Some v) ext) as (H1 & H2).
  { apply (fold_complete_with _ _ _ _ _ _ cs); [|done|].
    - split_and!; [apply literal_match_unique|congruence|congruence].
    - rewrite Forall_forall in *. intros c Hc. apply admits_literal; auto. }
  split; [|done]. unfold admits_set in *. destruct (ce_allow_models ext); [|done].
  destruct H1 as (x & Hx & [_ Hm]). by exists x.
Qed.

(** Over-approximation with globs: [anthropic/*] and [anthropic/claude] both
    admit the model [anthropic/claude], their fold admits nothing. *)
Definition allow_models_only (l : list string) : CandidateConstraint :=
  mkConstraint (Some l) [] None None None ∅ OeDeny.

Example fold_glob_patterns :
  fold_candidate_constraints
    [allow_models_only ["anthropic/*"]; allow_models_only ["anthropic/claude"]]
  = Ok (Some (mkCandidateExt (Some []) [] None None [] ∅ CoreDeny)).
Proof. vm_compute. reflexivity. Qed.

(** A conflict is reported only when no backend can satisfy all the
    constraints (two of them require different values of one label). *)
Theorem fold_conflict_unsatisfiable label tier_rank cs e :
  fold_candidate_constraints cs = Err e → ¬ Forall (admits label tier_rank) cs.
Proof.
  unfold fold_candidate_constraints. destruct cs as [|c cs]; [done|].
  destruct (fold_loop fold_init (c :: cs)) as [st|e'] eqn:E; [done|]. intros _ Hall.
  apply fold_loop_consistent with (st := fold_init) in Hall as [st Hst];
    [congruence|congruence|apply fold_init_from_sets|done].
Qed.

(** Resolution fails closed in both directions: an unresolvable deny-list
    reference is an error (the request is denied), an unresolvable allow-list
    reference becomes the empty allow-list, which no backend satisfies. *)
Theorem restrict_resolve_fails_closed r bag path label tier_rank :
  spec_resolve (SsRef path) bag = None →
  (rs_deny_models r = Some (SsRef path) →
   restrict_resolve r bag = Err (mkRestrictError "deny_models" path))
  ∧ (∀ c, restrict_resolve r bag = Ok c →
     (rs_allow_models r = Some (SsRef path) ∨ rs_allow_regions r = Some (SsRef path)
      ∨ rs_allow_sites r = Some (SsRef path)) →
     ¬ admits label tier_rank c).
Proof.
  intros Hn. unfold restrict_resolve. split.
  - intros ->. by rewrite Hn.
  - intros c Hok Hal. destruct (match rs_deny_models r with Some _ => _ | None => _ end);
      [|done]. simplify_eq. unfold admits, admits_with; simpl.
    assert (resolve_allow (Some (SsRef path)) bag = Some []) as He.
    { unfold resolve_allow. cbn [fmap option_fmap option_map]. by rewrite Hn. }
    intros (H1 & _ & H3 & H4 & _).
    destruct Hal as [Ha|[Ha|Ha]]; rewrite Ha, He in *; simpl in *;
      naive_solver set_solver.
Qed.

(** ** Witnesses *)

Definition pair_constraints : list CandidateConstraint :=
  [allow_models_only ["b"; "a"]; allow_models_only ["a"; "c"]].

Lemma fold_order_witness :
  fold_candidate_constraints (reverse pair_constraints)
  = Ok (Some (mkCandidateExt (Some ["a"]) [] None None [] ∅ CoreDeny)).
Proof.
  apply (fold_order_independent pair_constraints (reverse pair_constraints));
    [symmetry; apply reverse_Permutation|vm_compute; reflexivity].
Defined.

(** A backend that carries one label. *)
Definition one_label (k v : string) (key : string) : option string :=
  if String.eqb key k then Some v else None.

Lemma fold_complete_witness :
  Forall (admits (one_label "model" "a") (λ _, None)) pair_constraints.
Proof.
  apply (fold_complete (one_label "model" "a") (λ _, None) pair_constraints
           (mkCandidateExt (Some ["a"]) [] None None [] ∅ CoreDeny)).
  - repeat constructor; intros l p [= <-] Hp; apply list_elem_of_In in Hp; simpl in Hp;
      destruct Hp as [<-|[<-|[]]]; reflexivity.
  - vm_compute. reflexivity.
  - vm_compute. reflexivity.
Defined.

Lemma fold_conflict_witness :
  ¬ Forall (admits (one_label "gpu" "a100") (λ _, None))
      [mkConstraint None [] None None None {["gpu" := "a100"]} OeDeny;
       mkConstraint None [] None None None {["gpu" := "h100"]} OeDeny].
Proof.
  apply (fold_conflict_unsatisfiable _ _ _ (mkConflict "gpu" "a100" "h100")).
  vm_compute. reflexivity.
Defined.

Lemma restrict_resolve_witness :
  restrict_resolve (mkRestrict None (Some (SsRef "data.denied")) None None None ∅ OeDeny) bag_new
  = Err (mkRestrictError "deny_models" "data.denied").
Proof.
  apply (restrict_resolve_fails_closed _ bag_new "data.denied" (one_label "model" "a")
           (λ _, None)); vm_compute; reflexivity.
Defined.
