(* ===== verification/PredParser.v ===== *)
(** * The predicate lexer and parser (apl-core/src/parser.rs)

    The lexer works on the bytes that remain; a position is the length of the
    source minus what remains.  The recursive-descent parser works on the
    tokens that remain.  Both are fuelled where the source loops or recurses
    on an index; [tokenize_total] and [parse_predicate_total] prove the fuel
    given by the entry points always suffices. *)

From S2P Require Import Prelude RustStd F64 Json Ir.
From Stdlib Require Import Ascii.

Local Open Scope string_scope.

(** ** Data *)

Inductive ParseError :=
| PeYaml (msg : string)
| PeRule (rule msg : string)
| PeUnsupportedStep (rule kind : string)
| PePredicate (predicate msg : string)
| PeRenamedField (location old new : string)
| PeConflictingAuthorizationForms (location phase : string).

(** The [Display] text of an error ([#[error(...)]]). *)
Definition show_parse_error (e : ParseError) : string :=
  match e with
  | PeYaml m => "YAML parse error: " +:+ m
  | PeRule r m => "rule '" +:+ r +:+ "': " +:+ m
  | PeUnsupportedStep r k => "unsupported step `" +:+ k +:+ "` in rule '" +:+ r +:+ "'"
  | PePredicate p m => "predicate '" +:+ p +:+ "': " +:+ m
  | PeRenamedField l o n =>
      "in `" +:+ l +:+ "`: config field `" +:+ o +:+ "` was renamed to `" +:+ n
        +:+ "` — update your config"
  | PeConflictingAuthorizationForms l p =>
      "in `" +:+ l +:+ "`: `" +:+ p
        +:+ "` is declared both nested under `authorization:` and flat on the section — "
        +:+ "use one form, not both (declaring both runs the effects twice)"
  end.

Inductive Tok :=
| TIdent (s : string)
| TStringLit (s : string)
| TIntLit (z : Z)
| TFloatLit (f : f64)
| TBoolLit (b : bool)
| TEq | TNotEq | TGt | TGtEq | TLt | TLtEq
| TAnd | TOr | TNot
| TLParen | TRParen | TComma
| TContains | TRequire | TExists | TIn.

(** ** The lexer *)

Definition is_ident_start (b : ascii) : bool := is_ascii_alphabetic b || Ascii.eqb b "_"%char.
Definition is_ident_cont (b : ascii) : bool :=
  is_ascii_alphanumeric b || Ascii.eqb b "_"%char || Ascii.eqb b "."%char.

(** [Lexer::err]: the position is [length src - length rest]. *)
Definition lex_err (src : string) (rest : list ascii) (msg : string) : ParseError :=
  PePredicate src
    ("at byte " +:+ show_nat (String.length src - length rest) +:+ ": " +:+ msg).

Definition skip_ws (l : list ascii) : list ascii := drop_while is_ascii_whitespace l.

(** [lex_string]: [l] starts after the opening quote.  The bytes between two
    ASCII quotes of a Rust [str] are UTF-8, so [from_utf8] cannot fail. *)
Definition lex_string (src : string) (q : ascii) (l : list ascii) :
    Result (Tok * list ascii) ParseError :=
  let '(body, rest) := span (λ b, negb (Ascii.eqb b q)) l in
  match rest with
  | [] => Err (lex_err src [] "unterminated string literal")
  | _ :: rest => Ok (TStringLit (of_bytes body), rest)
  end.

Definition lex_number (src : string) (l : list ascii) : Result (Tok * list ascii) ParseError :=
  let '(sign, l1) :=
    match l with
    | c :: r => if Ascii.eqb c "-"%char then ([c], r) else ([], l)
    | [] => ([], [])
    end in
  let '(ip, l2) := span is_ascii_digit l1 in
  let '(fp, rest, is_float) :=
    match l2 with
    | c :: r =>
        if Ascii.eqb c "."%char then
          let '(ds, rest) := span is_ascii_digit r in (c :: ds, rest, true)
        else ([], l2, false)
    | [] => ([], [], false)
    end in
  let text := of_bytes (sign ++ ip ++ fp) in
  if is_float : bool then
    match parse_f64 text with
    | Some f => Ok (TFloatLit f, rest)
    | None => Err (lex_err src rest ("bad float `" +:+ text +:+ "`"))
    end
  else
    match parse_i64 text with
    | Some i => Ok (TIntLit i, rest)
    | None => Err (lex_err src rest ("bad int `" +:+ text +:+ "`"))
    end.

(** The scan of [lex_ident_or_keyword]: identifier bytes outside brackets,
    anything but [[] inside.  Yields the consumed bytes, the rest, and whether
    a bracket was seen; or the error message and the rest at the error. *)
Fixpoint scan_ident (inside : bool) (l : list ascii) :
    Result (list ascii * list ascii * bool) (string * list ascii) :=
  match l with
  | [] =>
      if inside then Err ("unterminated `[` in attribute path", [])
      else Ok ([], [], false)
  | b :: r =>
      if inside then
        if Ascii.eqb b "]"%char then
          result_map (λ x, (b :: x.1.1, x.1.2, x.2)) (scan_ident false r)
        else if Ascii.eqb b "["%char then Err ("nested `[` in attribute path", r)
        else result_map (λ x, (b :: x.1.1, x.1.2, x.2)) (scan_ident true r)
      else
        if is_ident_cont b then
          result_map (λ x, (b :: x.1.1, x.1.2, x.2)) (scan_ident false r)
        else if Ascii.eqb b "["%char then
          result_map (λ x, (b :: x.1.1, x.1.2, true)) (scan_ident true r)
        else Ok ([], l, false)
  end.

Definition keyword_or_ident (s : string) : Tok :=
  if String.eqb s "true" then TBoolLit true
  else if String.eqb s "false" then TBoolLit false
  else if String.eqb s "contains" then TContains
  else if String.eqb s "require" then TRequire
  else if String.eqb s "exists" then TExists
  else if String.eqb s "in" then TIn
  else TIdent s.

Definition lex_ident_or_keyword (src : string) (l : list ascii) :
    Result (Tok * list ascii) ParseError :=
  match scan_ident false l with
  | Err (msg, rest) => Err (lex_err src rest msg)
  | Ok (consumed, rest, has_bracket) =>
      let s := of_bytes consumed in
      Ok (if has_bracket : bool then TIdent s else keyword_or_ident s, rest)
  end.

(** A one-byte operator that may be followed by [=]. *)
Definition lex_op_eq (with_eq without : Tok) (r : list ascii) : Tok * list ascii :=
  match r with
  | c :: r' => if Ascii.eqb c "="%char then (with_eq, r') else (without, r)
  | [] => (without, [])
  end.

(** The [match b] of [tokenize_all]; [r] is what follows [b]. *)
Definition lex_token (src : string) (b : ascii) (r : list ascii) :
    Result (Tok * list ascii) ParseError :=
  if Ascii.eqb b "("%char then Ok (TLParen, r)
  else if Ascii.eqb b ")"%char then Ok (TRParen, r)
  else if Ascii.eqb b ","%char then Ok (TComma, r)
  else if Ascii.eqb b "&"%char then Ok (TAnd, r)
  else if Ascii.eqb b "|"%char then Ok (TOr, r)
  else if Ascii.eqb b "="%char then
    match r with
    | c :: r' =>
        if Ascii.eqb c "="%char then Ok (TEq, r')
        else Err (lex_err src r "expected `==`, saw `=`")
    | [] => Err (lex_err src r "expected `==`, saw `=`")
    end
  else if Ascii.eqb b "!"%char then Ok (lex_op_eq TNotEq TNot r)
  else if Ascii.eqb b ">"%char then Ok (lex_op_eq TGtEq TGt r)
  else if Ascii.eqb b "<"%char then Ok (lex_op_eq TLtEq TLt r)
  else if Ascii.eqb b quote_char || Ascii.eqb b "'"%char then lex_string src b r
  else if Ascii.eqb b "-"%char || is_ascii_digit b then lex_number src (b :: r)
  else if is_ident_start b then lex_ident_or_keyword src (b :: r)
  else Err (lex_err src (b :: r)
              ("unexpected char `"
                 +:+ (if (byte_of b <? 128)%N then String b EmptyString
                      else utf8_2 (192 + byte_of b / 64) (128 + byte_of b mod 64))
                 +:+ "`")).

Fixpoint tokenize_loop (fuel : nat) (src : string) (l : list ascii) (out : list Tok) :
    option (Result (list Tok) ParseError) :=
  match fuel with
  | O => None
  | S k =>
      match skip_ws l with
      | [] => Some (Ok out)
      | b :: r =>
          match lex_token src b r with
          | Err e => Some (Err e)
          | Ok (tok, rest) => tokenize_loop k src rest (out ++ [tok])
          end
      end
  end.

Definition out_of_fuel (src : string) : ParseError := PePredicate src "out of fuel".

Definition tokenize_all (src : string) : Result (list Tok) ParseError :=
  default (Err (out_of_fuel src))
    (tokenize_loop (S (String.length src)) src (bytes src) []).

(** ** The parser *)

Definition debug_tok (t : Tok) : string :=
  match t with
  | TIdent s => "Ident(" +:+ debug_string s +:+ ")"
  | TStringLit s => "StringLit(" +:+ debug_string s +:+ ")"
  | TIntLit z => "IntLit(" +:+ show_Z z +:+ ")"
  | TFloatLit f => "FloatLit(" +:+ f64_debug f +:+ ")"
  | TBoolLit b => "BoolLit(" +:+ show_bool b +:+ ")"
  | TEq => "Eq" | TNotEq => "NotEq" | TGt => "Gt" | TGtEq => "GtEq" | TLt => "Lt"
  | TLtEq => "LtEq" | TAnd => "And" | TOr => "Or" | TNot => "Not"
  | TLParen => "LParen" | TRParen => "RParen" | TComma => "Comma"
  | TContains => "Contains" | TRequire => "Require" | TExists => "Exists" | TIn => "In"
  end.

Definition debug_next (ts : list Tok) : string := debug_option debug_tok (head ts).

(** Parsing yields an expression and the tokens left. *)
Abbreviation PRes := (Result (Expression * list Tok) ParseError).

Section Parser.
Context (src : string).

Definition perr (msg : string) : ParseError := PePredicate src msg.

(** [parse_exists]; [ts] follows the [exists] keyword. *)
Definition parse_exists (ts : list Tok) : PRes :=
  match ts with
  | TLParen :: ts =>
      match ts with
      | TIdent key :: ts =>
          match ts with
          | TRParen :: ts => Ok (XCondition (CExists key), ts)
          | _ => Err (perr ("expected `)` after exists() argument, got " +:+ debug_next ts))
          end
      | _ => Err (perr ("exists(...) expects an attribute key, got " +:+ debug_next ts))
      end
  | _ => Err (perr "expected `(` after `exists`")
  end.

Definition finish_in_set (value_key : string) (negate : bool) (ts : list Tok) : PRes :=
  match ts with
  | TIdent set_key :: ts => Ok (XCondition (CInSet value_key set_key negate), ts)
  | _ => Err (perr ("expected set-attribute identifier after `"
                      +:+ (if negate then "not " else EmptyString) +:+ "in`, got "
                      +:+ debug_next ts))
  end.

Definition compare_op (t : Tok) : option CompareOp :=
  match t with
  | TEq => Some OpEq | TNotEq => Some OpNotEq | TGt => Some OpGt | TGtEq => Some OpGtEq
  | TLt => Some OpLt | TLtEq => Some OpLtEq | TContains => Some OpContains
  | _ => None
  end.

(** [not] followed by [in]: the set non-membership phrase. *)
Definition is_not_in (ts : list Tok) : bool :=
  match ts with TIdent s :: TIn :: _ => String.eqb s "not" | _ => false end.

(** [parse_identifier_predicate]; [ts] follows the identifier [key]. *)
Definition parse_identifier_predicate (key : string) (ts : list Tok) : PRes :=
  match ts with
  | TIn :: ts => finish_in_set key false ts
  | _ =>
      if is_not_in ts then finish_in_set key true (drop 2 ts)
      else
        match head ts ≫= compare_op with
        | None => Ok (XCondition (CIsTrue key), ts)
        | Some op =>
            let cmp v rest := Ok (XCondition (CComparison key op v), rest) in
            match tail ts with
            | TStringLit s :: rest => cmp (LString s) rest
            | TIntLit i :: rest => cmp (LInt i) rest
            | TFloatLit f :: rest => cmp (LFloat f) rest
            | TBoolLit b :: rest => cmp (LBool b) rest
            | TIdent _ :: _ =>
                Err (perr ("RHS-as-identifier on comparison operators not supported — for set "
                             +:+ "membership use `value_key in set_key`"))
            | other => Err (perr ("expected literal RHS, got " +:+ debug_next other))
            end
        end
  end.

(** [if parts.len() == 1 { parts.pop() } else { wrap(parts) }]. *)
Definition collapse (wrap : list Expression → Expression) (parts : list Expression) : Expression :=
  match parts with
  | [e] => e
  | _ => wrap parts
  end.

(** [parse_or], its [while] loop, [parse_and], its loop, [parse_unary] and
    [parse_atom].  [None] is running out of fuel. *)
Fixpoint parse_or (fuel : nat) (ts : list Tok) : option PRes :=
  match fuel with
  | O => None
  | S k =>
      match parse_and k ts with
      | Some (Ok (e, ts)) => or_loop k [e] ts
      | r => r
      end
  end
with or_loop (fuel : nat) (parts : list Expression) (ts : list Tok) : option PRes :=
  match fuel with
  | O => None
  | S k =>
      match ts with
      | TOr :: ts =>
          match parse_and k ts with
          | Some (Ok (e, ts)) => or_loop k (parts ++ [e]) ts
          | r => r
          end
      | _ => Some (Ok (collapse XOr parts, ts))
      end
  end
with parse_and (fuel : nat) (ts : list Tok) : option PRes :=
  match fuel with
  | O => None
  | S k =>
      match parse_unary k ts with
      | Some (Ok (e, ts)) => and_loop k [e] ts
      | r => r
      end
  end
with and_loop (fuel : nat) (parts : list Expression) (ts : list Tok) : option PRes :=
  match fuel with
  | O => None
  | S k =>
      match ts with
      | TAnd :: ts =>
          match parse_unary k ts with
          | Some (Ok (e, ts)) => and_loop k (parts ++ [e]) ts
          | r => r
          end
      | _ => Some (Ok (collapse XAnd parts, ts))
      end
  end
with parse_unary (fuel : nat) (ts : list Tok) : option PRes :=
  match fuel with
  | O => None
  | S k =>
      match ts with
      | TNot :: ts =>
          match parse_unary k ts with
          | Some (Ok (inner, ts)) => Some (Ok (XNot inner, ts))
          | r => r
          end
      | _ => parse_atom k ts
      end
  end
with parse_atom (fuel : nat) (ts : list Tok) : option PRes :=
  match fuel with
  | O => None
  | S k =>
      match ts with
      | TLParen :: ts =>
          match parse_or k ts with
          | Some (Ok (inner, ts)) =>
              match ts with
              | TRParen :: ts => Some (Ok (inner, ts))
              | _ => Some (Err (perr "expected `)`"))
              end
          | r => r
          end
      | TRequire :: _ =>
          Some (Err (perr ("`require(...)` is a rule-level shorthand, not a sub-predicate "
            +:+ "— use `&` / `|` / `!` over bare identifiers instead")))
      | TExists :: ts => Some (parse_exists ts)
      | TIdent key :: ts => Some (parse_identifier_predicate key ts)
      | _ => Some (Err (perr ("expected atom, got " +:+ debug_next ts)))
      end
  end.

(** Fuel that always suffices: six calls per token. *)
Definition parser_fuel (ts : list Tok) : nat := 6 * length ts + 6.

(** [PredParser::parse] after lexing. *)
Definition parse_tokens (ts : list Tok) : Result Expression ParseError :=
  match default (Err (out_of_fuel src)) (parse_or (parser_fuel ts) ts) with
  | Err e => Err e
  | Ok (expr, []) => Ok expr
  | Ok (_, rest) =>
      Err (perr ("trailing tokens after expression: " +:+ debug_list debug_tok rest))
  end.

End Parser.

Definition pred_parse (src : string) : Result Expression ParseError :=
  match tokenize_all src with
  | Err e => Err e
  | Ok toks => parse_tokens src toks
  end.

(** [parse_predicate]. *)
Definition parse_predicate (src : string) : Result Expression ParseError := pred_parse (trim src).

(** ** Examples from the sources' own grammar *)

Example parse_precedence :
  parse_predicate "a | b & !c | (d | e)"
  = Ok (XOr [XCondition (CIsTrue "a");
             XAnd [XCondition (CIsTrue "b"); XNot (XCondition (CIsTrue "c"))];
             XOr [XCondition (CIsTrue "d"); XCondition (CIsTrue "e")]]).
Proof. vm_compute. reflexivity. Qed.

Example parse_forms :
  map parse_predicate
    ["exists(args.x)"; "subject.type not in blocked"; "args.amount >= -10"; "x in y";
     "data.t[subject.id].region == 'eu'"]
  = [Ok (XCondition (CExists "args.x"));
     Ok (XCondition (CInSet "subject.type" "blocked" true));
     Ok (XCondition (CComparison "args.amount" OpGtEq (LInt (-10))));
     Ok (XCondition (CInSet "x" "y" false));
     Ok (XCondition (CComparison "data.t[subject.id].region" OpEq (LString "eu")))].
Proof. vm_compute. reflexivity. Qed.

(** ** Lemmas: the lexer consumes its input *)

Local Open Scope nat_scope.
Local Open Scope list_scope.

Lemma span_length {A} (f : A → bool) l : length (span f l).2 ≤ length l.
Proof.
  induction l as [|x l IH]; simpl; [done|].
  destruct (f x); [|done]. destruct (span f l); simpl in *. lia.
Qed.

Lemma span_cons_length {A} (f : A → bool) x l :
  f x = true → length (span f (x :: l)).2 ≤ length l.
Proof.
  intros Hf. simpl. rewrite Hf. pose proof (span_length f l). by destruct (span f l).
Qed.

Lemma drop_while_length {A} (f : A → bool) l : length (drop_while f l) ≤ length l.
Proof. induction l as [|x l IH]; simpl; [done|]. destruct (f x); simpl; lia. Qed.

Lemma scan_ident_length inside l c rest br :
  scan_ident inside l = Ok (c, rest, br) → length rest ≤ length l.
Proof.
  revert inside c rest br. induction l as [|b l IH]; intros inside c rest br; simpl.
  { destruct inside; naive_solver. }
  assert (∀ i f (x : bool),
    result_map (λ y : list ascii * list ascii * bool, (b :: y.1.1, y.1.2, f y.2)) (scan_ident i l)
    = Ok (c, rest, x) → length rest ≤ S (length l)) as Hstep.
  { intros i f x. destruct (scan_ident i l) as [[[c' r'] b']|] eqn:E; simpl; [|done].
    intros [= _ <- _]. apply IH in E. lia. }
  repeat case_match; intros Hr; simplify_eq/=; try lia;
    first [by eapply (Hstep _ (λ y, y)) | by eapply (Hstep _ (λ _, true))].
Qed.

Lemma scan_ident_cons b l c rest br :
  is_ident_cont b = true →
  scan_ident false (b :: l) = Ok (c, rest, br) → length rest ≤ length l.
Proof.
  simpl. intros ->. destruct (scan_ident false l) as [[[c' r'] b']|] eqn:E; simpl; [|done].
  intros [= _ <- _]. by eapply scan_ident_length.
Qed.

Lemma ident_start_cont b : is_ident_start b = true → is_ident_cont b = true.
Proof.
  unfold is_ident_start, is_ident_cont, is_ascii_alphanumeric.
  destruct (is_ascii_alphabetic b); simpl; [done|].
  destruct (Ascii.eqb b "_"%char); simpl; [|done]. by rewrite orb_true_r.
Qed.

Lemma lex_number_length src b r t rest :
  Ascii.eqb b "-"%char || is_ascii_digit b = true →
  lex_number src (b :: r) = Ok (t, rest) → length rest ≤ length r.
Proof.
  intros Hb. unfold lex_number.
  assert (∃ l1, length l1 ≤ length r + (if Ascii.eqb b "-"%char then 0 else 1)
    ∧ (if Ascii.eqb b "-"%char then ([b], r) else ([], b :: r)) = ((if Ascii.eqb b "-"%char then [b] else []), l1)
    ∧ length (span is_ascii_digit l1).2 ≤ length r) as (l1 & _ & -> & Hl1).
  { destruct (Ascii.eqb b "-"%char); simpl in Hb.
    - exists r. pose proof (span_length is_ascii_digit r). split_and!; [lia|done|done].
    - exists (b :: r). split_and!; [simpl; lia|done|]. by apply span_cons_length. }
  destruct (span is_ascii_digit l1) as [ip l2]. cbn [snd] in Hl1.
  assert (∀ fp rest' (is_float : bool),
    (match l2 with
     | c :: r0 => if Ascii.eqb c "."%char then let '(ds, rest) := span is_ascii_digit r0 in
                    (c :: ds, rest, true) else ([], l2, false)
     | [] => ([], [], false)
     end) = (fp, rest', is_float) → length rest' ≤ length r) as Hf.
  { intros fp rest' isf. destruct l2 as [|c l2]; [by intros [= <- <- <-]|].
    destruct (Ascii.eqb c "."%char); [|by intros [= <- <- <-]].
    pose proof (span_length is_ascii_digit l2) as Hsp.
    destruct (span is_ascii_digit l2). intros [= <- <- <-]. simpl in *. lia. }
  destruct (match l2 with [] => _ | _ => _ end) as [[fp rest'] isf] eqn:E.
  specialize (Hf fp rest' isf eq_refl).
  destruct isf; [destruct (parse_f64 _)|destruct (parse_i64 _)]; naive_solver.
Qed.

Lemma lex_token_length src b r t rest :
  lex_token src b r = Ok (t, rest) → length rest ≤ length r.
Proof.
  assert (∀ a c, length (lex_op_eq a c r).2 ≤ length r) as Hop.
  { intros a c. unfold lex_op_eq. destruct r as [|x r']; simpl; [done|]. case_match; simpl; lia. }
  unfold lex_token. repeat case_match; intros Hr; simplify_eq/=; try lia.
  - by rewrite <-(f_equal snd Hr) || (pose proof (Hop TNotEq TNot) as Hx; rewrite Hr in Hx).
  - pose proof (Hop TGtEq TGt) as Hx. by rewrite Hr in Hx.
  - pose proof (Hop TLtEq TLt) as Hx. by rewrite Hr in Hx.
  - unfold lex_string in Hr. pose proof (span_length (λ b0, negb (Ascii.eqb b0 b)) r) as Hs.
    destruct (span _ r) as [body [|x rest']]; simplify_eq/=; lia.
  - by eapply lex_number_length.
  - unfold lex_ident_or_keyword in Hr.
    destruct (scan_ident false (b :: r)) as [[[c rest'] br]|[]] eqn:E; simplify_eq/=.
    eapply scan_ident_cons; [by apply ident_start_cont|done].
Qed.

Lemma tokenize_loop_total fuel src l out :
  length l < fuel → is_Some (tokenize_loop fuel src l out).
Proof.
  revert l out. induction fuel as [|k IH]; intros l out Hl; [lia|]. simpl.
  pose proof (drop_while_length is_ascii_whitespace l) as Hd. fold (skip_ws l) in Hd.
  destruct (skip_ws l) as [|b r]; [by eexists|].
  destruct (lex_token src b r) as [[t rest]|e] eqn:E; [|by eexists].
  apply IH. apply lex_token_length in E. simpl in Hd. lia.
Qed.

(** ** Lemmas: the parser terminates within its fuel *)

(** A finished parse whose leftover tokens number at most [n]. *)
Definition finished (n : nat) (r : option PRes) : Prop :=
  ∃ x, r = Some x ∧ ∀ e ts', x = Ok (e, ts') → length ts' ≤ n.

Lemma finished_ok n e ts : length ts ≤ n → finished n (Some (Ok (e, ts))).
Proof. intros Hn. eexists. split; [done|]. by intros ? ? [= _ <-]. Qed.

Lemma finished_err n e : finished n (Some (Err e)).
Proof. by eexists. Qed.

#[local] Hint Resolve finished_ok finished_err : core.

(** Sequencing: what follows a finished parse starts from fewer tokens. *)
Lemma finished_bind n m r (k : Expression → list Tok → option PRes) :
  finished n r →
  (∀ e ts, length ts ≤ n → finished m (k e ts)) →
  finished m (match r with
              | Some (Ok (e, ts)) => k e ts
              | Some (Err x) => Some (Err x)
              | None => None
              end).
Proof.
  intros ([[e ts]|err] & -> & Hx) Hk; [|done]. apply Hk. by eapply Hx.
Qed.

Lemma finished_weaken n m r : n ≤ m → finished n r → finished m r.
Proof. intros Hn (x & -> & Hx). exists x. split; [done|]. intros e ts E. specialize (Hx e ts E). lia. Qed.

Lemma parse_exists_finished src ts : finished (length ts) (Some (parse_exists src ts)).
Proof.
  unfold parse_exists. repeat case_match; subst; auto. apply finished_ok. simpl. lia.
Qed.

Lemma parse_identifier_finished src key ts :
  finished (length ts) (Some (parse_identifier_predicate src key ts)).
Proof.
  unfold parse_identifier_predicate, finish_in_set.
  repeat case_match; subst; auto; apply finished_ok;
    repeat match goal with
    | E : drop 2 ?l = _ |- _ => apply (f_equal length) in E; rewrite length_drop in E
    | E : tail ?l = _ |- _ => apply (f_equal length) in E; rewrite length_tl in E
    end; simpl in *; lia.
Qed.

Lemma parser_finished src fuel :
  (∀ ts, 6 * length ts + 6 ≤ fuel → finished (length ts) (parse_or src fuel ts))
  ∧ (∀ parts ts, 6 * length ts + 5 ≤ fuel → finished (length ts) (or_loop src fuel parts ts))
  ∧ (∀ ts, 6 * length ts + 4 ≤ fuel → finished (length ts) (parse_and src fuel ts))
  ∧ (∀ parts ts, 6 * length ts + 3 ≤ fuel → finished (length ts) (and_loop src fuel parts ts))
  ∧ (∀ ts, 6 * length ts + 2 ≤ fuel → finished (length ts) (parse_unary src fuel ts))
  ∧ (∀ ts, 6 * length ts + 1 ≤ fuel → finished (length ts) (parse_atom src fuel ts)).
Proof.
  induction fuel as [|k (IHo & IHol & IHa & IHal & IHu & IHat)]; [split_and!; intros; lia|].
  split_and!; intros; simpl.
  - eapply finished_bind; [apply IHa; lia|]. intros e ts' Hl.
    eapply finished_weaken; [|apply IHol]; lia.
  - destruct ts as [|[] ts]; auto. simpl in *.
    eapply finished_bind; [apply IHa; lia|]. intros e ts' Hl.
    eapply finished_weaken; [|apply IHol]; lia.
  - eapply finished_bind; [apply IHu; lia|]. intros e ts' Hl.
    eapply finished_weaken; [|apply IHal]; lia.
  - destruct ts as [|[] ts]; auto. simpl in *.
    eapply finished_bind; [apply IHu; lia|]. intros e ts' Hl.
    eapply finished_weaken; [|apply IHal]; lia.
  - destruct ts as [|[] ts]; try (apply IHat; simpl in *; lia). simpl in *.
    eapply finished_bind; [apply IHu; lia|]. intros e ts' Hl. apply finished_ok. lia.
  - destruct ts as [|[] ts]; auto; simpl in *.
    + eapply finished_weaken, parse_identifier_finished. lia.
    + eapply finished_bind; [apply IHo; lia|]. intros e ts' Hl.
      destruct ts' as [|[] ts']; auto. apply finished_ok. simpl in Hl. lia.
    + eapply finished_weaken, parse_exists_finished. lia.
Qed.

Lemma parse_or_finished src ts :
  ∃ x, parse_or src (parser_fuel ts) ts = Some x.
Proof.
  destruct (parser_finished src (parser_fuel ts)) as (Ho & _).
  destruct (Ho ts) as (x & Hx & _); [done|]. by exists x.
Qed.

(** ** Lemmas: more fuel does not change a result *)

Lemma parser_fuel_mono src k :
  (∀ ts r, parse_or src k ts = Some r → parse_or src (S k) ts = Some r)
  ∧ (∀ ps ts r, or_loop src k ps ts = Some r → or_loop src (S k) ps ts = Some r)
  ∧ (∀ ts r, parse_and src k ts = Some r → parse_and src (S k) ts = Some r)
  ∧ (∀ ps ts r, and_loop src k ps ts = Some r → and_loop src (S k) ps ts = Some r)
  ∧ (∀ ts r, parse_unary src k ts = Some r → parse_unary src (S k) ts = Some r)
  ∧ (∀ ts r, parse_atom src k ts = Some r → parse_atom src (S k) ts = Some r).
Proof.
  induction k as [|k (IHo & IHol & IHa & IHal & IHu & IHat)]; [by split_and!|].
  split_and!; intros.
  - change (parse_or src (S (S k)) ts) with
      (match parse_and src (S k) ts with
       | Some (Ok (e, ts)) => or_loop src (S k) [e] ts | r => r end).
    simpl in H. destruct (parse_and src k ts) as [x|] eqn:E; [|done].
    rewrite (IHa _ _ E). destruct x as [[]|]; auto.
  - simpl in H. destruct ts as [|[] ts]; try done.
    destruct (parse_and src k ts) as [x|] eqn:E; [|done].
    change (match parse_and src (S k) ts with
       | Some (Ok (e, ts)) => or_loop src (S k) (ps ++ [e]) ts | r => r end = Some r).
    rewrite (IHa _ _ E). destruct x as [[]|]; auto.
  - change (match parse_unary src (S k) ts with
       | Some (Ok (e, ts)) => and_loop src (S k) [e] ts | r => r end = Some r).
    simpl in H. destruct (parse_unary src k ts) as [x|] eqn:E; [|done].
    rewrite (IHu _ _ E). destruct x as [[]|]; auto.
  - simpl in H. destruct ts as [|[] ts]; try done.
    destruct (parse_unary src k ts) as [x|] eqn:E; [|done].
    change (match parse_unary src (S k) ts with
       | Some (Ok (e, ts)) => and_loop src (S k) (ps ++ [e]) ts | r => r end = Some r).
    rewrite (IHu _ _ E). destruct x as [[]|]; auto.
  - simpl in H. destruct ts as [|[] ts]; try (by apply IHat in H).
    destruct (parse_unary src k ts) as [x|] eqn:E; [|done].
    change (match parse_unary src (S k) ts with
       | Some (Ok (e, ts)) => Some (Ok (XNot e, ts)) | r => r end = Some r).
    by rewrite (IHu _ _ E).
  - simpl in H. destruct ts as [|[] ts]; try done.
    destruct (parse_or src k ts) as [x|] eqn:E; [|done].
    change (match parse_or src (S k) ts with
       | Some (Ok (inner, ts)) => match ts with
           | TRParen :: ts => Some (Ok (inner, ts))
           | _ => Some (Err (perr src "expected `)`")) end
       | r => r end = Some r).
    by rewrite (IHo _ _ E).
Qed.

Lemma parse_or_fuel_le src k k' ts r :
  k ≤ k' → parse_or src k ts = Some r → parse_or src k' ts = Some r.
Proof. induction 1; [done|]. intros. apply parser_fuel_mono. auto. Qed.

Lemma or_loop_fuel_le src k k' ps ts r :
  k ≤ k' → or_loop src k ps ts = Some r → or_loop src k' ps ts = Some r.
Proof. induction 1; [done|]. intros. apply parser_fuel_mono. auto. Qed.

Lemma parse_and_fuel_le src k k' ts r :
  k ≤ k' → parse_and src k ts = Some r → parse_and src k' ts = Some r.
Proof. induction 1; [done|]. intros. apply parser_fuel_mono. auto. Qed.

Lemma and_loop_fuel_le src k k' ps ts r :
  k ≤ k' → and_loop src k ps ts = Some r → and_loop src k' ps ts = Some r.
Proof. induction 1; [done|]. intros. apply parser_fuel_mono. auto. Qed.

Lemma parse_unary_fuel_le src k k' ts r :
  k ≤ k' → parse_unary src k ts = Some r → parse_unary src k' ts = Some r.
Proof. induction 1; [done|]. intros. apply parser_fuel_mono. auto. Qed.

(** ** Printing an expression as tokens *)

Definition print_literal (l : Literal) : Tok :=
  match l with
  | LString s => TStringLit s
  | LInt z => TIntLit z
  | LFloat f => TFloatLit f
  | LBool b => TBoolLit b
  end.

Definition print_op (o : CompareOp) : Tok :=
  match o with
  | OpEq => TEq | OpNotEq => TNotEq | OpGt => TGt | OpGtEq => TGtEq
  | OpLt => TLt | OpLtEq => TLtEq | OpContains => TContains
  end.

Definition print_condition (c : Condition) : list Tok :=
  match c with
  | CComparison k o v => [TIdent k; print_op o; print_literal v]
  | CIsTrue k => [TIdent k]
  | CIsFalse k => [TNot; TIdent k]
  | CExists k => [TExists; TLParen; TIdent k; TRParen]
  | CInSet v s negate => TIdent v :: (if negate then [TIdent "not"] else []) ++ [TIn; TIdent s]
  end.

(** [sep] in front of every part. *)
Definition with_sep (sep : Tok) (parts : list (list Tok)) : list Tok :=
  concat (map (cons sep) parts).

Definition join_sep (sep : Tok) (parts : list (list Tok)) : list Tok :=
  match parts with
  | [] => []
  | p :: ps => (p ++ with_sep sep ps)%list
  end.

Definition parens (needed : bool) (ts : list Tok) : list Tok :=
  if needed then (TLParen :: ts ++ [TRParen])%list else ts.

(** Where a text stands: what [parse_or], [parse_and] or [parse_unary] reads. *)
Inductive Place := AtOr | AtAnd | AtUnary.

(** The text of an expression at a place, with parentheses only where the
    precedence of [!] over [&] over [|] calls for them, or where a chain stands
    inside a chain of its own kind. *)
Fixpoint print_at (place : Place) (e : Expression) : list Tok :=
  match e with
  | XCondition c => print_condition c
  | XNot e => TNot :: print_at AtUnary e
  | XAnd ps =>
      parens (match place with AtUnary => true | _ => false end)
        (join_sep TAnd (map (print_at AtUnary) ps))
  | XOr ps =>
      parens (match place with AtOr => false | _ => true end)
        (join_sep TOr (map (print_at AtAnd) ps))
  | XAlways => []
  end.

Definition print_expression (e : Expression) : list Tok := print_at AtOr e.

(** What the grammar can express: no constant [Always], no [IsFalse] node
    (written [!k], which parses as a negation), and conjunctions and
    disjunctions of at least two parts. *)
Fixpoint printable (e : Expression) : bool :=
  match e with
  | XCondition (CIsFalse _) => false
  | XCondition _ => true
  | XNot e => printable e
  | XAnd ps | XOr ps => (2 <=? length ps)%nat && forallb printable ps
  | XAlways => false
  end.

(** Tokens that may follow an operand. *)
Definition follows (ts : list Tok) : bool :=
  match ts with
  | [] | TAnd :: _ | TOr :: _ | TRParen :: _ => true
  | _ => false
  end.

Lemma parse_condition_print src c rest :
  printable (XCondition c) = true → follows rest = true →
  parse_unary src 2 (print_condition c ++ rest) = Some (Ok (XCondition c, rest)).
Proof.
  intros Hp Hf. destruct c as [k o v|k|k|k|v s []]; try done.
  - by destruct o, v.
  - simpl. unfold parse_identifier_predicate. by destruct rest as [|[] rest].
Qed.

Section RoundTrip.
Context (src : string).

(** A text is read as [e] by one of the three parsers, in front of any token
    that ends what that parser reads. *)
Definition unary_reads (ts : list Tok) (e : Expression) : Prop :=
  ∀ rest, follows rest = true → ∃ k, parse_unary src k (ts ++ rest) = Some (Ok (e, rest)).
Definition and_reads (ts : list Tok) (e : Expression) : Prop :=
  ∀ rest, follows rest = true → head rest ≠ Some TAnd →
  ∃ k, parse_and src k (ts ++ rest) = Some (Ok (e, rest)).
Definition or_reads (ts : list Tok) (e : Expression) : Prop :=
  ∀ rest, follows rest = true → head rest ≠ Some TAnd → head rest ≠ Some TOr →
  ∃ k, parse_or src k (ts ++ rest) = Some (Ok (e, rest)).

Lemma with_sep_follows sep ps rest :
  follows [sep] = true → follows rest = true → follows (with_sep sep ps ++ rest) = true.
Proof. intros Hs Hr. by destruct ps as [|p ps]; [|destruct sep]. Qed.

(** A chain of conjuncts, up to a boundary that is not [&]. *)
Lemma and_loop_reads tss ps acc rest :
  Forall2 unary_reads tss ps → follows rest = true → head rest ≠ Some TAnd →
  ∃ k, and_loop src k acc (with_sep TAnd tss ++ rest)
       = Some (Ok (collapse XAnd (acc ++ ps), rest)).
Proof.
  intros Hps Hf Hh. revert acc. induction Hps as [|ts p tss ps Hp _ IH]; intros acc.
  - exists 1. rewrite app_nil_r. simpl. by destruct rest as [|[] rest].
  - destruct (Hp (with_sep TAnd tss ++ rest)) as [k1 H1]; [by apply with_sep_follows|].
    destruct (IH (acc ++ [p])) as [k2 H2].
    exists (S (k1 `max` k2)). cbn [map with_sep concat]. simpl.
    rewrite <-app_assoc, (parse_unary_fuel_le _ k1 _ _ _ (Nat.le_max_l _ _) H1).
    rewrite (and_loop_fuel_le _ k2 _ _ _ _ (Nat.le_max_r _ _) H2).
    by rewrite <-app_assoc.
Qed.

Lemma and_chain_reads ts tss p ps :
  Forall2 unary_reads (ts :: tss) (p :: ps) →
  and_reads (join_sep TAnd (ts :: tss)) (collapse XAnd (p :: ps)).
Proof.
  intros [Hp Hps]%Forall2_cons rest Hf Hh.
  destruct (Hp (with_sep TAnd tss ++ rest)) as [k1 H1]; [by apply with_sep_follows|].
  destruct (and_loop_reads tss ps [p] rest Hps Hf Hh) as [k2 H2].
  exists (S (k1 `max` k2)). cbn [join_sep]. simpl.
  rewrite <-app_assoc, (parse_unary_fuel_le _ k1 _ _ _ (Nat.le_max_l _ _) H1).
  by rewrite (and_loop_fuel_le _ k2 _ _ _ _ (Nat.le_max_r _ _) H2).
Qed.

Lemma or_loop_reads tss ps acc rest :
  Forall2 and_reads tss ps → follows rest = true → head rest ≠ Some TAnd → head rest ≠ Some TOr →
  ∃ k, or_loop src k acc (with_sep TOr tss ++ rest)
       = Some (Ok (collapse XOr (acc ++ ps), rest)).
Proof.
  intros Hps Hf Ha Ho. revert acc. induction Hps as [|ts p tss ps Hp _ IH]; intros acc.
  - exists 1. rewrite app_nil_r. simpl. by destruct rest as [|[] rest].
  - destruct (Hp (with_sep TOr tss ++ rest)) as [k1 H1];
      [by apply with_sep_follows|by destruct tss|].
    destruct (IH (acc ++ [p])) as [k2 H2].
    exists (S (k1 `max` k2)). cbn [map with_sep concat]. simpl.
    rewrite <-app_assoc, (parse_and_fuel_le _ k1 _ _ _ (Nat.le_max_l _ _) H1).
    rewrite (or_loop_fuel_le _ k2 _ _ _ _ (Nat.le_max_r _ _) H2).
    by rewrite <-app_assoc.
Qed.

Lemma or_chain_reads ts tss p ps :
  Forall2 and_reads (ts :: tss) (p :: ps) →
  or_reads (join_sep TOr (ts :: tss)) (collapse XOr (p :: ps)).
Proof.
  intros [Hp Hps]%Forall2_cons rest Hf Ha Ho.
  destruct (Hp (with_sep TOr tss ++ rest)) as [k1 H1]; [by apply with_sep_follows|by destruct tss|].
  destruct (or_loop_reads tss ps [p] rest Hps Hf Ha Ho) as [k2 H2].
  exists (S (k1 `max` k2)). cbn [join_sep]. simpl.
  rewrite <-app_assoc, (parse_and_fuel_le _ k1 _ _ _ (Nat.le_max_l _ _) H1).
  by rewrite (or_loop_fuel_le _ k2 _ _ _ _ (Nat.le_max_r _ _) H2).
Qed.

(** A chain of one operand is the operand; parentheses make an operand. *)
Lemma unary_and ts e : unary_reads ts e → and_reads ts e.
Proof.
  intros Hr rest Hf Hh. destruct (and_chain_reads ts [] e [] ltac:(by constructor) rest Hf Hh) as [k Hk].
  exists k. cbn in Hk. by rewrite app_nil_r in Hk.
Qed.
Lemma and_or ts e : and_reads ts e → or_reads ts e.
Proof.
  intros Hr rest Hf Ha Ho.
  destruct (or_chain_reads ts [] e [] ltac:(by constructor) rest Hf Ha Ho) as [k Hk].
  exists k. cbn in Hk. by rewrite app_nil_r in Hk.
Qed.
Lemma or_parens ts e : or_reads ts e → unary_reads (parens true ts) e.
Proof.
  intros Hr rest Hf. destruct (Hr (TRParen :: rest)) as [k Hk]; [done..|].
  exists (S (S k)). simpl. rewrite <-app_assoc. simpl. by rewrite Hk.
Qed.

Lemma Forall2_map_of {A B} (R : A → B → Prop) (f : B → A) l :
  Forall (λ x, R (f x) x) l → Forall2 R (map f l) l.
Proof. induction 1; constructor; auto. Qed.

(** An expression is read back at every place. *)
Lemma print_reads e :
  printable e = true →
  unary_reads (print_at AtUnary e) e ∧ and_reads (print_at AtAnd e) e ∧ or_reads (print_at AtOr e) e.
Proof.
  induction e as [c|l IH|l IH|e IH|] using Expression_nested_ind; intros Hp; [| | | |done].
  - assert (unary_reads (print_condition c) (XCondition c)) as Hu.
    { intros rest Hf. exists 2. by apply parse_condition_print. }
    split_and!; auto using unary_and, and_or.
  - apply andb_true_iff in Hp as [Hlen Hall]. rewrite forallb_forall in Hall. apply Nat.leb_le in Hlen.
    assert (and_reads (join_sep TAnd (map (print_at AtUnary) l)) (XAnd l)) as Ha.
    { destruct l as [|p [|q ps]]; [simpl in Hlen; lia..|].
      apply (and_chain_reads _ _ p (q :: ps)), (Forall2_map_of unary_reads (print_at AtUnary) (p :: q :: ps)).
      rewrite Forall_forall in IH |- *. intros x Hx. by apply IH, Hall, list_elem_of_In. }
    split_and!; [apply (or_parens _ (XAnd l))|..]; auto using and_or.
  - apply andb_true_iff in Hp as [Hlen Hall]. rewrite forallb_forall in Hall. apply Nat.leb_le in Hlen.
    assert (or_reads (join_sep TOr (map (print_at AtAnd) l)) (XOr l)) as Ho.
    { destruct l as [|p [|q ps]]; [simpl in Hlen; lia..|].
      apply (or_chain_reads _ _ p (q :: ps)), (Forall2_map_of and_reads (print_at AtAnd) (p :: q :: ps)).
      rewrite Forall_forall in IH |- *. intros x Hx. by apply IH, Hall, list_elem_of_In. }
    split_and!; [apply (or_parens _ (XOr l))|apply unary_and, (or_parens _ (XOr l))|]; done.
  - assert (unary_reads (print_at AtUnary (XNot e)) (XNot e)) as Hu.
    { intros rest Hf. destruct (proj1 (IH Hp) rest Hf) as [k Hk]. exists (S k). simpl. by rewrite Hk. }
    split_and!; auto using unary_and, and_or.
Qed.

(** C20: printing an expression as tokens with parentheses only where precedence
    calls for them, and parsing them with the fuel the entry point gives, yields
    that expression: [!] binds closer than [&] and [&] closer than [|], chains are
    flat, and parentheses and operator forms are read as written.  It holds of
    every expression the grammar can express ([printable]): no constant [Always],
    no [IsFalse] node (its text [!k] reads as a negation) and no conjunction or
    disjunction of fewer than two parts. *)
Theorem parse_print_roundtrip e :
  printable e = true → parse_tokens src (print_expression e) = Ok e.
Proof.
  intros Hp. destruct (proj2 (proj2 (print_reads e Hp)) []) as [k Hor]; [done..|].
  rewrite app_nil_r in Hor. fold (print_expression e) in Hor.
  unfold parse_tokens. destruct (parse_or_finished src (print_expression e)) as [x Hx].
  rewrite Hx. simpl.
  pose proof (parse_or_fuel_le _ _ _ _ _
                (Nat.le_max_l (parser_fuel (print_expression e)) k) Hx) as H1.
  pose proof (parse_or_fuel_le _ _ _ _ _
                (Nat.le_max_r (parser_fuel (print_expression e)) k) Hor) as H2.
  rewrite H1 in H2. by injection H2 as ->.
Qed.

End RoundTrip.

(** Lexing and parsing always finish within the fuel the entry point
    gives: for every source text the tokenizer loop returns, and when it
    returns tokens so does the recursive-descent parser. *)
Theorem parse_predicate_total src :
  ∃ r, tokenize_loop (S (String.length src)) src (bytes src) [] = Some r
       ∧ ∀ toks, r = Ok toks → is_Some (parse_or src (parser_fuel toks) toks).
Proof.
  destruct (tokenize_loop_total (S (String.length src)) src (bytes src) []) as [r Hr].
  { rewrite length_bytes. lia. }
  exists r. split; [done|]. intros toks ->. destruct (parse_or_finished src toks) as [x Hx].
  by exists x.
Qed.

(** [exists(args.x) & !role.hr | subject.type not in blocked & (a | b)]. *)
Definition mixed : Expression :=
  XOr [XAnd [XCondition (CExists "args.x"); XNot (XCondition (CIsTrue "role.hr"))];
       XAnd [XCondition (CInSet "subject.type" "blocked" true);
             XOr [XCondition (CIsTrue "a"); XCondition (CIsTrue "b")]]].

Example mixed_text :
  print_expression mixed
  = [TExists; TLParen; TIdent "args.x"; TRParen; TAnd; TNot; TIdent "role.hr"; TOr;
     TIdent "subject.type"; TIdent "not"; TIn; TIdent "blocked"; TAnd;
     TLParen; TIdent "a"; TOr; TIdent "b"; TRParen].
Proof. reflexivity. Qed.

Lemma parse_print_witness : parse_tokens EmptyString (print_expression mixed) = Ok mixed.
Proof. apply (parse_print_roundtrip EmptyString mixed). reflexivity. Defined.
