(* ===== verification/PipeParser.v ===== *)
(** * The pipeline parser (apl-core/src/parser.rs)

    Field pipelines such as [str | len(1..10) | mask(4)]: splitting on
    top-level delimiters, stages and their arguments, ranges, taints.  A slice
    out of range panics in Rust; [Panics] is that outcome. *)

From S2P Require Import Prelude RustStd F64 Json Yaml Ir PredParser.
From Stdlib Require Import Ascii.

Local Open Scope string_scope.
Local Open Scope list_scope.

(** ** Outcomes *)

Inductive Failure :=
| Fails (e : ParseError)
| Panics
| OutOfFuel.   (** of the fuelled step parser; never reached from its entry points *)

Abbreviation Parsed T := (Result T Failure).

(** [?] on a function that cannot panic. *)
Definition lift {T} (r : Result T ParseError) : Parsed T :=
  match r with Ok t => Ok t | Err e => Err (Fails e) end.

(** ** Text *)

Definition is_quote (b : ascii) : bool := Ascii.eqb b quote_char || Ascii.eqb b "'"%char.
Definition is_open (b : ascii) : bool := Ascii.eqb b "("%char || Ascii.eqb b "["%char.
Definition is_close (b : ascii) : bool := Ascii.eqb b ")"%char || Ascii.eqb b "]"%char.
Definition is_empty_str (s : string) : bool := String.eqb s EmptyString.

(** The scan of [split_top_level]; [cur] is the slice since [start]. *)
Fixpoint split_loop (delim : ascii) (depth : Z) (in_quote : option ascii) (cur l : list ascii) :
    list string :=
  match l with
  | [] => [of_bytes cur]
  | b :: l =>
      match in_quote with
      | Some q =>
          split_loop delim depth (if Ascii.eqb b q then None else in_quote) (cur ++ [b]) l
      | None =>
          if is_quote b then split_loop delim depth (Some b) (cur ++ [b]) l
          else if is_open b then split_loop delim (depth + 1) None (cur ++ [b]) l
          else if is_close b then split_loop delim (depth - 1) None (cur ++ [b]) l
          else if Ascii.eqb b delim && (depth =? 0)%Z then
            of_bytes cur :: split_loop delim depth None [] l
          else split_loop delim depth None (cur ++ [b]) l
      end
  end.

Definition split_top_level (s : string) (delim : ascii) : list string :=
  split_loop delim 0 None [] (bytes s).

(** The bytes up to the parenthesis that matches an open one, and the rest. *)
Fixpoint close_paren (depth : nat) (l : list ascii) : option (list ascii * list ascii) :=
  match l with
  | [] => None
  | b :: l =>
      if Ascii.eqb b "("%char then prod_map (cons b) id <$> close_paren (S depth) l
      else if Ascii.eqb b ")"%char then
        match depth with
        | O => Some ([], l)
        | S depth => prod_map (cons b) id <$> close_paren depth l
        end
      else prod_map (cons b) id <$> close_paren depth l
  end.

Definition split_head_args (s : string) : option (string * option string) :=
  let '(head, rest) := span (λ b, negb (Ascii.eqb b "("%char)) (bytes s) in
  match rest with
  | [] =>
      let head := trim s in
      if is_empty_str head then None else Some (head, None)
  | _ :: rest =>
      match close_paren 0 rest with
      | None => None
      | Some (args, after) =>
          let head := trim (of_bytes head) in
          if is_empty_str head then None
          else if is_empty_str (trim (of_bytes after)) then Some (head, Some (of_bytes args))
          else None
      end
  end.

(** [s.starts_with(q) && s.ends_with(q)] for either quote. *)
Definition quoted (s : string) : bool :=
  match bytes s, last (bytes s) with
  | a :: _, Some b => is_quote a && Ascii.eqb a b
  | _, _ => false
  end.

(** [s[1..s.len() - 1]]: out of range on a single byte. *)
Definition inner_slice (s : string) : Parsed string :=
  if (String.length s <? 2)%nat then Err Panics
  else Ok (String.substring 1 (String.length s - 2) s).

(** ** Numbers and ranges *)

Definition usize_max : Z := 2 ^ 64 - 1.

(** [str::parse::<usize>]. *)
Definition parse_usize (s : string) : option Z :=
  let ds := match bytes s with
            | c :: r => if Ascii.eqb c "+"%char then r else c :: r
            | [] => []
            end in
  match ds with
  | [] => None
  | _ =>
      if forallb is_ascii_digit ds then
        let v := digits_value 0 ds in
        if (v <=? usize_max)%Z then Some v else None
      else None
  end.

(** [i64::checked_mul]. *)
Definition checked_mul (a b : Z) : option Z := if in_i64 (a * b)%Z then Some (a * b)%Z else None.

Definition drop_last (s : string) : string := String.substring 0 (String.length s - 1) s.

Definition parse_numeric_with_suffix (s : string) : option Z :=
  let s := trim s in
  match last (bytes s) with
  | None => None
  | Some b =>
      let '(num_part, mult) :=
        if Ascii.eqb b "k"%char || Ascii.eqb b "K"%char then (drop_last s, 1000%Z)
        else if Ascii.eqb b "m"%char || Ascii.eqb b "M"%char then (drop_last s, 1000000%Z)
        else (s, 1%Z) in
      n ← parse_i64 num_part; checked_mul n mult
  end.

(** The text before and after the first [..]. *)
Fixpoint split_dotdot (l : list ascii) : option (list ascii * list ascii) :=
  match l with
  | [] => None
  | b :: r =>
      match r with
      | c :: r' =>
          if Ascii.eqb b "."%char && Ascii.eqb c "."%char then Some ([], r')
          else prod_map (cons b) id <$> split_dotdot r
      | [] => None
      end
  end.

(** A bound: [None] when it is left out, failure when it is no number. *)
Definition parse_bound (s : string) : option (option Z) :=
  let s := trim s in
  if is_empty_str s then Some None else Some <$> parse_numeric_with_suffix s.

Definition parse_range_inner (s : string) : option (option Z * option Z) :=
  '(lo, hi) ← split_dotdot (bytes s);
  min ← parse_bound (of_bytes lo);
  max ← parse_bound (of_bytes hi);
  match min, max with
  | None, None => None
  | _, _ => Some (min, max)
  end.

Definition try_parse_range (s : string) : option Stage :=
  match split_dotdot (bytes s), bytes s with
  | Some _, first :: _ =>
      if is_ascii_alphabetic first || Ascii.eqb first "_"%char then None
      else '(min, max) ← parse_range_inner s; Some (SRange min max)
  | _, _ => None
  end.

(** ** Stages *)

Definition bad (src msg : string) : Failure := Fails (PePredicate src msg).

Definition parse_stage_mask (a src : string) : Parsed Stage :=
  match parse_usize (trim a) with
  | Some n => Ok (SMask (Z.to_nat n))
  | None => Err (bad src ("mask(N) expects integer, got `" +:+ a +:+ "`"))
  end.

Definition parse_stage_redact_cond (a src : string) : Parsed Stage :=
  match parse_predicate a with
  | Ok cond => Ok (SRedact (Some cond))
  | Err e => Err (bad src ("invalid redact() condition: " +:+ show_parse_error e))
  end.

Definition len_bound (src : string) (v : option Z) : Parsed (option nat) :=
  match v with
  | None => Ok None
  | Some v =>
      if (v <? 0)%Z then Err (bad src "len bounds must be non-negative")
      else Ok (Some (Z.to_nat v))
  end.

Definition parse_stage_len (a src : string) : Parsed Stage :=
  match parse_range_inner a with
  | None => Err (bad src ("len(...) expects N..M range, got `" +:+ a +:+ "`"))
  | Some (min, max) =>
      let? min := len_bound src min in
      let? max := len_bound src max in
      Ok (SLength min max)
  end.

(** The closure mapped over the pieces. *)
Fixpoint enum_values (pieces : list string) : Parsed (list string) :=
  match pieces with
  | [] => Ok []
  | v :: pieces =>
      let t := trim v in
      let? t := (if quoted t then inner_slice t else Ok t) in
      let? rest := enum_values pieces in
      Ok (if is_empty_str t then rest else t :: rest)
  end.

Definition parse_stage_enum (a src : string) : Parsed Stage :=
  let? values := enum_values (split_top_level a ","%char) in
  if is_nil values then Err (bad src "enum() requires at least one value")
  else Ok (SEnum values).

Definition parse_stage_regex (a : string) : Parsed Stage :=
  let pattern := trim a in
  let? pat := (if quoted pattern then inner_slice pattern else Ok pattern) in
  Ok (SRegex pat).

Definition parse_stage_validate_rejected (a src : string) : Failure :=
  bad src ("`validate(" +:+ trim a +:+ ")` — named-validator dispatch is not implemented "
    +:+ "in this build. Use `regex(" +:+ quote +:+ "pattern" +:+ quote
    +:+ ")` for a named-regex equivalent, or `plugin(" +:+ trim a
    +:+ ")` for richer validation logic.").

Definition parse_stage_plugin (head a src : string) : Parsed Stage :=
  let name := trim a in
  if is_empty_str name then
    Err (bad src ("`" +:+ head +:+ "(...)`: plugin name must not be empty"))
  else Ok (SPlugin name).

Definition parse_taint_scope (s src : string) : Parsed TaintScope :=
  if String.eqb s "session" then Ok Session
  else if String.eqb s "message" then Ok Message
  else Err (bad src ("unknown taint scope `" +:+ s +:+ "` (expected `session` or `message`)")).

(** [iter().map(f).collect::<Result<Vec<_>, _>>()]. *)
Fixpoint collect_parsed {A B} (f : A → Parsed B) (l : list A) : Parsed (list B) :=
  match l with
  | [] => Ok []
  | x :: l => let? y := f x in let? ys := collect_parsed f l in Ok (y :: ys)
  end.

Definition bracketed (s : string) : bool :=
  match bytes s, last (bytes s) with
  | a :: _, Some b => Ascii.eqb a "["%char && Ascii.eqb b "]"%char
  | _, _ => false
  end.

(** The label and scopes of [taint(..)]; callers build a stage or a step. *)
Definition parse_taint (args src : string) : Parsed (string * list TaintScope) :=
  match split_top_level args ","%char with
  | [] => Err (bad src "taint() requires at least a label")
  | label :: more =>
      let label := trim label in
      if is_empty_str label then Err (bad src "taint label must not be empty")
      else
        let? scopes :=
          (if is_nil more then Ok [Session]
           else
             let scope_arg := trim (join_with "," more) in
             if bracketed scope_arg then
               let? inner := inner_slice scope_arg in
               collect_parsed (λ s, parse_taint_scope (trim s) src)
                 (split_top_level inner ","%char)
             else let? scope := parse_taint_scope scope_arg src in Ok [scope]) in
        Ok (label, scopes)
  end.

Definition stage_taint (args src : string) : Parsed Stage :=
  let? '(label, scopes) := parse_taint args src in Ok (STaint label scopes).

(** The arms of [parse_stage] without arguments. *)
Definition bare_stage (head : string) : option Stage :=
  if String.eqb head "str" then Some (SType TStr)
  else if String.eqb head "int" then Some (SType TInt)
  else if String.eqb head "bool" then Some (SType TBool)
  else if String.eqb head "float" then Some (SType TFloat)
  else if String.eqb head "email" then Some (SType TEmail)
  else if String.eqb head "url" then Some (SType TUrl)
  else if String.eqb head "uuid" then Some (SType TUuid)
  else if String.eqb head "redact" then Some (SRedact None)
  else if String.eqb head "omit" then Some SOmit
  else if String.eqb head "hash" then Some SHash
  else if String.eqb head "pii.redact" then Some (SScan PiiRedact)
  else if String.eqb head "pii.detect" then Some (SScan PiiDetect)
  else if String.eqb head "injection.scan" then Some (SScan InjectionScan)
  else None.

Definition unknown_stage (src head : string) : Failure :=
  bad src ("unknown stage `" +:+ head +:+ "`").

(** The arms of [parse_stage] with arguments. *)
Definition call_stage (head a src : string) : Parsed Stage :=
  if String.eqb head "mask" then parse_stage_mask a src
  else if String.eqb head "redact" then parse_stage_redact_cond a src
  else if String.eqb head "hash" then Err (bad src "hash takes no arguments")
  else if String.eqb head "omit" then
    Err (bad src
      "omit takes no arguments — for conditional omit, use a policy rule predicate")
  else if String.eqb head "len" then parse_stage_len a src
  else if String.eqb head "enum" then parse_stage_enum a src
  else if String.eqb head "regex" then parse_stage_regex a
  else if String.eqb head "validate" then Err (parse_stage_validate_rejected a src)
  else if String.eqb head "plugin" || String.eqb head "run" then parse_stage_plugin head a src
  else if String.eqb head "taint" then stage_taint a src
  else Err (unknown_stage src head).

Definition parse_stage (src : string) : Parsed Stage :=
  let s := trim src in
  match try_parse_range s with
  | Some stage => Ok stage
  | None =>
      match split_head_args s with
      | None => Err (bad src "expected stage identifier")
      | Some (head, None) =>
          match bare_stage head with
          | Some stage => Ok stage
          | None => Err (unknown_stage src head)
          end
      | Some (head, Some a) => call_stage head a src
      end
  end.

(** The loop of [parse_pipeline]. *)
Fixpoint parse_segments (segs : list string) : Parsed (list Stage) :=
  match segs with
  | [] => Ok []
  | seg :: segs =>
      let seg := trim seg in
      if is_empty_str seg then parse_segments segs
      else
        let? stage := parse_stage seg in
        let? rest := parse_segments segs in
        Ok (stage :: rest)
  end.

Definition parse_pipeline (src : string) : Parsed Pipeline :=
  let? stages := parse_segments (split_top_level (trim src) "|"%char) in
  Ok (mkPipeline stages).

(** ** Examples from the sources' own grammar *)

Example parse_pipeline_forms :
  map parse_pipeline
    ["str | len(1..10) | mask(4)"; "int | 0..1M"; "enum(a, 'b|c') | redact"; "regex('^a|b$')";
     "taint(PII, [session, message]) | plugin(scan)"; ""; "9223372036854775807k.."]
  = [Ok (mkPipeline [SType TStr; SLength (Some 1%nat) (Some 10%nat); SMask 4]);
     Ok (mkPipeline [SType TInt; SRange (Some 0%Z) (Some 1000000%Z)]);
     Ok (mkPipeline [SEnum ["a"; "b|c"]; SRedact None]);
     Ok (mkPipeline [SRegex "^a|b$"]);
     Ok (mkPipeline [STaint "PII" [Session; Message]; SPlugin "scan"]);
     Ok (mkPipeline []);
     Err (bad "9223372036854775807k.." "unknown stage `9223372036854775807k..`")].
Proof. vm_compute. reflexivity. Qed.

(** A lone quote as the argument of [enum] or [regex] panics. *)
Example lone_quote_panics :
  parse_pipeline ("enum(" +:+ quote +:+ ")") = Err Panics
  ∧ parse_pipeline "regex(')" = Err Panics.
Proof. vm_compute. done. Qed.

(** ** Properties *)

(** *** Numbers *)

(** What a suffix multiplies by, and what it leaves. *)
Definition suffix_of (s : string) : string * Z :=
  match last (bytes s) with
  | Some b =>
      if Ascii.eqb b "k"%char || Ascii.eqb b "K"%char then (drop_last s, 1000%Z)
      else if Ascii.eqb b "m"%char || Ascii.eqb b "M"%char then (drop_last s, 1000000%Z)
      else (s, 1%Z)
  | None => (s, 1%Z)
  end.

Lemma parse_i64_range s n : parse_i64 s = Some n → in_i64 n = true.
Proof.
  unfold parse_i64. destruct (take_sign (bytes s)) as [neg ds]. destruct ds; [done|].
  destruct (forallb _ _); [|done]. case_match eqn:E; [|done]. by intros [= <-].
Qed.

Lemma parse_i64_empty : parse_i64 EmptyString = None.
Proof. done. Qed.

(** A bound with a suffix is exact or refused: what is read is the number
    times a thousand or a million and fits an [i64]; a product that does not
    fit is an error, never a wrapped value. *)
Theorem numeric_suffix_exact s n :
  parse_numeric_with_suffix s = Some n
  ↔ ∃ k, parse_i64 (suffix_of (trim s)).1 = Some k
      ∧ n = (k * (suffix_of (trim s)).2)%Z ∧ in_i64 n = true.
Proof.
  unfold parse_numeric_with_suffix, suffix_of. destruct (last (bytes (trim s))) as [b|] eqn:El.
  - generalize (if Ascii.eqb b "k"%char || Ascii.eqb b "K"%char then (drop_last (trim s), 1000%Z)
      else if Ascii.eqb b "m"%char || Ascii.eqb b "M"%char then (drop_last (trim s), 1000000%Z)
      else (trim s, 1%Z)). intros [num mult]. simpl. rewrite bind_Some. unfold checked_mul. split.
    + intros (k & Hk & Hn). case_match; simplify_eq. eauto.
    + intros (k & Hk & -> & Hn). exists k. by rewrite Hn.
  - apply last_None in El. split; [done|]. intros (k & Hk & _). simpl in Hk.
    destruct (trim s); [|done]. by rewrite parse_i64_empty in Hk.
Qed.

(** *** What a compiled pipeline contains *)

Definition bound_ok (b : option Z) : Prop := ∀ v, b = Some v → in_i64 v = true.

(** The shape of a parsed stage. *)
Definition stage_ok (s : Stage) : Prop :=
  match s with
  | SValidate _ => False
  | SEnum values => values ≠ [] ∧ Forall (λ v, v ≠ EmptyString) values
  | SRange min max => (is_Some min ∨ is_Some max) ∧ bound_ok min ∧ bound_ok max
  | SLength min max => is_Some min ∨ is_Some max
  | SMask n => (Z.of_nat n ≤ usize_max)%Z
  | SPlugin name => name ≠ EmptyString
  | STaint label scopes => label ≠ EmptyString ∧ scopes ≠ []
  | _ => True
  end.

Lemma is_empty_str_spec s : is_empty_str s = false ↔ s ≠ EmptyString.
Proof. unfold is_empty_str. by rewrite String.eqb_neq. Qed.

Lemma parse_bound_ok s b : parse_bound s = Some b → bound_ok b.
Proof.
  unfold parse_bound. destruct (is_empty_str _); [by intros [= <-]|].
  rewrite fmap_Some. intros (n & Hn & ->) v [= <-].
  apply numeric_suffix_exact in Hn. naive_solver.
Qed.

Lemma parse_range_inner_ok s min max :
  parse_range_inner s = Some (min, max) → (is_Some min ∨ is_Some max) ∧ bound_ok min ∧ bound_ok max.
Proof.
  unfold parse_range_inner. rewrite bind_Some. intros ([l r] & _ & Hb). simpl in Hb.
  rewrite bind_Some in Hb. destruct Hb as (mn & Hmn & Hb).
  rewrite bind_Some in Hb. destruct Hb as (mx & Hmx & Hb).
  apply parse_bound_ok in Hmn, Hmx. destruct mn, mx; simplify_eq/=; eauto.
Qed.

Lemma collect_parsed_length {A B} (f : A → Parsed B) l ys :
  collect_parsed f l = Ok ys → length ys = length l.
Proof.
  revert ys. induction l as [|x l IH]; intros ys; simpl; [by intros [= <-]|].
  intros (y & _ & (ys' & Hl & [= <-])%result_bind_ok)%result_bind_ok. simpl. by rewrite (IH ys').
Qed.

Lemma split_loop_nonempty delim d q cur l : split_loop delim d q cur l ≠ [].
Proof.
  revert d q cur. induction l as [|b l IH]; intros d q cur; simpl; [done|].
  repeat case_match; first [apply IH|done].
Qed.

Lemma parse_taint_ok args src label scopes :
  parse_taint args src = Ok (label, scopes) → label ≠ EmptyString ∧ scopes ≠ [].
Proof.
  unfold parse_taint. destruct (split_top_level args ","%char) as [|l more]; [done|].
  destruct (is_empty_str (trim l)) eqn:El; [done|].
  intros (sc & Hs & [= <- <-])%result_bind_ok. split; [by apply is_empty_str_spec|].
  destruct (is_nil more); [by injection Hs as <-|].
  destruct (bracketed _).
  - apply result_bind_ok in Hs as (inner & _ & Hc). apply collect_parsed_length in Hc.
    intros ->. unfold split_top_level in Hc.
    by destruct (split_loop _ _ _ _ _) eqn:E; [apply split_loop_nonempty in E|].
  - apply result_bind_ok in Hs as (s & _ & [= <-]). done.
Qed.

Lemma enum_values_nonempty pieces vs :
  enum_values pieces = Ok vs → Forall (λ v, v ≠ EmptyString) vs.
Proof.
  revert vs. induction pieces as [|p ps IH]; intros vs; simpl; [by intros [= <-]|].
  intros (t & _ & (rest & Hr & [= <-])%result_bind_ok)%result_bind_ok.
  destruct (is_empty_str t) eqn:E; [by apply IH|]. constructor; [by apply is_empty_str_spec|by apply IH].
Qed.

Lemma parse_usize_range s n : parse_usize s = Some n → (n ≤ usize_max)%Z.
Proof.
  unfold parse_usize. destruct (match bytes s with [] => _ | _ => _ end); [done|].
  destruct (forallb _ _); [|done]. case_match eqn:E; [|done]. intros [= <-]. by apply Z.leb_le.
Qed.

Lemma bare_stage_ok head s : bare_stage head = Some s → stage_ok s.
Proof. unfold bare_stage. repeat (destruct (String.eqb _ _); [by intros [= <-]|]). done. Qed.

Lemma len_bound_some src v r : len_bound src v = Ok r → is_Some v → is_Some r.
Proof.
  unfold len_bound. intros Hl [z ->]. destruct (z <? 0)%Z; [done|]. injection Hl as <-. by eexists.
Qed.

Lemma parse_stage_len_ok a src s : parse_stage_len a src = Ok s → stage_ok s.
Proof.
  unfold parse_stage_len. destruct (parse_range_inner a) as [[mn mx]|] eqn:E; [|done].
  apply parse_range_inner_ok in E as (Hsome & _).
  intros (mn' & Hmn & (mx' & Hmx & [= <-])%result_bind_ok)%result_bind_ok. simpl.
  destruct Hsome; [left|right]; by eapply len_bound_some.
Qed.

Lemma call_stage_ok head a src s : call_stage head a src = Ok s → stage_ok s.
Proof.
  unfold call_stage.
  destruct (String.eqb head "mask").
  { unfold parse_stage_mask. destruct (parse_usize _) as [n|] eqn:E; [|done]. intros [= <-]. simpl.
    apply parse_usize_range in E. unfold usize_max in *. lia. }
  destruct (String.eqb head "redact").
  { unfold parse_stage_redact_cond. destruct (parse_predicate a); [|done]. by intros [= <-]. }
  destruct (String.eqb head "hash"); [done|]. destruct (String.eqb head "omit"); [done|].
  destruct (String.eqb head "len"); [apply parse_stage_len_ok|].
  destruct (String.eqb head "enum").
  { unfold parse_stage_enum. intros (vs & Hv & Hs)%result_bind_ok.
    destruct (is_nil vs) eqn:En; [done|]. injection Hs as <-. simpl.
    split; [by destruct vs|by eapply enum_values_nonempty]. }
  destruct (String.eqb head "regex").
  { unfold parse_stage_regex. by intros (p & _ & [= <-])%result_bind_ok. }
  destruct (String.eqb head "validate"); [done|].
  destruct (String.eqb head "plugin" || String.eqb head "run").
  { unfold parse_stage_plugin. destruct (is_empty_str _) eqn:E; [done|]. intros [= <-].
    by apply is_empty_str_spec. }
  destruct (String.eqb head "taint"); [|done].
  unfold stage_taint. intros ([l sc] & Ht & [= <-])%result_bind_ok. by eapply parse_taint_ok.
Qed.

Lemma parse_stage_ok src s : parse_stage src = Ok s → stage_ok s.
Proof.
  unfold parse_stage. destruct (try_parse_range (trim src)) as [r|] eqn:Er.
  { intros [= <-]. unfold try_parse_range in Er.
    destruct (split_dotdot _), (bytes (trim src)); try done.
    destruct (_ || _); [done|]. rewrite bind_Some in Er. destruct Er as ([mn mx] & Hr & [= <-]).
    by eapply parse_range_inner_ok. }
  destruct (split_head_args _) as [[head [a|]]|]; [apply call_stage_ok| |done].
  destruct (bare_stage head) eqn:E; [|done]. intros [= <-]. by eapply bare_stage_ok.
Qed.

Lemma parse_segments_ok segs stages : parse_segments segs = Ok stages → Forall stage_ok stages.
Proof.
  revert stages. induction segs as [|seg segs IH]; intros stages; simpl; [by intros [= <-]|].
  destruct (is_empty_str _); [apply IH|].
  intros (s & Hs & (rest & Hr & [= <-])%result_bind_ok)%result_bind_ok.
  constructor; [by eapply parse_stage_ok|by apply IH].
Qed.

(** Every stage of a compiled pipeline is one the evaluator gives a meaning
    to: a named validator (which the evaluator would pass over) never compiles,
    enumerations, taints and plugin names are not empty, ranges and lengths
    have a bound, and range bounds fit an [i64]. *)
Lemma pipeline_stages src p : parse_pipeline src = Ok p → Forall stage_ok (stages p).
Proof.
  unfold parse_pipeline. intros (ss & Hs & [= <-])%result_bind_ok. by eapply parse_segments_ok.
Qed.
