(* ===== verification/StepParser.v ===== *)
(** * The rule, step and effect parser (apl-core/src/parser.rs)

    Rule lines, the call forms ([deny(..)], [taint(..)], [plugin(..)],
    [delegate(..)], the elicitation verbs), the YAML forms of steps and
    effects, and the compilation of a policy block.  The recursion over nested
    YAML is fuelled by its depth; [parse_step_total] proves that suffices. *)

From S2P Require Import Prelude RustStd F64 Json Yaml Ir Constraint PredParser PipeParser.
From Stdlib Require Import Ascii.

Local Open Scope string_scope.
Local Open Scope list_scope.

(** ** Data *)

Inductive Step :=
| StRule (r : Rule)
| StPdp (call : PdpCall) (on_deny on_allow : list Step)
| StPlugin (name : string)
| StDelegate (d : DelegateStep)
| StTaint (label : string) (scopes : list TaintScope)
| StRestrict (spec : RestrictSpec)
| StElicit (e : ElicitStep).

(** [{:?}] of an effect, in one error message. *)
Class EffectDebug := debug_effect : Effect → string.

(** [char::is_alphanumeric] beyond ASCII. *)
Class UnicodeTables := unicode_alphanumeric : string → bool.

Definition rule_err (rule msg : string) : Failure := Fails (PeRule rule msg).

(** [o.ok_or_else(|| e)?]. *)
Definition ok_or {T E} (o : option T) (e : E) : Result T E :=
  match o with Some t => Ok t | None => Err e end.

(** ** Text *)

(** [extract_call_args]: the text between the parentheses of [name(..)]. *)
Definition extract_call_args (line name : string) : option string :=
  after ← strip_prefix name (trim line);
  match bytes after with
  | b :: rest =>
      if Ascii.eqb b "("%char then
        '(args, tail) ← close_paren 0 rest;
        if is_empty_str (trim (of_bytes tail)) then Some (of_bytes args) else None
      else None
  | [] => None
  end.

(** At least two bytes, the first and the last the same quote. *)
Definition wrapped_in_quotes (s : string) : bool := (2 <=? String.length s)%nat && quoted s.
Definition inner_text (s : string) : string := String.substring 1 (String.length s - 2) s.

Definition strip_string_literal (s rule : string) : Parsed string :=
  let s := trim s in
  if wrapped_in_quotes s then Ok (inner_text s)
  else Err (rule_err rule ("expected a quoted string, got `" +:+ s +:+ "`")).

Definition strip_wrapping_quotes (s : string) : string :=
  if wrapped_in_quotes s then inner_text s else s.

Definition is_opening (c : string) : bool :=
  String.eqb c "[" || String.eqb c "(" || String.eqb c "{".
Definition is_closing (c : string) : bool :=
  String.eqb c "]" || String.eqb c ")" || String.eqb c "}".
Definition backslash : string := chr 92.

(** The scan of [split_top_level_commas], over characters. *)
Fixpoint commas_loop (depth : nat) (q : option string) (escape : bool) (current : string)
    (l : list string) : Result (list string) string :=
  match l with
  | [] =>
      match q with
      | Some _ => Err "unterminated quoted string in delegate(...) args"
      | None =>
          match depth with
          | O => Ok [current]
          | S _ => Err "unbalanced brackets in delegate(...) args"
          end
      end
  | ch :: l =>
      if escape then commas_loop depth q false (current +:+ ch) l
      else
        match q with
        | Some c =>
            if String.eqb ch backslash then commas_loop depth q true (current +:+ ch) l
            else commas_loop depth (if String.eqb ch c then None else q) false (current +:+ ch) l
        | None =>
            if String.eqb ch quote || String.eqb ch "'" then
              commas_loop depth (Some ch) false (current +:+ ch) l
            else if is_opening ch then commas_loop (S depth) None false (current +:+ ch) l
            else if is_closing ch then
              match depth with
              | O => Err ("unmatched `" +:+ ch +:+ "` in delegate(...) args")
              | S depth => commas_loop depth None false (current +:+ ch) l
              end
            else if String.eqb ch "," && (depth =? 0)%nat then
              let? parts := commas_loop depth None false EmptyString l in Ok (current :: parts)
            else commas_loop depth None false (current +:+ ch) l
        end
  end.

Definition split_top_level_commas (input : string) : Result (list string) string :=
  commas_loop 0 None false EmptyString (chars input).

(** [serde_yaml::Number::from]. *)
Definition number_of_i64 (n : Z) : Number := if (n <? 0)%Z then NegInt n else PosInt n.

(** [strip_prefix('[')] and [strip_suffix(']')]. *)
Definition strip_brackets (s : string) : option string :=
  if bracketed s then Some (inner_text s) else None.

Fixpoint parse_delegate_value (fuel : nat) (s : string) : option (Result Yaml string) :=
  match fuel with
  | O => None
  | S k =>
      let trimmed := trim s in
      if is_empty_str trimmed then Some (Err "empty value")
      else
        match strip_brackets trimmed with
        | Some stripped =>
            match split_top_level_commas stripped with
            | Err e => Some (Err e)
            | Ok items =>
                (fix each (items : list string) (out : list Yaml) :=
                   match items with
                   | [] => Some (Ok (YSequence out))
                   | item :: items =>
                       let item := trim item in
                       if is_empty_str item then each items out
                       else
                         match parse_delegate_value k item with
                         | None => None
                         | Some (Err e) => Some (Err e)
                         | Some (Ok v) => each items (out ++ [v])
                         end
                   end) items []
            end
        | None =>
            Some (Ok
              (if wrapped_in_quotes trimmed then YString (inner_text trimmed)
               else if String.eqb trimmed "true" then YBool true
               else if String.eqb trimmed "false" then YBool false
               else
                 match parse_i64 trimmed with
                 | Some n => YNumber (number_of_i64 n)
                 | None =>
                     match parse_f64 trimmed with
                     | Some f => YNumber (NumFloat f)
                     | None => YString trimmed
                     end
                 end))
        end
  end.

(** The entry point, with fuel for the nesting of a list literal. *)
Definition delegate_value (s : string) (wrap : string → Failure) : Parsed Yaml :=
  match parse_delegate_value (S (String.length s)) s with
  | None => Err OutOfFuel
  | Some (Err msg) => Err (wrap msg)
  | Some (Ok v) => Ok v
  end.

(** ** Rules *)

Definition deny_plain : Effect := EDeny None None.

Definition is_require_call (s : string) : bool := starts_with "require(" (trim s).

(** The loop of [parse_require_rule]: the keys, whether the separator is [|],
    and the tokens after the closing parenthesis. *)
Fixpoint require_loop (line : string) (sep : option bool) (keys : list string) (ts : list Tok) :
    Parsed (list string * option bool * list Tok) :=
  match ts with
  | [] => Err (rule_err line "unexpected end of require(...) — missing `)`")
  | TRParen :: ts => Ok (keys, sep, ts)
  | t :: ts =>
      match match t with TComma => Some false | TOr => Some true | _ => None end with
      | None =>
          Err (rule_err line ("expected `,`, `|`, or `)` in require(...), got " +:+ debug_tok t))
      | Some is_or =>
          if match sep with Some prev => Bool.eqb prev is_or | None => true end then
            match ts with
            | TIdent s :: ts => require_loop line (Some is_or) (keys ++ [s]) ts
            | _ => Err (rule_err line "expected identifier after `,` or `|` in require(...)")
            end
          else
            Err (rule_err line
              "require(...) cannot mix `,` (AND) and `|` (OR) — use one or the other")
      end
  end.

Definition require_expression (keys : list string) (sep : option bool) : Expression :=
  let falses := map (λ k, XCondition (CIsFalse k)) keys in
  match falses with
  | [e] => e
  | _ => match sep with Some true => XAnd falses | _ => XOr falses end
  end.

Definition parse_require_tokens (line : string) (toks : list Tok) : Parsed Expression :=
  match toks with
  | TRequire :: TLParen :: TIdent s :: ts =>
      let? '(keys, sep, rest) := require_loop line None [s] ts in
      if is_nil rest then Ok (require_expression keys sep)
      else Err (rule_err line "trailing tokens after `require(...)` — require is a complete rule")
  | TRequire :: TLParen :: _ =>
      Err (rule_err line "expected identifier inside `require(...)`")
  | TRequire :: _ => Err (rule_err line "expected `(` after `require`")
  | _ => Err (rule_err line "expected `require`")
  end.

Definition parse_require_rule (line : string) : Parsed Expression :=
  let? toks := lift (tokenize_all line) in parse_require_tokens line toks.

Definition step_kinds : list (string * string) :=
  [("taint(", "taint"); ("plugin(", "plugin"); ("run(", "run"); ("cedar:", "cedar");
   ("opa(", "opa"); ("authzen(", "authzen"); ("nemo(", "nemo"); ("cel:", "cel");
   ("sequential:", "sequential"); ("parallel:", "parallel")].

Definition detect_step_kind (s : string) : option string :=
  snd <$> find (λ p, starts_with p.1 (trim s)) step_kinds.

(** The text before and after the last colon outside quotes and parentheses. *)
Fixpoint last_colon (depth : Z) (q : option ascii) (l : list ascii) :
    option (list ascii * list ascii) :=
  match l with
  | [] => None
  | b :: l =>
      let '(depth', q', here) :=
        match q with
        | Some c => (depth, if Ascii.eqb b c then None else q, false)
        | None =>
            if is_quote b then (depth, Some b, false)
            else if Ascii.eqb b "("%char then ((depth + 1)%Z, None, false)
            else if Ascii.eqb b ")"%char then ((depth - 1)%Z, None, false)
            else (depth, None, Ascii.eqb b ":"%char && (depth =? 0)%Z)
        end in
      match last_colon depth' q' l with
      | Some (a, r) => Some (b :: a, r)
      | None => if here : bool then Some ([], l) else None
      end
  end.

Definition split_predicate_action (s : string) : option (string * string) :=
  prod_map (trim ∘ of_bytes) (trim ∘ of_bytes) <$> last_colon 0 None (bytes s).

Definition try_bare_action (s : string) : option (list Effect) :=
  let s := trim s in
  if String.eqb s "deny" then Some [deny_plain]
  else if String.eqb s "allow" then Some [EAllow]
  else None.

(** The optional quoted argument at the head of the list. *)
Definition next_literal (rule : string) (parts : list string) :
    Parsed (option string * list string) :=
  match parts with
  | [] => Ok (None, [])
  | p :: parts => let? s := strip_string_literal (trim p) rule in Ok (Some s, parts)
  end.

Definition try_parse_deny_call (s rule : string) : Parsed (option Effect) :=
  if negb (starts_with "deny(" s) then Ok None
  else
    let? inside := ok_or (extract_call_args s "deny") (rule_err rule "malformed `deny(...)`") in
    match split_top_level_commas inside with
    | Err e => Err (rule_err rule ("deny(...): " +:+ e))
    | Ok parts =>
        let? '(reason, parts) := next_literal rule parts in
        let? '(code, parts) := next_literal rule parts in
        if is_nil parts then Ok (Some (EDeny reason code))
        else Err (rule_err rule "deny(...) takes at most two args: deny('reason', 'code')")
    end.

Definition parse_action (s rule : string) : Parsed (list Effect) :=
  match try_bare_action s with
  | Some effects => Ok effects
  | None =>
      let? d := try_parse_deny_call (trim s) rule in
      match d with
      | Some deny => Ok [deny]
      | None =>
          Err (rule_err rule ("unsupported action `" +:+ trim s +:+ "` — recognized: `deny`, "
            +:+ "`deny('reason')`, `deny('reason', 'code')`, `allow`"))
      end
  end.

(** [parse_predicate(..).map_err(..)]. *)
Definition predicate_in (p rule : string) : Parsed Expression :=
  match parse_predicate p with
  | Ok e => Ok e
  | Err e => Err (rule_err rule (show_parse_error e))
  end.

Definition parse_rule (line source : string) : Parsed Rule :=
  let trimmed := trim line in
  if is_require_call trimmed then
    let? condition := parse_require_rule trimmed in
    Ok (rule_single condition deny_plain source)
  else
    match detect_step_kind trimmed with
    | Some kind =>
        Err (Fails (PeUnsupportedStep trimmed (kind +:+ " (use parse_step for step kinds)")))
    | None =>
        match split_predicate_action trimmed with
        | Some (p, a) =>
            let? effects := parse_action a trimmed in
            let? condition := predicate_in p trimmed in
            Ok (mkRule condition effects source)
        | None =>
            match try_bare_action trimmed with
            | Some effects => Ok (mkRule XAlways effects source)
            | None =>
                let? d := try_parse_deny_call trimmed trimmed in
                match d with
                | Some deny => Ok (mkRule XAlways [deny] source)
                | None =>
                    let? condition := predicate_in trimmed trimmed in
                    Ok (mkRule condition [deny_plain] source)
                end
            end
        end
    end.

Example parse_rule_forms :
  map (λ s, parse_rule s "r")
    ["require(a, b)"; "require(a | b)"; "x > 2: deny('too: deep', 'E1')"; "blocked"; "allow";
     "deny('no')"]
  = [Ok (mkRule (XOr [XCondition (CIsFalse "a"); XCondition (CIsFalse "b")]) [deny_plain] "r");
     Ok (mkRule (XAnd [XCondition (CIsFalse "a"); XCondition (CIsFalse "b")]) [deny_plain] "r");
     Ok (mkRule (XCondition (CComparison "x" OpGt (LInt 2)))
           [EDeny (Some "too: deep") (Some "E1")] "r");
     Ok (mkRule (XCondition (CIsTrue "blocked")) [deny_plain] "r");
     Ok (mkRule XAlways [EAllow] "r");
     Ok (mkRule XAlways [EDeny (Some "no") None] "r")].
Proof. vm_compute. reflexivity. Qed.

(** ** Call forms *)

(** One [key: value] argument. *)
Definition split_kwarg (kwarg : string) (malformed empty_key : Failure) :
    Parsed (string * string) :=
  match split_once ":"%char kwarg with
  | None => Err malformed
  | Some (key, value) =>
      let key := trim key in
      if is_empty_str key then Err empty_key else Ok (key, trim value)
  end.

Definition config_of (m : Mapping) : option Yaml := if is_nil m then None else Some (YMapping m).

Fixpoint delegate_kwargs (source : string) (parts : list string) (on_error : option string)
    (config_map : Mapping) : Parsed (option string * Mapping) :=
  match parts with
  | [] => Ok (on_error, config_map)
  | raw :: parts =>
      let kwarg := trim raw in
      if is_empty_str kwarg then delegate_kwargs source parts on_error config_map
      else
        let err msg := rule_err kwarg (source +:+ ": " +:+ msg) in
        let? '(key, value_str) :=
          split_kwarg kwarg
            (err ("`delegate(...)` kwarg `" +:+ kwarg +:+ "` must be `key: value` "
                  +:+ "(use the map form for richer config)"))
            (err "`delegate(...)` kwarg has empty key") in
        if String.eqb key "on_error" then
          let? val := delegate_value value_str (λ msg, err ("on_error: " +:+ msg)) in
          let? s := ok_or (yaml_as_str val) (err "`on_error` must be a string") in
          delegate_kwargs source parts (Some s) config_map
        else if String.eqb key "plugin" then
          Err (err ("`plugin` is set as the first positional argument "
                    +:+ "of `delegate(...)`; don't pass it as a kwarg too"))
        else
          let? value := delegate_value value_str (λ msg, err ("`" +:+ key +:+ "`: " +:+ msg)) in
          delegate_kwargs source parts on_error (mapping_insert_str config_map key value)
  end.

Definition parse_delegate_call_args (inside source : string) : Parsed DelegateStep :=
  let err msg := rule_err ("delegate(" +:+ inside +:+ ")") (source +:+ ": " +:+ msg) in
  match split_top_level_commas inside with
  | Err msg => Err (err msg)
  | Ok parts =>
      match parts with
      | [] => Err (err ("`delegate(...)` requires a plugin name as the first "
                        +:+ "positional argument"))
      | name :: parts =>
          if is_empty_str (trim name) then
            Err (err ("`delegate(...)` requires a plugin name as the first "
                      +:+ "positional argument"))
          else
            let plugin_name := strip_wrapping_quotes (trim name) in
            if is_empty_str plugin_name then
              Err (err "`delegate(...)` plugin name cannot be empty")
            else
              let? '(on_error, config_map) := delegate_kwargs source parts None [] in
              Ok (mkDelegate plugin_name (config_of config_map) on_error source)
      end
  end.

Definition ELICIT_VERBS : list (string * ElicitKind) :=
  [("require_approval", Approval); ("confirm", Confirm); ("require_step_up", StepUp);
   ("require_attestation", Attestation); ("request_info", Info); ("require_review", Review)].

Section Yaml.
Context `{YamlLib}.

(** The locals of [parse_elicit_call_args]. *)
Record ElicitArgs := mkElicitArgs {
  ea_from : option string;
  ea_channel : option string;
  ea_purpose : option string;
  ea_scope : option string;
  ea_timeout : option string;
  ea_on_error : option string;
  ea_config : Mapping
}.

Definition elicit_string (verb source key : string) (v : Yaml) : Parsed string :=
  match v with
  | YString s => Ok s
  | other => Err (rule_err (verb +:+ "(...)")
                    (source +:+ ": `" +:+ key +:+ "` must be a string, got " +:+ debug_yaml other))
  end.

(** The [match key]. *)
Definition elicit_set (verb source kwarg key : string) (value : Yaml) (a : ElicitArgs) :
    Parsed ElicitArgs :=
  let '(mkElicitArgs from channel purpose scope timeout on_error config) := a in
  let str := elicit_string verb source in
  if String.eqb key "from" then
    let? s := str "from" value in
    Ok (mkElicitArgs (Some s) channel purpose scope timeout on_error config)
  else if String.eqb key "channel" then
    let? s := str "channel" value in
    Ok (mkElicitArgs from (Some s) purpose scope timeout on_error config)
  else if String.eqb key "scope" then
    let? s := str "scope" value in
    Ok (mkElicitArgs from channel purpose (Some s) timeout on_error config)
  else if String.eqb key "purpose" || String.eqb key "prompt" then
    let? s := str key value in
    Ok (mkElicitArgs from channel (Some s) scope timeout on_error config)
  else if String.eqb key "timeout" then
    let? s := str "timeout" value in
    Ok (mkElicitArgs from channel purpose scope (Some s) on_error config)
  else if String.eqb key "on_error" then
    let? s := str "on_error" value in
    Ok (mkElicitArgs from channel purpose scope timeout (Some s) config)
  else if String.eqb key "plugin" then
    Err (rule_err kwarg (source +:+ ": the plugin name is the first positional argument "
      +:+ "of `" +:+ verb +:+ "(...)`; don't pass it as a kwarg too"))
  else
    Ok (mkElicitArgs from channel purpose scope timeout on_error
          (mapping_insert_str config key value)).

Fixpoint elicit_kwargs (verb source : string) (parts : list string) (a : ElicitArgs) :
    Parsed ElicitArgs :=
  match parts with
  | [] => Ok a
  | raw :: parts =>
      let kwarg := trim raw in
      if is_empty_str kwarg then elicit_kwargs verb source parts a
      else
        let err msg := rule_err kwarg (source +:+ ": " +:+ msg) in
        let? '(key, value_str) :=
          split_kwarg kwarg
            (err ("`" +:+ verb +:+ "(...)` argument `" +:+ kwarg +:+ "` must be `key: value` "
                  +:+ "(the plugin name is the first positional argument)"))
            (err ("`" +:+ verb +:+ "(...)` argument has empty key")) in
        let? value := delegate_value value_str (λ msg, err ("`" +:+ key +:+ "`: " +:+ msg)) in
        let? a := elicit_set verb source kwarg key value a in
        elicit_kwargs verb source parts a
  end.

Definition parse_elicit_call_args (verb : string) (kind : ElicitKind) (inside source : string) :
    Parsed ElicitStep :=
  let err msg := rule_err (verb +:+ "(" +:+ inside +:+ ")") (source +:+ ": " +:+ msg) in
  match split_top_level_commas inside with
  | Err msg => Err (err msg)
  | Ok parts =>
      let name := default EmptyString ((λ s, strip_wrapping_quotes (trim s)) <$> head parts) in
      if is_empty_str name then
        Err (err ("`" +:+ verb +:+ "(...)` requires an ElicitationHandler plugin name "
                  +:+ "as the first positional argument"))
      else
        let? a := elicit_kwargs verb source (tail parts)
                    (mkElicitArgs None None None None None None []) in
        let? from := ok_or (ea_from a)
                       (err ("`" +:+ verb +:+ "(...)` requires `from` (the approver)")) in
        Ok (mkElicit kind name (ea_channel a) from (ea_purpose a) (ea_scope a) (ea_timeout a)
              (config_of (ea_config a)) (ea_on_error a) source)
  end.

(** ** Step strings *)

Definition parse_plugin_call (verb trimmed : string) : Parsed Step :=
  let? inside := ok_or (extract_call_args trimmed verb)
                   (rule_err trimmed ("malformed `" +:+ verb +:+ "(...)`")) in
  let name := trim inside in
  if is_empty_str name then
    Err (rule_err trimmed ("`" +:+ verb +:+ "(...)`: plugin name must not be empty"))
  else Ok (StPlugin name).

(** The loop over [ELICIT_VERBS]: the first verb that opens the line. *)
Definition elicit_verb_of (trimmed : string) : option (string * ElicitKind) :=
  find (λ p, starts_with (p.1 +:+ "(") trimmed) ELICIT_VERBS.

Definition parse_step_string (line source : string) : Parsed Step :=
  let trimmed := trim line in
  if starts_with "taint(" trimmed then
    let? inside := ok_or (extract_call_args trimmed "taint")
                     (rule_err trimmed "malformed `taint(...)`") in
    let? '(label, scopes) := parse_taint inside trimmed in
    Ok (StTaint label scopes)
  else if starts_with "plugin(" trimmed then parse_plugin_call "plugin" trimmed
  else if starts_with "run(" trimmed then parse_plugin_call "run" trimmed
  else if starts_with "delegate(" trimmed then
    let? inside := ok_or (extract_call_args trimmed "delegate")
                     (rule_err trimmed "malformed `delegate(...)`") in
    let? d := parse_delegate_call_args inside source in
    Ok (StDelegate d)
  else
    match elicit_verb_of trimmed with
    | Some (verb, kind) =>
        let? inside := ok_or (extract_call_args trimmed verb)
                         (rule_err trimmed ("malformed `" +:+ verb +:+ "(...)`")) in
        let? e := parse_elicit_call_args verb kind inside source in
        Ok (StElicit e)
    | None => let? rule := parse_rule trimmed source in Ok (StRule rule)
    end.

(** ** Steps and effects *)

Definition not_always (e : Expression) : bool := match e with XAlways => false | _ => true end.

Definition step_to_effect (step : Step) (source : string) : Parsed Effect :=
  match step with
  | StPlugin name => Ok (EPlugin name)
  | StDelegate d => Ok (EDelegate d)
  | StElicit e => Ok (EElicit e)
  | StTaint label scopes => Ok (ETaint label scopes)
  | StRestrict spec => Ok (ERestrict spec)
  | StRule rule =>
      if not_always (r_condition rule) then
        Err (rule_err source ("conditional rules nested inside `do:` are not supported "
          +:+ "(use a sibling `when:`/`do:` rule instead)"))
      else
        match r_effects rule with
        | [e] => Ok e
        | es =>
            Err (rule_err source ("unconditional rule inside `do:` must produce exactly one "
              +:+ "effect, got " +:+ show_nat (length es)))
        end
  | StPdp _ _ _ =>
      Err (rule_err source ("PDP calls inside `do:` are not supported (use a sibling "
        +:+ "step instead)"))
  end.

Fixpoint step_to_top_level_effect (step : Step) : Effect :=
  match step with
  | StRule rule => EWhen (r_condition rule) (r_effects rule) (r_source rule)
  | StPdp call on_deny on_allow =>
      EPdp call (map step_to_top_level_effect on_allow) (map step_to_top_level_effect on_deny)
  | StPlugin name => EPlugin name
  | StDelegate d => EDelegate d
  | StElicit e => EElicit e
  | StTaint label scopes => ETaint label scopes
  | StRestrict spec => ERestrict spec
  end.

(** The first pipe outside quotes, parentheses and brackets that is not
    doubled: the text before and after it.  [skip] bytes are passed over. *)
Fixpoint find_top_level_pipe (skip : nat) (depth : Z) (q : option ascii) (l : list ascii) :
    option (list ascii * list ascii) :=
  match l with
  | [] => None
  | b :: l =>
      let go skip depth q := prod_map (cons b) id <$> find_top_level_pipe skip depth q l in
      match skip with
      | S skip => go skip depth q
      | O =>
          match q with
          | Some c =>
              if Ascii.eqb b (ascii_of_N 92) then go 1%nat depth q
              else go 0%nat depth (if Ascii.eqb b c then None else q)
          | None =>
              if is_quote b then go 0%nat depth (Some b)
              else if is_open b then go 0%nat (depth + 1)%Z None
              else if is_close b then go 0%nat (depth - 1)%Z None
              else if Ascii.eqb b "|"%char && (depth =? 0)%Z then
                match l with
                | c :: _ => if Ascii.eqb c "|"%char then go 1%nat depth None else Some ([], l)
                | [] => Some ([], l)
                end
              else go 0%nat depth None
          end
      end
  end.

Context `{UnicodeTables}.

Definition is_alphanumeric (c : string) : bool :=
  match c with
  | String b EmptyString =>
      if (byte_of b <? 128)%N then is_ascii_alphanumeric b else unicode_alphanumeric c
  | _ => unicode_alphanumeric c
  end.

Definition is_valid_field_path (s : string) : bool :=
  match match strip_prefix "args." s with
        | Some r => Some r
        | None => strip_prefix "result." s
        end with
  | None => false
  | Some rest =>
      negb (is_empty_str rest)
      && forallb (λ seg, negb (is_empty_str seg)
                         && forallb (λ c, is_alphanumeric c || String.eqb c "_") (chars seg))
           (split_on "."%char rest)
  end.

Definition try_parse_field_op (s rule : string) : Parsed (option Effect) :=
  match find_top_level_pipe 0 0 None (bytes s) with
  | None => Ok None
  | Some (path, chain) =>
      let path := trim (of_bytes path) in
      let chain := trim (of_bytes chain) in
      if is_empty_str path || is_empty_str chain then Ok None
      else if negb (is_valid_field_path path) then Ok None
      else
        match parse_pipeline chain with
        | Err (Fails e) =>
            Err (rule_err rule ("field op `" +:+ path +:+ "`: " +:+ show_parse_error e))
        | Err other => Err other
        | Ok pipeline =>
            if is_nil (stages pipeline) then
              Err (rule_err rule ("field op `" +:+ path +:+ "` has no stages"))
            else Ok (Some (EFieldOp path (stages pipeline)))
        end
  end.

Definition parse_effect_string (s source : string) : Parsed Effect :=
  let trimmed := trim s in
  match try_bare_action trimmed with
  | Some [e] => Ok e
  | _ =>
      let? d := try_parse_deny_call trimmed s in
      match d with
      | Some effect => Ok effect
      | None =>
          let? f := try_parse_field_op trimmed s in
          match f with
          | Some effect => Ok effect
          | None =>
              let? step := parse_step_string s source in
              step_to_effect step source
          end
      end
  end.

(** ** Restrict *)

Fixpoint string_entries (l : list Yaml) : Result (list string) string :=
  match l with
  | [] => Ok []
  | item :: l =>
      let? s := ok_or (yaml_as_str item) "list entries must be strings" in
      if is_empty_str (trim s) then Err "list entries must not be empty"
      else let? rest := string_entries l in Ok (trim s :: rest)
  end.

Definition parse_string_list (v : Yaml) : Result (list string) string :=
  let? seq := ok_or (yaml_as_sequence v) "must be a list of strings" in
  let? out := string_entries seq in
  if is_nil out then Err "list must not be empty" else Ok out.

Definition parse_string_set_spec (v : Yaml) : Result StringSetSpec string :=
  match v with
  | YSequence _ => let? l := parse_string_list v in Ok (SsLiteral l)
  | YString s =>
      let s := trim s in
      if is_empty_str s then Err "reference path must not be empty" else Ok (SsRef s)
  | _ => Err "must be a list of strings or a `data.*` reference string"
  end.

Definition scalar_to_string (v : Yaml) : option string :=
  match v with
  | YString s => Some s
  | YBool b => Some (show_bool b)
  | YNumber n => Some (show_yaml_number n)
  | _ => None
  end.

Fixpoint label_entries (m : Mapping) (out : gmap string string) :
    Result (gmap string string) string :=
  match m with
  | [] => Ok out
  | (k, val) :: m =>
      let? key := ok_or (yaml_as_str k) "label keys must be strings" in
      if is_empty_str (trim key) then Err "label keys must not be empty"
      else
        let? value := ok_or (scalar_to_string val)
          ("label `" +:+ trim key +:+ "` must be a scalar (string / bool / number)") in
        label_entries m (<[trim key := value]> out)
  end.

Definition parse_label_map (v : Yaml) : Result (gmap string string) string :=
  let? map := ok_or (yaml_as_mapping v) "must be a map of `label: value` pairs" in
  let? out := label_entries map ∅ in
  if (size out =? 0)%nat then Err "`custom` map must not be empty" else Ok out.

(** The [match key.trim()]; the error is the message after the field name, or
    that of an unknown field. *)
Definition restrict_field (source key : string) (v : Yaml) (s : RestrictSpec) :
    Parsed RestrictSpec :=
  let '(mkRestrict allow_models deny_models allow_regions allow_sites tier custom on_empty) := s in
  let field {T} (r : Result T string) : Parsed T :=
    match r with
    | Ok t => Ok t
    | Err msg => Err (rule_err source ("`restrict." +:+ key +:+ "`: " +:+ msg))
    end in
  if String.eqb key "allow_models" then
    let? x := field (parse_string_set_spec v) in
    Ok (mkRestrict (Some x) deny_models allow_regions allow_sites tier custom on_empty)
  else if String.eqb key "deny_models" then
    let? x := field (parse_string_set_spec v) in
    Ok (mkRestrict allow_models (Some x) allow_regions allow_sites tier custom on_empty)
  else if String.eqb key "allow_regions" then
    let? x := field (parse_string_set_spec v) in
    Ok (mkRestrict allow_models deny_models (Some x) allow_sites tier custom on_empty)
  else if String.eqb key "allow_sites" then
    let? x := field (parse_string_set_spec v) in
    Ok (mkRestrict allow_models deny_models allow_regions (Some x) tier custom on_empty)
  else if String.eqb key "max_cost_tier" then
    let? t := field (ok_or (yaml_as_str v) "must be a string tier") in
    let? _ := field (if is_empty_str (trim t) then Err "tier must not be empty" else Ok tt) in
    Ok (mkRestrict allow_models deny_models allow_regions allow_sites (Some (trim t)) custom
          on_empty)
  else if String.eqb key "custom" then
    let? c := field (parse_label_map v) in
    Ok (mkRestrict allow_models deny_models allow_regions allow_sites tier c on_empty)
  else if String.eqb key "on_empty" then
    let? t := field (ok_or (yaml_as_str v) "must be `deny` or `fallback`") in
    let? oe := field (if String.eqb (trim t) "deny" then Ok OeDeny
                      else if String.eqb (trim t) "fallback" then Ok OeFallback
                      else Err ("unknown value `" +:+ trim t
                                +:+ "` (expected `deny` or `fallback`)")) in
    Ok (mkRestrict allow_models deny_models allow_regions allow_sites tier custom oe)
  else
    Err (rule_err source ("unknown `restrict:` field `" +:+ key +:+ "` (allowed: allow_models, "
      +:+ "deny_models, allow_regions, allow_sites, max_cost_tier, custom, on_empty)")).

Fixpoint restrict_fields (source : string) (body : Mapping) (s : RestrictSpec) :
    Parsed RestrictSpec :=
  match body with
  | [] => Ok s
  | (k, v) :: body =>
      let? key := ok_or (yaml_as_str k)
                    (rule_err source "`restrict:` field keys must be strings") in
      let? s := restrict_field source (trim key) v s in
      restrict_fields source body s
  end.

Definition restrict_default : RestrictSpec := mkRestrict None None None None None ∅ OeDeny.

Definition parse_restrict_spec (body_val : Yaml) (source : string) : Parsed RestrictSpec :=
  let? body := ok_or (yaml_as_mapping body_val)
    (rule_err source ("`restrict:` body must be a map of constraint fields (allow_models / "
      +:+ "deny_models / allow_regions / allow_sites / max_cost_tier / custom / on_empty)")) in
  let? spec := restrict_fields source body restrict_default in
  if restrict_is_empty spec then
    Err (rule_err source ("`restrict:` declares no constraint fields — it would restrict nothing; "
      +:+ "remove it or add at least one of allow_models / deny_models / "
      +:+ "allow_regions / allow_sites / max_cost_tier / custom"))
  else Ok spec.

Definition parse_restrict_effect (body : Yaml) (source : string) : Parsed Effect :=
  let? spec := parse_restrict_spec body source in Ok (ERestrict spec).

(** ** The delegate map *)

Definition parse_delegate_step (body_val : Yaml) (source : string) : Parsed Step :=
  let err msg := rule_err source msg in
  let? body := ok_or (yaml_as_mapping body_val)
    (err ("`delegate:` body must be a map with `plugin:` and optional "
          +:+ "`config:` / `on_error:`")) in
  let? plugin := ok_or (mapping_get body "plugin")
    (err ("`delegate:` requires `plugin: <name>` referencing a "
          +:+ "top-level plugin registered under `token.delegate`")) in
  let? plugin_name := ok_or (yaml_as_str plugin) (err "`delegate.plugin` must be a string") in
  if is_empty_str plugin_name then Err (err "`delegate.plugin` cannot be empty")
  else
    let? on_error :=
      match mapping_get body "on_error" with
      | Some v =>
          let? s := ok_or (yaml_as_str v)
            (err "`delegate.on_error` must be a string (e.g. `deny`, `continue`)") in
          Ok (Some s)
      | None => Ok None
      end in
    Ok (StDelegate (mkDelegate plugin_name (mapping_get body "config") on_error source)).
End Yaml.

(** ** YAML steps and effects *)

Section Steps.
Context `{YamlLib} `{UnicodeTables} `{EffectDebug}.

Definition has_key (m : Mapping) (key : string) : bool := negb (is_none (mapping_get m key)).

Definition is_known_pdp_dialect (key : string) : bool :=
  let base := trim (of_bytes (span (λ b, negb (Ascii.eqb b "("%char)) (bytes key)).1) in
  String.eqb base "cedar" || String.eqb base "opa" || String.eqb base "authzen"
  || String.eqb base "nemo" || String.eqb base "cel".

(** A key [dialect(args)]: the first [(], the last [)].  The slice between
    them is out of range when the parentheses are the wrong way round. *)
Definition split_call_key (key : string) : Parsed (string * option string) :=
  let '(dialect, rest) := span (λ b, negb (Ascii.eqb b "("%char)) (bytes key) in
  match rest with
  | [] => Ok (trim key, None)
  | _ :: rest =>
      if negb (contains_char ")"%char key) then
        Err (rule_err key "missing `)` in PDP call signature")
      else
        let '(after, upto) := span (λ b, negb (Ascii.eqb b ")"%char)) (rev rest) in
        match upto with
        | [] => Err Panics
        | _ :: inside => Ok (trim (of_bytes dialect), Some (trim (of_bytes (rev inside))))
        end
  end.

(** Parsers of nested values, called at a smaller depth. *)
Section Nested.
Context (nested_step : Yaml → string → Parsed Step) (nested_effect : Yaml → string → Parsed Effect).

Definition effect_list (items : list Yaml) (source : string) : Parsed (list Effect) :=
  collect_parsed (λ item, nested_effect item source) items.

Definition parse_sequential_effect (body : Yaml) (source : string) : Parsed Effect :=
  let? items := ok_or (yaml_as_sequence body)
    (rule_err (debug_yaml body) "`sequential:` body must be a list of effects") in
  if is_nil items then Err (rule_err (debug_yaml body) "`sequential:` body is empty")
  else let? effects := effect_list items source in Ok (ESequential effects).

Definition parse_parallel_effect (body : Yaml) (source : string) : Parsed Effect :=
  let? items := ok_or (yaml_as_sequence body)
    (rule_err (debug_yaml body) "`parallel:` body must be a list of effects") in
  if is_nil items then Err (rule_err (debug_yaml body) "`parallel:` body is empty")
  else
    let? effects := effect_list items source in
    match validate_parallel_purity (EParallel effects) with
    | Ok _ => Ok (EParallel effects)
    | Err e =>
        Err (rule_err source ("`parallel:` contains a mutation effect (" +:+ debug_effect e
          +:+ "); use `sequential:` for ordered mutations"))
    end.

Definition parse_do_body (val : Yaml) (source : string) : Parsed (list Effect) :=
  match val with
  | YString s => let? e := parse_effect_string s source in Ok [e]
  | YSequence items => effect_list items source
  | YMapping _ => let? e := nested_effect val source in Ok [e]
  | other =>
      Err (rule_err (debug_yaml other)
        "`do:` value must be a string, a list of effects, or an effect map")
  end.

(** The first key that is not allowed. *)
Definition stray_key (m : Mapping) : option string :=
  find (λ key, negb (String.eqb key "when" || String.eqb key "do" || String.eqb key "id"))
    (map (λ p : Yaml * Yaml, default EmptyString (yaml_as_str p.1)) m).

Definition parse_when_do_rule (m : Mapping) (source : string) : Parsed Step :=
  match stray_key m with
  | Some key =>
      Err (rule_err (debug_yaml (YMapping m)) ("unexpected key `" +:+ key
        +:+ "` in when/do rule (allowed: `when`, `do`, `id`)"))
  | None =>
      let when_val := default YNull (mapping_get m "when") in
      let? predicate := ok_or (yaml_as_str when_val)
        (rule_err (debug_yaml when_val) "`when:` must be a predicate string") in
      let? condition := predicate_in predicate ("when: " +:+ predicate) in
      let? effects := parse_do_body (default YNull (mapping_get m "do")) source in
      if is_nil effects then
        Err (rule_err (debug_yaml (YMapping m)) "`do:` produced no effects")
      else Ok (StRule (mkRule condition effects source))
  end.

Definition parse_shorthand_multi_effect (predicate : string) (items : list Yaml) (source : string) :
    Parsed Step :=
  let? condition := predicate_in predicate predicate in
  let? effects := effect_list items source in
  if is_nil effects then
    Err (rule_err predicate "shorthand multi-effect map produced no effects")
  else Ok (StRule (mkRule condition effects source)).

Definition parse_reaction_list (v : Yaml) (source which : string) : Parsed (list Step) :=
  let? items := ok_or (yaml_as_sequence v)
    (rule_err (debug_yaml v) ("`" +:+ which +:+ ":` must be a list of steps")) in
  collect_parsed (λ p, nested_step p.2 (source +:+ "." +:+ which +:+ "[" +:+ show_nat p.1 +:+ "]"))
    (imap pair items).

(** The loop of [extract_pdp_body]. *)
Fixpoint pdp_entries (source : string) (body : Mapping) (on_deny on_allow : list Step)
    (args : Mapping) : Parsed (list Step * list Step * Mapping) :=
  match body with
  | [] => Ok (on_deny, on_allow, args)
  | (k, v) :: body =>
      if bool_decide (yaml_as_str k = Some "on_deny") then
        let? l := parse_reaction_list v source "on_deny" in
        pdp_entries source body l on_allow args
      else if bool_decide (yaml_as_str k = Some "on_allow") then
        let? l := parse_reaction_list v source "on_allow" in
        pdp_entries source body on_deny l args
      else pdp_entries source body on_deny on_allow (mapping_insert args k v)
  end.

Definition extract_pdp_body (body : Mapping) (paren_args : option string) (source : string) :
    Parsed (Yaml * list Step * list Step) :=
  let? '(on_deny, on_allow, args) := pdp_entries source body [] [] [] in
  Ok (match paren_args with Some s => YString s | None => YMapping args end, on_deny, on_allow).

Definition parse_pdp_step (key : string) (body_val : Yaml) (source : string) : Parsed Step :=
  let? '(dialect, paren_args) := split_call_key key in
  let? body := ok_or (yaml_as_mapping body_val)
    (rule_err (debug_yaml body_val) ("`" +:+ key
      +:+ ":` body must be a map (with on_deny / on_allow / args)")) in
  let? '(args, on_deny, on_allow) := extract_pdp_body body paren_args source in
  Ok (StPdp (mkPdpCall (from_key dialect) args) on_deny on_allow).

(** The single-key forms, in the order they are tried. *)
Definition parse_keyed_step (key : string) (body_val : Yaml) (source : string) : Parsed Step :=
  let trimmed := trim key in
  let named k := String.eqb trimmed k in
  let keyed :=
    if named "delegate" then parse_delegate_step body_val source
    else if named "restrict" then
      let? spec := parse_restrict_spec body_val source in Ok (StRestrict spec)
    else if named "sequential" then
      let? effect := parse_sequential_effect body_val source in
      Ok (StRule (mkRule XAlways [effect] source))
    else if named "parallel" then
      let? effect := parse_parallel_effect body_val source in
      Ok (StRule (mkRule XAlways [effect] source))
    else parse_pdp_step key body_val source in
  match body_val with
  | YSequence items =>
      if named "delegate" || named "sequential" || named "parallel" || is_known_pdp_dialect trimmed
      then keyed
      else parse_shorthand_multi_effect trimmed items source
  | _ => keyed
  end.

Definition parse_step_map (m : Mapping) (source : string) : Parsed Step :=
  if has_key m "when" && has_key m "do" then parse_when_do_rule m source
  else
    match m with
    | [(key_val, body_val)] =>
        let? key := ok_or (yaml_as_str key_val)
          (rule_err (debug_yaml key_val) "PDP step key must be a string") in
        parse_keyed_step key body_val source
    | _ =>
        Err (rule_err (debug_yaml (YMapping m)) ("step map must have exactly one key "
          +:+ "(PDP call signature, `when:`/`do:`, or a `predicate: [effects...]` shorthand)"))
    end.

(** The keys [parse_effect_value] handles itself. *)
Definition orchestration_effect (m : Mapping) (source : string) : option (Parsed Effect) :=
  match m with
  | [(k, v)] =>
      match trim <$> yaml_as_str k with
      | Some key =>
          if String.eqb key "sequential" then Some (parse_sequential_effect v source)
          else if String.eqb key "parallel" then Some (parse_parallel_effect v source)
          else if String.eqb key "restrict" then Some (parse_restrict_effect v source)
          else None
      | None => None
      end
  | _ => None
  end.

End Nested.

Fixpoint parse_step (fuel : nat) (value : Yaml) (source : string) : Parsed Step :=
  match fuel with
  | O => Err OutOfFuel
  | S k =>
      match value with
      | YString s => parse_step_string s source
      | YMapping m => parse_step_map (parse_step k) (parse_effect_value k) m source
      | other => Err (rule_err (debug_yaml other) "step must be a string or a single-key map")
      end
  end
with parse_effect_value (fuel : nat) (val : Yaml) (source : string) : Parsed Effect :=
  match fuel with
  | O => Err OutOfFuel
  | S k =>
      match val with
      | YString s => parse_effect_string s source
      | YMapping m =>
          match orchestration_effect (parse_effect_value k) m source with
          | Some r => r
          | None => let? step := parse_step k val source in step_to_effect step source
          end
      | other => Err (rule_err (debug_yaml other) "effect entry must be a string or a map")
      end
  end.

(** Two calls per level of nesting. *)
Definition step_fuel (v : Yaml) : nat := (2 * yaml_depth v + 1)%nat.

Definition parse_top_step (value : Yaml) (source : string) : Parsed Step :=
  parse_step (step_fuel value) value source.

(** ** Compilation *)

Record AuthorizationYaml := mkAuthorization {
  ay_pre_invocation : list Yaml;
  ay_post_invocation : list Yaml
}.

Record RouteYaml := mkRouteYaml {
  ry_pre_invocation : list Yaml;
  ry_post_invocation : list Yaml;
  ry_authorization : option AuthorizationYaml;
  ry_args : gmap string string;
  ry_result : gmap string string;
  ry_plugins : gmap string PluginOverride;
  ry_other : gmap string Yaml
}.

Record ConfigYaml := mkConfigYaml {
  cy_routes : gmap string RouteYaml;
  cy_plugins : list PluginDeclaration;
  cy_other : gmap string Yaml
}.

Record CompiledConfig := mkCompiledConfig {
  cp_routes : gmap string CompiledRoute;
  cp_plugins : gmap string PluginDeclaration
}.

(** What serde derives. *)
Class SerdeApl := {
  config_yaml_from_str : string → Result ConfigYaml string;
  route_yaml_from_value : Yaml → Result RouteYaml string
}.
Context `{SerdeApl} `{order : HashOrder}.

Definition RENAMED_FIELDS : list (string * string) :=
  [("policy", "authorization.pre_invocation (or flat pre_invocation)");
   ("post_policy", "authorization.post_invocation (or flat post_invocation)")].

Definition reject_legacy_keys (location : string) (other : gmap string Yaml) : Parsed unit :=
  match find (λ p, bool_decide (is_Some (other !! p.1))) RENAMED_FIELDS with
  | Some (old, new) => Err (Fails (PeRenamedField location old new))
  | None => Ok tt
  end.

(** One phase: the steps in order, each compiled to an effect. *)
Definition compile_effects (source phase : string) (entries : list Yaml) : Parsed (list Effect) :=
  collect_parsed (λ p,
    let? step := parse_top_step p.2
      (source +:+ "." +:+ phase +:+ "[" +:+ show_nat p.1 +:+ "]") in
    Ok (step_to_top_level_effect step)) (imap pair entries).

(** The fields of [args:] or [result:], in iteration order. *)
Definition compile_fields (source block : string) (fields : gmap string string) :
    Parsed (list FieldRule) :=
  collect_parsed (λ p : string * string,
    let '(field, chain) := p in
    match parse_pipeline chain with
    | Ok pipeline =>
        Ok (mkFieldRule field pipeline (source +:+ "." +:+ block +:+ "." +:+ field))
    | Err (Fails e) =>
        Err (rule_err (block +:+ "." +:+ field +:+ ": " +:+ debug_string chain)
               (show_parse_error e))
    | Err other => Err other
    end) (map_iter fields).

Definition authorization_of (raw : RouteYaml) : list Yaml * list Yaml :=
  match ry_authorization raw with
  | Some a => (ay_pre_invocation a, ay_post_invocation a)
  | None => ([], [])
  end.

Definition compile_apl_blocks (source : string) (raw : RouteYaml) : Parsed CompiledRoute :=
  let? _ := reject_legacy_keys source (ry_other raw) in
  let '(auth_pre, auth_post) := authorization_of raw in
  if negb (is_nil auth_pre) && negb (is_nil (ry_pre_invocation raw)) then
    Err (Fails (PeConflictingAuthorizationForms source "pre_invocation"))
  else if negb (is_nil auth_post) && negb (is_nil (ry_post_invocation raw)) then
    Err (Fails (PeConflictingAuthorizationForms source "post_invocation"))
  else
    let? policy := compile_effects source "pre_invocation" (auth_pre ++ ry_pre_invocation raw) in
    let? post := compile_effects source "post_invocation" (auth_post ++ ry_post_invocation raw) in
    let? args := compile_fields source "args" (ry_args raw) in
    let? result := compile_fields source "result" (ry_result raw) in
    Ok (mkRoute source args policy result post (ry_plugins raw) None).

Definition has_apl (raw : RouteYaml) : bool :=
  let has_authz := match ry_authorization raw with
                   | Some a => negb (is_nil (ay_pre_invocation a))
                               || negb (is_nil (ay_post_invocation a))
                   | None => false
                   end in
  negb (is_nil (ry_pre_invocation raw)) || negb (is_nil (ry_post_invocation raw)) || has_authz
  || negb (size (ry_args raw) =? 0)%nat || negb (size (ry_result raw) =? 0)%nat.

Definition compile_route (route_key : string) (raw : RouteYaml) : Parsed (option CompiledRoute) :=
  let? _ := reject_legacy_keys route_key (ry_other raw) in
  if negb (has_apl raw) then Ok None
  else let? route := compile_apl_blocks route_key raw in Ok (Some route).

(** The loop over the routes. *)
Fixpoint compile_routes (l : list (string * RouteYaml)) (out : gmap string CompiledRoute) :
    Parsed (gmap string CompiledRoute) :=
  match l with
  | [] => Ok out
  | (key, raw) :: l =>
      let? r := compile_route key raw in
      compile_routes l (match r with Some route => <[key := route]> out | None => out end)
  end.

Definition compile_config (yaml : string) : Parsed CompiledConfig :=
  match config_yaml_from_str yaml with
  | Err e => Err (Fails (PeYaml e))
  | Ok cfg =>
      let? routes := compile_routes (map_iter (cy_routes cfg)) ∅ in
      Ok (mkCompiledConfig routes
            (foldl (λ m decl, <[pdl_name decl := decl]> m) ∅ (cy_plugins cfg)))
  end.

Definition compile_policy_block_value (source : string) (block : Yaml) : Parsed CompiledRoute :=
  if yaml_is_null block then Ok (route_new source)
  else
    match route_yaml_from_value block with
    | Err e => Err (Fails (PeYaml e))
    | Ok raw => compile_apl_blocks source raw
    end.

End Steps.
