(* ===== verification/StepFacts.v ===== *)
(** * Properties of the policy compiler

    The fuel of the step parser always suffices; what compiles has the shape
    the evaluator expects and is pure under [parallel:]; [require(..)] means
    what it says; renamed keys never fail open; the two ways of writing a
    phase agree. *)

From S2P Require Import Prelude RustStd F64 Json Yaml Attributes Ir Predicate.
From S2P Require Import Constraint PredParser PipeParser StepParser.
From Stdlib Require Import Ascii.

Local Open Scope string_scope.
Local Open Scope list_scope.
Local Open Scope nat_scope.

(** ** Termination *)

(** Not out of fuel. *)
Definition terminates {T} (r : Parsed T) : Prop := r ≠ Err OutOfFuel.

Create HintDb terminates.

Lemma terminates_ok {T} (x : T) : terminates (Ok x).
Proof. done. Qed.
Lemma terminates_fails {T} e : terminates (T := T) (Err (Fails e)).
Proof. done. Qed.
Lemma terminates_panics {T} : terminates (T := T) (Err Panics).
Proof. done. Qed.
Lemma terminates_bind {T U} (r : Parsed T) (k : T → Parsed U) :
  terminates r → (∀ x, terminates (k x)) → terminates (result_bind r k).
Proof. destruct r; [intros _ Hk; apply Hk|]. by intros Hr _ [= ->]. Qed.
Lemma terminates_bind_ok {T U} (r : Parsed T) (k : T → Parsed U) :
  terminates r → (∀ x, r = Ok x → terminates (k x)) → terminates (result_bind r k).
Proof. destruct r; [intros _ Hk; by apply Hk|]. by intros Hr _ [= ->]. Qed.
Lemma terminates_ok_or {T} (o : option T) e : e ≠ OutOfFuel → terminates (ok_or o e).
Proof. destruct o; [done|]. by intros He [= ->]. Qed.
Lemma terminates_lift {T} (r : Result T ParseError) : terminates (lift r).
Proof. by destruct r. Qed.
Lemma terminates_collect {A B} (f : A → Parsed B) l :
  (∀ x, x ∈ l → terminates (f x)) → terminates (collect_parsed f l).
Proof.
  induction l as [|x l IH]; intros Hf; simpl; [done|].
  apply terminates_bind; [apply Hf; by left|]. intros y.
  apply terminates_bind; [|done]. apply IH. intros z Hz. apply Hf. by right.
Qed.

Lemma terminates_bad {T} src msg : terminates (T := T) (Err (bad src msg)).
Proof. done. Qed.
Lemma terminates_rule {T} rule msg : terminates (T := T) (Err (rule_err rule msg)).
Proof. done. Qed.

#[export] Hint Resolve terminates_ok terminates_fails terminates_panics terminates_lift
  terminates_bad terminates_rule : terminates.

(** Walk down the binds and the case distinctions of a parser. *)
Ltac terminate :=
  repeat first
    [ solve [auto with terminates]
    | match goal with |- ∀ _, _ => intros ? end
    | apply terminates_bind; [|intros ?]
    | apply terminates_ok_or; done
    | case_match ].

Lemma inner_slice_terminates s : terminates (inner_slice s).
Proof. unfold inner_slice. terminate. Qed.
#[export] Hint Resolve inner_slice_terminates : terminates.

Lemma parse_taint_terminates args src : terminates (parse_taint args src).
Proof.
  unfold parse_taint. destruct (split_top_level _ _) as [|lbl more]; [done|].
  destruct (is_empty_str _); [done|]. apply terminates_bind; [|terminate].
  destruct (is_nil _); [done|]. destruct (bracketed _).
  - apply terminates_bind; [auto with terminates|]. intros inner. apply terminates_collect.
    intros s _. unfold parse_taint_scope. terminate.
  - unfold parse_taint_scope. terminate.
Qed.
#[export] Hint Resolve parse_taint_terminates : terminates.

Lemma enum_values_terminates l : terminates (enum_values l).
Proof. induction l; simpl; terminate. Qed.
#[export] Hint Resolve enum_values_terminates : terminates.

Lemma call_stage_terminates head a src : terminates (call_stage head a src).
Proof.
  unfold call_stage. repeat (destruct (String.eqb _ _); simpl).
  all: unfold parse_stage_mask, parse_stage_redact_cond, parse_stage_len, len_bound,
    parse_stage_enum, parse_stage_regex, parse_stage_plugin, stage_taint,
    parse_stage_validate_rejected, unknown_stage; terminate.
Qed.
#[export] Hint Resolve call_stage_terminates : terminates.

Lemma parse_pipeline_terminates src : terminates (parse_pipeline src).
Proof.
  unfold parse_pipeline. apply terminates_bind; [|terminate].
  induction (split_top_level (trim src) "|"%char) as [|seg segs IH]; simpl; [done|].
  destruct (is_empty_str _); [done|]. apply terminates_bind; [|terminate].
  unfold parse_stage, unknown_stage. terminate.
Qed.
#[export] Hint Resolve parse_pipeline_terminates : terminates.

(** *** List literals *)

Definition total_length (l : list string) : nat := sum_list_with String.length l.

Lemma length_append a b : String.length (a +:+ b) = String.length a + String.length b.
Proof. induction a as [|c a IH]; simpl; [done|]. by rewrite IH. Qed.

Lemma length_concat_str l : String.length (concat_str l) = total_length l.
Proof. induction l as [|s l IH]; simpl; [done|]. by rewrite length_append, IH. Qed.

Lemma total_length_chars s : total_length (chars s) = String.length s.
Proof. by rewrite <- length_concat_str, concat_chars. Qed.

Lemma total_length_rev l : total_length (rev l) = total_length l.
Proof.
  unfold total_length. induction l as [|s l IH]; simpl; [done|].
  rewrite sum_list_with_app, IH. simpl. lia.
Qed.

Lemma total_length_drop f l : total_length (drop_while f l) ≤ total_length l.
Proof.
  unfold total_length. induction l as [|s l IH]; simpl; [done|]. destruct (f s); simpl; lia.
Qed.

Lemma length_trim s : String.length (trim s) ≤ String.length s.
Proof.
  unfold trim. rewrite length_concat_str, total_length_rev.
  etrans; [apply total_length_drop|]. rewrite total_length_rev.
  etrans; [apply total_length_drop|]. by rewrite total_length_chars.
Qed.

Lemma length_inner_text s : 2 ≤ String.length s → String.length (inner_text s) + 2 ≤ String.length s.
Proof.
  unfold inner_text. intros Hs.
  assert (∀ n m t, String.length (String.substring n m t) ≤ m) as Hsub.
  { intros n. induction n as [|n IHn]; intros m t.
    - revert t. induction m as [|m IHm]; intros [|c t]; simpl; try lia. specialize (IHm t). lia.
    - destruct t; simpl; [lia|]. apply IHn. }
  specialize (Hsub 1 (String.length s - 2) s). lia.
Qed.

Lemma bracketed_length s : bracketed s = true → 2 ≤ String.length s.
Proof.
  unfold bracketed. rewrite <- length_bytes. destruct (bytes s) as [|a [|b l]]; simpl; try done; [|lia].
  destruct (Ascii.eqb_spec a "["%char) as [->|]; [|done]. done.
Qed.

Lemma commas_loop_parts depth q esc cur l parts p :
  commas_loop depth q esc cur l = Ok parts → p ∈ parts →
  String.length p ≤ String.length cur + total_length l.
Proof.
  revert depth q esc cur parts. induction l as [|ch l IH]; intros depth q esc cur parts; simpl.
  { destruct q; [done|]. destruct depth; [|done]. intros [= <-] ->%list_elem_of_singleton. lia. }
  assert (∀ depth q esc parts, commas_loop depth q esc (cur +:+ ch) l = Ok parts → p ∈ parts →
    String.length p ≤ String.length cur + (String.length ch + total_length l)) as Hpush.
  { intros d' q' e' ps Hl Hp. pose proof (IH _ _ _ _ _ Hl Hp) as Hle. rewrite length_append in Hle. lia. }
  destruct esc; [apply Hpush|]. destruct q as [c|].
  { destruct (String.eqb ch backslash); apply Hpush. }
  destruct (_ || _); [apply Hpush|]. destruct (is_opening ch); [apply Hpush|].
  destruct (is_closing ch). { destruct depth; [done|apply Hpush]. }
  destruct (_ && _); [|apply Hpush].
  intros (ps & Hl & [= <-])%result_bind_ok [->|Hp]%elem_of_cons; [lia|].
  pose proof (IH _ _ _ _ _ Hl Hp). simpl in *. lia.
Qed.

Lemma parse_delegate_value_total fuel s :
  String.length s < fuel → is_Some (parse_delegate_value fuel s).
Proof.
  revert s. induction fuel as [|fuel IH]; intros s Hlt; [lia|]. simpl.
  destruct (is_empty_str (trim s)); [by eexists|].
  unfold strip_brackets. destruct (bracketed (trim s)) eqn:Eb; [|by eexists].
  pose proof (length_trim s). pose proof (length_inner_text (trim s) (bracketed_length _ Eb)).
  destruct (split_top_level_commas _) as [items|e] eqn:Es; [|by eexists].
  assert (∀ p, p ∈ items → String.length p < fuel) as Hitems.
  { intros p Hp. pose proof (commas_loop_parts _ _ _ _ _ _ _ Es Hp) as Hle.
    rewrite total_length_chars in Hle. simpl in Hle. lia. }
  clear Es. match goal with |- is_Some (?f items []) => cut (∀ out, is_Some (f items out)); [done|] end.
  induction items as [|item items IHi]; intros out; [by eexists|].
  destruct (is_empty_str (trim item)); [apply IHi; intros p Hp; apply Hitems; by right|].
  destruct (IH (trim item)) as [r ->].
  { pose proof (length_trim item). assert (String.length item < fuel) by (apply Hitems; by left). lia. }
  destruct r; [|by eexists]. apply IHi. intros p Hp. apply Hitems. by right.
Qed.

Lemma delegate_value_terminates s wrap :
  (∀ msg, wrap msg ≠ OutOfFuel) → terminates (delegate_value s wrap).
Proof.
  intros Hw. unfold delegate_value.
  destruct (parse_delegate_value_total (S (String.length s)) s) as [[v|e] ->]; [lia|done|].
  intros [= He]. by eapply Hw.
Qed.

(** *** Step strings *)

Lemma delegate_kwargs_terminates source parts oe m : terminates (delegate_kwargs source parts oe m).
Proof.
  revert oe m. induction parts as [|p parts IH]; intros oe m; simpl; [done|].
  destruct (is_empty_str _); [apply IH|]. apply terminates_bind.
  { unfold split_kwarg. terminate. }
  intros [key v]. destruct (String.eqb key "on_error").
  - apply terminates_bind; [by apply delegate_value_terminates|]. intros val.
    apply terminates_bind; [by apply terminates_ok_or|]. intros ?. apply IH.
  - destruct (String.eqb key "plugin"); [done|].
    apply terminates_bind; [by apply delegate_value_terminates|]. intros ?. apply IH.
Qed.

Section Terminates.
Context `{YamlLib} `{UnicodeTables} `{EffectDebug}.

Lemma elicit_kwargs_terminates verb source parts a : terminates (elicit_kwargs verb source parts a).
Proof.
  revert a. induction parts as [|p parts IH]; intros a; simpl; [done|].
  destruct (is_empty_str _); [apply IH|]. apply terminates_bind.
  { unfold split_kwarg. terminate. }
  intros [key v]. apply terminates_bind; [by apply delegate_value_terminates|]. intros val.
  apply terminates_bind; [|intros ?; apply IH].
  unfold elicit_set, elicit_string. destruct a. terminate.
Qed.

Lemma try_parse_deny_call_terminates s rule : terminates (try_parse_deny_call s rule).
Proof.
  unfold try_parse_deny_call, next_literal, strip_string_literal. terminate.
Qed.

Lemma require_loop_terminates l sep keys ts : terminates (require_loop l sep keys ts).
Proof.
  revert sep keys. induction ts as [ts IH] using (induction_ltof1 _ (@length Tok)). intros sep keys.
  destruct ts as [|t ts]; [done|]. simpl.
  assert (∀ o, terminates (match o with
    | Some is_or => if match sep with Some prev => Bool.eqb prev is_or | None => true end
        then match ts with
             | TIdent s :: ts => require_loop l (Some is_or) (keys ++ [s]) ts
             | _ => Err (rule_err l "expected identifier after `,` or `|` in require(...)")
             end
        else Err (rule_err l
               "require(...) cannot mix `,` (AND) and `|` (OR) — use one or the other")
    | None => Err (rule_err l
        ("expected `,`, `|`, or `)` in require(...), got " +:+ debug_tok t))
    end)) as Hrest.
  { intros [is_or|]; [|done]. destruct (match sep with Some _ => _ | None => _ end); [|done].
    destruct ts as [|[] ts]; try done. apply IH. unfold ltof. simpl. lia. }
  destruct t; try apply (Hrest None); [apply (Hrest (Some true))|done|apply (Hrest (Some false))].
Qed.

Lemma parse_rule_terminates line source : terminates (parse_rule line source).
Proof.
  pose proof require_loop_terminates as Hreq. pose proof try_parse_deny_call_terminates as Hdeny.
  unfold parse_rule, parse_require_rule, parse_require_tokens, parse_action, predicate_in. terminate.
Qed.
#[local] Hint Resolve parse_rule_terminates try_parse_deny_call_terminates : terminates.

Lemma parse_step_string_terminates line source : terminates (parse_step_string line source).
Proof.
  pose proof delegate_kwargs_terminates as Hd. pose proof elicit_kwargs_terminates as He.
  unfold parse_step_string, parse_plugin_call, parse_delegate_call_args, parse_elicit_call_args.
  terminate.
Qed.
#[local] Hint Resolve parse_step_string_terminates : terminates.

Lemma step_to_effect_terminates step source : terminates (step_to_effect step source).
Proof. unfold step_to_effect. terminate. Qed.
#[local] Hint Resolve step_to_effect_terminates : terminates.

Lemma try_parse_field_op_terminates s rule : terminates (try_parse_field_op s rule).
Proof.
  unfold try_parse_field_op. destruct (find_top_level_pipe _ _ _ _) as [[path chain]|]; [|done].
  destruct (_ || _); [done|]. destruct (negb _); [done|].
  pose proof (parse_pipeline_terminates (trim (of_bytes chain))) as Hp.
  destruct (parse_pipeline _) as [p|[e| |]]; [|done|done|done]. by destruct (is_nil _).
Qed.
#[local] Hint Resolve try_parse_field_op_terminates : terminates.

Lemma parse_effect_string_terminates s source : terminates (parse_effect_string s source).
Proof. unfold parse_effect_string. terminate. Qed.
#[local] Hint Resolve parse_effect_string_terminates : terminates.

Lemma parse_restrict_spec_terminates v source : terminates (parse_restrict_spec v source).
Proof.
  unfold parse_restrict_spec. apply terminates_bind; [by apply terminates_ok_or|]. intros body.
  apply terminates_bind; [|terminate]. generalize restrict_default.
  induction body as [|[k v'] body IH]; intros s; simpl; [done|].
  apply terminates_bind; [by apply terminates_ok_or|]. intros key.
  apply terminates_bind; [|intros ?; apply IH]. unfold restrict_field. destruct s. terminate.
Qed.
#[local] Hint Resolve parse_restrict_spec_terminates : terminates.

Lemma parse_delegate_step_terminates v source : terminates (parse_delegate_step v source).
Proof. unfold parse_delegate_step. terminate. Qed.
#[local] Hint Resolve parse_delegate_step_terminates : terminates.

(** *** Nested values *)

Section Nested.
Context (nested_step : Yaml → string → Parsed Step) (nested_effect : Yaml → string → Parsed Effect).

Definition step_below (d : nat) : Prop :=
  ∀ v source, yaml_depth v < d → terminates (nested_step v source).
Definition effect_below (d : nat) : Prop :=
  ∀ v source, yaml_depth v < d → terminates (nested_effect v source).

Lemma effect_list_terminates d items source :
  effect_below d → (∀ x, x ∈ items → yaml_depth x < d) →
  terminates (effect_list nested_effect items source).
Proof. intros He Hi. apply terminates_collect. intros x Hx. apply He, Hi, Hx. Qed.

Lemma sequence_effects_terminates body items source :
  effect_below (yaml_depth body) → yaml_as_sequence body = Some items →
  terminates (effect_list nested_effect items source).
Proof.
  intros He Hb. eapply effect_list_terminates; [exact He|]. intros x Hx.
  by eapply as_sequence_depth.
Qed.

Lemma parse_sequential_terminates body source :
  effect_below (yaml_depth body) → terminates (parse_sequential_effect nested_effect body source).
Proof.
  intros He. unfold parse_sequential_effect.
  destruct (yaml_as_sequence body) as [items|] eqn:E; [|done]. simpl.
  destruct (is_nil items); [done|]. apply terminates_bind; [|done].
  by eapply sequence_effects_terminates.
Qed.

Lemma parse_parallel_terminates body source :
  effect_below (yaml_depth body) → terminates (parse_parallel_effect nested_effect body source).
Proof.
  intros He. unfold parse_parallel_effect.
  destruct (yaml_as_sequence body) as [items|] eqn:E; [|done]. simpl.
  destruct (is_nil items); [done|].
  apply terminates_bind; [by eapply sequence_effects_terminates|terminate].
Qed.

Lemma parse_do_body_terminates val source :
  effect_below (S (yaml_depth val)) → terminates (parse_do_body nested_effect val source).
Proof.
  intros He. destruct val as [|b|n|s|l|m|t v]; simpl; try done.
  - terminate.
  - eapply effect_list_terminates; [exact He|]. intros x Hx. apply sequence_depth in Hx. lia.
  - apply terminates_bind; [apply He; lia|done].
Qed.

Lemma effect_below_mono d d' : effect_below d → d' ≤ d → effect_below d'.
Proof. intros He Hle v source Hv. apply He. lia. Qed.
Lemma step_below_mono d d' : step_below d → d' ≤ d → step_below d'.
Proof. intros He Hle v source Hv. apply He. lia. Qed.

Lemma reaction_list_terminates v source which :
  step_below (yaml_depth v) → terminates (parse_reaction_list nested_step v source which).
Proof.
  intros Hs. unfold parse_reaction_list.
  destruct (yaml_as_sequence v) as [items|] eqn:E; [|done]. simpl.
  apply terminates_collect. intros [i x] [j Hj]%list_elem_of_lookup.
  rewrite list_lookup_imap in Hj. apply fmap_Some in Hj as (y & Hy & [= -> ->]). simpl.
  apply Hs. eapply as_sequence_depth; [exact E|]. by eapply list_elem_of_lookup_2.
Qed.

Lemma pdp_entries_terminates d source body a b c :
  step_below d → (∀ k v, (k, v) ∈ body → yaml_depth v ≤ d) →
  terminates (pdp_entries nested_step source body a b c).
Proof.
  intros Hs. revert a b c. induction body as [|[k v] body IH]; intros a b c Hb; simpl; [done|].
  assert (step_below (yaml_depth v)) as Hv.
  { eapply step_below_mono; [exact Hs|]. apply (Hb k). by left. }
  assert (∀ k' v', (k', v') ∈ body → yaml_depth v' ≤ d) as Hb'.
  { intros k' v' Hin. apply (Hb k'). by right. }
  destruct (bool_decide _).
  { apply terminates_bind; [by apply reaction_list_terminates|]. intros l. by apply IH. }
  destruct (bool_decide _).
  { apply terminates_bind; [by apply reaction_list_terminates|]. intros l. by apply IH. }
  by apply IH.
Qed.

Lemma parse_pdp_step_terminates key body source :
  step_below (yaml_depth body) → terminates (parse_pdp_step nested_step key body source).
Proof.
  intros Hs. unfold parse_pdp_step. apply terminates_bind.
  { unfold split_call_key. destruct (span _ _) as [a [|b r]]; [done|]. destruct (negb _); [done|].
    by destruct (span _ _) as [? [|? ?]]. }
  intros [dialect pargs]. destruct (yaml_as_mapping body) as [m|] eqn:E; [|done]. simpl.
  apply terminates_bind; [|intros [[? ?] ?]; done]. unfold extract_pdp_body.
  apply terminates_bind; [|intros [[? ?] ?]; done].
  eapply pdp_entries_terminates; [exact Hs|]. intros k v Hin.
  pose proof (as_mapping_depth _ _ _ _ E Hin). lia.
Qed.

Lemma parse_step_map_terminates m source :
  step_below (yaml_depth (YMapping m)) → effect_below (yaml_depth (YMapping m)) →
  terminates (parse_step_map nested_step nested_effect m source).
Proof.
  intros Hs He. unfold parse_step_map.
  destruct (has_key m "when" && has_key m "do") eqn:Ek.
  - unfold parse_when_do_rule. destruct (stray_key m); [done|].
    apply terminates_bind; [by apply terminates_ok_or|]. intros p.
    apply terminates_bind; [unfold predicate_in; terminate|]. intros cnd.
    apply terminates_bind; [|terminate]. apply parse_do_body_terminates.
    apply andb_true_iff in Ek as [_ Ek]. unfold has_key in Ek.
    destruct (mapping_get m "do") as [dv|] eqn:Ed; [|done]. simpl.
    eapply effect_below_mono; [exact He|]. apply mapping_get_in, mapping_depth in Ed. lia.
  - destruct m as [|[k body] [|p m]]; [done| |done].
    assert (yaml_depth body < yaml_depth (YMapping [(k, body)])) as Hd.
    { eapply mapping_depth. by left. }
    apply terminates_bind; [by apply terminates_ok_or|]. intros key. unfold parse_keyed_step.
    assert (effect_below (yaml_depth body)) as Heb by (eapply effect_below_mono; [exact He|lia]).
    assert (step_below (yaml_depth body)) as Hsb by (eapply step_below_mono; [exact Hs|lia]).
    pose proof (λ b s, parse_sequential_terminates b s) as Hseq.
    pose proof (λ b s, parse_parallel_terminates b s) as Hpar.
    pose proof (λ k b s, parse_pdp_step_terminates k b s) as Hpdp.
    match goal with |- terminates (match body with YSequence items => if ?c then ?k else _ | _ => _ end) =>
      assert (terminates k) as Hkeyed
    end.
    { repeat (destruct (String.eqb _ _); [terminate; auto|]). auto. }
    destruct body; try exact Hkeyed. destruct (_ || _); [exact Hkeyed|].
    unfold parse_shorthand_multi_effect.
    apply terminates_bind; [unfold predicate_in; terminate|]. intros cnd.
    apply terminates_bind; [|terminate]. eapply effect_list_terminates; [exact Heb|].
    intros x Hx. by apply sequence_depth.
Qed.

End Nested.

Lemma parse_terminates fuel :
  (∀ v source, 2 * yaml_depth v + 1 ≤ fuel → terminates (parse_step fuel v source))
  ∧ (∀ v source, 2 * yaml_depth v + 2 ≤ fuel → terminates (parse_effect_value fuel v source)).
Proof.
  induction fuel as [|fuel [IHs IHe]]; [split; intros v source Hf; lia|].
  assert (∀ v, 2 * yaml_depth v ≤ fuel → step_below (parse_step fuel) (yaml_depth v)) as Hs.
  { intros v Hv v' source Hlt. apply IHs. lia. }
  assert (∀ v, 2 * yaml_depth v ≤ fuel → effect_below (parse_effect_value fuel) (yaml_depth v)) as He.
  { intros v Hv v' source Hlt. apply IHe. lia. }
  split; intros v source Hf; simpl.
  - destruct v; try done; [by terminate|]. apply parse_step_map_terminates; [apply Hs|apply He]; lia.
  - destruct v as [| | | | |m|]; try done; [by terminate|].
    destruct (orchestration_effect _ m source) as [r|] eqn:Eo.
    + unfold orchestration_effect in Eo. destruct m as [|[k body] [|p m]]; try done.
      assert (yaml_depth body < yaml_depth (YMapping [(k, body)])) as Hd.
      { eapply mapping_depth. by left. }
      destruct (trim <$> yaml_as_str k) as [key|]; [|done].
      destruct (String.eqb key "sequential").
      { injection Eo as <-. apply parse_sequential_terminates, He. lia. }
      destruct (String.eqb key "parallel").
      { injection Eo as <-. apply parse_parallel_terminates, He. lia. }
      destruct (String.eqb key "restrict"); [|done]. injection Eo as <-.
      unfold parse_restrict_effect. terminate.
    + apply terminates_bind; [|auto with terminates]. apply IHs. lia.
Qed.

(** C25: parsing a step always ends: on every YAML value the fuel given by the
    entry point suffices, so the parser returns a step, an error or a panic,
    and never stops short. *)
Theorem parse_step_total v source : parse_top_step v source ≠ Err OutOfFuel.
Proof. apply parse_terminates. unfold step_fuel. lia. Qed.

End Terminates.

(** ** The shape of what compiles *)

Section Shape.
Context `{YamlLib} `{UnicodeTables} `{EffectDebug}.

(** Effects that carry no other effect. *)
Definition leaf_ok (e : Effect) : Prop :=
  match e with
  | EPlugin name => name ≠ EmptyString
  | EDelegate d => ds_plugin_name d ≠ EmptyString
  | EElicit s => es_plugin_name s ≠ EmptyString
  | ETaint label scopes => label ≠ EmptyString ∧ scopes ≠ []
  | ERestrict spec => restrict_is_empty spec = false
  | _ => False
  end.

(** Effects of a rule body: control effects, field operations, leaves, and
    blocks of such effects; [parallel:] blocks are pure. *)
Fixpoint body_ok (e : Effect) : Prop :=
  match e with
  | EAllow | EDeny _ _ => True
  | EFieldOp path ss => is_valid_field_path path = true ∧ ss ≠ [] ∧ Forall stage_ok ss
  | ESequential l => l ≠ [] ∧ foldr (λ x P, body_ok x ∧ P) True l
  | EParallel l =>
      l ≠ [] ∧ validate_parallel_purity (EParallel l) = Ok tt
      ∧ foldr (λ x P, body_ok x ∧ P) True l
  | e => leaf_ok e
  end.

(** Top-level effects: guarded bodies, decision points whose reactions are
    top-level effects, and leaves. *)
Fixpoint top_ok (e : Effect) : Prop :=
  match e with
  | EWhen _ body _ => body ≠ [] ∧ Forall body_ok body
  | EPdp _ on_allow on_deny =>
      foldr (λ x P, top_ok x ∧ P) True on_allow ∧ foldr (λ x P, top_ok x ∧ P) True on_deny
  | e => leaf_ok e
  end.

Lemma foldr_Forall {A} (Q : A → Prop) l : foldr (λ x P, Q x ∧ P) True l ↔ Forall Q l.
Proof.
  induction l as [|x l IH]; simpl; [by split|]. rewrite IH. by rewrite Forall_cons.
Qed.

Fixpoint step_ok (s : Step) : Prop :=
  match s with
  | StRule r => r_effects r ≠ [] ∧ Forall body_ok (r_effects r)
  | StPdp _ on_deny on_allow =>
      foldr (λ x P, step_ok x ∧ P) True on_deny ∧ foldr (λ x P, step_ok x ∧ P) True on_allow
  | StPlugin name => name ≠ EmptyString
  | StDelegate d => ds_plugin_name d ≠ EmptyString
  | StElicit e => es_plugin_name e ≠ EmptyString
  | StTaint label scopes => label ≠ EmptyString ∧ scopes ≠ []
  | StRestrict spec => restrict_is_empty spec = false
  end.

Lemma Step_nested_ind (Q : Step → Prop) :
  (∀ r, Q (StRule r)) →
  (∀ c d a, Forall Q d → Forall Q a → Q (StPdp c d a)) →
  (∀ n, Q (StPlugin n)) → (∀ d, Q (StDelegate d)) → (∀ l s, Q (StTaint l s)) →
  (∀ s, Q (StRestrict s)) → (∀ e, Q (StElicit e)) → ∀ s, Q s.
Proof.
  intros Hr Hp Hn Hd Ht Hs He. fix IH 1.
  intros [r|c d a|n|d|l s|s|e]; [apply Hr| |apply Hn|apply Hd|apply Ht|apply Hs|apply He].
  apply Hp; [induction d|induction a]; constructor; auto.
Qed.

Lemma step_to_top_ok s : step_ok s → top_ok (step_to_top_level_effect s).
Proof.
  induction s as [r|c d a IHd IHa|n|d|l sc|s|e] using Step_nested_ind; simpl; try done.
  rewrite !foldr_Forall. intros [Hd Ha]. rewrite !Forall_forall in *.
  split; intros x [y [<- Hy]]%list_elem_of_In%in_map_iff; apply list_elem_of_In in Hy; auto.
Qed.

Lemma body_pure e : body_ok e → validate_parallel_purity e = Ok tt.
Proof.
  induction e as [|r c|n|d|e|l s|sp|p ss|l IH|l IH|c b s IH|c a d IHa IHd] using Effect_nested_ind;
    simpl; try done; [|naive_solver]. rewrite foldr_Forall, Forall_forall. intros [_ Hl].
  rewrite Forall_forall in IH. apply try_all_ok, Forall_forall. intros x Hx. auto.
Qed.

Lemma top_pure e : top_ok e → validate_parallel_purity e = Ok tt.
Proof.
  induction e as [|r c|n|d|e|l s|sp|p ss|l IH|l IH|c b s IH|c a d IHa IHd] using Effect_nested_ind;
    simpl; try done.
  - intros [_ Hb]. apply try_all_ok. eapply Forall_impl; [exact Hb|apply body_pure].
  - rewrite !foldr_Forall, !Forall_forall in *. intros [Ha Hd].
    rewrite !(proj2 (try_all_ok _ _)); [done| |]; apply Forall_forall; naive_solver.
Qed.

(** *** Strings *)

Lemma try_bare_body s es : try_bare_action s = Some es → es ≠ [] ∧ Forall body_ok es.
Proof.
  unfold try_bare_action. destruct (String.eqb _ _).
  { intros [= <-]. split; [done|]. by repeat constructor. }
  destruct (String.eqb _ _); [|done]. intros [= <-]. split; [done|]. by repeat constructor.
Qed.

Lemma deny_call_body s rule e : try_parse_deny_call s rule = Ok (Some e) → body_ok e.
Proof.
  unfold try_parse_deny_call. destruct (negb _); [done|].
  intros (inside & _ & Hd)%result_bind_ok. destruct (split_top_level_commas inside); [|done].
  apply result_bind_ok in Hd as ([r ps] & _ & Hd).
  apply result_bind_ok in Hd as ([cd ps'] & _ & Hd).
  destruct (is_nil ps'); [|done]. by injection Hd as <-.
Qed.

Lemma parse_action_body s rule es : parse_action s rule = Ok es → es ≠ [] ∧ Forall body_ok es.
Proof.
  unfold parse_action. destruct (try_bare_action s) eqn:E; [intros [= <-]; by eapply try_bare_body|].
  intros (d & Hd & Hr)%result_bind_ok. destruct d as [e|]; [|done]. injection Hr as <-.
  split; [done|]. constructor; [by eapply deny_call_body|done].
Qed.

Lemma parse_rule_ok line source r :
  parse_rule line source = Ok r → r_effects r ≠ [] ∧ Forall body_ok (r_effects r).
Proof.
  assert (∀ c s, r_effects (mkRule c [deny_plain] s) ≠ []
            ∧ Forall body_ok (r_effects (mkRule c [deny_plain] s))) as Hplain.
  { intros c s. split; [done|]. by repeat constructor. }
  unfold parse_rule. destruct (is_require_call _).
  { intros (c & _ & [= <-])%result_bind_ok. apply Hplain. }
  destruct (detect_step_kind _); [done|]. destruct (split_predicate_action _) as [[p a]|].
  { intros (es & He & (c & _ & [= <-])%result_bind_ok)%result_bind_ok. by eapply parse_action_body. }
  destruct (try_bare_action _) eqn:E; [intros [= <-]; by eapply try_bare_body|].
  intros (d & Hd & Hr)%result_bind_ok. destruct d as [e|].
  - injection Hr as <-. split; [done|]. constructor; [by eapply deny_call_body|done].
  - apply result_bind_ok in Hr as (c & _ & [= <-]). apply Hplain.
Qed.

Lemma parse_step_string_ok line source s : parse_step_string line source = Ok s → step_ok s.
Proof.
  assert (∀ verb t st, parse_plugin_call verb t = Ok st → step_ok st) as Hplugin.
  { intros verb t st. unfold parse_plugin_call. intros (i & _ & Hr)%result_bind_ok.
    destruct (is_empty_str _) eqn:E; [done|]. injection Hr as <-. by apply is_empty_str_spec. }
  unfold parse_step_string. destruct (starts_with "taint(" _).
  { intros (i & _ & ([l sc] & Ht & [= <-])%result_bind_ok)%result_bind_ok. by eapply parse_taint_ok. }
  destruct (starts_with "plugin(" _); [apply Hplugin|].
  destruct (starts_with "run(" _); [apply Hplugin|].
  destruct (starts_with "delegate(" _).
  { intros (i & _ & (d & Hd & [= <-])%result_bind_ok)%result_bind_ok. simpl.
    unfold parse_delegate_call_args in Hd. destruct (split_top_level_commas i) as [[|n ps]|]; [done| |done].
    destruct (is_empty_str (trim n)); [done|]. destruct (is_empty_str (strip_wrapping_quotes _)) eqn:E; [done|].
    apply result_bind_ok in Hd as ([oe m] & _ & [= <-]). by apply is_empty_str_spec. }
  destruct (elicit_verb_of _) as [[verb kind]|].
  - intros (i & _ & (e & He & [= <-])%result_bind_ok)%result_bind_ok. simpl.
    unfold parse_elicit_call_args in He. destruct (split_top_level_commas i) as [ps|]; [|done].
    destruct (is_empty_str _) eqn:E; [done|].
    apply result_bind_ok in He as (a & _ & (f & _ & [= <-])%result_bind_ok). by apply is_empty_str_spec.
  - intros (r & Hr & [= <-])%result_bind_ok. by eapply parse_rule_ok.
Qed.

Lemma step_to_effect_ok s source e : step_ok s → step_to_effect s source = Ok e → body_ok e.
Proof.
  destruct s as [r|c d a|n|d|l sc|s|el]; simpl; intros Hs; try (by intros [= <-]).
  destruct (not_always _); [done|]. destruct (r_effects r) as [|x [|y l]]; [done| |done].
  intros [= <-]. destruct Hs as [_ Hs]. by inversion Hs.
Qed.

Lemma parse_effect_string_ok s source e : parse_effect_string s source = Ok e → body_ok e.
Proof.
  assert (∀ r, (let? d := try_parse_deny_call (trim s) s in
      match d with
      | Some effect => Ok effect
      | None => let? f := try_parse_field_op (trim s) s in
          match f with
          | Some effect => Ok effect
          | None => let? step := parse_step_string s source in step_to_effect step source
          end
      end) = Ok r → body_ok r) as Hrest.
  { intros r (d & Hd & Hr)%result_bind_ok. destruct d as [x|].
    { injection Hr as <-. by eapply deny_call_body. }
    apply result_bind_ok in Hr as (f & Hf & Hr). destruct f as [x|].
    - injection Hr as <-. unfold try_parse_field_op in Hf.
      destruct (find_top_level_pipe _ _ _ _) as [[p ch]|]; [|done].
      destruct (_ || _); [done|]. destruct (is_valid_field_path _) eqn:Ep; [|done]. simpl in Hf.
      destruct (parse_pipeline _) as [pl|[| |]] eqn:El; try done.
      destruct (is_nil (stages pl)) eqn:En; [done|]. injection Hf as <-. simpl.
      split_and!; [done|by destruct (stages pl)|by eapply pipeline_stages].
    - apply result_bind_ok in Hr as (st & Hst & Hr). eapply step_to_effect_ok; [|exact Hr].
      by eapply parse_step_string_ok. }
  unfold parse_effect_string. destruct (try_bare_action (trim s)) as [[|x [|y l]]|] eqn:E;
    try apply Hrest. intros [= <-]. apply try_bare_body in E as [_ Hb]. by inversion Hb.
Qed.

(** *** Nested values *)

Section Nested.
Context (nested_step : Yaml → string → Parsed Step) (nested_effect : Yaml → string → Parsed Effect).
Context (Hstep : ∀ v source s, nested_step v source = Ok s → step_ok s).
Context (Heffect : ∀ v source e, nested_effect v source = Ok e → body_ok e).

Lemma collect_parsed_Forall {A B} (f : A → Parsed B) (Q : B → Prop) l ys :
  (∀ x y, f x = Ok y → Q y) → collect_parsed f l = Ok ys → Forall Q ys.
Proof.
  intros Hf. revert ys. induction l as [|x l IH]; intros ys; simpl; [by intros [= <-]|].
  intros (y & Hy & (ys' & Hl & [= <-])%result_bind_ok)%result_bind_ok.
  constructor; [by eapply Hf|by apply IH].
Qed.

Lemma effect_list_ok items source es :
  effect_list nested_effect items source = Ok es → Forall body_ok es.
Proof. apply collect_parsed_Forall. intros x y. apply Heffect. Qed.

Lemma effect_list_nonempty items source es :
  effect_list nested_effect items source = Ok es → is_nil items = false → es ≠ [].
Proof. intros Hl%collect_parsed_length. by destruct items, es. Qed.

Lemma parse_sequential_ok body source e :
  parse_sequential_effect nested_effect body source = Ok e → body_ok e.
Proof.
  unfold parse_sequential_effect. intros (items & _ & Hr)%result_bind_ok.
  destruct (is_nil items) eqn:En; [done|]. apply result_bind_ok in Hr as (es & Hl & [= <-]). simpl.
  split; [by eapply effect_list_nonempty|]. apply foldr_Forall. by eapply effect_list_ok.
Qed.

Lemma parse_parallel_ok body source e :
  parse_parallel_effect nested_effect body source = Ok e → body_ok e.
Proof.
  unfold parse_parallel_effect. intros (items & _ & Hr)%result_bind_ok.
  destruct (is_nil items) eqn:En; [done|]. apply result_bind_ok in Hr as (es & Hl & Hr).
  destruct (validate_parallel_purity _) as [[]|] eqn:Ev; [|done]. injection Hr as <-.
  split_and!; [by eapply effect_list_nonempty|done|]. apply foldr_Forall. by eapply effect_list_ok.
Qed.

Lemma parse_do_body_ok val source es : parse_do_body nested_effect val source = Ok es → Forall body_ok es.
Proof.
  destruct val; simpl; try done.
  - intros (e & He & [= <-])%result_bind_ok. constructor; [by eapply parse_effect_string_ok|done].
  - apply effect_list_ok.
  - intros (e & He & [= <-])%result_bind_ok. constructor; [by eapply Heffect|done].
Qed.

Lemma pdp_entries_ok source body a b c d al args :
  Forall step_ok a → Forall step_ok b →
  pdp_entries nested_step source body a b c = Ok (d, al, args) → Forall step_ok d ∧ Forall step_ok al.
Proof.
  assert (∀ v w l, parse_reaction_list nested_step v source w = Ok l → Forall step_ok l) as Hr.
  { intros v w l. unfold parse_reaction_list. intros (items & _ & Hl)%result_bind_ok.
    eapply collect_parsed_Forall; [|exact Hl]. intros x y. apply Hstep. }
  revert a b c. induction body as [|[k v] body IH]; intros a b c Ha Hb; simpl; [by intros [= <- <- <-]|].
  destruct (bool_decide _).
  { intros (l & Hl & Hk)%result_bind_ok. eapply IH; [by eapply Hr|exact Hb|exact Hk]. }
  destruct (bool_decide _); [|by apply IH].
  intros (l & Hl & Hk)%result_bind_ok. eapply IH; [exact Ha|by eapply Hr|exact Hk].
Qed.

Lemma restrict_step_ok v source sp : parse_restrict_spec v source = Ok sp → restrict_is_empty sp = false.
Proof.
  unfold parse_restrict_spec. intros (b & _ & (s & _ & Hr)%result_bind_ok)%result_bind_ok.
  destruct (restrict_is_empty s) eqn:E; [done|]. by injection Hr as <-.
Qed.

Lemma parse_keyed_step_ok key body source s :
  parse_keyed_step nested_step nested_effect key body source = Ok s → step_ok s.
Proof.
  unfold parse_keyed_step.
  match goal with |- match body with YSequence items => if ?c then ?k else _ | _ => _ end = _ → _ =>
    assert (k = Ok s → step_ok s) as Hkeyed
  end.
  { destruct (String.eqb (trim key) "delegate").
    { unfold parse_delegate_step.
      intros (b & _ & (p & _ & (n & _ & Hr)%result_bind_ok)%result_bind_ok)%result_bind_ok.
      destruct (is_empty_str n) eqn:En; [done|].
      apply result_bind_ok in Hr as (oe & _ & [= <-]). by apply is_empty_str_spec. }
    destruct (String.eqb (trim key) "restrict").
    { intros (sp & Hs & [= <-])%result_bind_ok. by eapply restrict_step_ok. }
    destruct (String.eqb (trim key) "sequential").
    { intros (e & He & [= <-])%result_bind_ok. split; [done|].
      constructor; [by eapply parse_sequential_ok|done]. }
    destruct (String.eqb (trim key) "parallel").
    { intros (e & He & [= <-])%result_bind_ok. split; [done|].
      constructor; [by eapply parse_parallel_ok|done]. }
    unfold parse_pdp_step.
    intros ([dl pa] & _ & (b & _ & ([[ar d] al] & Hx & [= <-])%result_bind_ok)%result_bind_ok)%result_bind_ok.
    unfold extract_pdp_body in Hx. apply result_bind_ok in Hx as ([[d' al'] m] & Hp & [= <- <- <-]).
    simpl. rewrite !foldr_Forall. by eapply pdp_entries_ok. }
  destruct body; try exact Hkeyed. destruct (_ || _); [exact Hkeyed|].
  unfold parse_shorthand_multi_effect.
  intros (c & _ & (es & He & Hr)%result_bind_ok)%result_bind_ok. destruct (is_nil es) eqn:En; [done|].
  injection Hr as <-. split; [by destruct es|by eapply effect_list_ok].
Qed.

Lemma parse_step_map_ok m source s :
  parse_step_map nested_step nested_effect m source = Ok s → step_ok s.
Proof.
  unfold parse_step_map. destruct (_ && _).
  - unfold parse_when_do_rule. destruct (stray_key m); [done|].
    intros (p & _ & (c & _ & (es & He & Hr)%result_bind_ok)%result_bind_ok)%result_bind_ok.
    destruct (is_nil es) eqn:En; [done|]. injection Hr as <-.
    split; [by destruct es|by eapply parse_do_body_ok].
  - destruct m as [|[k body] [|p m]]; [done| |done].
    intros (key & _ & Hk)%result_bind_ok. by eapply parse_keyed_step_ok.
Qed.

End Nested.

Lemma parse_shape fuel :
  (∀ v source s, parse_step fuel v source = Ok s → step_ok s)
  ∧ (∀ v source e, parse_effect_value fuel v source = Ok e → body_ok e).
Proof.
  induction fuel as [|fuel [IHs IHe]]; [done|]. split; intros v source x; simpl.
  - destruct v; try done; [apply parse_step_string_ok|by apply parse_step_map_ok].
  - destruct v as [| | |s| |m|]; try done; [apply parse_effect_string_ok|].
    destruct (orchestration_effect _ m source) as [r|] eqn:Eo.
    + unfold orchestration_effect in Eo. destruct m as [|[k body] [|p m]]; try done.
      destruct (trim <$> yaml_as_str k) as [key|]; [|done].
      destruct (String.eqb key "sequential"); [injection Eo as <-; by apply parse_sequential_ok|].
      destruct (String.eqb key "parallel"); [injection Eo as <-; by apply parse_parallel_ok|].
      destruct (String.eqb key "restrict"); [|done]. injection Eo as <-.
      unfold parse_restrict_effect. intros (sp & Hs & [= <-])%result_bind_ok. simpl.
      by eapply restrict_step_ok.
    + intros (st & Hst & Hr)%result_bind_ok. eapply step_to_effect_ok; [|exact Hr]. by eapply IHs.
Qed.

Context `{SerdeApl} `{order : HashOrder}.

Lemma compile_effects_ok source phase entries es :
  compile_effects source phase entries = Ok es → Forall top_ok es.
Proof.
  apply collect_parsed_Forall. intros [i v] e. simpl.
  intros (s & Hs & [= <-])%result_bind_ok. apply step_to_top_ok. by eapply parse_shape.
Qed.

Lemma compile_fields_ok source block fields rules :
  compile_fields source block fields = Ok rules →
  Forall (λ f, Forall stage_ok (stages (fr_pipeline f))) rules.
Proof.
  apply collect_parsed_Forall. intros [field chain] f.
  destruct (parse_pipeline chain) as [p|[| |]] eqn:E; try done. intros [= <-]. simpl.
  by eapply pipeline_stages.
Qed.

(** C6: what compiles is well formed.  In every compiled block the top-level
    effects are guarded bodies, decision points and leaf effects; bodies are
    not empty and hold no nested guard or decision point; names and restricts
    are not empty, field operations address [args] or [result] and have
    stages, no named validator remains; and every effect passes the purity
    check, so no [parallel:] block anywhere holds a mutation. *)
Theorem compiled_block_well_formed source raw route :
  compile_apl_blocks source raw = Ok route →
  Forall (λ e, top_ok e ∧ validate_parallel_purity e = Ok tt) (cr_policy route ++ cr_post_policy route)
  ∧ Forall (λ f, Forall stage_ok (stages (fr_pipeline f))) (cr_args route ++ cr_result route).
Proof.
  unfold compile_apl_blocks. intros ([] & _ & Hc)%result_bind_ok.
  destruct (authorization_of raw) as [apre apost]. destruct (_ && _); [done|].
  destruct (_ && _); [done|].
  apply result_bind_ok in Hc as (pol & Hp & (post & Hq & (args & Ha & (res & Hr & [= <-])%result_bind_ok)
    %result_bind_ok)%result_bind_ok). simpl.
  split; apply Forall_app; split.
  1,2: eapply Forall_impl; [by eapply compile_effects_ok|]; intros e He; split; [done|by apply top_pure].
  - by eapply compile_fields_ok.
  - by eapply compile_fields_ok.
Qed.

(** ** Fail-closed loading *)

Lemma legacy_key_rejected location other old :
  old ∈ RENAMED_FIELDS.*1 → is_Some (other !! old) → ∃ e, reject_legacy_keys location other = Err e.
Proof.
  intros Hin Hs. unfold reject_legacy_keys.
  destruct (find _ RENAMED_FIELDS) as [[o n]|] eqn:E; [by eexists|]. exfalso.
  apply list_elem_of_fmap in Hin as (p & -> & Hp). apply list_elem_of_In in Hp.
  pose proof (find_none _ _ E p Hp) as Hf. simpl in Hf. by apply bool_decide_eq_false in Hf.
Qed.

Lemma compile_routes_spec l out routes :
  compile_routes l out = Ok routes → NoDup l.*1 →
  (∀ k raw, (k, raw) ∈ l → ∃ r, compile_route k raw = Ok r
     ∧ routes !! k = match r with Some route => Some route | None => out !! k end)
  ∧ (∀ k, (k ∉ l.*1) → routes !! k = out !! k).
Proof.
  revert out. induction l as [|[k raw] l IH]; intros out; simpl.
  { intros [= <-] _. split; [by intros k raw ?%not_elem_of_nil|done]. }
  intros (r & Hr & Hl)%result_bind_ok [Hk Hnd]%NoDup_cons.
  destruct (IH _ Hl Hnd) as [Hin Hout]. split.
  - intros k' raw' [[= -> ->]|Hin']%elem_of_cons.
    + exists r. split; [done|]. rewrite Hout by done. destruct r; [apply lookup_insert_eq|done].
    + destruct (Hin k' raw' Hin') as (r' & Hr' & Hk'). exists r'. split; [done|]. rewrite Hk'.
      destruct r' as [route|]; [done|]. destruct r; [|done]. rewrite lookup_insert_ne; [done|].
      intros ->. apply Hk. by apply (list_elem_of_fmap_2 fst _ (k', raw')).
  - intros k' Hk'. apply not_elem_of_cons in Hk' as [Hne Hk']. rewrite Hout by done.
    destruct r; [by rewrite lookup_insert_ne|done].
Qed.

(** C26: Loading a policy file is exact and fails closed: a file that loads has
    no route with a renamed [policy] or [post_policy] key, and its compiled
    routes are precisely the routes that declare a policy block, each the
    compilation of its own block, whatever the iteration order. *)
Theorem compile_config_exact yaml cfg compiled :
  config_yaml_from_str yaml = Ok cfg → compile_config yaml = Ok compiled →
  (∀ k raw, cy_routes cfg !! k = Some raw →
     ry_other raw !! "policy" = None ∧ ry_other raw !! "post_policy" = None
     ∧ if has_apl raw then ∃ route, compile_apl_blocks k raw = Ok route
                                    ∧ cp_routes compiled !! k = Some route
       else cp_routes compiled !! k = None)
  ∧ (∀ k, cy_routes cfg !! k = None → cp_routes compiled !! k = None).
Proof.
  intros Hcfg. unfold compile_config. rewrite Hcfg.
  intros (routes & Hr & [= <-])%result_bind_ok. simpl.
  destruct (compile_routes_spec _ _ _ Hr (map_iter_keys _)) as [Hin Hout]. split.
  - intros k raw Hk. destruct (Hin k raw) as (r & Hc & Hrt).
    { by rewrite map_iter_perm, elem_of_map_to_list. }
    unfold compile_route in Hc. apply result_bind_ok in Hc as ([] & Hl & Hc).
    assert (∀ old, old ∈ RENAMED_FIELDS.*1 → ry_other raw !! old = None) as Hold.
    { intros old Ho. destruct (ry_other raw !! old) eqn:E; [|done].
      destruct (legacy_key_rejected k (ry_other raw) old Ho) as [e He]; [by rewrite E|]. congruence. }
    split_and!; [apply Hold; by left|apply Hold; right; by left|].
    destruct (has_apl raw); simpl in Hc.
    + apply result_bind_ok in Hc as (route & Hc & [= <-]). by exists route.
    + injection Hc as <-. by rewrite Hrt, lookup_empty.
  - intros k Hk. rewrite Hout; [by rewrite lookup_empty|].
    intros ([k' raw] & -> & Hp)%list_elem_of_fmap. rewrite map_iter_perm, elem_of_map_to_list in Hp.
    simpl in Hk. congruence.
Qed.

(** Writing the phases under [authorization:] or flat on the section is the
    same: the two forms compile to the same route or the same error. *)
Theorem authorization_forms_agree source pre post args result plugins other :
  compile_apl_blocks source
    (mkRouteYaml [] [] (Some (mkAuthorization pre post)) args result plugins other)
  = compile_apl_blocks source (mkRouteYaml pre post None args result plugins other).
Proof.
  unfold compile_apl_blocks. simpl. rewrite !andb_false_r. simpl. by rewrite !app_nil_r.
Qed.

End Shape.

(** ** The meaning of [require] *)

Definition truthy (bag : AttributeBag) (key : string) : bool := eval_condition (CIsTrue key) bag.

Lemma is_false_truthy bag key : eval_condition (CIsFalse key) bag = negb (truthy bag key).
Proof. unfold truthy. simpl. by destruct (resolve_key bag key). Qed.

Definition sep_token (is_or : bool) : Tok := if is_or then TOr else TComma.

(** The tokens of [require(k, ks..)]. *)
Definition require_tokens (is_or : bool) (k : string) (ks : list string) : list Tok :=
  TRequire :: TLParen :: TIdent k
    :: flat_map (λ x, [sep_token is_or; TIdent x]) ks ++ [TRParen].

Lemma require_loop_keys line is_or ks sep keys :
  sep = None ∨ sep = Some is_or →
  require_loop line sep keys (flat_map (λ x, [sep_token is_or; TIdent x]) ks ++ [TRParen])
  = Ok (keys ++ ks, if is_nil ks then sep else Some is_or, []).
Proof.
  revert sep keys. induction ks as [|x ks IH]; intros sep keys Hsep; simpl; [by rewrite app_nil_r|].
  assert (match sep with Some prev => Bool.eqb prev is_or | None => true end = true) as Hs
    by (destruct Hsep as [->| ->]; [done|by destruct is_or]).
  destruct is_or; simpl; rewrite Hs, IH by (by right); rewrite <- app_assoc; by destruct ks.
Qed.

(** [require] means what it says: a rule line that lexes to
    [require(k1, .., kn)] compiles to a rule that denies exactly when some key
    is not truthy, and [require(k1 | .. | kn)] to one that denies exactly when
    none is; a key that cannot be resolved counts as not truthy. *)
Theorem require_rule_meaning line source is_or k ks bag :
  is_require_call (trim line) = true →
  tokenize_all (trim line) = Ok (require_tokens is_or k ks) →
  ∃ r, parse_rule line source = Ok r
    ∧ is_deny (evaluate_rules [r] bag)
      = if is_or then forallb (λ x, negb (truthy bag x)) (k :: ks)
        else existsb (λ x, negb (truthy bag x)) (k :: ks).
Proof.
  intros Hreq Htok. unfold parse_rule. rewrite Hreq. unfold parse_require_rule. rewrite Htok. simpl.
  rewrite require_loop_keys by (by left). simpl. eexists. split; [done|]. simpl.
  assert (eval_expression (require_expression (k :: ks) (if is_nil ks then None else Some is_or)) bag
    = if is_or then forallb (λ x, negb (truthy bag x)) (k :: ks)
      else existsb (λ x, negb (truthy bag x)) (k :: ks)) as ->.
  { assert (∀ l, forallb (λ e, eval_expression e bag) (map (λ k, XCondition (CIsFalse k)) l)
              = forallb (λ x, negb (truthy bag x)) l) as Hall.
    { induction l as [|x l IH]; [done|]. simpl. by rewrite <- IH, <- is_false_truthy. }
    assert (∀ l, existsb (λ e, eval_expression e bag) (map (λ k, XCondition (CIsFalse k)) l)
              = existsb (λ x, negb (truthy bag x)) l) as Hex.
    { induction l as [|x l IH]; [done|]. simpl. by rewrite <- IH, <- is_false_truthy. }
    destruct ks as [|x ks].
    - simpl. rewrite <- is_false_truthy. simpl.
      destruct is_or; [by rewrite andb_true_r|by rewrite orb_false_r].
    - destruct is_or; [apply (Hall (k :: x :: ks))|apply (Hex (k :: x :: ks))]. }
  by destruct (if is_or then _ else _).
Qed.

(** ** Witnesses *)

Module Demo.

#[global] Instance plain_yaml : YamlLib :=
  {| debug_yaml _ := "value"; show_yaml_number _ := "number"; yaml_eqb _ _ := false |}.
#[global] Instance ascii_only : UnicodeTables := λ _, false.
#[global] Instance plain_effect : EffectDebug := λ _, "effect".
#[global] Instance in_order : HashOrder :=
  {| set_iter := elements; map_iter := λ A, map_to_list;
     set_iter_perm := λ s, reflexivity _; map_iter_perm := λ A m, reflexivity _ |}.

Definition block : RouteYaml :=
  mkRouteYaml
    [YString "require(authenticated)";
     YMapping [(YString "when", YString "role.hr");
               (YString "do", YSequence [YString "args.ssn | mask(4)";
                                         YMapping [(YString "parallel",
                                           YSequence [YString "plugin(audit)"; YString "allow"])]])];
     YMapping [(YString "cedar", YMapping [(YString "action", YString "read");
                                           (YString "on_deny", YSequence [YString "deny('no')"])])]]
    [] None {[ "id" := "str | len(1..10)" ]} ∅ ∅ ∅.

#[global] Instance one_route : SerdeApl :=
  {| config_yaml_from_str _ := Ok (mkConfigYaml {[ "get_pay" := block ]} [] ∅);
     route_yaml_from_value _ := Ok block |}.

End Demo.

Example compiled_demo :
  compile_apl_blocks "get_pay" Demo.block
  = Ok (mkRoute "get_pay"
      [mkFieldRule "id" (mkPipeline [SType TStr; SLength (Some 1) (Some 10)]) "get_pay.args.id"]
      [EWhen (XCondition (CIsFalse "authenticated")) [EDeny None None] "get_pay.pre_invocation[0]";
       EWhen (XCondition (CIsTrue "role.hr"))
         [EFieldOp "args.ssn" [SMask 4]; EParallel [EPlugin "audit"; EAllow]]
         "get_pay.pre_invocation[1]";
       EPdp (mkPdpCall Cedar (YMapping [(YString "action", YString "read")])) []
         [EWhen XAlways [EDeny (Some "no") None] "get_pay.pre_invocation[2].on_deny[0]"]]
      [] [] ∅ None).
Proof. vm_compute. reflexivity. Qed.

Lemma compiled_block_witness :
  ∃ route, compile_apl_blocks "get_pay" Demo.block = Ok route
    ∧ Forall (λ e, top_ok e ∧ validate_parallel_purity e = Ok tt) (cr_policy route ++ cr_post_policy route).
Proof.
  eexists. split; [apply compiled_demo|].
  apply (compiled_block_well_formed "get_pay" Demo.block). apply compiled_demo.
Defined.

Lemma compile_config_witness :
  ∃ compiled, compile_config "routes: .." = Ok compiled
    ∧ cp_routes compiled !! "other" = None.
Proof.
  destruct (compile_config "routes: ..") as [compiled|e] eqn:E; [|by vm_compute in E].
  exists compiled. split; [done|].
  assert (config_yaml_from_str "routes: .."
          = Ok (mkConfigYaml {[ "get_pay" := Demo.block ]} [] ∅)) as Hcfg by reflexivity.
  by apply (compile_config_exact _ _ _ Hcfg E).
Defined.

Lemma require_rule_witness :
  ∃ r, parse_rule "require(a | b)" "r" = Ok r ∧ is_deny (evaluate_rules [r] bag_new) = true.
Proof.
  apply (require_rule_meaning "require(a | b)" "r" true "a" ["b"] bag_new);
    vm_compute; reflexivity.
Defined.
