(* ===== verification/Evaluator.v ===== *)
(** * Effect evaluation (apl-core/src/evaluator.rs)

    [evaluate_effects], [dispatch_effect] and the handlers of its arms.  The
    [&mut] parameters of the source (bag, accumulators, flags, payload) and the
    world behind the host's invokers form [EvalState], passed explicitly.  The
    host traits are classes over the world [W]; the tokio runtime is the class
    [Runtime] of Orchestration. *)

From S2P Require Import Prelude RustStd F64 Json Yaml Attributes Ir Predicate Pipelines.
From S2P Require Import Orchestration Constraint PredParser.

Local Open Scope string_scope.

(** ** The host's traits (step.rs) *)

Class PdpResolver (W : Type) :=
  pdp_evaluate : PdpCall → AttributeBag → W → Result PdpDecision PdpError * W.

Class DelegationInvoker (W : Type) :=
  delegate : DelegateStep → W → Result DelegationOutcome DelegationError * W.

Class ElicitationInvoker (W : Type) := {
  elicit_dispatch : ElicitStep → string → W → Result ElicitationDispatch ElicitationError * W;
  elicit_check : ElicitStep → string → W → Result ElicitationStatus ElicitationError * W;
  elicit_validate : ElicitStep → string → W → Result ElicitationValidation ElicitationError * W
}.

(** ** State *)

(** [RoutePayload] (route.rs). *)
Record RoutePayload := mkPayload { pl_args : Value; pl_result : option Value }.

Definition payload_new (args : Value) : RoutePayload := mkPayload args None.
Definition payload_with_result (args result : Value) : RoutePayload :=
  mkPayload args (Some result).

(** What the effects of one phase read and write. *)
Record EvalState (W : Type) := mkState {
  s_bag : AttributeBag;
  s_taints : list TaintEvent;
  s_constraints : list CandidateConstraint;
  s_args_modified : bool;
  s_result_modified : bool;
  s_payload : RoutePayload;
  s_world : W
}.
Arguments mkState {W}.
Arguments s_bag {W}.
Arguments s_taints {W}.
Arguments s_constraints {W}.
Arguments s_args_modified {W}.
Arguments s_result_modified {W}.
Arguments s_payload {W}.
Arguments s_world {W}.

Inductive EffectOutcome :=
| Continue
| Halt (d : Decision)
| EPending (p : PendingElicitation).

Definition is_halt (o : EffectOutcome) : bool := match o with Halt _ => true | _ => false end.

Record StepsEvaluation := mkSteps {
  se_decision : Decision;
  se_taints : list TaintEvent;
  se_constraints : list CandidateConstraint;
  se_args_modified : bool;
  se_result_modified : bool;
  se_pending : option PendingElicitation
}.

(** [StepsEvaluation::deny]. *)
Definition steps_deny (d : Decision) (taints : list TaintEvent)
    (constraints : list CandidateConstraint) (args_modified result_modified : bool) :
    StepsEvaluation :=
  mkSteps d taints constraints args_modified result_modified None.

Section State.
Context {W : Type}.
Implicit Types st : EvalState W.

Definition set_bag st (bag : AttributeBag) : EvalState W :=
  mkState bag (s_taints st) (s_constraints st) (s_args_modified st) (s_result_modified st)
    (s_payload st) (s_world st).
Definition set_world st (w : W) : EvalState W :=
  mkState (s_bag st) (s_taints st) (s_constraints st) (s_args_modified st)
    (s_result_modified st) (s_payload st) w.
Definition add_taints st (ts : list TaintEvent) : EvalState W :=
  mkState (s_bag st) (s_taints st ++ ts)%list (s_constraints st) (s_args_modified st)
    (s_result_modified st) (s_payload st) (s_world st).
Definition add_constraints st (cs : list CandidateConstraint) : EvalState W :=
  mkState (s_bag st) (s_taints st) (s_constraints st ++ cs)%list (s_args_modified st)
    (s_result_modified st) (s_payload st) (s_world st).
Definition set_args st (v : Value) : EvalState W :=
  mkState (s_bag st) (s_taints st) (s_constraints st) true (s_result_modified st)
    (mkPayload v (pl_result (s_payload st))) (s_world st).
Definition set_result st (v : Value) : EvalState W :=
  mkState (s_bag st) (s_taints st) (s_constraints st) (s_args_modified st) true
    (mkPayload (pl_args (s_payload st)) (Some v)) (s_world st).

(** The state a phase starts from. *)
Definition state_start (bag : AttributeBag) (payload : RoutePayload) (w : W) : EvalState W :=
  mkState bag [] [] false false payload w.

(** [walk]: the loop every list of effects goes through; the first outcome
    that is not [Continue] ends it. *)
Fixpoint walk (run : Effect → EvalState W → EffectOutcome * EvalState W)
    (effects : list Effect) st : EffectOutcome * EvalState W :=
  match effects with
  | [] => (Continue, st)
  | effect :: effects =>
      let '(o, st) := run effect st in
      match o with
      | Continue => walk run effects st
      | other => (other, st)
      end
  end.

End State.

(** ** Handlers *)

Section Handlers.
Context {W : Type} `{RegexCrate} `{HashText} `{PluginInvoker W} `{DelegationInvoker W}
  `{ElicitationInvoker W}.
Implicit Types st : EvalState W.

(** [Effect::Plugin]. *)
Definition dispatch_plugin (name : string) (phase : DispatchPhase) st :
    EffectOutcome * EvalState W :=
  let '(res, w) := plugin_invoke name (s_bag st) (InvStep phase) (s_world st) in
  let st := set_world st w in
  match res with
  | Ok outcome =>
      let st := add_taints st (po_taints outcome) in
      match po_decision outcome with
      | Allow => (Continue, st)
      | deny => (Halt deny, st)
      end
  | Err e =>
      (Halt (Deny (Some ("plugin `" +:+ name +:+ "` error: " +:+ show_plugin_error e))
                  ("plugin:" +:+ name)), st)
  end.

(** [if let Some(v) = o { bag.set(key, v) }]. *)
Definition set_opt (bag : AttributeBag) (key : string) (o : option string) : AttributeBag :=
  match o with
  | Some v => bag_set bag key (AString v)
  | None => bag
  end.

(** The [delegation.granted.*] keys an allowed delegation writes. *)
Definition record_grant (bag : AttributeBag) (outcome : DelegationOutcome) : AttributeBag :=
  let bag := bag_set bag GRANTED (ABool true) in
  let bag :=
    if is_nil (do_granted_permissions outcome) then bag
    else bag_set bag GRANTED_PERMISSIONS
           (AStringSet (list_to_set (do_granted_permissions outcome))) in
  let bag := set_opt bag GRANTED_AUDIENCE (do_granted_audience outcome) in
  set_opt bag GRANTED_EXPIRES_AT (do_granted_expires_at outcome).

Definition delegate_continues (d : DelegateStep) : bool :=
  String.eqb (to_ascii_lowercase (default "deny" (ds_on_error d))) "continue".

(** [Effect::Delegate]. *)
Definition dispatch_delegate (d : DelegateStep) st : EffectOutcome * EvalState W :=
  let '(res, w) := delegate d (s_world st) in
  let st := set_world st w in
  match res with
  | Ok outcome =>
      match do_decision outcome with
      | Allow => (Continue, set_bag st (record_grant (s_bag st) outcome))
      | deny => if delegate_continues d then (Continue, st) else (Halt deny, st)
      end
  | Err e =>
      if delegate_continues d then (Continue, st)
      else (Halt (Deny (Some ("delegate `" +:+ ds_plugin_name d +:+ "` error: "
                                +:+ show_delegation_error e)) (ds_source d)), st)
  end.

(** [Effect::Restrict]. *)
Definition dispatch_restrict (spec : RestrictSpec) (fallback_source : string) st :
    EffectOutcome * EvalState W :=
  match restrict_resolve spec (s_bag st) with
  | Ok constraint =>
      (Continue, if constraint_is_empty constraint then st else add_constraints st [constraint])
  | Err e => (Halt (Deny (Some (show_restrict_error e)) fallback_source), st)
  end.

(** The side of the payload a [FieldOp] path names, with what follows its
    prefix; [None] when the path has neither prefix. *)
Inductive Side := SideArgs | SideResult.

Definition field_side (path : string) : option (Side * string) :=
  match strip_prefix "args." path with
  | Some rest => Some (SideArgs, rest)
  | None =>
      match strip_prefix "result." path with
      | Some rest => Some (SideResult, rest)
      | None => None
      end
  end.

(** [root]: out-of-phase sides and an absent result are skipped. *)
Definition field_root (side : Side) (phase : DispatchPhase) (p : RoutePayload) : option Value :=
  match side, phase with
  | SideArgs, Pre => Some (pl_args p)
  | SideResult, Post => pl_result p
  | _, _ => None
  end.

(** Writing [root] back through the [&mut] and [mark_modified]. *)
Definition write_root (side : Side) st (v : Value) : EvalState W :=
  match side with SideArgs => set_args st v | SideResult => set_result st v end.

Definition write_back (side : Side) st (upd : Value * bool) : EvalState W :=
  if upd.2 then write_root side st upd.1 else st.

(** [dispatch_field_op]. *)
Definition dispatch_field_op (path : string) (ops : list Stage) (fallback_source : string)
    (phase : DispatchPhase) st : EffectOutcome * EvalState W :=
  match field_side path with
  | None =>
      (Halt (Deny (Some ("FieldOp path `" +:+ path +:+ "` must start with `args.` or `result.`"))
                  fallback_source), st)
  | Some (side, subpath) =>
      match field_root side phase (s_payload st) with
      | None => (Continue, st)
      | Some root =>
          match get_dotted root subpath with
          | None => (Continue, st)
          | Some current =>
              let '(eval, w) :=
                evaluate_pipeline (s_bag st) subpath phase (mkPipeline ops) current (s_world st) in
              let st := add_taints (set_world st w) (ple_taints eval) in
              match ple_outcome eval with
              | FPass => (Continue, st)
              | FReplace v => (Continue, write_back side st (set_dotted root subpath v))
              | FOmit => (Continue, write_back side st (remove_dotted root subpath))
              | FDeny reason _ => (Halt (Deny (Some reason) fallback_source), st)
              end
          end
      end
  end.

(** ** Elicitation *)

Definition elicit_continues (step : ElicitStep) : bool :=
  eq_ignore_ascii_case (default "deny" (es_on_error step)) "continue".

(** The [fail] closure. *)
Definition elicit_fail (step : ElicitStep) (reason : string) : EffectOutcome :=
  if elicit_continues step then Continue else Halt (Deny (Some reason) (es_source step)).

(** [resolved_from], or the failure reason. *)
Definition resolve_from (step : ElicitStep) (bag : AttributeBag) : Result string string :=
  match get_string bag (es_from step) with
  | Some v => Ok v
  | None =>
      if looks_like_attribute_ref (es_from step) then
        Err ("elicitation `from` attribute `" +:+ es_from step
               +:+ "` did not resolve to an identity")
      else Ok (es_from step)
  end.

(** What a first dispatch records. *)
Definition record_dispatch (step : ElicitStep) (bag : AttributeBag) (d : ElicitationDispatch) :
    AttributeBag :=
  let bag := bag_set bag EL_ID (AString (ed_id d)) in
  let bag := bag_set bag EL_STATUS (AString "pending") in
  let bag := set_opt bag EL_CHANNEL (es_channel step) in
  let bag := set_opt bag EL_APPROVER (ed_approver d) in
  let bag := set_opt bag EL_INTENT_ID (ed_intent_id d) in
  set_opt bag EL_EXPIRES_AT (ed_expires_at d).

(** [id]: the one the agent echoes, or the one a dispatch yields. *)
Definition elicit_id (step : ElicitStep) (from : string) st : Result string string * EvalState W :=
  match get_string (s_bag st) EL_ID with
  | Some existing => (Ok existing, st)
  | None =>
      let '(res, w) := elicit_dispatch step from (s_world st) in
      let st := set_world st w in
      match res with
      | Ok d => (Ok (ed_id d), set_bag st (record_dispatch step (s_bag st) d))
      | Err e => (Err ("elicitation dispatch failed: " +:+ show_elicitation_error e), st)
      end
  end.

Definition set_status st (s : string) : EvalState W :=
  set_bag st (bag_set (s_bag st) EL_STATUS (AString s)).

Definition pending_bundle (step : ElicitStep) (id : string) (bag : AttributeBag) :
    PendingElicitation :=
  {| pe_id := id; pe_plugin_name := es_plugin_name step;
     pe_approver := get_string bag EL_APPROVER; pe_intent_id := get_string bag EL_INTENT_ID;
     pe_channel := es_channel step; pe_expires_at := get_string bag EL_EXPIRES_AT;
     pe_source := es_source step |}.

(** The [scope] check: [Err] carries the failure reason. *)
Definition check_scope (step : ElicitStep) (bag : AttributeBag) : Result unit string :=
  match es_scope step with
  | None => Ok tt
  | Some scope_src =>
      match parse_predicate scope_src with
      | Ok expr =>
          if eval_expression expr bag then Ok tt
          else Err ("elicitation scope not satisfied: `" +:+ scope_src +:+ "`")
      | Err e => Err ("elicitation scope `" +:+ scope_src +:+ "` failed to parse: "
                        +:+ show_parse_error e)
      end
  end.

Definition record_approval (bag : AttributeBag) (v : ElicitationValidation) : AttributeBag :=
  let bag := bag_set bag EL_STATUS (AString "resolved") in
  let bag := bag_set bag EL_OUTCOME (AString "approved") in
  let bag := set_opt bag EL_APPROVER (ev_approver v) in
  set_opt bag EL_INTENT_ID (ev_intent_id v).

(** The [Resolved { Approved }] arm. *)
Definition finish_approved (step : ElicitStep) (id : string) st : EffectOutcome * EvalState W :=
  let '(res, w) := elicit_validate step id (s_world st) in
  let st := set_world st w in
  match res with
  | Err e => (elicit_fail step ("elicitation validation failed: " +:+ show_elicitation_error e), st)
  | Ok v =>
      if negb (ev_valid v) then
        (elicit_fail step ("elicitation invalid: "
                             +:+ default "response failed validation" (ev_reason v)), st)
      else
        match check_scope step (s_bag st) with
        | Err why => (elicit_fail step why, st)
        | Ok _ => (Continue, set_bag st (record_approval (s_bag st) v))
        end
  end.

(** The [match status]. *)
Definition finish_elicitation (step : ElicitStep) (id : string) (status : ElicitationStatus) st :
    EffectOutcome * EvalState W :=
  match status with
  | StPending =>
      let st := set_status st "pending" in
      (EPending (pending_bundle step id (s_bag st)), st)
  | StExpired =>
      (elicit_fail step "elicitation expired before a response", set_status st "expired")
  | StResolved Denied =>
      let st := set_status st "resolved" in
      (Halt (Deny (Some "elicitation denied by approver") (es_source step)),
       set_bag st (bag_set (s_bag st) EL_OUTCOME (AString "denied")))
  | StResolved Approved => finish_approved step id st
  end.

(** [dispatch_elicitation]. *)
Definition dispatch_elicitation (step : ElicitStep) st : EffectOutcome * EvalState W :=
  match resolve_from step (s_bag st) with
  | Err why => (elicit_fail step why, st)
  | Ok from =>
      let '(id, st) := elicit_id step from st in
      match id with
      | Err why => (elicit_fail step why, st)
      | Ok id =>
          let '(res, w) := elicit_check step id (s_world st) in
          let st := set_world st w in
          match res with
          | Err e =>
              (elicit_fail step ("elicitation check failed: " +:+ show_elicitation_error e), st)
          | Ok status => finish_elicitation step id status st
          end
      end
  end.

End Handlers.

(** ** The dispatcher *)

Section Dispatch.
Context {W : Type} `{RegexCrate} `{HashText} `{PluginInvoker W} `{DelegationInvoker W}
  `{ElicitationInvoker W} `{PdpResolver W} `{Runtime W}.
Implicit Types st : EvalState W.

(** What a branch hands back: its outcome, taints, constraints, and its world. *)
Record BranchResult := mkBranch {
  br_outcome : EffectOutcome;
  br_taints : list TaintEvent;
  br_constraints : list CandidateConstraint;
  br_world : W
}.

Definition branch_denies (b : BranchResult) : bool := is_halt (br_outcome b).

Definition parallel_config : BranchConfig := mkBranchConfig None true.

(** The branch future: its own bag and payload, fresh accumulators. *)
Definition run_branch (run : Effect → EvalState W → EffectOutcome * EvalState W) st
    (i : nat) (effect : Effect) : BranchResult :=
  let '(o, st') := run effect (state_start (s_bag st) (s_payload st) (rt_fork (s_world st) i)) in
  mkBranch o (s_taints st') (s_constraints st') (s_world st').

(** The aggregation loop over the joined outcomes. *)
Fixpoint aggregate (outcomes : list (BranchOutcome BranchResult)) (first_halt : option Decision)
    st : option Decision * EvalState W :=
  match outcomes with
  | [] => (first_halt, st)
  | Completed b :: outcomes =>
      aggregate outcomes
        (match first_halt, br_outcome b with
         | None, Halt d => Some d
         | _, _ => first_halt
         end)
        (add_constraints (add_taints st (br_taints b)) (br_constraints b))
  | _ :: outcomes => aggregate outcomes first_halt st
  end.

(** [dispatch_parallel] once its branches are built. *)
Definition join_branches (branches : list BranchResult) st : EffectOutcome * EvalState W :=
  match branches with
  | [] => (Continue, st)
  | _ =>
      let sched := rt_schedule (s_world st) (branch_denies <$> branches) in
      let outcomes := run_branches parallel_config branch_denies branches sched in
      let '(first_halt, st) := aggregate outcomes None st in
      let st := set_world st (rt_join (s_world st) (br_world <$> branches)) in
      (match first_halt with Some d => Halt d | None => Continue end, st)
  end.

(** The [Pdp] arm, given how to walk its reactions. *)
Definition dispatch_pdp (call : PdpCall)
    (walk_allow walk_deny : EvalState W → EffectOutcome * EvalState W) st :
    EffectOutcome * EvalState W :=
  let '(res, w) := pdp_evaluate call (s_bag st) (s_world st) in
  let st := set_world st w in
  match res with
  | Ok r =>
      match pd_decision r with
      | Allow => walk_allow st
      | deny =>
          let '(o, st) := walk_deny st in
          (match o with Continue => Halt deny | other => other end, st)
      end
  | Err e =>
      (Halt (Deny (Some ("PDP error: " +:+ show_pdp_error e))
                  ("pdp:" +:+ debug_dialect (pc_dialect call))), st)
  end.

Fixpoint dispatch_effect (phase : DispatchPhase) (effect : Effect) (fallback_source : string) st
    {struct effect} : EffectOutcome * EvalState W :=
  match effect with
  | EAllow => (Continue, st)
  | EDeny reason code => (Halt (Deny reason (option_code code fallback_source)), st)
  | EPlugin name => dispatch_plugin name phase st
  | EDelegate d => dispatch_delegate d st
  | EElicit step => dispatch_elicitation step st
  | ETaint label scopes => (Continue, add_taints st [mkTaint label scopes])
  | ERestrict spec => dispatch_restrict spec fallback_source st
  | EFieldOp path ops => dispatch_field_op path ops fallback_source phase st
  | ESequential effects => walk (λ e st, dispatch_effect phase e fallback_source st) effects st
  | EParallel effects =>
      join_branches
        (run_each (run_branch (λ e st, dispatch_effect phase e fallback_source st) st) 0 effects) st
  | EWhen condition body source =>
      if eval_expression condition (s_bag st) then
        walk (λ e st, dispatch_effect phase e source st) body st
      else (Continue, st)
  | EPdp call on_allow on_deny =>
      dispatch_pdp call
        (walk (λ e st, dispatch_effect phase e fallback_source st) on_allow)
        (walk (λ e st, dispatch_effect phase e fallback_source st) on_deny) st
  end.

(** The source position a top-level effect denies with. *)
Definition top_source (effect : Effect) : string :=
  match effect with EWhen _ _ source => source | _ => EmptyString end.

Definition steps_finish (r : EffectOutcome * EvalState W) : StepsEvaluation :=
  let st := r.2 in
  match r.1 with
  | Halt d =>
      steps_deny d (s_taints st) (s_constraints st) (s_args_modified st) (s_result_modified st)
  | EPending bundle =>
      mkSteps Allow (s_taints st) (s_constraints st) (s_args_modified st) (s_result_modified st)
        (Some bundle)
  | Continue =>
      mkSteps Allow (s_taints st) (s_constraints st) (s_args_modified st) (s_result_modified st)
        None
  end.

(** [evaluate_effects]: the evaluation, and the bag, payload and world the
    caller's [&mut] references are left with. *)
Definition evaluate_effects (effects : list Effect) (phase : DispatchPhase)
    (bag : AttributeBag) (payload : RoutePayload) (w : W) : StepsEvaluation * EvalState W :=
  let r := walk (λ e st, dispatch_effect phase e (top_source e) st) effects
             (state_start bag payload w) in
  (steps_finish r, r.2).

End Dispatch.

Arguments BranchResult : clear implicits.

(** ** A generic invariant of the dispatcher *)

Local Open Scope list_scope.

(** [P] on every leaf of an effect that runs in the enclosing state; the
    children of a [Parallel] run on copies. *)
Fixpoint leaves (P : Effect → bool) (e : Effect) : bool :=
  match e with
  | ESequential l => forallb (leaves P) l
  | EWhen _ body _ => forallb (leaves P) body
  | EPdp _ on_allow on_deny => forallb (leaves P) on_allow && forallb (leaves P) on_deny
  | EParallel _ => true
  | leaf => P leaf
  end.

Lemma leaves_mono (P Q : Effect → bool) (Hpq : ∀ e, P e = true → Q e = true) e :
  leaves P e = true → leaves Q e = true.
Proof.
  assert (∀ l, Forall (λ e, leaves P e = true → leaves Q e = true) l →
          forallb (leaves P) l = true → forallb (leaves Q) l = true) as Hl.
  { intros l Hl. rewrite !forallb_Forall, !Forall_forall in *. auto. }
  induction e as [| | | | | | | |l IH|l _|c b s IH|c a d IHa IHd] using Effect_nested_ind;
    simpl; try (by apply Hpq); try (by apply Hl); [done|].
  rewrite !andb_true_iff. intros []. split; by apply Hl.
Qed.

Section Invariant.
Context {W : Type} `{RegexCrate} `{HashText} `{PluginInvoker W} `{DelegationInvoker W}
  `{ElicitationInvoker W} `{PdpResolver W} `{Runtime W}.
Implicit Types st : EvalState W.

(** A preorder on states that tolerates what every arm may do. *)
Class StateOrder (R : EvalState W → EvalState W → Prop) := {
  so_preorder :: PreOrder R;
  so_world st w : R st (set_world st w);
  so_taints st ts : R st (add_taints st ts);
  so_constraints st cs : R st (add_constraints st cs)
}.

Context (R : EvalState W → EvalState W → Prop) `{!StateOrder R}.
Context (phase : DispatchPhase) (P : Effect → bool).

Lemma walk_invariant (run : Effect → EvalState W → EffectOutcome * EvalState W) l st :
  Forall (λ e, ∀ st, R st (run e st).2) l → R st (walk run l st).2.
Proof.
  intros Hl. revert st. induction Hl as [|e l He _ IH]; intros st; simpl; [reflexivity|].
  specialize (He st). destruct (run e st) as [[| |] st']; simpl in *; [|done|done].
  etrans; [exact He|apply IH].
Qed.

Lemma aggregate_invariant outcomes fh st : R st (aggregate outcomes fh st).2.
Proof.
  revert fh st. induction outcomes as [|[b| | |m] outcomes IH]; intros fh st; simpl;
    [reflexivity| |apply IH|apply IH|apply IH].
  etrans; [|apply IH]. etrans; [apply so_taints|apply so_constraints].
Qed.

Lemma join_branches_invariant branches st : R st (join_branches branches st).2.
Proof.
  unfold join_branches. destruct branches as [|b bs]; [reflexivity|].
  pose proof (aggregate_invariant
    (run_branches parallel_config branch_denies (b :: bs)
       (rt_schedule (s_world st) (branch_denies <$> b :: bs))) None st) as Ha.
  destruct (aggregate _ _ _) as [fh st']. simpl in *. etrans; [exact Ha|apply so_world].
Qed.

Lemma dispatch_plugin_invariant name st : R st (dispatch_plugin name phase st).2.
Proof.
  unfold dispatch_plugin. destruct (plugin_invoke _ _ _ _) as [[o|e] w]; [|apply so_world].
  assert (R st (add_taints (set_world st w) (po_taints o))) as Hr
    by (etrans; [apply so_world|apply so_taints]).
  by destruct (po_decision o).
Qed.

Lemma dispatch_restrict_invariant spec fb st : R st (dispatch_restrict spec fb st).2.
Proof.
  unfold dispatch_restrict. destruct (restrict_resolve _ _); simpl; [|reflexivity].
  destruct (constraint_is_empty _); [reflexivity|apply so_constraints].
Qed.

Lemma dispatch_pdp_invariant call (wa wd : EvalState W → EffectOutcome * EvalState W) st :
  (∀ st, R st (wa st).2) → (∀ st, R st (wd st).2) → R st (dispatch_pdp call wa wd st).2.
Proof.
  intros Ha Hd. unfold dispatch_pdp.
  destruct (pdp_evaluate _ _ _) as [[r|e] w]; simpl; [|apply so_world].
  destruct (pd_decision r).
  - etrans; [apply so_world|apply Ha].
  - specialize (Hd (set_world st w)). destruct (wd (set_world st w)) as [o st'].
    etrans; [apply (so_world st w)|exact Hd].
Qed.

Context (Hdelegate : ∀ d st, P (EDelegate d) = true → R st (dispatch_delegate d st).2).
Context (Helicit : ∀ s st, P (EElicit s) = true → R st (dispatch_elicitation s st).2).
Context (Hfield : ∀ path ops fb st, P (EFieldOp path ops) = true →
  R st (dispatch_field_op path ops fb phase st).2).

Lemma forallb_leaves (run : Effect → EvalState W → EffectOutcome * EvalState W) l :
  Forall (λ e, leaves P e = true → ∀ st, R st (run e st).2) l →
  forallb (leaves P) l = true → Forall (λ e, ∀ st, R st (run e st).2) l.
Proof.
  intros Hl Hp. apply forallb_Forall in Hp. rewrite Forall_forall in *.
  intros e He. by apply Hl, Hp.
Qed.

Lemma dispatch_invariant e fb st :
  leaves P e = true → R st (dispatch_effect phase e fb st).2.
Proof.
  intros Hp. revert fb st Hp.
  induction e as [| | | | | | | |l IH|l _|c b s IH|c a d IHa IHd] using Effect_nested_ind;
    intros fb st Hp; cbn [dispatch_effect].
  - reflexivity.
  - reflexivity.
  - apply dispatch_plugin_invariant.
  - by apply Hdelegate.
  - by apply Helicit.
  - apply so_taints.
  - apply dispatch_restrict_invariant.
  - by apply Hfield.
  - apply walk_invariant, forallb_leaves; [|done].
    eapply Forall_impl; [exact IH|]. naive_solver.
  - apply join_branches_invariant.
  - destruct (eval_expression c (s_bag st)); [|reflexivity].
    apply walk_invariant, forallb_leaves; [|done].
    eapply Forall_impl; [exact IH|]. naive_solver.
  - apply andb_true_iff in Hp as [Hpa Hpd].
    apply dispatch_pdp_invariant; intros st'; apply walk_invariant, forallb_leaves; try done;
      (eapply Forall_impl; [eassumption|]); naive_solver.
Qed.

End Invariant.

(** ** Instances of the invariant *)

Section Orders.
Context {W : Type} `{RegexCrate} `{HashText} `{PluginInvoker W} `{DelegationInvoker W}
  `{ElicitationInvoker W} `{PdpResolver W} `{Runtime W}.
Implicit Types st : EvalState W.

(** The accumulators only grow. *)
Definition grows st st' : Prop :=
  s_taints st `prefix_of` s_taints st' ∧ s_constraints st `prefix_of` s_constraints st'.

#[global] Instance grows_order : StateOrder grows.
Proof.
  constructor; [split| | |]; unfold grows, transitive, Reflexive, Transitive; simpl;
    eauto using prefix_app_r.
  intros st1 st2 st3 [] []. split; by etrans.
Qed.

Lemma grows_bag st bag : grows st (set_bag st bag).
Proof. by split. Qed.

Lemma delegate_order (R : EvalState W → EvalState W → Prop) `{!StateOrder R} d st :
  (∀ st bag, R st (set_bag st bag)) → R st (dispatch_delegate d st).2.
Proof.
  intros Hbag. unfold dispatch_delegate. destruct (delegate _ _) as [[o|e] w].
  - destruct (do_decision o); [|destruct (delegate_continues d); apply so_world].
    etrans; [apply (so_world st w)|apply Hbag].
  - destruct (delegate_continues d); apply so_world.
Qed.

Lemma elicit_order (R : EvalState W → EvalState W → Prop) `{!StateOrder R} s st :
  (∀ st bag, R st (set_bag st bag)) → R st (dispatch_elicitation s st).2.
Proof.
  intros Hbag. unfold dispatch_elicitation.
  assert (∀ id status st, R st (finish_elicitation s id status st).2) as Hfin.
  { clear st. intros id status st. unfold finish_elicitation, finish_approved, set_status.
    destruct status as [|[]|]; simpl; [apply Hbag| | |apply Hbag].
    - destruct (elicit_validate _ _ _) as [[v|e] w]; [|apply so_world].
      destruct (ev_valid v); simpl; [|apply so_world].
      destruct (check_scope _ _); [etrans; [apply (so_world st w)|apply Hbag]|apply so_world].
    - etrans; [apply Hbag|apply Hbag]. }
  destruct (resolve_from _ _) as [from|]; [|reflexivity].
  assert (R st (elicit_id s from st).2) as Hid.
  { unfold elicit_id. destruct (get_string _ _); [reflexivity|].
    destruct (elicit_dispatch _ _ _) as [[d|e] w]; [|apply so_world].
    etrans; [apply (so_world st w)|apply Hbag]. }
  destruct (elicit_id s from st) as [[id|why] st1]; [|done]. simpl in Hid.
  etrans; [exact Hid|]. destruct (elicit_check _ _ _) as [[status|e] w]; [|apply so_world].
  etrans; [apply (so_world st1 w)|apply Hfin].
Qed.

Lemma field_op_order (R : EvalState W → EvalState W → Prop) `{!StateOrder R}
    phase path ops fb st :
  (∀ st side sub root upd,
     field_side path = Some (side, sub) → field_root side phase (s_payload st) = Some root →
     upd.2 = true → R st (write_root side st upd.1)) →
  R st (dispatch_field_op path ops fb phase st).2.
Proof.
  intros Hw. unfold dispatch_field_op. destruct (field_side path) as [[side sub]|] eqn:Es;
    [|reflexivity].
  destruct (field_root side phase (s_payload st)) as [root|] eqn:Er; [|reflexivity].
  destruct (get_dotted root sub) as [cur|]; [|reflexivity].
  destruct (evaluate_pipeline _ _ _ _ _ _) as [ev w].
  set (st1 := add_taints (set_world st w) (ple_taints ev)).
  assert (R st st1) as Hst1 by (etrans; [apply (so_world st w)|apply so_taints]).
  assert (∀ upd, R st (write_back side st1 upd)) as Hb.
  { intros upd. unfold write_back. destruct upd.2 eqn:Eu; [|done].
    etrans; [exact Hst1|]. eapply Hw; [done| |done]. exact Er. }
  destruct (ple_outcome ev); simpl; auto.
Qed.

Lemma grows_field phase path ops fb st :
  grows st (dispatch_field_op path ops fb phase st).2.
Proof. apply field_op_order; [apply _|]. intros ? [] *; by split. Qed.

Lemma leaves_true e : leaves (λ _, true) e = true.
Proof.
  induction e as [| | | | | | | |l IH|l _|c b s IH|c a d IHa IHd] using Effect_nested_ind;
    simpl; try done; rewrite ?andb_true_iff, ?forallb_Forall; auto.
Qed.

Lemma dispatch_grows phase e fb st : grows st (dispatch_effect phase e fb st).2.
Proof.
  apply (dispatch_invariant grows phase (λ _, true)); intros.
  - apply delegate_order; [apply _|apply grows_bag].
  - apply elicit_order; [apply _|apply grows_bag].
  - apply grows_field.
  - apply leaves_true.
Qed.

(** The enclosing state is untouched but for accumulators and world. *)
Definition pure_step st st' : Prop :=
  s_bag st' = s_bag st ∧ s_payload st' = s_payload st
  ∧ s_args_modified st' = s_args_modified st ∧ s_result_modified st' = s_result_modified st.

#[global] Instance pure_order : StateOrder pure_step.
Proof.
  constructor; [split| | |]; unfold pure_step, Reflexive, Transitive; simpl;
    try done.
  intros st1 st2 st3 (?&?&?&?) (?&?&?&?). split_and!; congruence.
Qed.

Definition immutable_leaf (e : Effect) : bool :=
  match e with EFieldOp _ _ | EDelegate _ | EElicit _ => false | _ => true end.

Lemma no_mutation_leaves e : contains_mutation e = false → leaves immutable_leaf e = true.
Proof.
  assert (∀ l, Forall (λ e, contains_mutation e = false → leaves immutable_leaf e = true) l →
          existsb contains_mutation l = false → forallb (leaves immutable_leaf) l = true) as Hl.
  { intros l Hl Hm. apply existsb_false_Forall in Hm. apply forallb_Forall.
    rewrite Forall_forall in *. intros x Hx. apply Hl, Hm; done. }
  induction e as [| | | | | | | |l IH|l _|c b s IH|c a d IHa IHd] using Effect_nested_ind;
    simpl; try done; [by apply Hl|by apply Hl|].
  rewrite orb_false_iff, andb_true_iff. intros []. split; by apply Hl.
Qed.

Lemma dispatch_pure phase e fb st :
  contains_mutation e = false → pure_step st (dispatch_effect phase e fb st).2.
Proof.
  intros Hm. apply (dispatch_invariant pure_step phase immutable_leaf); try done.
  by apply no_mutation_leaves.
Qed.

(** The modification flags are sound, and each phase touches its own side. *)
Definition flags_sound (phase : DispatchPhase) st st' : Prop :=
  (s_args_modified st' = false →
     s_args_modified st = false ∧ pl_args (s_payload st') = pl_args (s_payload st))
  ∧ (s_result_modified st' = false →
     s_result_modified st = false ∧ pl_result (s_payload st') = pl_result (s_payload st))
  ∧ (phase = Pre → s_result_modified st' = s_result_modified st
                   ∧ pl_result (s_payload st') = pl_result (s_payload st))
  ∧ (phase = Post → s_args_modified st' = s_args_modified st
                    ∧ pl_args (s_payload st') = pl_args (s_payload st)).

#[global] Instance flags_order phase : StateOrder (flags_sound phase).
Proof.
  constructor; [split| | |]; unfold flags_sound, Reflexive, Transitive; simpl; try done.
  intros st1 st2 st3 (A1&A2&A3&A4) (B1&B2&B3&B4). split_and!; intros Hx.
  - destruct (B1 Hx) as [Ha ->]. by destruct (A1 Ha).
  - destruct (B2 Hx) as [Ha ->]. by destruct (A2 Ha).
  - destruct (B3 Hx) as [-> ->]. by apply A3.
  - destruct (B4 Hx) as [-> ->]. by apply A4.
Qed.

Lemma dispatch_flags phase e fb st : flags_sound phase st (dispatch_effect phase e fb st).2.
Proof.
  assert (∀ st bag, flags_sound phase st (set_bag st bag)) as Hbag by (intros; by split).
  apply (dispatch_invariant (flags_sound phase) phase (λ _, true)); intros.
  - by apply delegate_order; [apply _|].
  - by apply elicit_order; [apply _|].
  - apply field_op_order; [apply _|]. intros st' [] sub root upd _ Hr _;
      destruct phase; simpl in Hr; try done; unfold flags_sound; simpl; by split_and!.
  - apply leaves_true.
Qed.

End Orders.

(** ** Outcomes *)

Section Outcomes.
Context {W : Type} `{RegexCrate} `{HashText} `{PluginInvoker W} `{DelegationInvoker W}
  `{ElicitationInvoker W} `{PdpResolver W} `{Runtime W}.
Implicit Types st : EvalState W.

(** A [Halt] carries a deny; a suspension only where [pend] permits it. *)
Definition good_outcome (pend : bool) (o : EffectOutcome) : Prop :=
  match o with
  | Continue => True
  | Halt d => is_deny d = true
  | EPending _ => pend = true
  end.

Definition may_suspend (pend : bool) (e : Effect) : bool :=
  match e with EElicit _ => pend | _ => true end.

Lemma walk_outcome pend (run : Effect → EvalState W → EffectOutcome * EvalState W) l st :
  Forall (λ e, ∀ st, good_outcome pend (run e st).1) l → good_outcome pend (walk run l st).1.
Proof.
  intros Hl. revert st. induction Hl as [|e l He _ IH]; intros st; simpl; [done|].
  specialize (He st). destruct (run e st) as [[| |] st']; simpl in *; auto.
Qed.

(** The first halt found is one of the completed branches' own. *)
Lemma aggregate_halt outcomes fh st d :
  (aggregate outcomes fh st).1 = Some d →
  fh = Some d ∨ (fh = None ∧ ∃ b, Completed b ∈ outcomes ∧ br_outcome b = Halt d).
Proof.
  revert fh st. induction outcomes as [|[b| | |m] outcomes IH]; intros fh st; simpl; [auto| | | |];
    intros Hagg; apply IH in Hagg; try set_solver.
  destruct fh as [d0|]; [destruct (br_outcome b); set_solver|].
  destruct (br_outcome b) eqn:Eb; destruct Hagg as [|(_&b'&?&?)]; simplify_eq/=; set_solver.
Qed.

Lemma aggregate_none outcomes fh st :
  (aggregate outcomes fh st).1 = None →
  fh = None ∧ ∀ b, Completed b ∈ outcomes → branch_denies b = false.
Proof.
  revert fh st. induction outcomes as [|[b| | |m] outcomes IH]; intros fh st; simpl;
    [set_solver| |set_solver|set_solver|set_solver].
  intros [Hfh Hall]%IH. unfold branch_denies in *. destruct fh; [done|].
  destruct (br_outcome b) eqn:Eb; simplify_eq/=. all: split; [done|].
  all: intros b' [Hb'|Hb']%elem_of_cons; [simplify_eq; by rewrite Eb|auto].
Qed.

Lemma join_branches_halt branches st d :
  (join_branches branches st).1 = Halt d →
  ∃ b, b ∈ branches ∧ br_outcome b = Halt d.
Proof.
  unfold join_branches. destruct branches as [|b0 bs]; [done|].
  set (sched := rt_schedule _ _). set (all := b0 :: bs).
  destruct (aggregate _ None st) as [[d'|] st'] eqn:E; [|done].
  intros [= ->]. destruct (aggregate_halt _ _ _ _ (f_equal fst E)) as [|(_ & b & Hb & Hd)]; [done|].
  exists b. split; [|done]. by eapply run_branches_completed.
Qed.

Lemma join_branches_no_pending branches st p : (join_branches branches st).1 ≠ EPending p.
Proof.
  unfold join_branches. destruct branches; [done|]. by destruct (aggregate _ _ _) as [[|] ?].
Qed.

Lemma may_suspend_leaves e : leaves (may_suspend true) e = true.
Proof.
  induction e as [| | | | | | | |l IH|l _|c b s IH|c a d IHa IHd] using Effect_nested_ind;
    simpl; try done; rewrite ?andb_true_iff, ?forallb_Forall; auto.
Qed.

Lemma dispatch_outcome pend phase e fb st :
  leaves (may_suspend pend) e = true → good_outcome pend (dispatch_effect phase e fb st).1.
Proof.
  assert (∀ pend l fb, Forall (λ e, ∀ pend fb st, leaves (may_suspend pend) e = true →
                     good_outcome pend (dispatch_effect phase e fb st).1) l →
            forallb (leaves (may_suspend pend)) l = true →
            ∀ st, good_outcome pend (walk (λ e st, dispatch_effect phase e fb st) l st).1) as Hwalk.
  { intros pend' l fb' Hl Hp st'. apply walk_outcome. apply forallb_Forall in Hp.
    rewrite Forall_forall in *. intros x Hx st''. by apply Hl, Hp. }
  revert pend fb st. induction e as [| |n|d|s| |s|p s|l IH|l IH|c b s IH|c a d IHa IHd]
    using Effect_nested_ind; intros pend fb st Hp; cbn [dispatch_effect]; try done.
  - unfold dispatch_plugin. by repeat case_match.
  - unfold dispatch_delegate. by repeat case_match.
  - simpl in Hp. subst pend. unfold dispatch_elicitation, finish_elicitation, finish_approved,
      elicit_fail. by repeat case_match.
  - unfold dispatch_restrict. by repeat case_match.
  - unfold dispatch_field_op. by repeat case_match.
  - by apply Hwalk.
  - destruct (join_branches _ st).1 as [|dd|p] eqn:E; simpl; [done| |].
    + apply join_branches_halt in E as (b & Hb & Hd).
      apply run_each_elem in Hb as (j & x & Hx & ->). unfold run_branch in Hd.
      rewrite Forall_forall in IH. specialize (IH x (list_elem_of_lookup_2 _ _ _ Hx)).
      match type of Hd with context [dispatch_effect phase x fb ?st'] =>
        specialize (IH true fb st' (may_suspend_leaves x));
        destruct (dispatch_effect phase x fb st') as [o st1] end.
      simpl in *. by subst o.
    + by apply join_branches_no_pending in E.
  - destruct (eval_expression c (s_bag st)); [by apply Hwalk|done].
  - simpl in Hp. apply andb_true_iff in Hp as [Hpa Hpd]. unfold dispatch_pdp.
    destruct (pdp_evaluate _ _ _) as [[r|e] w]; [|done]. destruct (pd_decision r).
    + by apply Hwalk.
    + pose proof (Hwalk pend d fb IHd Hpd (set_world st w)) as Hd.
      destruct (walk _ d _) as [[| |] st']; simpl in *; done.
Qed.

End Outcomes.

(** ** Properties *)

Section Properties.
Context {W : Type} `{RegexCrate} `{HashText} `{PluginInvoker W} `{DelegationInvoker W}
  `{ElicitationInvoker W} `{PdpResolver W} `{Runtime W}.
Implicit Types st : EvalState W.

Local Abbreviation top phase := (λ e st, dispatch_effect phase e (top_source e) st).

Lemma walk_app (run : Effect → EvalState W → EffectOutcome * EvalState W) l1 l2 st :
  walk run (l1 ++ l2) st =
  match walk run l1 st with
  | (Continue, st') => walk run l2 st'
  | r => r
  end.
Proof.
  revert st. induction l1 as [|e l1 IH]; intros st; simpl; [done|].
  destruct (run e st) as [[| |] st']; auto.
Qed.

Lemma top_good phase l st : good_outcome true (walk (top phase) l st).1.
Proof.
  apply walk_outcome, Forall_forall. intros e _ st'. apply dispatch_outcome, may_suspend_leaves.
Qed.

Lemma evaluate_effects_app l1 l2 phase bag payload (w : W) :
  let r := evaluate_effects l1 phase bag payload w in
  (is_deny (se_decision r.1) = true ∨ se_pending r.1 ≠ None →
     evaluate_effects (l1 ++ l2) phase bag payload w = r)
  ∧ (se_decision r.1 = Allow ∧ se_pending r.1 = None →
     evaluate_effects (l1 ++ l2) phase bag payload w
     = (let r2 := walk (top phase) l2 r.2 in (steps_finish r2, r2.2))).
Proof.
  unfold evaluate_effects. simpl. rewrite walk_app.
  pose proof (top_good phase l1 (state_start bag payload w)) as Hg.
  destruct (walk _ l1 _) as [[|d|p] st]; simpl in *.
  - split; [|done]. by intros [|].
  - split; [done|]. intros [-> _]. done.
  - split; [done|]. by intros [_ ?].
Qed.

(** C7: the first deny (or suspension) decides a phase: whatever effects
    follow, the evaluation, the bag, the payload and the world are the same,
    so no later plugin, PDP, delegation or field operation runs; and when a
    prefix neither denies nor suspends, the rest is evaluated from the state
    the prefix left. *)
Theorem effects_first_stop l1 l2 phase bag payload (w : W) :
  let r := evaluate_effects l1 phase bag payload w in
  (is_deny (se_decision r.1) = true ∨ se_pending r.1 ≠ None →
     evaluate_effects (l1 ++ l2) phase bag payload w = r)
  ∧ (se_decision r.1 = Allow ∧ se_pending r.1 = None →
     evaluate_effects (l1 ++ l2) phase bag payload w
     = (let r2 := walk (top phase) l2 r.2 in (steps_finish r2, r2.2))).
Proof. apply evaluate_effects_app. Qed.

(** What was recorded before a denial is kept: the taints and constraints
    of a prefix of the effects are a prefix of those of the whole list, denied
    or not. *)
Theorem effects_audit_kept l1 l2 phase bag payload (w : W) :
  se_taints (evaluate_effects l1 phase bag payload w).1
    `prefix_of` se_taints (evaluate_effects (l1 ++ l2) phase bag payload w).1
  ∧ se_constraints (evaluate_effects l1 phase bag payload w).1
    `prefix_of` se_constraints (evaluate_effects (l1 ++ l2) phase bag payload w).1.
Proof.
  unfold evaluate_effects. simpl. rewrite walk_app.
  assert (∀ r : EffectOutcome * EvalState W, se_taints (steps_finish r) = s_taints r.2
    ∧ se_constraints (steps_finish r) = s_constraints r.2) as Hf
    by (intros [[] ?]; done).
  rewrite !(proj1 (Hf _)), !(proj2 (Hf _)).
  destruct (walk _ l1 _) as [[|d|p] st] eqn:E; simpl; [|done|done].
  assert (grows st (walk (top phase) l2 st).2) as [Ht Hc]; [|done].
  apply walk_invariant; [apply _|]. apply Forall_forall. intros e _ st'.
  apply dispatch_grows.
Qed.

Lemma evaluate_effects_flags l phase bag payload (w : W) :
  let '(ev, st) := evaluate_effects l phase bag payload w in
  (se_args_modified ev = false → pl_args (s_payload st) = pl_args payload)
  ∧ (se_result_modified ev = false → pl_result (s_payload st) = pl_result payload)
  ∧ (phase = Pre → pl_result (s_payload st) = pl_result payload ∧ se_result_modified ev = false)
  ∧ (phase = Post → pl_args (s_payload st) = pl_args payload ∧ se_args_modified ev = false).
Proof.
  unfold evaluate_effects.
  assert (flags_sound phase (state_start bag payload w)
            (walk (top phase) l (state_start bag payload w)).2) as Hf.
  { apply walk_invariant; [apply _|]. apply Forall_forall. intros e _ st'.
    apply dispatch_flags. }
  destruct (walk _ l _) as [o st]. destruct Hf as (Ha & Hr & Hpre & Hpost).
  destruct o; simpl in *; split_and!; naive_solver.
Qed.

(** The modification flags the host re-serialises on are sound, and the
    phases keep to their side: an unset flag means the arguments (the result)
    are exactly what came in; a pre-invocation phase never touches the result
    and a post-invocation phase never touches the arguments. *)
Theorem effects_flags_sound l phase bag payload (w : W) :
  let '(ev, st) := evaluate_effects l phase bag payload w in
  (se_args_modified ev = false → pl_args (s_payload st) = pl_args payload)
  ∧ (se_result_modified ev = false → pl_result (s_payload st) = pl_result payload)
  ∧ (phase = Pre → pl_result (s_payload st) = pl_result payload ∧ se_result_modified ev = false)
  ∧ (phase = Post → pl_args (s_payload st) = pl_args payload ∧ se_args_modified ev = false).
Proof. apply evaluate_effects_flags. Qed.

(** Effects the loader accepts inside [parallel:] are pure with respect to
    the request: evaluating a list without field operations, delegations and
    elicitations leaves bag and payload as they were, reports nothing modified
    and never suspends. *)
Theorem control_effects_pure l phase bag payload (w : W) :
  Forall (λ e, contains_mutation e = false) l →
  let '(ev, st) := evaluate_effects l phase bag payload w in
  s_bag st = bag ∧ s_payload st = payload ∧ se_args_modified ev = false
  ∧ se_result_modified ev = false ∧ se_pending ev = None.
Proof.
  intros Hl. unfold evaluate_effects.
  assert (pure_step (state_start bag payload w)
            (walk (top phase) l (state_start bag payload w)).2) as Hp.
  { apply walk_invariant; [apply _|].
    eapply Forall_impl; [exact Hl|]. intros e He st'. by apply dispatch_pure. }
  assert (good_outcome false (walk (top phase) l (state_start bag payload w)).1) as Hg.
  { apply walk_outcome. eapply Forall_impl; [exact Hl|]. intros e He st'.
    apply dispatch_outcome. apply no_mutation_leaves in He.
    assert (∀ x, immutable_leaf x = true → may_suspend false x = true) as Hx by (by intros []).
    by apply (leaves_mono _ _ Hx). }
  destruct (walk _ l _) as [[| |] st], Hp as (?&?&?&?); simpl in *; by split_and!.
Qed.

(** C36: A deny or an error from the policy decision point is never turned into
    a continue by its [on_deny] reactions: the effect halts with a deny, or
    suspends when a reaction elicits; with reactions that cannot elicit it
    always halts. *)
Theorem pdp_deny_stands phase call on_allow on_deny fb st res w' :
  pdp_evaluate call (s_bag st) (s_world st) = (res, w') →
  (∀ r, res = Ok r → is_deny (pd_decision r) = true) →
  let o := (dispatch_effect phase (EPdp call on_allow on_deny) fb st).1 in
  o ≠ Continue
  ∧ (forallb (leaves (may_suspend false)) on_deny = true →
     ∃ d, o = Halt d ∧ is_deny d = true).
Proof.
  intros Hcall Hdeny. cbn [dispatch_effect]. unfold dispatch_pdp. rewrite Hcall.
  destruct res as [r|e]; [|split; [done|]; eauto].
  specialize (Hdeny r eq_refl). destruct (pd_decision r) as [|reason src]; [done|].
  set (run := λ e st, dispatch_effect phase e fb st).
  assert (forallb (leaves (may_suspend false)) on_deny = true →
          good_outcome false (walk run on_deny (set_world st w')).1) as Hg.
  { intros Hl%forallb_Forall. apply walk_outcome. eapply Forall_impl; [exact Hl|].
    intros e He st'. by apply dispatch_outcome. }
  destruct (walk run on_deny (set_world st w')) as [[|d|p] st'] eqn:E; simpl in *.
  - split; [done|]. eauto.
  - split; [done|]. intros Hl. eauto.
  - split; [done|]. intros Hl. by specialize (Hg Hl).
Qed.

(** The branches of a [parallel:] block, each as it evaluates on its own copy. *)
Definition branch_outcome (phase : DispatchPhase) (fb : string) st (i : nat) (e : Effect) :
    EffectOutcome :=
  (dispatch_effect phase e fb
     (state_start (s_bag st) (s_payload st) (rt_fork (s_world st) i))).1.

Definition parallel_branches (phase : DispatchPhase) (fb : string) st (effects : list Effect) :
    list (BranchResult W) :=
  run_each (run_branch (λ e st, dispatch_effect phase e fb st) st) 0 effects.

Lemma branch_outcome_of phase fb st i e :
  br_outcome (run_branch (λ e st, dispatch_effect phase e fb st) st i e)
  = branch_outcome phase fb st i e.
Proof. unfold run_branch, branch_outcome. by destruct (dispatch_effect _ _ _ _). Qed.

(** Branches of a [parallel:] block are isolated: whatever they contain,
    the enclosing bag, payload and modification flags are unchanged, the block
    never suspends, and a deny it reports is one that some branch reached on
    its own copy of the state. *)
Theorem parallel_isolated phase effects fb st :
  let r := dispatch_effect phase (EParallel effects) fb st in
  s_bag r.2 = s_bag st ∧ s_payload r.2 = s_payload st
  ∧ s_args_modified r.2 = s_args_modified st ∧ s_result_modified r.2 = s_result_modified st
  ∧ (∀ p, r.1 ≠ EPending p)
  ∧ (∀ d, r.1 = Halt d →
       ∃ i e, effects !! i = Some e ∧ branch_outcome phase fb st i e = Halt d).
Proof.
  cbn [dispatch_effect]. simpl.
  destruct (join_branches_invariant pure_step
    (parallel_branches phase fb st effects) st) as (?&?&?&?).
  split_and!; try done.
  - intros p. apply join_branches_no_pending.
  - intros d (b & Hb & Hd)%join_branches_halt.
    apply run_each_elem in Hb as (j & e & He & ->). exists j, e. split; [done|].
    by rewrite <-branch_outcome_of.
Qed.

(** A denial in a [parallel:] block is never lost: if some branch denies
    and does not panic, the block halts, whatever order the runtime joins the
    branches in and whichever it cancels. *)
Theorem parallel_denies phase effects fb st i e :
  let branches := parallel_branches phase fb st effects in
  let sched := rt_schedule (s_world st) (branch_denies <$> branches) in
  Schedule_ok parallel_config branch_denies branches sched →
  effects !! i = Some e → is_halt (branch_outcome phase fb st i e) = true →
  (∀ msg, (i, FatePanic msg) ∉ sched) →
  is_halt (dispatch_effect phase (EParallel effects) fb st).1 = true.
Proof.
  intros branches sched Hok He Hh Hnp. cbn [dispatch_effect].
  change (is_halt (join_branches branches st).1 = true).
  assert (branches !! i = Some (run_branch (λ e st, dispatch_effect phase e fb st) st i e)) as Hb
    by (unfold branches, parallel_branches; by rewrite run_each_lookup, He).
  destruct (run_branches_deny_lost_free parallel_config branch_denies branches sched i _
              Hok Hb) as (j & u & Hj & Hu).
  { unfold branch_denies. by rewrite branch_outcome_of. }
  { done. }
  { intros Hin. by destruct (so_timeout _ _ _ _ Hok i Hin). }
  unfold join_branches. destruct branches as [|b0 bs] eqn:Eb; [done|]. fold sched.
  destruct (aggregate _ None st) as [[d|] st'] eqn:Ea; [done|].
  destruct (aggregate_none _ _ _ (f_equal fst Ea)) as [_ Hall].
  rewrite (Hall u) in Hu; [done|]. by eapply list_elem_of_lookup_2.
Qed.

(** What a gate that opens went through. *)
Lemma elicitation_continue step st st' :
  elicit_continues step = false →
  dispatch_elicitation step st = (Continue, st') →
  ∃ from id st1 w2 v w3,
    resolve_from step (s_bag st) = Ok from
    ∧ elicit_id step from st = (Ok id, st1)
    ∧ elicit_check step id (s_world st1) = (Ok (StResolved Approved), w2)
    ∧ elicit_validate step id w2 = (Ok v, w3) ∧ ev_valid v = true
    ∧ check_scope step (s_bag st1) = Ok tt
    ∧ st' = set_world (set_bag st1 (record_approval (s_bag st1) v)) w3.
Proof.
  intros Hc. unfold dispatch_elicitation, elicit_fail. rewrite Hc.
  destruct (resolve_from step (s_bag st)) as [from|] eqn:Ef; [|done].
  destruct (elicit_id step from st) as [[id|] st1] eqn:Ei; [|done].
  destruct (elicit_check step id (s_world st1)) as [[status|] w2] eqn:Ec; [|done].
  unfold finish_elicitation, finish_approved, elicit_fail. rewrite Hc.
  destruct status as [|[]|]; try done.
  destruct (elicit_validate _ _ _) as [[v|] w3] eqn:Ev; [|done].
  destruct (ev_valid v) eqn:Evv; [|done]. simpl.
  destruct (check_scope step (s_bag st1)) as [[]|] eqn:Es; [|done]. intros [= <-].
  by exists from, id, st1, w2, v, w3.
Qed.

(** C21: an elicitation gates: unless the step says [on_error: continue], the
    phase goes on only after the channel reported an approval for the id in
    use, the plugin validated the response as genuine, and the [scope]
    predicate held of the request's attributes; and the bag then records the
    approval. *)
Theorem elicitation_gate step st st' :
  elicit_continues step = false →
  dispatch_elicitation step st = (Continue, st') →
  ∃ from id st1 w2 v w3,
    resolve_from step (s_bag st) = Ok from
    ∧ elicit_id step from st = (Ok id, st1)
    ∧ elicit_check step id (s_world st1) = (Ok (StResolved Approved), w2)
    ∧ elicit_validate step id w2 = (Ok v, w3) ∧ ev_valid v = true
    ∧ check_scope step (s_bag st1) = Ok tt
    ∧ st' = set_world (set_bag st1 (record_approval (s_bag st1) v)) w3.
Proof. apply elicitation_continue. Qed.

(** An approver's refusal always halts, whatever [on_error] says. *)
Theorem elicitation_denial_halts step st from id st1 w2 :
  resolve_from step (s_bag st) = Ok from →
  elicit_id step from st = (Ok id, st1) →
  elicit_check step id (s_world st1) = (Ok (StResolved Denied), w2) →
  ∃ st', dispatch_elicitation step st
         = (Halt (Deny (Some "elicitation denied by approver") (es_source step)), st')
         ∧ get_string (s_bag st') EL_OUTCOME = Some "denied".
Proof.
  intros Hf Hid Hch. unfold dispatch_elicitation. rewrite Hf, Hid, Hch. simpl.
  eexists. split; [done|]. simpl. by rewrite get_string_set_eq.
Qed.

(** Effects whose decision the synchronous walk also computes. *)
Definition control_only (e : Effect) : bool :=
  match e with EAllow | EDeny _ _ | ETaint _ _ => true | _ => false end.

Lemma walk_control phase source l st :
  forallb control_only l = true →
  let r := walk (λ e st, dispatch_effect phase e source st) l st in
  r.1 = match rule_effects l source with Some d => Halt d | None => Continue end
  ∧ s_bag r.2 = s_bag st.
Proof.
  revert st. induction l as [|e l IH]; intros st; [done|].
  cbn [forallb]. rewrite andb_true_iff. intros [He Hl].
  destruct e; try done; [exact (IH _ Hl)|exact (IH (add_taints st _) Hl)].
Qed.

(** The synchronous walk [evaluate_rules] and the effect dispatcher agree:
    for rules whose effects are [allow], [deny] and [taint], evaluating the
    rules as [when] effects yields the same decision. *)
Theorem rules_effects_agree rules phase bag payload (w : W) :
  Forall (λ r, forallb control_only (r_effects r) = true) rules →
  se_decision (evaluate_effects (effect_of_rule <$> rules) phase bag payload w).1
  = evaluate_rules rules bag.
Proof.
  intros Hr. unfold evaluate_effects. cbn [fst].
  change bag with (s_bag (state_start bag payload w)) at 2.
  generalize (state_start bag payload w). induction Hr as [|r rules Hc _ IH]; intros st; [done|].
  cbn [fmap list_fmap effect_of_rule walk dispatch_effect top_source evaluate_rules].
  destruct (eval_expression (r_condition r) (s_bag st)); [|apply IH].
  destruct (walk_control phase (r_source r) (r_effects r) st Hc) as [Ho Hb].
  destruct (walk _ (r_effects r) st) as [o st']. cbn [fst snd] in Ho, Hb. subst o.
  destruct (rule_effects (r_effects r) (r_source r)); [done|]. rewrite <-Hb. apply IH.
Qed.

End Properties.

(** ** Witnesses *)

(** A host with trivial invokers over the world [unit]; the elicitation channel
    answers as told. *)
Section Demo.

#[local] Instance demo_regex : RegexCrate :=
  {| Regex := string; regex_new := Ok; regex_is_match := String.eqb |}.
#[local] Instance demo_hash : HashText :=
  {| json_to_string _ := EmptyString; default_hash _ := 0%Z |}.
#[local] Instance demo_plugins : PluginInvoker unit :=
  λ name _ _ w, (Err (PluginNotFound name), w).
#[local] Instance demo_delegations : DelegationInvoker unit :=
  λ d w, (Err (DelegationNotFound (ds_plugin_name d)), w).
#[local] Instance demo_pdp : PdpResolver unit :=
  λ _ _ w, (Ok (mkPdpDecision (Deny (Some "no") "pdp") []), w).
#[local] Instance demo_runtime : Runtime unit :=
  {| rt_fork w _ := w; rt_schedule _ l := imap (λ i _, (i, FateDone)) l; rt_join w _ := w |}.

Definition demo_channel (outcome : ElicitationOutcome) : ElicitationInvoker unit :=
  {| elicit_dispatch _ _ w := (Ok (mkElicitationDispatch "el-1" None None None), w);
     elicit_check _ _ w := (Ok (StResolved outcome), w);
     elicit_validate _ _ w := (Ok (mkValidation true (Some "alice") None None), w) |}.

Definition demo_step : ElicitStep :=
  mkElicit Approval "ciba" None "alice@corp.com" None (Some "args.amount <= 100") None None
    None "policy[0]".
Definition demo_bag : AttributeBag := bag_set bag_new "args.amount" (AInt 50).
Definition demo_state : EvalState unit := state_start demo_bag (payload_new Null) tt.

Lemma elicitation_denial_witness :
  let _ := demo_channel Denied in
  ∃ st', dispatch_elicitation demo_step demo_state
         = (Halt (Deny (Some "elicitation denied by approver") "policy[0]"), st')
         ∧ get_string (s_bag st') EL_OUTCOME = Some "denied".
Proof.
  intros ch.
  eapply (elicitation_denial_halts demo_step demo_state "alice@corp.com" "el-1");
    reflexivity.
Defined.

#[local] Instance demo_approving : ElicitationInvoker unit := demo_channel Approved.

Lemma elicitation_gate_witness :
  ∃ st', dispatch_elicitation demo_step demo_state = (Continue, st')
         ∧ check_scope demo_step (s_bag demo_state) = Ok tt
         ∧ ∃ from id st1 w2,
             elicit_id demo_step from demo_state = (Ok id, st1)
             ∧ elicit_check demo_step id (s_world st1) = (Ok (StResolved Approved), w2).
Proof.
  eexists. split; [vm_compute; reflexivity|]. split; [vm_compute; reflexivity|].
  destruct (elicitation_gate demo_step demo_state (dispatch_elicitation demo_step demo_state).2)
    as (from & id & st1 & w2 & v & w3 & _ & Hid & Hc & _); [reflexivity|vm_compute; reflexivity|].
  exists from, id, st1, w2. by split.
Defined.

Lemma control_effects_pure_witness :
  s_bag (evaluate_effects [EParallel [ETaint "pii" []; EDeny None None]] Pre demo_bag
           (payload_new Null) tt).2 = demo_bag.
Proof.
  apply (control_effects_pure [EParallel [ETaint "pii" []; EDeny None None]] Pre demo_bag
           (payload_new Null) tt).
  repeat constructor.
Defined.

Lemma pdp_deny_witness :
  (dispatch_effect Pre (EPdp (mkPdpCall Cedar YNull) [] [ETaint "audit" []; EAllow]) EmptyString
     demo_state).1 ≠ Continue.
Proof.
  apply (pdp_deny_stands Pre (mkPdpCall Cedar YNull) [] [ETaint "audit" []; EAllow] EmptyString
           demo_state (Ok (mkPdpDecision (Deny (Some "no") "pdp") [])) tt); [reflexivity|].
  intros r [= <-]. reflexivity.
Defined.

Lemma parallel_denies_witness :
  is_halt (dispatch_effect Pre (EParallel [EAllow; EDeny None None]) EmptyString demo_state).1
  = true.
Proof.
  apply (parallel_denies Pre [EAllow; EDeny None None] EmptyString demo_state 1 (EDeny None None)).
  - constructor.
    + reflexivity.
    + intros pre i post E. exfalso.
      assert ((i, FateCancelled) ∈ (imap (λ i (_ : bool), (i, FateDone)) [false; true])) as Hin
        by (vm_compute in E |- *; rewrite E; set_solver).
      vm_compute in Hin. set_solver.
    + intros i Hin. vm_compute in Hin. set_solver.
  - reflexivity.
  - reflexivity.
  - intros msg Hin. vm_compute in Hin. set_solver.
Defined.

Lemma rules_effects_witness :
  se_decision (evaluate_effects
    (effect_of_rule <$> [mkRule (XCondition (CExists "args.amount")) [EAllow; EDeny None None] "r"])
    Pre demo_bag (payload_new Null) tt).1 = Deny None "r".
Proof.
  rewrite (rules_effects_agree
    [mkRule (XCondition (CExists "args.amount")) [EAllow; EDeny None None] "r"] Pre demo_bag
    (payload_new Null) tt); [vm_compute; reflexivity|repeat constructor].
Defined.

End Demo.
