(* ===== verification/Route.v ===== *)
(** * Route phases (apl-core/src/route.rs)

    [evaluate_pre], [evaluate_post] and [evaluate_route]: the field-rule loop
    over one side of the payload, then the effects of the phase.  Bag, payload
    and world are what the caller's [&mut] references are left with. *)

From S2P Require Import Prelude RustStd F64 Json Yaml Attributes Ir Predicate Pipelines.
From S2P Require Import Orchestration Constraint PredParser Evaluator.

Local Open Scope list_scope.

Record RouteDecision := mkRouteDecision {
  rd_decision : Decision;
  rd_taints : list TaintEvent;
  rd_constraints : list CandidateConstraint;
  rd_args_modified : bool;
  rd_result_modified : bool;
  rd_pending : option PendingElicitation
}.

(** The caller's bag, payload and world after a call. *)
Record RouteState (W : Type) := mkRouteState {
  rst_bag : AttributeBag;
  rst_payload : RoutePayload;
  rst_world : W
}.
Arguments mkRouteState {W}.
Arguments rst_bag {W}.
Arguments rst_payload {W}.
Arguments rst_world {W}.

Section Route.
Context {W : Type} `{RegexCrate} `{HashText} `{PluginInvoker W} `{DelegationInvoker W}
  `{ElicitationInvoker W} `{PdpResolver W} `{Runtime W}.

(** The locals of a field loop: the side being rewritten, the taints, the
    modified flag and the world. *)
Record FieldLoop := mkFieldLoop {
  fl_root : Value;
  fl_taints : list TaintEvent;
  fl_modified : bool;
  fl_world : W
}.

Definition fl_update (s : FieldLoop) (upd : Value * bool) : FieldLoop :=
  if upd.2 then mkFieldLoop upd.1 (fl_taints s) true (fl_world s) else s.

(** [for rule in &route.args] and [for rule in &route.result]: [Some] is the
    deny of the early return. *)
Fixpoint run_field_rules (bag : AttributeBag) (phase : DispatchPhase) (rules : list FieldRule)
    (s : FieldLoop) : option Decision * FieldLoop :=
  match rules with
  | [] => (None, s)
  | rule :: rules =>
      match get_dotted (fl_root s) (fr_field rule) with
      | None => run_field_rules bag phase rules s
      | Some current =>
          let '(eval, w) :=
            evaluate_pipeline bag (fr_field rule) phase (fr_pipeline rule) current (fl_world s) in
          let s := mkFieldLoop (fl_root s) (fl_taints s ++ ple_taints eval) (fl_modified s) w in
          match ple_outcome eval with
          | FPass => run_field_rules bag phase rules s
          | FReplace v =>
              run_field_rules bag phase rules
                (fl_update s (set_dotted (fl_root s) (fr_field rule) v))
          | FOmit =>
              run_field_rules bag phase rules
                (fl_update s (remove_dotted (fl_root s) (fr_field rule)))
          | FDeny reason _ => (Some (Deny (Some reason) (fr_source rule)), s)
          end
      end
  end.

Definition evaluate_pre (route : CompiledRoute) (st : RouteState W) :
    RouteDecision * RouteState W :=
  let payload := rst_payload st in
  let '(deny, s) :=
    run_field_rules (rst_bag st) Pre (cr_args route)
      (mkFieldLoop (pl_args payload) [] false (rst_world st)) in
  let payload := mkPayload (fl_root s) (pl_result payload) in
  match deny with
  | Some d =>
      (mkRouteDecision d (fl_taints s) [] (fl_modified s) false None,
       mkRouteState (rst_bag st) payload (fl_world s))
  | None =>
      let '(ev, est) :=
        evaluate_effects (cr_policy route) Pre (rst_bag st) payload (fl_world s) in
      (mkRouteDecision (se_decision ev) (fl_taints s ++ se_taints ev) (se_constraints ev)
         (fl_modified s || se_args_modified ev) false (se_pending ev),
       mkRouteState (s_bag est) (s_payload est) (s_world est))
  end.

(** The [result] half of [evaluate_post]; without a result nothing runs. *)
Definition run_result_rules (route : CompiledRoute) (st : RouteState W) :
    option Decision * (list TaintEvent * bool * RoutePayload * W) :=
  let payload := rst_payload st in
  match pl_result payload with
  | None => (None, ([], false, payload, rst_world st))
  | Some result =>
      let '(deny, s) :=
        run_field_rules (rst_bag st) Post (cr_result route)
          (mkFieldLoop result [] false (rst_world st)) in
      (deny, (fl_taints s, fl_modified s, mkPayload (pl_args payload) (Some (fl_root s)),
              fl_world s))
  end.

Definition evaluate_post (route : CompiledRoute) (st : RouteState W) :
    RouteDecision * RouteState W :=
  let '(deny, (taints, modified, payload, w)) := run_result_rules route st in
  match deny with
  | Some d =>
      (mkRouteDecision d taints [] false modified None, mkRouteState (rst_bag st) payload w)
  | None =>
      let '(ev, est) := evaluate_effects (cr_post_policy route) Post (rst_bag st) payload w in
      (mkRouteDecision (se_decision ev) (taints ++ se_taints ev) (se_constraints ev)
         false (modified || se_result_modified ev) (se_pending ev),
       mkRouteState (s_bag est) (s_payload est) (s_world est))
  end.

Definition evaluate_route (route : CompiledRoute) (st : RouteState W) :
    RouteDecision * RouteState W :=
  let '(pre, st1) := evaluate_pre route st in
  if is_deny (rd_decision pre) || bool_decide (is_Some (rd_pending pre)) then (pre, st1)
  else
    let '(post, st2) := evaluate_post route st1 in
    (mkRouteDecision (rd_decision post) (rd_taints pre ++ rd_taints post)
       (rd_constraints pre ++ rd_constraints post) (rd_args_modified pre)
       (rd_result_modified post) (rd_pending post), st2).

(** ** Lemmas *)

Lemma run_field_rules_sound bag phase rules s :
  let r := run_field_rules bag phase rules s in
  (fl_modified r.2 = false → fl_modified s = false ∧ fl_root r.2 = fl_root s)
  ∧ fl_taints s `prefix_of` fl_taints r.2
  ∧ (∀ d, r.1 = Some d → is_deny d = true).
Proof.
  revert s. induction rules as [|rule rules IH]; intros s; cbn [run_field_rules]; [done|].
  destruct (get_dotted (fl_root s) (fr_field rule)) as [cur|]; [|apply IH].
  destruct (evaluate_pipeline _ _ _ _ _ _) as [ev w].
  set (s1 := mkFieldLoop _ _ _ w).
  assert (∀ s2, (fl_modified s2 = false → fl_modified s = false ∧ fl_root s2 = fl_root s) →
    fl_taints s2 = fl_taints s1 →
    let r := run_field_rules bag phase rules s2 in
    (fl_modified r.2 = false → fl_modified s = false ∧ fl_root r.2 = fl_root s)
    ∧ fl_taints s `prefix_of` fl_taints r.2 ∧ (∀ d, r.1 = Some d → is_deny d = true)) as Hgo.
  { intros s2 Hm Ht. destruct (IH s2) as (Hm' & Ht' & Hd). simpl. split_and!; [| |done].
    - intros Hf. destruct (Hm' Hf) as [Hf' ->]. by apply Hm.
    - etrans; [|exact Ht']. rewrite Ht. by apply prefix_app_r. }
  assert (∀ upd, (fl_modified (fl_update s1 upd) = false →
                  fl_modified s = false ∧ fl_root (fl_update s1 upd) = fl_root s)
                 ∧ fl_taints (fl_update s1 upd) = fl_taints s1) as Hupd
    by (intros [v []]; unfold fl_update; simpl; by split).
  destruct (ple_outcome ev).
  - by apply Hgo.
  - by apply Hgo; apply Hupd.
  - by apply Hgo; apply Hupd.
  - simpl. split_and!; [done|by apply prefix_app_r|]. by intros d [= <-].
Qed.

Lemma evaluate_effects_deny_pending l phase bag payload (w : W) :
  is_deny (se_decision (evaluate_effects l phase bag payload w).1) = true →
  se_pending (evaluate_effects l phase bag payload w).1 = None.
Proof.
  unfold evaluate_effects. simpl. by destruct (walk _ l _) as [[] ?].
Qed.

Lemma evaluate_pre_sound route st :
  let '(rd, st') := evaluate_pre route st in
  (rd_args_modified rd = false → pl_args (rst_payload st') = pl_args (rst_payload st))
  ∧ rd_result_modified rd = false
  ∧ pl_result (rst_payload st') = pl_result (rst_payload st).
Proof.
  unfold evaluate_pre.
  destruct (run_field_rules_sound (rst_bag st) Pre (cr_args route)
    (mkFieldLoop (pl_args (rst_payload st)) [] false (rst_world st))) as (Hm & _ & _).
  destruct (run_field_rules _ _ _ _) as [[d|] s]; cbn [fst snd fl_modified fl_root] in *.
  { split_and!; [|done|done]. intros Hf. by destruct (Hm Hf). }
  pose proof (evaluate_effects_flags (cr_policy route) Pre (rst_bag st)
    (mkPayload (fl_root s) (pl_result (rst_payload st))) (fl_world s)) as Hfl.
  destruct (evaluate_effects _ _ _ _ _) as [ev est]. simpl in *.
  destruct Hfl as (Ha & _ & Hr & _). split_and!; [|done|by apply Hr].
  intros [Hf1 Hf2]%orb_false_iff. rewrite (Ha Hf2). by destruct (Hm Hf1).
Qed.

Lemma run_result_rules_sound route st :
  let '(deny, (taints, modified, payload, w)) := run_result_rules route st in
  (modified = false → pl_result payload = pl_result (rst_payload st))
  ∧ pl_args payload = pl_args (rst_payload st)
  ∧ (∀ d, deny = Some d → is_deny d = true).
Proof.
  unfold run_result_rules. destruct (pl_result (rst_payload st)) as [result|] eqn:Er; [|done].
  destruct (run_field_rules_sound (rst_bag st) Post (cr_result route)
    (mkFieldLoop result [] false (rst_world st))) as (Hm & _ & Hd).
  destruct (run_field_rules _ _ _ _) as [deny s]. simpl in *. split_and!; [|done|done].
  intros Hf. by destruct (Hm Hf) as [_ ->].
Qed.

Lemma evaluate_post_sound route st :
  let '(rd, st') := evaluate_post route st in
  (rd_result_modified rd = false → pl_result (rst_payload st') = pl_result (rst_payload st))
  ∧ rd_args_modified rd = false
  ∧ pl_args (rst_payload st') = pl_args (rst_payload st).
Proof.
  unfold evaluate_post. pose proof (run_result_rules_sound route st) as Hrr.
  destruct (run_result_rules route st) as [[d|] [[[taints m] payload] w]];
    destruct Hrr as (Hm & Hargs & _); [done|].
  pose proof (evaluate_effects_flags (cr_post_policy route) Post (rst_bag st) payload w) as Hfl.
  destruct (evaluate_effects _ _ _ _ _) as [ev est]. simpl in *.
  destruct Hfl as (_ & Hr & _ & Ha). split_and!; [|done|].
  - intros [Hf1 Hf2]%orb_false_iff. rewrite (Hr Hf2). by apply Hm.
  - destruct (Ha eq_refl) as [-> _]. done.
Qed.

(** Over a whole route the host's re-serialisation flags are sound: an
    unset [args_modified] ([result_modified]) means the arguments (the result)
    come out as they went in; and when the inbound half denies or suspends,
    the outbound half does not run: decision, taints and constraints are the
    inbound half's and the result is untouched. *)
Theorem route_modified_sound route st :
  let '(rd, st') := evaluate_route route st in
  let '(pre, st1) := evaluate_pre route st in
  (rd_args_modified rd = false → pl_args (rst_payload st') = pl_args (rst_payload st))
  ∧ (rd_result_modified rd = false → pl_result (rst_payload st') = pl_result (rst_payload st))
  ∧ (is_deny (rd_decision pre) = true ∨ is_Some (rd_pending pre) →
     rd = pre ∧ st' = st1 ∧ rd_result_modified rd = false
     ∧ pl_result (rst_payload st') = pl_result (rst_payload st)).
Proof.
  unfold evaluate_route. pose proof (evaluate_pre_sound route st) as Hpre.
  destruct (evaluate_pre route st) as [pre st1]. destruct Hpre as (Ha & Hrm & Hr).
  destruct (is_deny (rd_decision pre) || _) eqn:Estop; [by split_and!|].
  pose proof (evaluate_post_sound route st1) as Hpost.
  destruct (evaluate_post route st1) as [post st2]. destruct Hpost as (Hr2 & _ & Ha2). simpl.
  split_and!.
  - intros Hf. rewrite Ha2. by apply Ha.
  - intros Hf. rewrite (Hr2 Hf). done.
  - apply orb_false_iff in Estop as [Ed Ep]. apply bool_decide_eq_false in Ep.
    intros [Hd|Hp]; [congruence|done].
Qed.

(** A policy that denies leaves the effects behind it unrun. *)
Lemma policy_deny_final l more phase bag payload (w : W) :
  is_deny (se_decision (evaluate_effects l phase bag payload w).1) = true →
  evaluate_effects (l ++ more) phase bag payload w = evaluate_effects l phase bag payload w.
Proof.
  intros Hd. destruct (evaluate_effects_app l more phase bag payload w) as [Hstop _].
  apply Hstop. by left.
Qed.

Lemma layered_pre_deny base more st :
  cr_args more = [] → is_deny (rd_decision (evaluate_pre base st).1) = true →
  evaluate_pre (apply_layer base more) st = evaluate_pre base st.
Proof.
  intros Hargs. unfold evaluate_pre. cbn [apply_layer cr_args cr_policy]. rewrite Hargs.
  unfold layer_fields. rewrite filter_every by (intros ? _; apply not_elem_of_empty).
  rewrite app_nil_r.
  destruct (run_field_rules _ _ _ _) as [[d|] s]; [done|]. intros Hd.
  rewrite policy_deny_final; [done|]. revert Hd. by destruct (evaluate_effects (cr_policy base) _ _ _ _).
Qed.

End Route.

(** ** Layers and the plugins they configure

    The invokers of a request are made from the dispatch plan of the effective
    route, whose plugin overrides come from every layer. *)
Section Planned.
Context {W : Type} `{RegexCrate} `{HashText} `{PdpResolver W} `{Runtime W}.
Context (plugins_of : CompiledRoute → PluginInvoker W).
Context (delegations_of : CompiledRoute → DelegationInvoker W).
Context (elicitations_of : CompiledRoute → ElicitationInvoker W).

(** A route, or a list of effects, run with the plugins that [planned] plans. *)
Definition effects_under (planned : CompiledRoute) (l : list Effect) (phase : DispatchPhase)
    (bag : AttributeBag) (payload : RoutePayload) (w : W) : StepsEvaluation * EvalState W :=
  let _ := plugins_of planned in let _ := delegations_of planned in
  let _ := elicitations_of planned in evaluate_effects l phase bag payload w.
Definition pre_under (planned route : CompiledRoute) (st : RouteState W) :
    RouteDecision * RouteState W :=
  let _ := plugins_of planned in let _ := delegations_of planned in
  let _ := elicitations_of planned in evaluate_pre route st.

(** C24: a deny by a less specific layer's policy is final.  With the plugins as the
    effective route configures them, if the base policy denies then, whatever
    route or group is layered on top, the effective policy denies with the same
    decision, taints and constraints and none of the added effects run; and if
    the layer on top declares no argument pipelines, a request the base route
    denies on its way in is denied with the same route decision, bag, payload
    and world.  If the layer does not change what the plugins answer, that is
    the deny of the base route on its own; a layer that overrides a plugin the
    base policy calls can change the answer, and so lift the deny
    ([override_lifts_deny]). *)
Theorem base_policy_deny_final base more :
  let route := apply_layer base more in
  (∀ phase bag payload w,
     is_deny (se_decision (effects_under route (cr_policy base) phase bag payload w).1) = true →
     effects_under route (cr_policy route) phase bag payload w
     = effects_under route (cr_policy base) phase bag payload w)
  ∧ (∀ st, cr_args more = [] → is_deny (rd_decision (pre_under route base st).1) = true →
       pre_under route route st = pre_under route base st)
  ∧ (∀ st, plugins_of route = plugins_of base → delegations_of route = delegations_of base →
       elicitations_of route = elicitations_of base → cr_args more = [] →
       is_deny (rd_decision (pre_under base base st).1) = true →
       pre_under route route st = pre_under base base st).
Proof.
  intros route. split_and!.
  - intros phase bag payload w. apply policy_deny_final.
  - intros st. apply layered_pre_deny.
  - intros st Hp Hd He Ha. unfold pre_under. rewrite Hp, Hd, He. by apply layered_pre_deny.
Qed.

End Planned.
Arguments FieldLoop : clear implicits.

(** ** Witness *)

Section Demo.

#[local] Instance demo_regex : RegexCrate :=
  {| Regex := string; regex_new := Ok; regex_is_match := String.eqb |}.
#[local] Instance demo_hash : HashText :=
  {| json_to_string _ := EmptyString; default_hash _ := 0%Z |}.
#[local] Instance demo_plugins : PluginInvoker unit :=
  λ name _ _ w, (Err (PluginNotFound name), w).
#[local] Instance demo_delegations : DelegationInvoker unit :=
  λ d w, (Err (DelegationNotFound (ds_plugin_name d)), w).
#[local] Instance demo_pdp : PdpResolver unit :=
  λ _ _ w, (Err (PdpDispatch "down"), w).
#[local] Instance demo_runtime : Runtime unit :=
  {| rt_fork w _ := w; rt_schedule _ _ := []; rt_join w _ := w |}.
#[local] Instance demo_channel : ElicitationInvoker unit :=
  {| elicit_dispatch s _ w := (Err (ElicitationNotFound (es_plugin_name s)), w);
     elicit_check s _ w := (Err (ElicitationNotFound (es_plugin_name s)), w);
     elicit_validate s _ w := (Err (ElicitationNotFound (es_plugin_name s)), w) |}.

Definition base_route : CompiledRoute :=
  mkRoute "tools/*" [] [EPdp (mkPdpCall Cedar YNull) [] []] [] [] ∅ None.

Lemma base_policy_deny_witness :
  let more := mkRoute "tools/x" [] [EAllow; ETaint "late" []] [] [] ∅ None in
  pre_under (λ _, demo_plugins) (λ _, demo_delegations) (λ _, demo_channel)
    (apply_layer base_route more) (apply_layer base_route more)
    (mkRouteState bag_new (payload_new Null) tt)
  = pre_under (λ _, demo_plugins) (λ _, demo_delegations) (λ _, demo_channel)
      base_route base_route (mkRouteState bag_new (payload_new Null) tt).
Proof.
  apply (base_policy_deny_final (λ _, demo_plugins) (λ _, demo_delegations) (λ _, demo_channel)
           base_route); [reflexivity..|]. vm_compute. reflexivity.
Defined.

(** A guard that denies unless the plan overrides its configuration. *)
Definition guard_of (planned : CompiledRoute) : PluginInvoker unit :=
  λ name _ _ w,
    (Ok (mkPluginOutcome
           (match cr_plugin_overrides planned !! name with
            | Some _ => Allow
            | None => Deny (Some "guarded") "guard"
            end) [] None), w).

(** The base policy calls the guard; the layer only overrides its configuration. *)
Example override_lifts_deny :
  let base := mkRoute "tools/*" [] [EPlugin "guard"] [] [] ∅ None in
  let more := mkRoute "tools/x" [] [] [] [] {[ "guard" := mkPluginOverride (Some YNull) None None ]} None in
  let run route :=
    is_deny (rd_decision (pre_under guard_of (λ _, demo_delegations) (λ _, demo_channel) route route
      (mkRouteState bag_new (payload_new Null) tt)).1) in
  run base = true ∧ run (apply_layer base more) = false.
Proof. by vm_compute. Qed.

End Demo.
