(* ===== verification/ExtData.v ===== *)
(** * Extension data (cpex-core/src/extensions/*.rs)

    The structs behind the extension slots.  A [HashMap] is a [gmap], a
    [HashSet] (and the add-only [MonotonicSet]) a [gset], a chrono instant a
    [Z] of nanoseconds, a [Zeroizing<String>] its string. *)

From S2P Require Import Prelude F64 Json.

(** ** Immutable slots *)

Record RequestExtension := mkRequest {
  rq_environment : option string;
  rq_request_id : option string;
  rq_timestamp : option string;
  rq_trace_id : option string;
  rq_span_id : option string
}.

Record ConversationContext := mkConversation {
  cv_history : list Value;
  cv_summary : option string;
  cv_topics : list string
}.

Record AgentExtension := mkAgent {
  ag_input : option string;
  ag_session_id : option string;
  ag_conversation_id : option string;
  ag_turn : option Z;
  ag_agent_id : option string;
  ag_parent_agent_id : option string;
  ag_conversation : option ConversationContext
}.

Record ToolMetadata := mkTool {
  tl_name : string;
  tl_title : option string;
  tl_description : option string;
  tl_input_schema : option Value;
  tl_output_schema : option Value;
  tl_server_id : option string;
  tl_namespace : option string;
  tl_annotations : gmap string Value
}.

Record ResourceMetadata := mkResource {
  rm_uri : string;
  rm_name : option string;
  rm_description : option string;
  rm_mime_type : option string;
  rm_server_id : option string;
  rm_annotations : gmap string Value
}.

Record PromptMetadata := mkPrompt {
  pm_name : string;
  pm_description : option string;
  pm_arguments : option (list Value);
  pm_server_id : option string;
  pm_annotations : gmap string Value
}.

Record MCPExtension := mkMcp {
  mcp_tool : option ToolMetadata;
  mcp_resource : option ResourceMetadata;
  mcp_prompt : option PromptMetadata
}.

Inductive StopReason := StopEnd | StopReturn | StopCall | StopMaxTokens | StopSequence.

Record TokenUsage := mkTokenUsage {
  tu_input_tokens : Z;
  tu_output_tokens : Z;
  tu_total_tokens : Z
}.

Record CompletionExtension := mkCompletion {
  co_stop_reason : option StopReason;
  co_tokens : option TokenUsage;
  co_model : option string;
  co_raw_format : option string;
  co_created_at : option string;
  co_latency_ms : option Z
}.

Record ProvenanceExtension := mkProvenance {
  pv_source : option string;
  pv_message_id : option string;
  pv_parent_id : option string
}.

Record LLMExtension := mkLlm {
  llm_model_id : option string;
  llm_provider : option string;
  llm_capabilities : list string
}.

Record FrameworkExtension := mkFramework {
  fw_framework : option string;
  fw_framework_version : option string;
  fw_node_id : option string;
  fw_graph_id : option string;
  fw_metadata : gmap string Value
}.

Record MetaExtension := mkMeta {
  mt_entity_type : option string;
  mt_entity_name : option string;
  mt_tags : gset string;
  mt_scope : option string;
  mt_properties : gmap string string
}.

(** ** HTTP *)

Record HttpExtension := mkHttp {
  ht_request_headers : gmap string string;
  ht_response_headers : gmap string string;
  ht_method : option string;
  ht_path : option string;
  ht_host : option string;
  ht_scheme : option string
}.

Definition http_default : HttpExtension := mkHttp ∅ ∅ None None None None.

(** ** Security *)

Inductive SubjectType := SubjUser | SubjAgent | SubjService | SubjSystem.

Record SubjectExtension := mkSubject {
  sj_id : option string;
  sj_subject_type : option SubjectType;
  sj_roles : gset string;
  sj_permissions : gset string;
  sj_teams : gset string;
  sj_claims : gmap string string
}.

Record ObjectSecurityProfile := mkObjectProfile {
  ob_managed_by : option string;
  ob_permissions : list string;
  ob_trust_domain : option string;
  ob_data_scope : list string
}.

Record RetentionPolicy := mkRetention {
  rt_max_age_seconds : option Z;
  rt_policy : string;
  rt_delete_after : option string
}.

Record DataPolicy := mkDataPolicy {
  dp_apply_labels : list string;
  dp_allowed_actions : option (list string);
  dp_denied_actions : list string;
  dp_retention : option RetentionPolicy
}.

Inductive ClientTrustLevel :=
| FirstParty | ThirdParty | InternalClient | CustomTrust (s : string).

Record ClientExtension := mkClient {
  cl_client_id : string;
  cl_client_name : option string;
  cl_trust_level : ClientTrustLevel;
  cl_authorized_scopes : list string;
  cl_authorized_audiences : list string;
  cl_roles : list string;
  cl_permissions : list string;
  cl_teams : list string;
  cl_claims : gmap string Value
}.

Record WorkloadIdentity := mkWorkload {
  wl_spiffe_id : option string;
  wl_trust_domain : option string;
  wl_attested_at : option Z;
  wl_attestor : option string;
  wl_selectors : list string;
  wl_client_id : option string
}.

Record SecurityExtension := mkSecurity {
  sc_labels : gset string;
  sc_classification : option string;
  sc_subject : option SubjectExtension;
  sc_client : option ClientExtension;
  sc_caller_workload : option WorkloadIdentity;
  sc_this_workload : option WorkloadIdentity;
  sc_auth_method : option string;
  sc_objects : gmap string ObjectSecurityProfile;
  sc_data : gmap string DataPolicy
}.

Definition security_default : SecurityExtension :=
  mkSecurity ∅ None None None None None None ∅ ∅.

(** [MonotonicSet::add_label] on the labels of a [SecurityExtension]. *)
Definition add_label (s : SecurityExtension) (label : string) : SecurityExtension :=
  mkSecurity ({[ label ]} ∪ sc_labels s) (sc_classification s) (sc_subject s) (sc_client s)
    (sc_caller_workload s) (sc_this_workload s) (sc_auth_method s) (sc_objects s) (sc_data s).

(** ** Delegation *)

Record AuthorizationDetail := mkAuthDetail {
  ad_detail_type : string;
  ad_locations : option (list string);
  ad_actions : option (list string);
  ad_datatypes : option (list string);
  ad_identifier : option string;
  ad_privileges : option (list string);
  ad_extra : gmap string Value
}.

Inductive DelegationStrategy :=
| TokenExchange | ClientCredentials | SpiffeSvid | Passthrough | UcanStrategy | TransactionToken
| CustomStrategy (s : string).

Record DelegationHop := mkHop {
  dh_subject_id : string;
  dh_subject_type : option SubjectType;
  dh_audience : option string;
  dh_scopes_granted : list string;
  dh_authorization_details : list AuthorizationDetail;
  dh_timestamp : Z;
  dh_ttl_seconds : option Z;
  dh_strategy : option DelegationStrategy;
  dh_from_cache : bool
}.

Record DelegationExtension := mkDelegation {
  dg_chain : list DelegationHop;
  dg_depth : Z;
  dg_origin_subject_id : option string;
  dg_actor_subject_id : option string;
  dg_delegated : bool;
  dg_age_seconds : f64
}.

Definition delegation_default : DelegationExtension :=
  mkDelegation [] 0 None None false (f64_of_Z 0).

(** [len() as u32]. *)
Definition len_u32 {A} (l : list A) : Z := u32_wrap (Z.of_nat (length l)).

(** [DelegationExtension::append_hop]. *)
Definition append_hop (d : DelegationExtension) (hop : DelegationHop) : DelegationExtension :=
  let chain := dg_chain d ++ [hop] in
  mkDelegation chain (len_u32 chain) (dg_origin_subject_id d) (dg_actor_subject_id d) true
    (dg_age_seconds d).

(** ** Raw credentials *)

Inductive TokenRole := RoleUser | RoleClient | RoleCallerWorkload | RoleCustom (s : string).
Inductive TokenKind := KindJwt | KindOpaque | KindSpiffeJwt | KindUcan | KindTxnToken.
Inductive DelegationMode := OnBehalfOfUser | AsClient | AsCallerWorkload | AsThisWorkload.

Record RawInboundToken := mkInbound {
  it_token : string;
  it_source_header : string;
  it_kind : TokenKind
}.

Record DelegationKey := mkDelegationKey {
  dk_subject_id : string;
  dk_workload_id : option string;
  dk_client_id : option string;
  dk_audience : string;
  dk_scopes : list string;
  dk_mode : DelegationMode
}.

Record RawDelegatedToken := mkDelegated {
  dt_token : string;
  dt_outbound_header : string;
  dt_audience : string;
  dt_scopes : list string;
  dt_expires_at : Z
}.

#[global] Instance SubjectType_eq_dec : EqDecision SubjectType.
Proof. solve_decision. Defined.
#[global] Instance DelegationStrategy_eq_dec : EqDecision DelegationStrategy.
Proof. solve_decision. Defined.
#[global] Instance TokenRole_eq_dec : EqDecision TokenRole.
Proof. solve_decision. Defined.
#[global] Instance DelegationMode_eq_dec : EqDecision DelegationMode.
Proof. solve_decision. Defined.
#[global] Instance DelegationKey_eq_dec : EqDecision DelegationKey.
Proof. solve_decision. Defined.

#[global] Instance TokenRole_countable : Countable TokenRole.
Proof.
  refine (inj_countable
    (λ r, match r with
          | RoleUser => inl 0%nat | RoleClient => inl 1%nat
          | RoleCallerWorkload => inl 2%nat | RoleCustom s => inr s end)
    (λ x, match x with
          | inl 0%nat => Some RoleUser | inl 1%nat => Some RoleClient
          | inl _ => Some RoleCallerWorkload | inr s => Some (RoleCustom s) end) _).
  by intros [].
Defined.

#[global] Instance DelegationMode_countable : Countable DelegationMode.
Proof.
  refine (inj_countable
    (λ m, match m with
          | OnBehalfOfUser => 0%nat | AsClient => 1%nat
          | AsCallerWorkload => 2%nat | AsThisWorkload => 3%nat end)
    (λ n, Some (match n with
          | 0 => OnBehalfOfUser | 1 => AsClient | 2 => AsCallerWorkload | _ => AsThisWorkload
          end)%nat) _).
  by intros [].
Defined.

#[global] Instance DelegationKey_countable : Countable DelegationKey.
Proof.
  refine (inj_countable
    (λ k, (dk_subject_id k, dk_workload_id k, dk_client_id k, dk_audience k, dk_scopes k,
           dk_mode k))
    (λ '(s, w, c, a, sc, m), Some (mkDelegationKey s w c a sc m)) _).
  by intros [].
Defined.

Record RawCredentialsExtension := mkRawCredentials {
  rc_inbound_tokens : gmap TokenRole RawInboundToken;
  rc_delegated_tokens : gmap DelegationKey RawDelegatedToken
}.
