(* ===== verification/Headers.v ===== *)
(** * Headers and labels (cpex-core/src/extensions/{http,monotonic,security}.rs)

    Case-insensitive header access, where a lookup takes the first match in the
    iteration order of the header map, and the add-only label set.
    [str::to_lowercase] is the class [UnicodeLower]. *)

From S2P Require Import Prelude RustStd F64 Json ExtData.

Local Open Scope string_scope.

Section Headers.
Context `{order : HashOrder} `{UnicodeLower}.
Implicit Types (h : HttpExtension) (headers : gmap string string).

(** ** Header maps *)

Definition same_name (name k : string) : bool := String.eqb (to_lowercase k) (to_lowercase name).

Definition get_header_ci headers (name : string) : option string :=
  snd <$> List.find (λ p, same_name name p.1) (map_iter headers).

Definition remove_header_ci headers (name : string) : option string * gmap string string :=
  match List.find (λ p, same_name name p.1) (map_iter headers) with
  | Some (k, _) => (headers !! k, delete k headers)
  | None => (None, headers)
  end.

Definition with_request_headers h headers : HttpExtension :=
  mkHttp headers (ht_response_headers h) (ht_method h) (ht_path h) (ht_host h) (ht_scheme h).
Definition with_response_headers h headers : HttpExtension :=
  mkHttp (ht_request_headers h) headers (ht_method h) (ht_path h) (ht_host h) (ht_scheme h).

Definition set_request_header h (name value : string) : HttpExtension :=
  with_request_headers h (<[name := value]> (ht_request_headers h)).
Definition get_request_header h (name : string) : option string :=
  get_header_ci (ht_request_headers h) name.
Definition has_request_header h (name : string) : bool := negb (is_none (get_request_header h name)).

Definition add_request_header h (name value : string) : bool * HttpExtension :=
  if has_request_header h name then (false, h)
  else (true, with_request_headers h (<[name := value]> (ht_request_headers h))).

Definition remove_request_header h (name : string) : option string * HttpExtension :=
  let '(removed, headers) := remove_header_ci (ht_request_headers h) name in
  (removed, with_request_headers h headers).

Definition set_response_header h (name value : string) : HttpExtension :=
  with_response_headers h (<[name := value]> (ht_response_headers h)).
Definition get_response_header h (name : string) : option string :=
  get_header_ci (ht_response_headers h) name.
Definition has_response_header h (name : string) : bool := negb (is_none (get_response_header h name)).

(** ** Labels *)

Definition has_label (s : SecurityExtension) (label : string) : bool :=
  existsb (λ l, String.eqb (to_lowercase l) (to_lowercase label)) (set_iter (sc_labels s)).

(** ** Lemmas *)

(** No two headers of the map differ in case only. *)
Definition distinct_names headers : Prop :=
  ∀ j k, is_Some (headers !! j) → is_Some (headers !! k) → to_lowercase j = to_lowercase k → j = k.

Lemma get_header_some headers name v :
  get_header_ci headers name = Some v → ∃ k, headers !! k = Some v ∧ to_lowercase k = to_lowercase name.
Proof.
  unfold get_header_ci. destruct (List.find _ _) as [[k w]|] eqn:E; [|done]. intros [= <-].
  apply find_some in E as [Hin Hn]. apply list_elem_of_In, map_iter_elem in Hin.
  exists k. split; [done|]. by apply String.eqb_eq.
Qed.

Lemma get_header_none headers name :
  get_header_ci headers name = None ↔ ∀ k, is_Some (headers !! k) → to_lowercase k ≠ to_lowercase name.
Proof.
  unfold get_header_ci. destruct (List.find _ _) as [[k w]|] eqn:E; simpl; split; try done.
  - intros Hn. apply find_some in E as [Hin Hk]. apply list_elem_of_In, map_iter_elem in Hin.
    apply String.eqb_eq in Hk. destruct (Hn k); [by eexists|done].
  - intros _ k [v Hv] Hk. apply map_iter_elem, list_elem_of_In in Hv.
    pose proof (find_none _ _ E _ Hv) as Hf. simpl in Hf. unfold same_name in Hf.
    by rewrite Hk, String.eqb_refl in Hf.
Qed.

Lemma get_header_exact headers name k v :
  distinct_names headers → headers !! k = Some v → to_lowercase k = to_lowercase name →
  get_header_ci headers name = Some v.
Proof.
  intros Hd Hk Hn. destruct (get_header_ci headers name) as [w|] eqn:E.
  - apply get_header_some in E as (k' & Hk' & Hn'). assert (k' = k) as -> by (apply Hd; eauto; congruence).
    congruence.
  - exfalso. eapply (proj1 (get_header_none _ _) E k); eauto.
Qed.

Lemma add_request_distinct h name value added h' :
  add_request_header h name value = (added, h') →
  distinct_names (ht_request_headers h) → distinct_names (ht_request_headers h').
Proof.
  unfold add_request_header, has_request_header.
  destruct (get_request_header h name) eqn:E; simpl; [by intros [= <- <-]|].
  intros [= <- <-] Hd j k. simpl.
  pose proof (proj1 (get_header_none _ _) E) as Hn. clear E.
  rewrite !lookup_insert_is_Some'.
  intros [<-|Hj] [<-|Hk] He; [done| | |by apply Hd]; exfalso; by eapply Hn.
Qed.

Lemma remove_request_distinct h name removed h' :
  remove_request_header h name = (removed, h') →
  distinct_names (ht_request_headers h) → distinct_names (ht_request_headers h').
Proof.
  unfold remove_request_header, remove_header_ci.
  destruct (List.find _ _) as [[k v]|]; intros [= <- <-]; [|done]. simpl. intros Hd i j.
  rewrite !lookup_delete_is_Some. intros [_ Hi] [_ Hj]. by apply Hd.
Qed.

(** ** Properties *)

(** On headers built with [add_request_header] and [remove_request_header]
    names are unique up to case, whatever the order of operations, and a lookup
    in any spelling then gives the value added last and not removed. *)
Theorem headers_case_insensitive h name value :
  distinct_names (ht_request_headers h) →
  let '(added, h') := add_request_header h name value in
  let '(removed, h'') := remove_request_header h' name in
  distinct_names (ht_request_headers h')
  ∧ (∀ other, to_lowercase other = to_lowercase name →
       get_request_header h' other = (if added then Some value else get_request_header h other)
       ∧ get_request_header h'' other = None)
  ∧ removed = get_request_header h' name.
Proof.
  intros Hd. destruct (add_request_header h name value) as [added h'] eqn:Ea.
  destruct (remove_request_header h' name) as [removed h''] eqn:Er.
  pose proof (add_request_distinct _ _ _ _ _ Ea Hd) as Hd'. split; [done|].
  assert (∀ headers, distinct_names headers → ∀ k v, List.find (λ p, same_name name p.1) (map_iter headers) = Some (k, v) →
     headers !! k = Some v ∧ to_lowercase k = to_lowercase name) as Hfind.
  { intros headers _ k v Hf. apply find_some in Hf as [Hin Hk]. apply list_elem_of_In, map_iter_elem in Hin.
    split; [done|]. by apply String.eqb_eq. }
  split.
  - intros other Ho. split.
    + unfold add_request_header in Ea. destruct (has_request_header h name) eqn:Eh; injection Ea as <- <-; [done|].
      eapply get_header_exact; [exact Hd'|apply lookup_insert_eq|done].
    + unfold remove_request_header, remove_header_ci in Er.
      destruct (List.find _ _) as [[k v]|] eqn:Ef; injection Er as <- <-; apply get_header_none; simpl.
      * destruct (Hfind _ Hd' k v Ef) as [Hk Hn]. intros j [Hjk Hj]%lookup_delete_is_Some Heq.
        apply Hjk, Hd'; [by eexists|done|congruence].
      * intros j Hj Heq. destruct Hj as [w Hw]. apply map_iter_elem, list_elem_of_In in Hw.
        pose proof (find_none _ _ Ef _ Hw) as Hf. simpl in Hf. unfold same_name in Hf.
        rewrite Heq, Ho, String.eqb_refl in Hf. done.
  - unfold remove_request_header, remove_header_ci in Er. unfold get_request_header, get_header_ci.
    destruct (List.find _ _) as [[k v]|] eqn:Ef; injection Er as <- <-; [|done].
    by destruct (Hfind _ Hd' k v Ef) as [-> _].
Qed.

(** Labels only accumulate, and are found in any spelling. *)
Lemma has_label_add s label other :
  to_lowercase other = to_lowercase label →
  has_label (add_label s label) other = true
  ∧ ∀ l, has_label s l = true → has_label (add_label s label) l = true.
Proof.
  intros Ho. unfold has_label. split.
  - apply existsb_exists. exists label. rewrite Ho, String.eqb_refl. split; [|done].
    apply list_elem_of_In, set_iter_elem. set_solver.
  - intros l. rewrite !existsb_exists. intros (x & Hx & Hl). exists x. split; [|done].
    apply list_elem_of_In, set_iter_elem. apply list_elem_of_In, set_iter_elem in Hx. set_solver.
Qed.

End Headers.

(** ** Shadowed headers *)

Module HeaderDemo.

#[local] Instance ascii_lower : UnicodeLower := to_ascii_lowercase.
#[local] Instance in_order : HashOrder :=
  {| set_iter := elements; map_iter := λ A, map_to_list;
     set_iter_perm := λ s, reflexivity _; map_iter_perm := λ A m, reflexivity _ |}.

Definition one_header : HttpExtension :=
  mkHttp {[ "Authorization" := "old" ]} ∅ None None None None.

Lemma headers_witness :
  distinct_names (ht_request_headers one_header)
  ∧ get_request_header (add_request_header one_header "X-Id" "1").2 "x-id" = Some "1".
Proof.
  assert (distinct_names (ht_request_headers one_header)) as Hd.
  { intros j k. simpl. rewrite !lookup_singleton_is_Some. congruence. }
  split; [exact Hd|]. pose proof (headers_case_insensitive one_header "X-Id" "1" Hd) as Ht.
  destruct (add_request_header one_header "X-Id" "1") as [added h'] eqn:Ea.
  destruct (remove_request_header h' "X-Id") as [removed h''].
  destruct Ht as (_ & Hl & _). simpl. destruct (Hl "x-id") as [-> _]; [reflexivity|].
  by vm_compute in Ea; injection Ea as <- _.
Defined.

(** [set_request_header] inserts under the spelling it is given: the header it
    is meant to overwrite stays, and can be the one a lookup returns. *)
Lemma set_header_shadowed :
  let h := set_request_header one_header "AUTHORIZATION" "new" in
  size (ht_request_headers h) = 2 ∧ get_request_header h "authorization" = Some "old".
Proof. vm_compute. done. Qed.

End HeaderDemo.
