(* ===== verification/Extensions.v ===== *)
(** * Extension containers and capability filtering

    cpex-core/src/extensions: the container and its merge (container.rs), the
    slot policies and filtered views (filter.rs, tiers.rs), write tokens
    (guarded.rs).  An [Arc] is a pointer identity with its value where the code
    compares pointers (the immutable slots), and the value alone where it
    never does. *)

From S2P Require Import Prelude RustStd F64 Json Routing ExtData.

Local Open Scope string_scope.

(** ** Data *)

Record Arc (T : Type) := mkArc { arc_ptr : nat; arc_val : T }.
Arguments mkArc {T}.
Arguments arc_ptr {T}.
Arguments arc_val {T}.

Definition arc_ptr_eq {T} (a b : Arc T) : bool := (arc_ptr a =? arc_ptr b)%nat.

(** [WriteToken]: a capability proof without data. *)
Inductive WriteToken := write_token_new.

(** [Guarded<T>]. *)
Record Guarded (T : Type) := guarded_new { guarded_inner : T }.
Arguments guarded_new {T}.
Arguments guarded_inner {T}.

Record Extensions := mkExtensions {
  x_request : option (Arc RequestExtension);
  x_agent : option (Arc AgentExtension);
  x_http : option HttpExtension;
  x_security : option SecurityExtension;
  x_candidate_constraint : option CandidateConstraintExtension;
  x_delegation : option DelegationExtension;
  x_raw_credentials : option RawCredentialsExtension;
  x_mcp : option (Arc MCPExtension);
  x_completion : option (Arc CompletionExtension);
  x_provenance : option (Arc ProvenanceExtension);
  x_llm : option (Arc LLMExtension);
  x_framework : option (Arc FrameworkExtension);
  x_meta : option (Arc MetaExtension);
  x_custom : option (gmap string Value);
  x_http_write_token : option WriteToken;
  x_labels_write_token : option WriteToken;
  x_delegation_write_token : option WriteToken
}.

Record OwnedExtensions := mkOwned {
  o_request : option (Arc RequestExtension);
  o_agent : option (Arc AgentExtension);
  o_mcp : option (Arc MCPExtension);
  o_completion : option (Arc CompletionExtension);
  o_provenance : option (Arc ProvenanceExtension);
  o_llm : option (Arc LLMExtension);
  o_framework : option (Arc FrameworkExtension);
  o_meta : option (Arc MetaExtension);
  o_raw_credentials : option RawCredentialsExtension;
  o_http : option (Guarded HttpExtension);
  o_security : option SecurityExtension;
  o_candidate_constraint : option CandidateConstraintExtension;
  o_delegation : option DelegationExtension;
  o_custom : option (gmap string Value);
  o_http_write_token : option WriteToken;
  o_labels_write_token : option WriteToken;
  o_delegation_write_token : option WriteToken
}.

Definition extensions_default : Extensions :=
  mkExtensions None None None None None None None None None None None None None None
    None None None.

(** [impl Clone for Extensions]: tokens are not cloned. *)
Definition extensions_clone (e : Extensions) : Extensions :=
  mkExtensions (x_request e) (x_agent e) (x_http e) (x_security e) (x_candidate_constraint e)
    (x_delegation e) (x_raw_credentials e) (x_mcp e) (x_completion e) (x_provenance e) (x_llm e)
    (x_framework e) (x_meta e) (x_custom e) None None None.

(** A fresh token where there was one. *)
Definition remint (t : option WriteToken) : option WriteToken :=
  match t with Some _ => Some write_token_new | None => None end.

Definition cow_copy (e : Extensions) : OwnedExtensions :=
  {| o_request := x_request e; o_agent := x_agent e; o_mcp := x_mcp e;
     o_completion := x_completion e; o_provenance := x_provenance e; o_llm := x_llm e;
     o_framework := x_framework e; o_meta := x_meta e;
     o_raw_credentials := x_raw_credentials e;
     o_http := guarded_new <$> x_http e; o_security := x_security e;
     o_candidate_constraint := x_candidate_constraint e; o_delegation := x_delegation e;
     o_custom := x_custom e;
     o_http_write_token := remint (x_http_write_token e);
     o_labels_write_token := remint (x_labels_write_token e);
     o_delegation_write_token := remint (x_delegation_write_token e) |}.

(** ** Validation *)

Definition ptr_eq_opt {T} (a b : option (Arc T)) : bool :=
  match a, b with
  | Some a, Some b => arc_ptr_eq a b
  | None, None => true
  | _, None => true
  | None, Some _ => false
  end.

Definition validate_immutable (e : Extensions) (modified : OwnedExtensions) : bool :=
  ptr_eq_opt (x_request e) (o_request modified)
  && ptr_eq_opt (x_agent e) (o_agent modified)
  && ptr_eq_opt (x_mcp e) (o_mcp modified)
  && ptr_eq_opt (x_completion e) (o_completion modified)
  && ptr_eq_opt (x_provenance e) (o_provenance modified)
  && ptr_eq_opt (x_llm e) (o_llm modified)
  && ptr_eq_opt (x_framework e) (o_framework modified)
  && ptr_eq_opt (x_meta e) (o_meta modified).

Definition candidate_constraint_write_ok (e : Extensions) (modified : OwnedExtensions)
    (capabilities : gset string) : bool :=
  bool_decide (CAP_WRITE_CANDIDATE_CONSTRAINT ∈ capabilities)
  || bool_decide (o_candidate_constraint modified = x_candidate_constraint e).

(** ** Merging *)

Definition is_some {A} (o : option A) : bool := match o with Some _ => true | None => false end.

(** The [http] slot after [merge_http]. *)
Definition merge_http (self : option HttpExtension) (owned : option (Guarded HttpExtension))
    (token : option WriteToken) : option HttpExtension :=
  match owned with
  | None => self
  | Some owned =>
      if negb (is_some token) then self
      else
        let owned := guarded_inner owned in
        let merged := default http_default self in
        Some (mkHttp (ht_request_headers owned) (ht_response_headers owned) (ht_method merged)
                (ht_path merged) (ht_host merged) (ht_scheme merged))
  end.

(** [for label in owned.labels.iter() { merged.labels.add_label(..) }]. *)
Definition add_labels (s : SecurityExtension) (labels : gset string) : SecurityExtension :=
  foldl add_label s (elements labels).

(** The [security] slot after [merge_security]. *)
Definition merge_security (self owned : option SecurityExtension) (token : option WriteToken) :
    option SecurityExtension :=
  match owned with
  | None => self
  | Some owned =>
      if negb (is_some token) then self
      else
        let merged := default security_default self in
        if negb (bool_decide (sc_labels merged ⊆ sc_labels owned)) then self
        else Some (add_labels merged (sc_labels owned))
  end.

Definition hop_unchanged (before after : DelegationHop) : bool :=
  String.eqb (dh_subject_id before) (dh_subject_id after)
  && bool_decide (dh_subject_type before = dh_subject_type after)
  && bool_decide (dh_audience before = dh_audience after)
  && bool_decide (dh_scopes_granted before = dh_scopes_granted after)
  && bool_decide (dh_strategy before = dh_strategy after).

Definition chain_extends (canonical returned : list DelegationHop) : bool :=
  if (length returned <? length canonical)%nat then false
  else forallb (λ p, hop_unchanged p.1 p.2) (combine canonical returned).

(** The [delegation] slot after [merge_delegation]. *)
Definition merge_delegation (self owned : option DelegationExtension)
    (token : option WriteToken) : option DelegationExtension :=
  match owned with
  | None => self
  | Some owned =>
      if negb (is_some token) then self
      else
        let merged := default delegation_default self in
        let extends :=
          match self with
          | Some canonical => chain_extends (dg_chain canonical) (dg_chain owned)
          | None => true
          end in
        if negb extends then self
        else
          let chain := dg_chain owned in
          Some {| dg_chain := chain; dg_depth := len_u32 chain;
                  dg_origin_subject_id :=
                    match dg_origin_subject_id merged with
                    | None => dg_origin_subject_id owned
                    | origin => origin
                    end;
                  dg_actor_subject_id := dg_actor_subject_id owned;
                  dg_delegated := match chain with [] => false | _ => true end;
                  dg_age_seconds := dg_age_seconds owned |}
  end.

Definition merge_owned (e : Extensions) (owned : OwnedExtensions) : Extensions :=
  {| x_request := x_request e; x_agent := x_agent e;
     x_http := merge_http (x_http e) (o_http owned) (o_http_write_token owned);
     x_security := merge_security (x_security e) (o_security owned) (o_labels_write_token owned);
     x_candidate_constraint := o_candidate_constraint owned;
     x_delegation :=
       merge_delegation (x_delegation e) (o_delegation owned) (o_delegation_write_token owned);
     x_raw_credentials :=
       match o_raw_credentials owned with Some r => Some r | None => x_raw_credentials e end;
     x_mcp := x_mcp e; x_completion := x_completion e; x_provenance := x_provenance e;
     x_llm := x_llm e; x_framework := x_framework e; x_meta := x_meta e;
     x_custom := o_custom owned;
     x_http_write_token := x_http_write_token e;
     x_labels_write_token := x_labels_write_token e;
     x_delegation_write_token := x_delegation_write_token e |}.

(** ** Slot policies (tiers.rs, filter.rs) *)

Inductive MutabilityTier := Immutable | Monotonic | Mutable.
Inductive AccessPolicy := Unrestricted | CapabilityGated.

Inductive Capability :=
| ReadSubject | ReadRoles | ReadTeams | ReadClaims | ReadPermissions
| ReadClient | ReadWorkload | ReadAgent
| ReadHeaders | WriteHeaders | ReadLabels | AppendLabels
| ReadDelegation | AppendDelegation
| ReadInboundCredentials | ReadDelegatedTokens.

#[global] Instance Capability_eq_dec : EqDecision Capability.
Proof. solve_decision. Defined.

(** The serde name of a capability ([rename_all = "snake_case"]). *)
Definition cap_str (c : Capability) : string :=
  match c with
  | ReadSubject => "read_subject" | ReadRoles => "read_roles" | ReadTeams => "read_teams"
  | ReadClaims => "read_claims" | ReadPermissions => "read_permissions"
  | ReadClient => "read_client" | ReadWorkload => "read_workload" | ReadAgent => "read_agent"
  | ReadHeaders => "read_headers" | WriteHeaders => "write_headers"
  | ReadLabels => "read_labels" | AppendLabels => "append_labels"
  | ReadDelegation => "read_delegation" | AppendDelegation => "append_delegation"
  | ReadInboundCredentials => "read_inbound_credentials"
  | ReadDelegatedTokens => "read_delegated_tokens"
  end.

Record SlotPolicy := mkSlotPolicy {
  sp_tier : MutabilityTier;
  sp_access : AccessPolicy;
  sp_read_cap : option Capability;
  sp_write_cap : option Capability
}.

Inductive SlotName :=
| SlotRequest | SlotAgent | SlotHttp | SlotMeta | SlotDelegation | SlotCustom | SlotMcp
| SlotCompletion | SlotProvenance | SlotLlm | SlotFramework
| SlotSecurityLabels | SlotSecuritySubject | SlotSecuritySubjectRoles
| SlotSecuritySubjectTeams | SlotSecuritySubjectClaims | SlotSecuritySubjectPermissions
| SlotSecurityClient | SlotSecurityCallerWorkload | SlotSecurityThisWorkload
| SlotSecurityObjects | SlotSecurityData
| SlotRawCredentialsInbound | SlotRawCredentialsDelegated.

Definition slot_policy (slot : SlotName) : SlotPolicy :=
  match slot with
  | SlotRequest | SlotProvenance | SlotCompletion | SlotLlm | SlotFramework | SlotMcp | SlotMeta
  | SlotSecurityObjects | SlotSecurityData => mkSlotPolicy Immutable Unrestricted None None
  | SlotCustom => mkSlotPolicy Mutable Unrestricted None None
  | SlotAgent => mkSlotPolicy Immutable CapabilityGated (Some ReadAgent) None
  | SlotHttp => mkSlotPolicy Mutable CapabilityGated (Some ReadHeaders) (Some WriteHeaders)
  | SlotDelegation =>
      mkSlotPolicy Monotonic CapabilityGated (Some ReadDelegation) (Some AppendDelegation)
  | SlotSecurityLabels =>
      mkSlotPolicy Monotonic CapabilityGated (Some ReadLabels) (Some AppendLabels)
  | SlotSecuritySubject => mkSlotPolicy Immutable CapabilityGated (Some ReadSubject) None
  | SlotSecuritySubjectRoles => mkSlotPolicy Immutable CapabilityGated (Some ReadRoles) None
  | SlotSecuritySubjectTeams => mkSlotPolicy Immutable CapabilityGated (Some ReadTeams) None
  | SlotSecuritySubjectClaims => mkSlotPolicy Immutable CapabilityGated (Some ReadClaims) None
  | SlotSecuritySubjectPermissions =>
      mkSlotPolicy Immutable CapabilityGated (Some ReadPermissions) None
  | SlotSecurityClient => mkSlotPolicy Immutable CapabilityGated (Some ReadClient) None
  | SlotSecurityCallerWorkload | SlotSecurityThisWorkload =>
      mkSlotPolicy Immutable CapabilityGated (Some ReadWorkload) None
  | SlotRawCredentialsInbound =>
      mkSlotPolicy Immutable CapabilityGated (Some ReadInboundCredentials) None
  | SlotRawCredentialsDelegated =>
      mkSlotPolicy Immutable CapabilityGated (Some ReadDelegatedTokens) None
  end.

(** ** Filtering *)

Section Filter.
Context (capabilities : gset string).

Definition holds (c : Capability) : bool := bool_decide (cap_str c ∈ capabilities).

Definition has_any_subject_capability : bool :=
  existsb holds [ReadSubject; ReadRoles; ReadTeams; ReadClaims; ReadPermissions].

Definition has_read_access (policy : SlotPolicy) : bool :=
  match sp_access policy with
  | Unrestricted => true
  | CapabilityGated =>
      if match sp_read_cap policy with Some c => holds c | None => false end then true
      else if bool_decide (sp_read_cap policy = Some ReadSubject) then has_any_subject_capability
      else false
  end.

Definition can_read (slot : SlotName) : bool := has_read_access (slot_policy slot).

(** [if slot.is_some() && has_read_access { filtered.slot = slot.clone() }]. *)
Definition gate {T} (slot : SlotName) (v : option T) : option T :=
  match v with
  | Some x => if can_read slot then Some x else None
  | None => None
  end.

Definition build_filtered_subject (subject : SubjectExtension) : SubjectExtension :=
  {| sj_id := sj_id subject; sj_subject_type := sj_subject_type subject;
     sj_roles := if holds ReadRoles then sj_roles subject else ∅;
     sj_permissions := if holds ReadPermissions then sj_permissions subject else ∅;
     sj_teams := if holds ReadTeams then sj_teams subject else ∅;
     sj_claims := if holds ReadClaims then sj_claims subject else ∅ |}.

Definition build_filtered_security (security : SecurityExtension) : SecurityExtension :=
  {| sc_objects := sc_objects security; sc_data := sc_data security;
     sc_classification := sc_classification security;
     sc_auth_method := sc_auth_method security;
     sc_labels := if can_read SlotSecurityLabels then sc_labels security else ∅;
     sc_subject :=
       match sc_subject security with
       | Some subject =>
           if has_any_subject_capability then Some (build_filtered_subject subject) else None
       | None => None
       end;
     sc_client := gate SlotSecurityClient (sc_client security);
     sc_caller_workload := gate SlotSecurityCallerWorkload (sc_caller_workload security);
     sc_this_workload := gate SlotSecurityThisWorkload (sc_this_workload security) |}.

Definition build_filtered_raw_credentials (raw : RawCredentialsExtension)
    (allow_inbound allow_delegated : bool) : RawCredentialsExtension :=
  {| rc_inbound_tokens := if allow_inbound then rc_inbound_tokens raw else ∅;
     rc_delegated_tokens := if allow_delegated then rc_delegated_tokens raw else ∅ |}.

(** The [raw_credentials] slot of the view. *)
Definition filter_raw (raw : option RawCredentialsExtension) : option RawCredentialsExtension :=
  match raw with
  | Some raw =>
      let allow_inbound := can_read SlotRawCredentialsInbound in
      let allow_delegated := can_read SlotRawCredentialsDelegated in
      if allow_inbound || allow_delegated then
        Some (build_filtered_raw_credentials raw allow_inbound allow_delegated)
      else None
  | None => None
  end.

Definition filter_extensions (e : Extensions) : Extensions :=
  {| x_request := x_request e; x_provenance := x_provenance e; x_completion := x_completion e;
     x_llm := x_llm e; x_framework := x_framework e; x_mcp := x_mcp e; x_meta := x_meta e;
     x_custom := x_custom e; x_candidate_constraint := x_candidate_constraint e;
     x_delegation := gate SlotDelegation (x_delegation e);
     x_agent := gate SlotAgent (x_agent e);
     x_http := gate SlotHttp (x_http e);
     x_security := build_filtered_security <$> x_security e;
     x_raw_credentials := filter_raw (x_raw_credentials e);
     x_http_write_token := None; x_labels_write_token := None;
     x_delegation_write_token := None |}.

End Filter.

(** ** What a plugin may see *)

Section Views.
Context (caps : gset string).

(** Equal wherever the capability is held. *)
Definition agree_if {T} (b : bool) (x y : T) : Prop := b = true → x = y.

Definition same_subject (s1 s2 : SubjectExtension) : Prop :=
  sj_id s1 = sj_id s2 ∧ sj_subject_type s1 = sj_subject_type s2
  ∧ agree_if (holds caps ReadRoles) (sj_roles s1) (sj_roles s2)
  ∧ agree_if (holds caps ReadPermissions) (sj_permissions s1) (sj_permissions s2)
  ∧ agree_if (holds caps ReadTeams) (sj_teams s1) (sj_teams s2)
  ∧ agree_if (holds caps ReadClaims) (sj_claims s1) (sj_claims s2).

Definition same_security (s1 s2 : SecurityExtension) : Prop :=
  sc_objects s1 = sc_objects s2 ∧ sc_data s1 = sc_data s2
  ∧ sc_classification s1 = sc_classification s2 ∧ sc_auth_method s1 = sc_auth_method s2
  ∧ agree_if (holds caps ReadLabels) (sc_labels s1) (sc_labels s2)
  ∧ (has_any_subject_capability caps = true →
     option_Forall2 same_subject (sc_subject s1) (sc_subject s2))
  ∧ agree_if (holds caps ReadClient) (sc_client s1) (sc_client s2)
  ∧ agree_if (holds caps ReadWorkload) (sc_caller_workload s1) (sc_caller_workload s2)
  ∧ agree_if (holds caps ReadWorkload) (sc_this_workload s1) (sc_this_workload s2).

Definition same_raw (r1 r2 : option RawCredentialsExtension) : Prop :=
  match r1, r2 with
  | Some r1, Some r2 =>
      agree_if (holds caps ReadInboundCredentials) (rc_inbound_tokens r1) (rc_inbound_tokens r2)
      ∧ agree_if (holds caps ReadDelegatedTokens) (rc_delegated_tokens r1) (rc_delegated_tokens r2)
  | None, None => True
  | _, _ => holds caps ReadInboundCredentials = false ∧ holds caps ReadDelegatedTokens = false
  end.

(** Two requests that differ only in what the capabilities do not cover. *)
Definition same_view (e1 e2 : Extensions) : Prop :=
  x_request e1 = x_request e2 ∧ x_provenance e1 = x_provenance e2
  ∧ x_completion e1 = x_completion e2 ∧ x_llm e1 = x_llm e2 ∧ x_framework e1 = x_framework e2
  ∧ x_mcp e1 = x_mcp e2 ∧ x_meta e1 = x_meta e2 ∧ x_custom e1 = x_custom e2
  ∧ x_candidate_constraint e1 = x_candidate_constraint e2
  ∧ agree_if (holds caps ReadDelegation) (x_delegation e1) (x_delegation e2)
  ∧ agree_if (holds caps ReadAgent) (x_agent e1) (x_agent e2)
  ∧ agree_if (holds caps ReadHeaders) (x_http e1) (x_http e2)
  ∧ option_Forall2 same_security (x_security e1) (x_security e2)
  ∧ same_raw (x_raw_credentials e1) (x_raw_credentials e2).

Lemma can_read_gated slot c :
  sp_access (slot_policy slot) = CapabilityGated → sp_read_cap (slot_policy slot) = Some c →
  c ≠ ReadSubject → can_read caps slot = holds caps c.
Proof.
  unfold can_read, has_read_access. intros -> -> Hc. rewrite bool_decide_false by congruence.
  by destruct (holds caps c).
Qed.

Lemma gate_agree {T} slot c (v1 v2 : option T) :
  can_read caps slot = holds caps c →
  gate caps slot v1 = gate caps slot v2 ↔ agree_if (holds caps c) v1 v2.
Proof.
  intros Hr. unfold gate, agree_if. rewrite Hr.
  destruct (holds caps c), v1, v2; naive_solver.
Qed.

Lemma if_agree {T} (b : bool) (x y d : T) :
  (if b then x else d) = (if b then y else d) ↔ agree_if b x y.
Proof. unfold agree_if. destruct b; naive_solver. Qed.

Lemma filtered_subject_agree s1 s2 :
  build_filtered_subject caps s1 = build_filtered_subject caps s2 ↔ same_subject s1 s2.
Proof.
  unfold build_filtered_subject, same_subject. rewrite <-!(if_agree _ _ _ ∅).
  split; [by intros [= ]|]. by intros (-> & -> & -> & -> & -> & ->).
Qed.

Lemma filtered_security_agree s1 s2 :
  build_filtered_security caps s1 = build_filtered_security caps s2 ↔ same_security s1 s2.
Proof.
  unfold same_security. rewrite <-(if_agree _ (sc_labels s1) _ ∅),
    <-!(gate_agree SlotSecurityClient ReadClient (sc_client _)),
    <-!(gate_agree SlotSecurityCallerWorkload ReadWorkload (sc_caller_workload _)),
    <-!(gate_agree SlotSecurityThisWorkload ReadWorkload (sc_this_workload _))
    by (by apply can_read_gated).
  rewrite <-(can_read_gated SlotSecurityLabels ReadLabels) by done.
  assert ((match sc_subject s1 with
           | Some subject => if has_any_subject_capability caps
               then Some (build_filtered_subject caps subject) else None
           | None => None end
         = match sc_subject s2 with
           | Some subject => if has_any_subject_capability caps
               then Some (build_filtered_subject caps subject) else None
           | None => None end)
    ↔ (has_any_subject_capability caps = true →
       option_Forall2 same_subject (sc_subject s1) (sc_subject s2))) as <-.
  { destruct (has_any_subject_capability caps), (sc_subject s1) as [j1|], (sc_subject s2) as [j2|];
      split; try done.
    - intros E%(inj Some) _. constructor. by apply filtered_subject_agree.
    - intros Hs. specialize (Hs eq_refl). inversion Hs; subst. f_equal.
      by apply filtered_subject_agree.
    - intros Hs. specialize (Hs eq_refl). by inversion Hs.
    - intros Hs. specialize (Hs eq_refl). by inversion Hs.
    - constructor. }
  unfold build_filtered_security. split; [by intros [= ]|].
  by intros (-> & -> & -> & -> & -> & -> & -> & -> & ->).
Qed.

Lemma filter_raw_agree r1 r2 : filter_raw caps r1 = filter_raw caps r2 ↔ same_raw r1 r2.
Proof.
  unfold filter_raw, same_raw.
  rewrite (can_read_gated SlotRawCredentialsInbound ReadInboundCredentials),
    (can_read_gated SlotRawCredentialsDelegated ReadDelegatedTokens) by done.
  unfold build_filtered_raw_credentials, agree_if.
  destruct (holds caps ReadInboundCredentials), (holds caps ReadDelegatedTokens),
    r1 as [[]|], r2 as [[]|]; simpl; naive_solver.
Qed.

End Views.

(** ** Lemmas on merging *)

(** The authority a plugin has when its extensions are merged back: the
    executor mints the tokens from the declared capabilities. *)
Definition mint (caps : gset string) (c : Capability) : option WriteToken :=
  if holds caps c then Some write_token_new else None.

Definition grant_tokens (caps : gset string) (o : OwnedExtensions) : OwnedExtensions :=
  {| o_request := o_request o; o_agent := o_agent o; o_mcp := o_mcp o;
     o_completion := o_completion o; o_provenance := o_provenance o; o_llm := o_llm o;
     o_framework := o_framework o; o_meta := o_meta o; o_raw_credentials := o_raw_credentials o;
     o_http := o_http o; o_security := o_security o;
     o_candidate_constraint := o_candidate_constraint o; o_delegation := o_delegation o;
     o_custom := o_custom o;
     o_http_write_token := mint caps WriteHeaders;
     o_labels_write_token := mint caps AppendLabels;
     o_delegation_write_token := mint caps AppendDelegation |}.

(** A security slot with other labels. *)
Definition with_labels (s : SecurityExtension) (labels : gset string) : SecurityExtension :=
  mkSecurity labels (sc_classification s) (sc_subject s) (sc_client s) (sc_caller_workload s)
    (sc_this_workload s) (sc_auth_method s) (sc_objects s) (sc_data s).

Lemma add_labels_spec s labels : add_labels s labels = with_labels s (labels ∪ sc_labels s).
Proof.
  unfold add_labels.
  assert (∀ l s, foldl add_label s l = with_labels s (list_to_set l ∪ sc_labels s)) as Hl.
  { clear. intros l. induction l as [|x l IH]; intros s; simpl.
    - rewrite (left_id_L ∅ (∪)). by destruct s.
    - rewrite IH. unfold with_labels, add_label. simpl. f_equal. set_solver. }
  rewrite Hl. f_equal. by rewrite list_to_set_elements_L.
Qed.

Lemma merge_security_cases self owned token :
  merge_security self owned token = self
  ∨ ∃ o, owned = Some o ∧ is_some token = true
         ∧ sc_labels (default security_default self) ⊆ sc_labels o
         ∧ merge_security self owned token
           = Some (with_labels (default security_default self) (sc_labels o)).
Proof.
  unfold merge_security. destruct owned as [o|]; [|by left].
  destruct (is_some token); simpl; [|by left].
  case_bool_decide as Hs; simpl; [|by left]. right. exists o. split_and!; [done|done|done|].
  rewrite add_labels_spec. do 2 f_equal. set_solver.
Qed.

Definition labels_of (s : option SecurityExtension) : gset string :=
  sc_labels (default security_default s).

Lemma merge_security_labels self owned token :
  labels_of self ⊆ labels_of (merge_security self owned token).
Proof.
  destruct (merge_security_cases self owned token) as [->|(o & _ & _ & Hs & ->)]; [done|].
  done.
Qed.

(** What an append-only chain merge may do. *)
Definition chain_extended (before after : option DelegationExtension) : Prop :=
  match before, after with
  | None, _ => True
  | Some _, None => False
  | Some b, Some a =>
      (length (dg_chain b) ≤ length (dg_chain a))%nat
      ∧ ∀ i h, dg_chain b !! i = Some h →
          ∃ h', dg_chain a !! i = Some h' ∧ hop_unchanged h h' = true
  end.

Lemma hop_unchanged_refl h : hop_unchanged h h = true.
Proof.
  unfold hop_unchanged. rewrite String.eqb_refl.
  by repeat (rewrite bool_decide_true by done).
Qed.

Lemma chain_extends_spec l1 l2 :
  chain_extends l1 l2 = true ↔
  (length l1 ≤ length l2)%nat
  ∧ ∀ i h, l1 !! i = Some h → ∃ h', l2 !! i = Some h' ∧ hop_unchanged h h' = true.
Proof.
  unfold chain_extends. destruct (Nat.ltb_spec (length l2) (length l1)) as [Hlt|Hge].
  { split; [done|]. intros [? _]. lia. }
  revert l2 Hge. induction l1 as [|h1 l1 IH]; intros [|h2 l2] Hge; simpl in *; try lia.
  - split; [|done]. intros _. split; [done|]. intros i h. by rewrite lookup_nil.
  - split; [|done]. intros _. split; [lia|]. intros i h. by rewrite lookup_nil.
  - rewrite andb_true_iff, IH by lia. split.
    + intros [Hh [Hl Hall]]. split; [lia|]. intros [|i] h; simpl; [naive_solver|apply Hall].
    + intros [Hl Hall]. split.
      * by destruct (Hall 0%nat h1 eq_refl) as (? & [= <-] & ?).
      * split; [lia|]. intros i h Hi. by apply (Hall (S i)).
Qed.

Lemma merge_delegation_extends self owned token :
  chain_extended self (merge_delegation self owned token).
Proof.
  assert (chain_extended self self) as Hrefl.
  { destruct self as [d|]; [|done]. split; [done|]. intros i h Hi. exists h.
    split; [done|apply hop_unchanged_refl]. }
  unfold merge_delegation. destruct owned as [o|]; [|done].
  destruct (is_some token); simpl; [|done]. destruct self as [d|]; [|done].
  destruct (chain_extends (dg_chain d) (dg_chain o)) eqn:E; simpl; [|done].
  by apply chain_extends_spec in E.
Qed.

(** Depth and flag agree with the chain. *)
Definition delegation_wf (d : DelegationExtension) : Prop :=
  dg_depth d = len_u32 (dg_chain d) ∧ dg_delegated d = bool_decide (dg_chain d ≠ []).

Lemma append_hop_wf d hop : delegation_wf (append_hop d hop).
Proof.
  split; [done|]. simpl. rewrite bool_decide_true; [done|]. by destruct (dg_chain d).
Qed.

Lemma merge_delegation_wf self owned token d :
  (∀ d0, self = Some d0 → delegation_wf d0) →
  merge_delegation self owned token = Some d → delegation_wf d.
Proof.
  intros Hself. unfold merge_delegation. destruct owned as [o|]; [|by apply Hself].
  destruct (is_some token); simpl; [|by apply Hself].
  destruct (negb _); [by apply Hself|]. intros [= <-]. split; [done|]. simpl.
  by destruct (dg_chain o).
Qed.

(** ** The tiers as an order on extensions *)

(** What may happen to a request's extensions, whatever the plugins do.  The raw
    credentials are the exception to their declared tier: the merge takes the
    slot as it comes back, so that all that is sure of it here is that it is not
    removed; what it can become is stated where it is merged. *)
Definition tier_order (e e' : Extensions) : Prop :=
  (x_request e' = x_request e ∧ x_agent e' = x_agent e ∧ x_mcp e' = x_mcp e
   ∧ x_completion e' = x_completion e ∧ x_provenance e' = x_provenance e ∧ x_llm e' = x_llm e
   ∧ x_framework e' = x_framework e ∧ x_meta e' = x_meta e)
  ∧ labels_of (x_security e) ⊆ labels_of (x_security e')
  ∧ (∀ s, x_security e = Some s → ∃ l, x_security e' = Some (with_labels s l))
  ∧ (∀ h, x_http e = Some h → ∃ h', x_http e' = Some h' ∧ ht_method h' = ht_method h
        ∧ ht_path h' = ht_path h ∧ ht_host h' = ht_host h ∧ ht_scheme h' = ht_scheme h)
  ∧ chain_extended (x_delegation e) (x_delegation e')
  ∧ (∀ d s, x_delegation e = Some d → dg_origin_subject_id d = Some s →
       ∃ d', x_delegation e' = Some d' ∧ dg_origin_subject_id d' = Some s)
  ∧ (is_Some (x_raw_credentials e) → is_Some (x_raw_credentials e')).

Lemma hop_unchanged_trans h1 h2 h3 :
  hop_unchanged h1 h2 = true → hop_unchanged h2 h3 = true → hop_unchanged h1 h3 = true.
Proof.
  unfold hop_unchanged. rewrite !andb_true_iff, !String.eqb_eq, !bool_decide_eq_true.
  intuition congruence.
Qed.

#[global] Instance chain_extended_preorder : PreOrder chain_extended.
Proof.
  split.
  - intros [d|]; [|done]. split; [done|]. intros i h Hi. exists h.
    split; [done|apply hop_unchanged_refl].
  - intros [d1|] [d2|] [d3|]; simpl; try done. intros [L1 H1] [L2 H2]. split; [lia|].
    intros i h Hi. destruct (H1 i h Hi) as (h2 & Hi2 & U1). destruct (H2 i h2 Hi2) as (h3 & Hi3 & U2).
    exists h3. split; [done|]. by eapply hop_unchanged_trans.
Qed.

#[global] Instance tier_order_preorder : PreOrder tier_order.
Proof.
  split.
  - intros e. split_and!; try done; eauto.
    + intros s Hs. exists (sc_labels s). rewrite Hs. by destruct s.
    + intros h Hh. exists h. by split_and!.
  - intros e1 e2 e3 ((?&?&?&?&?&?&?&?)&L1&S1&T1&C1&O1&R1) ((?&?&?&?&?&?&?&?)&L2&S2&T2&C2&O2&R2).
    unfold tier_order. split; [split_and!; congruence|]. split_and!.
    + by etrans.
    + intros s Hs. destruct (S1 s Hs) as [l1 Hl1]. destruct (S2 _ Hl1) as [l2 Hl2]. by exists l2.
    + intros h Hh. destruct (T1 h Hh) as (h2 & Hh2 & ?&?&?&?).
      destruct (T2 h2 Hh2) as (h3 & Hh3 & ?&?&?&?). exists h3. split_and!; congruence.
    + by etrans.
    + intros d s Hd Ho. destruct (O1 d s Hd Ho) as (d2 & Hd2 & Ho2). by eapply O2.
    + auto.
Qed.

Lemma merge_tier_order e o : tier_order e (merge_owned e o).
Proof.
  unfold tier_order. simpl. split; [done|]. split_and!.
  - apply merge_security_labels.
  - intros s Hs. destruct (merge_security_cases (x_security e) (o_security o)
      (o_labels_write_token o)) as [->|(ow & _ & _ & _ & ->)].
    + exists (sc_labels s). rewrite Hs. by destruct s.
    + rewrite Hs. by eexists.
  - unfold merge_http. intros h Hh.
    destruct (o_http o), (is_some (o_http_write_token o)); simpl; rewrite ?Hh;
      (eexists; split; [done|]; by split_and!).
  - apply merge_delegation_extends.
  - intros d s Hd Ho. unfold merge_delegation. rewrite Hd.
    destruct (o_delegation o), (is_some (o_delegation_write_token o)); simpl; eauto.
    destruct (chain_extends _ _); simpl; eauto. rewrite Ho. eauto.
  - by destruct (o_raw_credentials o).
Qed.

Lemma merge_without_tokens e o :
  (o_labels_write_token o = None → x_security (merge_owned e o) = x_security e)
  ∧ (o_http_write_token o = None → x_http (merge_owned e o) = x_http e)
  ∧ (o_delegation_write_token o = None → x_delegation (merge_owned e o) = x_delegation e).
Proof.
  simpl. split_and!; intros Ht; unfold merge_security, merge_http, merge_delegation; rewrite Ht.
  - by destruct (o_security o).
  - by destruct (o_http o).
  - by destruct (o_delegation o).
Qed.

(** ** Properties *)

(** C8: filtering is exactly capability-gated: two requests yield the same
    filtered view if and only if they agree on the unrestricted slots and on
    every gated field whose capability the plugin holds.  A plugin therefore
    learns nothing about a field it has no capability for, and loses nothing
    it is entitled to. *)
Theorem filter_noninterference caps e1 e2 :
  filter_extensions caps e1 = filter_extensions caps e2 ↔ same_view caps e1 e2.
Proof.
  unfold same_view.
  rewrite <-(gate_agree caps SlotDelegation ReadDelegation),
    <-(gate_agree caps SlotAgent ReadAgent), <-(gate_agree caps SlotHttp ReadHeaders)
    by (by apply can_read_gated).
  assert (build_filtered_security caps <$> x_security e1
          = build_filtered_security caps <$> x_security e2
          ↔ option_Forall2 (same_security caps) (x_security e1) (x_security e2)) as <-.
  { destruct (x_security e1) as [s1|], (x_security e2) as [s2|]; simpl; split; try by inversion 1.
    - intros E%(inj Some). constructor. by apply filtered_security_agree.
    - inversion 1; subst. f_equal. by apply filtered_security_agree.
    - constructor. }
  rewrite <-filter_raw_agree. unfold filter_extensions. split; [by intros [= ]|].
  by intros (-> & -> & -> & -> & -> & -> & -> & -> & -> & -> & -> & -> & -> & ->).
Qed.

(** C9: merging a plugin's extensions back respects the mutability tiers of every
    slot but the raw credentials, whatever the plugin returned: the other
    immutable slots keep their values; labels only grow and no other security
    field changes; the HTTP request line is preserved; existing delegation hops
    keep their authority-bearing fields and the origin once set; and without its
    write token the security, the HTTP and the delegation slot are untouched.
    Three slots are taken as returned: custom, which nothing gates; the routing
    constraint, whose gate is checked before the merge; and the raw credentials
    whenever the plugin returned any, although they are declared immutable. *)
Theorem merge_respects_tiers e o :
  let e' := merge_owned e o in
  tier_order e e'
  ∧ (o_labels_write_token o = None → x_security e' = x_security e)
  ∧ (o_http_write_token o = None → x_http e' = x_http e)
  ∧ (o_delegation_write_token o = None → x_delegation e' = x_delegation e)
  ∧ x_custom e' = o_custom o ∧ x_candidate_constraint e' = o_candidate_constraint o
  ∧ x_raw_credentials e'
    = match o_raw_credentials o with Some r => Some r | None => x_raw_credentials e end.
Proof.
  destruct (merge_without_tokens e o) as (M1 & M2 & M3).
  split_and!; [apply merge_tier_order|done..].
Qed.

(** What a plugin does to the raw credentials by returning what it was shown: no
    token is added, and none is lost if it may read both kinds or neither. *)
Definition raw_within (r r' : option RawCredentialsExtension) : Prop :=
  match r, r' with
  | Some a, Some b =>
      rc_inbound_tokens b ⊆ rc_inbound_tokens a ∧ rc_delegated_tokens b ⊆ rc_delegated_tokens a
  | None, None => True
  | _, _ => False
  end.

Lemma raw_within_refl r : raw_within r r.
Proof. by destruct r. Qed.

Lemma returned_raw caps r :
  let r' := match filter_raw caps r with Some x => Some x | None => r end in
  raw_within r r'
  ∧ (holds caps ReadInboundCredentials = holds caps ReadDelegatedTokens → r' = r).
Proof.
  unfold filter_raw.
  rewrite (can_read_gated caps SlotRawCredentialsInbound ReadInboundCredentials),
    (can_read_gated caps SlotRawCredentialsDelegated ReadDelegatedTokens) by done.
  destruct r as [[inb del]|]; [|done].
  destruct (holds caps ReadInboundCredentials), (holds caps ReadDelegatedTokens); simpl;
    split; try done; split; try done; apply map_empty_subseteq.
Qed.

(** A plugin that hands its view back unchanged changes nothing: filtering,
    copying, granting its own write tokens and merging is the identity, for
    every set of capabilities, provided the canonical delegation chain is
    well-formed and the plugin may read both kinds of raw credentials or
    neither. *)
Theorem merge_unmodified_view caps e :
  (∀ d, x_delegation e = Some d → delegation_wf d) →
  holds caps ReadInboundCredentials = holds caps ReadDelegatedTokens →
  merge_owned e (grant_tokens caps (cow_copy (filter_extensions caps e))) = e.
Proof.
  intros Hwf Hraw. unfold merge_owned. simpl.
  assert (merge_http (x_http e) (guarded_new <$> gate caps SlotHttp (x_http e))
            (mint caps WriteHeaders) = x_http e) as ->.
  { unfold gate. destruct (x_http e) as [[]|]; [|done].
    destruct (can_read caps SlotHttp); [|done]. simpl. unfold mint. 
    by destruct (holds caps WriteHeaders). }
  assert (merge_security (x_security e) (build_filtered_security caps <$> x_security e)
            (mint caps AppendLabels) = x_security e) as ->.
  { destruct (x_security e) as [s|]; [|done]. unfold merge_security, mint. simpl.
    destruct (holds caps AppendLabels); simpl; [|done].
    case_bool_decide as Hs; simpl; [|done]. rewrite add_labels_spec. f_equal.
    destruct s; unfold with_labels; simpl in *. f_equal. case_match; set_solver. }
  assert (merge_delegation (x_delegation e) (gate caps SlotDelegation (x_delegation e))
            (mint caps AppendDelegation) = x_delegation e) as ->.
  { destruct (x_delegation e) as [d|]; [|done]. unfold gate.
    destruct (can_read caps SlotDelegation); [|done]. unfold merge_delegation, mint.
    destruct (holds caps AppendDelegation); simpl; [|done].
    rewrite (proj2 (chain_extends_spec _ _)); simpl.
    - destruct (Hwf d eq_refl) as [Hd Hf]. destruct d as [ch dp og ac df ag]; simpl in *.
      subst. f_equal. f_equal; [by destruct og|by destruct ch].
    - split; [done|]. intros i h Hi. exists h. split; [done|apply hop_unchanged_refl]. }
  assert (match filter_raw caps (x_raw_credentials e) with
          | Some r => Some r | None => x_raw_credentials e end = x_raw_credentials e) as ->.
  { by apply returned_raw. }
  by destruct e.
Qed.

(** A plugin that may read only inbound credentials and hands its view back
    unchanged erases every delegated token of the request: the merge takes the
    capability-filtered credentials slot for the canonical one. *)
Theorem unmodified_view_wipes_delegated_tokens caps e raw :
  holds caps ReadInboundCredentials = true → holds caps ReadDelegatedTokens = false →
  x_raw_credentials e = Some raw →
  x_raw_credentials (merge_owned e (grant_tokens caps (cow_copy (filter_extensions caps e))))
  = Some (mkRawCredentials (rc_inbound_tokens raw) ∅).
Proof.
  intros Hi Hd Hr. simpl. rewrite Hr. unfold filter_raw.
  rewrite (can_read_gated caps SlotRawCredentialsInbound ReadInboundCredentials),
    (can_read_gated caps SlotRawCredentialsDelegated ReadDelegatedTokens), Hi, Hd by done.
  done.
Qed.

(** The plugin's copy with one more label. *)
Definition owned_add_label (o : OwnedExtensions) (label : string) : OwnedExtensions :=
  {| o_request := o_request o; o_agent := o_agent o; o_mcp := o_mcp o;
     o_completion := o_completion o; o_provenance := o_provenance o; o_llm := o_llm o;
     o_framework := o_framework o; o_meta := o_meta o; o_raw_credentials := o_raw_credentials o;
     o_http := o_http o; o_security := (λ s, add_label s label) <$> o_security o;
     o_candidate_constraint := o_candidate_constraint o; o_delegation := o_delegation o;
     o_custom := o_custom o; o_http_write_token := o_http_write_token o;
     o_labels_write_token := o_labels_write_token o;
     o_delegation_write_token := o_delegation_write_token o |}.

(** Appending a label through the view works exactly when the plugin may
    also read labels or the request carries none but that one: with
    [append_labels] alone the addition is silently dropped as if it were a
    removal. *)
Theorem append_label_needs_read caps e s label :
  holds caps AppendLabels = true → x_security e = Some s →
  x_security (merge_owned e
    (grant_tokens caps (owned_add_label (cow_copy (filter_extensions caps e)) label)))
  = Some (if holds caps ReadLabels || bool_decide (sc_labels s ⊆ {[ label ]})
          then add_label s label else s).
Proof.
  intros Ha Hs. simpl. rewrite Hs. unfold merge_security, mint. rewrite Ha. simpl.
  rewrite (can_read_gated caps SlotSecurityLabels ReadLabels) by done.
  destruct (holds caps ReadLabels); simpl.
  - rewrite bool_decide_true by set_solver. simpl. rewrite add_labels_spec. f_equal.
    unfold with_labels, add_label. simpl. f_equal. set_solver.
  - rewrite (right_id_L ∅ (∪)). case_bool_decide as Hl; simpl; [|done].
    rewrite add_labels_spec. done.
Qed.

(** ** Witnesses *)

Definition demo_delegated : DelegationKey :=
  mkDelegationKey "alice" None None "https://hr" ["read"] OnBehalfOfUser.
Definition demo_raw : RawCredentialsExtension :=
  mkRawCredentials {[ RoleUser := mkInbound "jwt" "Authorization" KindJwt ]}
    {[ demo_delegated := mkDelegated "minted" "Authorization" "https://hr" ["read"] 0 ]}.
Definition demo_extensions : Extensions :=
  mkExtensions None None None (Some (with_labels security_default {[ "PII" ]})) None
    (Some (append_hop delegation_default
             (mkHop "alice" (Some SubjUser) None ["read"] [] 0 None None false)))
    (Some demo_raw) None None None None None None None None None None.

Lemma merge_unmodified_witness :
  merge_owned demo_extensions (grant_tokens {[ "append_labels"; "read_delegation"; "append_delegation" ]}
    (cow_copy (filter_extensions {[ "append_labels"; "read_delegation"; "append_delegation" ]}
       demo_extensions))) = demo_extensions.
Proof.
  apply (merge_unmodified_view {[ "append_labels"; "read_delegation"; "append_delegation" ]}
           demo_extensions).
  - intros d [= <-]. apply append_hop_wf.
  - vm_compute. reflexivity.
Defined.

Lemma wipes_tokens_witness :
  x_raw_credentials (merge_owned demo_extensions
    (grant_tokens {[ "read_inbound_credentials" ]}
       (cow_copy (filter_extensions {[ "read_inbound_credentials" ]} demo_extensions))))
  = Some (mkRawCredentials (rc_inbound_tokens demo_raw) ∅).
Proof.
  apply (unmodified_view_wipes_delegated_tokens {[ "read_inbound_credentials" ]}
           demo_extensions demo_raw);
    [vm_compute; reflexivity|vm_compute; reflexivity|reflexivity].
Defined.

Lemma append_label_witness :
  x_security (merge_owned demo_extensions
    (grant_tokens {[ "append_labels" ]}
       (owned_add_label (cow_copy (filter_extensions {[ "append_labels" ]} demo_extensions))
          "HIPAA")))
  = Some (with_labels security_default {[ "PII" ]}).
Proof.
  rewrite (append_label_needs_read {[ "append_labels" ]} demo_extensions
             (with_labels security_default {[ "PII" ]}) "HIPAA");
    [vm_compute; reflexivity|vm_compute; reflexivity|reflexivity].
Defined.
