(* ===== verification/Message.v ===== *)
(** * Messages (cpex-core/src/cmf/*.rs, apl-cpex/src/message_projection.rs)

    The common message format: typed content parts, the views policies
    evaluate, and the projections between a message and the JSON arguments and
    result that APL works on.  A [Vec<u8>] is a list of integers. *)

From S2P Require Import Prelude RustStd F64 Json JsonMerge ExtData Headers Routing Extensions.

Local Open Scope string_scope.
Local Open Scope list_scope.

(** ** Enums (enums.rs, view.rs) *)

Inductive Role := RSystem | RDeveloper | RUser | RAssistant | RTool.
Inductive Channel := ChAnalysis | ChCommentary | ChFinal.
Inductive ResourceType := RtFile | RtBlob | RtUri | RtDatabase | RtApi | RtMemory | RtArtifact.

Inductive ViewKind :=
| KText | KThinking | KToolCall | KToolResult | KResource | KResourceRef
| KPromptRequest | KPromptResult | KImage | KVideo | KAudio | KDocument.

Inductive ViewAction := VaRead | VaWrite | VaExecute | VaInvoke | VaSend | VaReceive | VaGenerate.

(** ** Content parts (content.rs) *)

Record ToolCall := mkToolCall {
  tc_tool_call_id : string;
  tc_name : string;
  tc_arguments : gmap string Value;
  tc_namespace : option string
}.

Record ToolResult := mkToolResult {
  tr_tool_call_id : string;
  tr_tool_name : string;
  tr_content : Value;
  tr_is_error : bool
}.

Record Resource := mkResourcePart {
  re_resource_request_id : string;
  re_uri : string;
  re_name : option string;
  re_description : option string;
  re_resource_type : ResourceType;
  re_content : option string;
  re_blob : option (list Z);
  re_mime_type : option string;
  re_size_bytes : option Z;
  re_annotations : gmap string Value;
  re_version : option string
}.

Definition is_embedded (r : Resource) : bool :=
  negb (is_none (re_content r)) || negb (is_none (re_blob r)).

Record ResourceReference := mkResourceReference {
  rr_resource_request_id : string;
  rr_uri : string;
  rr_name : option string;
  rr_resource_type : ResourceType;
  rr_range_start : option Z;
  rr_range_end : option Z;
  rr_selector : option string
}.

Record PromptRequest := mkPromptRequest {
  pq_prompt_request_id : string;
  pq_name : string;
  pq_arguments : gmap string Value;
  pq_server_id : option string
}.

(** [PromptResult] holds messages; [M] is [Message]. *)
Record PromptResultOf (M : Type) := mkPromptResult {
  pt_prompt_request_id : string;
  pt_prompt_name : string;
  pt_messages : list M;
  pt_content : option string;
  pt_is_error : bool;
  pt_error_message : option string
}.
Arguments mkPromptResult {M}.
Arguments pt_prompt_name {M}.
Arguments pt_content {M}.
Arguments pt_is_error {M}.

(** [ImageSource], [VideoSource], [AudioSource] and [DocumentSource]. *)
Record ImageSource := mkImage {
  im_source_type : string; im_data : string; im_media_type : option string }.
Record VideoSource := mkVideo {
  vi_source_type : string; vi_data : string; vi_media_type : option string;
  vi_duration_ms : option Z }.
Record AudioSource := mkAudio {
  au_source_type : string; au_data : string; au_media_type : option string;
  au_duration_ms : option Z }.
Record DocumentSource := mkDocument {
  do_source_type : string; do_data : string; do_media_type : option string;
  do_title : option string }.

Inductive ContentPartOf (M : Type) :=
| PText (text : string)
| PThinking (text : string)
| PToolCall (content : ToolCall)
| PToolResult (content : ToolResult)
| PResource (content : Resource)
| PResourceRef (content : ResourceReference)
| PPromptRequest (content : PromptRequest)
| PPromptResult (content : PromptResultOf M)
| PImage (content : ImageSource)
| PVideo (content : VideoSource)
| PAudio (content : AudioSource)
| PDocument (content : DocumentSource).
Arguments PText {M}. Arguments PThinking {M}. Arguments PToolCall {M}. Arguments PToolResult {M}.
Arguments PResource {M}. Arguments PResourceRef {M}. Arguments PPromptRequest {M}.
Arguments PPromptResult {M}. Arguments PImage {M}. Arguments PVideo {M}. Arguments PAudio {M}.
Arguments PDocument {M}.

(** ** Messages (message.rs) *)

Inductive Message := mkMessage {
  ms_schema_version : string;
  ms_role : Role;
  ms_content : list (ContentPartOf Message);
  ms_channel : option Channel
}.

Abbreviation ContentPart := (ContentPartOf Message).
Abbreviation PromptResult := (PromptResultOf Message).

Record MessagePayload := mkMessagePayload { mp_message : Message }.

Definition SCHEMA_VERSION : string := "2.0".

Definition message_text (role : Role) (text : string) : Message :=
  mkMessage SCHEMA_VERSION role [PText text] None.
Definition message_with_content (role : Role) (content : list ContentPart) : Message :=
  mkMessage SCHEMA_VERSION role content None.

Definition get_text_content (m : Message) : string :=
  concat_str (omap (λ p, match p with PText text => Some text | _ => None end) (ms_content m)).

Definition get_thinking_content (m : Message) : option string :=
  let texts := omap (λ p, match p with PThinking text => Some text | _ => None end) (ms_content m) in
  if is_nil texts then None else Some (concat_str texts).

Definition get_tool_calls (m : Message) : list ToolCall :=
  omap (λ p, match p with PToolCall c => Some c | _ => None end) (ms_content m).
Definition get_tool_results (m : Message) : list ToolResult :=
  omap (λ p, match p with PToolResult c => Some c | _ => None end) (ms_content m).
Definition is_tool_call (m : Message) : bool :=
  existsb (λ p, match p with PToolCall _ => true | _ => false end) (ms_content m).
Definition is_tool_result (m : Message) : bool :=
  existsb (λ p, match p with PToolResult _ => true | _ => false end) (ms_content m).
Definition get_resources (m : Message) : list Resource :=
  omap (λ p, match p with PResource c => Some c | _ => None end) (ms_content m).
Definition get_resource_refs (m : Message) : list ResourceReference :=
  omap (λ p, match p with PResourceRef c => Some c | _ => None end) (ms_content m).
Definition get_all_resource_uris (m : Message) : list string :=
  omap (λ p, match p with
             | PResource c => Some (re_uri c)
             | PResourceRef c => Some (rr_uri c)
             | _ => None
             end) (ms_content m).
Definition has_resources (m : Message) : bool :=
  existsb (λ p, match p with PResource _ | PResourceRef _ => true | _ => false end) (ms_content m).
Definition get_prompt_requests (m : Message) : list PromptRequest :=
  omap (λ p, match p with PPromptRequest c => Some c | _ => None end) (ms_content m).
Definition get_prompt_results (m : Message) : list PromptResult :=
  omap (λ p, match p with PPromptResult c => Some c | _ => None end) (ms_content m).

(** ** Projections (message_projection.rs) *)

Definition with_parts (m : Message) (content : list ContentPart) : Message :=
  mkMessage (ms_schema_version m) (ms_role m) content (ms_channel m).

(** The first part [f] rewrites is replaced; [None] if no part is. *)
Fixpoint rewrite_first (f : ContentPart → option ContentPart) (parts : list ContentPart) :
    option (list ContentPart) :=
  match parts with
  | [] => None
  | p :: parts =>
      match f p with
      | Some p' => Some (p' :: parts)
      | None => cons p <$> rewrite_first f parts
      end
  end.

Definition rewrite_text_part (new_text : string) (p : ContentPart) : option ContentPart :=
  match p with PText _ => Some (PText new_text) | _ => None end.

Definition rewrite_message_text (m : Message) (new_text : string) : Message :=
  match rewrite_first (rewrite_text_part new_text) (ms_content m) with
  | Some parts => with_parts m parts
  | None => with_parts m (ms_content m ++ [PText new_text])
  end.

Fixpoint args_of_parts (parts : list ContentPart) : option Value :=
  match parts with
  | [] => None
  | PToolCall c :: _ => Some (VObject (tc_arguments c))
  | PPromptRequest c :: _ => Some (VObject (pq_arguments c))
  | _ :: parts => args_of_parts parts
  end.

Definition extract_args_from_message (m : Message) : Value :=
  default (VString (get_text_content m)) (args_of_parts (ms_content m)).

Definition with_arguments (c : ToolCall) (args : gmap string Value) : ToolCall :=
  mkToolCall (tc_tool_call_id c) (tc_name c) args (tc_namespace c).
Definition with_prompt_arguments (c : PromptRequest) (args : gmap string Value) : PromptRequest :=
  mkPromptRequest (pq_prompt_request_id c) (pq_name c) args (pq_server_id c).

(** The part the arguments go to; one of another shape is kept as it is. *)
Definition write_args_part (args : Value) (p : ContentPart) : option ContentPart :=
  match p with
  | PToolCall c =>
      Some (PToolCall (match args with VObject obj => with_arguments c obj | _ => c end))
  | PPromptRequest c =>
      Some (PPromptRequest (match args with VObject obj => with_prompt_arguments c obj | _ => c end))
  | _ => None
  end.

Definition write_args_back_to_message (m : Message) (args : Value) : Message :=
  match rewrite_first (write_args_part args) (ms_content m) with
  | Some parts => with_parts m parts
  | None => match as_str args with Some text => rewrite_message_text m text | None => m end
  end.

Fixpoint result_of_parts (parts : list ContentPart) : option Value :=
  match parts with
  | [] => None
  | PToolResult c :: _ => Some (tr_content c)
  | _ :: parts => result_of_parts parts
  end.

Definition extract_result_from_message (m : Message) : Value :=
  default (VString (get_text_content m)) (result_of_parts (ms_content m)).

Definition with_result_content (c : ToolResult) (content : Value) : ToolResult :=
  mkToolResult (tr_tool_call_id c) (tr_tool_name c) content (tr_is_error c).

Definition write_result_part (result : Value) (p : ContentPart) : option ContentPart :=
  match p with
  | PToolResult c => Some (PToolResult (with_result_content c result))
  | _ => None
  end.

Definition write_result_back_to_message (m : Message) (result : Value) : Message :=
  match rewrite_first (write_result_part result) (ms_content m) with
  | Some parts => with_parts m parts
  | None => match as_str result with Some text => rewrite_message_text m text | None => m end
  end.

(** ** Views (view.rs) *)

Record MessageView := mkView {
  vw_part : ContentPart;
  vw_kind : ViewKind;
  vw_role : Role;
  vw_hook : option string;
  vw_extensions : option Extensions
}.

Definition kind_of (part : ContentPart) : ViewKind :=
  match part with
  | PText _ => KText
  | PThinking _ => KThinking
  | PToolCall _ => KToolCall
  | PToolResult _ => KToolResult
  | PResource _ => KResource
  | PResourceRef _ => KResourceRef
  | PPromptRequest _ => KPromptRequest
  | PPromptResult _ => KPromptResult
  | PImage _ => KImage
  | PVideo _ => KVideo
  | PAudio _ => KAudio
  | PDocument _ => KDocument
  end.

Definition view_new (part : ContentPart) (role : Role) (hook : option string)
    (extensions : option Extensions) : MessageView :=
  mkView part (kind_of part) role hook extensions.

Definition iter_views (m : Message) (hook : option string) (extensions : option Extensions) :
    list MessageView :=
  (λ part, view_new part (ms_role m) hook extensions) <$> ms_content m.

Definition default_action (kind : ViewKind) (role : Role) : ViewAction :=
  match kind with
  | KToolCall => VaExecute
  | KToolResult => VaReceive
  | KResource | KResourceRef => VaRead
  | KPromptRequest => VaInvoke
  | KPromptResult => VaReceive
  | KText | KThinking | KImage | KVideo | KAudio | KDocument =>
      match role with
      | RUser => VaSend
      | RAssistant => VaGenerate
      | RTool => VaReceive
      | RSystem | RDeveloper => VaWrite
      end
  end.

Definition view_action (v : MessageView) : ViewAction := default_action (vw_kind v) (vw_role v).

(** [h.contains(word)]. *)
Definition str_contains (word h : string) : bool := negb (is_none (String.index 0 word h)).
Definition is_pre (v : MessageView) : bool :=
  match vw_hook v with Some h => str_contains "pre" h | None => false end.
Definition is_post (v : MessageView) : bool :=
  match vw_hook v with Some h => str_contains "post" h | None => false end.

Definition view_content (v : MessageView) : option string :=
  match vw_part v with
  | PText text | PThinking text => Some text
  | PToolResult tr => as_str (tr_content tr)
  | PResource r => re_content r
  | PPromptResult pr => pt_content pr
  | _ => None
  end.

Definition view_name (v : MessageView) : option string :=
  match vw_part v with
  | PToolCall tc => Some (tc_name tc)
  | PToolResult tr => Some (tr_tool_name tr)
  | PResource r => Some (default (re_uri r) (re_name r))
  | PResourceRef rr => Some (default (rr_uri rr) (rr_name rr))
  | PPromptRequest pr => Some (pq_name pr)
  | PPromptResult pr => Some (pt_prompt_name pr)
  | _ => None
  end.

Definition view_uri (v : MessageView) : option string :=
  match vw_part v with
  | PToolCall tc => Some ("tool://_/" +:+ tc_name tc)
  | PResource r => Some (re_uri r)
  | PResourceRef rr => Some (rr_uri rr)
  | PPromptRequest pr => Some ("prompt://_/" +:+ pq_name pr)
  | _ => None
  end.

Definition view_args (v : MessageView) : option (gmap string Value) :=
  match vw_part v with
  | PToolCall tc => Some (tc_arguments tc)
  | PPromptRequest pr => Some (pq_arguments pr)
  | _ => None
  end.
Definition get_arg (v : MessageView) (name : string) : option Value :=
  a ← view_args v; a !! name.
Definition has_arg (v : MessageView) (name : string) : bool := negb (is_none (get_arg v name)).

Definition view_mime_type (v : MessageView) : option string :=
  match vw_part v with
  | PResource r => re_mime_type r
  | PImage i => im_media_type i
  | PVideo i => vi_media_type i
  | PAudio i => au_media_type i
  | PDocument i => do_media_type i
  | _ => None
  end.

Definition view_is_error (v : MessageView) : bool :=
  match vw_part v with
  | PToolResult tr => tr_is_error tr
  | PPromptResult pr => pt_is_error pr
  | _ => false
  end.

(** *** Serialization *)

Definition kind_text (k : ViewKind) : string :=
  match k with
  | KText => "text" | KThinking => "thinking" | KToolCall => "tool_call"
  | KToolResult => "tool_result" | KResource => "resource" | KResourceRef => "resource_ref"
  | KPromptRequest => "prompt_request" | KPromptResult => "prompt_result" | KImage => "image"
  | KVideo => "video" | KAudio => "audio" | KDocument => "document"
  end.
Definition role_text (r : Role) : string :=
  match r with
  | RSystem => "system" | RDeveloper => "developer" | RUser => "user"
  | RAssistant => "assistant" | RTool => "tool"
  end.
Definition action_text (a : ViewAction) : string :=
  match a with
  | VaRead => "read" | VaWrite => "write" | VaExecute => "execute" | VaInvoke => "invoke"
  | VaSend => "send" | VaReceive => "receive" | VaGenerate => "generate"
  end.
Definition subject_type_text (t : SubjectType) : string :=
  match t with
  | SubjUser => "user" | SubjAgent => "agent" | SubjService => "service" | SubjSystem => "system"
  end.

(** [if let Some(x) = .. { map.insert(key, json!(x)); }] *)
Definition put {A} (key : string) (json : A → Value) (o : option A) (m : gmap string Value) :
    gmap string Value :=
  match o with Some x => <[key := json x]> m | None => m end.

(** A sorted list of a set's elements, inserted when not empty. *)
Definition put_set (key : string) (s : gset string) (m : gmap string Value) : gmap string Value :=
  if bool_decide (s = ∅) then m else <[key := VArray (VString <$> sorted_elements s)]> m.

(** A nested object, inserted when not empty. *)
Definition put_object (key : string) (o : gmap string Value) (m : gmap string Value) :
    gmap string Value :=
  if bool_decide (o = ∅) then m else <[key := VObject o]> m.

Definition json_u (n : Z) : Value := VNumber (PosInt n).

Section Views.
Context `{order : HashOrder} `{UnicodeLower}.

Definition view_has_label (v : MessageView) (label : string) : bool :=
  match e ← vw_extensions v; x_security e with Some s => has_label s label | None => false end.
Definition view_get_header (v : MessageView) (name : string) : option string :=
  h ← (e ← vw_extensions v; x_http e); get_request_header h name.

Definition SENSITIVE_HEADERS : list string := ["authorization"; "cookie"; "x-api-key"].

Definition is_sensitive (name : string) : bool :=
  bool_decide (to_lowercase name ∈ SENSITIVE_HEADERS).

Definition safe_headers (h : HttpExtension) : gmap string string :=
  filter (λ p, is_sensitive p.1 = false) (ht_request_headers h).

Definition subject_map (s : SubjectExtension) : gmap string Value :=
  put_set "teams" (sj_teams s) (put_set "permissions" (sj_permissions s)
    (put_set "roles" (sj_roles s)
      (put "type" (λ t, VString (subject_type_text t)) (sj_subject_type s)
        (put "id" VString (sj_id s) ∅)))).

Definition agent_map (a : AgentExtension) : gmap string Value :=
  put "parent_agent_id" VString (ag_parent_agent_id a) (put "agent_id" VString (ag_agent_id a)
    (put "turn" json_u (ag_turn a) (put "conversation_id" VString (ag_conversation_id a)
      (put "session_id" VString (ag_session_id a) (put "input" VString (ag_input a) ∅))))).

Definition meta_map (m : MetaExtension) : gmap string Value :=
  put_set "tags" (mt_tags m) (put "entity_name" VString (mt_entity_name m)
    (put "entity_type" VString (mt_entity_type m) ∅)).

Definition extension_map (e : Extensions) : gmap string Value :=
  let m := ∅ in
  let m :=
    match x_security e with
    | Some sec =>
        let m := match sc_subject sec with
                 | Some s => put_object "subject" (subject_map s) m
                 | None => m
                 end in
        put_set "labels" (sc_labels sec) m
    | None => m
    end in
  let m :=
    match x_request e with
    | Some r => put "environment" VString (rq_environment (arc_val r)) m
    | None => m
    end in
  let m :=
    match x_http e with
    | Some h => put_object "headers" (VString <$> safe_headers h) m
    | None => m
    end in
  let m :=
    match x_agent e with
    | Some a => put_object "agent" (agent_map (arc_val a)) m
    | None => m
    end in
  match x_meta e with
  | Some t => put_object "meta" (meta_map (arc_val t)) m
  | None => m
  end.

Definition to_dict (v : MessageView) (include_content include_context : bool) : Value :=
  let m : gmap string Value := ∅ in
  let m := <["kind" := VString (kind_text (vw_kind v))]> m in
  let m := <["role" := VString (role_text (vw_role v))]> m in
  let m := <["is_pre" := VBool (is_pre v)]> m in
  let m := <["is_post" := VBool (is_post v)]> m in
  let m := <["action" := VString (action_text (view_action v))]> m in
  let m := put "hook" VString (vw_hook v) m in
  let m := put "uri" VString (view_uri v) m in
  let m := put "name" VString (view_name v) m in
  let m :=
    match view_content v with
    | Some text =>
        if include_content then
          <["content" := VString text]>
            (<["size_bytes" := json_u (Z.of_nat (String.length text))]> m)
        else m
    | None => m
    end in
  let m := put "mime_type" VString (view_mime_type v) m in
  let m := put "arguments" VObject (view_args v) m in
  let m :=
    match vw_extensions v with
    | Some e => if include_context then put_object "extensions" (extension_map e) m else m
    | None => m
    end in
  VObject m.

Definition to_opa_input (v : MessageView) (include_content : bool) : Value :=
  VObject {[ "input" := to_dict v include_content true ]}.

(** ** Properties *)

(** What a serialized view can show of a request: the subject without its
    claims, the labels, the environment, the headers that are not sensitive,
    the agent's ids and the entity. *)
Definition visible_security (s : SecurityExtension) :=
  ((λ j, (sj_id j, sj_subject_type j, sj_roles j, sj_permissions j, sj_teams j)) <$> sc_subject s,
   sc_labels s).
Definition visible (e : Extensions) :=
  (visible_security <$> x_security e, (λ r, rq_environment (arc_val r)) <$> x_request e,
   safe_headers <$> x_http e, (λ a, agent_map (arc_val a)) <$> x_agent e,
   (λ t, meta_map (arc_val t)) <$> x_meta e).

Lemma extension_map_visible e1 e2 : visible e1 = visible e2 → extension_map e1 = extension_map e2.
Proof.
  unfold visible. intros [= Hs Hr Hh Ha Hm]. unfold extension_map.
  assert (∀ m, match x_security e1 with
     | Some sec => put_set "labels" (sc_labels sec)
         (match sc_subject sec with Some s => put_object "subject" (subject_map s) m | None => m end)
     | None => m end
   = match x_security e2 with
     | Some sec => put_set "labels" (sc_labels sec)
         (match sc_subject sec with Some s => put_object "subject" (subject_map s) m | None => m end)
     | None => m end) as Hsec.
  { intros m. destruct (x_security e1) as [s1|], (x_security e2) as [s2|]; try done.
    injection Hs as Hsub Hl. rewrite Hl.
    destruct (sc_subject s1) as [j1|], (sc_subject s2) as [j2|]; try done.
    injection Hsub as H1 H2 H3 H4 H5. unfold subject_map. by rewrite H1, H2, H3, H4, H5. }
  rewrite Hsec.
  destruct (x_request e1), (x_request e2); simplify_eq/=;
    destruct (x_http e1), (x_http e2); simplify_eq/=;
    destruct (x_agent e1), (x_agent e2); simplify_eq/=;
    destruct (x_meta e1), (x_meta e2); simplify_eq/=;
    repeat match goal with Hx : _ = _ |- _ => rewrite Hx; clear Hx end; done.
Qed.

(** A serialized view shows nothing else of the request: two requests that
    agree on the visible part serialize to the same JSON, so claims, client and
    workload identities, raw credentials, delegation, sensitive headers in any
    spelling and the agent's history never reach a policy engine this way. *)
Theorem view_hides_the_rest part role hook e1 e2 content context :
  visible e1 = visible e2 →
  to_dict (view_new part role hook (Some e1)) content context
  = to_dict (view_new part role hook (Some e2)) content context.
Proof.
  intros Hv. unfold to_dict. simpl. destruct context; [|done].
  by rewrite (extension_map_visible _ _ Hv).
Qed.

End Views.

(** *** Projections *)

(** The parts before the first one that [f] rewrites are untouched by [f]. *)
Lemma rewrite_first_split f parts parts' :
  rewrite_first f parts = Some parts' →
  ∃ l p p' r, parts = l ++ p :: r ∧ parts' = l ++ p' :: r ∧ f p = Some p' ∧ Forall (λ x, f x = None) l.
Proof.
  revert parts'. induction parts as [|p parts IH]; intros parts'; [done|]. simpl.
  destruct (f p) as [p'|] eqn:E; [intros [= <-]; by exists [], p, p', parts|].
  destruct (rewrite_first f parts) as [q|]; [|done]. intros [= <-].
  destruct (IH q) as (l & x & x' & r & -> & -> & Hx & Hl); [done|].
  exists (p :: l), x, x', r. split_and!; [done|done|done|by constructor].
Qed.

Lemma rewrite_first_none f parts : rewrite_first f parts = None ↔ Forall (λ x, f x = None) parts.
Proof.
  induction parts as [|p parts IH]; simpl; [by split|]. rewrite Forall_cons.
  destruct (f p); [split; [done|by intros []]|].
  destruct (rewrite_first f parts); naive_solver.
Qed.

(** Whether a message has a part that carries arguments, or a tool result. *)
Definition has_args (m : Message) : bool := negb (is_none (args_of_parts (ms_content m))).
Definition has_result (m : Message) : bool := negb (is_none (result_of_parts (ms_content m))).

Lemma args_of_rewrite l p r args :
  Forall (λ x, write_args_part args x = None) l →
  args_of_parts (l ++ p :: r) = args_of_parts (p :: r).
Proof. induction 1 as [|x l Hx Hl IH]; [done|]. by destruct x. Qed.

Lemma result_of_rewrite l p r result :
  Forall (λ x, write_result_part result x = None) l →
  result_of_parts (l ++ p :: r) = result_of_parts (p :: r).
Proof. induction 1 as [|x l Hx Hl IH]; [done|]. by destruct x. Qed.

Lemma has_args_rewrite m args :
  has_args m = true → ∃ parts, rewrite_first (write_args_part args) (ms_content m) = Some parts.
Proof.
  unfold has_args. induction (ms_content m) as [|p parts IH]; [done|].
  destruct p; simpl; eauto; intros Hh; destruct (IH Hh) as [q ->]; eauto.
Qed.

Lemma has_result_rewrite m result :
  has_result m = true → ∃ parts, rewrite_first (write_result_part result) (ms_content m) = Some parts.
Proof.
  unfold has_result. induction (ms_content m) as [|p parts IH]; [done|].
  destruct p; simpl; eauto; intros Hh; destruct (IH Hh) as [q ->]; eauto.
Qed.

Lemma with_parts_id m : with_parts m (ms_content m) = m.
Proof. by destruct m. Qed.

(** Projecting arguments or a result out of a message and writing them back
    changes nothing, and what is written is what the next projection reads, for
    every message with a part that carries them; the role, the channel and the
    number of parts stay. *)
Theorem projection_roundtrip m :
  (has_args m = true →
     write_args_back_to_message m (extract_args_from_message m) = m
     ∧ ∀ obj, let m' := write_args_back_to_message m (VObject obj) in
         extract_args_from_message m' = VObject obj ∧ length (ms_content m') = length (ms_content m)
         ∧ ms_role m' = ms_role m ∧ ms_channel m' = ms_channel m)
  ∧ (has_result m = true →
     write_result_back_to_message m (extract_result_from_message m) = m
     ∧ ∀ v, let m' := write_result_back_to_message m v in
         extract_result_from_message m' = v ∧ length (ms_content m') = length (ms_content m)
         ∧ ms_role m' = ms_role m ∧ ms_channel m' = ms_channel m).
Proof.
  split; intros Hh.
  - assert (∀ args, ∃ l p p' r, ms_content m = l ++ p :: r
      ∧ write_args_back_to_message m args = with_parts m (l ++ p' :: r)
      ∧ write_args_part args p = Some p' ∧ Forall (λ x, write_args_part args x = None) l) as Hw.
    { intros args. destruct (has_args_rewrite m args Hh) as [parts Hp].
      pose proof (rewrite_first_split _ _ _ Hp) as (l & p & p' & r & He & -> & Hf & Hl).
      exists l, p, p', r. split_and!; [done| |done|done]. unfold write_args_back_to_message. by rewrite Hp. }
    split.
    + destruct (Hw (extract_args_from_message m)) as (l & p & p' & r & He & -> & Hf & Hl).
      unfold extract_args_from_message in Hf. rewrite He, (args_of_rewrite l p r _ Hl) in Hf.
      rewrite <- (with_parts_id m) at 2. rewrite He. do 2 f_equal.
      destruct p; simplify_eq/=; by destruct content.
    + intros obj m'. destruct (Hw (VObject obj)) as (l & p & p' & r & He & Hm & Hf & Hl).
      unfold m'. rewrite Hm. unfold extract_args_from_message. simpl.
      rewrite (args_of_rewrite l p' r _ Hl), He, !length_app. by destruct p; simplify_eq/=.
  - assert (∀ v, ∃ l p p' r, ms_content m = l ++ p :: r
      ∧ write_result_back_to_message m v = with_parts m (l ++ p' :: r)
      ∧ write_result_part v p = Some p' ∧ Forall (λ x, write_result_part v x = None) l) as Hw.
    { intros v. destruct (has_result_rewrite m v Hh) as [parts Hp].
      pose proof (rewrite_first_split _ _ _ Hp) as (l & p & p' & r & He & -> & Hf & Hl).
      exists l, p, p', r. split_and!; [done| |done|done]. unfold write_result_back_to_message. by rewrite Hp. }
    split.
    + destruct (Hw (extract_result_from_message m)) as (l & p & p' & r & He & -> & Hf & Hl).
      unfold extract_result_from_message in Hf. rewrite He, (result_of_rewrite l p r _ Hl) in Hf.
      rewrite <- (with_parts_id m) at 2. rewrite He. do 2 f_equal.
      destruct p; simplify_eq/=; by destruct content.
    + intros v m'. destruct (Hw v) as (l & p & p' & r & He & Hm & Hf & Hl).
      unfold m'. rewrite Hm. unfold extract_result_from_message. simpl.
      rewrite (result_of_rewrite l p' r _ Hl), He, !length_app. by destruct p; simplify_eq/=.
Qed.

(** A text message round-trips when it has one text part; with two, the
    concatenated text is written into the first and the second stays, so text
    is duplicated. *)
Lemma text_roundtrip role a : 
  write_args_back_to_message (message_text role a) (extract_args_from_message (message_text role a))
  = message_text role a.
Proof.
  unfold write_args_back_to_message, extract_args_from_message, get_text_content. simpl.
  unfold rewrite_message_text, with_parts, message_text. simpl. by rewrite append_empty_r.
Qed.

Lemma text_writeback_duplicates role a b :
  let m := message_with_content role [PText a; PText b] in
  get_text_content (write_args_back_to_message m (extract_args_from_message m)) = a +:+ b +:+ b.
Proof.
  simpl. unfold write_args_back_to_message, rewrite_message_text, extract_args_from_message,
    get_text_content. simpl. by rewrite !append_empty_r, append_assoc.
Qed.

(** ** Witnesses *)

Module MessageDemo.

#[local] Instance ascii_lower : UnicodeLower := to_ascii_lowercase.

Definition with_headers (headers : gmap string string) : Extensions :=
  mkExtensions None None (Some (mkHttp headers ∅ None None None None)) None None None None None None
    None None None None None None None None.

Lemma view_hides_witness :
  to_dict (view_new (PText "hi") RUser None
             (Some (with_headers {[ "Authorization" := "a"; "Accept" := "json" ]}))) true true
  = to_dict (view_new (PText "hi") RUser None
             (Some (with_headers {[ "AUTHORIZATION" := "b"; "Accept" := "json" ]}))) true true.
Proof. apply (view_hides_the_rest (PText "hi") RUser None). vm_compute. reflexivity. Defined.

End MessageDemo.
