(* ===== verification/Bag.v ===== *)
(** * The attribute vocabulary (apl-cmf/src/*.rs)

    Flattening of the typed extensions, of arguments, results and the static
    data tree into the attribute bag, the [BagBuilder], and the table of the
    namespaces a capability unlocks.  Sets and maps are iterated in the order
    of the class [HashOrder]. *)

From S2P Require Import Prelude RustStd F64 Json JsonMerge Attributes ExtData Headers Routing.
From S2P Require Import Extensions.

Local Open Scope string_scope.
Local Open Scope list_scope.

(** ** Writing to the bag *)

(** [if let Some(v) = .. { bag.set(key, v) }]. *)
Definition set_opt {A} (key : string) (attr : A → AttributeValue) (o : option A) (bag : AttributeBag) :
    AttributeBag :=
  match o with Some v => bag_set bag key (attr v) | None => bag end.

(** A [Vec] or a set of strings, written when not empty. *)
Definition set_strings (key : string) (s : gset string) (bag : AttributeBag) : AttributeBag :=
  if bool_decide (s = ∅) then bag else bag_set bag key (AStringSet s).

Definition set_string (key : string) : option string → AttributeBag → AttributeBag :=
  set_opt key AString.

(** [u64 as i64]. *)
Definition u64_as_i64 (n : Z) : Z := if (n <=? i64_max)%Z then n else (n - 2 ^ 64)%Z.

Section Extract.
Context `{order : HashOrder} `{UnicodeLower}.

(** A presence-only key per element: [for x in .. { bag.set(prefix + x, true) }]. *)
Definition set_flags (prefix : string) (l : list string) (bag : AttributeBag) : AttributeBag :=
  foldl (λ bag x, bag_set bag (prefix +:+ x) (ABool true)) bag l.

(** ** JSON payloads (payload.rs) *)

(** The strings of an array, if all its items are strings. *)
Fixpoint all_strings (items : list Value) : option (gset string) :=
  match items with
  | [] => Some ∅
  | item :: items => s ← as_str item; rest ← all_strings items; Some ({[ s ]} ∪ rest)
  end.

Definition walk_number (n : Number) (prefix : string) (bag : AttributeBag) : AttributeBag :=
  match number_as_i64 n with
  | Some i => bag_set bag prefix (AInt i)
  | None =>
      bag_set bag prefix
        (AFloat (match n with PosInt z | NegInt z => f64_of_Z z | NumFloat f => f end))
  end.

Fixpoint walk (fuel : nat) (value : Value) (prefix : string) (bag : AttributeBag) : AttributeBag :=
  match fuel with
  | O => bag
  | S fuel =>
      match value with
      | VObject m =>
          foldl (λ bag '(key, sub),
                   let dotted := if String.eqb prefix EmptyString then key else prefix +:+ "." +:+ key in
                   walk fuel sub dotted bag)
            bag (map_iter m)
      | VArray items =>
          match all_strings items with Some s => set_strings prefix s bag | None => bag end
      | VString s => bag_set bag prefix (AString s)
      | VBool b => bag_set bag prefix (ABool b)
      | VNumber n => walk_number n prefix bag
      | Null => bag
      end
  end.

(** The recursion descends in the value. *)
Definition walk_value (value : Value) (prefix : string) (bag : AttributeBag) : AttributeBag :=
  walk (S (value_depth value)) value prefix bag.

Definition extract_args (args : Value) : AttributeBag → AttributeBag := walk_value args "args".
Definition extract_result (result : Value) : AttributeBag → AttributeBag := walk_value result "result".
Definition extract_data_tree (tree : AttributeTree) : AttributeBag → AttributeBag :=
  walk_value (as_value tree) "data".

(** Each entry of a map of JSON values under its own key. *)
Definition walk_entries (prefix : string) (m : gmap string Value) (bag : AttributeBag) : AttributeBag :=
  foldl (λ bag '(k, v), walk_value v (prefix +:+ k) bag) bag (map_iter m).

(** ** Identity (security.rs) *)

Definition subject_type_str (t : SubjectType) : string :=
  match t with
  | SubjUser => "user" | SubjAgent => "agent" | SubjService => "service" | SubjSystem => "system"
  end.

Definition trust_level_str (l : ClientTrustLevel) : string :=
  match l with
  | FirstParty => "first_party" | ThirdParty => "third_party" | InternalClient => "internal"
  | CustomTrust s => s
  end.

Definition extract_client (c : ClientExtension) (bag : AttributeBag) : AttributeBag :=
  let bag := bag_set bag "client.client_id" (AString (cl_client_id c)) in
  let bag := set_string "client.client_name" (cl_client_name c) bag in
  let bag := bag_set bag "client.trust_level" (AString (trust_level_str (cl_trust_level c))) in
  let bag := set_flags "client.role." (cl_roles c) bag in
  let bag := set_flags "client.perm." (cl_permissions c) bag in
  let bag := set_strings "client.authorized_scopes" (list_to_set (cl_authorized_scopes c)) bag in
  let bag := set_strings "client.authorized_audiences" (list_to_set (cl_authorized_audiences c)) bag in
  let bag := set_strings "client.teams" (list_to_set (cl_teams c)) bag in
  walk_entries "client.claim." (cl_claims c) bag.

Definition extract_workload (prefix : string) (w : WorkloadIdentity) (bag : AttributeBag) : AttributeBag :=
  let bag := set_string (prefix +:+ ".spiffe_id") (wl_spiffe_id w) bag in
  let bag := set_string (prefix +:+ ".trust_domain") (wl_trust_domain w) bag in
  let bag := set_string (prefix +:+ ".attestor") (wl_attestor w) bag in
  let bag := set_strings (prefix +:+ ".selectors") (list_to_set (wl_selectors w)) bag in
  set_string (prefix +:+ ".client_id") (wl_client_id w) bag.

Definition extract_subject (s : SubjectExtension) (bag : AttributeBag) : AttributeBag :=
  let bag := set_string "subject.id" (sj_id s) bag in
  let bag := set_opt "subject.type" (λ t, AString (subject_type_str t)) (sj_subject_type s) bag in
  let bag := set_flags "role." (set_iter (sj_roles s)) bag in
  let bag := set_flags "perm." (set_iter (sj_permissions s)) bag in
  let bag :=
    if bool_decide (sj_teams s = ∅) then bag
    else set_flags "team." (set_iter (sj_teams s)) (bag_set bag "subject.teams" (AStringSet (sj_teams s))) in
  let bag := foldl (λ bag '(k, v), bag_set bag ("claim." +:+ k) (AString v)) bag (map_iter (sj_claims s)) in
  if is_none (sj_id s) then bag else bag_set bag "authenticated" (ABool true).

Definition extract_security (sec : SecurityExtension) (bag : AttributeBag) : AttributeBag :=
  let bag := match sc_subject sec with Some s => extract_subject s bag | None => bag end in
  let bag := match sc_client sec with Some c => extract_client c bag | None => bag end in
  let bag := match sc_caller_workload sec with
             | Some w => extract_workload "caller_workload" w bag
             | None => bag
             end in
  let bag := match sc_this_workload sec with
             | Some w => extract_workload "this_workload" w bag
             | None => bag
             end in
  let bag := set_string "auth_method" (sc_auth_method sec) bag in
  let bag := set_strings "security.labels" (sc_labels sec) bag in
  set_string "security.classification" (sc_classification sec) bag.

(** ** The other slots *)

Definition extract_delegation (d : DelegationExtension) (bag : AttributeBag) : AttributeBag :=
  let bag := bag_set bag "delegation.depth" (AInt (dg_depth d)) in
  let bag := bag_set bag "delegation.delegated" (ABool (dg_delegated d)) in
  let bag := bag_set bag "delegated" (ABool (dg_delegated d)) in
  let bag := set_string "delegation.origin_subject_id" (dg_origin_subject_id d) bag in
  let bag := set_string "delegation.actor_subject_id" (dg_actor_subject_id d) bag in
  bag_set bag "delegation.age_seconds" (AFloat (dg_age_seconds d)).

Definition extract_agent (a : AgentExtension) (bag : AttributeBag) : AttributeBag :=
  let bag := set_string "agent.input" (ag_input a) bag in
  let bag := set_string "agent.session_id" (ag_session_id a) bag in
  let bag := set_string "agent.conversation_id" (ag_conversation_id a) bag in
  let bag := set_opt "agent.turn" AInt (ag_turn a) bag in
  let bag := set_string "agent.agent_id" (ag_agent_id a) bag in
  let bag := set_string "agent.parent_agent_id" (ag_parent_agent_id a) bag in
  match ag_conversation a with
  | Some conv =>
      let bag := set_string "agent.conversation.summary" (cv_summary conv) bag in
      set_strings "agent.conversation.topics" (list_to_set (cv_topics conv)) bag
  | None => bag
  end.

Definition extract_meta (m : MetaExtension) (bag : AttributeBag) : AttributeBag :=
  let bag := set_string "meta.entity_type" (mt_entity_type m) bag in
  let bag := set_string "meta.entity_name" (mt_entity_name m) bag in
  let bag := set_strings "meta.tags" (mt_tags m) bag in
  let bag := set_string "meta.scope" (mt_scope m) bag in
  foldl (λ bag '(k, v), bag_set bag ("meta.properties." +:+ k) (AString v)) bag (map_iter (mt_properties m)).

Definition extract_request (r : RequestExtension) (bag : AttributeBag) : AttributeBag :=
  let bag := set_string "request.environment" (rq_environment r) bag in
  let bag := set_string "request.request_id" (rq_request_id r) bag in
  let bag := set_string "request.timestamp" (rq_timestamp r) bag in
  let bag := set_string "request.trace_id" (rq_trace_id r) bag in
  set_string "request.span_id" (rq_span_id r) bag.

Definition set_headers (prefix : string) (headers : gmap string string) (bag : AttributeBag) : AttributeBag :=
  foldl (λ bag '(k, v), bag_set bag (prefix +:+ to_lowercase k) (AString v)) bag (map_iter headers).

Definition extract_http (h : HttpExtension) (bag : AttributeBag) : AttributeBag :=
  let bag := set_string "http.method" (ht_method h) bag in
  let bag := set_string "http.path" (ht_path h) bag in
  let bag := set_string "http.host" (ht_host h) bag in
  let bag := set_string "http.scheme" (ht_scheme h) bag in
  let bag := set_headers "http.request_headers." (ht_request_headers h) bag in
  set_headers "http.response_headers." (ht_response_headers h) bag.

Definition extract_llm (l : LLMExtension) (bag : AttributeBag) : AttributeBag :=
  let bag := set_string "llm.model_id" (llm_model_id l) bag in
  let bag := set_string "llm.provider" (llm_provider l) bag in
  set_strings "llm.capabilities" (list_to_set (llm_capabilities l)) bag.

Definition extract_mcp_tool (t : ToolMetadata) (bag : AttributeBag) : AttributeBag :=
  let bag := bag_set bag "mcp.tool.name" (AString (tl_name t)) in
  let bag := set_string "mcp.tool.title" (tl_title t) bag in
  let bag := set_string "mcp.tool.description" (tl_description t) bag in
  let bag := set_string "mcp.tool.server_id" (tl_server_id t) bag in
  set_string "mcp.tool.namespace" (tl_namespace t) bag.
Definition extract_mcp_resource (r : ResourceMetadata) (bag : AttributeBag) : AttributeBag :=
  let bag := bag_set bag "mcp.resource.uri" (AString (rm_uri r)) in
  let bag := set_string "mcp.resource.name" (rm_name r) bag in
  let bag := set_string "mcp.resource.description" (rm_description r) bag in
  let bag := set_string "mcp.resource.mime_type" (rm_mime_type r) bag in
  set_string "mcp.resource.server_id" (rm_server_id r) bag.
Definition extract_mcp_prompt (p : PromptMetadata) (bag : AttributeBag) : AttributeBag :=
  let bag := bag_set bag "mcp.prompt.name" (AString (pm_name p)) in
  let bag := set_string "mcp.prompt.description" (pm_description p) bag in
  set_string "mcp.prompt.server_id" (pm_server_id p) bag.
Definition extract_mcp (m : MCPExtension) (bag : AttributeBag) : AttributeBag :=
  let bag := match mcp_tool m with Some t => extract_mcp_tool t bag | None => bag end in
  let bag := match mcp_resource m with Some r => extract_mcp_resource r bag | None => bag end in
  match mcp_prompt m with Some p => extract_mcp_prompt p bag | None => bag end.

Definition stop_reason_str (s : StopReason) : string :=
  match s with
  | StopEnd => "end" | StopReturn => "return" | StopCall => "call"
  | StopMaxTokens => "max_tokens" | StopSequence => "stop_sequence"
  end.

Definition extract_completion (c : CompletionExtension) (bag : AttributeBag) : AttributeBag :=
  let bag := set_opt "completion.stop_reason" (λ s, AString (stop_reason_str s)) (co_stop_reason c) bag in
  let bag :=
    match co_tokens c with
    | Some tu =>
        bag_set (bag_set (bag_set bag "completion.tokens.input" (AInt (tu_input_tokens tu)))
                   "completion.tokens.output" (AInt (tu_output_tokens tu)))
          "completion.tokens.total" (AInt (tu_total_tokens tu))
    | None => bag
    end in
  let bag := set_string "completion.model" (co_model c) bag in
  let bag := set_string "completion.raw_format" (co_raw_format c) bag in
  let bag := set_string "completion.created_at" (co_created_at c) bag in
  set_opt "completion.latency_ms" (λ ms, AInt (u64_as_i64 ms)) (co_latency_ms c) bag.

Definition extract_provenance (p : ProvenanceExtension) (bag : AttributeBag) : AttributeBag :=
  let bag := set_string "provenance.source" (pv_source p) bag in
  let bag := set_string "provenance.message_id" (pv_message_id p) bag in
  set_string "provenance.parent_id" (pv_parent_id p) bag.

Definition extract_framework (f : FrameworkExtension) (bag : AttributeBag) : AttributeBag :=
  let bag := set_string "framework.framework" (fw_framework f) bag in
  let bag := set_string "framework.framework_version" (fw_framework_version f) bag in
  let bag := set_string "framework.node_id" (fw_node_id f) bag in
  let bag := set_string "framework.graph_id" (fw_graph_id f) bag in
  walk_entries "framework.metadata." (fw_metadata f) bag.

Definition extract_custom (custom : gmap string Value) (bag : AttributeBag) : AttributeBag :=
  walk_entries "custom." custom bag.

(** ** All slots (extensions_bridge.rs) *)

Definition extract_slot {A} (f : A → AttributeBag → AttributeBag) (slot : option A)
    (bag : AttributeBag) : AttributeBag :=
  match slot with Some v => f v bag | None => bag end.

Definition extract_extensions (e : Extensions) (bag : AttributeBag) : AttributeBag :=
  let bag := extract_slot extract_security (x_security e) bag in
  let bag := extract_slot extract_delegation (x_delegation e) bag in
  let bag := extract_slot (λ a, extract_agent (arc_val a)) (x_agent e) bag in
  let bag := extract_slot (λ a, extract_meta (arc_val a)) (x_meta e) bag in
  let bag := extract_slot (λ a, extract_request (arc_val a)) (x_request e) bag in
  let bag := extract_slot extract_http (x_http e) bag in
  let bag := extract_slot (λ a, extract_llm (arc_val a)) (x_llm e) bag in
  let bag := extract_slot (λ a, extract_mcp (arc_val a)) (x_mcp e) bag in
  let bag := extract_slot (λ a, extract_completion (arc_val a)) (x_completion e) bag in
  let bag := extract_slot (λ a, extract_provenance (arc_val a)) (x_provenance e) bag in
  let bag := extract_slot (λ a, extract_framework (arc_val a)) (x_framework e) bag in
  extract_slot extract_custom (x_custom e) bag.

(** ** [BagBuilder] (lib.rs) *)

Definition with_security (sec : SecurityExtension) (bag : AttributeBag) := extract_security sec bag.
Definition with_delegation (d : DelegationExtension) (bag : AttributeBag) := extract_delegation d bag.
Definition with_extensions (e : Extensions) (bag : AttributeBag) := extract_extensions e bag.
Definition with_args (args : Value) (bag : AttributeBag) := extract_args args bag.
Definition with_result (result : Value) (bag : AttributeBag) := extract_result result bag.
Definition with_data (tree : AttributeTree) (bag : AttributeBag) := extract_data_tree tree bag.
Definition with_route_key (route_key : string) (bag : AttributeBag) : AttributeBag :=
  bag_set bag "route.key" (AString route_key).

End Extract.

(** ** The capability table (capability_namespaces.rs) *)

Definition SUBJECT_BASE : list string := ["subject.id"; "subject.type"; "authenticated"].

Definition TABLE : list (string * list string) :=
  [("read_subject", SUBJECT_BASE);
   ("read_roles", "role." :: SUBJECT_BASE);
   ("read_permissions", "perm." :: SUBJECT_BASE);
   ("read_teams", "subject.teams" :: SUBJECT_BASE);
   ("read_claims", "claim." :: SUBJECT_BASE);
   ("read_labels", []);
   ("read_client", ["client."]);
   ("read_workload", ["workload."; "caller_workload."]);
   ("read_inbound_credentials", []);
   ("read_delegated_tokens", []);
   ("read_delegation", ["delegation."; "delegated"]);
   ("read_agent", ["agent."]);
   ("read_meta", ["meta."]);
   ("read_request", ["request."]);
   ("read_headers", ["http.request_headers."; "http.response_headers."; "http.method"; "http.path";
                     "http.host"; "http.scheme"]);
   ("read_llm", ["llm."]);
   ("read_mcp", ["mcp."]);
   ("read_completion", ["completion."]);
   ("read_provenance", ["provenance."]);
   ("read_framework", ["framework."]);
   ("read_custom", ["custom."])].

Definition capability_namespaces (cap : string) : list string :=
  default [] (snd <$> List.find (λ e, String.eqb e.1 cap) TABLE).

Definition unlocked_bag_prefixes (caps : list string) : gset string :=
  list_to_set (flat_map capability_namespaces caps).

Definition known_read_capabilities : list string := TABLE.*1.

(** ** Namespaces *)

(** A pattern of the table: one that ends in a dot covers the keys below it,
    any other is a key. *)
Fixpoint ends_with_dot (s : string) : bool :=
  match s with
  | EmptyString => false
  | String c EmptyString => Ascii.eqb c dot
  | String _ s => ends_with_dot s
  end.
Definition covers (pattern key : string) : bool :=
  if ends_with_dot pattern then starts_with pattern key else String.eqb pattern key.
Definition in_ns (patterns : list string) (key : string) : bool := existsb (λ p, covers p key) patterns.

(** [b1] and [b2] differ at most at the keys of [N]. *)
Definition off (N : string → Prop) (b1 b2 : AttributeBag) : Prop :=
  ∀ key, ¬ N key → bag_get b1 key = bag_get b2 key.

Lemma starts_with_app p s : starts_with p (p +:+ s) = true.
Proof. unfold starts_with. by rewrite (proj2 (strip_prefix_spec p (p +:+ s) s) eq_refl). Qed.

Lemma starts_with_inv p s : starts_with p s = true → ∃ r, s = p +:+ r.
Proof.
  unfold starts_with. destruct (strip_prefix p s) as [r|] eqn:E; [|done]. exists r.
  by apply strip_prefix_spec.
Qed.

Lemma in_ns_below p patterns s :
  existsb (λ q, ends_with_dot q && starts_with q p) patterns = true → in_ns patterns (p +:+ s) = true.
Proof.
  unfold in_ns. rewrite !existsb_exists. intros (q & Hq & Hd). apply andb_true_iff in Hd as [Hd Hs].
  exists q. split; [done|]. unfold covers. rewrite Hd. apply starts_with_inv in Hs as [r ->].
  rewrite append_assoc. apply starts_with_app.
Qed.

Section Off.
Context `{order : HashOrder} `{UnicodeLower} (N : string → Prop).
Implicit Types b : AttributeBag.

Lemma off_refl b : off N b b.
Proof. done. Qed.

Lemma off_trans b1 b2 b3 : off N b1 b2 → off N b2 b3 → off N b1 b3.
Proof. intros H1 H2 key Hk. by rewrite H1, H2. Qed.

Lemma off_set b b0 k v : N k → off N b b0 → off N (bag_set b k v) b0.
Proof. intros Hk Hb key Hn. rewrite <- Hb by done. apply bag_set_get_ne. by intros ->. Qed.

Lemma off_opt {A} k (attr : A → AttributeValue) o b b0 : N k → off N b b0 → off N (set_opt k attr o b) b0.
Proof. intros Hk Hb. destruct o; simpl; [by apply off_set|done]. Qed.

Lemma off_strings k s b b0 : N k → off N b b0 → off N (set_strings k s b) b0.
Proof. intros Hk Hb. unfold set_strings. case_bool_decide; [done|by apply off_set]. Qed.

Lemma off_foldl {A} (g : AttributeBag → A → AttributeBag) l b b0 :
  (∀ b x, x ∈ l → off N (g b x) b) → off N b b0 → off N (foldl g b l) b0.
Proof.
  revert b. induction l as [|x l IH]; intros b Hg Hb; simpl; [done|].
  apply IH; [intros b' y Hy; apply Hg; by right|].
  eapply off_trans; [|exact Hb]. apply Hg. by left.
Qed.

Lemma off_flags prefix l b b0 :
  (∀ x, N (prefix +:+ x)) → off N b b0 → off N (set_flags prefix l b) b0.
Proof. intros Hp. apply off_foldl. intros b' x _. by apply off_set. Qed.

Lemma off_headers prefix m b b0 :
  (∀ x, N (prefix +:+ x)) → off N b b0 → off N (set_headers prefix m b) b0.
Proof. intros Hp. apply off_foldl. intros b' [k v] _. by apply off_set. Qed.

Lemma off_pairs prefix (m : gmap string string) b b0 :
  (∀ x, N (prefix +:+ x)) → off N b b0 →
  off N (foldl (λ bag '(k, v), bag_set bag (prefix +:+ k) (AString v)) b (map_iter m)) b0.
Proof. intros Hp. apply off_foldl. intros b' [k v] _. by apply off_set. Qed.

Lemma off_walk fuel v prefix b b0 :
  prefix ≠ EmptyString → N prefix → (∀ x, N (prefix +:+ "." +:+ x)) →
  off N b b0 → off N (walk fuel v prefix b) b0.
Proof.
  revert v prefix b b0. induction fuel as [|fuel IH]; intros v prefix b b0 Hne Hp Hx Hb; [done|].
  simpl. destruct v as [|bo|n|s|l|m]; [done|by apply off_set| |by apply off_set| |].
  - unfold walk_number. destruct (number_as_i64 n); by apply off_set.
  - destruct (all_strings l); [by apply off_strings|done].
  - apply off_foldl; [|done]. intros b' [k sub] _.
    destruct (String.eqb_spec prefix EmptyString) as [->|_]; [done|].
    apply IH; [|apply Hx| |apply off_refl].
    + by destruct prefix.
    + intros x. rewrite !append_assoc. apply Hx.
Qed.

Lemma off_walk_entries prefix m b b0 :
  prefix ≠ EmptyString → (∀ x, N (prefix +:+ x)) → off N b b0 → off N (walk_entries prefix m b) b0.
Proof.
  intros Hne Hp. apply off_foldl. intros b' [k v] _. apply off_walk; [|apply Hp| |apply off_refl].
  - by destruct prefix.
  - intros x. rewrite append_assoc. apply Hp.
Qed.

Lemma off_slot {A} (f : A → AttributeBag → AttributeBag) o b b0 :
  (∀ v, o = Some v → off N (f v b) b) → off N b b0 → off N (extract_slot f o b) b0.
Proof.
  intros Hf Hb. destruct o as [v|]; simpl; [|done]. eapply off_trans; [by apply Hf|exact Hb].
Qed.

Definition allows (patterns : list string) : Prop := ∀ key, in_ns patterns key = true → N key.

Lemma allows_key patterns key : allows patterns → in_ns patterns key = true → N key.
Proof. auto. Qed.

Lemma allows_below patterns prefix x :
  allows patterns → existsb (λ q, ends_with_dot q && starts_with q prefix) patterns = true →
  N (prefix +:+ x).
Proof. intros Ha Hp. by apply Ha, in_ns_below. Qed.

End Off.

Create HintDb off.
#[export] Hint Resolve off_refl off_set off_opt off_strings off_flags off_headers off_pairs
  off_walk_entries : off.

(** *** What each extractor writes *)

(** Discharge [off] goals for a chain of writes: keys by evaluation. *)
Ltac solve_key Ha :=
  first [ eapply allows_key; [exact Ha|reflexivity]
        | intros ?; eapply allows_below; [exact Ha|reflexivity]
        | reflexivity
        | intros ?; apply in_ns_below; reflexivity ].
Ltac solve_off Ha :=
  repeat first
    [ apply off_refl
    | apply off_set; [solve_key Ha|]
    | apply off_opt; [solve_key Ha|]
    | apply off_strings; [solve_key Ha|]
    | apply off_flags; [solve_key Ha|]
    | apply off_headers; [solve_key Ha|]
    | apply off_pairs; [solve_key Ha|]
    | apply off_walk_entries; [done|solve_key Ha|]
    | case_bool_decide | case_match ].

Section Writes.
Context `{order : HashOrder} `{UnicodeLower} (N : string → Prop).

Lemma writes_args v bag : allows N ["args"; "args."] → off N (extract_args v bag) bag.
Proof. intros Ha. apply off_walk; [done|solve_key Ha| |apply off_refl]. intros x.
  apply (allows_below N _ "args." x Ha). reflexivity. Qed.
Lemma writes_result v bag : allows N ["result"; "result."] → off N (extract_result v bag) bag.
Proof. intros Ha. apply off_walk; [done|solve_key Ha| |apply off_refl]. intros x.
  apply (allows_below N _ "result." x Ha). reflexivity. Qed.
Lemma writes_data t bag : allows N ["data"; "data."] → off N (extract_data_tree t bag) bag.
Proof. intros Ha. apply off_walk; [done|solve_key Ha| |apply off_refl]. intros x.
  apply (allows_below N _ "data." x Ha). reflexivity. Qed.

Lemma writes_client c bag : allows N ["client."] → off N (extract_client c bag) bag.
Proof. intros Ha. unfold extract_client, set_string. solve_off Ha. Qed.
Lemma writes_workload p w bag :
  p = "caller_workload" ∨ p = "this_workload" → allows N [p +:+ "."] → off N (extract_workload p w bag) bag.
Proof. intros [->| ->] Ha; unfold extract_workload, set_string; simpl in *; solve_off Ha. Qed.
Lemma writes_delegation d bag : allows N ["delegation."; "delegated"] → off N (extract_delegation d bag) bag.
Proof. intros Ha. unfold extract_delegation, set_string. solve_off Ha. Qed.
Lemma writes_agent a bag : allows N ["agent."] → off N (extract_agent a bag) bag.
Proof. intros Ha. unfold extract_agent, set_string. solve_off Ha. Qed.
Lemma writes_meta m bag : allows N ["meta."] → off N (extract_meta m bag) bag.
Proof. intros Ha. unfold extract_meta, set_string. solve_off Ha. Qed.
Lemma writes_request r bag : allows N ["request."] → off N (extract_request r bag) bag.
Proof. intros Ha. unfold extract_request, set_string. solve_off Ha. Qed.
Lemma writes_http h bag :
  allows N (capability_namespaces "read_headers") → off N (extract_http h bag) bag.
Proof. intros Ha. unfold extract_http, set_string. solve_off Ha. Qed.
Lemma writes_llm l bag : allows N ["llm."] → off N (extract_llm l bag) bag.
Proof. intros Ha. unfold extract_llm, set_string. solve_off Ha. Qed.
Lemma writes_mcp m bag : allows N ["mcp."] → off N (extract_mcp m bag) bag.
Proof.
  intros Ha. unfold extract_mcp, extract_mcp_tool, extract_mcp_resource, extract_mcp_prompt, set_string.
  solve_off Ha.
Qed.
Lemma writes_completion c bag : allows N ["completion."] → off N (extract_completion c bag) bag.
Proof. intros Ha. unfold extract_completion, set_string. solve_off Ha. Qed.
Lemma writes_provenance p bag : allows N ["provenance."] → off N (extract_provenance p bag) bag.
Proof. intros Ha. unfold extract_provenance, set_string. solve_off Ha. Qed.
Lemma writes_framework f bag : allows N ["framework."] → off N (extract_framework f bag) bag.
Proof. intros Ha. unfold extract_framework, set_string. solve_off Ha. Qed.
Lemma writes_custom m bag : allows N ["custom."] → off N (extract_custom m bag) bag.
Proof. intros Ha. unfold extract_custom. solve_off Ha. Qed.

End Writes.

(** *** Disjoint namespaces *)

Definition disjoint_patterns (p q : string) : bool :=
  match ends_with_dot p, ends_with_dot q with
  | true, true => negb (starts_with p q) && negb (starts_with q p)
  | true, false => negb (starts_with p q)
  | false, true => negb (starts_with q p)
  | false, false => negb (String.eqb p q)
  end.
Definition disjoint_ns (l1 l2 : list string) : bool :=
  forallb (λ p, forallb (disjoint_patterns p) l2) l1.

Lemma prefix_cases p q r s :
  p +:+ r = q +:+ s → starts_with p q = true ∨ starts_with q p = true.
Proof.
  revert q. induction p as [|c p IH]; intros [|d q] He; [by left|by left|by right|].
  simpl in He. injection He as -> He. unfold starts_with in *. simpl. rewrite Ascii.eqb_refl. by apply IH.
Qed.

Lemma disjoint_patterns_ok p q key :
  disjoint_patterns p q = true → covers p key = true → covers q key = false.
Proof.
  unfold disjoint_patterns, covers. intros Hd Hp. apply not_true_iff_false. intros Hq.
  destruct (ends_with_dot p), (ends_with_dot q).
  - apply starts_with_inv in Hp as [r ->]. apply starts_with_inv in Hq as [s Hs].
    apply prefix_cases in Hs. apply andb_true_iff in Hd as [H1 H2].
    destruct Hs as [Hs|Hs]; rewrite Hs in *; done.
  - apply String.eqb_eq in Hq as <-. by rewrite Hp in Hd.
  - apply String.eqb_eq in Hp as <-. by rewrite Hq in Hd.
  - apply String.eqb_eq in Hp as <-. rewrite String.eqb_sym in Hq. by rewrite Hq in Hd.
Qed.

Lemma disjoint_ns_ok l1 l2 key :
  disjoint_ns l1 l2 = true → in_ns l1 key = true → in_ns l2 key = false.
Proof.
  unfold disjoint_ns, in_ns. intros Hd (p & Hp & Hc)%existsb_exists.
  apply existsb_false_Forall, Forall_forall. intros q Hq. rewrite forallb_forall in Hd.
  specialize (Hd p Hp). rewrite forallb_forall in Hd. apply list_elem_of_In in Hq.
  eapply disjoint_patterns_ok; [by apply Hd|done].
Qed.

Lemma outside_allows l N :
  disjoint_ns l N = true → allows (λ key, in_ns N key = false) l.
Proof. intros Hd key. by apply disjoint_ns_ok. Qed.

(** ** Identity attributes *)

Definition IDENTITY : list string :=
  ["subject.id"; "subject.type"; "subject.teams"; "role."; "perm."; "team."; "claim."; "authenticated"].

Section Identity.
Context `{order : HashOrder} `{UnicodeLower}.
Implicit Types bag : AttributeBag.

Abbreviation Kept := (off (λ key, in_ns IDENTITY key = false)).

Lemma security_identity sec bag :
  Kept (extract_security sec bag)
    (match sc_subject sec with Some s => extract_subject s bag | None => bag end).
Proof.
  unfold extract_security, set_string.
  repeat first [ apply off_opt; [reflexivity|] | apply off_strings; [reflexivity|] ].
  destruct (sc_subject sec) as [s|];
  (destruct (sc_this_workload sec);
    [eapply off_trans; [apply writes_workload; [by right|by apply outside_allows]|]|]);
  (destruct (sc_caller_workload sec);
    [eapply off_trans; [apply writes_workload; [by left|by apply outside_allows]|]|]);
  (destruct (sc_client sec); [apply writes_client; by apply outside_allows|apply off_refl]).
Qed.

Lemma extensions_identity e bag :
  Kept (extract_extensions e bag)
    (match sc_subject <$> x_security e with Some (Some s) => extract_subject s bag | _ => bag end).
Proof.
  unfold extract_extensions.
  repeat (apply off_slot;
    [ intros v _; first
        [ apply writes_custom; by apply outside_allows | apply writes_framework; by apply outside_allows
        | apply writes_provenance; by apply outside_allows | apply writes_completion; by apply outside_allows
        | apply writes_mcp; by apply outside_allows | apply writes_llm; by apply outside_allows
        | apply writes_http; by apply outside_allows | apply writes_request; by apply outside_allows
        | apply writes_meta; by apply outside_allows | apply writes_agent; by apply outside_allows
        | apply writes_delegation; by apply outside_allows ] |]).
  destruct (x_security e) as [sec|]; simpl; [|apply off_refl].
  pose proof (security_identity sec bag) as Hs. by destruct (sc_subject sec).
Qed.

(** A key below [prefix] after [set_flags]. *)
Lemma flags_get prefix l bag x :
  bag_get (set_flags prefix l bag) (prefix +:+ x)
  = if bool_decide (x ∈ l) then Some (ABool true) else bag_get bag (prefix +:+ x).
Proof.
  unfold set_flags. revert bag. induction l as [|y l IH]; intros bag; simpl; [done|].
  rewrite IH, bag_get_set. destruct (decide (x = y)) as [->|Hne].
  - rewrite decide_True by done. rewrite (bool_decide_eq_true_2 (y ∈ y :: l)) by (by left).
    by case_bool_decide.
  - rewrite decide_False by (intros Heq; apply Hne; by simplify_eq).
    by rewrite (bool_decide_ext (x ∈ y :: l) (x ∈ l)) by (rewrite elem_of_cons; naive_solver).
Qed.

Lemma pairs_get prefix (m : gmap string string) bag x :
  bag_get (foldl (λ bag '(k, v), bag_set bag (prefix +:+ k) (AString v)) bag (map_iter m)) (prefix +:+ x)
  = match m !! x with Some v => Some (AString v) | None => bag_get bag (prefix +:+ x) end.
Proof.
  assert (∀ l bag, NoDup l.*1 →
    (∀ v, (x, v) ∈ l → bag_get (foldl (λ bag '(k, v), bag_set bag (prefix +:+ k) (AString v)) bag l)
       (prefix +:+ x) = Some (AString v))
    ∧ ((x ∉ l.*1) → bag_get (foldl (λ bag '(k, v), bag_set bag (prefix +:+ k) (AString v)) bag l)
       (prefix +:+ x) = bag_get bag (prefix +:+ x))) as Hl.
  { induction l as [|[k w] l IH]; intros b; simpl; [intros _; split; [by intros v ?%not_elem_of_nil|done]|].
    intros [Hk Hnd]%NoDup_cons. destruct (IH (bag_set b (prefix +:+ k) (AString w)) Hnd) as [Hin Hout].
    split.
    - intros v [[= <- <-]|Hv]%elem_of_cons; [|by apply Hin]. rewrite Hout by done.
      rewrite bag_get_set. by rewrite decide_True.
    - intros [Hne Hx]%not_elem_of_cons. rewrite Hout by done. apply bag_set_get_ne.
      intros Heq. apply Hne. by simplify_eq. }
  destruct (Hl _ bag (map_iter_keys m)) as [Hin Hout].
  destruct (m !! x) as [v|] eqn:E; [by apply Hin, map_iter_elem|]. apply Hout.
  intros ([k v] & -> & Hv)%list_elem_of_fmap. apply map_iter_elem in Hv. simpl in E. congruence.
Qed.

(** The identity attributes of a subject written into a bag without any. *)
Definition identity_free bag : Prop := ∀ key, in_ns IDENTITY key = true → bag_get bag key = None.

Lemma get_off patterns bag bag0 key :
  off (λ k, in_ns patterns k = true) bag bag0 → in_ns patterns key = false → bag_get bag key = bag_get bag0 key.
Proof. intros Ho Hk. apply Ho. by rewrite Hk. Qed.

(** A key outside [l] is not changed by the writes between two bags. *)
Ltac skip_to b l :=
  etrans; [eapply (get_off l _ b); [solve_off I|reflexivity]|].

Lemma set_flags_get prefix (s : gset string) bag x :
  bag_get (set_flags prefix (set_iter s) bag) (prefix +:+ x)
  = if bool_decide (x ∈ s) then Some (ABool true) else bag_get bag (prefix +:+ x).
Proof. rewrite flags_get. by rewrite (bool_decide_ext _ _ (set_iter_elem s x)). Qed.

(** The bags between the writes of [extract_subject]. *)
Definition after_type s bag :=
  set_opt "subject.type" (λ t, AString (subject_type_str t)) (sj_subject_type s)
    (set_opt "subject.id" AString (sj_id s) bag).
Definition after_perms s bag :=
  set_flags "perm." (set_iter (sj_permissions s)) (set_flags "role." (set_iter (sj_roles s)) (after_type s bag)).
Definition after_teams s bag :=
  if bool_decide (sj_teams s = ∅) then after_perms s bag
  else set_flags "team." (set_iter (sj_teams s))
         (bag_set (after_perms s bag) "subject.teams" (AStringSet (sj_teams s))).
Definition after_claims s bag :=
  foldl (λ bag '(k, v), bag_set bag ("claim." +:+ k) (AString v)) (after_teams s bag) (map_iter (sj_claims s)).

Lemma extract_subject_steps s bag :
  extract_subject s bag
  = if is_none (sj_id s) then after_claims s bag else bag_set (after_claims s bag) "authenticated" (ABool true).
Proof. done. Qed.

Lemma subject_role s bag r :
  identity_free bag →
  bag_get (extract_subject s bag) ("role." +:+ r)
  = if bool_decide (r ∈ sj_roles s) then Some (ABool true) else None.
Proof.
  intros Hfree. rewrite extract_subject_steps. unfold after_claims, after_teams, after_perms.
  skip_to (set_flags "role." (set_iter (sj_roles s)) (after_type s bag))
    ["perm."; "team."; "subject.teams"; "claim."; "authenticated"].
  rewrite set_flags_get. case_bool_decide; [done|]. unfold after_type.
  skip_to bag ["subject.type"; "subject.id"]. by apply Hfree.
Qed.

Lemma subject_perm s bag q :
  identity_free bag →
  bag_get (extract_subject s bag) ("perm." +:+ q)
  = if bool_decide (q ∈ sj_permissions s) then Some (ABool true) else None.
Proof.
  intros Hfree. rewrite extract_subject_steps. unfold after_claims, after_teams, after_perms.
  skip_to (set_flags "perm." (set_iter (sj_permissions s))
    (set_flags "role." (set_iter (sj_roles s)) (after_type s bag)))
    ["team."; "subject.teams"; "claim."; "authenticated"].
  rewrite set_flags_get. case_bool_decide; [done|]. unfold after_type.
  skip_to bag ["role."; "subject.type"; "subject.id"]. by apply Hfree.
Qed.

Lemma subject_team s bag t :
  identity_free bag →
  bag_get (extract_subject s bag) ("team." +:+ t)
  = if bool_decide (t ∈ sj_teams s) then Some (ABool true) else None.
Proof.
  intros Hfree. rewrite extract_subject_steps. unfold after_claims.
  skip_to (after_teams s bag) ["claim."; "authenticated"].
  assert (bag_get (after_perms s bag) ("team." +:+ t) = None) as Hnone.
  { unfold after_perms, after_type. skip_to bag ["perm."; "role."; "subject.type"; "subject.id"].
    by apply Hfree. }
  unfold after_teams. case_bool_decide as He.
  - rewrite Hnone, He. by rewrite bool_decide_eq_false_2 by set_solver.
  - rewrite set_flags_get. case_bool_decide; [done|]. by rewrite bag_set_get_ne.
Qed.

Lemma subject_claim s bag k :
  identity_free bag → bag_get (extract_subject s bag) ("claim." +:+ k) = AString <$> sj_claims s !! k.
Proof.
  intros Hfree. rewrite extract_subject_steps. skip_to (after_claims s bag) ["authenticated"].
  unfold after_claims. rewrite pairs_get. destruct (sj_claims s !! k); simpl; [done|].
  unfold after_teams, after_perms, after_type.
  skip_to bag ["team."; "subject.teams"; "perm."; "role."; "subject.type"; "subject.id"]. by apply Hfree.
Qed.

Lemma subject_id s bag :
  identity_free bag → bag_get (extract_subject s bag) "subject.id" = AString <$> sj_id s.
Proof.
  intros Hfree. rewrite extract_subject_steps. unfold after_claims, after_teams, after_perms, after_type.
  skip_to (set_opt "subject.id" AString (sj_id s) bag)
    ["claim."; "team."; "subject.teams"; "perm."; "role."; "subject.type"; "authenticated"].
  destruct (sj_id s); simpl; [by rewrite bag_get_set|by apply Hfree].
Qed.

Lemma subject_authenticated s bag :
  identity_free bag → bag_get (extract_subject s bag) "authenticated" = (λ _, ABool true) <$> sj_id s.
Proof.
  intros Hfree. rewrite extract_subject_steps. destruct (sj_id s) as [i|] eqn:Ei; simpl.
  - by rewrite bag_get_set.
  - unfold after_claims, after_teams, after_perms, after_type. rewrite Ei. simpl.
    skip_to bag ["claim."; "team."; "subject.teams"; "perm."; "role."; "subject.type"]. by apply Hfree.
Qed.

End Identity.

(** ** Fuel *)

Lemma foldl_agree {A B} (f g : A → B → A) l a :
  (∀ b x, x ∈ l → f b x = g b x) → foldl f a l = foldl g a l.
Proof.
  revert a. induction l as [|x l IH]; intros a Hfg; simpl; [done|].
  rewrite Hfg by (by left). apply IH. intros b y Hy. apply Hfg. by right.
Qed.

(** Any fuel above the depth of the value gives the same bag. *)
Lemma walk_fuel `{HashOrder} f1 f2 v prefix bag :
  (value_depth v < f1)%nat → (value_depth v < f2)%nat → walk f1 v prefix bag = walk f2 v prefix bag.
Proof.
  revert f2 v prefix bag. induction f1 as [|f1 IH]; intros [|f2] v prefix bag H1 H2; try lia.
  destruct v as [| | | | |m]; try done. simpl. apply foldl_agree.
  intros b [k sub] Hin%map_iter_elem. pose proof (depth_object _ _ _ Hin). apply IH; lia.
Qed.

(** The subject a request carries. *)
Definition request_subject (e : Extensions) : option SubjectExtension := sec ← x_security e; sc_subject sec.

Section Exact.
Context `{order : HashOrder} `{UnicodeLower}.

(** A bag built from the extensions and writes outside the identity namespaces
    tells exactly who the caller is. *)
Definition identity_exact (e : Extensions) (bag : AttributeBag) : Prop :=
  let field {A} (f : SubjectExtension → A) (none : A) := from_option f none (request_subject e) in
  (∀ r, get_bool bag ("role." +:+ r) = Some true ↔ r ∈ field sj_roles ∅)
  ∧ (∀ q, get_bool bag ("perm." +:+ q) = Some true ↔ q ∈ field sj_permissions ∅)
  ∧ (∀ t, get_bool bag ("team." +:+ t) = Some true ↔ t ∈ field sj_teams ∅)
  ∧ (∀ k, get_string bag ("claim." +:+ k) = field sj_claims ∅ !! k)
  ∧ get_string bag "subject.id" = field sj_id None
  ∧ (get_bool bag "authenticated" = Some true ↔ is_Some (field sj_id None)).

Lemma bag_new_free : identity_free bag_new.
Proof. done. Qed.

Lemma kept_identity_exact e bag :
  off (λ key, in_ns IDENTITY key = false) bag (extract_extensions e bag_new) → identity_exact e bag.
Proof.
  intros Ho.
  assert (∀ key, in_ns IDENTITY key = true → bag_get bag key
    = match request_subject e with Some s => bag_get (extract_subject s bag_new) key | None => None end) as Hk.
  { intros key Hi. rewrite Ho by (by rewrite Hi). rewrite (extensions_identity e bag_new) by (by rewrite Hi).
    unfold request_subject. destruct (x_security e) as [sec|]; simpl; [|done].
    by destruct (sc_subject sec). }
  assert (∀ p x, existsb (λ q, ends_with_dot q && starts_with q p) IDENTITY = true →
    in_ns IDENTITY (p +:+ x) = true) as Hbelow by (intros; by apply in_ns_below).
  unfold identity_exact, get_bool, get_string.
  split_and!; [intros r|intros q|intros t|intros k| |]; rewrite Hk by (reflexivity || by apply Hbelow);
    destruct (request_subject e) as [s|]; simpl; try done;
    rewrite ?subject_role, ?subject_perm, ?subject_team, ?subject_claim, ?subject_id,
      ?subject_authenticated by apply bag_new_free.
  1-3: case_bool_decide; naive_solver.
  1: by destruct (sj_claims s !! k).
  1: by destruct (sj_id s).
  1: by destruct (sj_id s); simpl; split; try done; intros [].
Qed.

(** ** Capabilities and the bag *)

(** Keys any plugin may see. *)
Definition UNGATED : list string :=
  ["auth_method"; "security.classification"; "meta."; "request."; "llm."; "mcp."; "completion.";
   "provenance."; "framework."; "custom."].

(** Keys the filter lets through that the table does not list. *)
Definition unlisted (cap : string) : list string :=
  if String.eqb cap "read_labels" then ["security.labels"]
  else if String.eqb cap "read_teams" then ["team."]
  else if String.eqb cap "read_workload" then ["this_workload."]
  else [].

Definition may_see (caps : gset string) (key : string) : Prop :=
  in_ns UNGATED key = true
  ∨ ∃ cap, cap ∈ caps ∧ in_ns (capability_namespaces cap ++ unlisted cap) key = true.

Lemma holds_allows caps c patterns :
  holds caps c = true →
  forallb (λ p, existsb (String.eqb p) (capability_namespaces (cap_str c) ++ unlisted (cap_str c))) patterns = true →
  allows (may_see caps) patterns.
Proof.
  intros Hc%bool_decide_eq_true Hp key Hk. right. exists (cap_str c). split; [done|].
  unfold in_ns in *. apply existsb_exists in Hk as (p & Hin & Hcov). rewrite forallb_forall in Hp.
  specialize (Hp p Hin). apply existsb_exists in Hp as (q & Hq & ->%String.eqb_eq).
  apply existsb_exists. by exists q.
Qed.

Lemma ungated_allows caps patterns :
  forallb (λ p, existsb (String.eqb p) UNGATED) patterns = true → allows (may_see caps) patterns.
Proof.
  intros Hp key Hk. left. unfold in_ns in *. apply existsb_exists in Hk as (p & Hin & Hcov).
  rewrite forallb_forall in Hp. specialize (Hp p Hin). apply existsb_exists in Hp as (q & Hq & ->%String.eqb_eq).
  apply existsb_exists. by exists q.
Qed.

Lemma gate_some {T} caps slot (v : option T) x : gate caps slot v = Some x → can_read caps slot = true.
Proof. unfold gate. destruct v; [|done]. by destruct (can_read caps slot). Qed.

Lemma subject_base caps : has_any_subject_capability caps = true → allows (may_see caps) SUBJECT_BASE.
Proof.
  unfold has_any_subject_capability. intros (c & Hc & Hh)%existsb_exists.
  simpl in Hc. destruct Hc as [<-|[<-|[<-|[<-|[<-|[]]]]]]; by eapply holds_allows.
Qed.

Lemma filtered_subject_keys caps s bag :
  has_any_subject_capability caps = true →
  off (may_see caps) (extract_subject (build_filtered_subject caps s) bag) bag.
Proof.
  intros Hany%subject_base. rewrite extract_subject_steps.
  assert (∀ c p l b b0, (holds caps c = true → allows (may_see caps) [p]) →
    ends_with_dot p = true → off (may_see caps) b b0 →
    off (may_see caps) (set_flags p (set_iter (if holds caps c then l else ∅)) b) b0) as Hflags.
  { intros c p l b b0 Ha Hp Hb. destruct (holds caps c) eqn:Ec.
    - apply off_flags; [|done]. intros x. apply (Ha eq_refl). unfold in_ns. simpl. unfold covers.
      by rewrite Hp, starts_with_app.
    - assert (set_iter ∅ = []) as ->; [|done].
      apply Permutation_nil. symmetry. by rewrite set_iter_perm. }
  assert (off (may_see caps) (after_claims (build_filtered_subject caps s) bag) bag) as Hclaims.
  { unfold after_claims. apply off_foldl.
    { intros b [k v] Hin%map_iter_elem. simpl in Hin. destruct (holds caps ReadClaims) eqn:Ec; [|done].
      apply off_set; [|apply off_refl].
      apply (allows_below (may_see caps) ["claim."]); [by eapply holds_allows|reflexivity]. }
    unfold after_teams. simpl. case_bool_decide as Ht.
    2: { destruct (holds caps ReadTeams) eqn:Et; [|done].
         pose proof (holds_allows caps ReadTeams ["team."; "subject.teams"] Et eq_refl) as Ha.
         apply off_flags; [solve_key Ha|]. apply off_set; [solve_key Ha|].
         unfold after_perms, after_type. simpl.
         apply Hflags; [intros; by eapply holds_allows|done|].
         apply Hflags; [intros; by eapply holds_allows|done|].
         solve_off Hany. }
    unfold after_perms, after_type. simpl.
    apply Hflags; [intros; by eapply holds_allows|done|].
    apply Hflags; [intros; by eapply holds_allows|done|]. solve_off Hany. }
  destruct (is_none _); [done|]. apply off_set; [solve_key Hany|done].
Qed.

(** A gated slot is extracted only with its capability. *)
Lemma gated_keys {A} caps slot c patterns (f : A → AttributeBag → AttributeBag) o b :
  can_read caps slot = holds caps c →
  (∀ v, allows (may_see caps) patterns → off (may_see caps) (f v b) b) →
  forallb (λ p, existsb (String.eqb p) (capability_namespaces (cap_str c) ++ unlisted (cap_str c)))
    patterns = true →
  off (may_see caps) (extract_slot f (gate caps slot o) b) b.
Proof.
  intros Hc Hf Hp. destruct (gate caps slot o) as [v|] eqn:E; simpl; [|done].
  apply Hf, (holds_allows caps c); [|done]. rewrite <- Hc. by eapply gate_some.
Qed.

Lemma filtered_security_keys caps s bag :
  off (may_see caps) (extract_security (build_filtered_security caps s) bag) bag.
Proof.
  unfold extract_security, set_string. simpl.
  pose proof (ungated_allows caps ["security.classification"; "auth_method"] eq_refl) as Hu.
  apply off_opt; [solve_key Hu|].
  eapply off_trans.
  { destruct (can_read caps SlotSecurityLabels) eqn:El; [|unfold set_strings; simpl; apply off_refl].
    assert (holds caps ReadLabels = true) as Hl.
    { by rewrite <- El, (can_read_gated caps SlotSecurityLabels ReadLabels). }
    apply off_strings; [|apply off_refl].
    apply (holds_allows caps ReadLabels ["security.labels"] Hl eq_refl). reflexivity. }
  apply off_opt; [solve_key Hu|].
  eapply off_trans.
  { apply (gated_keys caps SlotSecurityThisWorkload ReadWorkload ["this_workload."]
             (extract_workload "this_workload") (sc_this_workload s)); [by apply can_read_gated| |done].
    intros v Ha. apply writes_workload; [by right|done]. }
  eapply off_trans.
  { apply (gated_keys caps SlotSecurityCallerWorkload ReadWorkload ["caller_workload."]
             (extract_workload "caller_workload") (sc_caller_workload s)); [by apply can_read_gated| |done].
    intros v Ha. apply writes_workload; [by left|done]. }
  eapply off_trans.
  { apply (gated_keys caps SlotSecurityClient ReadClient ["client."]
             extract_client (sc_client s)); [by apply can_read_gated| |done].
    intros v Ha. by apply writes_client. }
  destruct (sc_subject s) as [j|]; [|apply off_refl].
  destruct (has_any_subject_capability caps) eqn:Ea; [by apply filtered_subject_keys|apply off_refl].
Qed.

#[export] Instance may_see_dec caps key : Decision (may_see caps key).
Proof.
  apply or_dec; [apply _|].
  apply (set_Exists_dec (λ cap, in_ns (capability_namespaces cap ++ unlisted cap) key = true) caps).
Defined.

Lemma filtered_keys caps e : off (may_see caps) (extract_extensions (filter_extensions caps e) bag_new) bag_new.
Proof.
  unfold extract_extensions. simpl.
  repeat (apply off_slot;
    [ intros v _; first
        [ apply writes_custom; by apply ungated_allows | apply writes_framework; by apply ungated_allows
        | apply writes_provenance; by apply ungated_allows | apply writes_completion; by apply ungated_allows
        | apply writes_mcp; by apply ungated_allows | apply writes_llm; by apply ungated_allows ] |]).
  eapply off_trans.
  { apply (gated_keys caps SlotHttp ReadHeaders (capability_namespaces "read_headers") extract_http (x_http e));
      [by apply can_read_gated|intros v Ha; by apply writes_http|done]. }
  repeat (apply off_slot;
    [ intros v _; first
        [ apply writes_request; by apply ungated_allows | apply writes_meta; by apply ungated_allows ] |]).
  eapply off_trans.
  { apply (gated_keys caps SlotAgent ReadAgent ["agent."] (λ a, extract_agent (arc_val a)) (x_agent e));
      [by apply can_read_gated|intros v Ha; by apply writes_agent|done]. }
  eapply off_trans.
  { apply (gated_keys caps SlotDelegation ReadDelegation ["delegation."; "delegated"] extract_delegation
             (x_delegation e)); [by apply can_read_gated|intros v Ha; by apply writes_delegation|done]. }
  destruct (x_security e) as [s|]; simpl; [apply filtered_security_keys|apply off_refl].
Qed.

(** What policies can read follows the capabilities: every attribute
    extracted from the view a plugin with [caps] is given lies in a namespace
    open to all or unlocked by a capability in [caps]. *)
Theorem bag_respects_capabilities caps e key v :
  bag_get (extract_extensions (filter_extensions caps e) bag_new) key = Some v → may_see caps key.
Proof.
  intros Hv. destruct (decide (may_see caps key)) as [?|Hn]; [done|].
  by rewrite (filtered_keys caps e key Hn) in Hv.
Qed.

End Exact.

(** ** Witnesses *)

Module BagDemo.

#[local] Instance ascii_lower : UnicodeLower := to_ascii_lowercase.
#[local] Instance in_order : HashOrder :=
  {| set_iter := elements; map_iter := λ A, map_to_list;
     set_iter_perm := λ s, reflexivity _; map_iter_perm := λ A m, reflexivity _ |}.

Definition alice : Extensions :=
  mkExtensions None None None
    (Some (mkSecurity {[ "PII" ]} None
             (Some (mkSubject (Some "alice") None {[ "hr" ]} ∅ {[ "blue" ]} ∅)) None None
             (Some (mkWorkload (Some "spiffe://gw") None None None [] None)) None ∅ ∅))
    None None None None None None None None None None None None None.

Lemma bag_capabilities_witness : may_see {[ "read_roles" ]} "role.hr".
Proof.
  apply (bag_respects_capabilities {[ "read_roles" ]} alice "role.hr" (ABool true)).
  vm_compute. reflexivity.
Defined.

(** The table for operators omits keys the filter lets through: labels, the
    presence keys of teams, and the gateway's own workload, whose prefix it
    spells [workload.]. *)
Example table_omits_keys :
  let seen cap := extract_extensions (filter_extensions {[ cap ]} alice) bag_new in
  let listed cap key := in_ns (elements (unlocked_bag_prefixes [cap])) key in
  (bag_contains (seen "read_labels") "security.labels" = true
   ∧ listed "read_labels" "security.labels" = false)
  ∧ (bag_contains (seen "read_teams") "team.blue" = true ∧ listed "read_teams" "team.blue" = false)
  ∧ (bag_contains (seen "read_workload") "this_workload.spiffe_id" = true
     ∧ listed "read_workload" "this_workload.spiffe_id" = false).
Proof. vm_compute. done. Qed.

End BagDemo.
