(* ===== verification/Session.v ===== *)
(** * Sessions (apl-cpex/src/session_store.rs, session_resolver.rs)

    The session a request belongs to and the labels it has accumulated.  The
    store is an interface; [MemorySessionStore] is the implementation the
    sources carry, and [SessionStoreSpec] is what clients rely on. *)

From S2P Require Import Prelude RustStd F64 Json ExtData Routing Extensions.
From Stdlib Require Import Ascii.

Local Open Scope string_scope.
Local Open Scope list_scope.

(** ** The store *)

Inductive SessionStoreError := Backend (msg : string).

Class SessionStore (W : Type) := {
  load_labels : string → W → Result (list string) SessionStoreError * W;
  append_labels : string → list string → W → Result unit SessionStoreError * W
}.

(** What the trait documents: the labels of a session are what has been
    appended to it, and never shrink, even when the backend fails. *)
Class SessionStoreSpec (W : Type) `{SessionStore W} := {
  labels_of : W → string → gset string;
  load_ok sid w l w' : load_labels sid w = (Ok l, w') → list_to_set l = labels_of w sid;
  load_keeps sid w r w' other : load_labels sid w = (r, w') → labels_of w' other = labels_of w other;
  append_ok sid l w w' :
    append_labels sid l w = (Ok tt, w') → labels_of w' sid = labels_of w sid ∪ list_to_set l;
  append_monotone sid l w r w' other :
    append_labels sid l w = (r, w') → labels_of w other ⊆ labels_of w' other;
  append_other sid l w r w' other :
    append_labels sid l w = (r, w') → other ≠ sid → labels_of w' other = labels_of w other
}.

Record MemorySessionStore := mkMemoryStore { mss_inner : gmap string (gset string) }.

Definition memory_store_new : MemorySessionStore := mkMemoryStore ∅.

Section Memory.
Context `{order : HashOrder}.

Definition memory_load_labels (session_id : string) (s : MemorySessionStore) :
    Result (list string) SessionStoreError * MemorySessionStore :=
  (Ok (match mss_inner s !! session_id with Some labels => set_iter labels | None => [] end), s).

Definition memory_append_labels (session_id : string) (labels : list string) (s : MemorySessionStore) :
    Result unit SessionStoreError * MemorySessionStore :=
  if is_nil labels then (Ok tt, s)
  else
    let entry := default ∅ (mss_inner s !! session_id) in
    let entry := foldl (λ entry l, {[ l ]} ∪ entry) entry labels in
    (Ok tt, mkMemoryStore (<[session_id := entry]> (mss_inner s))).

#[export] Instance memory_store : SessionStore MemorySessionStore :=
  {| load_labels := memory_load_labels; append_labels := memory_append_labels |}.

Lemma foldl_insert_all (entry : gset string) labels :
  foldl (λ entry l, {[ l ]} ∪ entry) entry labels = entry ∪ list_to_set labels.
Proof. revert entry. induction labels as [|l labels IH]; intros entry; simpl; [|rewrite IH]; set_solver. Qed.

Definition memory_labels (s : MemorySessionStore) (sid : string) : gset string :=
  default ∅ (mss_inner s !! sid).

Lemma memory_append_labels_of sid l s other :
  memory_labels (append_labels sid l s).2 other
  = memory_labels s other ∪ (if bool_decide (other = sid) then list_to_set l else ∅).
Proof.
  simpl. unfold memory_append_labels. destruct l as [|x l]; simpl; [case_bool_decide; set_solver|].
  unfold memory_labels. simpl. rewrite foldl_insert_all. case_bool_decide as Ho.
  - subst. rewrite lookup_insert_eq. simpl. set_solver.
  - rewrite lookup_insert_ne by done. set_solver.
Qed.

(** The in-memory store implements the interface. *)
#[export] Program Instance memory_store_spec : SessionStoreSpec MemorySessionStore :=
  {| labels_of := memory_labels |}.
Next Obligation.
  intros sid w l w' [= <- <-]. unfold memory_labels. destruct (mss_inner w !! sid) as [s|]; simpl; [|done].
  apply set_eq. intros x. by rewrite elem_of_list_to_set, set_iter_elem.
Qed.
Next Obligation. by intros sid w r w' other [= _ <-]. Qed.
Next Obligation.
  intros sid l w w' Ha. pose proof (memory_append_labels_of sid l w sid) as Hl.
  rewrite Ha in Hl. simpl in Hl. by rewrite bool_decide_eq_true_2 in Hl.
Qed.
Next Obligation.
  intros sid l w r w' other Ha. pose proof (memory_append_labels_of sid l w other) as Hl.
  rewrite Ha in Hl. simpl in Hl. rewrite Hl. set_solver.
Qed.
Next Obligation.
  intros sid l w r w' other Ha Hne. pose proof (memory_append_labels_of sid l w other) as Hl.
  rewrite Ha, bool_decide_eq_false_2 in Hl by done. simpl in Hl. rewrite Hl. set_solver.
Qed.

End Memory.

(** ** The resolver *)

(** The sha2 crate: the 32 bytes of a digest. *)
Class Sha256 := sha256 : string → list Z.

Inductive SessionSource := SrcAgent | SrcTokenClaim | SrcIdentity.

Definition source_str (s : SessionSource) : string :=
  match s with SrcAgent => "agent" | SrcTokenClaim => "token_claim" | SrcIdentity => "identity" end.

Definition hex_digit (n : Z) : string :=
  default "?" (["0"; "1"; "2"; "3"; "4"; "5"; "6"; "7"; "8"; "9"; "a"; "b"; "c"; "d"; "e"; "f"]
                 !! Z.to_nat n).
(** [format!("{:02x}", b)] of a [u8]. *)
Definition hex_byte (b : Z) : string := hex_digit (b / 16) +:+ hex_digit (b mod 16).

Section Resolver.
Context `{Sha256}.

Definition short_hash (raw : string) : string := concat_str (hex_byte <$> take 8 (sha256 raw)).

Definition subject_scoped (subject_id : option string) (raw : string) : option string :=
  sub ← subject_id; Some (short_hash (sub +:+ ":" +:+ raw)).

Definition subject_id_of (ext : Extensions) : option string :=
  s ← x_security ext; j ← sc_subject s; sj_id j.

(** [o.filter(|s| !s.is_empty())]. *)
Definition non_empty (o : option string) : option string :=
  s ← o; if String.eqb s EmptyString then None else Some s.

Definition resolve_session (ext : Extensions) : option (string * SessionSource) :=
  let subject_id := subject_id_of ext in
  let agent_sid := non_empty (a ← x_agent ext; ag_session_id (arc_val a)) in
  let claim_sid := non_empty (s ← x_security ext; j ← sc_subject s; sj_claims j !! "session_id") in
  match sid ← agent_sid; subject_scoped subject_id sid with
  | Some bound => Some (bound, SrcAgent)
  | None =>
      match sid ← claim_sid; subject_scoped subject_id sid with
      | Some bound => Some (bound, SrcTokenClaim)
      | None =>
          s ← x_security ext;
          sub ← (j ← sc_subject s; sj_id j);
          let actor := default "-" (w ← sc_caller_workload s; wl_client_id w) in
          let aud := default "-" (w ← sc_this_workload s; wl_client_id w) in
          Some (short_hash (sub +:+ ":" +:+ actor +:+ ":" +:+ aud), SrcIdentity)
      end
  end.

(** ** Properties *)

(** Every session id hashes the subject and a second part. *)
Lemma resolve_session_bound ext id src :
  resolve_session ext = Some (id, src) →
  ∃ sub raw, subject_id_of ext = Some sub ∧ id = short_hash (sub +:+ ":" +:+ raw).
Proof.
  unfold resolve_session, subject_scoped.
  destruct (subject_id_of ext) as [sub|] eqn:Es.
  - destruct (non_empty _) as [x|]; simpl; [intros [= <- <-]; eauto|].
    destruct (non_empty _) as [x|]; simpl; [intros [= <- <-]; eauto|].
    unfold subject_id_of in Es. destruct (x_security ext) as [sec|]; simpl in *; [|done].
    destruct (sc_subject sec) as [sj|]; simpl in *; [|done]. rewrite Es. simpl. intros [= <- <-]. eauto.
  - unfold subject_id_of in Es. destruct (non_empty _), (non_empty _); simpl;
      (destruct (x_security ext) as [sec|]; simpl in *; [|done]);
      (destruct (sc_subject sec) as [sj|]; simpl in *; [|done]); by rewrite Es.
Qed.

Lemma colon_split a b r s :
  contains_char ":"%char a = false → contains_char ":"%char b = false →
  a +:+ ":" +:+ r = b +:+ ":" +:+ s → a = b ∧ r = s.
Proof.
  intros Ha Hb He.
  assert (split_once ":"%char (a +:+ ":" +:+ r) = Some (a, r)) as H1 by (by apply split_once_spec).
  assert (split_once ":"%char (b +:+ ":" +:+ s) = Some (b, s)) as H2 by (by apply split_once_spec).
  rewrite He, H2 in H1. by injection H1 as <- <-.
Qed.

(** A request without an authenticated subject has no session; and for
    subjects whose ids have no colon, two requests of different subjects share
    a session id only through a collision of the hash, whatever session values
    they send. *)
Theorem session_subject_isolated e1 e2 s1 s2 id1 id2 src1 src2 :
  subject_id_of e1 = Some s1 → subject_id_of e2 = Some s2 → s1 ≠ s2 →
  contains_char ":"%char s1 = false → contains_char ":"%char s2 = false →
  resolve_session e1 = Some (id1, src1) → resolve_session e2 = Some (id2, src2) → id1 = id2 →
  ∃ r1 r2, r1 ≠ r2 ∧ short_hash r1 = short_hash r2.
Proof.
  intros Hs1 Hs2 Hne Hc1 Hc2 Hr1 Hr2 Hid.
  apply resolve_session_bound in Hr1 as (u1 & x1 & Hu1 & ->).
  apply resolve_session_bound in Hr2 as (u2 & x2 & Hu2 & ->). simplify_eq.
  eexists _, _. split; [|exact Hid]. intros He. by apply colon_split in He as [? _].
Qed.

Lemma anonymous_no_session ext : subject_id_of ext = None → resolve_session ext = None.
Proof.
  intros Hn. destruct (resolve_session ext) as [[id src]|] eqn:E; [|done].
  apply resolve_session_bound in E as (sub & raw & Hs & _). congruence.
Qed.

(** A request of [sub] that names its session [sid]. *)
Definition agent_request (sub sid : string) : Extensions :=
  mkExtensions None (Some (mkArc 0 (mkAgent None (Some sid) None None None None None))) None
    (Some (mkSecurity ∅ None (Some (mkSubject (Some sub) None ∅ ∅ ∅ ∅)) None None None None ∅ ∅))
    None None None None None None None None None None None None None.

(** Subject and session value are joined by a colon, so a subject whose id
    has one can name another subject's session: [a:b] with session [c] and [a]
    with session [b:c] share it, whatever the hash. *)
Theorem session_ids_collide :
  resolve_session (agent_request "a:b" "c") = resolve_session (agent_request "a" "b:c")
  ∧ is_Some (resolve_session (agent_request "a" "b:c")).
Proof. by split. Qed.

End Resolver.

(** ** Witnesses *)

Module SessionDemo.

(** A digest that keeps the first byte. *)
#[local] Instance first_byte : Sha256 :=
  λ s, match s with String c _ => [Z.of_N (Ascii.N_of_ascii c)] | EmptyString => [] end.

Lemma session_isolated_witness :
  subject_id_of (agent_request "alice" "x") = Some "alice"
  ∧ ∃ r1 r2, r1 ≠ r2 ∧ short_hash r1 = short_hash r2.
Proof.
  split; [reflexivity|].
  eapply (session_subject_isolated (agent_request "alice" "x") (agent_request "adam" "x") "alice" "adam");
    [reflexivity|reflexivity|discriminate|reflexivity|reflexivity|reflexivity|reflexivity|reflexivity].
Defined.

End SessionDemo.
