(* ===== verification/PluginTypes.v ===== *)
(** * Plugin configuration, contexts and errors

    cpex-core/src: plugin.rs (configuration, conditions, modes), context.rs
    (the context table) and error.rs.  The [wildmatch] crate is a parameter. *)

From S2P Require Import Prelude RustStd F64 Json ExtData Extensions.

Local Open Scope string_scope.

(** ** Modes and error policy (plugin.rs) *)

Inductive PluginMode :=
| Sequential | Transform | Audit | Concurrent | FireAndForget | Disabled.

Inductive OnError := Fail | Ignore | Disable.

#[global] Instance PluginMode_eq_dec : EqDecision PluginMode.
Proof. solve_decision. Defined.
#[global] Instance OnError_eq_dec : EqDecision OnError.
Proof. solve_decision. Defined.

Definition can_block (m : PluginMode) : bool :=
  match m with Sequential | Concurrent => true | _ => false end.
Definition can_modify (m : PluginMode) : bool :=
  match m with Sequential | Transform => true | _ => false end.
Definition is_awaited (m : PluginMode) : bool :=
  match m with FireAndForget | Disabled => false | _ => true end.

(** ** Conditions *)

Record PluginCondition := mkCondition {
  cn_server_ids : option (gset string);
  cn_tenant_ids : option (gset string);
  cn_tools : option (gset string);
  cn_prompts : option (gset string);
  cn_resources : option (gset string);
  cn_agents : option (gset string);
  cn_user_patterns : option (list string);
  cn_content_types : option (list string)
}.

Record MatchContext := mkMatchContext {
  mc_server_id : option string;
  mc_tenant_id : option string;
  mc_tool : option string;
  mc_prompt : option string;
  mc_resource : option string;
  mc_agent : option string;
  mc_user : option string;
  mc_content_type : option string
}.

Record PluginConfig := mkPluginConfig {
  pcf_name : string;
  pcf_kind : string;
  pcf_description : option string;
  pcf_author : option string;
  pcf_version : option string;
  pcf_hooks : list string;
  pcf_mode : PluginMode;
  pcf_priority : Z;
  pcf_on_error : OnError;
  pcf_capabilities : gset string;
  pcf_tags : list string;
  pcf_conditions : list PluginCondition;
  pcf_config : option Value
}.

(** A field constrains only where it is given; then a value is required. *)
Definition check_with {A} (f : A → string → bool) (field : option A) (value : option string) :
    bool :=
  match field with
  | None => true
  | Some a => match value with Some v => f a v | None => false end
  end.

Definition check_set : option (gset string) → option string → bool :=
  check_with (λ s v, bool_decide (v ∈ s)).
Definition check_list : option (list string) → option string → bool :=
  check_with (λ l v, existsb (λ s, String.eqb s v) l).

Section Conditions.
(** [WildMatch::new(pattern).matches(value)]. *)
Context (wild_match : string → string → bool).

Definition check_patterns : option (list string) → option string → bool :=
  check_with (λ l v, existsb (λ p, wild_match p v) l).

Definition condition_matches (c : PluginCondition) (ctx : MatchContext) : bool :=
  check_set (cn_server_ids c) (mc_server_id ctx)
  && check_set (cn_tenant_ids c) (mc_tenant_id ctx)
  && check_set (cn_tools c) (mc_tool ctx)
  && check_set (cn_prompts c) (mc_prompt ctx)
  && check_set (cn_resources c) (mc_resource ctx)
  && check_set (cn_agents c) (mc_agent ctx)
  && check_patterns (cn_user_patterns c) (mc_user ctx)
  && check_list (cn_content_types c) (mc_content_type ctx).

(** [Option::or_else]. *)
Definition or_else {A} (a b : option A) : option A := match a with Some x => Some x | None => b end.

(** The values a condition is matched against. *)
Definition match_context (e : Extensions) : MatchContext :=
  let mcp : option MCPExtension := arc_val <$> x_mcp e in
  let subject : option SubjectExtension := x_security e ≫= sc_subject in
  let meta : option MetaExtension := arc_val <$> x_meta e in
  let entity_name := meta ≫= mt_entity_name in
  let entity_type := meta ≫= mt_entity_type in
  let is_type t := bool_decide (entity_type = Some t) in
  {| mc_server_id :=
       mcp ≫= (λ m, or_else (mcp_tool m ≫= tl_server_id)
                 (or_else (mcp_resource m ≫= rm_server_id) (mcp_prompt m ≫= pm_server_id)));
     mc_tenant_id := subject ≫= (λ s, sj_claims s !! "tenant");
     mc_tool := if is_type "tool" then entity_name else None;
     mc_prompt := if is_type "prompt" then entity_name else None;
     mc_resource := if is_type "resource" then entity_name else None;
     mc_agent := (arc_val <$> x_agent e) ≫= ag_agent_id;
     mc_user := subject ≫= sj_id;
     mc_content_type := (mcp ≫= mcp_resource) ≫= rm_mime_type |}.

Definition passes_conditions (c : PluginConfig) (e : Extensions) : bool :=
  match pcf_conditions c with
  | [] => true
  | conds => existsb (λ cond, condition_matches cond (match_context e)) conds
  end.

End Conditions.

(** ** Errors (error.rs) *)

Record PluginViolation := mkViolation {
  vi_code : string;
  vi_reason : string;
  vi_description : option string;
  vi_details : gmap string Value;
  vi_plugin_name : option string;
  vi_proto_error_code : option Z
}.

Definition violation_new (code reason : string) : PluginViolation :=
  mkViolation code reason None ∅ None None.

(** [v.plugin_name = Some(name)]. *)
Definition attribute_violation (v : PluginViolation) (name : string) : PluginViolation :=
  mkViolation (vi_code v) (vi_reason v) (vi_description v) (vi_details v) (Some name)
    (vi_proto_error_code v).

(** [PluginError]; [source] is dropped, nothing reads it. *)
Inductive PluginError :=
| ErrExecution (plugin_name message : string) (code : option string)
    (details : gmap string Value) (proto_error_code : option Z)
| ErrTimeout (plugin_name : string) (timeout_ms : Z) (proto_error_code : option Z)
| ErrViolation (plugin_name : string) (violation : PluginViolation)
| ErrConfig (message : string)
| ErrUnknownHook (hook_type : string).

Definition show_error (e : PluginError) : string :=
  match e with
  | ErrExecution n m _ _ _ => "plugin '" +:+ n +:+ "' failed: " +:+ m
  | ErrTimeout n ms _ => "plugin '" +:+ n +:+ "' timed out after " +:+ show_Z ms +:+ "ms"
  | ErrViolation n v => "plugin '" +:+ n +:+ "' denied: " +:+ vi_reason v
  | ErrConfig m => "configuration error: " +:+ m
  | ErrUnknownHook h => "unknown hook type: " +:+ h
  end.

Record PluginErrorRecord := mkErrorRecord {
  er_plugin_name : string;
  er_message : string;
  er_code : option string;
  er_details : gmap string Value;
  er_proto_error_code : option Z
}.

(** [impl From<&PluginError> for PluginErrorRecord]. *)
Definition error_record (e : PluginError) : PluginErrorRecord :=
  match e with
  | ErrExecution n m code details proto => mkErrorRecord n m code details proto
  | ErrTimeout n ms proto =>
      mkErrorRecord n ("plugin timed out after " +:+ show_Z ms +:+ "ms") (Some "timeout") ∅ proto
  | ErrViolation n v =>
      mkErrorRecord n ("plugin denied: " +:+ vi_reason v) (Some (vi_code v)) (vi_details v)
        (vi_proto_error_code v)
  | ErrConfig m => mkErrorRecord EmptyString m (Some "config") ∅ None
  | ErrUnknownHook h =>
      mkErrorRecord EmptyString ("unknown hook type: " +:+ h) (Some "unknown_hook") ∅ None
  end.

(** ** Contexts (context.rs) *)

Abbreviation StateMap := (gmap string Value).

(** A plugin's id, a [Uuid] (128 bits). *)
Abbreviation Uuid := N.

Record PluginContext := mkPluginContext {
  ctx_local_state : StateMap;
  ctx_global_state : StateMap
}.

Definition context_new : PluginContext := mkPluginContext ∅ ∅.

Record PluginContextTable := mkContextTable {
  ct_global_state : StateMap;
  ct_local_states : gmap Uuid StateMap
}.

Definition context_table_new : PluginContextTable := mkContextTable ∅ ∅.

Definition take_context (t : PluginContextTable) (id : Uuid) : PluginContext * PluginContextTable :=
  (mkPluginContext (default ∅ (ct_local_states t !! id)) (ct_global_state t),
   mkContextTable (ct_global_state t) (delete id (ct_local_states t))).

Definition snapshot_context (t : PluginContextTable) (id : Uuid) : PluginContext :=
  mkPluginContext (default ∅ (ct_local_states t !! id)) (ct_global_state t).

Definition store_context (t : PluginContextTable) (id : Uuid) (ctx : PluginContext) :
    PluginContextTable :=
  mkContextTable (ctx_global_state ctx) (<[id := ctx_local_state ctx]> (ct_local_states t)).

(** ** Lemmas on contexts *)

Lemma take_store_other t id ctx id' :
  id' ≠ id →
  ct_local_states (store_context (take_context t id).2 id ctx) !! id' = ct_local_states t !! id'.
Proof. intros Hne. simpl. by rewrite lookup_insert_ne, lookup_delete_ne. Qed.

(** ** Properties *)

(** A plugin's context round-trips: what a plugin leaves in its local state
    is what it is given at its next invocation, serial or read-only; its
    global state is what every plugin is given; and other plugins' local
    states are untouched. *)
Theorem context_roundtrip t id ctx :
  let t' := store_context (take_context t id).2 id ctx in
  (take_context t' id).1 = ctx
  ∧ snapshot_context t' id = ctx
  ∧ (∀ id', id' ≠ id →
       ctx_local_state (snapshot_context t' id') = ctx_local_state (snapshot_context t id')
       ∧ ctx_global_state (snapshot_context t' id') = ctx_global_state ctx).
Proof.
  simpl. unfold snapshot_context. simpl. rewrite lookup_insert_eq. destruct ctx as [l g]; simpl.
  split_and!; [done|done|]. intros id' Hne. by rewrite lookup_insert_ne, lookup_delete_ne.
Qed.

(** Where no condition of a plugin mentions a field, conditions do not depend on
    it; and an unconditional plugin always passes. *)
Lemma passes_unconditional wm c e : pcf_conditions c = [] → passes_conditions wm c e = true.
Proof. unfold passes_conditions. by intros ->. Qed.
