(* ===== verification/Config.v ===== *)
(** * Configuration and route resolution

    cpex-core/src/config.rs (the configuration, its validation and the
    resolution of the plugins and identity steps of an entity) and
    identity/route_config.rs.  The [wildmatch] crate is a parameter, as is the
    order in which a [HashMap] or [HashSet] is iterated ([HashOrder]).  Reading
    YAML is left to serde. *)

From S2P Require Import Prelude RustStd F64 Json ExtData Extensions PluginTypes.
From Stdlib Require Import Ascii.

Local Open Scope string_scope.

(** ** Data *)

(** [wildmatch::WildMatch::new(pattern).matches(name)]. *)
Class WildMatch := wild_matches : string → string → bool.

(** A name, or a single-key map given by its entries in iteration order. *)
Inductive PluginRouteRef :=
| RefName (name : string)
| RefWithOverrides (entries : list (string * Value)).

Definition ref_name (r : PluginRouteRef) : string :=
  match r with
  | RefName name => name
  | RefWithOverrides entries => default EmptyString (fst <$> head entries)
  end.

Definition ref_overrides (r : PluginRouteRef) : option Value :=
  match r with
  | RefName _ => None
  | RefWithOverrides entries => snd <$> head entries
  end.

Record RouteIdentityStep := mkIdentityStep {
  is_name : string;
  is_on_error : option string;
  is_config_override : option Value;
  is_extra : gmap string Value
}.

Record RouteIdentityConfig := mkIdentity {
  ri_steps : list RouteIdentityStep;
  ri_replace_inherited : bool
}.

Record PolicyGroup := mkGroup {
  pg_description : option string;
  pg_metadata : gmap string string;
  pg_plugins : list PluginRouteRef;
  pg_identity : option RouteIdentityConfig
}.

(** The pattern's text; compiling it is deterministic. *)
Inductive StringOrList :=
| Single (pattern : string)
| NameList (names : list string).

Record RouteMeta := mkRouteMeta {
  rm_tags : list string;
  rm_scope : option string;
  rm_properties : gmap string string
}.

Record RouteEntry := mkRouteEntry {
  re_tool : option StringOrList;
  re_resource : option StringOrList;
  re_prompt : option StringOrList;
  re_llm : option StringOrList;
  re_meta : option RouteMeta;
  re_groups : option StringOrList;
  re_when : option string;
  re_plugins : list PluginRouteRef;
  re_identity : option RouteIdentityConfig
}.

Record PluginSettings := mkSettings {
  ps_routing_enabled : bool;
  ps_plugin_timeout : Z;
  ps_short_circuit_on_deny : bool;
  ps_parallel_execution_within_band : bool;
  ps_fail_on_plugin_error : bool;
  ps_route_cache_max_entries : Z
}.

Definition settings_default : PluginSettings := mkSettings false 30 true false false 10000.

Record GlobalConfig := mkGlobal {
  gc_policies : gmap string PolicyGroup;
  gc_defaults : gmap string PolicyGroup;
  gc_identity : option RouteIdentityConfig
}.

Record CpexConfig := mkConfig {
  cx_global : GlobalConfig;
  cx_plugin_dirs : list string;
  cx_plugins : list PluginConfig;
  cx_groups : gmap string PolicyGroup;
  cx_routes : list RouteEntry;
  cx_settings : PluginSettings
}.

Definition routing_enabled (c : CpexConfig) : bool := ps_routing_enabled (cx_settings c).

Record ResolvedPlugin := mkResolved {
  rp_name : string;
  rp_config_overrides : option Value;
  rp_when : option string
}.

(** ** Matching *)

Section Matching.
Context `{WildMatch}.

Definition sol_matches (m : StringOrList) (name : string) : bool :=
  match m with
  | Single pattern => wild_matches pattern name
  | NameList names => existsb (λ n, String.eqb n name) names
  end.

Definition as_names (m : StringOrList) : list string :=
  match m with Single pattern => [pattern] | NameList names => names end.

Definition SPECIFICITY_EXACT_NAME : nat := 1000.
Definition SPECIFICITY_NAME_LIST : nat := 500.
Definition SPECIFICITY_GLOB : nat := 300.
Definition SPECIFICITY_WHEN_ONLY : nat := 10.
Definition SPECIFICITY_WILDCARD : nat := 0.

Definition score_entity_match (matcher : option StringOrList) (entity_name : string) :
    option nat :=
  match matcher with
  | None => None
  | Some m =>
      if negb (sol_matches m entity_name) then None
      else Some (match m with
                 | Single p =>
                     if String.eqb p "*" then SPECIFICITY_WILDCARD
                     else if contains_char "*"%char p then SPECIFICITY_GLOB
                     else SPECIFICITY_EXACT_NAME
                 | NameList _ => SPECIFICITY_NAME_LIST
                 end)
  end.

Definition route_static_tags (route : RouteEntry) : list string :=
  (match re_meta route with Some m => rm_tags m | None => [] end
   ++ match re_groups route with Some g => as_names g | None => [] end)%list.

(** The [continue]s and the total of one round of [find_matching_route]. *)
Definition scope_bonus (route : RouteEntry) (request_scope : option string) : option nat :=
  match re_meta route ≫= rm_scope, request_scope with
  | None, _ => Some 0
  | Some rs, Some rq => if String.eqb rs rq then Some 100 else None
  | Some _, None => None
  end.

Definition entity_matcher (route : RouteEntry) (entity_type : string) :
    option (option StringOrList) :=
  if String.eqb entity_type "tool" then Some (re_tool route)
  else if String.eqb entity_type "resource" then Some (re_resource route)
  else if String.eqb entity_type "prompt" then Some (re_prompt route)
  else if String.eqb entity_type "llm" then Some (re_llm route)
  else None.

Definition route_score (entity_type entity_name : string) (request_scope : option string)
    (route : RouteEntry) : option nat :=
  match scope_bonus route request_scope with
  | None => None
  | Some bonus =>
      match entity_matcher route entity_type with
      | None => None
      | Some matcher =>
          match score_entity_match matcher entity_name with
          | None => None
          | Some base =>
              Some (base + bonus
                    + match re_when route with Some _ => SPECIFICITY_WHEN_ONLY | None => 0 end)%nat
          end
      end
  end.

(** The loop of [find_matching_route], with its running [best]. *)
Fixpoint best_route (entity_type entity_name : string) (request_scope : option string)
    (routes : list RouteEntry) (best : option (nat * RouteEntry)) :
    option (nat * RouteEntry) :=
  match routes with
  | [] => best
  | route :: routes =>
      best_route entity_type entity_name request_scope routes
        (match route_score entity_type entity_name request_scope route with
         | None => best
         | Some total =>
             match best with
             | None => Some (total, route)
             | Some (s, _) => if (s <? total)%nat then Some (total, route) else best
             end
         end)
  end.

Definition find_matching_route (config : CpexConfig) (entity_type entity_name : string)
    (request_scope : option string) : option RouteEntry :=
  snd <$> best_route entity_type entity_name request_scope (cx_routes config) None.

(** ** Resolution *)

Definition collect_plugin_refs (refs : list PluginRouteRef) (route_when : option string) :
    list ResolvedPlugin :=
  map (λ r, mkResolved (ref_name r) (ref_overrides r) route_when) refs.

(** The loop over [resolved.into_iter().rev()]: what is pushed, in push order. *)
Fixpoint dedup_loop (l : list ResolvedPlugin) (seen : gset string) : list ResolvedPlugin :=
  match l with
  | [] => []
  | rp :: l =>
      if bool_decide (rp_name rp ∈ seen) then dedup_loop l seen
      else rp :: dedup_loop l ({[ rp_name rp ]} ∪ seen)
  end.

Definition dedup_by_name (resolved : list ResolvedPlugin) : list ResolvedPlugin :=
  reverse (dedup_loop (reverse resolved) ∅).

Definition group_plugins (g : option PolicyGroup) : list ResolvedPlugin :=
  match g with Some g => collect_plugin_refs (pg_plugins g) None | None => [] end.

Context `{order : HashOrder}.

Definition merged_tags (route : RouteEntry) (request_tags : gset string) : gset string :=
  request_tags ∪ list_to_set (route_static_tags route).

(** [resolved] before deduplication. *)
Definition collect_layers (config : CpexConfig) (entity_type entity_name : string)
    (request_scope : option string) (request_tags : gset string) : list ResolvedPlugin :=
  let policies := gc_policies (cx_global config) in
  (group_plugins (policies !! "all")
   ++ group_plugins (gc_defaults (cx_global config) !! entity_type)
   ++ match find_matching_route config entity_type entity_name request_scope with
      | None => []
      | Some route =>
          concat (map (λ tag, if String.eqb tag "all" then [] else group_plugins (policies !! tag))
                    (set_iter (merged_tags route request_tags)))
          ++ collect_plugin_refs (re_plugins route) (re_when route)
      end)%list.

Definition resolve_plugins_for_entity (config : CpexConfig) (entity_type entity_name : string)
    (request_scope : option string) (request_tags : gset string) : list ResolvedPlugin :=
  if negb (routing_enabled config) then
    map (λ p, mkResolved (pcf_name p) None None) (cx_plugins config)
  else
    dedup_by_name (collect_layers config entity_type entity_name request_scope request_tags).

Definition identity_steps (i : option RouteIdentityConfig) : list RouteIdentityStep :=
  match i with Some i => ri_steps i | None => [] end.

Definition resolve_identity_plugins_for_route (config : CpexConfig)
    (entity_type entity_name : string) (request_scope : option string) : list ResolvedPlugin :=
  let route := find_matching_route config entity_type entity_name request_scope in
  let route_identity := route ≫= re_identity in
  let replace_inherited :=
    match route_identity with Some i => ri_replace_inherited i | None => false end in
  let inherited :=
    if replace_inherited then []
    else
      (identity_steps (gc_identity (cx_global config))
       ++ match route with
          | None => []
          | Some route =>
              concat (map (λ tag,
                identity_steps (gc_policies (cx_global config) !! tag ≫= pg_identity))
                (route_static_tags route))
          end)%list in
  map (λ step,
    mkResolved (is_name step)
      ((λ cfg, VObject {[ "config" := cfg ]}) <$> is_config_override step) None)
    (inherited ++ identity_steps route_identity)%list.

(** ** Loading *)

Definition merge_groups_into_policies (config : CpexConfig) : CpexConfig :=
  let g := cx_global config in
  if (size (cx_groups config) =? 0)%nat then config else
  mkConfig (mkGlobal (cx_groups config ∪ gc_policies g) (gc_defaults g) (gc_identity g))
    (cx_plugin_dirs config) (cx_plugins config) ∅ (cx_routes config) (cx_settings config).

Definition config_error (message : string) : Result unit PluginError := Err (ErrConfig message).

Fixpoint check_duplicates (plugins : list PluginConfig) (seen : gset string) :
    Result unit PluginError :=
  match plugins with
  | [] => Ok tt
  | p :: plugins =>
      if bool_decide (pcf_name p ∈ seen) then
        config_error ("duplicate plugin name: '" +:+ pcf_name p +:+ "'")
      else check_duplicates plugins ({[ pcf_name p ]} ∪ seen)
  end.

(** The first failing check of a [for] loop that returns early. *)
Fixpoint check_each {A} (check : A → Result unit PluginError) (l : list A) :
    Result unit PluginError :=
  match l with
  | [] => Ok tt
  | x :: l => let? _ := check x in check_each check l
  end.

Definition matcher_count (route : RouteEntry) : nat :=
  length (filter (λ b, b = true)
    [bool_decide (is_Some (re_tool route)); bool_decide (is_Some (re_resource route));
     bool_decide (is_Some (re_prompt route)); bool_decide (is_Some (re_llm route))]).

Definition check_refs (known : gset string) (owner : string) (refs : list PluginRouteRef) :
    Result unit PluginError :=
  check_each (λ r, if bool_decide (ref_name r ∈ known) then Ok tt
    else config_error (owner +:+ " references unknown plugin '" +:+ ref_name r +:+ "'")) refs.

Definition validate_route (config : CpexConfig) (known : gset string) (ir : nat * RouteEntry) :
    Result unit PluginError :=
  let '(i, route) := ir in
  let count := matcher_count route in
  if (count =? 0)%nat then
    config_error ("route " +:+ show_nat i
      +:+ " has no entity matcher (need tool, resource, prompt, or llm)")
  else if (1 <? count)%nat then
    config_error ("route " +:+ show_nat i
      +:+ " has multiple entity matchers (need exactly one)")
  else
    let? _ := check_refs known ("route " +:+ show_nat i) (re_plugins route) in
    match re_groups route with
    | None => Ok tt
    | Some groups =>
        check_each (λ name,
          if bool_decide (is_Some (gc_policies (cx_global config) !! name)) then Ok tt
          else config_error ("route " +:+ show_nat i +:+ " joins unknown group '" +:+ name +:+ "'"))
          (as_names groups)
    end.

Definition plugin_names_of (config : CpexConfig) : gset string :=
  list_to_set (map pcf_name (cx_plugins config)).

Definition validate_config (config : CpexConfig) : Result unit PluginError :=
  let? _ := check_duplicates (cx_plugins config) ∅ in
  if routing_enabled config then
    let known := plugin_names_of config in
    let? _ := check_each (validate_route config known) (imap pair (cx_routes config)) in
    check_each (λ '(group_name, group),
      check_refs known ("policy group '" +:+ group_name +:+ "'") (pg_plugins group))
      (map_iter (gc_policies (cx_global config)))
  else Ok tt.

End Matching.

(** ** Route matching *)

Local Open Scope list_scope.
Local Open Scope nat_scope.

Section Best.
Context `{WildMatch} (entity_type entity_name : string) (request_scope : option string).

Abbreviation score := (route_score entity_type entity_name request_scope).
Abbreviation best := (best_route entity_type entity_name request_scope).

(** [r] scores [s], beats every route before it and is not beaten after it. *)
Definition route_wins (routes : list RouteEntry) (r : RouteEntry) (s : nat) : Prop :=
  ∃ pre post, routes = (pre ++ r :: post)%list ∧ score r = Some s
    ∧ (∀ r' s', r' ∈ pre → score r' = Some s' → s' < s)
    ∧ (∀ r' s', r' ∈ post → score r' = Some s' → s' ≤ s)%nat.

Lemma best_route_keep routes r s :
  (∀ r' s', r' ∈ routes → score r' = Some s' → s' ≤ s)%nat →
  best routes (Some (s, r)) = Some (s, r).
Proof.
  induction routes as [|r0 routes IH]; intros Hle; [done|]. simpl.
  destruct (score r0) as [t|] eqn:Et.
  - assert (t ≤ s)%nat as Ht by (by apply (Hle r0); [left|]).
    rewrite (proj2 (Nat.ltb_ge s t)) by done. apply IH. intros r' s' Hin. apply Hle. by right.
  - apply IH. intros r' s' Hin. apply Hle. by right.
Qed.

Lemma best_route_none routes :
  (∀ r, r ∈ routes → score r = None) → best routes None = None.
Proof.
  induction routes as [|r l IH]; intros Hnone; [done|]. simpl.
  rewrite Hnone by (by left). apply IH. intros r' Hr'. apply Hnone. by right.
Qed.

Lemma best_route_app l1 l2 b : best (l1 ++ l2) b = best l2 (best l1 b).
Proof. revert b. induction l1 as [|r l1 IH]; intros b; simpl; [done|apply IH]. Qed.

Lemma best_route_below routes b s :
  (∀ r' s', r' ∈ routes → score r' = Some s' → s' < s) →
  (∀ s' r', b = Some (s', r') → s' < s) →
  ∀ s' r', best routes b = Some (s', r') → s' < s.
Proof.
  revert b. induction routes as [|r0 routes IH]; intros b Hlt Hb; simpl; [done|].
  apply IH; [intros r' s' Hin; apply Hlt; by right|].
  intros s' r'. destruct (score r0) as [t|] eqn:Et; [|by apply Hb].
  assert (t < s) as Ht by (by apply (Hlt r0); [left|]).
  destruct b as [[sb rb]|]; [|by intros [= <- <-]].
  destruct (sb <? t); [by intros [= <- <-]|by apply Hb].
Qed.

Lemma winner_is_best routes r s : route_wins routes r s → best routes None = Some (s, r).
Proof.
  intros (pre & post & -> & Hs & Hpre & Hpost). rewrite best_route_app. simpl. rewrite Hs.
  pose proof (best_route_below pre None s Hpre ltac:(done)) as Hb.
  destruct (best pre None) as [[sb rb]|].
  - rewrite (proj2 (Nat.ltb_lt sb s)) by (by apply (Hb sb rb)). by apply best_route_keep.
  - by apply best_route_keep.
Qed.

Lemma winner_exists routes :
  (∀ r, r ∈ routes → score r = None) ∨ ∃ r s, route_wins routes r s.
Proof.
  induction routes as [|r0 routes IH]; [left; by intros r ?%not_elem_of_nil|].
  destruct (score r0) as [s0|] eqn:E0.
  - right. destruct IH as [Hnone|(r & s & pre & post & -> & Hs & Hpre & Hpost)].
    + exists r0, s0, [], routes. split_and!; [done|done|by intros r' s' ?%not_elem_of_nil|].
      intros r' s' Hin. by rewrite Hnone.
    + destruct (decide (s0 < s)) as [Hlt|Hge].
      * exists r, s, (r0 :: pre), post. split_and!; [done|done| |done].
        intros r' s' [->|Hin]%elem_of_cons; [|by apply Hpre]. rewrite E0. by intros [= <-].
      * exists r0, s0, [], (pre ++ r :: post)%list. split_and!; [done|done|by intros r' s' ?%not_elem_of_nil|].
        intros r' s' Hin Hs'. apply elem_of_app in Hin as [Hin|[->|Hin]%elem_of_cons].
        -- specialize (Hpre r' s' Hin Hs'). lia.
        -- rewrite Hs in Hs'. injection Hs' as <-. lia.
        -- specialize (Hpost r' s' Hin Hs'). lia.
  - destruct IH as [Hnone|(r & s & pre & post & -> & Hs & Hpre & Hpost)].
    + left. intros r [->|Hin]%elem_of_cons; [done|by apply Hnone].
    + right. exists r, s, (r0 :: pre), post. split_and!; [done|done| |done].
      intros r' s' [->|Hin]%elem_of_cons; [by rewrite E0|by apply Hpre].
Qed.

End Best.

(** ** Deduplication *)

(** [rp] is the last entry of its name. *)
Definition last_of (l : list ResolvedPlugin) (rp : ResolvedPlugin) : Prop :=
  ∃ pre post, l = pre ++ rp :: post ∧ rp_name rp ∉ (rp_name <$> post).

Lemma dedup_loop_elem l seen rp :
  rp ∈ dedup_loop l seen ↔
  ∃ pre post, l = pre ++ rp :: post ∧ (rp_name rp ∉ (rp_name <$> pre)) ∧ (rp_name rp ∉ seen).
Proof.
  revert seen. induction l as [|x l IH]; intros seen; simpl.
  { split; [by intros ?%not_elem_of_nil|]. by intros ([|? ?] & ? & ? & _). }
  case_bool_decide as Hx; rewrite ?elem_of_cons, IH; split.
  - intros (pre & post & -> & Hp & Hs). exists (x :: pre), post. split_and!; [done| |done].
    rewrite fmap_cons, not_elem_of_cons. split; [|done]. intros Heq. by rewrite Heq in Hs.
  - intros ([|y pre] & post & [= -> ->] & Hp & Hs); [done|].
    rewrite fmap_cons, not_elem_of_cons in Hp. exists pre, post. by destruct Hp.
  - intros [->|(pre & post & -> & Hp & Hs)].
    { exists [], l. split_and!; [done|apply not_elem_of_nil|done]. }
    rewrite not_elem_of_union, not_elem_of_singleton in Hs. destruct Hs as [Hne Hs].
    exists (x :: pre), post. split_and!; [done| |done]. by rewrite fmap_cons, not_elem_of_cons.
  - intros ([|y pre] & post & [= -> ->] & Hp & Hs); [by left|]. right.
    rewrite fmap_cons, not_elem_of_cons in Hp. destruct Hp as [Hne Hp].
    exists pre, post. split_and!; [done|done|].
    by rewrite not_elem_of_union, not_elem_of_singleton.
Qed.

Lemma dedup_loop_nodup l seen : NoDup (rp_name <$> dedup_loop l seen).
Proof.
  revert seen. induction l as [|x l IH]; intros seen; simpl; [constructor|].
  case_bool_decide; [done|]. rewrite fmap_cons. constructor; [|done].
  intros (rp & Hn & Hin)%list_elem_of_fmap.
  apply dedup_loop_elem in Hin as (_ & _ & _ & _ & Hs). rewrite <- Hn in Hs. set_solver.
Qed.

Lemma dedup_by_name_spec l :
  NoDup (rp_name <$> dedup_by_name l) ∧ ∀ rp, rp ∈ dedup_by_name l ↔ last_of l rp.
Proof.
  unfold dedup_by_name, last_of. split.
  { rewrite fmap_reverse. rewrite reverse_Permutation. apply dedup_loop_nodup. }
  intros rp. rewrite elem_of_reverse, dedup_loop_elem. split.
  - intros (pre & post & Hl & Hp & _). exists (reverse post), (reverse pre).
    rewrite <- (reverse_involutive l), Hl, reverse_app, reverse_cons, <- app_assoc. split; [done|].
    by rewrite fmap_reverse, elem_of_reverse.
  - intros (pre & post & -> & Hp). exists (reverse post), (reverse pre).
    rewrite reverse_app, reverse_cons, <- app_assoc. split_and!; [done| |set_solver].
    by rewrite fmap_reverse, elem_of_reverse.
Qed.

(** A name survives deduplication. *)
Lemma dedup_names l : ∀ n, n ∈ (rp_name <$> dedup_by_name l) ↔ n ∈ (rp_name <$> l).
Proof.
  intros n. rewrite !list_elem_of_fmap. split.
  - intros (rp & -> & (pre & post & -> & _)%dedup_by_name_spec). exists rp. split; [done|].
    apply elem_of_app. right. by left.
  - intros (rp & -> & Hin). induction l as [|x l IH] using rev_ind; [by apply not_elem_of_nil in Hin|].
    destruct (decide (rp_name rp = rp_name x)) as [Heq|Hne].
    + exists x. split; [done|]. apply dedup_by_name_spec. exists l, []. split; [done|].
      apply not_elem_of_nil.
    + apply elem_of_app in Hin as [Hin|Hin]; [|apply list_elem_of_singleton in Hin; by subst].
      destruct (IH Hin) as (y & Hy & (pre & post & -> & Hp)%dedup_by_name_spec).
      exists y. split; [done|]. apply dedup_by_name_spec. exists pre, (post ++ [x]).
      rewrite <- app_assoc. split; [done|]. rewrite fmap_app, not_elem_of_app.
      split; [done|]. simpl. rewrite list_elem_of_singleton. by rewrite <- Hy.
Qed.

(** ** Validation *)

Lemma check_each_ok {A} (check : A → Result unit PluginError) l :
  check_each check l = Ok tt ↔ ∀ x, x ∈ l → check x = Ok tt.
Proof.
  induction l as [|x l IH]; simpl.
  { split; [by intros _ x ?%not_elem_of_nil|done]. }
  split.
  - destruct (check x) as [[]|e] eqn:E; simpl; [|done]. intros Hl y [->|Hy]%elem_of_cons; [done|].
    by apply IH.
  - intros Hall. rewrite (Hall x) by (by left). simpl. apply IH. intros y Hy. apply Hall. by right.
Qed.

Lemma check_refs_ok known owner refs :
  check_refs known owner refs = Ok tt ↔ ∀ r, r ∈ refs → ref_name r ∈ known.
Proof.
  unfold check_refs. rewrite check_each_ok. split; intros Hall r Hr; specialize (Hall r Hr);
    by case_bool_decide.
Qed.

Lemma result_bind_unit_ok {E} (r k : Result unit E) :
  result_bind r (λ _, k) = Ok tt ↔ r = Ok tt ∧ k = Ok tt.
Proof. destruct r as [[]|e]; simpl; naive_solver. Qed.

(** What a validated configuration guarantees of its structural lists. *)
Lemma validate_config_refs `{HashOrder} config :
  validate_config config = Ok tt → routing_enabled config = true →
  (∀ route r, route ∈ cx_routes config → r ∈ re_plugins route →
     ref_name r ∈ plugin_names_of config)
  ∧ (∀ n g r, gc_policies (cx_global config) !! n = Some g → r ∈ pg_plugins g →
     ref_name r ∈ plugin_names_of config)
  ∧ (∀ route g n, route ∈ cx_routes config → re_groups route = Some g → n ∈ as_names g →
     is_Some (gc_policies (cx_global config) !! n)).
Proof.
  unfold validate_config. intros Hv Hr. rewrite Hr in Hv.
  rewrite !result_bind_unit_ok, !check_each_ok in Hv. destruct Hv as (_ & Hroutes & Hgroups).
  assert (∀ route, route ∈ cx_routes config → ∃ i,
    validate_route config (plugin_names_of config) (i, route) = Ok tt) as Hroute.
  { intros route [i Hi]%list_elem_of_lookup. exists i. apply Hroutes.
    apply list_elem_of_lookup. exists i. by rewrite list_lookup_imap, Hi. }
  split_and!.
  - intros route r Hin Hrr. destruct (Hroute route Hin) as [i Hi]. simpl in Hi.
    destruct (_ =? 0); [done|]. destruct (1 <? _); [done|].
    apply result_bind_unit_ok in Hi as [Hc _]. by eapply check_refs_ok.
  - intros n g r Hg Hrr.
    assert ((n, g) ∈ map_iter (gc_policies (cx_global config))) as Hin
      by (by rewrite map_iter_perm, elem_of_map_to_list).
    specialize (Hgroups _ Hin). simpl in Hgroups. by eapply check_refs_ok.
  - intros route g n Hin Hg Hn. destruct (Hroute route Hin) as [i Hi]. simpl in Hi.
    destruct (_ =? 0); [done|]. destruct (1 <? _); [done|].
    apply result_bind_unit_ok in Hi as [_ Hc]. rewrite Hg in Hc.
    apply check_each_ok with (x := n) in Hc; [|done]. by case_bool_decide.
Qed.

(** ** Where a resolved plugin comes from *)

Lemma collect_names refs w n :
  n ∈ (rp_name <$> collect_plugin_refs refs w) ↔ ∃ r, r ∈ refs ∧ n = ref_name r.
Proof.
  unfold collect_plugin_refs. rewrite list_elem_of_fmap. split.
  - intros (rp & -> & (r & <- & Hin)%list_elem_of_In%in_map_iff). exists r.
    split; [by apply list_elem_of_In|done].
  - intros (r & Hin & ->). exists (mkResolved (ref_name r) (ref_overrides r) w).
    split; [done|]. apply list_elem_of_In, in_map_iff. exists r.
    split; [done|by apply list_elem_of_In].
Qed.

Lemma group_plugins_names g n :
  n ∈ (rp_name <$> group_plugins g) ↔ ∃ pg r, g = Some pg ∧ r ∈ pg_plugins pg ∧ n = ref_name r.
Proof.
  destruct g as [pg|]; simpl.
  - rewrite collect_names. naive_solver.
  - split; [by intros ?%not_elem_of_nil|naive_solver].
Qed.

(** The names the layers contribute, whatever the iteration order. *)
Definition contributes (config : CpexConfig) (entity_type : string) (route : option RouteEntry)
    (request_tags : gset string) (n : string) : Prop :=
  (∃ g r, (gc_policies (cx_global config) !! "all" = Some g
           ∨ gc_defaults (cx_global config) !! entity_type = Some g)
          ∧ r ∈ pg_plugins g ∧ n = ref_name r)
  ∨ (∃ rt g r tag, route = Some rt ∧ tag ∈ merged_tags rt request_tags
       ∧ gc_policies (cx_global config) !! tag = Some g ∧ r ∈ pg_plugins g ∧ n = ref_name r)
  ∨ (∃ rt r, route = Some rt ∧ r ∈ re_plugins rt ∧ n = ref_name r).

Lemma collect_layers_names `{WildMatch, HashOrder} config et en scope tags n :
  n ∈ (rp_name <$> collect_layers config et en scope tags)
  ↔ contributes config et (find_matching_route config et en scope) tags n.
Proof.
  unfold collect_layers, contributes. rewrite !fmap_app, !elem_of_app, !group_plugins_names.
  destruct (find_matching_route config et en scope) as [rt|]; simpl.
  2: { rewrite elem_of_nil. naive_solver. }
  rewrite fmap_app, elem_of_app, collect_names.
  assert (n ∈ (rp_name <$> concat (map (λ tag,
      if String.eqb tag "all" then [] else group_plugins (gc_policies (cx_global config) !! tag))
      (set_iter (merged_tags rt tags))))
    ↔ ∃ tag g r, tag ∈ merged_tags rt tags ∧ tag ≠ "all"
        ∧ gc_policies (cx_global config) !! tag = Some g ∧ r ∈ pg_plugins g ∧ n = ref_name r) as ->.
  { rewrite list_elem_of_fmap. setoid_rewrite list_elem_of_In. setoid_rewrite in_concat.
    setoid_rewrite in_map_iff. split.
    - intros (rp & -> & l & (tag & <- & Htag) & Hrp).
      apply list_elem_of_In in Htag. rewrite set_iter_perm, elem_of_elements in Htag.
      destruct (String.eqb_spec tag "all"); [done|].
      apply list_elem_of_In, (list_elem_of_fmap_2 rp_name), group_plugins_names in Hrp
        as (g & r & Hg & Hr & ->). setoid_rewrite <- list_elem_of_In. naive_solver.
    - intros (tag & g & r & Htag & Hne & Hg & Hr & ->).
      assert (ref_name r ∈ (rp_name <$> group_plugins (gc_policies (cx_global config) !! tag)))
        as Hin by (apply group_plugins_names; setoid_rewrite list_elem_of_In; naive_solver).
      apply list_elem_of_fmap in Hin as (rp & -> & Hin). exists rp. split; [done|].
      eexists. split; [|by apply list_elem_of_In]. exists tag.
      rewrite (proj2 (String.eqb_neq tag "all") Hne). split; [done|].
      apply list_elem_of_In. by rewrite set_iter_perm, elem_of_elements. }
  split; [naive_solver|].
  intros [?|[(? & g & r & tag & [= <-] & Htag & Hg & Hr & ->)|?]]; [naive_solver| |naive_solver].
  destruct (decide (tag = "all")) as [->|Hne]; [left|]; naive_solver.
Qed.

(** ** The [groups:] sugar *)

(** A route with its [groups:] written as [meta.tags]. *)
Definition desugar_route (r : RouteEntry) : RouteEntry :=
  mkRouteEntry (re_tool r) (re_resource r) (re_prompt r) (re_llm r)
    (Some (mkRouteMeta (route_static_tags r) (re_meta r ≫= rm_scope)
             (match re_meta r with Some m => rm_properties m | None => ∅ end)))
    None (re_when r) (re_plugins r) (re_identity r).

Definition desugar_config (c : CpexConfig) : CpexConfig :=
  mkConfig (cx_global c) (cx_plugin_dirs c) (cx_plugins c) (cx_groups c)
    (map desugar_route (cx_routes c)) (cx_settings c).

Lemma desugar_tags r : route_static_tags (desugar_route r) = route_static_tags r.
Proof. unfold route_static_tags at 1. simpl. apply app_nil_r. Qed.

Lemma desugar_score `{WildMatch} et en scope r :
  route_score et en scope (desugar_route r) = route_score et en scope r.
Proof. reflexivity. Qed.

Lemma desugar_best `{WildMatch} et en scope routes b :
  best_route et en scope (map desugar_route routes) (prod_map id desugar_route <$> b)
  = prod_map id desugar_route <$> best_route et en scope routes b.
Proof.
  revert b. induction routes as [|r routes IH]; intros b; simpl; [done|].
  rewrite desugar_score. rewrite <- IH. f_equal.
  destruct (route_score et en scope r); [|done]. destruct b as [[s rb]|]; [|done]. simpl.
  by destruct (s <? n).
Qed.

Lemma desugar_find `{WildMatch} config et en scope :
  find_matching_route (desugar_config config) et en scope
  = desugar_route <$> find_matching_route config et en scope.
Proof.
  unfold find_matching_route. simpl.
  pose proof (desugar_best et en scope (cx_routes config) None) as Hb. simpl in Hb.
  rewrite Hb. by destruct (best_route et en scope (cx_routes config) None) as [[s r]|].
Qed.

Lemma find_route_in `{WildMatch} config et en scope r :
  find_matching_route config et en scope = Some r → r ∈ cx_routes config.
Proof.
  unfold find_matching_route.
  destruct (winner_exists et en scope (cx_routes config)) as [Hnone|(r0 & s0 & Hw)].
  - assert (best_route et en scope (cx_routes config) None = None) as ->; [|done].
    by apply best_route_none.
  - rewrite (winner_is_best _ _ _ _ r0 s0 Hw). intros [= <-].
    destruct Hw as (pre & post & -> & _). apply elem_of_app. right. by left.
Qed.

(** ** Properties *)

(** The route chosen for an entity is the most specific one: it matches the
    entity and the request's scope, no other matching route scores higher, and
    among those that score as high it is the first declared; there is none
    exactly when no route matches. *)
Theorem find_matching_route_spec `{WildMatch} config et en scope :
  (∀ r, find_matching_route config et en scope = Some r
        ↔ ∃ s, route_wins et en scope (cx_routes config) r s)
  ∧ (find_matching_route config et en scope = None
     ↔ ∀ r, r ∈ cx_routes config → route_score et en scope r = None).
Proof.
  unfold find_matching_route.
  destruct (winner_exists et en scope (cx_routes config)) as [Hnone|(r0 & s0 & Hw)].
  - assert (∀ r s, ¬ route_wins et en scope (cx_routes config) r s) as Hno.
    { intros r s (pre & post & Heq & Hs & _). rewrite Hnone in Hs; [done|]. rewrite Heq.
      apply elem_of_app. right. by left. }
    assert (best_route et en scope (cx_routes config) None = None) as ->.
    { by apply best_route_none. }
    naive_solver.
  - pose proof (winner_is_best et en scope (cx_routes config) r0 s0 Hw) as Hb.
    rewrite Hb. simpl. split.
    + intros r. split; [intros [= <-]; by exists s0|]. intros [s Hr].
      apply winner_is_best in Hr. rewrite Hr in Hb. by injection Hb as _ ->.
    + split; [done|]. intros Hnone. destruct Hw as (pre & post & Heq & Hs & _).
      rewrite Hnone in Hs; [done|]. rewrite Heq. apply elem_of_app. right. by left.
Qed.

(** With routing on, each plugin is resolved at most once, and with the
    overrides and [when] clause of the last layer that names it (the [all]
    group, the entity type's defaults, the tag groups, the route, in that
    order); which plugins are resolved does not depend on the order in which
    the tag set is iterated. *)
Theorem resolve_plugins_spec `{WildMatch} (order : HashOrder) config et en scope tags :
  routing_enabled config = true →
  let resolved := resolve_plugins_for_entity config et en scope tags in
  NoDup (rp_name <$> resolved)
  ∧ (∀ rp, rp ∈ resolved ↔ last_of (collect_layers config et en scope tags) rp)
  ∧ (∀ n, n ∈ (rp_name <$> resolved)
          ↔ contributes config et (find_matching_route config et en scope) tags n).
Proof.
  intros Hr. unfold resolve_plugins_for_entity. rewrite Hr. simpl.
  destruct (dedup_by_name_spec (collect_layers config et en scope tags)) as [Hnd Hin].
  split_and!; [done|done|]. intros n. by rewrite dedup_names, collect_layers_names.
Qed.

(** In a configuration that passes validation every plugin resolved for an
    entity is a declared one, provided the entity type has no default group
    (whose plugin list validation does not look at). *)
Theorem validated_resolution_declared `{WildMatch} (order : HashOrder) config et en scope tags rp :
  validate_config config = Ok tt →
  gc_defaults (cx_global config) !! et = None →
  rp ∈ resolve_plugins_for_entity config et en scope tags →
  rp_name rp ∈ plugin_names_of config.
Proof.
  intros Hv Hd Hin. unfold resolve_plugins_for_entity in Hin.
  destruct (routing_enabled config) eqn:Hr; simpl in Hin.
  - destruct (validate_config_refs config Hv Hr) as (Hrt & Hg & _).
    apply (list_elem_of_fmap_2 rp_name), dedup_names, collect_layers_names in Hin.
    destruct Hin as [(g & r & [Hg'|Hg'] & Hr' & ->)|[(rt & g & r & tag & Hf & _ & Hg' & Hr' & ->)|
      (rt & r & Hf & Hr' & ->)]]; [by eapply Hg|congruence|by eapply Hg|].
    apply (Hrt rt); [|done]. by eapply find_route_in.
  - apply list_elem_of_In, in_map_iff in Hin as (p & <- & Hp). simpl.
    unfold plugin_names_of. apply elem_of_list_to_set, list_elem_of_In. by apply in_map.
Qed.

(** [groups:] is pure sugar over tags: writing every route's groups into its
    [meta.tags] changes neither the plugins nor the identity steps resolved
    for any entity. *)
Theorem groups_are_tags `{WildMatch} (order : HashOrder) config et en scope tags :
  resolve_plugins_for_entity (desugar_config config) et en scope tags
  = resolve_plugins_for_entity config et en scope tags
  ∧ resolve_identity_plugins_for_route (desugar_config config) et en scope
    = resolve_identity_plugins_for_route config et en scope.
Proof.
  unfold resolve_plugins_for_entity, resolve_identity_plugins_for_route, collect_layers,
    merged_tags. rewrite desugar_find. simpl.
  destruct (find_matching_route config et en scope) as [rt|]; simpl; [|done].
  by rewrite !desugar_tags.
Qed.

(** ** Witnesses *)

Module Demo.

#[global] Instance exact_or_star : WildMatch := λ p n, String.eqb p "*" || String.eqb p n.

(** Two iteration orders of hashed collections. *)
Definition forward : HashOrder :=
  {| set_iter := elements; map_iter := λ A, map_to_list;
     set_iter_perm := λ s, reflexivity _; map_iter_perm := λ A m, reflexivity _ |}.
Definition backward : HashOrder :=
  {| set_iter := λ s, reverse (elements s); map_iter := λ A m, reverse (map_to_list m);
     set_iter_perm := λ s, reverse_Permutation _;
     map_iter_perm := λ A m, reverse_Permutation _ |}.

Definition plugin (name : string) : PluginConfig :=
  mkPluginConfig name "builtin" None None None [] Sequential 10 Fail ∅ [] [] None.

Definition group (level : string) : PolicyGroup :=
  mkGroup None ∅ [RefWithOverrides [("scanner", VString level)]] None.

Definition route : RouteEntry :=
  mkRouteEntry (Some (Single "get_pay")) None None None
    (Some (mkRouteMeta ["hr"] None ∅)) (Some (NameList ["pii"])) None [RefName "audit"] None.

Definition config : CpexConfig :=
  mkConfig (mkGlobal {[ "hr" := group "low"; "pii" := group "high" ]} ∅ None) []
    [plugin "scanner"; plugin "audit"] ∅
    [mkRouteEntry (Some (Single "*")) None None None None None None [] None; route]
    (mkSettings true 30 true false false 10000).

End Demo.

(** Which group's overrides win depends on the iteration order of the tags. *)
Example overrides_follow_hash_order :
  resolve_plugins_for_entity (order := Demo.forward) Demo.config "tool" "get_pay" None ∅
  ≠ resolve_plugins_for_entity (order := Demo.backward) Demo.config "tool" "get_pay" None ∅.
Proof. vm_compute. congruence. Qed.

Lemma resolve_plugins_witness :
  NoDup (rp_name <$> resolve_plugins_for_entity (order := Demo.forward) Demo.config
    "tool" "get_pay" None ∅).
Proof. by apply (resolve_plugins_spec Demo.forward Demo.config "tool" "get_pay" None ∅). Defined.

Lemma validated_resolution_witness :
  "audit" ∈ plugin_names_of Demo.config.
Proof.
  apply (validated_resolution_declared Demo.forward Demo.config "tool" "get_pay" None ∅
           (mkResolved "audit" None None)).
  - vm_compute. reflexivity.
  - reflexivity.
  - apply list_elem_of_In. vm_compute. auto.
Defined.
