(* ===== verification/ConfigLoad.v ===== *)
(** * Reading the configuration (cpex-core/src/config.rs)

    The hand-written parts of reading a configuration: the two custom
    deserialisers, the rejection of renamed keys, and [parse_config].  What
    serde derives (text to value, value to a struct) is the class
    [SerdeConfig]. *)

From S2P Require Import Prelude RustStd F64 Json Yaml ExtData Extensions PluginTypes.
From S2P Require Import Config.

Local Open Scope string_scope.
Local Open Scope list_scope.

(** ** What serde provides *)

(** The local struct [StepYaml]. *)
Record StepYaml := mkStepYaml {
  sy_name : string;
  sy_on_error : option string;
  sy_config : option Value;
  sy_extra : gmap string Value
}.

Class SerdeConfig := {
  yaml_from_str : string → Result Yaml string;
  config_from_value : Yaml → Result CpexConfig string;
  ref_from_value : Yaml → Result PluginRouteRef string;
  step_from_value : Yaml → Result StepYaml string
}.

(** ** Custom deserialisers *)

(** [iter().map(f).collect()] into a [Result]: the first error wins. *)
Fixpoint collect_results {A B E} (f : A → Result B E) (l : list A) : Result (list B) E :=
  match l with
  | [] => Ok []
  | x :: l => let? y := f x in let? ys := collect_results f l in Ok (y :: ys)
  end.

Section Load.
Context `{SerdeConfig} `{YamlLib}.

Definition deserialize_plugin_refs (v : Yaml) : Result (list PluginRouteRef) string :=
  match v with
  | YSequence items => collect_results ref_from_value items
  | YMapping _ => Ok []
  | YNull => Ok []
  | other => Err ("`plugins:` must be a sequence (activation list) or a mapping "
                  +:+ "(APL per-plugin overrides), got " +:+ debug_yaml other)
  end.

Definition parse_identity_step (raw : Yaml) (index : nat) : Result RouteIdentityStep string :=
  let at_index := "identity step [" +:+ show_nat index +:+ "]" in
  match raw with
  | YString name =>
      if String.eqb name EmptyString then Err (at_index +:+ " plugin name cannot be empty")
      else Ok (mkIdentityStep name None None ∅)
  | YMapping _ =>
      match step_from_value raw with
      | Err e => Err (at_index +:+ ": " +:+ e)
      | Ok parsed =>
          if String.eqb (sy_name parsed) EmptyString then
            Err (at_index +:+ " `name:` cannot be empty")
          else Ok (mkIdentityStep (sy_name parsed) (sy_on_error parsed) (sy_config parsed)
                     (sy_extra parsed))
      end
  | _ => Err (at_index +:+ " must be a plugin name (string) or a map "
              +:+ "with `name:` (and optional `on_error:` / `config:`)")
  end.

(** [None] and [Some(Null)] both read as an absent block. *)
Definition deserialize_route_identity (raw : option Yaml) :
    Result (option RouteIdentityConfig) string :=
  match raw with
  | None => Ok None
  | Some YNull => Ok None
  | Some raw =>
      let? '(replace_inherited, raw_steps) :=
        match raw with
        | YSequence items => Ok (false, items)
        | YMapping map =>
            let? replace_inherited :=
              match mapping_get map "replace_inherited" with
              | Some v =>
                  match yaml_as_bool v with
                  | Some b => Ok b
                  | None => Err "`identity.replace_inherited` must be a boolean"
                  end
              | None => Ok false
              end in
            match mapping_get map "steps" with
            | None => Err ("`authentication:` object form requires `steps:` (a list of "
                           +:+ "authentication steps); did you mean to write the list form?")
            | Some steps_val =>
                match yaml_as_sequence steps_val with
                | Some items => Ok (replace_inherited, items)
                | None => Err "`authentication.steps` must be a list"
                end
            end
        | _ => Err ("`authentication:` must be a list of steps or an object with "
                    +:+ "`steps:` (and optional `replace_inherited:`)")
        end in
      let? steps := collect_results (λ p, parse_identity_step p.2 p.1) (imap pair raw_steps) in
      Ok (Some (mkIdentity steps replace_inherited))
  end.

(** ** Renamed keys *)

Definition renamed (scope : string) : Result unit PluginError :=
  config_error ("in `" +:+ scope +:+ "`: config field `identity` was renamed to "
                +:+ "`authentication` — update your config").

Definition has_identity (v : Yaml) : bool := bool_decide (is_Some (yaml_get v "identity")).

(** One section of named groups. *)
Definition reject_in_groups (prefix : string) (section : option Yaml) : Result unit PluginError :=
  match section ≫= yaml_as_mapping with
  | None => Ok tt
  | Some map =>
      check_each (λ '(name, group),
        if has_identity group then renamed (prefix +:+ default "?" (yaml_as_str name)) else Ok tt)
        map
  end.

Definition reject_renamed_identity_key (raw : Yaml) : Result unit PluginError :=
  let? _ :=
    match yaml_get raw "global" with
    | None => Ok tt
    | Some global =>
        if has_identity global then renamed "global"
        else
          check_each (λ section,
            reject_in_groups ("global." +:+ section +:+ ".") (yaml_get global section))
            ["policies"; "defaults"]
    end in
  let? _ := reject_in_groups "groups." (yaml_get raw "groups") in
  match yaml_get raw "routes" ≫= yaml_as_sequence with
  | None => Ok tt
  | Some routes =>
      check_each (λ '(i, route),
        if has_identity route then renamed ("routes[" +:+ show_nat i +:+ "]") else Ok tt)
        (imap pair routes)
  end.

(** ** [parse_config] *)

Context `{order : HashOrder}.

Definition parse_config (yaml : string) : Result CpexConfig PluginError :=
  match yaml_from_str yaml with
  | Err e => Err (ErrConfig ("failed to parse config YAML: " +:+ e))
  | Ok raw =>
      let? _ := reject_renamed_identity_key raw in
      match config_from_value raw with
      | Err e => Err (ErrConfig ("failed to parse config YAML: " +:+ e))
      | Ok config =>
          let config := merge_groups_into_policies config in
          let? _ := validate_config config in
          Ok config
      end
  end.

End Load.

(** ** Lemmas *)

Lemma collect_results_ok {A B E} (f : A → Result B E) l ys :
  collect_results f l = Ok ys ↔ Forall2 (λ x y, f x = Ok y) l ys.
Proof.
  revert ys. induction l as [|x l IH]; intros ys; simpl.
  { split; [intros [= <-]; constructor|by intros ->%Forall2_nil_inv_l]. }
  split.
  - intros (y & Hx & (ys' & Hl & [= <-])%result_bind_ok)%result_bind_ok.
    constructor; [done|by apply IH].
  - intros (y & ys' & Hx & Hl & ->)%Forall2_cons_inv_l. rewrite Hx. simpl.
    apply IH in Hl. by rewrite Hl.
Qed.

(** Where a stale [identity] key can be. *)
Definition stale_identity (raw : Yaml) : Prop :=
  (∃ g, yaml_get raw "global" = Some g
    ∧ (has_identity g = true
       ∨ ∃ section m name group, section ∈ ["policies"; "defaults"]
           ∧ yaml_get g section ≫= yaml_as_mapping = Some m
           ∧ (name, group) ∈ m ∧ has_identity group = true))
  ∨ (∃ m name group, yaml_get raw "groups" ≫= yaml_as_mapping = Some m
      ∧ (name, group) ∈ m ∧ has_identity group = true)
  ∨ (∃ routes route, yaml_get raw "routes" ≫= yaml_as_sequence = Some routes
      ∧ route ∈ routes ∧ has_identity route = true).

Lemma reject_in_groups_ok prefix section :
  reject_in_groups prefix section = Ok tt
  ↔ ∀ m name group, section ≫= yaml_as_mapping = Some m → (name, group) ∈ m →
      has_identity group = false.
Proof.
  unfold reject_in_groups. destruct (section ≫= yaml_as_mapping) as [m|]; [|naive_solver].
  rewrite check_each_ok. split.
  - intros Hall m' name group [= <-] Hin. specialize (Hall _ Hin). simpl in Hall.
    by destruct (has_identity group).
  - intros Hall [name group] Hin. by rewrite (Hall m name group).
Qed.

(** A configuration is refused for a renamed key exactly when one of the
    places that may hold authentication steps still uses the old key. *)
Theorem reject_renamed_exact raw :
  reject_renamed_identity_key raw = Ok tt ↔ ¬ stale_identity raw.
Proof.
  unfold reject_renamed_identity_key. rewrite !result_bind_unit_ok, reject_in_groups_ok.
  assert (match yaml_get raw "routes" ≫= yaml_as_sequence with
    | None => Ok tt
    | Some routes => check_each (λ '(i, route),
        if has_identity route then renamed ("routes[" +:+ show_nat i +:+ "]") else Ok tt)
        (imap pair routes)
    end = Ok tt ↔ ∀ routes route, yaml_get raw "routes" ≫= yaml_as_sequence = Some routes →
      route ∈ routes → has_identity route = false) as ->.
  { destruct (yaml_get raw "routes" ≫= yaml_as_sequence) as [routes|]; [|naive_solver].
    rewrite check_each_ok. split.
    - intros Hall routes' route [= <-] [i Hi]%list_elem_of_lookup.
      specialize (Hall (i, route)). simpl in Hall.
      destruct (has_identity route); [|done]. discriminate Hall.
      apply list_elem_of_lookup. exists i. by rewrite list_lookup_imap, Hi.
    - intros Hall [i route] [j Hj]%list_elem_of_lookup.
      rewrite list_lookup_imap in Hj. apply fmap_Some in Hj as (x & Hx & [= -> ->]).
      rewrite (Hall routes x); [done|done|by eapply list_elem_of_lookup_2]. }
  assert (match yaml_get raw "global" with
    | None => Ok tt
    | Some global =>
        if has_identity global then renamed "global"
        else check_each (λ section,
               reject_in_groups ("global." +:+ section +:+ ".") (yaml_get global section))
               ["policies"; "defaults"]
    end = Ok tt ↔ ∀ g, yaml_get raw "global" = Some g → has_identity g = false
      ∧ ∀ section m name group, section ∈ ["policies"; "defaults"] →
          yaml_get g section ≫= yaml_as_mapping = Some m → (name, group) ∈ m →
          has_identity group = false) as ->.
  { destruct (yaml_get raw "global") as [g|]; [|naive_solver].
    destruct (has_identity g) eqn:Eg.
    - split; [done|]. intros Hall. destruct (Hall g eq_refl). congruence.
    - rewrite check_each_ok. setoid_rewrite reject_in_groups_ok. naive_solver. }
  unfold stale_identity. split.
  - intros (Hg & Hgr & Hrt) [(g & Eg & [Hi|(s & m & n & gr & Hs & Hm & Hin & Hi)])|
      [(m & n & gr & Hm & Hin & Hi)|(rs & rt & Hrs & Hin & Hi)]].
    + destruct (Hg g Eg). congruence.
    + destruct (Hg g Eg) as [_ Hx]. specialize (Hx s m n gr Hs Hm Hin). congruence.
    + specialize (Hgr m n gr Hm Hin). congruence.
    + specialize (Hrt rs rt Hrs Hin). congruence.
  - intros Hno. split_and!.
    + intros g Eg. split.
      * destruct (has_identity g) eqn:E; [|done]. exfalso. apply Hno. left. exists g. by split; [|left].
      * intros s m n gr Hs Hm Hin. destruct (has_identity gr) eqn:E; [|done].
        exfalso. apply Hno. left. exists g. split; [done|]. right. by exists s, m, n, gr.
    + intros m n gr Hm Hin. destruct (has_identity gr) eqn:E; [|done].
      exfalso. apply Hno. right. left. by exists m, n, gr.
    + intros rs rt Hrs Hin. destruct (has_identity rt) eqn:E; [|done].
      exfalso. apply Hno. right. right. by exists rs, rt.
Qed.

Section Properties.
Context `{SerdeConfig, WildMatch} `{order : HashOrder}.

(** A configuration that loads has no stale key, has its top-level groups
    folded into the policies (a group replaces a policy of the same name), and
    is valid. *)
Theorem parse_config_sound yaml config :
  parse_config yaml = Ok config →
  ∃ raw config0, yaml_from_str yaml = Ok raw ∧ ¬ stale_identity raw
    ∧ config_from_value raw = Ok config0
    ∧ config = merge_groups_into_policies config0
    ∧ validate_config config = Ok tt
    ∧ ∀ n, gc_policies (cx_global config) !! n
           = match cx_groups config0 !! n with
             | Some g => Some g
             | None => gc_policies (cx_global config0) !! n
             end.
Proof.
  unfold parse_config. destruct (yaml_from_str yaml) as [raw|e] eqn:Ey; [|done].
  intros ([] & Hr & Hc)%result_bind_ok. destruct (config_from_value raw) as [config0|e] eqn:Ec; [|done].
  apply result_bind_ok in Hc as ([] & Hv & [= <-]). exists raw, config0.
  split_and!; [done|by apply reject_renamed_exact|done|done|done|].
  intros n. unfold merge_groups_into_policies. destruct (size (cx_groups config0) =? 0)%nat eqn:E.
  - apply Nat.eqb_eq, map_size_empty_inv in E. by rewrite E, lookup_empty.
  - simpl. rewrite lookup_union. destruct (cx_groups config0 !! n), (gc_policies _ !! n); done.
Qed.

(** The list form of an [authentication:] block, the object form without
    [replace_inherited] and the object form with [replace_inherited: false]
    all mean the same. *)
Theorem identity_forms_agree items :
  deserialize_route_identity (Some (YSequence items))
  = deserialize_route_identity (Some (YMapping [(YString "steps", YSequence items)]))
  ∧ deserialize_route_identity (Some (YSequence items))
    = deserialize_route_identity
        (Some (YMapping [(YString "replace_inherited", YBool false);
                         (YString "steps", YSequence items)])).
Proof. done. Qed.

(** Every step of an accepted block names a plugin, and the steps are those of
    the document, in order. *)
Theorem identity_steps_named raw i :
  deserialize_route_identity raw = Ok (Some i) →
  Forall (λ s, is_name s ≠ EmptyString) (ri_steps i).
Proof.
  unfold deserialize_route_identity. destruct raw as [raw|]; [|done].
  intros Hd. assert (∃ p, collect_results (λ p, parse_identity_step p.2 p.1) p = Ok (ri_steps i))
    as (p & Hp).
  { destruct raw; try done;
      apply result_bind_ok in Hd as ([b items] & _ & (steps & Hs & [= <-])%result_bind_ok);
      by eexists. }
  apply collect_results_ok in Hp. induction Hp as [|x s l ss Hx _ IH]; constructor; [|done].
  unfold parse_identity_step in Hx. destruct x as [j raw']; simpl in Hx.
  destruct raw'; try done.
  - destruct (String.eqb_spec s0 EmptyString); [done|]. by injection Hx as <-.
  - destruct (step_from_value _) as [sy|]; [|done].
    destruct (String.eqb_spec (sy_name sy) EmptyString); [done|]. by injection Hx as <-.
Qed.

End Properties.
