(* ===== verification/Registry.v ===== *)
(** * The plugin registry (cpex-core/src/registry.rs)

    Plugin objects and handlers are type parameters: the registry only stores
    them.  The circuit breaker [Arc<AtomicBool>] of a [PluginRef] is a cell
    address into a store of tripped cells, shared by every clone.  The id and
    the cell a new [PluginRef] gets are arguments. *)

From S2P Require Import Prelude RustStd F64 Json ExtData Extensions PluginTypes.
From stdpp Require Import sorting.

Local Open Scope string_scope.
Local Open Scope list_scope.

(** ** Data *)

(** The cells whose flag is set. *)
Abbreviation FlagStore := (gset nat).

Section Registry.
Context {P H : Type}.

Record PluginRef := mkPluginRef {
  pr_plugin : P;
  pr_trusted_config : PluginConfig;
  pr_id : Uuid;
  pr_disabled : nat
}.

Record HookEntry := mkHookEntry {
  he_plugin_ref : PluginRef;
  he_handler : H
}.

Record PluginRegistry := mkRegistry {
  rg_plugins : gmap string PluginRef;
  rg_hook_index : gmap string (list HookEntry)
}.

(** ** [PluginRef] *)

(** [Uuid::new_v4()] and the new [AtomicBool] are given. *)
Definition plugin_ref_new (plugin : P) (config : PluginConfig) (id : Uuid) (cell : nat) :
    PluginRef := mkPluginRef plugin config id cell.

Definition pr_name (r : PluginRef) : string := pcf_name (pr_trusted_config r).
Definition pr_priority (r : PluginRef) : Z := pcf_priority (pr_trusted_config r).
Definition is_disabled (flags : FlagStore) (r : PluginRef) : bool :=
  bool_decide (pr_disabled r ∈ flags).
Definition disable (flags : FlagStore) (r : PluginRef) : FlagStore := {[ pr_disabled r ]} ∪ flags.
Definition pr_mode (flags : FlagStore) (r : PluginRef) : PluginMode :=
  if is_disabled flags r then Disabled else pcf_mode (pr_trusted_config r).

(** ** Stable sorting by priority ([sort_by_key]) *)

Definition entry_priority (e : HookEntry) : Z := pr_priority (he_plugin_ref e).

Fixpoint insert_entry (e : HookEntry) (l : list HookEntry) : list HookEntry :=
  match l with
  | [] => [e]
  | x :: l' => if (entry_priority e <=? entry_priority x)%Z then e :: l else x :: insert_entry e l'
  end.

Definition sort_entries (l : list HookEntry) : list HookEntry := foldr insert_entry [] l.

(** ** Operations *)

Definition registry_new : PluginRegistry := mkRegistry ∅ ∅.

Abbreviation HookIndex := (gmap string (list HookEntry)).

(** [hook_index.entry(h).or_default().push(e)]. *)
Definition push_entry (idx : HookIndex) (p : string * HookEntry) : HookIndex :=
  <[p.1 := default [] (idx !! p.1) ++ [p.2]]> idx.

(** [if let Some(entries) = hook_index.get_mut(h) { entries.sort_by_key(..) }]. *)
Definition sort_hook (idx : HookIndex) (hook : string) : HookIndex :=
  match idx !! hook with
  | Some entries => <[hook := sort_entries entries]> idx
  | None => idx
  end.

Definition duplicate_message (name : string) : string :=
  ("plugin '" +:+ name +:+ "' is already registered")%string.

Definition register_multi_handler (r : PluginRegistry) (plugin : P) (config : PluginConfig)
    (id : Uuid) (cell : nat) (handlers : list (string * H)) :
    Result unit string * PluginRegistry :=
  let name := pcf_name config in
  match rg_plugins r !! name with
  | Some _ => (Err (duplicate_message name), r)
  | None =>
      let plugin_ref := plugin_ref_new plugin config id cell in
      let idx := foldl push_entry (rg_hook_index r)
                   ((λ p, (p.1, mkHookEntry plugin_ref p.2)) <$> handlers) in
      let idx := foldl sort_hook idx handlers.*1 in
      (Ok tt, mkRegistry (<[name := plugin_ref]> (rg_plugins r)) idx)
  end.

Definition register_for_names_inner (r : PluginRegistry) (plugin : P) (config : PluginConfig)
    (handler : H) (id : Uuid) (cell : nat) (names : list string) :
    Result unit string * PluginRegistry :=
  let name := pcf_name config in
  match rg_plugins r !! name with
  | Some _ => (Err (duplicate_message name), r)
  | None =>
      let plugin_ref := plugin_ref_new plugin config id cell in
      let idx := foldl push_entry (rg_hook_index r)
                   ((λ n, (n, mkHookEntry plugin_ref handler)) <$> names) in
      let idx := foldl sort_hook idx names in
      (Ok tt, mkRegistry (<[name := plugin_ref]> (rg_plugins r)) idx)
  end.

(** [retain] on one list; an emptied list is dropped from the index. *)
Definition retain_others (name : string) (entries : list HookEntry) : option (list HookEntry) :=
  match filter (λ e, pr_name (he_plugin_ref e) ≠ name) entries with
  | [] => None
  | l => Some l
  end.

Definition unregister (r : PluginRegistry) (name : string) : option PluginRef * PluginRegistry :=
  match rg_plugins r !! name with
  | None => (None, r)
  | Some plugin_ref =>
      (Some plugin_ref,
       mkRegistry (delete name (rg_plugins r)) (omap (retain_others name) (rg_hook_index r)))
  end.

Definition registry_get (r : PluginRegistry) (name : string) : option PluginRef :=
  rg_plugins r !! name.

Definition entries_for_hook (r : PluginRegistry) (hook : string) : list HookEntry :=
  default [] (rg_hook_index r !! hook).

Definition has_hooks_for (r : PluginRegistry) (hook : string) : bool :=
  match rg_hook_index r !! hook with
  | Some [] => false
  | Some _ => true
  | None => false
  end.

Definition plugin_count (r : PluginRegistry) : nat := size (rg_plugins r).
Definition plugin_names `{HashOrder} (r : PluginRegistry) : list string :=
  (map_iter (rg_plugins r)).*1.

Definition entries_for_plugin `{HashOrder} (r : PluginRegistry) (name : string) :
    list (string * HookEntry) :=
  flat_map
    (λ p : string * list HookEntry,
       map (pair p.1) (filter (λ e, pr_name (he_plugin_ref e) = name) p.2))
    (map_iter (rg_hook_index r)).

(** ** Grouping by mode *)

Record GroupedHookEntries := mkGrouped {
  g_sequential : list HookEntry;
  g_transform : list HookEntry;
  g_audit : list HookEntry;
  g_concurrent : list HookEntry;
  g_fire_and_forget : list HookEntry
}.

Definition group_push (flags : FlagStore) (g : GroupedHookEntries) (e : HookEntry) :
    GroupedHookEntries :=
  let '(mkGrouped s t a c f) := g in
  match pr_mode flags (he_plugin_ref e) with
  | Sequential => mkGrouped (s ++ [e]) t a c f
  | Transform => mkGrouped s (t ++ [e]) a c f
  | Audit => mkGrouped s t (a ++ [e]) c f
  | Concurrent => mkGrouped s t a (c ++ [e]) f
  | FireAndForget => mkGrouped s t a c (f ++ [e])
  | Disabled => g
  end.

Definition group_by_mode (flags : FlagStore) (entries : list HookEntry) : GroupedHookEntries :=
  foldl (group_push flags) (mkGrouped [] [] [] [] []) entries.

(** ** The invariant *)

Definition sorted_by_priority (l : list HookEntry) : Prop :=
  StronglySorted (λ a b, (entry_priority a ≤ entry_priority b)%Z) l.

Record registry_wf (r : PluginRegistry) : Prop := {
  wf_names : ∀ n p, rg_plugins r !! n = Some p → pr_name p = n;
  wf_entries : ∀ h l e, rg_hook_index r !! h = Some l → e ∈ l →
    rg_plugins r !! pr_name (he_plugin_ref e) = Some (he_plugin_ref e);
  wf_sorted : ∀ h l, rg_hook_index r !! h = Some l → sorted_by_priority l ∧ l ≠ []
}.

(** The operations the manager applies. *)
Inductive reg_step : PluginRegistry → PluginRegistry → Prop :=
| step_register r plugin config handler id cell names :
    reg_step r (register_for_names_inner r plugin config handler id cell names).2
| step_register_multi r plugin config id cell handlers :
    reg_step r (register_multi_handler r plugin config id cell handlers).2
| step_unregister r name : reg_step r (unregister r name).2.

Definition reachable (r : PluginRegistry) : Prop := rtc reg_step registry_new r.

End Registry.
Arguments PluginRef : clear implicits.
Arguments HookEntry : clear implicits.
Arguments PluginRegistry : clear implicits.
Arguments GroupedHookEntries : clear implicits.

(** ** Lemmas: sorting *)

Section Sorting.
Context {P H : Type}.
Implicit Types e : HookEntry P H.
Implicit Types l : list (HookEntry P H).

Lemma insert_entry_perm e l : insert_entry e l ≡ₚ e :: l.
Proof.
  induction l as [|x l IH]; simpl; [done|]. destruct (_ <=? _)%Z; [done|].
  rewrite IH. apply Permutation_swap.
Qed.

Lemma sort_entries_perm l : sort_entries l ≡ₚ l.
Proof.
  induction l as [|e l IH]; simpl; [done|]. by rewrite insert_entry_perm, IH.
Qed.

Lemma insert_entry_sorted e l : sorted_by_priority l → sorted_by_priority (insert_entry e l).
Proof.
  unfold sorted_by_priority. induction 1 as [|x l Hl IH Hx]; simpl; [repeat constructor|].
  destruct (Z.leb_spec (entry_priority e) (entry_priority x)).
  - constructor; [by constructor|]. constructor; [done|].
    eapply Forall_impl; [exact Hx|]. simpl. lia.
  - constructor; [done|]. rewrite insert_entry_perm. constructor; [lia|done].
Qed.

Lemma sort_entries_sorted l : sorted_by_priority (sort_entries l).
Proof. induction l as [|e l IH]; [constructor|]. by apply insert_entry_sorted. Qed.

Lemma insert_entry_first e l :
  Forall (λ x, (entry_priority e ≤ entry_priority x)%Z) l → insert_entry e l = e :: l.
Proof.
  destruct 1 as [|x l Hx _]; simpl; [done|]. by rewrite (proj2 (Z.leb_le _ _) Hx).
Qed.

Lemma sort_entries_id l : sorted_by_priority l → sort_entries l = l.
Proof.
  induction 1 as [|x l Hl IH Hx]; simpl; [done|]. rewrite IH. by apply insert_entry_first.
Qed.

Lemma sort_entries_idemp l : sort_entries (sort_entries l) = sort_entries l.
Proof. apply sort_entries_id, sort_entries_sorted. Qed.

Section Filter.
Context (Q : HookEntry P H → Prop) `{!∀ e, Decision (Q e)}.

Lemma sorted_filter l : sorted_by_priority l → sorted_by_priority (filter Q l).
Proof.
  unfold sorted_by_priority. induction 1 as [|x l Hl IH Hx]; [constructor|].
  rewrite filter_cons. case_decide; [|done]. constructor; [done|].
  rewrite Forall_forall in *. intros y [_ Hy]%list_elem_of_filter. by apply Hx.
Qed.

Lemma filter_insert_entry e l :
  sorted_by_priority l →
  filter Q (insert_entry e l)
  = if decide (Q e) then insert_entry e (filter Q l) else filter Q l.
Proof.
  induction 1 as [|x l Hl IH Hx]; simpl; [by rewrite filter_cons, filter_nil|].
  destruct (Z.leb_spec (entry_priority e) (entry_priority x)) as [Hle|Hlt].
  - rewrite (filter_cons Q e). case_decide; [|done].
    rewrite insert_entry_first; [done|]. apply Forall_forall.
    intros y [_ Hy]%list_elem_of_filter. apply elem_of_cons in Hy as [->|Hy]; [done|].
    rewrite Forall_forall in Hx. specialize (Hx y Hy). simpl in Hx. lia.
  - rewrite !filter_cons, IH. case_decide; [|done]. case_decide; [|done]. simpl.
    destruct (Z.leb_spec (entry_priority e) (entry_priority x)); [lia|done].
Qed.

(** Sorting is stable: it commutes with restricting to any class of entries. *)
Lemma filter_sort_entries l : filter Q (sort_entries l) = sort_entries (filter Q l).
Proof.
  induction l as [|e l IH]; simpl; [done|].
  rewrite filter_insert_entry by apply sort_entries_sorted. rewrite filter_cons, IH.
  by case_decide.
Qed.

End Filter.
End Sorting.

(** ** Lemmas: the index after a registration *)

Section Index.
Context {P H : Type}.
Implicit Types idx : gmap string (list (HookEntry P H)).
Implicit Types ps : list (string * HookEntry P H).

Definition register_index idx ps : gmap string (list (HookEntry P H)) :=
  foldl sort_hook (foldl push_entry idx ps) ps.*1.

(** The entries registered for a hook, in order. *)
Definition new_entries ps (h : string) : list (HookEntry P H) :=
  (filter (λ p, p.1 = h) ps).*2.

Lemma push_all_lookup ps idx h :
  foldl push_entry idx ps !! h =
  match new_entries ps h with
  | [] => idx !! h
  | new => Some (default [] (idx !! h) ++ new)
  end.
Proof.
  revert idx. unfold new_entries. induction ps as [|[h' e] ps IH]; intros idx; simpl; [done|].
  rewrite IH, filter_cons. unfold push_entry. cbn [fst snd]. case_decide as Hh.
  - subst h'. rewrite fmap_cons, lookup_insert_eq. cbn [default snd].
    destruct (filter _ ps).*2; [done|].
    simpl. by rewrite <-app_assoc.
  - by rewrite lookup_insert_ne.
Qed.

Lemma sort_all_lookup names idx h :
  foldl sort_hook idx names !! h =
  if decide (h ∈ names) then sort_entries <$> idx !! h else idx !! h.
Proof.
  assert (∀ idx h', sort_hook idx h' !! h
            = if decide (h = h') then sort_entries <$> idx !! h else idx !! h) as Hone.
  { clear. intros idx h'. unfold sort_hook. case_decide as Hh.
    - subst h'. destruct (idx !! h) eqn:E; simpl; [by rewrite lookup_insert_eq|by rewrite E].
    - destruct (idx !! h'); [by rewrite lookup_insert_ne|done]. }
  revert idx. induction names as [|h' names IH]; intros idx; cbn [foldl].
  { case_decide as Hin; [by apply not_elem_of_nil in Hin|done]. }
  rewrite IH, Hone. destruct (decide (h = h')) as [->|Hne].
  - destruct (decide (h' ∈ h' :: names)); [|set_solver].
    case_decide; [|done]. destruct (idx !! h'); simpl; [|done]. by rewrite sort_entries_idemp.
  - destruct (decide (h ∈ names)); destruct (decide (h ∈ h' :: names)); set_solver.
Qed.

Lemma new_entries_in ps h : new_entries ps h ≠ [] → h ∈ ps.*1.
Proof.
  unfold new_entries. intros Hne. destruct (filter (λ p, p.1 = h) ps) as [|p l] eqn:E; [done|].
  assert (p ∈ filter (λ p, p.1 = h) ps) as [Hp Hin]%list_elem_of_filter by (rewrite E; by left).
  apply list_elem_of_fmap. by exists p.
Qed.

Lemma not_new_entries ps h : new_entries ps h = [] → h ∉ ps.*1.
Proof.
  unfold new_entries. intros E Hin. apply list_elem_of_fmap in Hin as (p & -> & Hp).
  assert (p ∈ filter (λ q, q.1 = p.1) ps) as Hf by (by apply list_elem_of_filter).
  apply fmap_nil_inv in E. rewrite E in Hf. by apply not_elem_of_nil in Hf.
Qed.

Lemma register_index_lookup idx ps h :
  register_index idx ps !! h =
  match new_entries ps h with
  | [] => idx !! h
  | new => Some (sort_entries (default [] (idx !! h) ++ new))
  end.
Proof.
  unfold register_index. rewrite sort_all_lookup, push_all_lookup.
  destruct (new_entries ps h) as [|e new] eqn:E.
  - rewrite decide_False; [done|]. by apply not_new_entries.
  - rewrite decide_True; [done|]. apply new_entries_in. by rewrite E.
Qed.

Lemma new_entries_elem ps h e : e ∈ new_entries ps h → (h, e) ∈ ps.
Proof.
  unfold new_entries. intros ([h' e'] & -> & Hp)%list_elem_of_fmap.
  apply list_elem_of_filter in Hp as [Hh Hin]. simpl in Hh. by subst h'.
Qed.

End Index.

(** ** Lemmas: the invariant *)

Section Invariant.
Context {P H : Type}.
Implicit Types r : PluginRegistry P H.

Lemma registry_new_wf : registry_wf (@registry_new P H).
Proof. by split; simpl; intros *; rewrite lookup_empty. Qed.

(** Registering entries of one new plugin under any hooks. *)
Lemma register_wf r (p : PluginRef P) ps :
  registry_wf r → rg_plugins r !! pr_name p = None →
  Forall (λ q, he_plugin_ref q.2 = p) ps →
  registry_wf (mkRegistry (<[pr_name p := p]> (rg_plugins r)) (register_index (rg_hook_index r) ps)).
Proof.
  intros Hwf Hnew Hps. rewrite Forall_forall in Hps. split; simpl.
  - intros n q. rewrite lookup_insert_Some. intros [[<- <-]|[_ Hq]]; [done|].
    by apply (wf_names r Hwf).
  - intros h l e. rewrite register_index_lookup.
    assert (∀ l', rg_hook_index r !! h = Some l' → e ∈ l' →
      <[pr_name p:=p]> (rg_plugins r) !! pr_name (he_plugin_ref e) = Some (he_plugin_ref e)) as Hold.
    { intros l' Hl' He. pose proof (wf_entries r Hwf h l' e Hl' He) as Hp.
      rewrite lookup_insert_ne; [done|]. congruence. }
    destruct (new_entries ps h) as [|e0 new] eqn:En; [by eauto|].
    intros [= <-]. rewrite sort_entries_perm, elem_of_app, <-En.
    intros [He|He%new_entries_elem].
    + destruct (rg_hook_index r !! h) as [l'|] eqn:El; [by eauto|].
      by apply not_elem_of_nil in He.
    + apply Hps in He. simpl in He. rewrite He. by rewrite lookup_insert_eq.
  - intros h l. rewrite register_index_lookup.
    destruct (new_entries ps h) as [|e0 new] eqn:En; [by apply (wf_sorted r Hwf)|].
    intros [= <-]. split; [apply sort_entries_sorted|]. intros Hnil.
    apply (f_equal length) in Hnil. rewrite (Permutation_length (sort_entries_perm _)) in Hnil.
    rewrite length_app in Hnil. simpl in Hnil. lia.
Qed.

Lemma unregister_wf r name : registry_wf r → registry_wf (unregister r name).2.
Proof.
  intros Hwf. unfold unregister. destruct (rg_plugins r !! name) as [p|] eqn:Ep; [|done].
  split; simpl.
  - intros n q [_ Hq]%lookup_delete_Some. by apply (wf_names r Hwf).
  - intros h l e. rewrite lookup_omap_Some. intros (l' & Hret & Hl') He.
    unfold retain_others in Hret. destruct (filter _ l') as [|x l2] eqn:Ef; [done|].
    injection Hret as <-. rewrite <-Ef in He. apply list_elem_of_filter in He as [Hn He].
    rewrite lookup_delete_ne by congruence. by eapply (wf_entries r Hwf).
  - intros h l. rewrite lookup_omap_Some. intros (l' & Hret & Hl').
    unfold retain_others in Hret. destruct (filter _ l') as [|x l2] eqn:Ef; [done|].
    injection Hret as <-. split; [|done]. rewrite <-Ef. apply sorted_filter.
    by eapply (wf_sorted r Hwf).
Qed.

Lemma register_names_shape r plugin config handler id cell names :
  rg_plugins r !! pcf_name config = None →
  let p := plugin_ref_new plugin config id cell in
  register_for_names_inner r plugin config handler id cell names
  = (Ok tt, mkRegistry (<[pr_name p := p]> (rg_plugins r))
       (register_index (rg_hook_index r) ((λ n, (n, mkHookEntry p handler)) <$> names))).
Proof.
  intros Hn. unfold register_for_names_inner, register_index. rewrite Hn.
  do 4 f_equal. rewrite <-list_fmap_compose. symmetry. apply list_fmap_id.
Qed.

Lemma register_multi_shape r plugin config id cell handlers :
  rg_plugins r !! pcf_name config = None →
  let p := plugin_ref_new plugin config id cell in
  register_multi_handler r plugin config id cell handlers
  = (Ok tt, mkRegistry (<[pr_name p := p]> (rg_plugins r))
       (register_index (rg_hook_index r) ((λ q, (q.1, mkHookEntry p q.2)) <$> handlers))).
Proof.
  intros Hn. unfold register_multi_handler, register_index. rewrite Hn.
  do 4 f_equal. by rewrite <-list_fmap_compose.
Qed.

Lemma reg_step_wf r r' : registry_wf r → reg_step r r' → registry_wf r'.
Proof.
  intros Hwf Hs.
  destruct Hs as [r0 plugin config handler id cell names|r0 plugin config id cell handlers|r0 name].
  - destruct (rg_plugins r0 !! pcf_name config) eqn:E.
    { unfold register_for_names_inner. by rewrite E. }
    rewrite register_names_shape by done. apply register_wf; [done|done|].
    apply Forall_fmap, Forall_forall. done.
  - destruct (rg_plugins r0 !! pcf_name config) eqn:E.
    { unfold register_multi_handler. by rewrite E. }
    rewrite register_multi_shape by done. apply register_wf; [done|done|].
    apply Forall_fmap, Forall_forall. done.
  - by apply unregister_wf.
Qed.

Lemma reachable_wf r : reachable r → registry_wf r.
Proof.
  unfold reachable. intros Hr. cut (∀ r0, rtc reg_step r0 r → registry_wf r0 → registry_wf r).
  { intros Hc. eapply Hc; [exact Hr|apply registry_new_wf]. }
  clear Hr. intros r0. induction 1 as [|x y z Hxy _ IH]; [done|]. intros Hwf.
  apply IH. by eapply reg_step_wf.
Qed.

(** Grouping is filtering by mode. *)
Definition by_mode (flags : FlagStore) (m : PluginMode) (l : list (HookEntry P H)) :
    list (HookEntry P H) :=
  filter (λ e, pr_mode flags (he_plugin_ref e) = m) l.

Lemma group_by_mode_spec flags l :
  group_by_mode flags l
  = mkGrouped (by_mode flags Sequential l) (by_mode flags Transform l) (by_mode flags Audit l)
      (by_mode flags Concurrent l) (by_mode flags FireAndForget l).
Proof.
  unfold group_by_mode.
  assert (∀ s t a c f, foldl (group_push flags) (mkGrouped s t a c f) l
    = mkGrouped (s ++ by_mode flags Sequential l) (t ++ by_mode flags Transform l)
        (a ++ by_mode flags Audit l) (c ++ by_mode flags Concurrent l)
        (f ++ by_mode flags FireAndForget l)) as Hg; [|apply Hg].
  induction l as [|e l IH]; intros s t a c f; simpl.
  { unfold by_mode. by rewrite !filter_nil, !app_nil_r. }
  unfold group_push. unfold by_mode in *.
  destruct (pr_mode flags (he_plugin_ref e)) eqn:Em; rewrite IH, !filter_cons, Em;
    simpl; rewrite <-?app_assoc; done.
Qed.

End Invariant.

(** ** Properties *)

Section Properties.
Context {P H : Type}.
Implicit Types r : PluginRegistry P H.

(** Every registry the manager can build by registering and unregistering
    is consistent: each hook's entries are in priority order and never an empty
    list, and each entry belongs to the plugin registered under its name. *)
Theorem registry_invariant r :
  reachable r →
  (∀ h, sorted_by_priority (entries_for_hook r h))
  ∧ (∀ h e, e ∈ entries_for_hook r h →
       registry_get r (pr_name (he_plugin_ref e)) = Some (he_plugin_ref e))
  ∧ (∀ h, has_hooks_for r h = bool_decide (entries_for_hook r h ≠ [])).
Proof.
  intros Hwf%reachable_wf. unfold entries_for_hook, has_hooks_for, registry_get.
  split_and!; intros h.
  - destruct (rg_hook_index r !! h) eqn:E; [by eapply (wf_sorted r Hwf)|constructor].
  - intros e. destruct (rg_hook_index r !! h) eqn:E; simpl.
    + by eapply (wf_entries r Hwf).
    + by intros ?%not_elem_of_nil.
  - by destruct (rg_hook_index r !! h) as [[|x l]|].
Qed.

Lemma register_multi_spec_lemma r plugin config id cell handlers :
  registry_wf r → rg_plugins r !! pcf_name config = None →
  let p := plugin_ref_new plugin config id cell in
  let r' := (register_multi_handler r plugin config id cell handlers).2 in
  registry_get r' (pcf_name config) = Some p
  ∧ (∀ n, n ≠ pcf_name config → registry_get r' n = registry_get r n)
  ∧ (∀ h, let new := (λ q, mkHookEntry p q.2) <$> filter (λ q, q.1 = h) handlers in
       entries_for_hook r' h ≡ₚ entries_for_hook r h ++ new
       ∧ filter (λ e, pr_name (he_plugin_ref e) ≠ pcf_name config) (entries_for_hook r' h)
         = entries_for_hook r h).
Proof.
  intros Hwf E. unfold registry_get. rewrite register_multi_shape by done. simpl.
  split_and!; [by rewrite lookup_insert_eq| |].
  { intros n Hn. by rewrite lookup_insert_ne. }
  intros h. set (p := plugin_ref_new plugin config id cell).
  assert (new_entries ((λ q, (q.1, mkHookEntry p q.2)) <$> handlers) h
          = (λ q, mkHookEntry p q.2) <$> filter (λ q, q.1 = h) handlers) as Hnew.
  { unfold new_entries. induction handlers as [|[h' x] hs IH]; [done|].
    rewrite fmap_cons, !filter_cons. cbn [fst snd]. case_decide; [|done].
    rewrite !fmap_cons. by rewrite IH. }
  assert (filter (λ e, pr_name (he_plugin_ref e) ≠ pcf_name config) (entries_for_hook r h)
          = entries_for_hook r h) as Hold.
  { apply filter_every. intros e He. unfold entries_for_hook in He.
    destruct (rg_hook_index r !! h) as [l|] eqn:El; [|by apply not_elem_of_nil in He].
    pose proof (wf_entries r Hwf h l e El He). congruence. }
  unfold entries_for_hook at 1 3. simpl. rewrite register_index_lookup, Hnew.
  destruct ((λ q, mkHookEntry p q.2) <$> filter (λ q, q.1 = h) handlers) as [|e new] eqn:En.
  { rewrite app_nil_r. split; [done|exact Hold]. }
  cbn [default from_option Datatypes.id]. rewrite <-En. split; [apply sort_entries_perm|].
  change (default [] (rg_hook_index r !! h)) with (entries_for_hook r h).
  rewrite filter_sort_entries, filter_app, Hold.
  rewrite (filter_none _ (_ <$> _)) by
    (intros x (q & -> & _)%list_elem_of_fmap Hx; by apply Hx).
  rewrite app_nil_r. apply sort_entries_id. unfold entries_for_hook.
  destruct (rg_hook_index r !! h) eqn:El; [by eapply (wf_sorted r Hwf)|constructor].
Qed.


(** Registering under an unused name succeeds and adds exactly the given
    handlers: for every hook, the new entries join the old ones and the
    priority sort is stable, so the relative order of the plugins already
    there is unchanged; the name resolves to the new plugin.  Registering
    under a used name is refused and changes nothing. *)
Theorem register_multi_spec r plugin config id cell handlers :
  let p := plugin_ref_new plugin config id cell in
  let '(res, r') := register_multi_handler r plugin config id cell handlers in
  match registry_get r (pcf_name config) with
  | Some _ => res = Err (duplicate_message (pcf_name config)) ∧ r' = r
  | None =>
      registry_wf r →
      res = Ok tt
      ∧ registry_get r' (pcf_name config) = Some p
      ∧ (∀ n, n ≠ pcf_name config → registry_get r' n = registry_get r n)
      ∧ (∀ h, let new := (λ q, mkHookEntry p q.2) <$> filter (λ q, q.1 = h) handlers in
           entries_for_hook r' h ≡ₚ entries_for_hook r h ++ new
           ∧ filter (λ e, pr_name (he_plugin_ref e) ≠ pcf_name config) (entries_for_hook r' h)
             = entries_for_hook r h)
  end.
Proof.
  simpl. pose proof (register_multi_spec_lemma r plugin config id cell handlers) as Hl.
  unfold registry_get in *. destruct (rg_plugins r !! pcf_name config) eqn:E.
  { unfold register_multi_handler. by rewrite E. }
  destruct (register_multi_handler _ _ _ _ _ _) as [res r'] eqn:Er. intros Hwf.
  specialize (Hl Hwf eq_refl). simpl in Hl. split; [|exact Hl].
  rewrite register_multi_shape in Er by done. congruence.
Qed.

(** One handler for several names is the multi-handler registration. *)
Lemma register_names_as_multi r plugin config handler id cell names :
  register_for_names_inner r plugin config handler id cell names
  = register_multi_handler r plugin config id cell ((λ n, (n, handler)) <$> names).
Proof.
  unfold register_for_names_inner, register_multi_handler.
  destruct (rg_plugins r !! pcf_name config); [done|].
  rewrite <-!list_fmap_compose. do 4 f_equal. symmetry. apply list_fmap_id.
Qed.

(** Unregistering undoes registering: removing the plugin just registered
    yields back the previous registry, with every hook's entry list as it was,
    and returns that plugin; removing an unknown name changes nothing. *)
Theorem unregister_register r plugin config handler id cell names :
  registry_wf r → registry_get r (pcf_name config) = None →
  unregister r (pcf_name config) = (None, r)
  ∧ unregister (register_for_names_inner r plugin config handler id cell names).2 (pcf_name config)
    = (Some (plugin_ref_new plugin config id cell), r).
Proof.
  intros Hwf Hn. unfold registry_get in Hn. split; [unfold unregister; by rewrite Hn|].
  pose proof (register_multi_spec_lemma r plugin config id cell ((λ n, (n, handler)) <$> names)
                Hwf Hn) as (Hget & _ & Hhooks).
  rewrite <-register_names_as_multi in Hget, Hhooks.
  set (r' := (register_for_names_inner r plugin config handler id cell names).2) in *.
  unfold unregister. unfold registry_get in Hget. rewrite Hget. f_equal.
  assert (rg_plugins r' = <[pcf_name config := plugin_ref_new plugin config id cell]> (rg_plugins r))
    as Hp by (unfold r'; by rewrite register_names_shape).
  destruct r as [plugins idx]. f_equal; simpl in *.
  - rewrite Hp. by apply delete_insert_id.
  - apply map_eq. intros h. rewrite lookup_omap. destruct (Hhooks h) as [_ Hf].
    unfold entries_for_hook in Hf. simpl in Hf.
    assert (∀ l, idx !! h = Some l → l ≠ []) as Hne by (intros l Hl; by eapply (wf_sorted _ Hwf)).
    unfold retain_others.
    destruct (rg_hook_index r' !! h) as [l'|] eqn:El'; simpl in *.
    + rewrite Hf. destruct (idx !! h) as [[|x l]|] eqn:El; simpl; [by destruct (Hne [])|done|done].
    + destruct (idx !! h) as [l|] eqn:El; simpl in *; [|done].
      rewrite filter_nil in Hf. by destruct (Hne l).
Qed.

(** Grouping the entries of a hook by mode is a partition: the five groups
    together are exactly the entries whose plugin is neither configured nor
    tripped as disabled, each group lists the entries of its mode in the
    original (priority) order. *)
Theorem group_by_mode_partition flags (l : list (HookEntry P H)) :
  let g := group_by_mode flags l in
  g_sequential g ++ g_transform g ++ g_audit g ++ g_concurrent g ++ g_fire_and_forget g
    ≡ₚ filter (λ e, pr_mode flags (he_plugin_ref e) ≠ Disabled) l
  ∧ (g_sequential g = by_mode flags Sequential l ∧ g_transform g = by_mode flags Transform l
     ∧ g_audit g = by_mode flags Audit l ∧ g_concurrent g = by_mode flags Concurrent l
     ∧ g_fire_and_forget g = by_mode flags FireAndForget l)
  ∧ (∀ e, is_disabled flags (he_plugin_ref e) = true →
       e ∉ g_sequential g ++ g_transform g ++ g_audit g ++ g_concurrent g ++ g_fire_and_forget g).
Proof.
  rewrite group_by_mode_spec. simpl.
  assert (by_mode flags Sequential l ++ by_mode flags Transform l ++ by_mode flags Audit l
          ++ by_mode flags Concurrent l ++ by_mode flags FireAndForget l
          ≡ₚ filter (λ e, pr_mode flags (he_plugin_ref e) ≠ Disabled) l) as Hp.
  { unfold by_mode. induction l as [|e l IH]; [done|]. rewrite !filter_cons.
    destruct (pr_mode flags (he_plugin_ref e)) eqn:Em; simpl; rewrite <-IH;
      by rewrite <-?Permutation_middle, ?app_assoc, <-?Permutation_middle, <-?app_assoc. }
  split_and!; try done. intros e He. rewrite Hp, list_elem_of_filter. unfold pr_mode.
  rewrite He. tauto.
Qed.

End Properties.

(** ** Witnesses *)

Definition demo_config (name : string) (priority : Z) (mode : PluginMode) : PluginConfig :=
  mkPluginConfig name "builtin" None None None [] mode priority Fail ∅ [] [] None.

Definition demo_registry : PluginRegistry unit unit :=
  (register_for_names_inner registry_new tt (demo_config "audit" 50 Audit) tt 1 0
     ["tool_pre_invoke"]).2.

Lemma demo_reachable : reachable demo_registry.
Proof. apply rtc_once. apply step_register. Qed.

Lemma registry_invariant_witness :
  registry_get demo_registry "audit" = Some (plugin_ref_new tt (demo_config "audit" 50 Audit) 1 0).
Proof.
  apply (registry_invariant demo_registry demo_reachable) with (h := "tool_pre_invoke")
    (e := mkHookEntry (plugin_ref_new tt (demo_config "audit" 50 Audit) 1 0) tt).
  vm_compute. left.
Defined.

Lemma unregister_witness :
  unregister (register_for_names_inner demo_registry tt (demo_config "auth" 10 Sequential) tt 2 1
    ["tool_pre_invoke"; "tool_post_invoke"]).2 "auth"
  = (Some (plugin_ref_new tt (demo_config "auth" 10 Sequential) 2 1), demo_registry).
Proof.
  apply (unregister_register demo_registry tt (demo_config "auth" 10 Sequential) tt 2 1
           ["tool_pre_invoke"; "tool_post_invoke"]).
  - apply reachable_wf, demo_reachable.
  - reflexivity.
Defined.
