(* ===== verification/Executor.v ===== *)
(** * The five-phase executor (cpex-core/src/executor.rs)

    [execute] and its phases.  Payloads are an abstract type; handlers are a
    class over the world [W], as is the timer behind [tokio::time::timeout].
    The [&mut] locals of a phase and the circuit-breaker flags form
    [PhaseState].  Log lines are not modelled. *)

From S2P Require Import Prelude RustStd F64 Json Routing Orchestration ExtData Extensions.
From S2P Require Import PluginTypes Registry.

Local Open Scope string_scope.

(** ** Data *)

Record ExecutorConfig := mkExecutorConfig {
  xc_timeout_seconds : Z;
  xc_short_circuit_on_deny : bool
}.

Definition executor_config_default : ExecutorConfig := mkExecutorConfig 30 true.

Record ErasedResultFields (Pay : Type) := mkErased {
  ef_continue_processing : bool;
  ef_modified_payload : option Pay;
  ef_modified_extensions : option OwnedExtensions;
  ef_violation : option PluginViolation
}.
Arguments mkErased {Pay}.
Arguments ef_continue_processing {Pay}.
Arguments ef_modified_payload {Pay}.
Arguments ef_modified_extensions {Pay}.
Arguments ef_violation {Pay}.

(** [AnyHookHandler::invoke]: on success the extracted fields, [None] when the
    downcast of [extract_erased] fails. *)
Class HookHandler (H Pay W : Type) :=
  handler_invoke : H → Pay → Extensions → PluginContext → W →
    Result (option (ErasedResultFields Pay)) PluginError * PluginContext * W.

(** [timeout(dur, ..).await]: [Some] when the limit elapses for that plugin,
    with the context and world the cancelled call leaves. *)
Class Timer (W : Type) :=
  timer_elapses : W → Uuid → PluginContext → option (PluginContext * W).

Record PipelineResult (Pay : Type) := mkPipelineResult {
  pr_continue_processing : bool;
  pr_modified_payload : option Pay;
  pr_payload_modified : bool;
  pr_modified_extensions : option Extensions;
  pr_violation : option PluginViolation;
  pr_errors : list PluginErrorRecord;
  pr_metadata : option Value;
  pr_context_table : PluginContextTable
}.
Arguments mkPipelineResult {Pay}.
Arguments pr_continue_processing {Pay}.
Arguments pr_modified_payload {Pay}.
Arguments pr_payload_modified {Pay}.
Arguments pr_modified_extensions {Pay}.
Arguments pr_violation {Pay}.
Arguments pr_errors {Pay}.
Arguments pr_metadata {Pay}.
Arguments pr_context_table {Pay}.

Definition allowed_with {Pay} (payload : Pay) (extensions : Extensions)
    (context_table : PluginContextTable) : PipelineResult Pay :=
  mkPipelineResult true (Some payload) false (Some extensions) None [] None context_table.

Definition denied {Pay} (violation : PluginViolation) (extensions : Extensions)
    (context_table : PluginContextTable) : PipelineResult Pay :=
  mkPipelineResult false None false (Some extensions) (Some violation) [] None context_table.

Definition with_errors {Pay} (r : PipelineResult Pay) (errors : list PluginErrorRecord) :
    PipelineResult Pay :=
  mkPipelineResult (pr_continue_processing r) (pr_modified_payload r) (pr_payload_modified r)
    (pr_modified_extensions r) (pr_violation r) errors (pr_metadata r) (pr_context_table r).

Definition with_payload_modified {Pay} (r : PipelineResult Pay) (modified : bool) :
    PipelineResult Pay :=
  mkPipelineResult (pr_continue_processing r) (pr_modified_payload r) modified
    (pr_modified_extensions r) (pr_violation r) (pr_errors r) (pr_metadata r)
    (pr_context_table r).

Definition is_denied {Pay} (r : PipelineResult Pay) : bool := negb (pr_continue_processing r).

(** What a fire-and-forget task was spawned with. *)
Record BackgroundTask (H Pay : Type) := mkBackground {
  bt_plugin_name : string;
  bt_handler : H;
  bt_payload : Pay;
  bt_extensions : Extensions;
  bt_context : PluginContext
}.
Arguments mkBackground {H Pay}.

(** ** Phases *)

Section Executor.
Context {P H Pay W : Type} `{HookHandler H Pay W} `{Timer W} `{Runtime W}.
Context (config : ExecutorConfig).
Implicit Types entry : HookEntry P H.

Abbreviation Ref e := (he_plugin_ref e).
Abbreviation Name e := (pr_name (he_plugin_ref e)).
Abbreviation Caps e := (pcf_capabilities (pr_trusted_config (he_plugin_ref e))).
Abbreviation OnErr e := (pcf_on_error (pr_trusted_config (he_plugin_ref e))).

(** The locals of [execute] a phase may change, with flags and world. *)
Record PhaseState := mkPhase {
  ph_payload : Pay;
  ph_extensions : Extensions;
  ph_ctx_table : PluginContextTable;
  ph_errors : list PluginErrorRecord;
  ph_payload_modified : bool;
  ph_flags : FlagStore;
  ph_world : W
}.

Definition set_ctx_table (st : PhaseState) (t : PluginContextTable) : PhaseState :=
  mkPhase (ph_payload st) (ph_extensions st) t (ph_errors st) (ph_payload_modified st)
    (ph_flags st) (ph_world st).
Definition set_world (st : PhaseState) (w : W) : PhaseState :=
  mkPhase (ph_payload st) (ph_extensions st) (ph_ctx_table st) (ph_errors st)
    (ph_payload_modified st) (ph_flags st) w.
Definition set_payload (st : PhaseState) (p : Pay) : PhaseState :=
  mkPhase p (ph_extensions st) (ph_ctx_table st) (ph_errors st) true (ph_flags st) (ph_world st).
Definition set_extensions (st : PhaseState) (e : Extensions) : PhaseState :=
  mkPhase (ph_payload st) e (ph_ctx_table st) (ph_errors st) (ph_payload_modified st)
    (ph_flags st) (ph_world st).
(** [errors.push((&e).into())]. *)
Definition push_error (st : PhaseState) (e : PluginError) : PhaseState :=
  mkPhase (ph_payload st) (ph_extensions st) (ph_ctx_table st) (ph_errors st ++ [error_record e])%list
    (ph_payload_modified st) (ph_flags st) (ph_world st).
Definition trip (st : PhaseState) (r : PluginRef P) : PhaseState :=
  mkPhase (ph_payload st) (ph_extensions st) (ph_ctx_table st) (ph_errors st)
    (ph_payload_modified st) (disable (ph_flags st) r) (ph_world st).

(** [timeout_dur.as_millis() as u64]. *)
Definition timeout_ms : Z := (xc_timeout_seconds config * 1000) mod 2 ^ 64.

Definition timeout_error (name : string) : PluginError := ErrTimeout name timeout_ms None.

(** The awaited call with its limit. *)
Inductive Invocation :=
| Returned (fields : option (ErasedResultFields Pay))
| Errored (e : PluginError)
| Elapsed.

Definition call_handler entry (payload : Pay) (filtered : Extensions) (ctx : PluginContext) (w : W) :
    Invocation * PluginContext * W :=
  match timer_elapses w (pr_id (Ref entry)) ctx with
  | Some (ctx, w) => (Elapsed, ctx, w)
  | None =>
      let '(res, ctx, w) := handler_invoke (he_handler entry) payload filtered ctx w in
      (match res with Ok f => Returned f | Err e => Errored e end, ctx, w)
  end.

(** The view of a serial plugin: filtered, with the write tokens it holds. *)
Definition serial_view (caps : gset string) (e : Extensions) : Extensions :=
  let f := filter_extensions caps e in
  mkExtensions (x_request f) (x_agent f) (x_http f) (x_security f) (x_candidate_constraint f)
    (x_delegation f) (x_raw_credentials f) (x_mcp f) (x_completion f) (x_provenance f) (x_llm f)
    (x_framework f) (x_meta f) (x_custom f)
    (if bool_decide ("write_headers" ∈ caps) then Some write_token_new else x_http_write_token f)
    (if bool_decide ("append_labels" ∈ caps) then Some write_token_new
     else x_labels_write_token f)
    (if bool_decide ("append_delegation" ∈ caps) then Some write_token_new
     else x_delegation_write_token f).

(** Acceptance of a plugin's returned extensions. *)
Definition accept_extensions (caps : gset string) (extensions : Extensions)
    (owned : OwnedExtensions) : Extensions :=
  let immutable_ok := validate_immutable extensions owned in
  let owned := if immutable_ok then grant_tokens caps owned else owned in
  let labels_ok :=
    negb (bool_decide ("read_labels" ∈ caps))
    || match x_security extensions, o_security owned with
       | Some orig, Some new => bool_decide (sc_labels orig ⊆ sc_labels new)
       | _, _ => true
       end in
  let constraint_ok := candidate_constraint_write_ok extensions owned caps in
  if negb immutable_ok then extensions
  else if negb labels_ok then extensions
  else if negb constraint_ok then extensions
  else merge_owned extensions owned.

(** [if can_modify { .. }]. *)
Definition accept_modifications (modify : bool) (caps : gset string)
    (erased : ErasedResultFields Pay) (st : PhaseState) : PhaseState :=
  if modify then
    let st := match ef_modified_payload erased with
              | Some mp => set_payload st mp
              | None => st
              end in
    match ef_modified_extensions erased with
    | Some owned => set_extensions st (accept_extensions caps (ph_extensions st) owned)
    | None => st
    end
  else st.

(** The [Ok(Err(e))] and [Err(_)] arms: the violation that halts, or the state
    with the error recorded. *)
Definition serial_failure (block : bool) entry (err : PluginError) (code reason : string)
    (st : PhaseState) : option PluginViolation * PhaseState :=
  match OnErr entry with
  | Fail =>
      if block then (Some (attribute_violation (violation_new code reason) (Name entry)), st)
      else (None, push_error st err)
  | Ignore => (None, push_error st err)
  | Disable => (None, trip (push_error st err) (Ref entry))
  end.

(** One round of [run_serial_phase]: [Some] is its early return, which leaves
    the plugin's context out of the table. *)
Definition run_serial_entry (block modify : bool) entry (st : PhaseState) :
    option PluginViolation * PhaseState :=
  let id := pr_id (Ref entry) in
  let '(ctx, table) := take_context (ph_ctx_table st) id in
  let st := set_ctx_table st table in
  let '(inv, ctx, w) :=
    call_handler entry (ph_payload st) (serial_view (Caps entry) (ph_extensions st)) ctx
      (ph_world st) in
  let st := set_world st w in
  let '(halt, st) :=
    match inv with
    | Returned None => (None, st)
    | Returned (Some erased) =>
        match (if negb (ef_continue_processing erased) && block then ef_violation erased else None)
        with
        | Some v => (Some (attribute_violation v (Name entry)), st)
        | None => (None, accept_modifications modify (Caps entry) erased st)
        end
    | Errored e =>
        serial_failure block entry e "plugin_error"
          ("Plugin '" +:+ Name entry +:+ "' failed: " +:+ show_error e) st
    | Elapsed =>
        serial_failure block entry (timeout_error (Name entry)) "plugin_timeout"
          ("Plugin '" +:+ Name entry +:+ "' timed out") st
    end in
  match halt with
  | Some v => (Some v, st)
  | None => (None, set_ctx_table st (store_context (ph_ctx_table st) id ctx))
  end.

Fixpoint run_serial_phase (block modify : bool) (entries : list (HookEntry P H))
    (st : PhaseState) : option PluginViolation * PhaseState :=
  match entries with
  | [] => (None, st)
  | entry :: entries =>
      let '(halt, st) := run_serial_entry block modify entry st in
      match halt with
      | Some v => (Some v, st)
      | None => run_serial_phase block modify entries st
      end
  end.

(** One round of [run_ref_phase]: the result is discarded, errors are not. *)
Definition run_ref_entry entry (st : PhaseState) : PhaseState :=
  let ctx := snapshot_context (ph_ctx_table st) (pr_id (Ref entry)) in
  let filtered := filter_extensions (Caps entry) (ph_extensions st) in
  let '(inv, _, w) := call_handler entry (ph_payload st) filtered ctx (ph_world st) in
  let st := set_world st w in
  let record e :=
    let st := push_error st e in
    if bool_decide (OnErr entry = Disable) then trip st (Ref entry) else st in
  match inv with
  | Returned _ => st
  | Errored e => record e
  | Elapsed => record (timeout_error (Name entry))
  end.

Definition run_ref_phase (entries : list (HookEntry P H)) (st : PhaseState) : PhaseState :=
  foldl (λ st entry, run_ref_entry entry st) st entries.

(** ** The concurrent phase *)

Inductive BranchData :=
| BranchAllow
| BranchDeny (v : option PluginViolation)
| BranchError (e : PluginError).

Definition branch_is_deny (b : BranchData) : bool :=
  match b with BranchDeny _ => true | _ => false end.

(** The branch future of an entry: its own snapshot and view, no merge-back. *)
Definition concurrent_branch (st : PhaseState) (i : nat) entry : BranchData * W :=
  let ctx := snapshot_context (ph_ctx_table st) (pr_id (Ref entry)) in
  let filtered := filter_extensions (Caps entry) (ph_extensions st) in
  let '(res, _, w) :=
    handler_invoke (he_handler entry) (ph_payload st) filtered ctx (rt_fork (ph_world st) i) in
  (match res with
   | Ok (Some erased) =>
       if ef_continue_processing erased then BranchAllow
       else BranchDeny ((λ v, attribute_violation v (Name entry)) <$> ef_violation erased)
   | Ok None => BranchAllow
   | Err e => BranchError e
   end, w).

(** [on_error] applied to a failed branch: the first violation and the state. *)
Definition branch_failure entry (err : PluginError) (code reason : string)
    (first : option PluginViolation) (st : PhaseState) : option PluginViolation * PhaseState :=
  match OnErr entry with
  | Fail =>
      (match first with
       | None => Some (attribute_violation (violation_new code reason) (Name entry))
       | Some v => Some v
       end, st)
  | Ignore => (first, push_error st err)
  | Disable => (first, trip (push_error st err) (Ref entry))
  end.

Definition panic_error (name s : string) : PluginError :=
  ErrExecution name ("task panicked: " +:+ s) (Some "panic") ∅ None.

Definition settle_branch entry (outcome : BranchOutcome BranchData)
    (first : option PluginViolation) (st : PhaseState) : option PluginViolation * PhaseState :=
  match outcome with
  | Completed BranchAllow => (first, st)
  | Completed (BranchDeny opt_v) =>
      let violation :=
        match opt_v with
        | Some v => v
        | None => attribute_violation
                    (violation_new "concurrent_deny" ("Plugin '" +:+ Name entry +:+ "' denied"))
                    (Name entry)
        end in
      (match first with None => Some violation | Some v => Some v end, st)
  | Completed (BranchError e) =>
      branch_failure entry e "plugin_error"
        ("Plugin '" +:+ Name entry +:+ "' failed: " +:+ show_error e) first st
  | TimedOut =>
      branch_failure entry (timeout_error (Name entry)) "plugin_timeout"
        ("Plugin '" +:+ Name entry +:+ "' timed out") first st
  | Panicked s =>
      branch_failure entry (panic_error (Name entry) s) "plugin_panic"
        ("Plugin '" +:+ Name entry +:+ "' task panicked: " +:+ s) first st
  | Aborted => (first, st)
  end.

(** The walk over the outcomes, in input order. *)
Fixpoint settle_all (entries : list (HookEntry P H)) (outcomes : list (BranchOutcome BranchData))
    (first : option PluginViolation) (st : PhaseState) : option PluginViolation * PhaseState :=
  match entries, outcomes with
  | entry :: entries, outcome :: outcomes =>
      let '(first, st) := settle_branch entry outcome first st in
      settle_all entries outcomes first st
  | _, _ => (first, st)
  end.

Definition concurrent_config : BranchConfig :=
  mkBranchConfig (Some (xc_timeout_seconds config)) (xc_short_circuit_on_deny config).

Definition run_concurrent_phase (entries : list (HookEntry P H)) (st : PhaseState) :
    option PluginViolation * PhaseState :=
  match entries with
  | [] => (None, st)
  | _ =>
      let branches := run_each (concurrent_branch st) 0 entries in
      let sched := rt_schedule (ph_world st) (branch_is_deny <$> branches.*1) in
      let outcomes := run_branches concurrent_config branch_is_deny branches.*1 sched in
      settle_all entries outcomes None (set_world st (rt_join (ph_world st) branches.*2))
  end.

(** ** Fire and forget *)

Definition spawn_fire_and_forget (entries : list (HookEntry P H)) (st : PhaseState) :
    list (BackgroundTask H Pay) :=
  map (λ entry,
    mkBackground (Name entry) (he_handler entry) (ph_payload st)
      (filter_extensions (Caps entry) (ph_extensions st))
      (snapshot_context (ph_ctx_table st) (pr_id (Ref entry)))) entries.

(** ** The pipeline *)

Definition execute (entries : list (HookEntry P H)) (payload : Pay) (extensions : Extensions)
    (context_table : option PluginContextTable) (flags : FlagStore) (w : W) :
    PipelineResult Pay * list (BackgroundTask H Pay) * FlagStore * W :=
  let ctx_table := default context_table_new context_table in
  match entries with
  | [] => (allowed_with payload extensions ctx_table, [], flags, w)
  | _ =>
      let g := group_by_mode flags entries in
      let st := mkPhase payload extensions ctx_table [] false flags w in
      let '(v, st) := run_serial_phase true true (g_sequential g) st in
      match v with
      | Some v =>
          (with_errors (denied v (ph_extensions st) (ph_ctx_table st)) (ph_errors st), [],
           ph_flags st, ph_world st)
      | None =>
          let '(_, st) := run_serial_phase false true (g_transform g) st in
          let st := run_ref_phase (g_audit g) st in
          let '(v, st) := run_concurrent_phase (g_concurrent g) st in
          match v with
          | Some v =>
              (with_errors (denied v (ph_extensions st) (ph_ctx_table st)) (ph_errors st), [],
               ph_flags st, ph_world st)
          | None =>
              (with_payload_modified
                 (with_errors (allowed_with (ph_payload st) (ph_extensions st) (ph_ctx_table st))
                    (ph_errors st)) (ph_payload_modified st),
               spawn_fire_and_forget (g_fire_and_forget g) st, ph_flags st, ph_world st)
          end
      end
  end.

End Executor.

Arguments PhaseState : clear implicits.

Local Open Scope list_scope.

(** ** A generic invariant of the phases *)

Section Invariant.
Context {P H Pay W : Type} `{HookHandler H Pay W} `{Timer W} `{Runtime W}.
Context (config : ExecutorConfig).
Implicit Types entry : HookEntry P H.
Implicit Types entries : list (HookEntry P H).
Implicit Types st : PhaseState Pay W.

(** A preorder on phase states that tolerates the bookkeeping. *)
Class PhaseOrder (R : PhaseState Pay W → PhaseState Pay W → Prop) := {
  po_preorder :: PreOrder R;
  po_ctx st t : R st (set_ctx_table st t);
  po_world st w : R st (set_world st w);
  po_error st e : R st (push_error st e);
  po_trip st (r : PluginRef P) : R st (trip st r)
}.

Context (R : PhaseState Pay W → PhaseState Pay W → Prop) `{!PhaseOrder R}.

(** [erased] is what the handler of an entry gave when it was called in a serial
    phase on these extensions. *)
Definition answers entry (e : Extensions) (erased : ErasedResultFields Pay) : Prop :=
  ∃ p ctx (w : W), (call_handler entry p
    (serial_view (pcf_capabilities (pr_trusted_config (he_plugin_ref entry))) e) ctx w).1.1
    = Returned (Some erased).

Lemma serial_failure_order block entry err code reason st :
  R st (serial_failure block entry err code reason st).2.
Proof.
  unfold serial_failure. destruct (pcf_on_error _), block; simpl;
    try reflexivity; try apply po_error; etrans; first [apply po_error|apply po_trip].
Qed.

(** A round of the serial phase, given what accepting an answer of the plugin
    does. *)
Lemma run_serial_entry_order block modify entry st :
  (∀ st erased, answers entry (ph_extensions st) erased → R st (accept_modifications modify
     (pcf_capabilities (pr_trusted_config (he_plugin_ref entry))) erased st)) →
  R st (run_serial_entry config block modify entry st).2.
Proof.
  intros Hacc. unfold run_serial_entry.
  destruct (take_context _ _) as [ctx table]. set (st1 := set_ctx_table st table).
  assert (R st st1) as Hst1 by apply po_ctx.
  pose proof (λ erased Hc, ex_intro _ (ph_payload st1) (ex_intro _ ctx (ex_intro _ (ph_world st1) Hc))
    : answers entry (ph_extensions st) erased) as Han. simpl in Han.
  destruct (call_handler _ _ _ _ _) as [[inv ctx'] w]. set (st2 := set_world st1 w).
  assert (R st st2) as Hst2 by (etrans; [exact Hst1|apply po_world]).
  assert (∀ r : option PluginViolation * PhaseState Pay W, R st r.2 →
    R st (let '(halt, st3) := r in
          match halt with
          | Some v => (Some v, st3)
          | None => (None, set_ctx_table st3
                       (store_context (ph_ctx_table st3) (pr_id (he_plugin_ref entry)) ctx'))
          end).2) as Hfin.
  { intros [[v|] st3] Hr; simpl in *; [done|]. etrans; [exact Hr|apply po_ctx]. }
  apply Hfin. destruct inv as [[erased|]|e|].
  - destruct (if negb _ && _ then _ else _); simpl; [done|]. etrans; [exact Hst2|]. by apply Hacc, Han.
  - done.
  - etrans; [exact Hst2|apply serial_failure_order].
  - etrans; [exact Hst2|apply serial_failure_order].
Qed.

Lemma run_serial_phase_order block modify entries st :
  (∀ entry, entry ∈ entries → ∀ st erased, answers entry (ph_extensions st) erased →
     R st (accept_modifications modify
     (pcf_capabilities (pr_trusted_config (he_plugin_ref entry))) erased st)) →
  R st (run_serial_phase config block modify entries st).2.
Proof.
  revert st. induction entries as [|entry entries IH]; intros st Hacc; simpl; [reflexivity|].
  assert (R st (run_serial_entry config block modify entry st).2) as He.
  { apply run_serial_entry_order. apply Hacc. by left. }
  destruct (run_serial_entry _ _ _ _ _) as [[v|] st1]; simpl in *; [done|].
  etrans; [exact He|]. apply IH. intros e Hin. apply Hacc. by right.
Qed.

Lemma run_ref_phase_order entries st : R st (run_ref_phase config entries st).
Proof.
  unfold run_ref_phase. revert st. induction entries as [|entry entries IH]; intros st; simpl;
    [reflexivity|]. etrans; [|apply IH]. unfold run_ref_entry.
  destruct (call_handler _ _ _ _ _) as [[inv ctx] w].
  assert (∀ e, R st (let st0 := push_error (set_world st w) e in
    if bool_decide (pcf_on_error (pr_trusted_config (he_plugin_ref entry)) = Disable)
    then trip st0 (he_plugin_ref entry) else st0)) as Hrec.
  { intros e. simpl. assert (R st (push_error (set_world st w) e)) as Hp
      by (etrans; [apply po_world|apply po_error]).
    destruct (bool_decide _); [|done]. etrans; [exact Hp|apply po_trip]. }
  destruct inv; [apply po_world|apply Hrec|apply Hrec].
Qed.

Lemma settle_all_order entries outcomes first st :
  R st (settle_all config entries outcomes first st).2.
Proof.
  assert (∀ entry err code reason first st,
    R st (branch_failure entry err code reason first st).2) as Hbf.
  { intros entry err code reason f s. unfold branch_failure.
    destruct (pcf_on_error _); simpl; [reflexivity|apply po_error|].
    etrans; [apply po_error|apply po_trip]. }
  revert outcomes first st. induction entries as [|entry entries IH]; intros [|o outcomes] first st;
    simpl; try reflexivity.
  assert (R st (settle_branch config entry o first st).2) as Hs.
  { unfold settle_branch. destruct o as [[|v|e]| | |s]; simpl; try reflexivity; apply Hbf. }
  destruct (settle_branch _ _ _ _ _) as [f st1]. simpl in Hs. etrans; [exact Hs|apply IH].
Qed.

Lemma run_concurrent_phase_order entries st :
  R st (run_concurrent_phase config entries st).2.
Proof.
  unfold run_concurrent_phase. destruct entries as [|e es]; [reflexivity|].
  etrans; [|apply settle_all_order]. apply po_world.
Qed.

End Invariant.

(** ** Instances of the invariant *)

Section Orders.
Context {P H Pay W : Type} `{HookHandler H Pay W} `{Timer W} `{Runtime W}.
Context (config : ExecutorConfig).
Implicit Types entry : HookEntry P H.
Implicit Types entries : list (HookEntry P H).
Implicit Types st : PhaseState Pay W.

(** An order on the extensions alone. *)
Definition on_extensions (Q : Extensions → Extensions → Prop) st st' : Prop :=
  Q (ph_extensions st) (ph_extensions st').

#[global] Instance on_extensions_order Q `{!PreOrder Q} :
  PhaseOrder (P := P) (on_extensions Q).
Proof.
  split; [split| | | |]; unfold on_extensions; [|unfold Transitive| | | |];
    intros st; simpl; try reflexivity; try (intros ?; reflexivity).
  intros st2 st3 H12 H23. by etrans.
Qed.

Lemma accept_on_extensions Q `{!PreOrder Q} modify caps erased st :
  (∀ e o, Q e (accept_extensions caps e o)) →
  on_extensions Q st (accept_modifications modify caps erased st).
Proof.
  intros Hacc. unfold accept_modifications, on_extensions. destruct modify; [|reflexivity].
  destruct (ef_modified_payload erased), (ef_modified_extensions erased); simpl;
    first [apply Hacc|reflexivity].
Qed.

Lemma accept_extensions_tiers caps e o : tier_order e (accept_extensions caps e o).
Proof.
  unfold accept_extensions. destruct (validate_immutable e o); simpl; [|reflexivity].
  destruct (negb _); [reflexivity|]. destruct (negb _); [reflexivity|]. apply merge_tier_order.
Qed.

(** The four slots with a write capability are left alone where none of the
    capabilities covers them. *)
Definition within (caps : gset string) (e e' : Extensions) : Prop :=
  ("append_labels" ∉ caps → x_security e' = x_security e)
  ∧ ("write_headers" ∉ caps → x_http e' = x_http e)
  ∧ ("append_delegation" ∉ caps → x_delegation e' = x_delegation e)
  ∧ (CAP_WRITE_CANDIDATE_CONSTRAINT ∉ caps →
     x_candidate_constraint e' = x_candidate_constraint e).

#[global] Instance within_preorder caps : PreOrder (within caps).
Proof.
  split; [by intros e; split_and!|]. intros e1 e2 e3 (A1&A2&A3&A4) (B1&B2&B3&B4).
  split_and!; intros Hc.
  - by rewrite B1, A1.
  - by rewrite B2, A2.
  - by rewrite B3, A3.
  - by rewrite B4, A4.
Qed.

Lemma within_mono caps caps' e e' : caps ⊆ caps' → within caps e e' → within caps' e e'.
Proof. intros Hs (A1&A2&A3&A4). split_and!; intros Hc; auto. Qed.

Lemma accept_extensions_within caps e o : within caps e (accept_extensions caps e o).
Proof.
  unfold accept_extensions. destruct (validate_immutable e o); simpl; [|reflexivity].
  destruct (negb _); [reflexivity|].
  destruct (candidate_constraint_write_ok _ _ _) eqn:Ec; simpl; [|reflexivity].
  destruct (merge_without_tokens e (grant_tokens caps o)) as (M1 & M2 & M3).
  split_and!; intros Hc.
  - apply M1. simpl. unfold mint, holds. by rewrite bool_decide_false.
  - apply M2. simpl. unfold mint, holds. by rewrite bool_decide_false.
  - apply M3. simpl. unfold mint, holds. by rewrite bool_decide_false.
  - unfold candidate_constraint_write_ok in Ec. rewrite bool_decide_false in Ec by done.
    simpl in Ec. by apply bool_decide_eq_true in Ec.
Qed.

(** The raw credentials are as they were, or as [S] allows. *)
Definition raw_given (S : RawCredentialsExtension → Prop) (e e' : Extensions) : Prop :=
  x_raw_credentials e' = x_raw_credentials e ∨ ∃ r, x_raw_credentials e' = Some r ∧ S r.

#[global] Instance raw_given_preorder S : PreOrder (raw_given S).
Proof.
  split; [by left|]. intros e1 e2 e3 H12 [H23|H23]; [|by right]. unfold raw_given. by rewrite H23.
Qed.

Lemma accept_raw_given S modify caps erased st :
  (∀ o r, ef_modified_extensions erased = Some o → o_raw_credentials o = Some r → S r) →
  on_extensions (raw_given S) st (accept_modifications modify caps erased st).
Proof.
  intros HS. unfold accept_modifications, on_extensions. destruct modify; [|reflexivity].
  destruct (ef_modified_extensions erased) as [o|]; [|by destruct (ef_modified_payload erased)].
  assert (raw_given S (ph_extensions st) (accept_extensions caps (ph_extensions st) o)) as Ha;
    [|by destruct (ef_modified_payload erased)].
  unfold accept_extensions. destruct (validate_immutable _ _); simpl; [|by left].
  do 2 (destruct (negb _); [by left|]). unfold raw_given. simpl.
  destruct (o_raw_credentials o) as [r|] eqn:Er; [|by left]. right. exists r. split; [done|]. by eapply HS.
Qed.

(** The payload flag is sound. *)
Definition payload_sound st st' : Prop :=
  ph_payload_modified st' = false →
  ph_payload_modified st = false ∧ ph_payload st' = ph_payload st.

#[global] Instance payload_sound_order : PhaseOrder (P := P) payload_sound.
Proof.
  split; [split| | | |]; unfold payload_sound, Reflexive, Transitive; simpl; try done.
  intros st1 st2 st3 H12 H23 Hf. destruct (H23 Hf) as [Hf2 ->]. by apply H12.
Qed.

Lemma accept_payload_sound modify caps erased st :
  payload_sound st (accept_modifications modify caps erased st).
Proof.
  unfold accept_modifications, payload_sound. destruct modify; [|done].
  by destruct (ef_modified_payload erased), (ef_modified_extensions erased).
Qed.

(** Circuit breakers only trip. *)
Definition flags_grow st st' : Prop := ph_flags st ⊆ ph_flags st'.

#[global] Instance flags_grow_order : PhaseOrder (P := P) flags_grow.
Proof.
  split; [split| | | |]; unfold flags_grow, Reflexive, Transitive; simpl; try done.
  - intros st1 st2 st3 H12 H23. by etrans.
  - intros st r. unfold disable. set_solver.
Qed.

Lemma accept_flags modify caps erased st :
  flags_grow st (accept_modifications modify caps erased st).
Proof.
  unfold accept_modifications, flags_grow. destruct modify; [|done].
  by destruct (ef_modified_payload erased), (ef_modified_extensions erased).
Qed.

(** ** Denials *)

(** A violation names one of the entries. *)
Definition attributed entries (v : PluginViolation) : Prop :=
  ∃ entry, entry ∈ entries ∧ vi_plugin_name v = Some (pr_name (he_plugin_ref entry)).

Lemma run_serial_entry_halt block modify entry st v st' :
  run_serial_entry config block modify entry st = (Some v, st') →
  block = true ∧ vi_plugin_name v = Some (pr_name (he_plugin_ref entry)).
Proof.
  unfold run_serial_entry. destruct (take_context _ _) as [ctx table].
  destruct (call_handler _ _ _ _ _) as [[inv ctx'] w].
  destruct inv as [[erased|]|e|]; [|done| |].
  - destruct block; [|by rewrite andb_false_r]. rewrite andb_true_r.
    destruct (ef_continue_processing erased); simpl; [done|].
    destruct (ef_violation erased); [|done]. by intros [= <- <-].
  - unfold serial_failure. destruct (pcf_on_error _); [|done|done].
    destruct block; [|done]. by intros [= <- <-].
  - unfold serial_failure. destruct (pcf_on_error _); [|done|done].
    destruct block; [|done]. by intros [= <- <-].
Qed.

Lemma run_serial_phase_halt block modify entries st v st' :
  run_serial_phase config block modify entries st = (Some v, st') →
  block = true ∧ attributed entries v.
Proof.
  revert st. induction entries as [|entry entries IH]; intros st; simpl; [done|].
  destruct (run_serial_entry _ _ _ _ _) as [[v1|] st1] eqn:E.
  - intros [= <- <-]. apply run_serial_entry_halt in E as [-> Hv]. split; [done|].
    exists entry. split; [by left|done].
  - intros Hr. destruct (IH st1 Hr) as [-> (en & Hin & Hv)]. split; [done|].
    exists en. split; [by right|done].
Qed.

Lemma settle_all_attributed all entries outcomes first st v :
  (∀ x, first = Some x → attributed all x) →
  (∀ e, e ∈ entries → e ∈ all) →
  (∀ x, Completed (BranchDeny (Some x)) ∈ outcomes → attributed all x) →
  (settle_all config entries outcomes first st).1 = Some v → attributed all v.
Proof.
  revert outcomes first st. induction entries as [|entry entries IH];
    intros [|o outcomes] first st Hf Hsub Ho; simpl; try apply Hf.
  assert (∀ x, (settle_branch config entry o first st).1 = Some x → attributed all x) as Hs.
  { assert (∀ c r, attributed all (attribute_violation (violation_new c r)
                     (pr_name (he_plugin_ref entry)))) as Hnew.
    { intros c r. exists entry. split; [apply Hsub; by left|done]. }
    unfold settle_branch, branch_failure. intros x.
    destruct o as [[|[d|]|e]| | |s]; simpl;
      try (destruct (pcf_on_error _)); simpl; destruct first as [f|];
      intros Hx; simplify_eq/=; auto.
    apply Ho. by left. }
  destruct (settle_branch _ _ _ _ _) as [f st1]. apply IH; [exact Hs| |].
  - intros e He. apply Hsub. by right.
  - intros x Hx. apply Ho. by right.
Qed.

Lemma run_concurrent_attributed entries st v :
  (run_concurrent_phase config entries st).1 = Some v → attributed entries v.
Proof.
  unfold run_concurrent_phase. destruct entries as [|e0 es]; [done|].
  set (all := e0 :: es). apply settle_all_attributed; [done|done|].
  intros x Hx%run_branches_completed. apply list_elem_of_fmap in Hx as ([b w] & Hb & Hin).
  simpl in Hb. subst b. apply run_each_elem in Hin as (j & entry & Hj & Hbr).
  exists entry. split; [by eapply list_elem_of_lookup_2|].
  unfold concurrent_branch in Hbr. destruct (handler_invoke _ _ _ _ _) as [[res ?] ?].
  destruct res as [[erased|]|e]; try done.
  destruct (ef_continue_processing erased); [done|].
  injection Hbr as Hv _. symmetry in Hv. apply fmap_Some in Hv as (v0 & _ & ->). done.
Qed.

(** ** The awaited phases as a whole *)

Definition run_phases (g : GroupedHookEntries P H) st : option PluginViolation * PhaseState Pay W :=
  let '(v, st) := run_serial_phase config true true (g_sequential g) st in
  match v with
  | Some v => (Some v, st)
  | None =>
      run_concurrent_phase config (g_concurrent g)
        (run_ref_phase config (g_audit g)
           (run_serial_phase config false true (g_transform g) st).2)
  end.

Lemma execute_as_phases entries payload extensions table flags (w : W) v st :
  entries ≠ [] →
  run_phases (group_by_mode flags entries)
    (mkPhase payload extensions (default context_table_new table) [] false flags w) = (v, st) →
  execute config entries payload extensions table flags w
  = (match v with
     | Some v => with_errors (denied v (ph_extensions st) (ph_ctx_table st)) (ph_errors st)
     | None => with_payload_modified
         (with_errors (allowed_with (ph_payload st) (ph_extensions st) (ph_ctx_table st))
            (ph_errors st)) (ph_payload_modified st)
     end,
     match v with Some _ => [] | None => spawn_fire_and_forget (g_fire_and_forget (group_by_mode flags entries)) st end,
     ph_flags st, ph_world st).
Proof.
  intros Hne. destruct entries as [|e0 es]; [done|]. unfold execute, run_phases.
  destruct (run_serial_phase config true true _ _) as [[v1|] st1]; [by intros [= <- <-]|].
  destruct (run_serial_phase config false true _ st1) as [v2 st2]. simpl.
  destruct (run_concurrent_phase config _ _) as [[v3|] st3]; by intros [= <- <-].
Qed.

Lemma run_phases_order (R : PhaseState Pay W → PhaseState Pay W → Prop) `{!PhaseOrder (P := P) R}
    (g : GroupedHookEntries P H) st :
  (∀ entry, entry ∈ g_sequential g ++ g_transform g → ∀ st erased,
     answers entry (ph_extensions st) erased →
     R st (accept_modifications true
       (pcf_capabilities (pr_trusted_config (he_plugin_ref entry))) erased st)) →
  R st (run_phases g st).2.
Proof.
  intros Hacc. unfold run_phases.
  pose proof (run_serial_phase_order config R true true (g_sequential g) st) as Hseq.
  destruct (run_serial_phase config true true _ st) as [[v|] st1]; simpl in *.
  { apply Hseq. intros entry He. apply Hacc. apply elem_of_app. by left. }
  trans st1; [apply Hseq; intros entry He; apply Hacc, elem_of_app; by left|].
  trans (run_serial_phase config false true (g_transform g) st1).2.
  { apply run_serial_phase_order; [done|]. intros entry He. apply Hacc, elem_of_app. by right. }
  etrans; [|by apply (run_concurrent_phase_order config R)].
  by apply (run_ref_phase_order config R).
Qed.

Lemma run_phases_attributed (g : GroupedHookEntries P H) st v :
  (run_phases g st).1 = Some v → attributed (g_sequential g ++ g_concurrent g) v.
Proof.
  unfold run_phases. destruct (run_serial_phase config true true _ st) as [[v1|] st1] eqn:E; simpl.
  - intros [= <-]. apply run_serial_phase_halt in E as [_ (en & Hin & Hv)].
    exists en. split; [|done]. apply elem_of_app. by left.
  - intros (en & Hin & Hv)%run_concurrent_attributed. exists en. split; [|done].
    apply elem_of_app. by right.
Qed.

(** A prefix of the serial phase that halts, and one that does not. *)
Lemma run_serial_phase_app block modify (pre post : list (HookEntry P H)) st :
  run_serial_phase config block modify (pre ++ post) st
  = match run_serial_phase config block modify pre st with
    | (Some v, st1) => (Some v, st1)
    | (None, st1) => run_serial_phase config block modify post st1
    end.
Proof.
  revert st. induction pre as [|e pre IH]; intros st; simpl; [done|].
  by destruct (run_serial_entry _ _ _ _ _) as [[v|] st1].
Qed.

(** The outcomes of a branch that make the concurrent phase deny. *)
Definition outcome_blocks entry (o : BranchOutcome BranchData) : bool :=
  match o with
  | Completed (BranchDeny _) => true
  | Completed (BranchError _) | TimedOut | Panicked _ =>
      bool_decide (pcf_on_error (pr_trusted_config (he_plugin_ref entry)) = Fail)
  | Completed BranchAllow | Aborted => false
  end.

Lemma settle_branch_first entry o first st :
  is_Some (settle_branch config entry o first st).1
  ↔ is_Some first ∨ outcome_blocks entry o = true.
Proof.
  unfold settle_branch, branch_failure. destruct o as [[|[d|]|e]| | |s]; simpl;
    try (destruct (pcf_on_error _)); destruct first as [f|]; simpl;
    split; intros Hx; eauto; try done; by destruct Hx as [Hx|Hx]; [destruct Hx|].
Qed.

Lemma settle_all_first entries outcomes first st :
  is_Some (settle_all config entries outcomes first st).1
  ↔ is_Some first ∨ ∃ i entry o, entries !! i = Some entry ∧ outcomes !! i = Some o
                                 ∧ outcome_blocks entry o = true.
Proof.
  revert outcomes first st. induction entries as [|entry entries IH];
    intros [|o outcomes] first st; simpl.
  1-3: split; [by left|]; intros [?|(i & e & o' & He & Ho & _)]; [done|];
       by destruct i.
  pose proof (settle_branch_first entry o first st) as Hs.
  destruct (settle_branch _ _ _ _ _) as [f st1]. simpl in Hs. rewrite IH, Hs.
  split.
  - intros [[?|?]|(i & e & o' & ?)]; [by left|right; by exists 0, entry, o|].
    right. by exists (S i), e, o'.
  - intros [?|([|i] & e & o' & He & Ho & Hb)]; [by left; left| |].
    + simplify_eq/=. left. by right.
    + right. by exists i, e, o'.
Qed.

(** What the branches of the concurrent phase compute, and the schedule. *)
Definition concurrent_results entries st : list BranchData :=
  (run_each (concurrent_branch st) 0 entries).*1.
Definition concurrent_schedule entries st : Schedule :=
  rt_schedule (ph_world st) (branch_is_deny <$> concurrent_results entries st).

Lemma concurrent_results_lookup entries st i :
  concurrent_results entries st !! i
  = (λ e, (concurrent_branch st i e).1) <$> entries !! i.
Proof.
  unfold concurrent_results. rewrite list_lookup_fmap, run_each_lookup.
  by destruct (entries !! i).
Qed.

Lemma concurrent_results_length entries st :
  length (concurrent_results entries st) = length entries.
Proof. unfold concurrent_results. by rewrite length_fmap, run_each_length. Qed.

Lemma run_concurrent_first entries st :
  is_Some (run_concurrent_phase config entries st).1
  ↔ ∃ i entry o, entries !! i = Some entry
      ∧ run_branches (concurrent_config config) branch_is_deny (concurrent_results entries st)
          (concurrent_schedule entries st) !! i = Some o
      ∧ outcome_blocks entry o = true.
Proof.
  unfold run_concurrent_phase. destruct entries as [|e0 es].
  { split; [by intros []|]. by intros (i & e & o & Hi & _). }
  rewrite settle_all_first. unfold concurrent_results, concurrent_schedule.
  split; [by intros [[]|]|by right].
Qed.

End Orders.

(** ** Properties *)

Section Properties.
Context {P H Pay W : Type} `{HookHandler H Pay W} `{Timer W} `{Runtime W}.
Context (config : ExecutorConfig).
Implicit Types entry : HookEntry P H.
Implicit Types entries : list (HookEntry P H).
Implicit Types st : PhaseState Pay W.

(** What the plugins that may modify are allowed to. *)
Definition modifier_caps (flags : FlagStore) entries : gset string :=
  ⋃ ((λ entry, pcf_capabilities (pr_trusted_config (he_plugin_ref entry)))
       <$> by_mode flags Sequential entries ++ by_mode flags Transform entries).

Lemma caps_in_modifiers flags entries entry :
  entry ∈ g_sequential (group_by_mode flags entries) ++ g_transform (group_by_mode flags entries) →
  pcf_capabilities (pr_trusted_config (he_plugin_ref entry)) ⊆ modifier_caps flags entries.
Proof.
  rewrite group_by_mode_spec. simpl. intros Hin. unfold modifier_caps.
  intros c Hc. apply elem_of_union_list. eexists. split; [|exact Hc].
  apply list_elem_of_fmap. by exists entry.
Qed.

(** Raw credentials some plugin that may modify has returned. *)
Definition returned_by_modifier (flags : FlagStore) entries (r : RawCredentialsExtension) : Prop :=
  ∃ entry e erased o, entry ∈ by_mode flags Sequential entries ++ by_mode flags Transform entries
    ∧ answers entry e erased ∧ ef_modified_extensions erased = Some o ∧ o_raw_credentials o = Some r.

(** C1: over a whole hook invocation the extensions respect the tiers, whatever
    the plugins return and in whatever order they run: the immutable slots are
    preserved, labels only grow, the request line and existing delegation hops
    stand; and labels, headers, delegation chain and routing constraint change
    only if some sequential or transform plugin declares the capability for it.
    The raw credentials, declared immutable and gated, are not protected that
    way: the slot is never removed, but becomes what a sequential or transform
    plugin returns in it, and nothing else. *)
Theorem execute_extensions_safe entries payload extensions table flags (w : W) :
  let '(r, _, flags', _) := execute config entries payload extensions table flags w in
  ∃ e', pr_modified_extensions r = Some e'
    ∧ tier_order extensions e' ∧ within (modifier_caps flags entries) extensions e'
    ∧ raw_given (returned_by_modifier flags entries) extensions e'
    ∧ flags ⊆ flags'.
Proof.
  destruct (decide (entries = [])) as [->|Hne].
  { simpl. exists extensions. split_and!; [done|reflexivity|reflexivity|reflexivity|done]. }
  pose proof (λ v st, execute_as_phases config entries payload extensions table flags w v st Hne) as Hex.
  set (st0 := mkPhase payload extensions (default context_table_new table) [] false flags w) in *.
  pose proof (run_phases_order config (on_extensions tier_order) (group_by_mode flags entries) st0)
    as Ht.
  pose proof (run_phases_order config (on_extensions (within (modifier_caps flags entries)))
    (group_by_mode flags entries) st0) as Hw.
  pose proof (run_phases_order config flags_grow (group_by_mode flags entries) st0) as Hfl.
  pose proof (run_phases_order config (on_extensions (raw_given (returned_by_modifier flags entries)))
    (group_by_mode flags entries) st0) as Hr.
  destruct (run_phases config (group_by_mode flags entries) st0) as [v st].
  rewrite (Hex _ _ eq_refl). exists (ph_extensions st). split_and!.
  - by destruct v.
  - apply Ht. intros entry _ st1 erased _. apply accept_on_extensions; [apply _|].
    intros e o. apply accept_extensions_tiers.
  - apply Hw. intros entry Hin st1 erased _. apply accept_on_extensions; [apply _|].
    intros e o. eapply within_mono; [by apply caps_in_modifiers|apply accept_extensions_within].
  - apply Hr. intros entry Hin st1 erased Ha. apply accept_raw_given. intros o r Ho Hor.
    exists entry, (ph_extensions st1), erased, o. split_and!; try done.
    by rewrite group_by_mode_spec in Hin.
  - apply Hfl. intros entry _ st1 erased _. apply accept_flags.
Qed.

(** The result's payload report is exact: an allowed pipeline that does not
    report a modification returns the payload it was given; a denied one
    returns none and carries a violation; an allowed one carries no violation. *)
Theorem execute_payload_report entries payload extensions table flags (w : W) :
  let '(r, _, _, _) := execute config entries payload extensions table flags w in
  (pr_continue_processing r = true →
     pr_violation r = None ∧ ∃ p, pr_modified_payload r = Some p
     ∧ (pr_payload_modified r = false → p = payload))
  ∧ (pr_continue_processing r = false →
     pr_modified_payload r = None ∧ is_Some (pr_violation r)).
Proof.
  destruct (decide (entries = [])) as [->|Hne]; [simpl; naive_solver|].
  pose proof (λ v st, execute_as_phases config entries payload extensions table flags w v st Hne) as Hex.
  set (st0 := mkPhase payload extensions (default context_table_new table) [] false flags w) in *.
  pose proof (run_phases_order config payload_sound (group_by_mode flags entries) st0) as Hp.
  destruct (run_phases config (group_by_mode flags entries) st0) as [v st].
  rewrite (Hex _ _ eq_refl). destruct v as [v|]; simpl; [by split; [done|eauto]|].
  split; [|done]. intros _. split; [done|]. eexists. split; [done|]. intros Hf.
  apply Hp; [|done]. intros entry _ st1 erased _. apply accept_payload_sound.
Qed.

Lemma execute_denied_by entries payload extensions table flags (w : W) v :
  pr_violation (execute config entries payload extensions table flags w).1.1.1 = Some v →
  ∃ entry, entry ∈ entries
    ∧ can_block (pr_mode flags (he_plugin_ref entry)) = true
    ∧ vi_plugin_name v = Some (pr_name (he_plugin_ref entry)).
Proof.
  destruct (decide (entries = [])) as [->|Hne]; [done|].
  pose proof (λ v st, execute_as_phases config entries payload extensions table flags w v st Hne) as Hex.
  set (st0 := mkPhase payload extensions (default context_table_new table) [] false flags w) in *.
  pose proof (run_phases_attributed config (group_by_mode flags entries) st0) as Ha.
  destruct (run_phases config (group_by_mode flags entries) st0) as [v' st].
  rewrite (Hex _ _ eq_refl). destruct v' as [v'|]; simpl; [|done]. intros [= ->].
  destruct (Ha v eq_refl) as (entry & Hin & Hv). rewrite group_by_mode_spec in Hin. simpl in Hin.
  apply elem_of_app in Hin as [Hin|Hin]; unfold by_mode in Hin;
    apply list_elem_of_filter in Hin as [Hm Hin]; exists entry; by rewrite Hm.
Qed.

(** Only sequential and concurrent plugins can deny, and a denial names
    one of them: transform, audit, fire-and-forget and disabled plugins never
    block a request, whatever they return and however they fail. *)
Theorem execute_denial_attributed entries payload extensions table flags (w : W) v :
  pr_violation (execute config entries payload extensions table flags w).1.1.1 = Some v →
  ∃ entry, entry ∈ entries
    ∧ can_block (pr_mode flags (he_plugin_ref entry)) = true
    ∧ vi_plugin_name v = Some (pr_name (he_plugin_ref entry)).
Proof. apply execute_denied_by. Qed.

(** What halts the blocking serial phase: a denial that carries a violation, or a
    failure or an exceeded time limit under [on_error: fail]. *)
Definition halts (entry : HookEntry P H) (inv : Invocation (Pay := Pay)) : bool :=
  match inv with
  | Returned (Some erased) => negb (ef_continue_processing erased) && is_some (ef_violation erased)
  | Returned None => false
  | Errored _ | Elapsed => bool_decide (pcf_on_error (pr_trusted_config (he_plugin_ref entry)) = Fail)
  end.


(** C2: the verdict of the concurrent phase is exact under any schedule of the
    runtime: it denies if and only if some branch was joined with a denial, or
    failed, timed out or panicked under [on_error: fail]; and a branch whose
    handler denies is never lost to short-circuiting. *)
Theorem concurrent_phase_verdict entries st :
  Schedule_ok (concurrent_config config) branch_is_deny (concurrent_results entries st)
    (concurrent_schedule entries st) →
  (is_Some (run_concurrent_phase config entries st).1
   ↔ ∃ i entry f, entries !! i = Some entry ∧ (i, f) ∈ concurrent_schedule entries st
      ∧ match f with
        | FateDone =>
            match (concurrent_branch st i entry).1 with
            | BranchAllow => False
            | BranchDeny _ => True
            | BranchError _ => pcf_on_error (pr_trusted_config (he_plugin_ref entry)) = Fail
            end
        | FateTimeout | FatePanic _ =>
            pcf_on_error (pr_trusted_config (he_plugin_ref entry)) = Fail
        | FateCancelled => False
        end)
  ∧ (∀ i entry, entries !! i = Some entry →
       branch_is_deny (concurrent_branch st i entry).1 = true →
       (∀ msg, (i, FatePanic msg) ∉ concurrent_schedule entries st) →
       (i, FateTimeout) ∉ concurrent_schedule entries st →
       is_Some (run_concurrent_phase config entries st).1).
Proof.
  intros Hok. pose proof (concurrent_results_lookup entries st) as Hres.
  pose proof (concurrent_results_length entries st) as Hlen.
  set (cfg := concurrent_config config) in *. set (res := concurrent_results entries st) in *.
  set (sch := concurrent_schedule entries st) in *.
  split.
  - rewrite run_concurrent_first. fold cfg res sch. split.
    + intros (i & entry & o & He & Ho & Hb).
      destruct (schedule_covers cfg branch_is_deny res sch i Hok) as [f Hf].
      { rewrite Hlen. by eapply lookup_lt_Some. }
      exists i, entry, f. split_and!; [done|done|].
      rewrite (run_branches_at _ _ _ _ _ _ Hok Hf) in Ho. unfold outcome_of in Ho. simpl in Ho.
      rewrite Hres, He in Ho. simpl in Ho.
      destruct f; simplify_eq/=; try (by apply bool_decide_eq_true in Hb).
      destruct (concurrent_branch st i entry).1; [done|done|by apply bool_decide_eq_true in Hb].
    + intros (i & entry & f & He & Hf & Hb).
      exists i, entry. eexists. split_and!; [done|by apply run_branches_at|].
      unfold outcome_of. simpl. rewrite Hres, He. simpl.
      destruct f; simpl; try (by apply bool_decide_eq_true); [|done].
      destruct (concurrent_branch st i entry).1; [done|done|by apply bool_decide_eq_true].
  - intros i entry He Hd Hnp Hnt. apply run_concurrent_first. fold cfg res sch.
    destruct (run_branches_deny_lost_free cfg branch_is_deny res sch i
                (concurrent_branch st i entry).1 Hok) as (j & u & Hj & Hu); [|done|done|done|].
    { by rewrite Hres, He. }
    assert (is_Some (entries !! j)) as [entry' He'].
    { apply lookup_lt_is_Some. rewrite <- Hlen, <- (run_branches_length cfg branch_is_deny res sch).
      by eapply lookup_lt_Some. }
    exists j, entry', (Completed u). split_and!; [done|done|]. by destruct u.
Qed.

(** A sequential plugin that stops processing without a violation does not
    stop the pipeline: its request to halt is dropped and its modifications
    are accepted as if it had allowed (the concurrent phase denies on the same
    result, with the code [concurrent_deny]). *)
Theorem sequential_bare_deny_dropped entry post st erased ctx w :
  call_handler entry (ph_payload st)
    (serial_view (pcf_capabilities (pr_trusted_config (he_plugin_ref entry))) (ph_extensions st))
    (take_context (ph_ctx_table st) (pr_id (he_plugin_ref entry))).1 (ph_world st)
  = (Returned (Some erased), ctx, w) →
  ef_continue_processing erased = false → ef_violation erased = None →
  ∃ st1, run_serial_phase config true true (entry :: post) st
         = run_serial_phase config true true post st1
    ∧ ph_payload st1 = default (ph_payload st) (ef_modified_payload erased)
    ∧ ph_errors st1 = ph_errors st.
Proof.
  intros Hcall Hc Hv. simpl. unfold run_serial_entry.
  rewrite surjective_pairing with (p := take_context _ _). simpl in *.
  rewrite Hcall. rewrite Hc, Hv. simpl. eexists. split_and!; [done| |].
  - by destruct (ef_modified_payload erased), (ef_modified_extensions erased).
  - by destruct (ef_modified_payload erased), (ef_modified_extensions erased).
Qed.

(** A plugin that halts the pipeline loses its local state: the context
    table returned with the denial has no entry for it, whatever it stored
    before, while the other plugins keep theirs. *)
Theorem denial_drops_local_state entry post st v st' :
  run_serial_entry config true true entry st = (Some v, st') →
  run_serial_phase config true true (entry :: post) st = (Some v, st')
  ∧ ct_local_states (ph_ctx_table st') !! pr_id (he_plugin_ref entry) = None
  ∧ ∀ id, id ≠ pr_id (he_plugin_ref entry) →
      ct_local_states (ph_ctx_table st') !! id = ct_local_states (ph_ctx_table st) !! id.
Proof.
  intros Hrun. split; [by simpl; rewrite Hrun|].
  assert (ph_ctx_table st' = (take_context (ph_ctx_table st) (pr_id (he_plugin_ref entry))).2) as ->.
  { revert Hrun. unfold run_serial_entry.
    rewrite surjective_pairing with (p := take_context _ _).
    destruct (call_handler _ _ _ _ _) as [[inv ctx'] w].
    destruct inv as [[erased|]|e|]; [|done| |].
    - destruct (if negb _ && _ then _ else _); [|done]. by intros [= <- <-].
    - unfold serial_failure. destruct (pcf_on_error _); [|done|done]. by intros [= <- <-].
    - unfold serial_failure. destruct (pcf_on_error _); [|done|done]. by intros [= <- <-]. }
  simpl. split; [apply lookup_delete_eq|]. intros id Hid. by rewrite lookup_delete_ne.
Qed.

End Properties.


(** ** Witnesses *)

Module Demo.

(** Handlers with a fixed answer, a timer that never elapses and a runtime
    that runs every branch to completion. *)
Abbreviation Answer := (Result (option (ErasedResultFields string)) PluginError).

#[global] Instance answer_handler : HookHandler Answer string unit := λ h _ _ ctx w, (h, ctx, w).
#[global] Instance patient : Timer unit := λ _ _ _, None.
#[global] Instance eager : Runtime unit := {
  rt_fork w _ := w;
  rt_schedule _ denies := imap (λ i _, (i, FateDone)) denies;
  rt_join w _ := w
}.

Definition entry (name : string) (id : N) (mode : PluginMode) (h : Answer) :
    HookEntry unit Answer :=
  mkHookEntry (plugin_ref_new tt (demo_config name 10 mode) id 0) h.

Definition denial : PluginViolation := violation_new "forbidden" "not allowed".
Definition allows : Answer := Ok (Some (mkErased true None None None)).
Definition denies : Answer := Ok (Some (mkErased false None None (Some denial))).
Definition stops_silently : Answer := Ok (Some (mkErased false (Some "edited") None None)).
Definition fails : Answer := Err (ErrConfig "boom").

Definition state : PhaseState string unit :=
  mkPhase "payload" extensions_default (mkContextTable ∅ {[ 1%N := {[ "count" := Null ]} ]}) []
    false ∅ tt.

Definition run (entries : list (HookEntry unit Answer)) :=
  execute executor_config_default entries "payload" extensions_default None ∅ tt.

Lemma call (e : HookEntry unit Answer) p x ctx w :
  call_handler e p x ctx w
  = (match he_handler e with Ok f => Returned f | Err err => Errored err end, ctx, w).
Proof. reflexivity. Qed.

End Demo.

Lemma denial_attributed_witness :
  ∃ e, e ∈ [Demo.entry "gate" 1 Sequential Demo.denies]
    ∧ can_block (pr_mode ∅ (he_plugin_ref e)) = true
    ∧ Some "gate" = Some (pr_name (he_plugin_ref e)).
Proof.
  apply (execute_denial_attributed executor_config_default
           [Demo.entry "gate" 1 Sequential Demo.denies] "payload" extensions_default None ∅ tt
           (attribute_violation Demo.denial "gate")).
  reflexivity.
Defined.


Lemma concurrent_verdict_witness :
  is_Some (run_concurrent_phase executor_config_default
    [Demo.entry "pass" 2 Concurrent Demo.allows; Demo.entry "gate" 1 Concurrent Demo.stops_silently]
    Demo.state).1.
Proof.
  apply (concurrent_phase_verdict executor_config_default
    [Demo.entry "pass" 2 Concurrent Demo.allows; Demo.entry "gate" 1 Concurrent Demo.stops_silently]
    Demo.state).
  - constructor; [reflexivity| |]; simpl.
    + intros pre i post Hs. exfalso.
      destruct pre as [|a [|b [|c pre]]]; simplify_eq/=.
    + intros i Hi. eauto.
  - exists 1, (Demo.entry "gate" 1 Concurrent Demo.stops_silently), FateDone.
    split_and!; [done| |done]. right. by left.
Defined.

Lemma bare_deny_witness :
  ∃ st1, run_serial_phase executor_config_default true true
      [Demo.entry "gate" 1 Sequential Demo.stops_silently] Demo.state = (None, st1)
    ∧ ph_payload st1 = "edited".
Proof.
  destruct (sequential_bare_deny_dropped executor_config_default
    (Demo.entry "gate" 1 Sequential Demo.stops_silently) [] Demo.state _ _ _
    (Demo.call _ _ _ _ _) eq_refl eq_refl) as (st1 & Hrun & Hp & _).
  exists st1. split; [exact Hrun|exact Hp].
Defined.

Lemma drops_state_witness :
  ∃ v st', run_serial_phase executor_config_default true true
      [Demo.entry "gate" 1 Sequential Demo.denies] Demo.state = (Some v, st')
    ∧ ct_local_states (ph_ctx_table Demo.state) !! 1%N = Some {[ "count" := Null ]}
    ∧ ct_local_states (ph_ctx_table st') !! 1%N = None.
Proof.
  assert ((run_serial_entry executor_config_default true true
    (Demo.entry "gate" 1 Sequential Demo.denies) Demo.state).1
    = Some (attribute_violation Demo.denial "gate")) as Hv by (vm_compute; reflexivity).
  destruct (run_serial_entry executor_config_default true true
    (Demo.entry "gate" 1 Sequential Demo.denies) Demo.state) as [v st'] eqn:E.
  cbn [fst] in Hv. subst v.
  destruct (denial_drops_local_state executor_config_default
    (Demo.entry "gate" 1 Sequential Demo.denies) [] Demo.state _ st' E) as (Hrun & Hl & _).
  eexists _, st'. split_and!; [exact Hrun|apply lookup_singleton_eq|exact Hl].
Defined.
