(* ===== verification/Manager.v ===== *)
(** * The plugin manager (cpex-core/src/manager.rs, factory.rs, visitor.rs)

    The manager's lifecycle, configuration loading, route annotations, route
    cache and the invoke paths.  Plugin objects [P], handlers [H], factories
    [F], visitors [V], payloads [Pay] and the world [W] are type parameters;
    what the manager asks of them are classes.  The manager's fields and the
    memory behind [Arc]s ([Env]) are passed explicitly.  An operation that
    holds a snapshot while others run takes that snapshot as an argument. *)

From S2P Require Import Prelude RustStd F64 Json Yaml ExtData Extensions.
From S2P Require Import Orchestration PluginTypes Config ConfigLoad Registry Executor.

Local Open Scope string_scope.
Local Open Scope list_scope.

(** ** Data *)

Definition DEFAULT_ROUTE_CACHE_MAX_ENTRIES : Z := 10000.

Record ManagerConfig := mkManagerConfig {
  mc_executor : ExecutorConfig;
  mc_route_cache_max_entries : Z
}.

Definition manager_config_default : ManagerConfig :=
  mkManagerConfig executor_config_default DEFAULT_ROUTE_CACHE_MAX_ENTRIES.

Record RouteCacheKey := mkCacheKey {
  ck_entity_type : string;
  ck_entity_name : string;
  ck_hook_name : string;
  ck_scope : option string
}.

#[global] Instance RouteCacheKey_eq_dec : EqDecision RouteCacheKey.
Proof. solve_decision. Defined.
#[global] Program Instance RouteCacheKey_countable : Countable RouteCacheKey :=
  inj_countable'
    (λ k, (ck_entity_type k, ck_entity_name k, ck_hook_name k, ck_scope k))
    (λ '(t, n, h, s), mkCacheKey t n h s) _.
Next Obligation. by intros []. Qed.

Record AnnotationKey := mkAnnotationKey {
  ak_entity_type : string;
  ak_entity_name : string;
  ak_scope : option string;
  ak_hook_name : string
}.

#[global] Instance AnnotationKey_eq_dec : EqDecision AnnotationKey.
Proof. solve_decision. Defined.
#[global] Program Instance AnnotationKey_countable : Countable AnnotationKey :=
  inj_countable'
    (λ k, (ak_entity_type k, ak_entity_name k, ak_scope k, ak_hook_name k))
    (λ '(t, n, s, h), mkAnnotationKey t n s h) _.
Next Obligation. by intros []. Qed.

Definition HOOK_IDENTITY_RESOLVE : string := "identity.resolve".

Record PluginInstance (P H : Type) := mkInstance {
  pi_plugin : P;
  pi_handlers : list (string * H)
}.
Arguments mkInstance {P H}.
Arguments pi_plugin {P H}.
Arguments pi_handlers {P H}.

(** [PluginFactory::create]. *)
Class PluginFactory (F P H W : Type) :=
  factory_create : F → PluginConfig → W → Result (PluginInstance P H) PluginError * W.

(** [Plugin::initialize] and [Plugin::shutdown]. *)
Class Plugin (P W : Type) := {
  plugin_initialize : P → W → Result unit PluginError * W;
  plugin_shutdown : P → W → Result unit PluginError * W
}.

(** [AnyHookHandler::hook_type_name]. *)
Class HookTypeName (H : Type) := hook_type_name : H → string.

(** [Uuid::new_v4()]. *)
Class UuidSource (W : Type) := new_v4 : W → Uuid * W.

(** [TaskTracker::wait]: the world once the tracked tasks have ended. *)
Class TaskRuntime (H Pay W : Type) := drain_tasks : list (BackgroundTask H Pay) → W → W.

(** [serde_json::to_value] of a YAML value. *)
Class YamlToJson := yaml_to_json : Yaml → Result Value string.

Definition set_config (c : PluginConfig) (v : option Value) : PluginConfig :=
  mkPluginConfig (pcf_name c) (pcf_kind c) (pcf_description c) (pcf_author c) (pcf_version c)
    (pcf_hooks c) (pcf_mode c) (pcf_priority c) (pcf_on_error c) (pcf_capabilities c)
    (pcf_tags c) (pcf_conditions c) v.
Definition set_capabilities (c : PluginConfig) (caps : gset string) : PluginConfig :=
  mkPluginConfig (pcf_name c) (pcf_kind c) (pcf_description c) (pcf_author c) (pcf_version c)
    (pcf_hooks c) (pcf_mode c) (pcf_priority c) (pcf_on_error c) caps
    (pcf_tags c) (pcf_conditions c) (pcf_config c).
Definition set_on_error (c : PluginConfig) (oe : OnError) : PluginConfig :=
  mkPluginConfig (pcf_name c) (pcf_kind c) (pcf_description c) (pcf_author c) (pcf_version c)
    (pcf_hooks c) (pcf_mode c) (pcf_priority c) oe (pcf_capabilities c)
    (pcf_tags c) (pcf_conditions c) (pcf_config c).

Section Data.
Context (P H F V Pay W : Type).

Record RuntimeSnapshot := mkSnapshot {
  rs_registry : PluginRegistry P H;
  rs_executor : ExecutorConfig;
  rs_cpex_config : option CpexConfig;
  rs_route_cache_max_entries : Z;
  rs_route_annotations : gmap AnnotationKey (HookEntry P H)
}.

Record PluginManager := mkManager {
  mg_runtime : RuntimeSnapshot;
  mg_factories : gmap string F;
  mg_route_cache : gmap RouteCacheKey (list (HookEntry P H));
  mg_route_cache_full_warned : bool;
  mg_initialized : bool;
  mg_generation : Z;
  mg_tasks : list (BackgroundTask H Pay);   (** tracked by [task_tracker] *)
  mg_tracker_closed : bool;
  mg_visitors : list V
}.

(** What lives outside the manager: the world, the tripped circuit breakers
    and how many breaker cells have been allocated. *)
Record Env := mkEnv {
  en_world : W;
  en_flags : FlagStore;
  en_cells : nat
}.

End Data.
Arguments mkSnapshot {P H}.
Arguments rs_registry {P H}.
Arguments rs_executor {P H}.
Arguments rs_cpex_config {P H}.
Arguments rs_route_cache_max_entries {P H}.
Arguments rs_route_annotations {P H}.
Arguments mkManager {P H F V Pay}.
Arguments mg_runtime {P H F V Pay}.
Arguments mg_factories {P H F V Pay}.
Arguments mg_route_cache {P H F V Pay}.
Arguments mg_route_cache_full_warned {P H F V Pay}.
Arguments mg_initialized {P H F V Pay}.
Arguments mg_generation {P H F V Pay}.
Arguments mg_tasks {P H F V Pay}.
Arguments mg_tracker_closed {P H F V Pay}.
Arguments mg_visitors {P H F V Pay}.
Arguments mkEnv {W}.
Arguments en_world {W}.
Arguments en_flags {W}.
Arguments en_cells {W}.

(** [ConfigVisitor]: each method may call back into the manager. *)
Class ConfigVisitor (P H F V Pay W : Type) := {
  visitor_name : V → string;
  visit_plugins : V → list PluginConfig → PluginManager P H F V Pay * Env W →
    Result unit string * (PluginManager P H F V Pay * Env W);
  visit_global : V → Yaml → PluginManager P H F V Pay * Env W →
    Result unit string * (PluginManager P H F V Pay * Env W);
  visit_default : V → string → Yaml → PluginManager P H F V Pay * Env W →
    Result unit string * (PluginManager P H F V Pay * Env W);
  visit_policy_bundle : V → string → Yaml → PluginManager P H F V Pay * Env W →
    Result unit string * (PluginManager P H F V Pay * Env W);
  visit_route : V → Yaml → RouteEntry → PluginManager P H F V Pay * Env W →
    Result unit string * (PluginManager P H F V Pay * Env W)
}.

(** ** Operations *)

Section Manager.
Context {P H F V Pay W : Type}.
Context `{HookHandler H Pay W} `{Timer W} `{Runtime W}.
Context `{PluginFactory F P H W} `{Plugin P W} `{HookTypeName H} `{UuidSource W}.
Context `{TaskRuntime H Pay W} `{YamlToJson} `{YamlLib} `{SerdeConfig} `{WildMatch} `{order : HashOrder}.
Context `{ConfigVisitor P H F V Pay W}.

Abbreviation Manager := (PluginManager P H F V Pay).
Abbreviation Snapshot := (RuntimeSnapshot P H).
Abbreviation Entry := (HookEntry P H).
Abbreviation State := (Manager * Env W)%type.

Definition set_en_world (env : Env W) (w : W) : Env W := mkEnv w (en_flags env) (en_cells env).

(** The id and the breaker cell of a new [PluginRef]. *)
Definition alloc (env : Env W) : Uuid * nat * Env W :=
  let '(id, w) := new_v4 (en_world env) in
  (id, en_cells env, mkEnv w (en_flags env) (S (en_cells env))).

Definition set_runtime (m : Manager) (s : Snapshot) : Manager :=
  mkManager s (mg_factories m) (mg_route_cache m) (mg_route_cache_full_warned m)
    (mg_initialized m) (mg_generation m) (mg_tasks m) (mg_tracker_closed m) (mg_visitors m).
Definition bump_generation (m : Manager) : Manager :=
  mkManager (mg_runtime m) (mg_factories m) (mg_route_cache m) (mg_route_cache_full_warned m)
    (mg_initialized m) (u64_wrap (mg_generation m + 1)) (mg_tasks m) (mg_tracker_closed m)
    (mg_visitors m).
Definition set_cache (m : Manager) (c : gmap RouteCacheKey (list Entry)) (warned : bool) : Manager :=
  mkManager (mg_runtime m) (mg_factories m) c warned (mg_initialized m) (mg_generation m)
    (mg_tasks m) (mg_tracker_closed m) (mg_visitors m).
Definition set_initialized (m : Manager) (b : bool) : Manager :=
  mkManager (mg_runtime m) (mg_factories m) (mg_route_cache m) (mg_route_cache_full_warned m) b
    (mg_generation m) (mg_tasks m) (mg_tracker_closed m) (mg_visitors m).
Definition set_tasks (m : Manager) (tasks : list (BackgroundTask H Pay)) (closed : bool) : Manager :=
  mkManager (mg_runtime m) (mg_factories m) (mg_route_cache m) (mg_route_cache_full_warned m)
    (mg_initialized m) (mg_generation m) tasks closed (mg_visitors m).
Definition set_factories (m : Manager) (f : gmap string F) : Manager :=
  mkManager (mg_runtime m) f (mg_route_cache m) (mg_route_cache_full_warned m)
    (mg_initialized m) (mg_generation m) (mg_tasks m) (mg_tracker_closed m) (mg_visitors m).
Definition set_visitors (m : Manager) (v : list V) : Manager :=
  mkManager (mg_runtime m) (mg_factories m) (mg_route_cache m) (mg_route_cache_full_warned m)
    (mg_initialized m) (mg_generation m) (mg_tasks m) (mg_tracker_closed m) v.

(** *** Construction and publication *)

Definition no_factory_message (kind name : string) : string :=
  "no factory registered for plugin kind '" +:+ kind +:+ "' (plugin '" +:+ name +:+ "')".

Fixpoint instantiate_plugins_into (target : PluginRegistry P H) (configs : list PluginConfig)
    (factories : gmap string F) (env : Env W) :
    Result (PluginRegistry P H) PluginError * Env W :=
  match configs with
  | [] => (Ok target, env)
  | config :: configs =>
      match factories !! pcf_kind config with
      | None => (Err (ErrConfig (no_factory_message (pcf_kind config) (pcf_name config))), env)
      | Some factory =>
          let '(created, w) := factory_create factory config (en_world env) in
          let env := set_en_world env w in
          match created with
          | Err e => (Err e, env)
          | Ok instance =>
              let '(id, cell, env') := alloc env in
              let '(res, target) :=
                register_multi_handler target (pi_plugin instance) config id cell
                  (pi_handlers instance) in
              match res with
              | Err msg => (Err (ErrConfig msg), env)
              | Ok _ => instantiate_plugins_into target configs factories env'
              end
          end
      end
  end.

Definition snapshot_from_config (registry : PluginRegistry P H) (c : CpexConfig) : Snapshot :=
  mkSnapshot registry
    (mkExecutorConfig (ps_plugin_timeout (cx_settings c)) (ps_short_circuit_on_deny (cx_settings c)))
    (Some c) (ps_route_cache_max_entries (cx_settings c)) ∅.

Definition manager_new (config : ManagerConfig) : Manager :=
  mkManager
    (mkSnapshot registry_new (mc_executor config) None (mc_route_cache_max_entries config) ∅)
    ∅ ∅ false false 0 [] false [].

(** [mutate_runtime]: publish the mutated clone and bump the generation. *)
Definition mutate_runtime {R} (m : Manager) (f : Snapshot → R * Snapshot) : R * Manager :=
  let '(r, next) := f (mg_runtime m) in
  (r, bump_generation (set_runtime m next)).

Definition try_mutate_runtime {T E} (m : Manager) (f : Snapshot → Result T E * Snapshot) :
    Result T E * Manager :=
  let '(r, next) := f (mg_runtime m) in
  match r with
  | Ok t => (Ok t, bump_generation (set_runtime m next))
  | Err e => (Err e, m)
  end.

Definition config_generation (m : Manager) : Z := mg_generation m.

Definition clear_routing_cache (m : Manager) : Manager := set_cache m ∅ false.
Definition routing_cache_size (m : Manager) : nat := size (mg_route_cache m).

Definition register_factory (m : Manager) (kind : string) (factory : F) : Manager :=
  set_factories m (<[kind := factory]> (mg_factories m)).

Definition register_visitor (m : Manager) (v : V) : Manager :=
  set_visitors m (mg_visitors m ++ [v]).

Definition load_config (config : CpexConfig) (st : State) : Result unit PluginError * State :=
  let '(m, env) := st in
  let '(res, env) :=
    instantiate_plugins_into (rs_registry (mg_runtime m)) (cx_plugins config) (mg_factories m)
      env in
  match res with
  | Err e => (Err e, (m, env))
  | Ok new_registry =>
      let m := bump_generation (set_runtime m (snapshot_from_config new_registry config)) in
      (Ok tt, (clear_routing_cache m, env))
  end.

Definition from_config (config : CpexConfig) (factories : gmap string F) (env : Env W) :
    Result Manager PluginError * Env W :=
  let manager :=
    manager_new (mkManagerConfig executor_config_default
                   (ps_route_cache_max_entries (cx_settings config))) in
  let '(res, env) := instantiate_plugins_into registry_new (cx_plugins config) factories env in
  match res with
  | Err e => (Err e, env)
  | Ok new_registry =>
      (Ok (set_runtime manager (snapshot_from_config new_registry config)), env)
  end.

(** *** The visitor walk *)

(** Methods that fail leave the state they have reached. *)
Abbreviation M := (State → Result unit PluginError * State).

Definition m_then (a b : M) : M := λ st,
  let '(r, st) := a st in
  match r with Ok _ => b st | Err e => (Err e, st) end.

Fixpoint m_each {A} (f : A → M) (l : list A) : M :=
  match l with
  | [] => λ st, (Ok tt, st)
  | x :: l => m_then (f x) (m_each f l)
  end.

Definition run_visit (v : V) (what : string) (visit : State → Result unit string * State) : M :=
  λ st, let '(r, st) := visit st in
  (match r with
   | Ok _ => Ok tt
   | Err e => Err (ErrConfig ("visitor '" +:+ visitor_name v +:+ "' " +:+ what +:+ ": " +:+ e))
   end, st).

Definition policies_of (raw global_yaml : Yaml) : option Mapping :=
  match yaml_get global_yaml "policies" ≫= yaml_as_mapping,
        yaml_get raw "groups" ≫= yaml_as_mapping with
  | None, None => None
  | Some p, None => Some p
  | None, Some g => Some g
  | Some p, Some g => Some (foldl (λ p kv, mapping_insert p kv.1 kv.2) p g)
  end.

(** The loop over one named section: entries whose key is no string are
    skipped. *)
Definition visit_section (section : option Mapping) (visit : string → Yaml → M) : M :=
  match section with
  | None => λ st, (Ok tt, st)
  | Some entries =>
      m_each (λ kv, match yaml_as_str kv.1 with
                    | None => λ st, (Ok tt, st)
                    | Some key => visit key kv.2
                    end) entries
  end.

Definition walk_visitor (raw : Yaml) (routes : list RouteEntry) (plugins : list PluginConfig)
    (v : V) : M :=
  let global_yaml := default YNull (yaml_get raw "global") in
  let routes_yaml := default [] (yaml_get raw "routes" ≫= yaml_as_sequence) in
  m_then (run_visit v "visit_plugins" (visit_plugins v plugins))
  (m_then (run_visit v "visit_global" (visit_global v global_yaml))
  (m_then (visit_section (yaml_get global_yaml "defaults" ≫= yaml_as_mapping)
             (λ et y, run_visit v ("visit_default('" +:+ et +:+ "')") (visit_default v et y)))
  (m_then (visit_section (policies_of raw global_yaml)
             (λ tag y, run_visit v ("visit_policy_bundle('" +:+ tag +:+ "')")
                         (visit_policy_bundle v tag y)))
     (m_each (λ '(i, parsed),
        run_visit v ("visit_route[" +:+ show_nat i +:+ "]")
          (visit_route v (default YNull (routes_yaml !! i)) parsed)) (imap pair routes))))).

Definition load_config_yaml (yaml : string) (st : State) : Result unit PluginError * State :=
  match yaml_from_str yaml with
  | Err e => (Err (ErrConfig ("YAML parse error: " +:+ e)), st)
  | Ok raw =>
      match config_from_value raw with
      | Err e => (Err (ErrConfig ("CpexConfig deserialize error: " +:+ e)), st)
      | Ok config =>
          match reject_renamed_identity_key raw with
          | Err e => (Err e, st)
          | Ok _ =>
              let config := merge_groups_into_policies config in
              match validate_config config with
              | Err e => (Err e, st)
              | Ok _ =>
                  m_then (load_config config)
                    (λ st, m_each (walk_visitor raw (cx_routes config) (cx_plugins config))
                             (mg_visitors st.1) st) st
              end
          end
      end
  end.

(** *** Registration *)

(** The shared body of [register_handler], [register_handler_for_names] and
    [register_raw]. *)
Definition register_named (plugin : P) (config : PluginConfig) (handler : H)
    (names : list string) (st : State) : Result unit PluginError * State :=
  let '(m, env) := st in
  let '(id, cell, env') := alloc env in
  let '(res, m) :=
    try_mutate_runtime m (λ snap,
      let '(r, registry) :=
        register_for_names_inner (rs_registry snap) plugin config handler id cell names in
      (match r with Ok u => Ok u | Err msg => Err (ErrConfig msg) end,
       mkSnapshot registry (rs_executor snap) (rs_cpex_config snap)
         (rs_route_cache_max_entries snap) (rs_route_annotations snap))) in
  match res with
  | Ok _ => (Ok tt, (clear_routing_cache m, env'))
  | Err e => (Err e, (m, env))
  end.

(** [hook] is [H::NAME]. *)
Definition register_handler (hook : string) (plugin : P) (config : PluginConfig) (handler : H)
    (st : State) : Result unit PluginError * State :=
  register_named plugin config handler [hook] st.
Definition register_handler_for_names (plugin : P) (config : PluginConfig) (handler : H)
    (names : list string) (st : State) : Result unit PluginError * State :=
  register_named plugin config handler names st.
Definition register_raw (hook : string) (plugin : P) (config : PluginConfig) (handler : H)
    (st : State) : Result unit PluginError * State :=
  register_named plugin config handler [hook] st.

Definition set_registry (snap : Snapshot) (r : PluginRegistry P H) : Snapshot :=
  mkSnapshot r (rs_executor snap) (rs_cpex_config snap) (rs_route_cache_max_entries snap)
    (rs_route_annotations snap).
Definition set_annotations (snap : Snapshot) (a : gmap AnnotationKey Entry) : Snapshot :=
  mkSnapshot (rs_registry snap) (rs_executor snap) (rs_cpex_config snap)
    (rs_route_cache_max_entries snap) a.

Definition manager_unregister (name : string) (m : Manager) : option (PluginRef P) * Manager :=
  let '(removed, m) :=
    mutate_runtime m (λ snap,
      let '(r, registry) := unregister (rs_registry snap) name in (r, set_registry snap registry)) in
  (removed, match removed with Some _ => clear_routing_cache m | None => m end).

Definition annotate_route (entity_type entity_name : string) (scope : option string)
    (hook_name : string) (plugin : P) (handler : H) (config : PluginConfig) (st : State) : State :=
  let '(m, env) := st in
  let '(id, cell, env) := alloc env in
  let entry := mkHookEntry (plugin_ref_new plugin config id cell) handler in
  let key := mkAnnotationKey entity_type entity_name scope hook_name in
  ((mutate_runtime m (λ snap,
      (tt, set_annotations snap (<[key := entry]> (rs_route_annotations snap))))).2, env).

Definition remove_route_annotation (entity_type entity_name : string) (scope : option string)
    (hook_name : string) (m : Manager) : Manager :=
  let key := mkAnnotationKey entity_type entity_name scope hook_name in
  (mutate_runtime m (λ snap,
     (tt, set_annotations snap (delete key (rs_route_annotations snap))))).2.

(** *** Lifecycle *)

(** Rollback: shut down the named plugins, errors only logged. *)
Fixpoint shutdown_each (registry : PluginRegistry P H) (names : list string) (w : W) : W :=
  match names with
  | [] => w
  | name :: names =>
      match registry_get registry name with
      | Some r => shutdown_each registry names (plugin_shutdown (pr_plugin r) w).2
      | None => shutdown_each registry names w
      end
  end.

Definition init_error (name : string) (e : PluginError) : PluginError :=
  ErrExecution name ("initialization failed: " +:+ show_error e) None ∅ None.

(** The loop of [initialize]; [done] lists the initialised names, in order. *)
Fixpoint init_loop (registry : PluginRegistry P H) (names done : list string) (w : W) :
    Result unit PluginError * W :=
  match names with
  | [] => (Ok tt, w)
  | name :: names =>
      match registry_get registry name with
      | None => init_loop registry names done w
      | Some r =>
          let '(res, w) := plugin_initialize (pr_plugin r) w in
          match res with
          | Err e => (Err (init_error name e), shutdown_each registry (reverse done) w)
          | Ok _ => init_loop registry names (done ++ [name]) w
          end
      end
  end.

Definition initialize (st : State) : Result unit PluginError * State :=
  let '(m, env) := st in
  if mg_initialized m then (Ok tt, st)
  else
    let registry := rs_registry (mg_runtime m) in
    let '(res, w) := init_loop registry (plugin_names registry) [] (en_world env) in
    let env := set_en_world env w in
    match res with
    | Err e => (Err e, (m, env))
    | Ok _ => (Ok tt, (set_initialized m true, env))
    end.

(** [close().wait()] drains the tracked tasks before any plugin is stopped. *)
Definition shutdown (st : State) : State :=
  let '(m, env) := st in
  if negb (mg_initialized m) then st
  else
    let w := drain_tasks (mg_tasks m) (en_world env) in
    let m := set_tasks m [] true in
    let registry := rs_registry (mg_runtime m) in
    let w := shutdown_each registry (plugin_names registry) w in
    (set_initialized m false, set_en_world env w).

(** *** Overrides *)

(** The merged configuration of [create_override_instance]. *)
Definition merge_override (base : PluginConfig) (overrides : Value) : PluginConfig :=
  match value_get overrides "config" with
  | None => base
  | Some override_config =>
      match pcf_config base with
      | Some base_plugin_config =>
          set_config base (Some
            match base_plugin_config, override_config with
            | VObject base_obj, VObject override_obj => VObject (override_obj ∪ base_obj)
            | _, _ => base_plugin_config
            end)
      | None => set_config base (Some override_config)
      end
  end.

Definition find_handler (hook : string) (handlers : list (string * H)) : option H :=
  snd <$> find (λ p, String.eqb p.1 hook) handlers.

Definition create_override_instance (m : Manager) (base_entry : Entry) (overrides : Value)
    (env : Env W) : option Entry * Env W :=
  let base_config := pr_trusted_config (he_plugin_ref base_entry) in
  let merged_config := merge_override base_config overrides in
  let target_hook := hook_type_name (he_handler base_entry) in
  match mg_factories m !! pcf_kind base_config with
  | None => (None, env)
  | Some factory =>
      let '(created, w) := factory_create factory merged_config (en_world env) in
      let env := set_en_world env w in
      match created with
      | Err _ => (None, env)
      | Ok instance =>
          match find_handler target_hook (pi_handlers instance) with
          | None => (None, env)
          | Some handler =>
              let '(res, w) := plugin_initialize (pi_plugin instance) (en_world env) in
              let env := set_en_world env w in
              match res with
              | Err _ => (None, env)
              | Ok _ =>
                  let '(id, cell, env) := alloc env in
                  (Some (mkHookEntry
                           (plugin_ref_new (pi_plugin instance) merged_config id cell) handler),
                   env)
              end
          end
      end
  end.

Definition find_plugin_entries (m : Manager) (name : string) : list (string * Entry) :=
  entries_for_plugin (rs_registry (mg_runtime m)) name.


Definition build_override_entries (m : Manager) (plugin_name : string)
    (config_override : option Yaml) (capabilities_override : option (gset string))
    (on_error_override : option OnError) (env : Env W) : list (string * Entry) * Env W :=
  let base_entries := find_plugin_entries m plugin_name in
  match base_entries with
  | [] => ([], env)
  | base :: _ =>
      if is_none config_override && is_none capabilities_override && is_none on_error_override
      then (base_entries, env)
      else
        let base_ref := he_plugin_ref base.2 in
        let merged := pr_trusted_config base_ref in
        let merged := match capabilities_override with
                      | Some caps => set_capabilities merged caps
                      | None => merged
                      end in
        let merged := match on_error_override with
                      | Some oe => set_on_error merged oe
                      | None => merged
                      end in
        match config_override with
        | None =>
            let '(id, cell, env) := alloc env in
            let new_ref := plugin_ref_new (pr_plugin base_ref) merged id cell in
            (map (λ p, (p.1, mkHookEntry new_ref (he_handler p.2))) base_entries, env)
        | Some cfg_yaml =>
            match yaml_to_json cfg_yaml with
            | Err _ => ([], env)
            | Ok cfg_json =>
                let merged := set_config merged (Some cfg_json) in
                match mg_factories m !! pcf_kind merged with
                | None => ([], env)
                | Some factory =>
                    let '(created, w) := factory_create factory merged (en_world env) in
                    let env := set_en_world env w in
                    match created with
                    | Err _ => ([], env)
                    | Ok instance =>
                        let '(res, w) := plugin_initialize (pi_plugin instance) (en_world env) in
                        let env := set_en_world env w in
                        match res with
                        | Err _ => ([], env)
                        | Ok _ =>
                            let '(id, cell, env) := alloc env in
                            let new_ref := plugin_ref_new (pi_plugin instance) merged id cell in
                            (map (λ p, (p.1, mkHookEntry new_ref p.2)) (pi_handlers instance), env)
                        end
                    end
                end
            end
        end
  end.

(** *** Route filtering *)

(** The annotation short-circuit: the scoped annotation, else the unscoped. *)
Definition annotated_entry (snapshot : Snapshot) (extensions : Extensions) (hook_name : string) :
    option Entry :=
  match arc_val <$> x_meta extensions with
  | None => None
  | Some meta =>
      match mt_entity_type meta, mt_entity_name meta with
      | Some et, Some en =>
          let get scope := rs_route_annotations snapshot !! mkAnnotationKey et en scope hook_name in
          or_else (mt_scope meta ≫= (λ s, get (Some s))) (get None)
      | _, _ => None
      end
  end.

(** Hook-specific resolution of a cache miss. *)
Definition resolve_for_hook (config : CpexConfig) (entity_type entity_name : string)
    (scope : option string) (tags : gset string) (hook_name : string) : list ResolvedPlugin :=
  if String.eqb hook_name HOOK_IDENTITY_RESOLVE then
    resolve_identity_plugins_for_route config entity_type entity_name scope
  else resolve_plugins_for_entity config entity_type entity_name scope tags.

Definition find_entry (entries : list Entry) (name : string) : option Entry :=
  find (λ e, String.eqb (pr_name (he_plugin_ref e)) name) entries.

(** The loop that builds [filtered]. *)
Fixpoint select_entries (m : Manager) (entries : list Entry) (resolved : list ResolvedPlugin)
    (env : Env W) : list Entry * Env W :=
  match resolved with
  | [] => ([], env)
  | rp :: resolved =>
      match find_entry entries (rp_name rp) with
      | None => select_entries m entries resolved env
      | Some entry =>
          let '(chosen, env) :=
            match rp_config_overrides rp with
            | Some overrides =>
                let '(o, env) := create_override_instance m entry overrides env in
                (default entry o, env)
            | None => (entry, env)
            end in
          let '(rest, env) := select_entries m entries resolved env in
          (chosen :: rest, env)
      end
  end.

(** Reject-on-full insertion under the write lock. *)
Definition cache_store (m : Manager) (cap : Z) (key : RouteCacheKey) (l : list Entry) : Manager :=
  if (cap <=? Z.of_nat (size (mg_route_cache m)))%Z then
    set_cache m (mg_route_cache m) true
  else set_cache m (<[key := l]> (mg_route_cache m)) (mg_route_cache_full_warned m).

Definition filter_entries_by_route (snapshot : Snapshot) (entries : list Entry)
    (extensions : Extensions) (hook_name : string) (st : State) : list Entry * State :=
  match annotated_entry snapshot extensions hook_name with
  | Some entry => ([entry], st)
  | None =>
      match rs_cpex_config snapshot with
      | Some config =>
          if routing_enabled config then
            match arc_val <$> x_meta extensions with
            | None => (entries, st)
            | Some meta =>
                match mt_entity_type meta, mt_entity_name meta with
                | Some entity_type, Some entity_name =>
                    let key := mkCacheKey entity_type entity_name hook_name (mt_scope meta) in
                    match mg_route_cache st.1 !! key with
                    | Some cached => (cached, st)
                    | None =>
                        let resolved := resolve_for_hook config entity_type entity_name
                                          (mt_scope meta) (mt_tags meta) hook_name in
                        let '(filtered, env) := select_entries st.1 entries resolved st.2 in
                        (filtered,
                         (cache_store st.1 (rs_route_cache_max_entries snapshot) key filtered, env))
                    end
                | _, _ => (entries, st)
                end
            end
          else
            (filter (λ e, passes_conditions wild_matches
                            (pr_trusted_config (he_plugin_ref e)) extensions = true) entries, st)
      | None =>
          (filter (λ e, passes_conditions wild_matches
                          (pr_trusted_config (he_plugin_ref e)) extensions = true) entries, st)
      end
  end.

(** *** Invocation *)

(** [executor.execute(..)] with the tasks tracked. *)
Definition run_entries (executor : ExecutorConfig) (entries : list Entry) (payload : Pay)
    (extensions : Extensions) (table : option PluginContextTable) (st : State) :
    PipelineResult Pay * State :=
  let '(m, env) := st in
  let '(r, tasks, flags, w) :=
    execute executor entries payload extensions table (en_flags env) (en_world env) in
  (r, (set_tasks m (mg_tasks m ++ tasks) (mg_tracker_closed m), mkEnv w flags (en_cells env))).

(** The body [invoke_by_name], [invoke] and [invoke_named] share. *)
Definition invoke_hook (hook_name : string) (payload : Pay) (extensions : Extensions)
    (table : option PluginContextTable) (st : State) : PipelineResult Pay * State :=
  let snapshot := mg_runtime st.1 in
  let all_entries := entries_for_hook (rs_registry snapshot) hook_name in
  let allowed := allowed_with payload extensions (default context_table_new table) in
  if is_nil all_entries && is_nil (map_to_list (rs_route_annotations snapshot)) then (allowed, st)
  else
    let '(entries, st) := filter_entries_by_route snapshot all_entries extensions hook_name st in
    if is_nil entries then (allowed, st)
    else run_entries (rs_executor snapshot) entries payload extensions table st.

Definition invoke_by_name (hook_name : string) (payload : Pay) (extensions : Extensions)
    (table : option PluginContextTable) (st : State) : PipelineResult Pay * State :=
  invoke_hook hook_name payload extensions table st.
(** [name] is [H::NAME]. *)
Definition invoke (name : string) (payload : Pay) (extensions : Extensions)
    (table : option PluginContextTable) (st : State) : PipelineResult Pay * State :=
  invoke_hook name payload extensions table st.
Definition invoke_named (hook_name : string) (payload : Pay) (extensions : Extensions)
    (table : option PluginContextTable) (st : State) : PipelineResult Pay * State :=
  invoke_hook hook_name payload extensions table st.

Definition invoke_entries (entries : list Entry) (payload : Pay) (extensions : Extensions)
    (table : option PluginContextTable) (st : State) : PipelineResult Pay * State :=
  if is_nil entries then (allowed_with payload extensions (default context_table_new table), st)
  else run_entries (rs_executor (mg_runtime st.1)) entries payload extensions table st.

(** *** Queries *)

Definition manager_has_hooks_for (m : Manager) (hook_name : string) : bool :=
  has_hooks_for (rs_registry (mg_runtime m)) hook_name
  || existsb (λ p, String.eqb (ak_hook_name p.1) hook_name)
       (map_to_list (rs_route_annotations (mg_runtime m))).
Definition get_plugin (m : Manager) (name : string) : option (PluginRef P) :=
  registry_get (rs_registry (mg_runtime m)) name.
Definition is_initialized (m : Manager) : bool := mg_initialized m.

End Manager.
