(* ===== verification/ManagerFacts.v ===== *)
(** * Properties of the plugin manager

    Runs of the manager as interleavings of small steps ([mg_step]): an
    invocation loads a snapshot, looks its route up, resolves plugin by plugin
    and stores its answer in separate steps, and a change of the configuration
    is published and the cache cleared in separate steps, with the steps of any
    other calls in between.  The invariant these keep gives: the route cache
    refines uncached resolution, its size stays bounded, the generation counter
    identifies the published snapshot, loading a configuration is atomic, and
    the lifecycle calls are made in order. *)

From S2P Require Import Prelude RustStd F64 Json Yaml ExtData Extensions.
From S2P Require Import Orchestration PluginTypes Config ConfigLoad Registry Executor Manager.

Local Open Scope string_scope.
Local Open Scope list_scope.

(** ** Steps and reachable managers *)

Section Steps.
Context {P H F V Pay W : Type}.
Context `{HookHandler H Pay W} `{Timer W} `{Runtime W}.
Context `{PluginFactory F P H W} `{Plugin P W} `{HookTypeName H} `{UuidSource W}.
Context `{TaskRuntime H Pay W} `{YamlToJson} `{YamlLib} `{SerdeConfig} `{WildMatch} `{order : HashOrder}.

Abbreviation Manager := (PluginManager P H F V Pay).
Abbreviation Snapshot := (RuntimeSnapshot P H).
Abbreviation Entry := (HookEntry P H).
Abbreviation State := (Manager * Env W)%type.
Implicit Types m : Manager.
Implicit Types st : State.
Implicit Types s : Snapshot.

(** Which request tags a run uses for a cache key. *)
Context (tagged : RouteCacheKey → gset string → Prop).

(** Whether the configuration may change while an invocation is being resolved. *)
Context (overlap : bool).

Definition request_ok (extensions : Extensions) (hook_name : string) : Prop :=
  ∀ meta et en, arc_val <$> x_meta extensions = Some meta →
    mt_entity_type meta = Some et → mt_entity_name meta = Some en →
    tagged (mkCacheKey et en hook_name (mt_scope meta)) (mt_tags meta).

(** An invocation on its way through [filter_entries_by_route]: its snapshot is
    loaded, its plugins are being gone through ([rest] is what is left of the
    resolution, [chosen] what has been pushed), or its entries are decided. *)
Inductive Flight :=
| Loaded s (extensions : Extensions) (hook_name : string)
| Selecting s (extensions : Extensions) (hook_name : string) (key : RouteCacheKey)
    (rest : list ResolvedPlugin) (chosen : list Entry)
| Dispatched s (extensions : Extensions) (hook_name : string) (entries : list Entry).

Definition settled (f : Flight) : Prop :=
  match f with Dispatched _ _ _ _ => True | _ => False end.

(** The manager with the invocations in flight, how many changes are published
    whose cache clearing is still to come, and every snapshot published so far. *)
Record Sys := mkSys {
  sy_st : State;
  sy_flights : list Flight;
  sy_clearing : nat;
  sy_seen : list Snapshot
}.

(** The next snapshot that an operation builds from the one it has loaded, and
    whether it clears the cache afterwards. *)
Inductive rebuilt m s : Snapshot → bool → Prop :=
| rebuilt_load config registry env env' :
    instantiate_plugins_into (rs_registry s) (cx_plugins config) (mg_factories m) env
      = (Ok registry, env') →
    rebuilt m s (snapshot_from_config registry config) true
| rebuilt_named plugin config handler id cell names registry :
    register_for_names_inner (rs_registry s) plugin config handler id cell names
      = (Ok tt, registry) →
    rebuilt m s (set_registry s registry) true
| rebuilt_remove name r :
    (unregister (rs_registry s) name).1 = Some r →
    rebuilt m s (set_registry s (unregister (rs_registry s) name).2) true
| rebuilt_remove_none name :
    (unregister (rs_registry s) name).1 = None →
    rebuilt m s (set_registry s (unregister (rs_registry s) name).2) false
| rebuilt_annotations a : rebuilt m s (set_annotations s a) false.

(** What a request is looked up by, when no annotation takes it over and its
    snapshot routes: the configuration, the cache key and the tags. *)
Definition lookup_key s (extensions : Extensions) (hook_name : string) :
    option (CpexConfig * RouteCacheKey * gset string) :=
  match annotated_entry s extensions hook_name, rs_cpex_config s, arc_val <$> x_meta extensions with
  | None, Some config, Some meta =>
      if routing_enabled config then
        match mt_entity_type meta, mt_entity_name meta with
        | Some et, Some en => Some (config, mkCacheKey et en hook_name (mt_scope meta), mt_tags meta)
        | _, _ => None
        end
      else None
  | _, _, _ => None
  end.

(** The entries of a request that is not looked up. *)
Definition direct_entries s (extensions : Extensions) (hook_name : string) : list Entry :=
  let entries := entries_for_hook (rs_registry s) hook_name in
  match annotated_entry s extensions hook_name with
  | Some entry => [entry]
  | None =>
      if default false (routing_enabled <$> rs_cpex_config s) then entries
      else filter (λ e, passes_conditions wild_matches
                          (pr_trusted_config (he_plugin_ref e)) extensions = true) entries
  end.

Definition resolve_key (config : CpexConfig) (key : RouteCacheKey) (tags : gset string) :
    list ResolvedPlugin :=
  resolve_for_hook config (ck_entity_type key) (ck_entity_name key) (ck_scope key) tags
    (ck_hook_name key).

(** One turn of the loop that builds [filtered]. *)
Definition select_one m (entries : list Entry) (rp : ResolvedPlugin) (env : Env W) :
    list Entry * Env W :=
  match find_entry entries (rp_name rp) with
  | None => ([], env)
  | Some entry =>
      match rp_config_overrides rp with
      | Some overrides =>
          let '(o, env) := create_override_instance m entry overrides env in
          ([default entry o], env)
      | None => ([entry], env)
      end
  end.

(** The steps.  [step_env] stands for everything that touches no field of the
    manager (plugins, factories and override instances running, and operations
    that fail); unless changes may overlap with resolutions, a change is
    published only when no invocation is being resolved, from the snapshot then
    current, and no invocation starts before the cache is cleared. *)
Inductive mg_step : Sys → Sys → Prop :=
| step_env m env env' fs n seen : mg_step (mkSys (m, env) fs n seen) (mkSys (m, env') fs n seen)
| step_factory m env kind factory fs n seen :
    mg_step (mkSys (m, env) fs n seen) (mkSys (register_factory m kind factory, env) fs n seen)
| step_visitor m env v fs n seen :
    mg_step (mkSys (m, env) fs n seen) (mkSys (register_visitor m v, env) fs n seen)
| step_initialized m env b fs n seen :
    mg_step (mkSys (m, env) fs n seen) (mkSys (set_initialized m b, env) fs n seen)
| step_tasks m env tasks closed fs n seen :
    mg_step (mkSys (m, env) fs n seen) (mkSys (set_tasks m tasks closed, env) fs n seen)
| step_publish m env s next (clear : bool) fs n seen :
    s ∈ seen → (overlap = false → s = mg_runtime m ∧ Forall settled fs) →
    rebuilt m s next clear →
    mg_step (mkSys (m, env) fs n seen)
      (mkSys (bump_generation (set_runtime m next), env) fs (if clear then S n else n)
         (next :: seen))
| step_clear m env fs n n' seen :
    (n = n' ∨ n = S n') →
    mg_step (mkSys (m, env) fs n seen) (mkSys (clear_routing_cache m, env) fs n' seen)
| step_invoke m env extensions hook fs n seen :
    request_ok extensions hook → (overlap = false → n = 0) →
    mg_step (mkSys (m, env) fs n seen)
      (mkSys (m, env) (Loaded (mg_runtime m) extensions hook :: fs) n seen)
| step_direct m env s extensions hook pre post n seen :
    lookup_key s extensions hook = None →
    mg_step (mkSys (m, env) (pre ++ Loaded s extensions hook :: post) n seen)
      (mkSys (m, env)
         (pre ++ Dispatched s extensions hook (direct_entries s extensions hook) :: post) n seen)
| step_hit m env s extensions hook config key tags l pre post n seen :
    lookup_key s extensions hook = Some (config, key, tags) →
    mg_route_cache m !! key = Some l →
    mg_step (mkSys (m, env) (pre ++ Loaded s extensions hook :: post) n seen)
      (mkSys (m, env) (pre ++ Dispatched s extensions hook l :: post) n seen)
| step_miss m env s extensions hook config key tags pre post n seen :
    lookup_key s extensions hook = Some (config, key, tags) →
    mg_route_cache m !! key = None →
    mg_step (mkSys (m, env) (pre ++ Loaded s extensions hook :: post) n seen)
      (mkSys (m, env)
         (pre ++ Selecting s extensions hook key (resolve_key config key tags) [] :: post) n seen)
| step_select m env s extensions hook key rp rest chosen pre post n seen :
    mg_step (mkSys (m, env) (pre ++ Selecting s extensions hook key (rp :: rest) chosen :: post) n seen)
      (let one := select_one m (entries_for_hook (rs_registry s) hook) rp env in
       mkSys (m, one.2) (pre ++ Selecting s extensions hook key rest (chosen ++ one.1) :: post) n seen)
| step_store m env s extensions hook key chosen pre post n seen :
    mg_step (mkSys (m, env) (pre ++ Selecting s extensions hook key [] chosen :: post) n seen)
      (mkSys (cache_store m (rs_route_cache_max_entries s) key chosen, env)
         (pre ++ Dispatched s extensions hook chosen :: post) n seen)
| step_leave m env s extensions hook l pre post n seen :
    mg_step (mkSys (m, env) (pre ++ Dispatched s extensions hook l :: post) n seen)
      (mkSys (m, env) (pre ++ post) n seen).

(** A step of the manager, whatever is in flight beside it. *)
Definition moves st st' : Prop :=
  ∃ fs fs' n n' seen seen', mg_step (mkSys st fs n seen) (mkSys st' fs' n' seen').

Definition mg_init (st : State) : Prop :=
  (∃ config, st.1 = manager_new config)
  ∨ ∃ config factories env, from_config config factories env = (Ok st.1, st.2).

Definition sys_init st : Sys := mkSys st [] 0 [mg_runtime st.1].

Definition mg_reachable (y : Sys) : Prop := ∃ st0, mg_init st0 ∧ rtc mg_step (sys_init st0) y.

(** ** The invariant *)

(** The entry dispatched for a resolved plugin: the registered one, or an
    instance made from its configuration merged with the overrides. *)
Definition realises (p : Entry * ResolvedPlugin) (e : Entry) : Prop :=
  e = p.1
  ∨ ∃ overrides, rp_config_overrides p.2 = Some overrides
      ∧ pr_trusted_config (he_plugin_ref e)
        = merge_override (pr_trusted_config (he_plugin_ref p.1)) overrides.

(** The resolved plugins that have an entry, in resolution order. *)
Definition bases (entries : list Entry) (resolved : list ResolvedPlugin) :
    list (Entry * ResolvedPlugin) :=
  omap (λ rp, (λ e, (e, rp)) <$> find_entry entries (rp_name rp)) resolved.

Definition selection (entries : list Entry) (resolved : list ResolvedPlugin) (l : list Entry) :
    Prop := Forall2 realises (bases entries resolved) l.

(** Uncached resolution of a key under a snapshot that routes. *)
Definition resolves s (key : RouteCacheKey) (tags : gset string) (l : list Entry) : Prop :=
  ∃ config, rs_cpex_config s = Some config ∧ routing_enabled config = true
    ∧ selection (entries_for_hook (rs_registry s) (ck_hook_name key)) (resolve_key config key tags) l.

(** Dispatch without a cache: which lists of entries may run for a request that
    holds the snapshot [s], when its tags are [tags] and its route is resolved
    under the snapshot [s']. *)
Definition dispatch_spec s s' (ext : Extensions) (hook : string) (tags : gset string)
    (l : list Entry) : Prop :=
  let entries := entries_for_hook (rs_registry s) hook in
  match annotated_entry s ext hook with
  | Some e => l = [e]
  | None =>
      match rs_cpex_config s with
      | Some config =>
          if routing_enabled config then
            match arc_val <$> x_meta ext with
            | None => l = entries
            | Some meta =>
                match mt_entity_type meta, mt_entity_name meta with
                | Some et, Some en => resolves s' (mkCacheKey et en hook (mt_scope meta)) tags l
                | _, _ => l = entries
                end
            end
          else l = filter (λ e, passes_conditions wild_matches
                             (pr_trusted_config (he_plugin_ref e)) ext = true) entries
      | None => l = filter (λ e, passes_conditions wild_matches
                             (pr_trusted_config (he_plugin_ref e)) ext = true) entries
      end
  end.

Definition request_tags (ext : Extensions) : gset string :=
  match arc_val <$> x_meta ext with Some meta => mt_tags meta | None => ∅ end.

(** Tags that a request's key has been used with. *)
Definition tags_used (ext : Extensions) (hook : string) (tags : gset string) : Prop :=
  tags = request_tags ext
  ∨ ∃ meta et en, arc_val <$> x_meta ext = Some meta ∧ mt_entity_type meta = Some et
      ∧ mt_entity_name meta = Some en ∧ tagged (mkCacheKey et en hook (mt_scope meta)) tags.

(** A snapshot that is current once no clearing is outstanding. *)
Definition current (y : Sys) s : Prop :=
  s ∈ sy_seen y ∧ (overlap = false → sy_clearing y = 0 → s = mg_runtime (sy_st y).1).

Definition flight_ok (y : Sys) (f : Flight) : Prop :=
  match f with
  | Loaded s ext hook =>
      current y s ∧ request_ok ext hook ∧ (overlap = false → sy_clearing y = 0)
  | Selecting s ext hook key rest chosen =>
      current y s ∧ request_ok ext hook ∧ (overlap = false → sy_clearing y = 0)
      ∧ ∃ config tags past, lookup_key s ext hook = Some (config, key, tags)
        ∧ resolve_key config key tags = past ++ rest
        ∧ selection (entries_for_hook (rs_registry s) hook) past chosen
  | Dispatched s ext hook l =>
      request_ok ext hook ∧ ∃ s' tags, s ∈ sy_seen y ∧ s' ∈ sy_seen y ∧ tags_used ext hook tags
        ∧ dispatch_spec s s' ext hook tags l ∧ (overlap = false → s' = s)
  end.

Record mg_inv (y : Sys) : Prop := {
  inv_registry : ∀ s, s ∈ sy_seen y → registry_wf (rs_registry s);
  inv_seen : mg_runtime (sy_st y).1 ∈ sy_seen y;
  inv_bound : ∃ s, current y s
    ∧ (size (mg_route_cache (sy_st y).1) ≤ Z.to_nat (rs_route_cache_max_entries s))%nat;
  inv_cache : ∀ k l, mg_route_cache (sy_st y).1 !! k = Some l →
    ∃ s tags, current y s ∧ tagged k tags ∧ resolves s k tags l;
  inv_flights : ∀ f, f ∈ sy_flights y → flight_ok y f;
  inv_generation : (0 ≤ mg_generation (sy_st y).1 < 2 ^ 64)%Z
}.

(** *** Selection *)

Lemma create_override_spec m entry overrides env e env' :
  create_override_instance m entry overrides env = (Some e, env') →
  pr_trusted_config (he_plugin_ref e)
  = merge_override (pr_trusted_config (he_plugin_ref entry)) overrides.
Proof.
  unfold create_override_instance. destruct (mg_factories m !! _) as [f|]; [|done].
  destruct (factory_create _ _ _) as [[inst|err] w]; [|done].
  destruct (find_handler _ _); [|done].
  destruct (plugin_initialize _ _) as [[[]|err] w']; [|done].
  destruct (alloc _) as [[id cell] env'']. by intros [= <- <-].
Qed.

Lemma select_one_selection m entries rp env :
  selection entries [rp] (select_one m entries rp env).1.
Proof.
  unfold selection, bases, select_one. simpl.
  destruct (find_entry entries (rp_name rp)) as [entry|]; simpl; [|constructor].
  destruct (rp_config_overrides rp) as [ov|] eqn:Eov; [|constructor; [by left|constructor]].
  destruct (create_override_instance m entry ov env) as [[e|] env'] eqn:E; simpl;
    (constructor; [|constructor]); [|by left].
  right. exists ov. split; [done|]. by eapply create_override_spec.
Qed.

Lemma selection_app entries past rest l k :
  selection entries past l → selection entries rest k → selection entries (past ++ rest) (l ++ k).
Proof. unfold selection, bases. rewrite omap_app. apply Forall2_app. Qed.

(** The loop is its turns. *)
Lemma select_entries_cons m entries rp resolved env :
  select_entries m entries (rp :: resolved) env
  = let one := select_one m entries rp env in
    let rest := select_entries m entries resolved one.2 in (one.1 ++ rest.1, rest.2).
Proof.
  simpl. unfold select_one. destruct (find_entry entries (rp_name rp)) as [entry|]; simpl.
  - destruct (rp_config_overrides rp) as [ov|]; simpl.
    + destruct (create_override_instance m entry ov env) as [o env1]. simpl.
      by destruct (select_entries m entries resolved env1).
    + by destruct (select_entries m entries resolved env).
  - by destruct (select_entries m entries resolved env).
Qed.

Lemma select_entries_selection m entries resolved env :
  selection entries resolved (select_entries m entries resolved env).1.
Proof.
  revert env. induction resolved as [|rp resolved IH]; intros env; [constructor|].
  rewrite select_entries_cons. apply (selection_app _ [rp]); [apply select_one_selection|apply IH].
Qed.

Lemma merge_override_name c overrides : pcf_name (merge_override c overrides) = pcf_name c.
Proof.
  unfold merge_override. destruct (value_get _ _); [|done]. by destruct (pcf_config c).
Qed.

Lemma find_entry_spec (entries : list Entry) name e :
  find_entry entries name = Some e → e ∈ entries ∧ pr_name (he_plugin_ref e) = name.
Proof.
  intros [Hin Hn]%find_some. split; [by apply list_elem_of_In|by apply String.eqb_eq].
Qed.

(** Whatever is selected has the name of one of the hook's entries. *)
Lemma selection_names entries resolved l e :
  selection entries resolved l → e ∈ l →
  ∃ e0, e0 ∈ entries ∧ pr_name (he_plugin_ref e) = pr_name (he_plugin_ref e0)
    ∧ ∃ rp, rp ∈ resolved ∧ rp_name rp = pr_name (he_plugin_ref e).
Proof.
  intros Hs [i Hi]%list_elem_of_lookup.
  destruct (Forall2_lookup_r _ _ _ _ _ Hs Hi) as ([e0 rp] & Hb & Hr).
  apply list_elem_of_lookup_2, list_elem_of_omap in Hb as (rp' & Hrp & Hf).
  apply fmap_Some in Hf as (e1 & Hf & [= -> ->]). apply find_entry_spec in Hf as [Hin Hn].
  assert (pr_name (he_plugin_ref e) = pr_name (he_plugin_ref e1)) as Heq.
  { destruct Hr as [->|(ov & _ & Hc)]; [done|]. unfold pr_name. rewrite Hc.
    apply merge_override_name. }
  exists e1. split_and!; [done|done|]. exists rp'. split; [done|]. by rewrite Heq.
Qed.

(** *** Looking a request up *)

Lemma lookup_key_spec s ext hook config key tags :
  lookup_key s ext hook = Some (config, key, tags) →
  ∃ meta et en, annotated_entry s ext hook = None ∧ rs_cpex_config s = Some config
    ∧ routing_enabled config = true ∧ arc_val <$> x_meta ext = Some meta
    ∧ mt_entity_type meta = Some et ∧ mt_entity_name meta = Some en
    ∧ key = mkCacheKey et en hook (mt_scope meta) ∧ tags = mt_tags meta.
Proof.
  unfold lookup_key. destruct (annotated_entry s ext hook); [done|].
  destruct (rs_cpex_config s) as [c|]; [|done]. destruct (arc_val <$> _) as [meta|]; [|done].
  destruct (routing_enabled c) eqn:Er; [|done].
  destruct (mt_entity_type meta) as [et|] eqn:Et; [|done].
  destruct (mt_entity_name meta) as [en|] eqn:En; [|done].
  intros [= <- <- <-]. by exists meta, et, en.
Qed.

Lemma lookup_key_tags s ext hook config key tags :
  lookup_key s ext hook = Some (config, key, tags) →
  tags = request_tags ext ∧ ck_hook_name key = hook
  ∧ (request_ok ext hook → tagged key tags)
  ∧ ∀ tags', tagged key tags' → tags_used ext hook tags'.
Proof.
  intros (meta & et & en & _ & _ & _ & Em & Et & En & -> & ->)%lookup_key_spec.
  unfold request_tags, tags_used. rewrite Em. split_and!; [done|done| |].
  - intros Hok. by apply (Hok meta et en).
  - intros tags' Ht. right. by exists meta, et, en.
Qed.

Lemma dispatch_direct s s' ext hook tags :
  lookup_key s ext hook = None → dispatch_spec s s' ext hook tags (direct_entries s ext hook).
Proof.
  unfold lookup_key, dispatch_spec, direct_entries.
  destruct (annotated_entry s ext hook); [done|]. destruct (rs_cpex_config s) as [c|]; [|done].
  simpl. destruct (arc_val <$> _) as [meta|]; [|by destruct (routing_enabled c)].
  destruct (routing_enabled c); [|done].
  by destruct (mt_entity_type meta), (mt_entity_name meta).
Qed.

Lemma dispatch_routed s s' ext hook config key tags0 tags l :
  lookup_key s ext hook = Some (config, key, tags0) →
  resolves s' key tags l → dispatch_spec s s' ext hook tags l.
Proof.
  intros (meta & et & en & Ha & Hc & Hr & Em & Et & En & -> & ->)%lookup_key_spec.
  unfold dispatch_spec. by rewrite Ha, Hc, Hr, Em, Et, En.
Qed.

(** The code of [filter_entries_by_route], by what is looked up. *)
Lemma filter_entries_eq s ext hook st :
  filter_entries_by_route s (entries_for_hook (rs_registry s) hook) ext hook st
  = match lookup_key s ext hook with
    | None => (direct_entries s ext hook, st)
    | Some (config, key, tags) =>
        match mg_route_cache st.1 !! key with
        | Some l => (l, st)
        | None =>
            let sel := select_entries st.1 (entries_for_hook (rs_registry s) hook)
                         (resolve_key config key tags) st.2 in
            (sel.1, (cache_store st.1 (rs_route_cache_max_entries s) key sel.1, sel.2))
        end
    end.
Proof.
  unfold filter_entries_by_route, lookup_key, direct_entries.
  destruct (annotated_entry s ext hook); [done|]. destruct (rs_cpex_config s) as [c|]; [|done].
  simpl. destruct (arc_val <$> _) as [meta|]; [|by destruct (routing_enabled c)].
  destruct (routing_enabled c); [|done].
  destruct (mt_entity_type meta) as [et|], (mt_entity_name meta) as [en|]; try done.
  destruct (mg_route_cache st.1 !! _); [done|]. unfold resolve_key. simpl.
  by destruct (select_entries _ _ _ _).
Qed.

(** *** Preservation *)

Lemma u64_wrap_range z : (0 ≤ u64_wrap z < 2 ^ 64)%Z.
Proof. unfold u64_wrap. apply Z.mod_pos_bound. lia. Qed.

Lemma instantiate_wf reg configs factories env reg' env' :
  registry_wf reg → instantiate_plugins_into reg configs factories env = (Ok reg', env') →
  registry_wf reg'.
Proof.
  revert reg env. induction configs as [|c configs IH]; intros reg env Hwf; simpl.
  { by intros [= <- <-]. }
  destruct (factories !! _) as [f|]; [|done].
  destruct (factory_create _ _ _) as [[inst|e] w]; [|done].
  destruct (alloc _) as [[id cell] env1].
  destruct (register_multi_handler _ _ _ _ _ _) as [[[]|msg] reg1] eqn:E; [|done].
  apply IH. apply (reg_step_wf reg); [done|].
  assert (reg1 = (register_multi_handler reg (pi_plugin inst) c id cell (pi_handlers inst)).2) as ->
    by (by rewrite E).
  apply step_register_multi.
Qed.

Lemma cache_store_runtime m cap key l :
  mg_runtime (cache_store m cap key l) = mg_runtime m
  ∧ mg_generation (cache_store m cap key l) = mg_generation m.
Proof. unfold cache_store. by destruct (_ <=? _)%Z. Qed.

Lemma rebuilt_wf m s next clear :
  rebuilt m s next clear → registry_wf (rs_registry s) → registry_wf (rs_registry next).
Proof.
  intros Hr Hwf. destruct Hr as [config reg env env' E|pl c h id cell names reg E|name r E|name E|a];
    simpl; try done.
  - by eapply instantiate_wf.
  - assert (reg = (register_for_names_inner (rs_registry s) pl c h id cell names).2) as ->
      by (by rewrite E). eapply reg_step_wf; [done|]. apply step_register.
  - eapply reg_step_wf; [done|]. apply step_unregister.
  - eapply reg_step_wf; [done|]. apply step_unregister.
Qed.

(** A change that does not clear the cache resolves as before. *)
Lemma rebuilt_kept m s next :
  rebuilt m s next false →
  rs_route_cache_max_entries next = rs_route_cache_max_entries s
  ∧ ∀ k tags l, resolves s k tags l → resolves next k tags l.
Proof.
  assert (∀ b, rebuilt m s next b → b = false →
    rs_route_cache_max_entries next = rs_route_cache_max_entries s
    ∧ rs_cpex_config next = rs_cpex_config s ∧ rs_registry next = rs_registry s) as Hb.
  { intros b Hr. destruct Hr as [| | |name E|a]; try done. intros _. split_and!; [done|done|].
    simpl. unfold unregister in *. by destruct (rg_plugins _ !! name). }
  intros Hr. destruct (Hb _ Hr eq_refl) as (Hm & Hc & Hreg). split; [done|].
  intros k tags l (config & E & Hs). exists config. by rewrite Hc, Hreg.
Qed.

(** A flight stays good as long as the snapshots it may rest on do. *)
Lemma flight_ok_mono y y' f :
  sy_seen y ⊆ sy_seen y' →
  (∀ s, ¬ settled f → overlap = false → sy_clearing y = 0 →
     sy_clearing y' = 0 ∧ mg_runtime (sy_st y').1 = mg_runtime (sy_st y).1) →
  flight_ok y f → flight_ok y' f.
Proof.
  intros Hseen Hcur. destruct f as [s ext hook|s ext hook key rest chosen|s ext hook l]; simpl in *.
  - intros ([Hin Hc] & Hok & Hz). split_and!; [split; [set_solver|]|done|].
    + intros Ho _. destruct (Hcur s) as [_ ->]; auto.
    + intros Ho. by destruct (Hcur s) as [-> _]; auto.
  - intros ([Hin Hc] & Hok & Hz & Hrest). split_and!; [split; [set_solver|]|done| |done].
    + intros Ho _. destruct (Hcur s) as [_ ->]; auto.
    + intros Ho. by destruct (Hcur s) as [-> _]; auto.
  - intros (Hok & s' & tags & ? & ? & Ht & Hd & Ho). split; [done|]. exists s', tags. split_and!; try done; set_solver.
Qed.

Lemma flights_kept y y' :
  sy_seen y' = sy_seen y → sy_clearing y' = sy_clearing y →
  mg_runtime (sy_st y').1 = mg_runtime (sy_st y).1 →
  ∀ f, flight_ok y f → flight_ok y' f.
Proof.
  intros Hs Hc Hr f. apply flight_ok_mono; [by rewrite Hs|]. intros s _ _ Hz. by rewrite Hc, Hr.
Qed.

(** A step that leaves the snapshot, the generation and the cache. *)
Lemma inv_same_core m m' env env' fs n seen :
  mg_runtime m' = mg_runtime m → mg_route_cache m' = mg_route_cache m →
  mg_generation m' = mg_generation m →
  mg_inv (mkSys (m, env) fs n seen) → mg_inv (mkSys (m', env') fs n seen).
Proof.
  intros Hr Hc Hg [I1 I2 I3 I4 I5 I6]. unfold current in *. simpl in *.
  split; unfold current; simpl; rewrite ?Hr, ?Hc, ?Hg; try done.
  intros f Hf. eapply flights_kept; [..|by apply I5]; done.
Qed.

(** One flight moves on; nothing else changes. *)
Lemma inv_move m env env' f f' pre post n seen :
  mg_inv (mkSys (m, env) (pre ++ f :: post) n seen) →
  (flight_ok (mkSys (m, env) (pre ++ f :: post) n seen) f →
   flight_ok (mkSys (m, env) (pre ++ f :: post) n seen) f') →
  mg_inv (mkSys (m, env') (pre ++ f' :: post) n seen).
Proof.
  intros [I1 I2 I3 I4 I5 I6] Hf. split; try done. simpl. intros g Hg.
  apply (flights_kept (mkSys (m, env) (pre ++ f :: post) n seen)); [done..|].
  apply elem_of_app in Hg as [Hg|[->|Hg]%elem_of_cons].
  - apply I5. simpl. set_solver.
  - apply Hf, I5. simpl. set_solver.
  - apply I5. simpl. set_solver.
Qed.

Lemma inv_publish m env s next clear fs n seen :
  s ∈ seen → (overlap = false → s = mg_runtime m ∧ Forall settled fs) → rebuilt m s next clear →
  mg_inv (mkSys (m, env) fs n seen) →
  mg_inv (mkSys (bump_generation (set_runtime m next), env) fs (if clear then S n else n)
            (next :: seen)).
Proof.
  intros Hin Hov Hre [I1 I2 I3 I4 I5 I6]. simpl in *.
  assert (∀ s1, current (mkSys (m, env) fs n seen) s1 →
    ∃ s2, current (mkSys (bump_generation (set_runtime m next), env) fs (if clear then S n else n)
            (next :: seen)) s2
      ∧ rs_route_cache_max_entries s2 = rs_route_cache_max_entries s1
      ∧ ∀ k tags l, resolves s1 k tags l → resolves s2 k tags l) as Hcur.
  { intros s1 [Hs1 Hc1]. simpl in *. unfold current. simpl.
    destruct overlap; [exists s1; split_and!; [set_solver|done..]|].
    destruct clear; [exists s1; split_and!; [set_solver|done..]|].
    destruct (decide (n = 0)) as [->|Hn]; [|exists s1; split_and!; [set_solver|done..]].
    rewrite (Hc1 eq_refl eq_refl). destruct (Hov eq_refl) as [-> _].
    destruct (rebuilt_kept m _ _ Hre) as [Hm Hr]. exists next. split_and!; [set_solver|done..]. }
  split; simpl.
  - intros s1 [->|Hs1]%elem_of_cons; [|by apply I1]. eapply rebuilt_wf; [done|]. by apply I1.
  - set_solver.
  - destruct I3 as (s1 & Hs1 & Hb). destruct (Hcur s1 Hs1) as (s2 & Hs2 & Hm & _). exists s2.
    by rewrite Hm.
  - intros k l (s1 & tags & Hs1 & Ht & Hr)%I4. destruct (Hcur s1 Hs1) as (s2 & Hs2 & _ & Hr2).
    exists s2, tags. auto.
  - intros f Hf. eapply flight_ok_mono; [..|by apply I5]; simpl; [set_solver|].
    intros _ Hs Ho. destruct (Hov Ho) as [_ Hset]. rewrite Forall_forall in Hset. by destruct Hs; auto.
  - apply u64_wrap_range.
Qed.

Lemma inv_clear m env fs n n' seen :
  (n = n' ∨ n = S n') → mg_inv (mkSys (m, env) fs n seen) →
  mg_inv (mkSys (clear_routing_cache m, env) fs n' seen).
Proof.
  intros Hn [I1 I2 I3 I4 I5 I6]. simpl in *. split; simpl; try done.
  - exists (mg_runtime m). rewrite map_size_empty. split; [by split|lia].
  - intros f Hf. eapply flight_ok_mono; [..|by apply I5]; simpl; [done|]. intros _ _ _ ->.
    by destruct Hn as [<-|Hn].
Qed.

Lemma inv_store m env s ext hook key chosen pre post n seen :
  mg_inv (mkSys (m, env) (pre ++ Selecting s ext hook key [] chosen :: post) n seen) →
  mg_inv (mkSys (cache_store m (rs_route_cache_max_entries s) key chosen, env)
            (pre ++ Dispatched s ext hook chosen :: post) n seen).
Proof.
  intros Hinv. pose proof (inv_flights _ Hinv (Selecting s ext hook key [] chosen)) as Hf.
  simpl in Hf. destruct Hf as (Hc & Hok & Hz & config & tags & past & Hk & Hres & Hsel); [set_solver|].
  destruct (lookup_key_tags _ _ _ _ _ _ Hk) as (Ht & Hh & Htag & _).
  assert (resolves s key tags chosen) as Hrs.
  { destruct (lookup_key_spec _ _ _ _ _ _ Hk) as (meta & et & en & _ & Hcfg & Hr & _).
    exists config. rewrite Hh, Hres, app_nil_r. auto. }
  assert (mg_inv (mkSys (m, env) (pre ++ Dispatched s ext hook chosen :: post) n seen)) as Hinv'.
  { eapply inv_move; [exact Hinv|]. intros _. simpl. split; [done|]. destruct Hc as [Hin _]. exists s, tags.
    split_and!; [done|done|by left| |done]. by eapply dispatch_routed. }
  destruct Hinv' as [I1 I2 I3 I4 I5 I6]. simpl in *.
  destruct (cache_store_runtime m (rs_route_cache_max_entries s) key chosen) as [Er Eg].
  unfold current in *. simpl in *.
  assert (∀ f, f ∈ pre ++ Dispatched s ext hook chosen :: post →
    flight_ok (mkSys (cache_store m (rs_route_cache_max_entries s) key chosen, env)
                 (pre ++ Dispatched s ext hook chosen :: post) n seen) f) as I5'.
  { intros f Hf. eapply flights_kept; [..|by apply I5]; done. }
  split; unfold current; simpl; rewrite ?Er, ?Eg; try done; clear I5 I5'; unfold cache_store;
    destruct (Z.leb_spec (rs_route_cache_max_entries s) (Z.of_nat (size (mg_route_cache m))))
      as [Hle|Hlt]; simpl; try done.
  - exists s. split; [done|]. rewrite map_size_insert. unfold id. case_match; lia.
  - intros k l. rewrite lookup_insert_Some. intros [[<- <-]|[_ Hl]]; [|by apply I4].
    exists s, tags. auto.
Qed.

Lemma mg_step_inv y y' : mg_step y y' → mg_inv y → mg_inv y'.
Proof.
  intros Hs Hinv. destruct Hs.
  1-5: by eapply inv_same_core; [..|exact Hinv].
  - by eapply inv_publish.
  - by eapply inv_clear.
  - destruct Hinv as [I1 I2 I3 I4 I5 I6]. split; try done. simpl. intros f [->|Hf]%elem_of_cons.
    + simpl. split_and!; [by split|done|done].
    + eapply flights_kept; [..|by apply I5]; done.
  - eapply inv_move; [exact Hinv|]. simpl. intros (Hc & Hok & _). split; [done|]. destruct Hc as [Hin _].
    exists s, (request_tags extensions). split_and!; [done|done|by left|by apply dispatch_direct|done].
  - match goal with Hk : lookup_key _ _ _ = _, Hl : mg_route_cache _ !! _ = _ |- _ =>
      destruct (inv_cache _ Hinv _ _ Hl) as (s' & tags' & Hc' & Ht & Hr);
      destruct (lookup_key_tags _ _ _ _ _ _ Hk) as (_ & _ & _ & Hused) end.
    eapply inv_move; [exact Hinv|]. simpl. intros ([Hin Hc] & Hok & Hz). destruct Hc' as [Hin' Hc']. split; [done|].
    exists s', tags'. split_and!; [done|done|by apply Hused|by eapply dispatch_routed|].
    intros Ho. rewrite Hc', Hc; auto.
  - eapply inv_move; [exact Hinv|]. simpl. intros (Hc & Hok & Hz). split_and!; [done|done|done|].
    exists config, tags, []. split_and!; [done|done|constructor].
  - eapply inv_move; [exact Hinv|]. simpl. intros (Hc & Hok & Hz & config & tags & past & Hk & Hres & Hsel).
    split_and!; [done|done|done|]. exists config, tags, (past ++ [rp]).
    split_and!; [done|by rewrite <- app_assoc|]. apply selection_app; [done|apply select_one_selection].
  - by apply inv_store.
  - destruct Hinv as [I1 I2 I3 I4 I5 I6]. split; try done. simpl. intros f Hf.
    eapply flights_kept; [..|apply I5]; [done..|]. simpl. set_solver.
Qed.

Lemma mg_reachable_inv y : mg_reachable y → mg_inv y.
Proof.
  intros (st0 & Hinit & Hrun). assert (mg_inv (sys_init st0)) as Hst0.
  { assert (registry_wf (rs_registry (mg_runtime st0.1)) ∧ mg_route_cache st0.1 = ∅
      ∧ mg_generation st0.1 = 0%Z) as (Hwf & Hc & Hg).
    { destruct Hinit as [(config & ->)|(config & factories & env & E)].
      - split_and!; [apply registry_new_wf|done|done].
      - unfold from_config in E.
        destruct (instantiate_plugins_into _ _ _ _) as [[reg|e] env'] eqn:Ei; [|done].
        injection E as E _. rewrite <- E. split_and!; [|done|done].
        eapply instantiate_wf; [apply registry_new_wf|exact Ei]. }
    split; simpl; rewrite ?Hc, ?Hg; try lia.
    - by intros s ->%list_elem_of_singleton.
    - set_solver.
    - exists (mg_runtime st0.1). rewrite map_size_empty. split; [split; simpl; [set_solver|done]|lia].
    - intros k l. by rewrite lookup_empty.
    - by intros f ?%not_elem_of_nil. }
  clear Hinit. induction Hrun as [|y0 y1 y2 Hs _ IH]; [done|]. apply IH. by eapply mg_step_inv.
Qed.

(** *** The operations as runs *)

(** From [st] to [st'] by steps of its own, with nothing in flight before and
    after. *)
Definition runs st st' : Prop :=
  ∀ seen, mg_runtime st.1 ∈ seen →
    ∃ seen', mg_runtime st'.1 ∈ seen' ∧ rtc mg_step (mkSys st [] 0 seen) (mkSys st' [] 0 seen').

#[global] Instance runs_preorder : PreOrder runs.
Proof.
  split.
  - intros st seen Hs. by exists seen.
  - intros st1 st2 st3 H12 H23 seen Hs. destruct (H12 seen Hs) as (seen2 & Hs2 & R2).
    destruct (H23 seen2 Hs2) as (seen3 & Hs3 & R3). exists seen3. split; [done|]. by etrans.
Qed.

(** A step that publishes nothing. *)
Lemma runs_step m m' env env' :
  mg_runtime m' = mg_runtime m →
  (∀ seen, mg_step (mkSys (m, env) [] 0 seen) (mkSys (m', env') [] 0 seen)) →
  runs (m, env) (m', env').
Proof.
  intros Hr Hs seen Hin. exists seen. simpl in *. split; [by rewrite Hr|]. apply rtc_once, Hs.
Qed.

Lemma runs_env m env env' : runs (m, env) (m, env').
Proof. apply runs_step; [done|]. intros seen. apply step_env. Qed.

(** A change, and the clearing of the cache after it. *)
Lemma runs_publish m env next (clear : bool) :
  rebuilt m (mg_runtime m) next clear →
  let m' := bump_generation (set_runtime m next) in
  runs (m, env) (if clear then clear_routing_cache m' else m', env).
Proof.
  intros Hre m' seen Hin. exists (next :: seen). simpl in Hin.
  split; [destruct clear; simpl; set_solver|].
  eapply rtc_l; [by apply (step_publish m env (mg_runtime m) next clear)|].
  destruct clear; [|done]. apply rtc_once, step_clear. by right.
Qed.

Lemma load_config_runs config st : runs st (load_config config st).2.
Proof.
  destruct st as [m env]. simpl.
  destruct (instantiate_plugins_into _ _ _ _) as [[reg|e] env'] eqn:E; simpl; [|apply runs_env].
  etrans; [apply (runs_env m env env')|].
  apply (runs_publish m env' _ true). by eapply rebuilt_load.
Qed.

Lemma register_named_runs plugin config handler names st :
  runs st (register_named plugin config handler names st).2.
Proof.
  destruct st as [m env]. simpl. destruct (alloc env) as [[id cell] env']. unfold try_mutate_runtime.
  destruct (register_for_names_inner _ _ _ _ _ _ _) as [[[]|msg] reg] eqn:E; simpl; [|done].
  etrans; [apply (runs_env m env env')|].
  apply (runs_publish m env' _ true). by eapply rebuilt_named.
Qed.

Lemma unregister_runs name m env : runs (m, env) ((manager_unregister name m).2, env).
Proof.
  unfold manager_unregister, mutate_runtime.
  destruct (unregister (rs_registry (mg_runtime m)) name) as [[r|] reg] eqn:E; simpl.
  - assert (reg = (unregister (rs_registry (mg_runtime m)) name).2) as -> by (by rewrite E).
    apply (runs_publish m env _ true), (rebuilt_remove _ _ _ r). by rewrite E.
  - assert (reg = (unregister (rs_registry (mg_runtime m)) name).2) as -> by (by rewrite E).
    apply (runs_publish m env _ false), rebuilt_remove_none. by rewrite E.
Qed.

Lemma annotate_route_runs et en scope hook plugin handler config st :
  runs st (annotate_route et en scope hook plugin handler config st).
Proof.
  destruct st as [m env]. simpl. destruct (alloc env) as [[id cell] env'].
  etrans; [apply (runs_env m env env')|].
  apply (runs_publish m env' _ false), rebuilt_annotations.
Qed.

Lemma remove_annotation_runs et en scope hook m env :
  runs (m, env) (remove_route_annotation et en scope hook m, env).
Proof. apply (runs_publish m env _ false), rebuilt_annotations. Qed.

Lemma initialize_runs st : runs st (initialize st).2.
Proof.
  destruct st as [m env]. simpl. destruct (mg_initialized m); [done|].
  destruct (init_loop _ _ _ _) as [[[]|e] w]; simpl; [|apply runs_env].
  etrans; [apply runs_env|]. apply runs_step; [done|]. intros seen. apply step_initialized.
Qed.

Lemma shutdown_runs st : runs st (shutdown st).
Proof.
  destruct st as [m env]. unfold shutdown. destruct (mg_initialized m); simpl; [|done].
  etrans; [apply runs_env|]. etrans; [apply runs_step; [|intros seen; apply step_tasks]|]; [done|].
  apply runs_step; [done|]. intros seen. apply step_initialized.
Qed.

Lemma run_entries_runs config entries payload ext table st :
  runs st (run_entries config entries payload ext table st).2.
Proof.
  destruct st as [m env]. unfold run_entries. destruct (execute _ _ _ _ _ _ _) as [[[r tasks] flags] w].
  etrans; [apply runs_env|]. apply runs_step; [done|]. intros seen. apply step_tasks.
Qed.

Lemma select_steps s ext hook key resolved chosen m env n seen :
  let sel := select_entries m (entries_for_hook (rs_registry s) hook) resolved env in
  rtc mg_step (mkSys (m, env) [Selecting s ext hook key resolved chosen] n seen)
    (mkSys (m, sel.2) [Selecting s ext hook key [] (chosen ++ sel.1)] n seen).
Proof.
  revert env chosen. induction resolved as [|rp resolved IH]; intros env chosen.
  { simpl. by rewrite app_nil_r. }
  rewrite select_entries_cons. eapply rtc_l; [apply (step_select _ _ _ _ _ _ _ _ _ [] [])|].
  cbn zeta. simpl. rewrite app_assoc. apply IH.
Qed.

Lemma filter_runs ext hook st :
  request_ok ext hook →
  runs st (filter_entries_by_route (mg_runtime st.1)
             (entries_for_hook (rs_registry (mg_runtime st.1)) hook) ext hook st).2.
Proof.
  intros Hok seen Hin. destruct st as [m env]. rewrite filter_entries_eq. simpl in *.
  destruct (lookup_key (mg_runtime m) ext hook) as [[[config key] tags]|] eqn:Ek;
    [destruct (mg_route_cache m !! key) as [l|] eqn:El|]; simpl.
  - exists seen. split; [done|]. eapply rtc_l; [by apply step_invoke|].
    eapply rtc_l; [by apply (step_hit _ _ _ _ _ _ _ _ _ [] [] _ _ Ek El)|].
    apply rtc_once, (step_leave _ _ _ _ _ _ [] []).
  - exists seen. destruct (cache_store_runtime m (rs_route_cache_max_entries (mg_runtime m)) key
      (select_entries m (entries_for_hook (rs_registry (mg_runtime m)) hook)
         (resolve_key config key tags) env).1) as [-> _]. split; [done|].
    eapply rtc_l; [by apply step_invoke|].
    eapply rtc_l; [by apply (step_miss _ _ _ _ _ _ _ _ [] [] _ _ Ek El)|].
    etrans; [apply select_steps|]. eapply rtc_l; [apply (step_store _ _ _ _ _ _ _ [] [])|].
    apply rtc_once, (step_leave _ _ _ _ _ _ [] []).
  - exists seen. split; [done|]. eapply rtc_l; [by apply step_invoke|].
    eapply rtc_l; [by apply (step_direct _ _ _ _ _ [] [] _ _ Ek)|].
    apply rtc_once, (step_leave _ _ _ _ _ _ [] []).
Qed.

(** An invocation that nothing interleaves with is its steps in a row. *)
Lemma invoke_hook_runs hook payload ext table st :
  request_ok ext hook → runs st (invoke_hook hook payload ext table st).2.
Proof.
  intros Hok. unfold invoke_hook. destruct (is_nil _ && is_nil _); [done|].
  pose proof (filter_runs ext hook st Hok) as Hf.
  destruct (filter_entries_by_route _ _ _ _ _) as [l st1]. simpl in Hf.
  destruct (is_nil l); [done|]. etrans; [exact Hf|]. apply run_entries_runs.
Qed.

Lemma runs_reachable st st' seen :
  runs st st' → mg_reachable (mkSys st [] 0 seen) → ∃ seen', mg_reachable (mkSys st' [] 0 seen').
Proof.
  intros Hr Hy. pose proof (inv_seen _ (mg_reachable_inv _ Hy)) as Hin. simpl in Hin.
  destruct (Hr seen Hin) as (seen' & _ & R). exists seen'. destruct Hy as (st0 & Hi & R0).
  exists st0. split; [done|]. by etrans.
Qed.

End Steps.

(** ** Properties *)

Section Properties.
Context {P H F V Pay W : Type}.
Context `{HookHandler H Pay W} `{Timer W} `{Runtime W}.
Context `{PluginFactory F P H W} `{Plugin P W} `{HookTypeName H} `{UuidSource W}.
Context `{TaskRuntime H Pay W} `{YamlToJson} `{YamlLib} `{SerdeConfig} `{WildMatch} `{order : HashOrder}.

Abbreviation Manager := (PluginManager P H F V Pay).
Abbreviation Snapshot := (RuntimeSnapshot P H).
Abbreviation Entry := (HookEntry P H).
Abbreviation State := (Manager * Env W)%type.
Abbreviation System := (Sys (P := P) (H := H) (F := F) (V := V) (Pay := Pay) (W := W)).
Implicit Types m : Manager.
Implicit Types st : State.

(** *** The cache refines resolution *)

(** C3: the route cache refines uncached resolution, under any interleaving of
    invocations, configuration changes and cache clearings in which the request
    tags depend only on the entity, the hook and the scope.  The entries
    dispatched for an invocation that loaded the snapshot [s] are the ones a
    manager without a cache would dispatch: the annotated handler of [s] if there
    is one, else, if [s] routes the request, the plugins resolved for the entity
    that are registered for the hook, in resolution order, each as registered or
    as an instance with its overrides merged in, else the entries of [s] whose
    conditions pass.  The resolution is that of some snapshot published in the
    run, and that of [s] itself if the configuration never changes while an
    invocation is being resolved. *)
Theorem cache_refines_resolution (tags_of : RouteCacheKey → gset string) overlap
    (y : System) s ext hook l :
  mg_reachable (λ k tags, tags = tags_of k) overlap y →
  Dispatched s ext hook l ∈ sy_flights y →
  ∃ s', s' ∈ sy_seen y ∧ dispatch_spec s s' ext hook (request_tags ext) l
    ∧ (overlap = false → s' = s).
Proof.
  intros Hr%mg_reachable_inv (Hok & s' & tags & _ & Hs' & Ht & Hd & Ho)%(inv_flights _ _ _ Hr).
  exists s'. split_and!; [done| |done]. assert (tags = request_tags ext) as <-; [|done].
  destruct Ht as [->|(meta & et & en & Em & Et & En & ->)]; [done|].
  unfold request_tags. rewrite Em. symmetry. by apply (Hok meta et en).
Qed.

(** The identity hook is cached exactly: its resolution does not look at
    the request's tags, so whatever tags earlier requests carried, the entries
    dispatched for it are those of uncached resolution. *)
Theorem identity_cache_exact overlap (y : System) s ext l :
  mg_reachable (λ _ _, True) overlap y →
  Dispatched s ext HOOK_IDENTITY_RESOLVE l ∈ sy_flights y →
  ∃ s', s' ∈ sy_seen y ∧ dispatch_spec s s' ext HOOK_IDENTITY_RESOLVE (request_tags ext) l
    ∧ (overlap = false → s' = s).
Proof.
  intros Hr%mg_reachable_inv (Hok & s' & tags & _ & Hs' & Ht & Hd & Ho)%(inv_flights _ _ _ Hr).
  exists s'. by split_and!.
Qed.

(** A cached key answers every later request with the same key, whatever its
    tags. *)
Lemma cached_answer s entries ext hook st config meta et en l :
  annotated_entry s ext hook = None → rs_cpex_config s = Some config →
  routing_enabled config = true → arc_val <$> x_meta ext = Some meta →
  mt_entity_type meta = Some et → mt_entity_name meta = Some en →
  mg_route_cache st.1 !! mkCacheKey et en hook (mt_scope meta) = Some l →
  filter_entries_by_route s entries ext hook st = (l, st).
Proof.
  intros Ha Hc Hr Hm Ht Hn Hk. unfold filter_entries_by_route. by rewrite Ha, Hc, Hr, Hm, Ht, Hn, Hk.
Qed.

(** A cache miss with room is stored. *)
Lemma miss_is_stored s entries ext hook st config meta et en :
  annotated_entry s ext hook = None → rs_cpex_config s = Some config →
  routing_enabled config = true → arc_val <$> x_meta ext = Some meta →
  mt_entity_type meta = Some et → mt_entity_name meta = Some en →
  mg_route_cache st.1 !! mkCacheKey et en hook (mt_scope meta) = None →
  (Z.of_nat (routing_cache_size st.1) < rs_route_cache_max_entries s)%Z →
  let '(l, st') := filter_entries_by_route s entries ext hook st in
  mg_route_cache st'.1 !! mkCacheKey et en hook (mt_scope meta) = Some l
  ∧ selection entries (resolve_for_hook config et en (mt_scope meta) (mt_tags meta) hook) l.
Proof.
  intros Ha Hc Hr Hm Ht Hn Hk Hroom. unfold filter_entries_by_route.
  rewrite Ha, Hc, Hr, Hm, Ht, Hn, Hk.
  pose proof (select_entries_selection st.1 entries
    (resolve_for_hook config et en (mt_scope meta) (mt_tags meta) hook) st.2) as Hsel.
  destruct (select_entries _ _ _ _) as [l env]. simpl in *. split; [|done]. unfold cache_store.
  unfold routing_cache_size in Hroom. rewrite (proj2 (Z.leb_gt _ _)) by done. simpl.
  apply lookup_insert_eq.
Qed.

(** A request that still holds the snapshot from before a configuration was
    loaded can put its answer into the cache after the load has cleared it, and
    requests under the new configuration are then served that answer. *)
Theorem stale_snapshot_poisons_cache old new entries entries' ext hook st config config' meta et en :
  annotated_entry old ext hook = None → annotated_entry new ext hook = None →
  rs_cpex_config old = Some config → rs_cpex_config new = Some config' →
  routing_enabled config = true → routing_enabled config' = true →
  arc_val <$> x_meta ext = Some meta →
  mt_entity_type meta = Some et → mt_entity_name meta = Some en →
  mg_route_cache st.1 = ∅ → (0 < rs_route_cache_max_entries old)%Z →
  let '(l, st') := filter_entries_by_route old entries ext hook st in
  filter_entries_by_route new entries' ext hook st' = (l, st')
  ∧ selection entries (resolve_for_hook config et en (mt_scope meta) (mt_tags meta) hook) l.
Proof.
  intros Ha Ha' Hc Hc' Hr Hr' Hm Ht Hn Hempty Hroom.
  pose proof (miss_is_stored old entries ext hook st config meta et en Ha Hc Hr Hm Ht Hn) as Hs.
  unfold routing_cache_size in Hs. rewrite Hempty, lookup_empty, map_size_empty in Hs.
  specialize (Hs eq_refl Hroom).
  destruct (filter_entries_by_route old entries ext hook st) as [l st'].
  destruct Hs as [Hk Hsel]. split; [|done]. by eapply cached_answer.
Qed.

(** *** Bounds and generation *)

(** C22: whatever requests arrive and however they interleave with configuration
    changes, the route cache never holds more entries than a published snapshot
    allows; and not more than the current one allows, once the cache has been
    cleared for it, if the configuration never changes while an invocation is
    being resolved (an invocation that still holds the snapshot from before a
    change goes by the limit of that one: [stale_limit_exceeded]). *)
Theorem route_cache_bounded tagged overlap (y : System) :
  mg_reachable tagged overlap y →
  ∃ s, s ∈ sy_seen y
    ∧ (routing_cache_size (sy_st y).1 ≤ Z.to_nat (rs_route_cache_max_entries s))%nat
    ∧ (overlap = false → sy_clearing y = 0 → s = mg_runtime (sy_st y).1).
Proof. intros [_ _ (s & [Hs Hc] & Hb) _ _ _]%mg_reachable_inv. by exists s. Qed.

(** Each step publishes nothing, or publishes and bumps once. *)
Lemma mg_step_generation tagged overlap (y y' : System) :
  mg_step tagged overlap y y' →
  (mg_runtime (sy_st y').1 = mg_runtime (sy_st y).1
   ∧ mg_generation (sy_st y').1 = mg_generation (sy_st y).1)
  ∨ mg_generation (sy_st y').1 = u64_wrap (mg_generation (sy_st y).1 + 1).
Proof.
  intros Hs. destruct Hs; simpl; try (by left); [by right|]. left. apply cache_store_runtime.
Qed.

Lemma mg_steps_generation tagged overlap n (y y' : System) :
  nsteps (mg_step tagged overlap) n y y' → (0 ≤ mg_generation (sy_st y).1 < 2 ^ 64)%Z →
  ∃ k, (0 ≤ k ≤ Z.of_nat n)%Z
    ∧ mg_generation (sy_st y').1 = u64_wrap (mg_generation (sy_st y).1 + k)
    ∧ (k = 0%Z → mg_runtime (sy_st y').1 = mg_runtime (sy_st y).1).
Proof.
  intros Hn. induction Hn as [y|n y1 y2 y3 Hs Hn IH]; intros Hg.
  { exists 0%Z. split_and!; [lia|lia| |done]. unfold u64_wrap. rewrite Z.add_0_r, Z.mod_small; lia. }
  pose proof (mg_step_generation tagged overlap _ _ Hs) as Hstep.
  assert (0 ≤ mg_generation (sy_st y2).1 < 2 ^ 64)%Z as Hg2.
  { destruct Hstep as [[_ ->]| ->]; [done|apply u64_wrap_range]. }
  destruct (IH Hg2) as (k & Hk & Ek & Hr). destruct Hstep as [[Er Eg]|Eg].
  - exists k. rewrite Ek, Eg. split_and!; [lia|lia|done|]. intros Hz. by rewrite Hr.
  - exists (1 + k)%Z. rewrite Ek, Eg. split_and!; [lia|lia| |lia]. unfold u64_wrap.
    rewrite Zplus_mod_idemp_l. f_equal. lia.
Qed.

(** A counter of 64 bits does not return to a value in fewer than 2^64 bumps. *)
Lemma wrap_no_repeat g k :
  (0 ≤ g < 2 ^ 64)%Z → (0 ≤ k < 2 ^ 64)%Z → u64_wrap (g + k) = g → k = 0%Z.
Proof.
  unfold u64_wrap. intros Hg Hk Heq. destruct (decide (g + k < 2 ^ 64)%Z) as [Hs|Hb].
  - rewrite Z.mod_small in Heq; lia.
  - replace (g + k)%Z with (g + k - 2 ^ 64 + 1 * 2 ^ 64)%Z in Heq by lia.
    rewrite Z.mod_add in Heq by lia. rewrite Z.mod_small in Heq; lia.
Qed.

(** The generation counter identifies the published snapshot: over any run
    of fewer than 2^64 steps, if the generation read at the end is the one
    read at the start then the snapshot is the same, so a value derived from
    the snapshot and stored with the generation is current when the generations
    agree. *)
Theorem generation_identifies_snapshot tagged overlap (y y' : System) n :
  mg_reachable tagged overlap y → nsteps (mg_step tagged overlap) n y y' →
  (Z.of_nat n < 2 ^ 64)%Z →
  config_generation (sy_st y').1 = config_generation (sy_st y).1 →
  mg_runtime (sy_st y').1 = mg_runtime (sy_st y).1.
Proof.
  unfold config_generation. intros Hr%mg_reachable_inv Hn Hlt Heq.
  pose proof (inv_generation _ _ _ Hr) as Hg.
  destruct (mg_steps_generation tagged overlap n y y' Hn Hg) as (k & Hk & Ek & Hrt).
  apply Hrt, (wrap_no_repeat (mg_generation (sy_st y).1)); [done|lia|congruence].
Qed.

(** *** Loading a configuration *)

Lemma register_multi_ok (r r' : PluginRegistry P H) plugin config id cell handlers :
  register_multi_handler r plugin config id cell handlers = (Ok tt, r') →
  registry_get r (pcf_name config) = None
  ∧ registry_get r' (pcf_name config) = Some (plugin_ref_new plugin config id cell)
  ∧ ∀ n, n ≠ pcf_name config → registry_get r' n = registry_get r n.
Proof.
  unfold register_multi_handler, registry_get. destruct (rg_plugins r !! pcf_name config); [done|].
  intros [= <-]. simpl. split_and!; [done|apply lookup_insert_eq|].
  intros n Hn. by rewrite lookup_insert_ne.
Qed.

(** What a successful instantiation leaves in the registry. *)
Lemma instantiate_spec reg configs (factories : gmap string F) (env : Env W) reg' env' :
  instantiate_plugins_into reg configs factories env = (Ok reg', env') →
  NoDup (pcf_name <$> configs)
  ∧ (∀ c, c ∈ configs → registry_get reg (pcf_name c) = None
       ∧ ∃ r, registry_get reg' (pcf_name c) = Some r ∧ pr_trusted_config r = c)
  ∧ (∀ n, (n ∉ (pcf_name <$> configs)) → registry_get reg' n = registry_get reg n).
Proof.
  revert reg env. induction configs as [|c configs IH]; intros reg env; simpl.
  { intros [= <- <-]. split_and!; [constructor|by intros c ?%not_elem_of_nil|done]. }
  destruct (factories !! _) as [f|]; [|done].
  destruct (factory_create _ _ _) as [[inst|e] w]; [|done].
  destruct (alloc _) as [[id cell] env1].
  destruct (register_multi_handler _ _ _ _ _ _) as [[[]|msg] reg1] eqn:E; [|done].
  intros (Hnd & Hin & Hout)%IH. apply register_multi_ok in E as (Hnone & Hsome & Hothers).
  assert (pcf_name c ∉ (pcf_name <$> configs)) as Hc.
  { intros (c' & Hc' & Hc'in)%list_elem_of_fmap. destruct (Hin c' Hc'in) as [Hn _].
    rewrite <- Hc' in Hn. congruence. }
  split_and!.
  - by constructor.
  - intros c' [->|Hc']%elem_of_cons.
    + split; [done|]. rewrite Hout by done. by eexists.
    + destruct (Hin c' Hc') as [Hn Hr]. split; [|done]. rewrite <- Hothers; [done|].
      intros Heq. apply Hc. rewrite <- Heq. by apply list_elem_of_fmap_2.
  - intros n Hn. rewrite Hout by set_solver. apply Hothers. set_solver.
Qed.

(** Loading a configuration is all or nothing for the manager: if any
    plugin has no factory, fails to be created or reuses a name, nothing of the
    manager changes; otherwise every declared plugin is registered under its
    name with its own configuration, the plugins already there stay, the
    executor settings and the cache limit are the new ones, the route cache is
    empty, the route annotations are gone and the generation has moved. *)
Theorem load_config_atomic config m env :
  let '(res, (m', _)) := load_config config (m, env) in
  match res with
  | Err _ => m' = m
  | Ok _ =>
      let s := mg_runtime m' in
      NoDup (pcf_name <$> cx_plugins config)
      ∧ (∀ c, c ∈ cx_plugins config →
           get_plugin m (pcf_name c) = None
           ∧ ∃ r, get_plugin m' (pcf_name c) = Some r ∧ pr_trusted_config r = c)
      ∧ (∀ n, (n ∉ (pcf_name <$> cx_plugins config)) → get_plugin m' n = get_plugin m n)
      ∧ rs_cpex_config s = Some config
      ∧ xc_timeout_seconds (rs_executor s) = ps_plugin_timeout (cx_settings config)
      ∧ rs_route_cache_max_entries s = ps_route_cache_max_entries (cx_settings config)
      ∧ mg_route_cache m' = ∅ ∧ rs_route_annotations s = ∅
      ∧ mg_generation m' = u64_wrap (mg_generation m + 1)
      ∧ mg_initialized m' = mg_initialized m
  end.
Proof.
  simpl. destruct (instantiate_plugins_into _ _ _ _) as [[reg|e] env'] eqn:E; simpl; [|done].
  destruct (instantiate_spec _ _ _ _ _ _ E) as (Hnd & Hin & Hout). by split_and!.
Qed.

(** A configuration with plugins cannot be loaded a second time: the names
    it registered are taken, so the reload is refused and changes nothing. *)
Theorem reload_refused config st st' :
  load_config config st = (Ok tt, st') → cx_plugins config ≠ [] →
  ∃ e, (load_config config st').1 = Err e ∧ (load_config config st').2.1 = st'.1.
Proof.
  intros Hl Hne. destruct st as [m env]. unfold load_config in Hl.
  destruct (instantiate_plugins_into _ _ _ _) as [[reg|e] env1] eqn:E1; [|done].
  injection Hl as <-. simpl.
  destruct (instantiate_plugins_into reg _ _ _) as [[reg2|e] env2] eqn:E2; [|by exists e].
  exfalso. apply instantiate_spec in E1 as (_ & Hin1 & _). apply instantiate_spec in E2 as (_ & Hin2 & _).
  destruct (cx_plugins config) as [|c cs]; [done|].
  destruct (Hin1 c) as (_ & r & Hr & _); [by left|]. destruct (Hin2 c) as [Hn _]; [by left|].
  congruence.
Qed.

(** *** Lifecycle *)

(** The calls made on plugins, by name. *)
Inductive LifecycleCall := CallInitialize (name : string) | CallShutdown (name : string).

Definition run_call (registry : PluginRegistry P H) (w : W) (c : LifecycleCall) : W :=
  match c with
  | CallInitialize name =>
      match registry_get registry name with
      | Some r => (plugin_initialize (pr_plugin r) w).2
      | None => w
      end
  | CallShutdown name =>
      match registry_get registry name with
      | Some r => (plugin_shutdown (pr_plugin r) w).2
      | None => w
      end
  end.

Definition run_calls (registry : PluginRegistry P H) (cs : list LifecycleCall) (w : W) : W :=
  foldl (run_call registry) w cs.

Lemma shutdown_each_calls registry names (w : W) :
  shutdown_each registry names w = run_calls registry (CallShutdown <$> names) w.
Proof.
  revert w. induction names as [|n names IH]; intros w; [done|]. simpl.
  destruct (registry_get registry n); rewrite IH; done.
Qed.

Lemma plugin_names_registered (registry : PluginRegistry P H) name :
  name ∈ plugin_names registry ↔ is_Some (registry_get registry name).
Proof.
  unfold plugin_names, registry_get. rewrite list_elem_of_fmap. split.
  - intros ([n r] & -> & Hin). rewrite map_iter_perm, elem_of_map_to_list in Hin. by eexists.
  - intros [r Hr]. exists (name, r). split; [done|]. by rewrite map_iter_perm, elem_of_map_to_list.
Qed.

Lemma plugin_names_nodup (registry : PluginRegistry P H) : NoDup (plugin_names registry).
Proof. unfold plugin_names. rewrite map_iter_perm. apply NoDup_fst_map_to_list. Qed.

Lemma init_loop_spec registry names done (w : W) :
  let '(res, w') := init_loop registry names done w in
  match res with
  | Ok _ => w' = run_calls registry (CallInitialize <$> names) w
  | Err e => ∃ pre bad post e0, names = pre ++ bad :: post ∧ e = init_error bad e0
      ∧ is_Some (registry_get registry bad)
      ∧ w' = run_calls registry
          ((CallInitialize <$> pre) ++ CallInitialize bad
             :: (CallShutdown <$> reverse (done ++ filter (λ n, is_Some (registry_get registry n)) pre)))
          w
  end.
Proof.
  revert done w. induction names as [|n names IH]; intros done0 w; simpl; [done|].
  destruct (registry_get registry n) as [r|] eqn:Er.
  - destruct (plugin_initialize (pr_plugin r) w) as [[[]|e] w1] eqn:Ei.
    + specialize (IH (done0 ++ [n]) w1).
      destruct (init_loop registry names (done0 ++ [n]) w1) as [[[]|e'] w2].
      * rewrite IH. done.
      * destruct IH as (pre & bad & post & e0 & -> & -> & Hb & ->).
        exists (n :: pre), bad, post, e0. split_and!; [done|done|done|].
        rewrite filter_cons, decide_True by (by rewrite Er). simpl. rewrite Er, Ei. simpl.
        by rewrite <- app_assoc.
    + exists [], n, names, e. split_and!; [done|done|by rewrite Er|].
      simpl. rewrite Er, Ei, filter_nil, app_nil_r. apply shutdown_each_calls.
  - specialize (IH done0 w). destruct (init_loop registry names done0 w) as [[[]|e'] w2]; [done|].
    destruct IH as (pre & bad & post & e0 & -> & -> & Hb & ->).
    exists (n :: pre), bad, post, e0. split_and!; [done|done|done|].
    rewrite filter_cons, decide_False by (rewrite Er; by intros []). simpl. by rewrite Er.
Qed.

(** Initialisation is all or nothing: every registered plugin is
    initialised once, or, when one fails, exactly the plugins initialised
    before it are shut down again, in reverse order, the error names the
    failing plugin and the manager stays uninitialised; initialising twice does
    nothing. *)
Theorem initialize_rolls_back m env :
  let registry := rs_registry (mg_runtime m) in
  let '(res, (m', env')) := initialize (m, env) in
  if mg_initialized m then res = Ok tt ∧ m' = m ∧ env' = env
  else
    ∃ names, NoDup names ∧ (∀ n, n ∈ names ↔ is_Some (get_plugin m n))
    ∧ match res with
      | Ok _ => m' = set_initialized m true
          ∧ en_world env' = run_calls registry (CallInitialize <$> names) (en_world env)
      | Err e => m' = m ∧ ∃ pre bad post e0, names = pre ++ bad :: post ∧ e = init_error bad e0
          ∧ en_world env' = run_calls registry
              ((CallInitialize <$> pre) ++ CallInitialize bad :: (CallShutdown <$> reverse pre))
              (en_world env)
      end.
Proof.
  simpl. destruct (mg_initialized m); [done|].
  pose proof (init_loop_spec (rs_registry (mg_runtime m)) (plugin_names (rs_registry (mg_runtime m)))
    [] (en_world env)) as Hl.
  pose proof (plugin_names_registered (rs_registry (mg_runtime m))) as Hreg.
  pose proof (plugin_names_nodup (rs_registry (mg_runtime m))) as Hnd.
  destruct (init_loop _ _ _ _) as [[[]|e] w]; simpl;
    exists (plugin_names (rs_registry (mg_runtime m))); split_and!; try done.
  destruct Hl as (pre & bad & post & e0 & Hn & He & Hb & Hw).
  exists pre, bad, post, e0. split_and!; [done|done|]. rewrite Hw. simpl.
  rewrite filter_every; [done|]. intros x Hx. apply Hreg. rewrite Hn. set_solver.
Qed.

(** Shutdown first waits for every tracked background task, then shuts down
    every registered plugin once, whatever the plugins answer, and leaves no
    tracked task and the manager uninitialised; on an uninitialised manager it
    does nothing. *)
Theorem shutdown_drains_then_stops m env :
  let '(m', env') := shutdown (m, env) in
  if mg_initialized m then
    mg_initialized m' = false ∧ mg_tasks m' = [] ∧ mg_runtime m' = mg_runtime m
    ∧ ∃ names, NoDup names ∧ (∀ n, n ∈ names ↔ is_Some (get_plugin m n))
      ∧ en_world env' = run_calls (rs_registry (mg_runtime m)) (CallShutdown <$> names)
          (drain_tasks (mg_tasks m) (en_world env))
  else m' = m ∧ env' = env.
Proof.
  unfold shutdown. destruct (mg_initialized m); simpl; [|done]. split_and!; [done|done|done|].
  eexists. split_and!; [apply plugin_names_nodup|apply plugin_names_registered|].
  apply shutdown_each_calls.
Qed.

(** *** Annotations *)

(** An annotation takes over the hook it names for its entity: a request
    with a scope gets the handler annotated for that scope, else the one
    annotated without a scope; a request without a scope never gets a scoped
    one; and no route, condition or cached answer is consulted. *)
Theorem annotation_precedence m env ext hook meta et en entry :
  arc_val <$> x_meta ext = Some meta →
  mt_entity_type meta = Some et → mt_entity_name meta = Some en →
  let a := rs_route_annotations (mg_runtime m) in
  match mt_scope meta with
  | Some s => a !! mkAnnotationKey et en (Some s) hook = Some entry
      ∨ a !! mkAnnotationKey et en (Some s) hook = None
        ∧ a !! mkAnnotationKey et en None hook = Some entry
  | None => a !! mkAnnotationKey et en None hook = Some entry
  end →
  filter_entries_by_route (mg_runtime m) (entries_for_hook (rs_registry (mg_runtime m)) hook) ext
    hook (m, env) = ([entry], (m, env)).
Proof.
  intros Hm Ht Hn a Ha. unfold filter_entries_by_route.
  assert (annotated_entry (mg_runtime m) ext hook = Some entry) as ->; [|done].
  unfold annotated_entry. rewrite Hm, Ht, Hn.
  destruct (mt_scope meta) as [s|]; simpl; [|exact Ha].
  subst a. by destruct Ha as [->|[-> Ha]].
Qed.

(** *** Invocation *)

(** Only plugins the manager knows can deny: whatever has been registered,
    loaded, removed, annotated and cached before and meanwhile, a denial names a
    plugin registered in a published snapshot, that of the invocation if changes
    do not overlap with resolutions, or the handler of a route annotation. *)
Theorem invoke_denial_known tagged overlap (y : System) s ext hook l config payload table st v :
  mg_reachable tagged overlap y → Dispatched s ext hook l ∈ sy_flights y →
  pr_violation (run_entries config l payload ext table st).1 = Some v →
  ∃ name, vi_plugin_name v = Some name
    ∧ ((∃ s', s' ∈ sy_seen y ∧ is_Some (registry_get (rs_registry s') name)
          ∧ (overlap = false → s' = s))
       ∨ ∃ k e, rs_route_annotations s !! k = Some e ∧ pr_name (he_plugin_ref e) = name).
Proof.
  intros Hr%mg_reachable_inv (_ & s' & tags & Hs & Hs' & _ & Hd & Ho)%(inv_flights _ _ _ Hr).
  unfold run_entries. destruct st as [m1 env1].
  pose proof (execute_denied_by config l payload ext table (en_flags env1)
    (en_world env1) v) as Hden.
  destruct (execute _ _ _ _ _ _ _) as [[[r tasks] flags] w]. simpl in *. intros Hv.
  destruct (Hden Hv) as (e & Hin & _ & Hname). exists (pr_name (he_plugin_ref e)). split; [done|].
  assert (∀ s0 e0, s0 ∈ sy_seen y → e0 ∈ entries_for_hook (rs_registry s0) hook →
    is_Some (registry_get (rs_registry s0) (pr_name (he_plugin_ref e0)))) as Hreg.
  { intros s0 e0 Hs0. unfold entries_for_hook, registry_get.
    destruct (rg_hook_index _ !! hook) as [es|] eqn:Eh; simpl; [|by intros ?%not_elem_of_nil].
    intros He0. eexists. by eapply (wf_entries _ (inv_registry _ _ _ Hr _ Hs0)). }
  unfold dispatch_spec in Hd. destruct (annotated_entry _ _ _) as [ea|] eqn:Ea.
  { subst l. apply list_elem_of_singleton in Hin as ->. right. unfold annotated_entry in Ea.
    repeat case_match; try done. unfold or_else in Ea. case_match; [|by eauto].
    destruct (mt_scope _) as [sc|]; simplify_eq/=. eauto. }
  left. destruct (rs_cpex_config s) as [cfg|].
  2: { subst l. apply list_elem_of_filter in Hin as [_ Hin]. exists s. auto. }
  destruct (routing_enabled cfg).
  2: { subst l. apply list_elem_of_filter in Hin as [_ Hin]. exists s. auto. }
  repeat case_match; try (subst l; exists s; by auto).
  destruct Hd as (cfg' & _ & _ & Hd). simpl in Hd.
  destruct (selection_names _ _ _ _ Hd Hin) as (e0 & He0 & -> & _). exists s'. auto.
Qed.

(** *** Overrides *)

(** Overriding only the error policy or the capabilities of a plugin keeps the
    plugin object and its handlers, hook by hook, and gives them one new
    reference with its own id and circuit breaker. *)
Theorem narrow_override_shares_plugin m name caps oe env :
  is_none caps && is_none oe = false →
  let base := find_plugin_entries m name in
  let '(l, env') := build_override_entries m name None caps oe env in
  map (λ p, (p.1, he_handler p.2)) l = map (λ p, (p.1, he_handler p.2)) base
  ∧ ∀ h0 e0 rest, base = (h0, e0) :: rest →
      ∃ id, ∀ h e, (h, e) ∈ l →
        pr_plugin (he_plugin_ref e) = pr_plugin (he_plugin_ref e0)
        ∧ pr_id (he_plugin_ref e) = id ∧ pr_disabled (he_plugin_ref e) = en_cells env
        ∧ pcf_capabilities (pr_trusted_config (he_plugin_ref e))
          = default (pcf_capabilities (pr_trusted_config (he_plugin_ref e0))) caps
        ∧ pcf_on_error (pr_trusted_config (he_plugin_ref e))
          = default (pcf_on_error (pr_trusted_config (he_plugin_ref e0))) oe.
Proof.
  intros Hover base. unfold build_override_entries. fold base.
  destruct base as [|[h0 e0] rest] eqn:Eb; [done|]. simpl. rewrite Hover.
  unfold alloc. destruct (new_v4 (en_world env)) as [id w]. split.
  - simpl. f_equal. by rewrite map_map.
  - intros h1 e1 rest1 [= <- <- <-]. exists id. intros h e Hin.
    assert (∃ r, he_plugin_ref e = plugin_ref_new (pr_plugin (he_plugin_ref e0)) r id (en_cells env)
      ∧ pcf_capabilities r = default (pcf_capabilities (pr_trusted_config (he_plugin_ref e0))) caps
      ∧ pcf_on_error r = default (pcf_on_error (pr_trusted_config (he_plugin_ref e0))) oe)
      as (r & -> & Hc & Ho).
    { apply elem_of_cons in Hin as [[= -> ->]|Hin].
      - eexists. split; [done|]. by destruct caps, oe.
      - apply list_elem_of_In, in_map_iff in Hin as (q & [= <- <-] & _).
        eexists. split; [done|]. by destruct caps, oe. }
    by split_and!.
Qed.

End Properties.

(** ** Loading from YAML *)

Section Yaml.
Context {P H F V Pay W : Type}.
Context `{HookHandler H Pay W} `{Timer W} `{Runtime W}.
Context `{PluginFactory F P H W} `{Plugin P W} `{HookTypeName H} `{UuidSource W}.
Context `{TaskRuntime H Pay W} `{YamlToJson} `{YamlLib} `{SerdeConfig} `{WildMatch} `{order : HashOrder}.
Context `{ConfigVisitor P H F V Pay W}.

Abbreviation State := (PluginManager P H F V Pay * Env W)%type.

Lemma load_config_visitors config (st : State) :
  mg_visitors (load_config config st).2.1 = mg_visitors st.1.
Proof.
  destruct st as [m env]. simpl. by destruct (instantiate_plugins_into _ _ _ _) as [[reg|e] env'].
Qed.

(** With no visitor registered, loading a YAML text into a running manager
    is [parse_config] followed by [load_config]: the same texts are refused,
    leaving the manager as it was, and an accepted one has the same effect. *)
Theorem load_yaml_is_parse_then_load yaml (st : State) :
  mg_visitors st.1 = [] →
  match parse_config yaml with
  | Ok config => load_config_yaml yaml st = load_config config st
  | Err _ => ∃ e, load_config_yaml yaml st = (Err e, st)
  end.
Proof.
  intros Hv. unfold parse_config, load_config_yaml.
  destruct (yaml_from_str yaml) as [raw|e]; [|by eexists].
  destruct (reject_renamed_identity_key raw) as [[]|e]; simpl.
  2: { destruct (config_from_value raw); by eexists. }
  destruct (config_from_value raw) as [config|e]; [|by eexists].
  destruct (validate_config (merge_groups_into_policies config)) as [[]|e]; simpl; [|by eexists].
  unfold m_then. pose proof (load_config_visitors (merge_groups_into_policies config) st) as Hvis.
  destruct (load_config (merge_groups_into_policies config) st) as [[[]|e] st']; [|done].
  simpl in Hvis. by rewrite Hvis, Hv.
Qed.

(** Visitors reach the manager only through its public operations. *)
Class VisitorsEncapsulated (tagged : RouteCacheKey → gset string → Prop) (overlap : bool) := {
  enc_plugins v l (st : State) : runs tagged overlap st (visit_plugins v l st).2;
  enc_global v y (st : State) : runs tagged overlap st (visit_global v y st).2;
  enc_default v t y (st : State) : runs tagged overlap st (visit_default v t y st).2;
  enc_bundle v t y (st : State) : runs tagged overlap st (visit_policy_bundle v t y st).2;
  enc_route v y r (st : State) : runs tagged overlap st (visit_route v y r st).2
}.

Section Runs.
Context (tagged : RouteCacheKey → gset string → Prop) (overlap : bool).
Context `{!VisitorsEncapsulated tagged overlap}.

Abbreviation runs_all a := (∀ st : State, runs tagged overlap st (a st).2).

Lemma m_then_moves a b : runs_all a → runs_all b → runs_all (m_then a b).
Proof.
  intros Ha Hb st. unfold m_then. pose proof (Ha st) as Hst.
  destruct (a st) as [[[]|e] st1]; simpl in *; [|done]. by etrans.
Qed.

Lemma m_each_moves {A} (f : A → State → Result unit PluginError * State) l :
  (∀ x, runs_all (f x)) → runs_all (m_each f l).
Proof.
  intros Hf. induction l as [|x l IH]; intros st; [reflexivity|]. by apply m_then_moves.
Qed.

Lemma run_visit_moves v what visit : runs_all visit → runs_all (run_visit v what visit).
Proof. intros Hv st. unfold run_visit. specialize (Hv st). by destruct (visit st). Qed.

Lemma visit_section_moves section visit :
  (∀ k y, runs_all (visit k y)) → runs_all (visit_section section visit).
Proof.
  intros Hv st. unfold visit_section. destruct section as [entries|]; [|reflexivity].
  apply m_each_moves. intros [k y] st1. simpl. destruct (yaml_as_str k); [apply Hv|reflexivity].
Qed.

Lemma walk_visitor_moves raw routes plugins v : runs_all (walk_visitor raw routes plugins v).
Proof.
  unfold walk_visitor. repeat apply m_then_moves.
  - apply run_visit_moves, enc_plugins.
  - apply run_visit_moves, enc_global.
  - apply visit_section_moves. intros k y. apply run_visit_moves, enc_default.
  - apply visit_section_moves. intros k y. apply run_visit_moves, enc_bundle.
  - apply m_each_moves. intros [i r]. apply run_visit_moves, enc_route.
Qed.

(** Loading a YAML text, successful or not, with any visitors, takes the
    manager to a state it could have reached by its plain operations, so every
    property of reachable managers holds of it. *)
Theorem load_yaml_reachable yaml st seen :
  mg_reachable tagged overlap (mkSys st [] 0 seen) →
  ∃ seen', mg_reachable tagged overlap (mkSys (load_config_yaml yaml st).2 [] 0 seen').
Proof.
  apply runs_reachable.
  unfold load_config_yaml. destruct (yaml_from_str yaml) as [raw|e]; [|done].
  destruct (config_from_value raw) as [config|e]; [|done].
  destruct (reject_renamed_identity_key raw) as [[]|e]; [|done].
  destruct (validate_config _) as [[]|e]; [|done].
  apply m_then_moves; [intros st1; apply load_config_runs|].
  intros st1. apply m_each_moves. intros v. apply walk_visitor_moves.
Qed.

End Runs.
End Yaml.

(** ** Witnesses *)

Module Demo.
Import Executor.Demo.

(** One factory per answer; its plugins handle the pre-invoke hook. *)
#[global] Instance answer_factory : PluginFactory Answer unit Answer unit :=
  λ f config w, (Ok (mkInstance tt [("tool_pre_invoke", f)]), w).
#[global] Instance calm : Plugin unit unit :=
  {| plugin_initialize _ w := (Ok tt, w); plugin_shutdown _ w := (Ok tt, w) |}.
#[global] Instance pre_invoke : HookTypeName Answer := λ _, "tool_pre_invoke".
#[global] Instance one_uuid : UuidSource unit := λ w, (7%N, w).
#[global] Instance no_wait : TaskRuntime Answer string unit := λ _ w, w.
#[global] Instance no_json : YamlToJson := λ _, Err "none".
#[global] Instance in_order : HashOrder := Config.Demo.forward.

Definition guard : PluginConfig :=
  mkPluginConfig "guard" "denier" None None None [] Sequential 10 Fail ∅ [] [] None.
Definition logger : PluginConfig :=
  mkPluginConfig "logger" "allower" None None None [] Sequential 20 Fail ∅ [] [] None.

(** The [pii] group guards; the route only logs. *)
Definition config : CpexConfig :=
  mkConfig (mkGlobal {[ "pii" := mkGroup None ∅ [RefName "guard"] None ]} ∅ None) []
    [guard; logger] ∅
    [mkRouteEntry (Some (Single "get_pay")) None None None None None None [RefName "logger"] None]
    (mkSettings true 30 true false false 10000).

#[global] Instance fixed_serde : SerdeConfig :=
  {| yaml_from_str _ := Ok YNull; config_from_value _ := Ok config;
     ref_from_value _ := Err "none"; step_from_value _ := Err "none" |}.
#[global] Instance plain_yaml : YamlLib :=
  {| debug_yaml _ := "value"; show_yaml_number _ := "number"; yaml_eqb _ _ := false |}.

(** A visitor that does nothing. *)
#[global] Instance idle : ConfigVisitor unit Answer Answer unit string unit :=
  {| visitor_name _ := "idle"; visit_plugins _ _ st := (Ok tt, st); visit_global _ _ st := (Ok tt, st);
     visit_default _ _ _ st := (Ok tt, st); visit_policy_bundle _ _ _ st := (Ok tt, st);
     visit_route _ _ _ st := (Ok tt, st) |}.

Abbreviation DemoState := (PluginManager unit Answer Answer unit string * Env unit)%type.

Definition start : DemoState := (manager_new manager_config_default, mkEnv tt ∅ 0).
Definition with_factories : DemoState :=
  (register_factory (register_factory start.1 "denier" denies) "allower" allows, start.2).
Definition loaded : DemoState := (load_config config with_factories).2.

Definition request (tags : gset string) : Extensions :=
  mkExtensions None None None None None None None None None None None None
    (Some (mkArc 0 (mkMeta (Some "tool") (Some "get_pay") tags None ∅))) None None None None.

Definition invoke_with (tags : gset string) (st : DemoState) :=
  invoke_named "tool_pre_invoke" "payload" (request tags) None st.

Abbreviation DemoSystem :=
  (Sys (P := unit) (H := Answer) (F := Answer) (V := unit) (Pay := string) (W := unit)).

Definition idle_system : DemoSystem :=
  mkSys loaded [] 0 [mg_runtime loaded.1; mg_runtime start.1].

Lemma loaded_reachable tagged overlap : mg_reachable tagged overlap idle_system.
Proof.
  exists start. split; [left; by eexists|].
  eapply rtc_l; [apply (step_factory _ _ _ _ "denier" denies)|].
  eapply rtc_l; [apply (step_factory _ _ _ _ "allower" allows)|].
  eapply rtc_l; [apply (step_env _ _ _ _ loaded.2)|].
  eapply rtc_l; [eapply (step_publish _ _ _ _ (mg_runtime start.1) (mg_runtime loaded.1) true)|].
  - by left.
  - done.
  - eapply (rebuilt_load _ _ config _ start.2). reflexivity.
  - apply rtc_once, step_clear. by right.
Qed.

(** The flight of a request without tags, its plugins selected. *)
Definition selected : Flight :=
  Selecting (mg_runtime loaded.1) (request ∅) "tool_pre_invoke"
    (mkCacheKey "tool" "get_pay" "tool_pre_invoke" None) []
    (select_entries loaded.1 (entries_for_hook (rs_registry (mg_runtime loaded.1)) "tool_pre_invoke")
       (resolve_key config (mkCacheKey "tool" "get_pay" "tool_pre_invoke" None) ∅) loaded.2).1.

Definition selecting_system : DemoSystem :=
  mkSys loaded [selected] 0 (sy_seen idle_system).

Lemma selecting_reachable (tagged : RouteCacheKey → gset string → Prop) overlap :
  (∀ k, tagged k ∅) → mg_reachable tagged overlap selecting_system.
Proof.
  intros Ht. destruct (loaded_reachable tagged overlap) as (st0 & Hi & Hr). exists st0. split; [done|].
  etrans; [exact Hr|]. unfold idle_system. rewrite (surjective_pairing loaded).
  eapply rtc_l; [apply (step_invoke _ _ _ _ (request ∅) "tool_pre_invoke")|].
  - intros meta et en Hm _ _. by injection Hm as <-.
  - done.
  - eapply rtc_l.
    + apply (step_miss _ _ _ _ _ _ _ config (mkCacheKey "tool" "get_pay" "tool_pre_invoke" None) ∅ [] []);
        by vm_compute.
    + etrans; [apply select_steps|]. apply rtc_once.
      rewrite (surjective_pairing loaded) at 1. apply step_env.
Qed.

(** Its answer is stored and dispatched. *)
Definition answered : list (HookEntry unit Answer) :=
  match selected with Selecting _ _ _ _ _ l => l | _ => [] end.
Definition answered_system : DemoSystem :=
  mkSys (cache_store loaded.1 10000 (mkCacheKey "tool" "get_pay" "tool_pre_invoke" None) answered,
         loaded.2)
    [Dispatched (mg_runtime loaded.1) (request ∅) "tool_pre_invoke" answered] 0
    (sy_seen idle_system).

Lemma answered_reachable (tagged : RouteCacheKey → gset string → Prop) overlap :
  (∀ k, tagged k ∅) → mg_reachable tagged overlap answered_system.
Proof.
  intros Ht. destruct (selecting_reachable tagged overlap Ht) as (st0 & Hi & Hr).
  exists st0. split; [done|]. etrans; [exact Hr|]. apply rtc_once.
  apply (step_store _ _ loaded.1 loaded.2 (mg_runtime loaded.1) _ _ _ answered [] []).
Qed.

(** A later configuration that allows no cached route. *)
Definition strict_config : CpexConfig :=
  mkConfig (mkGlobal ∅ ∅ None) [] [] ∅ [] (mkSettings true 30 true false false 0).
Definition strict : DemoState := (load_config strict_config loaded).2.

End Demo.

(** The route cache is keyed without the request's tags: once a request for
    an entity has been answered, a later one whose tags select a group with a
    guard is not shown to that guard, although it denies the request when it
    comes first. *)
Theorem cached_route_skips_tag_group :
  let bare := Demo.invoke_with ∅ Demo.loaded in
  pr_continue_processing bare.1 = true
  ∧ pr_continue_processing (Demo.invoke_with {[ "pii" ]} Demo.loaded).1 = false
  ∧ pr_continue_processing (Demo.invoke_with {[ "pii" ]} bare.2).1 = true.
Proof. vm_compute. done. Qed.

(** A request that is resolved when the limit is lowered puts its answer into
    the cleared cache under the limit it started with. *)
Example stale_limit_exceeded :
  ∃ y : Demo.DemoSystem, mg_reachable (λ _ _, True) true y ∧ sy_clearing y = 0
    ∧ routing_cache_size (sy_st y).1 = 1
    ∧ rs_route_cache_max_entries (mg_runtime (sy_st y).1) = 0%Z.
Proof.
  destruct (Demo.selecting_reachable (λ _ _, True) true) as (st0 & Hi & Hr); [done|].
  eexists. split; [exists st0; split; [done|]; etrans; [exact Hr|]|].
  - unfold Demo.selecting_system. rewrite (surjective_pairing Demo.loaded) at 1.
    eapply rtc_l; [eapply (step_publish _ _ _ _ (mg_runtime Demo.loaded.1)
      (mg_runtime Demo.strict.1) true)|].
    + by left.
    + done.
    + by eapply (rebuilt_load _ _ Demo.strict_config _ Demo.loaded.2).
    + eapply rtc_l; [apply (step_clear _ _ _ _ _ 1 0); by right|].
      apply rtc_once. apply (step_store _ _ _ _ _ _ _ _ _ [] []).
  - by vm_compute.
Qed.

Definition no_tags (k : RouteCacheKey) : gset string := ∅.

Lemma cache_refines_witness :
  ∃ s', s' ∈ sy_seen Demo.answered_system
    ∧ dispatch_spec (mg_runtime Demo.loaded.1) s' (Demo.request ∅) "tool_pre_invoke" ∅ Demo.answered
    ∧ (false = false → s' = mg_runtime Demo.loaded.1).
Proof.
  apply (cache_refines_resolution no_tags false Demo.answered_system (mg_runtime Demo.loaded.1)
           (Demo.request ∅) "tool_pre_invoke" Demo.answered).
  - by apply Demo.answered_reachable.
  - by left.
Defined.

Lemma identity_cache_witness :
  ∃ y : Demo.DemoSystem, ∃ s l s', s' ∈ sy_seen y
    ∧ dispatch_spec s s' extensions_default HOOK_IDENTITY_RESOLVE
        (request_tags extensions_default) l.
Proof.
  destruct (Demo.loaded_reachable (λ _ _, True) false) as (st0 & Hi & Hr).
  exists (mkSys Demo.loaded
    [Dispatched (mg_runtime Demo.loaded.1) extensions_default HOOK_IDENTITY_RESOLVE
       (direct_entries (mg_runtime Demo.loaded.1) extensions_default HOOK_IDENTITY_RESOLVE)] 0
    (sy_seen Demo.idle_system)).
  eexists _, _.
  edestruct (identity_cache_exact false (mkSys Demo.loaded
    [Dispatched (mg_runtime Demo.loaded.1) extensions_default HOOK_IDENTITY_RESOLVE
       (direct_entries (mg_runtime Demo.loaded.1) extensions_default HOOK_IDENTITY_RESOLVE)] 0
    (sy_seen Demo.idle_system))) as (s' & Hs & Hd & _); [| |by exists s'].
  - exists st0. split; [done|]. etrans; [exact Hr|]. unfold Demo.idle_system.
    rewrite (surjective_pairing Demo.loaded).
    eapply rtc_l; [apply (step_invoke _ _ _ _ extensions_default HOOK_IDENTITY_RESOLVE); done|].
    apply rtc_once, (step_direct _ _ _ _ _ _ _ [] []). by vm_compute.
  - by left.
Defined.

Lemma cache_bounded_witness :
  ∃ s, s ∈ sy_seen Demo.answered_system
    ∧ (routing_cache_size (sy_st Demo.answered_system).1 ≤ Z.to_nat (rs_route_cache_max_entries s))%nat
    ∧ (false = false → sy_clearing Demo.answered_system = 0 →
       s = mg_runtime (sy_st Demo.answered_system).1).
Proof.
  apply (route_cache_bounded (λ _ _, True) false Demo.answered_system).
  by apply Demo.answered_reachable.
Defined.

Lemma generation_witness :
  mg_runtime (clear_routing_cache Demo.loaded.1) = mg_runtime Demo.loaded.1.
Proof.
  apply (generation_identifies_snapshot (λ _ _, True) false Demo.idle_system
           (mkSys (clear_routing_cache Demo.loaded.1, Demo.loaded.2) [] 0
              (sy_seen Demo.idle_system)) 1).
  - apply Demo.loaded_reachable.
  - apply nsteps_once. unfold Demo.idle_system. rewrite (surjective_pairing Demo.loaded) at 1.
    apply step_clear. by left.
  - lia.
  - reflexivity.
Defined.

Lemma reload_refused_witness :
  ∃ e, (load_config Demo.config Demo.loaded).1 = Err e
    ∧ (load_config Demo.config Demo.loaded).2.1 = Demo.loaded.1.
Proof.
  apply (reload_refused Demo.config Demo.with_factories Demo.loaded); [|done].
  unfold Demo.loaded. rewrite (surjective_pairing (load_config Demo.config Demo.with_factories)).
  f_equal.
Defined.

Definition annotated : Demo.DemoState :=
  annotate_route "tool" "get_pay" None "tool_pre_invoke" tt Executor.Demo.allows
    (demo_config "apl" 1 Sequential) Demo.loaded.

Lemma annotation_witness :
  filter_entries_by_route (mg_runtime annotated.1)
    (entries_for_hook (rs_registry (mg_runtime annotated.1)) "tool_pre_invoke")
    (Demo.request ∅) "tool_pre_invoke" (annotated.1, annotated.2)
  = ([mkHookEntry (plugin_ref_new tt (demo_config "apl" 1 Sequential) 7 2) Executor.Demo.allows],
     (annotated.1, annotated.2)).
Proof.
  apply (annotation_precedence annotated.1 annotated.2 (Demo.request ∅) "tool_pre_invoke"
           (mkMeta (Some "tool") (Some "get_pay") ∅ None ∅) "tool" "get_pay");
    [reflexivity|reflexivity|reflexivity|].
  vm_compute. reflexivity.
Defined.

Definition gate_entry : HookEntry unit Executor.Demo.Answer :=
  mkHookEntry (plugin_ref_new tt (demo_config "gate" 1 Sequential) 7 2) Executor.Demo.denies.

(** A request for an annotated route. *)
Definition gated_snapshot : RuntimeSnapshot unit Executor.Demo.Answer :=
  set_annotations (mg_runtime Demo.loaded.1)
    {[ mkAnnotationKey "tool" "get_pay" None "tool_pre_invoke" := gate_entry ]}.
Definition gated : Demo.DemoSystem :=
  mkSys (bump_generation (set_runtime Demo.loaded.1 gated_snapshot), Demo.loaded.2)
    [Dispatched gated_snapshot (Demo.request ∅) "tool_pre_invoke"
       (direct_entries gated_snapshot (Demo.request ∅) "tool_pre_invoke")] 0
    (gated_snapshot :: sy_seen Demo.idle_system).

Lemma gated_reachable : mg_reachable (λ _ _, True) true gated.
Proof.
  destruct (Demo.loaded_reachable (λ _ _, True) true) as (st0 & Hi & Hr). exists st0.
  split; [done|]. etrans; [exact Hr|]. unfold Demo.idle_system, gated.
  rewrite (surjective_pairing Demo.loaded) at 1.
  eapply rtc_l; [apply (step_publish _ _ _ _ (mg_runtime Demo.loaded.1) gated_snapshot false)|].
  - by left.
  - done.
  - apply rebuilt_annotations.
  - eapply rtc_l; [apply (step_invoke _ _ _ _ (Demo.request ∅) "tool_pre_invoke"); done|].
    apply rtc_once. apply (step_direct _ _ _ _ gated_snapshot _ _ [] []). by vm_compute.
Qed.

Lemma invoke_denial_witness :
  ∃ name, Some "gate" = Some name
    ∧ ((∃ s', s' ∈ sy_seen gated ∧ is_Some (registry_get (rs_registry s') name)
          ∧ (true = false → s' = gated_snapshot))
       ∨ ∃ k e, rs_route_annotations gated_snapshot !! k = Some e
           ∧ pr_name (he_plugin_ref e) = name).
Proof.
  apply (invoke_denial_known (λ _ _, True) true gated gated_snapshot (Demo.request ∅)
           "tool_pre_invoke" (direct_entries gated_snapshot (Demo.request ∅) "tool_pre_invoke")
           executor_config_default "payload" None Demo.loaded
           (attribute_violation Executor.Demo.denial "gate") gated_reachable).
  - by left.
  - by vm_compute.
Defined.

(** A later configuration without the guard's group. *)
Definition old_snapshot := mg_runtime Demo.loaded.1.
Definition new_snapshot :=
  snapshot_from_config (rs_registry old_snapshot)
    (mkConfig (mkGlobal ∅ ∅ None) [] [] ∅ [] (mkSettings true 30 true false false 10000)).

Lemma stale_snapshot_witness :
  let entries := entries_for_hook (rs_registry old_snapshot) "tool_pre_invoke" in
  let '(l, st') :=
    filter_entries_by_route old_snapshot entries (Demo.request ∅) "tool_pre_invoke" Demo.loaded in
  filter_entries_by_route new_snapshot entries (Demo.request ∅) "tool_pre_invoke" st' = (l, st').
Proof.
  pose proof (stale_snapshot_poisons_cache old_snapshot new_snapshot
    (entries_for_hook (rs_registry old_snapshot) "tool_pre_invoke")
    (entries_for_hook (rs_registry old_snapshot) "tool_pre_invoke")
    (Demo.request ∅) "tool_pre_invoke" Demo.loaded Demo.config
    (mkConfig (mkGlobal ∅ ∅ None) [] [] ∅ [] (mkSettings true 30 true false false 10000))
    (mkMeta (Some "tool") (Some "get_pay") ∅ None ∅) "tool" "get_pay"
    eq_refl eq_refl eq_refl eq_refl eq_refl eq_refl eq_refl eq_refl eq_refl eq_refl eq_refl) as Hs.
  simpl. destruct (filter_entries_by_route old_snapshot _ _ _ _) as [l st']. apply Hs.
Defined.

Lemma load_yaml_witness :
  load_config_yaml "routes: []" Demo.with_factories = load_config Demo.config Demo.with_factories.
Proof.
  assert (parse_config "routes: []" = Ok Demo.config) as E by (vm_compute; reflexivity).
  pose proof (load_yaml_is_parse_then_load "routes: []" Demo.with_factories eq_refl) as Hl.
  rewrite E in Hl. exact Hl.
Defined.

Lemma load_yaml_reachable_witness :
  ∃ seen, mg_reachable (λ _ _, True) false
    (mkSys (load_config_yaml "routes: []" Demo.loaded).2 [] 0 seen).
Proof.
  assert (VisitorsEncapsulated (Pay := string) (V := unit) (λ _ _, True) false) as Henc
    by (split; intros; reflexivity).
  apply (load_yaml_reachable (λ _ _, True) false "routes: []" Demo.loaded (sy_seen Demo.idle_system)).
  apply Demo.loaded_reachable.
Defined.
