(* ===== verification/Dispatch.v ===== *)
(** * Dispatch plans (apl-cpex/src/dispatch_plan.rs, parallel_safety.rs,
    pdp_router.rs; cpex-core/src/hooks/metadata.rs)

    How an APL route reaches its plugins: the hook metadata table, the PDP
    router, the mode check for [parallel:] blocks, and the per-route plan with
    its generation-tagged cache. *)

From S2P Require Import Prelude RustStd F64 Json Yaml Attributes Ir ExtData Extensions.
From S2P Require Import Orchestration PluginTypes Config ConfigLoad Registry Executor Manager.
From S2P Require Import ManagerFacts.

Local Open Scope string_scope.
Local Open Scope list_scope.

(** ** Hook metadata *)

Inductive HookPhase := HPre | HPost | HUnphased.
#[global] Instance HookPhase_eq_dec : EqDecision HookPhase.
Proof. solve_decision. Defined.

Record HookMetadata := mkHookMetadata {
  hm_entity_type : option string;
  hm_phase : HookPhase
}.

Definition hook_metadata_unknown : HookMetadata := mkHookMetadata None HUnphased.

Definition metadata_matches (self : HookMetadata) (request_entity_type : option string)
    (requested_phase : HookPhase) : bool :=
  let entity_ok :=
    match hm_entity_type self, request_entity_type with
    | Some hook_et, Some req_et => String.eqb hook_et req_et
    | Some _, None => true
    | None, _ => true
    end in
  if negb entity_ok then false
  else
    match hm_phase self, requested_phase with
    | HUnphased, _ | _, HUnphased => true
    | a, b => bool_decide (a = b)
    end.

Definition ENTITY_TOOL : string := "tool".
Definition ENTITY_LLM : string := "llm".
Definition ENTITY_PROMPT : string := "prompt".
Definition ENTITY_RESOURCE : string := "resource".
Definition HOOK_CMF_TOOL_PRE_INVOKE : string := "cmf.tool_pre_invoke".
Definition HOOK_CMF_TOOL_POST_INVOKE : string := "cmf.tool_post_invoke".
Definition HOOK_CMF_LLM_INPUT : string := "cmf.llm_input".
Definition HOOK_CMF_LLM_OUTPUT : string := "cmf.llm_output".
Definition HOOK_CMF_PROMPT_PRE_INVOKE : string := "cmf.prompt_pre_invoke".
Definition HOOK_CMF_PROMPT_POST_INVOKE : string := "cmf.prompt_post_invoke".
Definition HOOK_CMF_RESOURCE_PRE_FETCH : string := "cmf.resource_pre_fetch".
Definition HOOK_CMF_RESOURCE_POST_FETCH : string := "cmf.resource_post_fetch".
Definition HOOK_TOKEN_DELEGATE : string := "token.delegate".
Definition HOOK_ELICIT : string := "elicit".

Definition BUILTIN_METADATA : list (string * HookMetadata) :=
  [(HOOK_CMF_TOOL_PRE_INVOKE, mkHookMetadata (Some ENTITY_TOOL) HPre);
   (HOOK_CMF_TOOL_POST_INVOKE, mkHookMetadata (Some ENTITY_TOOL) HPost);
   (HOOK_CMF_LLM_INPUT, mkHookMetadata (Some ENTITY_LLM) HPre);
   (HOOK_CMF_LLM_OUTPUT, mkHookMetadata (Some ENTITY_LLM) HPost);
   (HOOK_CMF_PROMPT_PRE_INVOKE, mkHookMetadata (Some ENTITY_PROMPT) HPre);
   (HOOK_CMF_PROMPT_POST_INVOKE, mkHookMetadata (Some ENTITY_PROMPT) HPost);
   (HOOK_CMF_RESOURCE_PRE_FETCH, mkHookMetadata (Some ENTITY_RESOURCE) HPre);
   (HOOK_CMF_RESOURCE_POST_FETCH, mkHookMetadata (Some ENTITY_RESOURCE) HPost);
   (HOOK_IDENTITY_RESOLVE, mkHookMetadata None HUnphased);
   (HOOK_TOKEN_DELEGATE, mkHookMetadata None HUnphased)].

(** The process-wide table: the built-in entries, in order, then what hosts
    register. *)
Definition HookTable := gmap string HookMetadata.
Definition hook_table_init : HookTable :=
  foldl (λ m p, <[p.1 := p.2]> m) ∅ BUILTIN_METADATA.
Definition lookup_hook_metadata (table : HookTable) (hook_name : string) : HookMetadata :=
  default hook_metadata_unknown (table !! hook_name).
Definition register_hook_metadata (table : HookTable) (hook_name : string) (meta : HookMetadata) :
    HookTable := <[hook_name := meta]> table.

(** ** The PDP router *)

#[global] Instance PdpDialect_eq_dec : EqDecision PdpDialect.
Proof. solve_decision. Defined.

Definition dialect_encode (d : PdpDialect) : nat + string :=
  match d with
  | Cedar => inl 0 | Opa => inl 1 | AuthZen => inl 2 | NeMo => inl 3 | Cel => inl 4
  | Custom n => inr n
  end.
Definition dialect_decode (c : nat + string) : PdpDialect :=
  match c with
  | inl 0 => Cedar | inl 1 => Opa | inl 2 => AuthZen | inl 3 => NeMo | inl _ => Cel
  | inr n => Custom n
  end.
#[global] Instance PdpDialect_countable : Countable PdpDialect.
Proof. apply (inj_countable' dialect_encode dialect_decode). by intros []. Defined.

(** A registered backend: a value of [R] with the [PdpResolver] methods. *)
Class PdpBackend (R W : Type) := {
  backend_dialect : R → PdpDialect;
  backend_evaluate : R → PdpCall → AttributeBag → W → Result PdpDecision PdpError * W
}.

Section Router.
Context {R W : Type} `{PdpBackend R W}.

Abbreviation PdpRouter := (gmap PdpDialect R).
Definition router_new : PdpRouter := ∅.
Definition router_register (self : PdpRouter) (resolver : R) : PdpRouter :=
  let dialect := backend_dialect resolver in
  if bool_decide (is_Some (self !! dialect)) then self else <[dialect := resolver]> self.
Definition router_replace (self : PdpRouter) (resolver : R) : PdpRouter :=
  <[backend_dialect resolver := resolver]> self.
Definition router_evaluate (self : PdpRouter) (call : PdpCall) (bag : AttributeBag) (w : W) :
    Result PdpDecision PdpError * W :=
  match self !! pc_dialect call with
  | None => (Err (PdpNoResolver (pc_dialect call)), w)
  | Some resolver => backend_evaluate resolver call bag w
  end.

(** Every backend a router holds serves the dialect it is filed under. *)
Definition router_wf (self : PdpRouter) : Prop :=
  ∀ d r, self !! d = Some r → backend_dialect r = d.

Lemma router_register_wf self r : router_wf self → router_wf (router_register self r).
Proof.
  intros Hw. unfold router_register. case_bool_decide; [done|].
  intros d r' [[<- <-]|[_ Hl]]%lookup_insert_Some; [done|by apply Hw].
Qed.
Lemma router_replace_wf self r : router_wf self → router_wf (router_replace self r).
Proof.
  unfold router_replace. intros Hw d r' [[<- <-]|[_ Hl]]%lookup_insert_Some; [done|by apply Hw].
Qed.

(** The backend a list of registrations leaves for a dialect: the first one. *)
Lemma router_registrations self l d :
  foldl router_register self l !! d
  = option_or (self !! d) (find (λ r, bool_decide (backend_dialect r = d)) l).
Proof.
  revert self. induction l as [|r l IH]; intros self; simpl; [by destruct (self !! d)|].
  rewrite IH. unfold router_register.
  case_bool_decide as Hs; case_bool_decide as Hd.
  - subst d. by destruct Hs as [? ->].
  - done.
  - subst d. rewrite lookup_insert_eq. by destruct (self !! _) eqn:E; [destruct Hs|].
  - by rewrite lookup_insert_ne.
Qed.

End Router.

(** ** Plugin modes under [parallel:] *)

Definition show_plugin_mode (m : PluginMode) : string :=
  match m with
  | Sequential => "sequential" | Transform => "transform" | Audit => "audit"
  | Concurrent => "concurrent" | FireAndForget => "fire_and_forget" | Disabled => "disabled"
  end.

Definition is_safe_in_parallel (mode : PluginMode) : bool :=
  match mode with Audit | Concurrent | FireAndForget | Disabled => true | _ => false end.

Section Parallel.
(** [PluginModeLookup::mode_for]. *)
Context (mode_for : string → option PluginMode).

Definition check_plugin_mode (name location : string) (errors : list string) : list string :=
  match mode_for name with
  | None =>
      errors ++ [location +:+ ": `parallel:` references unknown plugin `" +:+ name +:+ "`"]
  | Some mode =>
      if is_safe_in_parallel mode then errors
      else
        errors ++
          [location +:+ ": plugin `" +:+ name +:+ "` has mode `" +:+ show_plugin_mode mode
             +:+ "` which can modify state; parallel branches discard mutations, so this would silently lose its effect. Use `sequential:` for ordered mutations or change the plugin's mode."]
  end.

Fixpoint walk_effect (effect : Effect) (location : string) (under_parallel : bool)
    (errors : list string) {struct effect} : list string :=
  match effect with
  | EPlugin name => if under_parallel then check_plugin_mode name location errors else errors
  | EParallel inner => foldl (λ errs e, walk_effect e location true errs) errors inner
  | ESequential inner => foldl (λ errs e, walk_effect e location under_parallel errs) errors inner
  | EWhen _ body _ => foldl (λ errs e, walk_effect e location under_parallel errs) errors body
  | EPdp _ on_allow on_deny =>
      foldl (λ errs e, walk_effect e location under_parallel errs)
        (foldl (λ errs e, walk_effect e location under_parallel errs) errors on_allow) on_deny
  | _ => errors
  end.

Definition walk_phase (route : CompiledRoute) (phase_name : string) (effects : list Effect)
    (errors : list string) : list string :=
  (foldl (λ '(idx, errs) e,
     (S idx, walk_effect e ("routes." +:+ cr_route_key route +:+ "." +:+ phase_name +:+ "["
               +:+ show_nat idx +:+ "]") false errs))
     (0, errors) effects).2.

Definition validate_parallel_plugin_modes (route : CompiledRoute) : Result unit string :=
  let errors := walk_phase route "post_invocation" (cr_post_policy route)
                  (walk_phase route "pre_invocation" (cr_policy route) []) in
  if is_nil errors then Ok tt else Err (join_with "; " errors).

(** *** What the check decides *)

(** [name] is called by [e], which itself runs in a parallel branch when
    [par] holds, at a point that runs in a parallel branch. *)
Inductive parallel_call : bool → Effect → string → Prop :=
| pc_plugin name : parallel_call true (EPlugin name) name
| pc_parallel b l e name : e ∈ l → parallel_call true e name → parallel_call b (EParallel l) name
| pc_sequential b l e name : e ∈ l → parallel_call b e name → parallel_call b (ESequential l) name
| pc_when b c l s e name : e ∈ l → parallel_call b e name → parallel_call b (EWhen c l s) name
| pc_allow b c l1 l2 e name : e ∈ l1 → parallel_call b e name → parallel_call b (EPdp c l1 l2) name
| pc_deny b c l1 l2 e name : e ∈ l2 → parallel_call b e name → parallel_call b (EPdp c l1 l2) name.

Definition mode_ok (name : string) : Prop :=
  ∃ mode, mode_for name = Some mode ∧ can_modify mode = false.

Lemma safe_cannot_modify mode : is_safe_in_parallel mode = negb (can_modify mode).
Proof. by destruct mode. Qed.

Lemma check_plugin_mode_nil name loc errs :
  check_plugin_mode name loc errs = [] ↔ errs = [] ∧ mode_ok name.
Proof.
  unfold check_plugin_mode, mode_ok. destruct (mode_for name) as [mode|] eqn:E.
  - rewrite safe_cannot_modify. destruct (can_modify mode) eqn:Em; simpl.
    + split; [intros [_ ?]%app_nil; done|]. intros [_ (m & [= <-] & Hm)]. congruence.
    + split; [intros ->; eauto|by intros [-> _]].
  - split; [intros [_ ?]%app_nil; done|]. by intros [_ (m & ? & _)].
Qed.

(** Errors accumulate, so an empty list at the end was empty throughout. *)
Lemma foldl_nil {A B} (f : list A → B → list A) (Q : B → Prop) l errs :
  (∀ x, x ∈ l → ∀ errs, f errs x = [] ↔ errs = [] ∧ Q x) →
  foldl f errs l = [] ↔ errs = [] ∧ Forall Q l.
Proof.
  revert errs. induction l as [|x l IH]; intros errs Hf; simpl; [split; [done|by intros []]|].
  rewrite IH by (intros; apply Hf; by right). rewrite Hf by left. rewrite Forall_cons. tauto.
Qed.

Definition calls_ok (b : bool) (e : Effect) : Prop := ∀ name, parallel_call b e name → mode_ok name.

Lemma calls_ok_children b b' (e : Effect) l :
  (∀ name, parallel_call b e name ↔ ∃ x, x ∈ l ∧ parallel_call b' x name) →
  Forall (calls_ok b') l ↔ calls_ok b e.
Proof.
  intros Hc. rewrite Forall_forall. unfold calls_ok. split.
  - intros Hf name (x & Hx & Hp)%Hc. by eapply Hf.
  - intros He x Hx name Hp. apply He, Hc. eauto.
Qed.

(** The step from the children's induction hypotheses to the node. *)
Lemma walk_children b b' (e : Effect) l loc errs :
  Forall (λ x, ∀ loc b errs, walk_effect x loc b errs = [] ↔ errs = [] ∧ calls_ok b x) l →
  (∀ name, parallel_call b e name ↔ ∃ x, x ∈ l ∧ parallel_call b' x name) →
  foldl (λ errs x, walk_effect x loc b' errs) errs l = [] ↔ errs = [] ∧ calls_ok b e.
Proof.
  intros IH Hc. rewrite (foldl_nil _ (calls_ok b')), (calls_ok_children b b' e l Hc); [done|].
  intros x Hx errs'. rewrite Forall_forall in IH. by apply IH.
Qed.

Lemma walk_effect_nil e : ∀ loc b errs,
  walk_effect e loc b errs = [] ↔ errs = [] ∧ calls_ok b e.
Proof.
  induction e as [| |name| | | | | |l IH|l IH|c l s IH|c a d IHa IHd] using Effect_nested_ind;
    intros loc b errs; simpl;
    try (split; [intros ->; split; [done|intros ? Hc; inversion Hc]|by intros []]).
  - destruct b.
    + rewrite check_plugin_mode_nil. split; intros [-> Hm]; split; try done.
      * intros ? Hc. by inversion Hc; subst.
      * apply Hm. constructor.
    + split; [intros ->; split; [done|intros ? Hc; inversion Hc]|by intros []].
  - apply walk_children; [done|]. intros name. split; [intros Hc; inversion Hc; subst; eauto|].
    intros (x & ? & ?). by econstructor.
  - apply walk_children; [done|]. intros name. split; [intros Hc; inversion Hc; subst; eauto|].
    intros (x & ? & ?). by econstructor.
  - apply walk_children; [done|]. intros name. split; [intros Hc; inversion Hc; subst; eauto|].
    intros (x & ? & ?). by econstructor.
  - rewrite <-foldl_app. apply walk_children; [by apply Forall_app|]. intros name. split.
    + intros Hc. inversion Hc; subst; eexists; (split; [apply elem_of_app; eauto|done]).
    + intros (x & [?|?]%elem_of_app & ?); [by eapply pc_allow|by eapply pc_deny].
Qed.

Lemma walk_phase_nil route phase l errs :
  walk_phase route phase l errs = [] ↔ errs = [] ∧ Forall (calls_ok false) l.
Proof.
  unfold walk_phase. generalize 0 at 1 as i. revert errs.
  induction l as [|e l IH]; intros errs i; simpl; [split; [done|by intros []]|].
  rewrite IH, walk_effect_nil, Forall_cons. tauto.
Qed.

Lemma parallel_ok_iff route :
  validate_parallel_plugin_modes route = Ok tt ↔
  ∀ e name, e ∈ cr_policy route ++ cr_post_policy route → parallel_call false e name →
    ∃ mode, mode_for name = Some mode ∧ can_modify mode = false.
Proof.
  unfold validate_parallel_plugin_modes.
  set (errs := walk_phase _ "post_invocation" _ _).
  assert (errs = [] ↔ Forall (calls_ok false) (cr_policy route ++ cr_post_policy route)) as He.
  { subst errs. rewrite !walk_phase_nil, Forall_app. tauto. }
  transitivity (errs = []); [by destruct errs|]. rewrite He, Forall_forall. unfold calls_ok. naive_solver.
Qed.

(** A route passes the [parallel:] check exactly when every plugin it calls
    from inside a parallel branch, at whatever depth, is registered with a mode
    that cannot modify the payload. *)
Theorem parallel_modes_exact route :
  validate_parallel_plugin_modes route = Ok tt ↔
  ∀ e name, e ∈ cr_policy route ++ cr_post_policy route → parallel_call false e name →
    ∃ mode, mode_for name = Some mode ∧ can_modify mode = false.
Proof. apply parallel_ok_iff. Qed.

End Parallel.

(** ** Collecting a route's plugins *)

(** [walk_effects]: [visit] is the closure, its captured state passed along. *)
Fixpoint walk_node {A} (visit : Effect → A → A) (e : Effect) (a : A) {struct e} : A :=
  let a := visit e a in
  match e with
  | EWhen _ body _ => foldl (λ a e, walk_node visit e a) a body
  | ESequential inner | EParallel inner => foldl (λ a e, walk_node visit e a) a inner
  | EPdp _ on_allow on_deny =>
      foldl (λ a e, walk_node visit e a) (foldl (λ a e, walk_node visit e a) a on_allow) on_deny
  | _ => a
  end.
Definition walk_effects {A} (effects : list Effect) (visit : Effect → A → A) (a : A) : A :=
  foldl (λ a e, walk_node visit e a) a effects.

(** [out] and [seen]. *)
Definition Collected := (list string * gset string)%type.
(** [if seen.insert(name) { out.push(name) }]. *)
Definition collect_name (name : string) (c : Collected) : Collected :=
  if bool_decide (name ∈ c.2) then c else (c.1 ++ [name], {[name]} ∪ c.2).

(** The name each visitor looks for. *)
Definition plugin_of (e : Effect) : option string :=
  match e with EPlugin name => Some name | _ => None end.
Definition delegate_of (e : Effect) : option string :=
  match e with EDelegate ds => Some (ds_plugin_name ds) | _ => None end.
Definition elicit_of (e : Effect) : option string :=
  match e with EElicit es => Some (es_plugin_name es) | _ => None end.
Definition stage_plugin_of (s : Stage) : option string :=
  match s with SPlugin name => Some name | _ => None end.

Definition visit_name {X} (pick : X → option string) (x : X) (c : Collected) : Collected :=
  match pick x with Some name => collect_name name c | None => c end.

Definition collect_over (route : CompiledRoute) (pick : Effect → option string) : Collected :=
  walk_effects (cr_post_policy route) (visit_name pick)
    (walk_effects (cr_policy route) (visit_name pick) ([], ∅)).

Definition collect_delegate_plugin_names (route : CompiledRoute) : list string :=
  (collect_over route delegate_of).1.
Definition collect_elicit_plugin_names (route : CompiledRoute) : list string :=
  (collect_over route elicit_of).1.
Definition collect_plugin_names (route : CompiledRoute) : list string :=
  (foldl (λ c fr, foldl (λ c s, visit_name stage_plugin_of s c) c (stages (fr_pipeline fr)))
     (collect_over route plugin_of) (cr_args route ++ cr_result route)).1.

Definition effective_caps (name : string) (registry : gmap string PluginDeclaration)
    (route : CompiledRoute) : list string :=
  match effective_resolve name registry (cr_plugin_overrides route) with
  | Some eff => caps_as_slice (ep_capabilities eff)
  | None => []
  end.

Definition add_caps (registry : gmap string PluginDeclaration) (route : CompiledRoute)
    (names : list string) (caps : gset string) : gset string :=
  foldl (λ caps name, foldl (λ caps cap, {[cap]} ∪ caps) caps (effective_caps name registry route))
    caps names.

Definition route_capability_union (route : CompiledRoute)
    (registry : gmap string PluginDeclaration) : gset string :=
  let caps := add_caps registry route (collect_plugin_names route) ∅ in
  let caps := add_caps registry route (collect_delegate_plugin_names route) caps in
  let elicit_plugins := collect_elicit_plugin_names route in
  let caps := add_caps registry route elicit_plugins caps in
  if is_nil elicit_plugins then caps else {["read_headers"]} ∪ caps.

Definition parse_on_error (s : string) : option OnError :=
  let s := to_ascii_lowercase s in
  if String.eqb s "fail" then Some Fail
  else if String.eqb s "ignore" then Some Ignore
  else if String.eqb s "disable" then Some Disable
  else None.

(** *** What is collected *)

(** [x] is [e] or occurs inside it. *)
Inductive sub_effect : Effect → Effect → Prop :=
| sub_refl e : sub_effect e e
| sub_sequential x y l : y ∈ l → sub_effect x y → sub_effect x (ESequential l)
| sub_parallel x y l : y ∈ l → sub_effect x y → sub_effect x (EParallel l)
| sub_when x y c l s : y ∈ l → sub_effect x y → sub_effect x (EWhen c l s)
| sub_allow x y c l1 l2 : y ∈ l1 → sub_effect x y → sub_effect x (EPdp c l1 l2)
| sub_deny x y c l1 l2 : y ∈ l2 → sub_effect x y → sub_effect x (EPdp c l1 l2).

(** The nodes in the order [walk_node] visits them. *)
Fixpoint nodes (e : Effect) : list Effect :=
  e :: match e with
       | EWhen _ l _ | ESequential l | EParallel l => l ≫= nodes
       | EPdp _ l1 l2 => (l1 ≫= nodes) ++ (l2 ≫= nodes)
       | _ => []
       end.

Lemma foldl_bind {A B C} (f : A → C → A) (g : B → list C) (h : A → B → A) l a :
  Forall (λ b, ∀ a, h a b = foldl f a (g b)) l → foldl h a l = foldl f a (l ≫= g).
Proof.
  intros Hl. revert a. induction Hl as [|b l Hb _ IH]; intros a; [done|].
  simpl. by rewrite IH, Hb, foldl_app.
Qed.

Lemma walk_node_nodes {A} (visit : Effect → A → A) e : ∀ a,
  walk_node visit e a = foldl (λ a x, visit x a) a (nodes e).
Proof.
  induction e as [| | | | | | | |l IH|l IH|c l s IH|c l1 l2 IH1 IH2] using Effect_nested_ind;
    intros a; simpl; try done.
  1-3: apply foldl_bind; done.
  rewrite foldl_app, (foldl_bind (λ a x, visit x a) nodes _ l2) by done.
  f_equal. by apply foldl_bind.
Qed.

Lemma nodes_sub e x : x ∈ nodes e ↔ sub_effect x e.
Proof.
  split.
  - revert x. induction e as [| | | | | | | |l IH|l IH|c l s IH|c l1 l2 IH1 IH2]
      using Effect_nested_ind; intros x; simpl; intros [-> |Hx]%elem_of_cons; try constructor;
      try (by apply not_elem_of_nil in Hx); rewrite ?Forall_forall in *;
      [..|apply elem_of_app in Hx as [Hx|Hx]];
      apply list_elem_of_bind in Hx as (y & Hx & Hy).
    + eapply sub_sequential; [done|]. by apply IH.
    + eapply sub_parallel; [done|]. by apply IH.
    + eapply sub_when; [done|]. by apply IH.
    + eapply sub_allow; [done|]. by apply IH1.
    + eapply sub_deny; [done|]. by apply IH2.
  - induction 1 as [e| | | | | ]; simpl; [destruct e; left|..]; right; rewrite ?elem_of_app;
      try apply list_elem_of_bind; eauto; [left|right]; apply list_elem_of_bind; eauto.
Qed.

(** The invariant of [out] and [seen]. *)
Definition collected_ok (c : Collected) : Prop := NoDup c.1 ∧ ∀ n, n ∈ c.1 ↔ n ∈ c.2.

Lemma collect_name_ok n c : collected_ok c → collected_ok (collect_name n c).
Proof.
  intros [Hn Hs]. unfold collect_name. case_bool_decide as Hc; [done|]. split; simpl.
  - apply NoDup_app. split_and!; [done| |apply NoDup_singleton].
    intros x Hx ->%list_elem_of_singleton. by apply Hc, Hs.
  - intros x. rewrite elem_of_app, list_elem_of_singleton, elem_of_union, elem_of_singleton, Hs. tauto.
Qed.

Lemma collect_name_elem n c x : collected_ok c → x ∈ (collect_name n c).1 ↔ x = n ∨ x ∈ c.1.
Proof.
  intros [_ Hs]. unfold collect_name. case_bool_decide as Hc; simpl.
  - apply Hs in Hc. naive_solver.
  - rewrite elem_of_app, list_elem_of_singleton. tauto.
Qed.

Lemma fold_visit_ok {X} (pick : X → option string) l : ∀ c, collected_ok c →
  let c' := foldl (λ c x, visit_name pick x c) c l in
  collected_ok c' ∧ ∀ n, n ∈ c'.1 ↔ n ∈ c.1 ∨ ∃ x, x ∈ l ∧ pick x = Some n.
Proof.
  induction l as [|x l IH]; intros c Hc; simpl.
  { split; [done|]. intros n. split; [by left|]. by intros [?|(y & ?%elem_of_nil & _)]. }
  assert (collected_ok (visit_name pick x c)
    ∧ ∀ n, n ∈ (visit_name pick x c).1 ↔ n ∈ c.1 ∨ pick x = Some n) as [Hv He].
  { unfold visit_name. destruct (pick x) as [m|]; [|naive_solver].
    split; [by apply collect_name_ok|]. intros n. rewrite collect_name_elem by done. naive_solver. }
  destruct (IH _ Hv) as [IH1 IH2]. split; [done|]. intros n. rewrite IH2, He. set_solver.
Qed.

(** [name] is what [pick] finds somewhere in the route's policies. *)
Definition policy_mentions (pick : Effect → option string) (route : CompiledRoute) (name : string) :
    Prop :=
  ∃ e x, e ∈ cr_policy route ++ cr_post_policy route ∧ sub_effect x e ∧ pick x = Some name.

Definition pipeline_mentions (route : CompiledRoute) (name : string) : Prop :=
  ∃ fr, fr ∈ cr_args route ++ cr_result route ∧ SPlugin name ∈ stages (fr_pipeline fr).

Lemma collect_over_ok route pick :
  collected_ok (collect_over route pick)
  ∧ ∀ n, n ∈ (collect_over route pick).1 ↔ policy_mentions pick route n.
Proof.
  unfold collect_over, walk_effects. rewrite <-foldl_app.
  rewrite (foldl_bind (λ c x, visit_name pick x c) nodes)
    by (apply Forall_true; intros e a; apply walk_node_nodes).
  destruct (fold_visit_ok pick ((cr_policy route ++ cr_post_policy route) ≫= nodes) ([], ∅))
    as [H1 H2]; [split; [constructor|set_solver]|].
  split; [done|]. intros n. rewrite H2. unfold policy_mentions. split.
  - intros [[]%elem_of_nil|(x & (e & Hx & He)%list_elem_of_bind & Hp)].
    exists e, x. by rewrite <-nodes_sub.
  - intros (e & x & He & Hs & Hp). right. exists x. split; [|done].
    apply list_elem_of_bind. exists e. by rewrite nodes_sub.
Qed.

Lemma collect_delegates route n :
  n ∈ collect_delegate_plugin_names route ↔ policy_mentions delegate_of route n.
Proof. apply collect_over_ok. Qed.
Lemma collect_elicits route n :
  n ∈ collect_elicit_plugin_names route ↔ policy_mentions elicit_of route n.
Proof. apply collect_over_ok. Qed.

Lemma collect_plugins route n :
  n ∈ collect_plugin_names route ↔ policy_mentions plugin_of route n ∨ pipeline_mentions route n.
Proof.
  unfold collect_plugin_names, pipeline_mentions.
  rewrite (foldl_bind (λ c s, visit_name stage_plugin_of s c) (λ fr, stages (fr_pipeline fr)))
    by (by apply Forall_true).
  destruct (collect_over_ok route plugin_of) as [Hc He].
  destruct (fold_visit_ok stage_plugin_of
    ((cr_args route ++ cr_result route) ≫= λ fr, stages (fr_pipeline fr)) _ Hc) as [_ H2].
  rewrite H2, He. f_equiv. split.
  - intros (s & (fr & Hs & Hf)%list_elem_of_bind & Hp). exists fr. split; [done|].
    destruct s; try done. by injection Hp as <-.
  - intros (fr & Hf & Hs). exists (SPlugin n). split; [|done]. apply list_elem_of_bind. eauto.
Qed.

Lemma add_caps_elem registry route names : ∀ caps cap,
  cap ∈ add_caps registry route names caps
  ↔ cap ∈ caps ∨ ∃ n, n ∈ names ∧ cap ∈ effective_caps n registry route.
Proof.
  unfold add_caps. induction names as [|n names IH]; intros caps cap; simpl; [set_solver|].
  rewrite IH. clear IH.
  assert (∀ l caps, cap ∈ foldl (λ caps cap, {[cap]} ∪ caps) caps l ↔ cap ∈ caps ∨ cap ∈ l) as ->.
  { clear. induction l as [|x l IH]; intros caps; simpl; [set_solver|]. rewrite IH. set_solver. }
  set_solver.
Qed.

(** The plugins a route's policies, field rules, delegations and elicitations
    name. *)
Definition route_mentions (route : CompiledRoute) (name : string) : Prop :=
  policy_mentions plugin_of route name ∨ pipeline_mentions route name
  ∨ policy_mentions delegate_of route name ∨ policy_mentions elicit_of route name.

Lemma capability_union_mono route registry name cap :
  route_mentions route name → cap ∈ effective_caps name registry route →
  cap ∈ route_capability_union route registry.
Proof.
  intros Hm Hc. unfold route_capability_union.
  assert (cap ∈ add_caps registry route (collect_elicit_plugin_names route)
     (add_caps registry route (collect_delegate_plugin_names route)
       (add_caps registry route (collect_plugin_names route) ∅))) as Hin.
  { rewrite !add_caps_elem. unfold route_mentions in Hm.
    rewrite <-collect_delegates, <-collect_elicits, (assoc or) in Hm.
    rewrite <-collect_plugins in Hm. destruct Hm as [Hm|[Hm|Hm]]; eauto 8. }
  destruct (is_nil _); [done|]. set_solver.
Qed.

(** The synthetic handler of a route is granted what the plugins its
    policies, field rules, delegations and elicitations name are declared with
    (route overrides applied), [read_headers] when it elicits, and nothing
    else. *)
Theorem capability_union_exact route registry cap :
  cap ∈ route_capability_union route registry ↔
  (∃ name, route_mentions route name ∧ cap ∈ effective_caps name registry route)
  ∨ (cap = "read_headers" ∧ ∃ name, policy_mentions elicit_of route name).
Proof.
  split.
  - unfold route_capability_union. intros Hin.
    assert (cap ∈ add_caps registry route (collect_elicit_plugin_names route)
       (add_caps registry route (collect_delegate_plugin_names route)
         (add_caps registry route (collect_plugin_names route) ∅))
      ∨ (cap = "read_headers" ∧ ∃ name, policy_mentions elicit_of route name)) as [Hc|?]; [| |by right].
    { destruct (collect_elicit_plugin_names route) as [|n l] eqn:E; [by left|].
      apply elem_of_union in Hin as [->%elem_of_singleton|Hin]; [right|by left].
      split; [done|]. exists n. rewrite <-collect_elicits, E. left. }
    left. rewrite !add_caps_elem in Hc. unfold route_mentions.
    destruct Hc as [[[[]%elem_of_empty|(n & Hn & Hc)]|(n & Hn & Hc)]|(n & Hn & Hc)]; exists n;
      (split; [|done]); [rewrite collect_plugins in Hn|rewrite collect_delegates in Hn|
        rewrite collect_elicits in Hn]; tauto.
  - intros [(name & Hm & Hc)|[-> (name & Hm)]]; [by eapply capability_union_mono|].
    unfold route_capability_union. rewrite <-collect_elicits in Hm.
    destruct (collect_elicit_plugin_names route); [by apply elem_of_nil in Hm|]. set_solver.
Qed.

(** ** The plan *)

Record RoutePluginEntry (P H : Type) := mkRoutePluginEntry {
  rpe_plugin_name : string;
  rpe_entries_by_hook : gmap string (HookEntry P H)
}.
Arguments mkRoutePluginEntry {P H}.
Arguments rpe_plugin_name {P H}.
Arguments rpe_entries_by_hook {P H}.

Record RouteDispatchPlan (P H : Type) := mkPlan {
  dp_plugins : gmap string (RoutePluginEntry P H);
  dp_delegation_entries : gmap string (HookEntry P H);
  dp_elicitation_entries : gmap string (HookEntry P H)
}.
Arguments mkPlan {P H}.
Arguments dp_plugins {P H}.
Arguments dp_delegation_entries {P H}.
Arguments dp_elicitation_entries {P H}.

Section Plan.
Context {P H F V Pay W : Type}.
Context `{HookHandler H Pay W} `{Timer W} `{Runtime W}.
Context `{PluginFactory F P H W} `{Plugin P W} `{HookTypeName H} `{UuidSource W}.
Context `{TaskRuntime H Pay W} `{YamlToJson} `{YamlLib} `{SerdeConfig} `{WildMatch} `{order : HashOrder}.

Abbreviation Manager := (PluginManager P H F V Pay).
Abbreviation Entry := (HookEntry P H).
Abbreviation State := (Manager * Env W)%type.
Abbreviation Plan := (RouteDispatchPlan P H).
Abbreviation Decls := (gmap string PluginDeclaration).

(** [RoutePluginEntry::pick_entry]: the first match in the map's order. *)
Definition pick_entry (table : HookTable) (self : RoutePluginEntry P H)
    (requested_entity_type : option string) (requested_phase : HookPhase) : option Entry :=
  snd <$> find (λ p, metadata_matches (lookup_hook_metadata table p.1)
                       requested_entity_type requested_phase)
            (map_iter (rpe_entries_by_hook self)).

Definition entries_map (entries : list (string * Entry)) : gmap string Entry :=
  foldl (λ m p, <[p.1 := p.2]> m) ∅ entries.

(** One iteration of the first loop of [RouteDispatchPlan::build]. *)
Definition plan_plugin (route : CompiledRoute) (registry : Decls) (m : Manager) (name : string)
    (acc : Plan * Env W) : Plan * Env W :=
  let '(plan, env) := acc in
  match effective_resolve name registry (cr_plugin_overrides route) with
  | None => (plan, env)
  | Some eff =>
      let override_block := cr_plugin_overrides route !! name in
      let config_override := override_block ≫= pov_config in
      let caps_override : option (gset string) :=
        match ep_capabilities eff with
        | CapsOverride l => Some (list_to_set l)
        | CapsGlobal _ => None
        end in
      let on_error_override := (override_block ≫= pov_on_error) ≫= parse_on_error in
      let '(entries, env) :=
        build_override_entries m name config_override caps_override on_error_override env in
      if is_nil entries then (plan, env)
      else
        (mkPlan (<[name := mkRoutePluginEntry name (entries_map entries)]> (dp_plugins plan))
           (dp_delegation_entries plan) (dp_elicitation_entries plan), env)
  end.

Definition first_entry_for (hook : string) (entries : list (string * Entry)) : option Entry :=
  snd <$> find (λ p, String.eqb p.1 hook) entries.

Definition plan_delegate (m : Manager) (name : string) (acc : Plan * Env W) : Plan * Env W :=
  let '(plan, env) := acc in
  let '(entries, env) := build_override_entries m name None None None env in
  match first_entry_for HOOK_TOKEN_DELEGATE entries with
  | Some e => (mkPlan (dp_plugins plan) (<[name := e]> (dp_delegation_entries plan))
                 (dp_elicitation_entries plan), env)
  | None => (plan, env)
  end.

Definition plan_elicit (m : Manager) (name : string) (acc : Plan * Env W) : Plan * Env W :=
  let '(plan, env) := acc in
  let '(entries, env) := build_override_entries m name None None None env in
  match first_entry_for HOOK_ELICIT entries with
  | Some e => (mkPlan (dp_plugins plan) (dp_delegation_entries plan)
                 (<[name := e]> (dp_elicitation_entries plan)), env)
  | None => (plan, env)
  end.

(** [RouteDispatchPlan::build]. *)
Definition plan_build (route : CompiledRoute) (registry : Decls) (m : Manager) (env : Env W) :
    Plan * Env W :=
  let acc := foldl (λ acc name, plan_plugin route registry m name acc) (mkPlan ∅ ∅ ∅, env)
               (collect_plugin_names route) in
  let acc := foldl (λ acc name, plan_delegate m name acc) acc
               (collect_delegate_plugin_names route) in
  foldl (λ acc name, plan_elicit m name acc) acc (collect_elicit_plugin_names route).

Definition plan_get (self : Plan) (plugin_name : string) : option (RoutePluginEntry P H) :=
  dp_plugins self !! plugin_name.

Definition resolve_plugin (m : Manager) (plugin_name : string) : option (RoutePluginEntry P H) :=
  let base_entries := find_plugin_entries m plugin_name in
  if is_nil base_entries then None
  else Some (mkRoutePluginEntry plugin_name (entries_map base_entries)).

(** ** The cache *)

Definition DispatchCache := gmap string (Z * Plan).

Definition get_or_build (route : CompiledRoute) (registry : Decls) (cache : DispatchCache)
    (st : State) : Plan * (DispatchCache * State) :=
  let '(m, env) := st in
  let current_gen := config_generation m in
  let build :=
    let '(plan, env) := plan_build route registry m env in
    (plan, (<[cr_route_key route := (current_gen, plan)]> cache, (m, env))) in
  match cache !! cr_route_key route with
  | Some (stored_gen, plan) =>
      if (stored_gen =? current_gen)%Z then (plan, (cache, (m, env))) else build
  | None => build
  end.

(** *** What a plan holds *)

Lemma build_override_caps (m : Manager) name cfg caps oe env p :
  p ∈ (build_override_entries m name cfg (Some caps) oe env).1 →
  pcf_capabilities (pr_trusted_config (he_plugin_ref p.2)) = caps.
Proof.
  unfold build_override_entries. destruct (find_plugin_entries m name) as [|base l]; [set_solver|].
  rewrite andb_false_r. simpl. destruct cfg as [cfg|]; simpl.
  - destruct (yaml_to_json cfg) as [v|e]; [|set_solver].
    destruct (mg_factories m !! _) as [f|]; [|set_solver].
    destruct (factory_create _ _ _) as [[inst|e] w]; [|set_solver].
    destruct (plugin_initialize _ _) as [[[]|e] w']; [|set_solver].
    destruct (alloc _) as [[id cell] env']. simpl.
    intros (h & -> & _)%list_elem_of_fmap. by destruct oe.
  - destruct (alloc env) as [[id cell] env']. simpl.
    intros [->|(h & -> & _)%list_elem_of_fmap]%elem_of_cons; by destruct oe.
Qed.

Lemma build_override_plain (m : Manager) name caps oe env :
  (build_override_entries m name None caps oe env).1 = [] ↔ find_plugin_entries m name = [].
Proof.
  unfold build_override_entries. destruct (find_plugin_entries m name) as [|base l]; [done|]. simpl.
  destruct (is_none caps && is_none oe); [done|]. by destruct (alloc env) as [[id cell] env'].
Qed.

Lemma entries_map_elem (entries : list (string * Entry)) hook e :
  entries_map entries !! hook = Some e → (hook, e) ∈ entries.
Proof.
  unfold entries_map. intros Hl.
  assert (∀ l (m0 : gmap string Entry), foldl (λ m p, <[p.1 := p.2]> m) m0 l !! hook = Some e →
    m0 !! hook = Some e ∨ (hook, e) ∈ l) as Hg.
  { clear. induction l as [|[k x] l IH]; intros m0 Hl; simpl in Hl; [by left|].
    apply IH in Hl as [[[-> ->]|[_ ?]]%lookup_insert_Some|?]; [right; left|by left|right; by right]. }
  by apply Hg in Hl as [?%lookup_empty_Some|].
Qed.

(** A fold that only adds plugins it was given. *)
Lemma plan_plugins_fold route registry (m : Manager) (Q : string → RoutePluginEntry P H → Prop) names :
  (∀ n plan env rpe, dp_plugins (plan_plugin route registry m n (plan, env)).1 !! n = Some rpe →
     dp_plugins plan !! n = Some rpe ∨ Q n rpe) →
  ∀ acc n rpe, dp_plugins (foldl (λ acc n, plan_plugin route registry m n acc) acc names).1 !! n
               = Some rpe →
    dp_plugins acc.1 !! n = Some rpe ∨ (n ∈ names ∧ Q n rpe).
Proof.
  intros HQ. induction names as [|x names IH]; intros [plan env] n rpe Hl; simpl in Hl; [by left|].
  apply IH in Hl as [Hl|[Hn Hq]]; [|right; split; [by right|done]].
  destruct (decide (x = n)) as [->|Hne].
  - apply HQ in Hl as [?|?]; [by left|right; split; [left|done]].
  - left. revert Hl. unfold plan_plugin. destruct (effective_resolve _ _ _); [|done].
    destruct (build_override_entries _ _ _ _ _ _) as [es env']. destruct (is_nil es); [done|].
    simpl. by rewrite lookup_insert_ne.
Qed.

Lemma plan_delegate_plugins (m : Manager) names acc :
  dp_plugins (foldl (λ acc n, plan_delegate m n acc) acc names).1 = dp_plugins acc.1.
Proof.
  revert acc. induction names as [|n names IH]; intros [plan env]; simpl; [done|]. rewrite IH.
  unfold plan_delegate. destruct (build_override_entries _ _ _ _ _ _) as [es env'].
  by destruct (first_entry_for _ es).
Qed.
Lemma plan_elicit_plugins (m : Manager) names acc :
  dp_plugins (foldl (λ acc n, plan_elicit m n acc) acc names).1 = dp_plugins acc.1.
Proof.
  revert acc. induction names as [|n names IH]; intros [plan env]; simpl; [done|]. rewrite IH.
  unfold plan_elicit. destruct (build_override_entries _ _ _ _ _ _) as [es env'].
  by destruct (first_entry_for _ es).
Qed.

Lemma plan_get_collected route registry (m : Manager) env name rpe :
  plan_get (plan_build route registry m env).1 name = Some rpe → name ∈ collect_plugin_names route.
Proof.
  unfold plan_get, plan_build. rewrite plan_elicit_plugins, plan_delegate_plugins.
  intros Hl. apply (plan_plugins_fold _ _ _ (λ _ _, True)) in Hl
    as [Hl|[? _]]; [simpl in Hl; by apply lookup_empty_Some in Hl|done|auto].
Qed.

(** Least privilege survives planning: when a route narrows a plugin's
    capabilities, every entry the plan dispatches for it carries exactly the
    narrowed set, and the synthetic handler is granted them all. *)
Theorem planned_capabilities route registry (m : Manager) env name rpe hook e ov caps :
  cr_plugin_overrides route !! name = Some ov → pov_capabilities ov = Some caps →
  plan_get (plan_build route registry m env).1 name = Some rpe →
  rpe_entries_by_hook rpe !! hook = Some e →
  pcf_capabilities (pr_trusted_config (he_plugin_ref e)) = list_to_set caps
  ∧ list_to_set caps ⊆ route_capability_union route registry.
Proof.
  intros Hov Hcaps Hg He. pose proof (plan_get_collected _ _ _ _ _ _ Hg) as Hc.
  unfold plan_get, plan_build in Hg. rewrite plan_elicit_plugins, plan_delegate_plugins in Hg.
  apply (plan_plugins_fold _ _ _ (λ n rpe, n = name → is_Some (registry !! name) ∧
    ∀ p, p ∈ map_to_list (rpe_entries_by_hook rpe) →
      pcf_capabilities (pr_trusted_config (he_plugin_ref p.2)) = list_to_set caps)) in Hg
    as [Hg|[_ Hq]].
  - simpl in Hg. by apply lookup_empty_Some in Hg.
  - destruct (Hq eq_refl) as [[d Hd] Hq']. split.
    + apply (Hq' (hook, e)). by apply elem_of_map_to_list.
    + intros cap Hcap%elem_of_list_to_set. apply (capability_union_mono _ _ name).
      * unfold route_mentions. rewrite (assoc or), <-collect_plugins. by left.
      * unfold effective_caps, effective_resolve. rewrite Hd, Hov. simpl. by rewrite Hcaps.
  - intros n plan env' rpe' Hl. destruct (decide (n = name)) as [->|Hne]; [|by right].
    unfold plan_plugin, effective_resolve in Hl.
    destruct (registry !! name) as [d|] eqn:Ed; [|by left].
    rewrite Hov in Hl. simpl in Hl. rewrite Hcaps in Hl.
    pose proof (λ p, build_override_caps m name (pov_config ov) (list_to_set caps)
      (pov_on_error ov ≫= parse_on_error) env' p) as Hb.
    destruct (build_override_entries _ _ _ _ _ _) as [es env'']. simpl in Hb.
    destruct (is_nil es); [by left|]. simpl in Hl. rewrite lookup_insert_eq in Hl.
    injection Hl as <-. right. intros _. split; [by eexists|]. intros [h x] Hx. simpl in *.
    apply elem_of_map_to_list, entries_map_elem in Hx. by apply (Hb (h, x)).
Qed.

(** A plugin a route calls only from a field operation inside its policies is
    not planned, so its call is refused as unknown. *)
Lemma unmentioned_not_planned route registry (m : Manager) env name :
  ¬ (policy_mentions plugin_of route name ∨ pipeline_mentions route name) →
  plan_get (plan_build route registry m env).1 name = None.
Proof.
  rewrite <-collect_plugins. intros Hn. destruct (plan_get _ name) as [rpe|] eqn:E; [|done].
  by apply plan_get_collected in E.
Qed.

(** The plugins that a route calls as stages of a field operation in its
    policies ([args.ssn | plugin(scanner)]) are in no plan and contribute no
    capability, whatever is registered, although the evaluator calls them. *)
Theorem field_op_plugins_unplanned key path ops registry (m : Manager) env name :
  let route := mkRoute key [] [EFieldOp path ops] [] [] ∅ None in
  plan_get (plan_build route registry m env).1 name = None
  ∧ route_capability_union route registry = ∅.
Proof.
  split; [|done]. apply unmentioned_not_planned. rewrite <-collect_plugins. apply not_elem_of_nil.
Qed.

(** *** The cache is current *)

(** The cache beside the manager: manager operations and plan requests, in any
    order. *)
Inductive dp_step (tagged : RouteCacheKey → gset string → Prop) :
    DispatchCache * State → DispatchCache * State → Prop :=
| dp_manager c st st' overlap : moves tagged overlap st st' → dp_step tagged (c, st) (c, st')
| dp_request c st route registry :
    dp_step tagged (c, st) (get_or_build route registry c st).2.

(** [m0] is at most [n] publications behind [m]. *)
Definition behind (n : nat) (m0 m : Manager) : Prop :=
  ∃ k, (0 ≤ k ≤ Z.of_nat n)%Z ∧ mg_generation m = u64_wrap (mg_generation m0 + k)
    ∧ (k = 0%Z → mg_runtime m = mg_runtime m0).

(** A stored plan was built, for a route of its key, from a manager at the
    stored generation. *)
Definition built_at (n : nat) (m : Manager) (key : string) (g : Z) (plan : Plan) : Prop :=
  ∃ route registry m0 env0, cr_route_key route = key
    ∧ plan = (plan_build route registry m0 env0).1 ∧ mg_generation m0 = g
    ∧ (0 ≤ g < 2 ^ 64)%Z ∧ behind n m0 m.

Lemma behind_step tagged overlap n m0 st st' :
  behind n m0 st.1 → moves tagged overlap st st' → behind (S n) m0 st'.1.
Proof.
  intros (k & Hk & Eg & Er) (? & ? & ? & ? & ? & ? & Hs).
  apply mg_step_generation in Hs as [[Hr Hg]|Hg]; simpl in *.
  - exists k. rewrite Hr, Hg. split_and!; [lia|lia|done|done].
  - exists (k + 1)%Z. rewrite Hg, Eg. split_and!; [lia|lia| |lia]. unfold u64_wrap.
    rewrite Zplus_mod_idemp_l. f_equal. lia.
Qed.

Lemma behind_weaken n m0 m : behind n m0 m → behind (S n) m0 m.
Proof. intros (k & ? & ? & ?). exists k. split_and!; [lia|lia|done|done]. Qed.

Lemma behind_refl n m : (0 ≤ mg_generation m < 2 ^ 64)%Z → behind n m m.
Proof.
  intros Hg. exists 0%Z. split_and!; [lia|lia| |done]. unfold u64_wrap. rewrite Z.add_0_r, Z.mod_small; lia.
Qed.

Lemma get_or_build_manager route registry c (st : State) :
  (get_or_build route registry c st).2.2.1 = st.1.
Proof.
  destruct st as [m env]. unfold get_or_build.
  destruct (c !! _) as [[g plan]|]; [destruct (_ =? _)%Z; [done|]|];
    by destruct (plan_build _ _ _ _).
Qed.

Lemma get_or_build_cache route registry c (st : State) key g plan :
  (get_or_build route registry c st).2.1 !! key = Some (g, plan) →
  c !! key = Some (g, plan)
  ∨ (key = cr_route_key route ∧ g = mg_generation st.1
     ∧ plan = (plan_build route registry st.1 st.2).1).
Proof.
  destruct st as [m env]. unfold get_or_build. simpl.
  destruct (plan_build route registry m env) as [plan' env'].
  destruct (c !! cr_route_key route) as [[g0 plan0]|]; [destruct (_ =? _)%Z; [by left|]|]; simpl;
    (intros [[<- [= <- <-]]|[_ ?]]%lookup_insert_Some; [right|left]; done).
Qed.

Lemma built_steps tagged n : ∀ st0 c st,
  (0 ≤ mg_generation st0.1 < 2 ^ 64)%Z → nsteps (dp_step tagged) n (∅, st0) (c, st) →
  (0 ≤ mg_generation st.1 < 2 ^ 64)%Z
  ∧ ∀ key g plan, c !! key = Some (g, plan) → built_at n st.1 key g plan.
Proof.
  induction n as [|n IH]; intros st0 c st Hg0 Hn.
  { inversion Hn; subst. split; [done|]. by intros key g plan ?%lookup_empty_Some. }
  apply nsteps_inv_r in Hn as ([c1 st1] & Hn & Hs). destruct (IH _ _ _ Hg0 Hn) as [Hg1 Hb1].
  inversion Hs as [? ? ? overlap Hm|? ? route registry]; subst.
  - split.
    { destruct Hm as (? & ? & ? & ? & ? & ? & Hm).
      apply mg_step_generation in Hm as [[_ E]|E]; simpl in E; rewrite E; [done|apply u64_wrap_range]. }
    intros key g plan Hl. destruct (Hb1 _ _ _ Hl) as (r & reg & m0 & e0 & Hk & Hp & Hg & Hr & Hbe).
    exists r, reg, m0, e0. split_and!; try done; [lia|lia|]. by eapply behind_step.
  - assert (c = (get_or_build route registry c1 st1).2.1 ∧ st.1 = st1.1) as [-> ->].
    { rewrite <-(get_or_build_manager route registry c1 st1).
      match goal with Hq : (get_or_build _ _ _ _).2 = _ |- _ => by rewrite Hq end. }
    split; [done|]. intros key g plan [Hl|(-> & -> & ->)]%get_or_build_cache.
    + destruct (Hb1 _ _ _ Hl) as (r & reg & m0 & e0 & Hk & Hp & Hg & Hr & Hbe).
      exists r, reg, m0, e0. split_and!; try done; [lia|lia|]. by apply behind_weaken.
    + exists route, registry, st1.1, st1.2. split_and!; try done; [lia|lia|by apply behind_refl].
Qed.


(** *** Picking an entry *)

Lemma pick_entry_matches table self et ph e :
  pick_entry table self et ph = Some e →
  ∃ hook, rpe_entries_by_hook self !! hook = Some e
    ∧ metadata_matches (lookup_hook_metadata table hook) et ph = true.
Proof.
  unfold pick_entry. intros ([hook e'] & [Hin Hm]%find_some & ->)%fmap_Some.
  exists hook. split; [|done]. by apply map_iter_elem, list_elem_of_In.
Qed.

Lemma pick_entry_None table self et ph :
  pick_entry table self et ph = None ↔
  ∀ hook e, rpe_entries_by_hook self !! hook = Some e →
    metadata_matches (lookup_hook_metadata table hook) et ph = false.
Proof.
  split.
  - unfold pick_entry. intros Hf%fmap_None hook e Hl.
    apply (find_none _ _ Hf (hook, e)), list_elem_of_In. by apply map_iter_elem.
  - intros Hn. destruct (pick_entry table self et ph) as [e|] eqn:E; [|done].
    apply pick_entry_matches in E as (hook & Hl & Hm). by rewrite (Hn _ _ Hl) in Hm.
Qed.

End Plan.

(** The entity and phase of each CMF hook are its own. *)
Definition cmf_hooks : list string :=
  [HOOK_CMF_TOOL_PRE_INVOKE; HOOK_CMF_TOOL_POST_INVOKE; HOOK_CMF_LLM_INPUT; HOOK_CMF_LLM_OUTPUT;
   HOOK_CMF_PROMPT_PRE_INVOKE; HOOK_CMF_PROMPT_POST_INVOKE; HOOK_CMF_RESOURCE_PRE_FETCH;
   HOOK_CMF_RESOURCE_POST_FETCH].

Lemma cmf_metadata hook : hook ∈ cmf_hooks →
  ∃ et ph, lookup_hook_metadata hook_table_init hook = mkHookMetadata (Some et) ph ∧ ph ≠ HUnphased
    ∧ hook = match et, ph with
             | "tool", HPre => HOOK_CMF_TOOL_PRE_INVOKE
             | "tool", _ => HOOK_CMF_TOOL_POST_INVOKE
             | "llm", HPre => HOOK_CMF_LLM_INPUT
             | "llm", _ => HOOK_CMF_LLM_OUTPUT
             | "prompt", HPre => HOOK_CMF_PROMPT_PRE_INVOKE
             | "prompt", _ => HOOK_CMF_PROMPT_POST_INVOKE
             | _, HPre => HOOK_CMF_RESOURCE_PRE_FETCH
             | _, _ => HOOK_CMF_RESOURCE_POST_FETCH
             end.
Proof.
  intros Hh. repeat (apply elem_of_cons in Hh as [->|Hh]; [by do 2 eexists|]).
  by apply elem_of_nil in Hh.
Qed.

(** One CMF hook at most serves a request of a known entity in a phase. *)
Lemma cmf_match_unique h1 h2 et ph :
  h1 ∈ cmf_hooks → h2 ∈ cmf_hooks → ph ≠ HUnphased →
  metadata_matches (lookup_hook_metadata hook_table_init h1) (Some et) ph = true →
  metadata_matches (lookup_hook_metadata hook_table_init h2) (Some et) ph = true → h1 = h2.
Proof.
  intros (e1 & p1 & E1 & Hp1 & ->)%cmf_metadata (e2 & p2 & E2 & Hp2 & ->)%cmf_metadata Hph.
  rewrite E1, E2. unfold metadata_matches. simpl.
  destruct (String.eqb e1 et) eqn:Q1; [|done]. destruct (String.eqb e2 et) eqn:Q2; [|done].
  apply String.eqb_eq in Q1 as ->. apply String.eqb_eq in Q2 as ->.
  by destruct p1, p2, ph.
Qed.

(** For a plugin registered under CMF hooks only, the entry dispatched for a
    request with an entity type and a phase does not depend on the order the
    map of its hooks is walked in. *)
Theorem pick_entry_deterministic {P H} (o1 o2 : HashOrder) (self : RoutePluginEntry P H) et ph :
  (∀ hook, is_Some (rpe_entries_by_hook self !! hook) → hook ∈ cmf_hooks) → ph ≠ HUnphased →
  pick_entry (order := o1) hook_table_init self (Some et) ph
  = pick_entry (order := o2) hook_table_init self (Some et) ph.
Proof.
  intros Hc Hph.
  destruct (pick_entry (order := o1) _ self _ _) as [e1|] eqn:E1;
    destruct (pick_entry (order := o2) _ self _ _) as [e2|] eqn:E2; try done.
  - apply pick_entry_matches in E1 as (h1 & L1 & M1). apply pick_entry_matches in E2 as (h2 & L2 & M2).
    assert (h1 = h2) as -> by (eapply cmf_match_unique; eauto). congruence.
  - apply pick_entry_matches in E1 as (h1 & L1 & M1).
    rewrite pick_entry_None in E2. by rewrite (E2 _ _ L1) in M1.
  - apply pick_entry_matches in E2 as (h2 & L2 & M2).
    rewrite pick_entry_None in E1. by rewrite (E1 _ _ L2) in M2.
Qed.

(** ** Examples *)

Module DispatchDemo.
Import Executor.Demo.

Definition hook_entry (h : Answer) : HookEntry unit Answer :=
  mkHookEntry (plugin_ref_new tt ManagerFacts.Demo.guard 7%N 0) h.

(** A plugin with a pre and a post hook. *)
Definition both_phases : RoutePluginEntry unit Answer :=
  mkRoutePluginEntry "guard"
    {[ HOOK_CMF_TOOL_PRE_INVOKE := hook_entry denies;
       HOOK_CMF_TOOL_POST_INVOKE := hook_entry allows ]}.

Lemma pick_deterministic_witness :
  pick_entry (order := Config.Demo.forward) hook_table_init both_phases (Some "tool") HPre
  = pick_entry (order := Config.Demo.backward) hook_table_init both_phases (Some "tool") HPre.
Proof.
  apply pick_entry_deterministic; [|done]. intros hook [e He].
  unfold both_phases in He. simpl in He.
  apply lookup_insert_Some in He as [[<- _]|[_ He]]; [set_solver|].
  apply lookup_singleton_Some in He as [<- _]. set_solver.
Defined.

(** A plugin that also delegates. *)
Definition also_delegates : RoutePluginEntry unit Answer :=
  mkRoutePluginEntry "guard"
    {[ HOOK_CMF_TOOL_PRE_INVOKE := hook_entry denies; HOOK_TOKEN_DELEGATE := hook_entry allows ]}.

(** A route that narrows the plugin it calls. *)
Definition narrowed_route : CompiledRoute :=
  mkRoute "tool:get_pay" [] [EPlugin "guard"] [] []
    {[ "guard" := mkPluginOverride None (Some ["read_labels"]) None ]} None.
Definition declared : gmap string PluginDeclaration :=
  {[ "guard" := mkPluginDecl "guard" "denier" [] ["read_labels"; "read_subject"] None None ∅ ]}.

Abbreviation planned := (plan_build narrowed_route declared ManagerFacts.Demo.loaded.1
                           ManagerFacts.Demo.loaded.2).

Lemma planned_capabilities_witness :
  ∃ rpe e, plan_get planned.1 "guard" = Some rpe
    ∧ rpe_entries_by_hook rpe !! "tool_pre_invoke" = Some e
    ∧ pcf_capabilities (pr_trusted_config (he_plugin_ref e)) = {["read_labels"]}.
Proof.
  destruct (plan_get planned.1 "guard") as [rpe|] eqn:E1; [|by vm_compute in E1].
  destruct (rpe_entries_by_hook rpe !! "tool_pre_invoke") as [e|] eqn:E2;
    [|vm_compute in E1; injection E1 as <-; by vm_compute in E2].
  exists rpe, e. split_and!; [done|done|].
  destruct (planned_capabilities narrowed_route declared ManagerFacts.Demo.loaded.1
    ManagerFacts.Demo.loaded.2 "guard" rpe "tool_pre_invoke" e
    (mkPluginOverride None (Some ["read_labels"]) None) ["read_labels"]) as [Hc _];
    [reflexivity|reflexivity|exact E1|exact E2|]. rewrite Hc. apply (right_id_L ∅ (∪)).
Defined.

(** Plan, unregister a plugin, plan again. *)
Definition after_change :=
  let s := (get_or_build narrowed_route declared ∅ ManagerFacts.Demo.loaded).2 in
  (s.1, ((manager_unregister "logger" s.2.1).2, s.2.2)).


End DispatchDemo.

(** A plugin that also registers a hook without a phase, such as
    [token.delegate], may have that handler called for a tool call: which one
    depends on the order of the map. *)
Theorem pick_entry_crosses_families :
  pick_entry (order := Config.Demo.backward) hook_table_init DispatchDemo.also_delegates
    (Some ENTITY_TOOL) HPre
  ≠ pick_entry (order := Config.Demo.forward) hook_table_init DispatchDemo.also_delegates
      (Some ENTITY_TOOL) HPre.
Proof. by vm_compute. Qed.
