(* ===== verification/Delegation.v ===== *)
(** * Identity, delegation and elicitation payloads, and their invokers
    (cpex-core/src/identity/payload.rs, delegation/payload.rs,
    elicitation/payload.rs; apl-cpex/src/delegation_invoker.rs,
    elicitation_invoker.rs)

    The payloads the identity, token-delegation and elicitation hooks carry, how
    their results are written back into the request's extensions, and the two
    bridges from APL steps to those hooks.  The bridges take the request's
    extensions and the manager explicitly. *)

From S2P Require Import Prelude RustStd F64 Json Yaml Attributes Ir ExtData Extensions.
From S2P Require Import Orchestration PluginTypes Config ConfigLoad Registry Executor Manager.
From S2P Require Import Dispatch.

Local Open Scope string_scope.
Local Open Scope list_scope.

(** [dyn PluginPayload] with [as_any().downcast_ref::<T>()]. *)
Class Erased (T Pay : Type) := {
  erase : T → Pay;
  downcast : Pay → option T;
  downcast_erase x : downcast (erase x) = Some x
}.

(** [DateTime::to_rfc3339_opts(Secs, true)] (chrono). *)
Class Rfc3339 := to_rfc3339 : Z → string.

(** ** Setters of the extensions *)

Definition set_ext_security (e : Extensions) (s : option SecurityExtension) : Extensions :=
  mkExtensions (x_request e) (x_agent e) (x_http e) s (x_candidate_constraint e) (x_delegation e)
    (x_raw_credentials e) (x_mcp e) (x_completion e) (x_provenance e) (x_llm e) (x_framework e)
    (x_meta e) (x_custom e) (x_http_write_token e) (x_labels_write_token e)
    (x_delegation_write_token e).
Definition set_ext_raw (e : Extensions) (r : option RawCredentialsExtension) : Extensions :=
  mkExtensions (x_request e) (x_agent e) (x_http e) (x_security e) (x_candidate_constraint e)
    (x_delegation e) r (x_mcp e) (x_completion e) (x_provenance e) (x_llm e) (x_framework e)
    (x_meta e) (x_custom e) (x_http_write_token e) (x_labels_write_token e)
    (x_delegation_write_token e).
Definition set_ext_delegation (e : Extensions) (d : option DelegationExtension) : Extensions :=
  mkExtensions (x_request e) (x_agent e) (x_http e) (x_security e) (x_candidate_constraint e) d
    (x_raw_credentials e) (x_mcp e) (x_completion e) (x_provenance e) (x_llm e) (x_framework e)
    (x_meta e) (x_custom e) (x_http_write_token e) (x_labels_write_token e)
    (x_delegation_write_token e).

(** [if other.is_some() { self = other }]. *)
Definition overlay {A} (self other : option A) : option A :=
  match other with Some x => Some x | None => self end.

(** ** Identity *)

Inductive TokenSource := Bearer | UserToken | Mtls | SpiffeJwtSvid | ApiKey | CustomSource (s : string).
Definition token_source_default : TokenSource := Bearer.

Record IdentityPayload := mkIdentity {
  ip_raw_token : string;
  ip_source : TokenSource;
  ip_source_header : option string;
  ip_headers : gmap string string;
  ip_client_host : option string;
  ip_client_port : option Z;
  ip_subject : option SubjectExtension;
  ip_client : option ClientExtension;
  ip_caller_workload : option WorkloadIdentity;
  ip_delegation : option DelegationExtension;
  ip_raw_credentials : option RawCredentialsExtension;
  ip_resolved_at : option Z;
  ip_raw_claims : gmap string Value
}.

Definition identity_new (raw_token : string) (source : TokenSource) : IdentityPayload :=
  mkIdentity raw_token source None ∅ None None None None None None None None ∅.

Definition identity_merge (self other : IdentityPayload) : IdentityPayload :=
  mkIdentity (ip_raw_token self) (ip_source self) (ip_source_header self) (ip_headers self)
    (ip_client_host self) (ip_client_port self)
    (overlay (ip_subject self) (ip_subject other))
    (overlay (ip_client self) (ip_client other))
    (overlay (ip_caller_workload self) (ip_caller_workload other))
    (overlay (ip_delegation self) (ip_delegation other))
    (overlay (ip_raw_credentials self) (ip_raw_credentials other))
    (overlay (ip_resolved_at self) (ip_resolved_at other))
    (ip_raw_claims other ∪ ip_raw_claims self).

Definition identity_from_result {Pay} `{Erased IdentityPayload Pay} (r : PipelineResult Pay) :
    option IdentityPayload := pr_modified_payload r ≫= downcast.

Definition with_identity (p : IdentityPayload) (s : SecurityExtension) : SecurityExtension :=
  mkSecurity (sc_labels s) (sc_classification s) (overlay (sc_subject s) (ip_subject p))
    (overlay (sc_client s) (ip_client p))
    (overlay (sc_caller_workload s) (ip_caller_workload p)) (sc_this_workload s)
    (sc_auth_method s) (sc_objects s) (sc_data s).

Definition identity_apply_to_extensions (self : IdentityPayload) (ext : Extensions) : Extensions :=
  let needs_security_update :=
    is_some (ip_subject self) || is_some (ip_client self) || is_some (ip_caller_workload self) in
  let ext :=
    if needs_security_update then
      set_ext_security ext (Some (with_identity self (default security_default (x_security ext))))
    else ext in
  let ext := match ip_raw_credentials self with
             | Some rc => set_ext_raw ext (Some rc)
             | None => ext
             end in
  match ip_delegation self with
  | Some d => set_ext_delegation ext (Some d)
  | None => ext
  end.

(** ** Delegation *)

Inductive DelegationSubject := SubUser | SubClient | SubCallerWorkload | SubThisWorkload.
#[global] Instance DelegationSubject_eq_dec : EqDecision DelegationSubject.
Proof. solve_decision. Defined.
Definition delegation_subject_default : DelegationSubject := SubUser.

Definition inbound_role (s : DelegationSubject) : option TokenRole :=
  match s with
  | SubUser => Some RoleUser
  | SubClient => Some RoleClient
  | SubCallerWorkload => Some RoleCallerWorkload
  | SubThisWorkload => None
  end.

Definition default_mode (s : DelegationSubject) : DelegationMode :=
  match s with
  | SubUser => OnBehalfOfUser
  | SubClient => AsClient
  | SubCallerWorkload => AsCallerWorkload
  | SubThisWorkload => AsThisWorkload
  end.

Definition subject_from_config_str (s : string) : option DelegationSubject :=
  match s with
  | "user" => Some SubUser
  | "client" => Some SubClient
  | "caller_workload" | "workload" => Some SubCallerWorkload
  | "this_workload" | "gateway" => Some SubThisWorkload
  | _ => None
  end.

Inductive TargetType := TargetTool | TargetAgent | TargetResource | TargetService
| TargetCustom (s : string).
Inductive AuthEnforcedBy := EnforcedByCaller | EnforcedByTarget | EnforcedByBoth.

Record AttenuationConfig := mkAttenuation {
  at_capabilities : list string;
  at_resource_template : option string;
  at_actions : list string;
  at_ttl_seconds : option Z
}.

Record DelegationPayload := mkDelegationPayload {
  dpl_bearer_token : string;
  dpl_actor_token : string;
  dpl_actor_role : option TokenRole;
  dpl_subject : DelegationSubject;
  dpl_target_name : string;
  dpl_target_type : TargetType;
  dpl_target_audience : option string;
  dpl_required_permissions : list string;
  dpl_trust_domain : option string;
  dpl_auth_enforced_by : AuthEnforcedBy;
  dpl_route_attenuation : option AttenuationConfig;
  dpl_delegated_token : option RawDelegatedToken;
  dpl_delegation_update : option DelegationExtension;
  dpl_delegation_mode : option DelegationMode;
  dpl_minted_at : option Z;
  dpl_metadata : gmap string Value
}.

Definition delegation_new (bearer_token target_name : string) : DelegationPayload :=
  mkDelegationPayload bearer_token EmptyString None delegation_subject_default target_name
    TargetTool None [] None EnforcedByCaller None None None None None ∅.

Definition with_actor (p : DelegationPayload) (role : TokenRole) (actor_token : string) :
    DelegationPayload :=
  mkDelegationPayload (dpl_bearer_token p) actor_token (Some role) (dpl_subject p)
    (dpl_target_name p) (dpl_target_type p) (dpl_target_audience p) (dpl_required_permissions p)
    (dpl_trust_domain p) (dpl_auth_enforced_by p) (dpl_route_attenuation p)
    (dpl_delegated_token p) (dpl_delegation_update p) (dpl_delegation_mode p) (dpl_minted_at p)
    (dpl_metadata p).
Definition with_subject (p : DelegationPayload) (s : DelegationSubject) : DelegationPayload :=
  mkDelegationPayload (dpl_bearer_token p) (dpl_actor_token p) (dpl_actor_role p) s
    (dpl_target_name p) (dpl_target_type p) (dpl_target_audience p) (dpl_required_permissions p)
    (dpl_trust_domain p) (dpl_auth_enforced_by p) (dpl_route_attenuation p)
    (dpl_delegated_token p) (dpl_delegation_update p) (dpl_delegation_mode p) (dpl_minted_at p)
    (dpl_metadata p).
Definition with_target_type (p : DelegationPayload) (t : TargetType) : DelegationPayload :=
  mkDelegationPayload (dpl_bearer_token p) (dpl_actor_token p) (dpl_actor_role p) (dpl_subject p)
    (dpl_target_name p) t (dpl_target_audience p) (dpl_required_permissions p)
    (dpl_trust_domain p) (dpl_auth_enforced_by p) (dpl_route_attenuation p)
    (dpl_delegated_token p) (dpl_delegation_update p) (dpl_delegation_mode p) (dpl_minted_at p)
    (dpl_metadata p).
Definition with_target_audience (p : DelegationPayload) (aud : string) : DelegationPayload :=
  mkDelegationPayload (dpl_bearer_token p) (dpl_actor_token p) (dpl_actor_role p) (dpl_subject p)
    (dpl_target_name p) (dpl_target_type p) (Some aud) (dpl_required_permissions p)
    (dpl_trust_domain p) (dpl_auth_enforced_by p) (dpl_route_attenuation p)
    (dpl_delegated_token p) (dpl_delegation_update p) (dpl_delegation_mode p) (dpl_minted_at p)
    (dpl_metadata p).
Definition with_required_permissions (p : DelegationPayload) (perms : list string) :
    DelegationPayload :=
  mkDelegationPayload (dpl_bearer_token p) (dpl_actor_token p) (dpl_actor_role p) (dpl_subject p)
    (dpl_target_name p) (dpl_target_type p) (dpl_target_audience p) perms
    (dpl_trust_domain p) (dpl_auth_enforced_by p) (dpl_route_attenuation p)
    (dpl_delegated_token p) (dpl_delegation_update p) (dpl_delegation_mode p) (dpl_minted_at p)
    (dpl_metadata p).
Definition with_auth_enforced_by (p : DelegationPayload) (who : AuthEnforcedBy) :
    DelegationPayload :=
  mkDelegationPayload (dpl_bearer_token p) (dpl_actor_token p) (dpl_actor_role p) (dpl_subject p)
    (dpl_target_name p) (dpl_target_type p) (dpl_target_audience p) (dpl_required_permissions p)
    (dpl_trust_domain p) who (dpl_route_attenuation p)
    (dpl_delegated_token p) (dpl_delegation_update p) (dpl_delegation_mode p) (dpl_minted_at p)
    (dpl_metadata p).

Definition involves_workload (p : DelegationPayload) : bool :=
  bool_decide (dpl_subject p = SubCallerWorkload)
  || bool_decide (dpl_actor_role p = Some RoleCallerWorkload).
Definition involves_client (p : DelegationPayload) : bool :=
  bool_decide (dpl_subject p = SubClient) || bool_decide (dpl_actor_role p = Some RoleClient).

Definition delegation_merge (self other : DelegationPayload) : DelegationPayload :=
  mkDelegationPayload (dpl_bearer_token self) (dpl_actor_token self) (dpl_actor_role self)
    (dpl_subject self) (dpl_target_name self) (dpl_target_type self) (dpl_target_audience self)
    (dpl_required_permissions self) (dpl_trust_domain self) (dpl_auth_enforced_by self)
    (dpl_route_attenuation self)
    (overlay (dpl_delegated_token self) (dpl_delegated_token other))
    (overlay (dpl_delegation_update self) (dpl_delegation_update other))
    (overlay (dpl_delegation_mode self) (dpl_delegation_mode other))
    (overlay (dpl_minted_at self) (dpl_minted_at other))
    (dpl_metadata other ∪ dpl_metadata self).

Definition delegation_from_result {Pay} `{Erased DelegationPayload Pay} (r : PipelineResult Pay) :
    option DelegationPayload := pr_modified_payload r ≫= downcast.

(** The [DelegationKey] a minted token is filed under. *)
Definition delegation_key (self : DelegationPayload) (token : RawDelegatedToken) (ext : Extensions) :
    DelegationKey :=
  mkDelegationKey
    (default EmptyString (s ← x_security ext; j ← sc_subject s; sj_id j))
    (if involves_workload self then s ← x_security ext; w ← sc_caller_workload s; wl_spiffe_id w
     else None)
    (if involves_client self then
       id ← (s ← x_security ext; c ← sc_client s; Some (cl_client_id c));
       if String.eqb id EmptyString then None else Some id
     else None)
    (dt_audience token) (dt_scopes token)
    (default OnBehalfOfUser (dpl_delegation_mode self)).

Definition raw_default : RawCredentialsExtension := mkRawCredentials ∅ ∅.

Definition delegation_apply_to_extensions (self : DelegationPayload) (ext : Extensions) :
    Extensions :=
  let ext :=
    match dpl_delegated_token self with
    | Some token =>
        let key := delegation_key self token ext in
        let raw := default raw_default (x_raw_credentials ext) in
        set_ext_raw ext (Some (mkRawCredentials (rc_inbound_tokens raw)
                                 (<[key := token]> (rc_delegated_tokens raw))))
    | None => ext
    end in
  match dpl_delegation_update self with
  | Some update => set_ext_delegation ext (Some update)
  | None => ext
  end.

(** ** Elicitation *)

Inductive ElicitationOp := OpDispatch | OpCheck | OpValidate.
Inductive ElicitationStatusKind := KPending | KResolved | KExpired.
Inductive ElicitationOutcomeKind := KApproved | KDenied.

Record ElicitationPayload := mkElicitationPayload {
  ep_operation : ElicitationOp;
  ep_elicitation_id : option string;
  ep_kind_name : string;
  ep_from : string;
  ep_purpose : option string;
  ep_scope : option string;
  ep_timeout : option string;
  ep_channel : option string;
  ep_id : option string;
  ep_status : option ElicitationStatusKind;
  ep_outcome : option ElicitationOutcomeKind;
  ep_approver : option string;
  ep_intent_id : option string;
  ep_expires_at : option string;
  ep_valid : option bool;
  ep_reason : option string;
  ep_metadata : gmap string Value
}.

Definition elicitation_new (operation : ElicitationOp) (kind from : string) : ElicitationPayload :=
  mkElicitationPayload operation None kind from None None None None None None None None None None
    None None ∅.

Definition with_elicitation_id (p : ElicitationPayload) (id : string) : ElicitationPayload :=
  mkElicitationPayload (ep_operation p) (Some id) (ep_kind_name p) (ep_from p) (ep_purpose p)
    (ep_scope p) (ep_timeout p) (ep_channel p) (ep_id p) (ep_status p) (ep_outcome p)
    (ep_approver p) (ep_intent_id p) (ep_expires_at p) (ep_valid p) (ep_reason p) (ep_metadata p).

Definition elicitation_from_result {Pay} `{Erased ElicitationPayload Pay} (r : PipelineResult Pay) :
    option ElicitationPayload := pr_modified_payload r ≫= downcast.

(** [apply_step_inputs]: each builder only when the step has the value. *)
Definition apply_step_inputs (p : ElicitationPayload) (step : ElicitStep) : ElicitationPayload :=
  mkElicitationPayload (ep_operation p) (ep_elicitation_id p) (ep_kind_name p) (ep_from p)
    (overlay (ep_purpose p) (es_purpose step)) (overlay (ep_scope p) (es_scope step))
    (overlay (ep_timeout p) (es_timeout step)) (overlay (ep_channel p) (es_channel step))
    (ep_id p) (ep_status p) (ep_outcome p) (ep_approver p) (ep_intent_id p) (ep_expires_at p)
    (ep_valid p) (ep_reason p) (ep_metadata p).

(** ** The bridges *)

(** [ElicitKind::as_str]. *)
Definition elicit_kind_str (k : ElicitKind) : string :=
  match k with
  | Approval => "approval" | Confirm => "confirm" | StepUp => "step_up"
  | Attestation => "attestation" | Info => "info" | Review => "review"
  end.

(** [cfg.and_then(|m| m.get(key))]. *)
Definition cfg_get (cfg : option Mapping) (key : string) : option Yaml :=
  m ← cfg; mapping_get m key.
Definition cfg_str (cfg : option Mapping) (key : string) : option string :=
  cfg_get cfg key ≫= yaml_as_str.

Definition subject_from_cfg (cfg : option Mapping) : Result DelegationSubject DelegationError :=
  match cfg_get cfg "subject" with
  | None => Ok delegation_subject_default
  | Some v =>
      match yaml_as_str v with
      | None => Err (DelegationInvalidConfig "`subject:` must be a string")
      | Some s =>
          match subject_from_config_str s with
          | Some sub => Ok sub
          | None =>
              Err (DelegationInvalidConfig ("unknown `subject: " +:+ s
                +:+ "` (expected user | client | caller_workload | this_workload)"))
          end
      end
  end.

Definition role_from_cfg (cfg : option Mapping) (key : string) :
    Result (option TokenRole) DelegationError :=
  match cfg_get cfg key with
  | None => Ok None
  | Some v =>
      match yaml_as_str v with
      | None => Err (DelegationInvalidConfig ("`" +:+ key +:+ ":` must be a string"))
      | Some s =>
          match s with
          | "user" => Ok (Some RoleUser)
          | "client" => Ok (Some RoleClient)
          | "caller_workload" | "workload" => Ok (Some RoleCallerWorkload)
          | other =>
              Err (DelegationInvalidConfig ("unknown `" +:+ key +:+ ": " +:+ other
                +:+ "` (expected user | client | caller_workload)"))
          end
      end
  end.

Definition reject_unsupported_actor_combo (subject : DelegationSubject) (actor : option TokenRole) :
    Result unit DelegationError :=
  if is_some actor
     && match subject with SubCallerWorkload | SubThisWorkload => true | _ => false end
  then Err (DelegationInvalidConfig "`actor:` is not supported with `subject: caller_workload` or `subject: this_workload` — the actor would be silently ignored")
  else Ok tt.

Definition target_type_from_str (s : string) : TargetType :=
  match to_ascii_lowercase s with
  | "tool" => TargetTool
  | "agent" => TargetAgent
  | "resource" => TargetResource
  | "service" => TargetService
  | other => TargetCustom other
  end.

Definition auth_enforced_by_from_str (s : string) : AuthEnforcedBy :=
  match to_ascii_lowercase s with
  | "caller" => EnforcedByCaller
  | "target" => EnforcedByTarget
  | _ => EnforcedByCaller
  end.

Definition inbound_token (ext : Extensions) (role : TokenRole) : option string :=
  rc ← x_raw_credentials ext; tok ← rc_inbound_tokens rc !! role; Some (it_token tok).

(** The payload a [delegate(...)] step asks for, or why it cannot be built. *)
Definition delegation_request (step : DelegateStep) (ext : Extensions) :
    Result DelegationPayload DelegationError :=
  let cfg := ds_config_override step ≫= yaml_as_mapping in
  match subject_from_cfg cfg with
  | Err e => Err e
  | Ok subject =>
      let bearer_token := default EmptyString (inbound_role subject ≫= inbound_token ext) in
      let target_name := default (ds_plugin_name step) (cfg_str cfg "target") in
      match role_from_cfg cfg "actor" with
      | Err e => Err e
      | Ok actor_role =>
          match reject_unsupported_actor_combo subject actor_role with
          | Err e => Err e
          | Ok _ =>
              let payload := with_subject (delegation_new bearer_token target_name) subject in
              let payload :=
                match actor_role with
                | Some role =>
                    let actor_token := default EmptyString (inbound_token ext role) in
                    if String.eqb actor_token EmptyString then payload
                    else with_actor payload role actor_token
                | None => payload
                end in
              let payload :=
                match cfg_str cfg "audience" with
                | Some audience => with_target_audience payload audience
                | None => payload
                end in
              let payload :=
                match cfg_get cfg "permissions" ≫= yaml_as_sequence with
                | Some perms =>
                    let l := omap yaml_as_str perms in
                    if is_nil l then payload else with_required_permissions payload l
                | None => payload
                end in
              let payload :=
                match cfg_str cfg "target_type" with
                | Some t => with_target_type payload (target_type_from_str t)
                | None => payload
                end in
              Ok (match cfg_str cfg "auth_enforced_by" with
                  | Some who => with_auth_enforced_by payload (auth_enforced_by_from_str who)
                  | None => payload
                  end)
          end
      end
  end.

(** ** Properties of the payloads *)

Lemma overlay_assoc {A} (a b c : option A) : overlay a (overlay b c) = overlay (overlay a b) c.
Proof. by destruct c. Qed.

(** A chain of identity resolvers may be folded or applied one by one:
    writing the merged payload into the extensions is writing each payload in
    turn. *)
Theorem identity_merge_apply a b ext :
  identity_apply_to_extensions (identity_merge a b) ext
  = identity_apply_to_extensions b (identity_apply_to_extensions a ext).
Proof.
  destruct a as [? ? ? ? ? ? [sa|] [ca|] [wa|] [da|] [ra|] ta ma],
    b as [? ? ? ? ? ? [sb|] [cb|] [wb|] [db|] [rb|] tb mb]; reflexivity.
Qed.

Lemma identity_merge_assoc a b c :
  identity_merge (identity_merge a b) c = identity_merge a (identity_merge b c).
Proof. unfold identity_merge. simpl. by rewrite !overlay_assoc, (assoc_L (∪)). Qed.

(** Merging keeps the inputs, so a later handler cannot swap the token the
    chain is about. *)
Lemma identity_merge_inputs a b :
  ip_raw_token (identity_merge a b) = ip_raw_token a
  ∧ ip_source (identity_merge a b) = ip_source a ∧ ip_headers (identity_merge a b) = ip_headers a.
Proof. done. Qed.

(** The principals a key names, and those of an exchange. *)
Definition principals (k : DelegationKey) : string * option string * option string :=
  (dk_subject_id k, dk_workload_id k, dk_client_id k).

Lemma delegation_apply_security p ext :
  x_security (delegation_apply_to_extensions p ext) = x_security ext.
Proof.
  unfold delegation_apply_to_extensions. by destruct (dpl_delegated_token p), (dpl_delegation_update p).
Qed.

Lemma delegation_apply_raw p ext :
  x_raw_credentials (delegation_apply_to_extensions p ext)
  = match dpl_delegated_token p with
    | Some token =>
        let raw := default raw_default (x_raw_credentials ext) in
        Some (mkRawCredentials (rc_inbound_tokens raw)
                (<[delegation_key p token ext := token]> (rc_delegated_tokens raw)))
    | None => x_raw_credentials ext
    end.
Proof.
  unfold delegation_apply_to_extensions. by destruct (dpl_delegated_token p), (dpl_delegation_update p).
Qed.

(** The minted token of a key, if any. *)
Definition minted (ext : Extensions) (k : DelegationKey) : option RawDelegatedToken :=
  rc ← x_raw_credentials ext; rc_delegated_tokens rc !! k.

(** A token minted for one set of principals is never handed to another:
    filing a new one leaves the tokens of every other user, workload or client
    as they were, and the new one is found under its own key. *)
Theorem minted_tokens_isolated p token ext k :
  dpl_delegated_token p = Some token →
  minted (delegation_apply_to_extensions p ext) (delegation_key p token ext) = Some token
  ∧ (principals k ≠ principals (delegation_key p token ext) →
     minted (delegation_apply_to_extensions p ext) k = minted ext k).
Proof.
  intros Ht. unfold minted. rewrite delegation_apply_raw, Ht. simpl. split.
  - by rewrite lookup_insert_eq.
  - intros Hne. rewrite lookup_insert_ne by congruence. by destruct (x_raw_credentials ext).
Qed.

(** Two agents (or two clients) that take part in an exchange have distinct
    principals, also when no user does. *)
Lemma workloads_distinct p1 p2 t1 t2 e1 e2 s1 s2 w1 w2 :
  involves_workload p1 = true → involves_workload p2 = true →
  x_security e1 = Some s1 → x_security e2 = Some s2 →
  sc_caller_workload s1 ≫= wl_spiffe_id = Some w1 → sc_caller_workload s2 ≫= wl_spiffe_id = Some w2 →
  w1 ≠ w2 → principals (delegation_key p1 t1 e1) ≠ principals (delegation_key p2 t2 e2).
Proof.
  unfold principals, delegation_key. intros -> -> -> -> Hw1 Hw2 Hne [= _ Hw _].
  destruct (sc_caller_workload s1), (sc_caller_workload s2); simpl in *; congruence.
Qed.

(** A delegation exchanges the credentials of the roles the step names and no
    others: the subject's inbound token, or none when the subject is this
    workload; an actor only with a token of its own role and only beside a user
    or a client. *)
Theorem delegation_request_roles step ext p :
  delegation_request step ext = Ok p →
  dpl_bearer_token p = default EmptyString (inbound_role (dpl_subject p) ≫= inbound_token ext)
  ∧ match dpl_actor_role p with
    | Some role => inbound_token ext role = Some (dpl_actor_token p) ∧ dpl_actor_token p ≠ EmptyString
                   ∧ (dpl_subject p = SubUser ∨ dpl_subject p = SubClient)
    | None => dpl_actor_token p = EmptyString
    end
  ∧ dpl_delegated_token p = None ∧ dpl_delegation_update p = None.
Proof.
  unfold delegation_request. set (cfg := _ ≫= yaml_as_mapping).
  destruct (subject_from_cfg cfg) as [sub|e]; [|done].
  destruct (role_from_cfg cfg "actor") as [actor|e]; [|done].
  destruct (reject_unsupported_actor_combo sub actor) as [[]|e] eqn:Er; [|done].
  set (base := match actor with Some _ => _ | None => _ end).
  assert (dpl_subject base = sub
    ∧ dpl_bearer_token base = default EmptyString (inbound_role sub ≫= inbound_token ext)
    ∧ match dpl_actor_role base with
      | Some role => inbound_token ext role = Some (dpl_actor_token base)
                     ∧ dpl_actor_token base ≠ EmptyString ∧ (sub = SubUser ∨ sub = SubClient)
      | None => dpl_actor_token base = EmptyString
      end
    ∧ dpl_delegated_token base = None ∧ dpl_delegation_update base = None) as Hb.
  { subst base. destruct actor as [role|]; [|done].
    destruct (String.eqb _ EmptyString) eqn:Ee; [done|]. apply String.eqb_neq in Ee. simpl.
    split_and!; try done.
    - by destruct (inbound_token ext role).
    - by destruct sub; auto. }
  clearbody base. intros Hp.
  assert (dpl_subject p = dpl_subject base ∧ dpl_bearer_token p = dpl_bearer_token base
    ∧ dpl_actor_role p = dpl_actor_role base ∧ dpl_actor_token p = dpl_actor_token base
    ∧ dpl_delegated_token p = dpl_delegated_token base
    ∧ dpl_delegation_update p = dpl_delegation_update base) as (-> & -> & -> & -> & -> & ->).
  { injection Hp as <-. repeat case_match; done. }
  destruct Hb as (-> & ? & ? & ? & ?). done.
Qed.

Section Bridges.
Context {P H F V Pay W : Type}.
Context `{HookHandler H Pay W} `{Timer W} `{Runtime W}.
Context `{PluginFactory F P H W} `{Plugin P W} `{HookTypeName H} `{UuidSource W}.
Context `{TaskRuntime H Pay W} `{YamlToJson} `{YamlLib} `{SerdeConfig} `{WildMatch} `{order : HashOrder}.
Context `{Erased DelegationPayload Pay} `{Erased ElicitationPayload Pay} `{Rfc3339}.

Abbreviation Plan := (RouteDispatchPlan P H).
Abbreviation State := (PluginManager P H F V Pay * Env W)%type.

Definition outcome_deny (d : Decision) : DelegationOutcome := mkDelegationOutcome d [] None None.

(** [DelegationPluginInvoker::delegate]; [ext] is the request's extensions. *)
Definition delegate_step (plan : Plan) (step : DelegateStep) (ext : Extensions) (st : State) :
    Result DelegationOutcome DelegationError * (Extensions * State) :=
  match dp_delegation_entries plan !! ds_plugin_name step with
  | None => (Err (DelegationNotFound (ds_plugin_name step)), (ext, st))
  | Some entry =>
      match delegation_request step ext with
      | Err e => (Err e, (ext, st))
      | Ok payload =>
          let '(result, st) := invoke_entries [entry] (erase payload) ext None st in
          if negb (pr_continue_processing result) then
            (Ok (outcome_deny
                   (match pr_violation result with
                    | Some v => Deny (Some (vi_reason v)) (vi_code v)
                    | None =>
                        Deny (Some ("delegate `" +:+ ds_plugin_name step
                                      +:+ "` denied without violation detail")) (ds_source step)
                    end)), (ext, st))
          else
            match delegation_from_result result with
            | None =>
                (Err (DelegationDispatch ("plugin `" +:+ ds_plugin_name step
                        +:+ "` returned allow but no DelegationPayload")), (ext, st))
            | Some resolved =>
                let ext := delegation_apply_to_extensions resolved ext in
                (Ok (match dpl_delegated_token resolved with
                     | Some tok =>
                         mkDelegationOutcome Allow (dt_scopes tok) (Some (dt_audience tok))
                           (Some (to_rfc3339 (dt_expires_at tok)))
                     | None => mkDelegationOutcome Allow [] None None
                     end), (ext, st))
            end
      end
  end.

(** [ElicitationPluginInvoker::invoke]. *)
Definition elicit_invoke (plan : Plan) (op plugin_name : string) (payload : ElicitationPayload)
    (ext : Extensions) (st : State) : Result ElicitationPayload ElicitationError * State :=
  match dp_elicitation_entries plan !! plugin_name with
  | None => (Err (ElicitationNotFound plugin_name), st)
  | Some entry =>
      let '(result, st) := invoke_entries [entry] (erase payload) ext None st in
      if negb (pr_continue_processing result) then
        let detail := match pr_violation result with
                      | Some v => vi_code v +:+ ": " +:+ vi_reason v
                      | None => "denied without violation detail"
                      end in
        (Err (ElicitationHandler (op +:+ ": plugin `" +:+ plugin_name +:+ "` halted: " +:+ detail)), st)
      else
        match elicitation_from_result result with
        | Some p => (Ok p, st)
        | None =>
            (Err (ElicitationHandler (op +:+ ": plugin `" +:+ plugin_name
                    +:+ "` returned allow but no ElicitationPayload")), st)
        end
  end.

Definition elicit_dispatch_step (plan : Plan) (step : ElicitStep) (resolved_from : string)
    (ext : Extensions) (st : State) : Result ElicitationDispatch ElicitationError * State :=
  let payload :=
    apply_step_inputs
      (elicitation_new OpDispatch (elicit_kind_str (es_kind step)) resolved_from) step in
  let '(r, st) := elicit_invoke plan "dispatch" (es_plugin_name step) payload ext st in
  match r with
  | Err e => (Err e, st)
  | Ok out =>
      match ep_id out with
      | None =>
          (Err (ElicitationHandler ("dispatch: plugin `" +:+ es_plugin_name step
                  +:+ "` dispatched without returning an id")), st)
      | Some id =>
          (Ok (mkElicitationDispatch id (ep_approver out) (ep_intent_id out) (ep_expires_at out)),
           st)
      end
  end.

Definition elicit_check_step (plan : Plan) (step : ElicitStep) (id : string) (ext : Extensions)
    (st : State) : Result ElicitationStatus ElicitationError * State :=
  let payload :=
    apply_step_inputs
      (with_elicitation_id (elicitation_new OpCheck (elicit_kind_str (es_kind step)) EmptyString)
         id) step in
  let '(r, st) := elicit_invoke plan "check" (es_plugin_name step) payload ext st in
  match r with
  | Err e => (Err e, st)
  | Ok out =>
      match ep_status out with
      | Some KPending | None => (Ok StPending, st)
      | Some KExpired => (Ok StExpired, st)
      | Some KResolved =>
          (Ok (StResolved (match ep_outcome out with
                           | Some KApproved => Approved
                           | Some KDenied | None => Denied
                           end)), st)
      end
  end.

Definition elicit_validate_step (plan : Plan) (step : ElicitStep) (id : string) (ext : Extensions)
    (st : State) : Result ElicitationValidation ElicitationError * State :=
  let payload :=
    apply_step_inputs
      (with_elicitation_id
         (elicitation_new OpValidate (elicit_kind_str (es_kind step)) EmptyString) id) step in
  let '(r, st) := elicit_invoke plan "validate" (es_plugin_name step) payload ext st in
  match r with
  | Err e => (Err e, st)
  | Ok out =>
      (Ok (mkValidation (default false (ep_valid out)) (ep_approver out) (ep_intent_id out)
             (ep_reason out)), st)
  end.

(** *** Properties of the bridges *)

(** A [delegate(...)] step never changes who the caller is: whatever the
    plugin answers, the request keeps its security extension and its inbound
    tokens; a step that is denied or fails leaves the extensions alone, and one
    that succeeds reports what was minted. *)
Theorem delegate_keeps_identity plan step ext st r ext' st' :
  delegate_step plan step ext st = (r, (ext', st')) →
  x_security ext' = x_security ext
  ∧ (∀ role, inbound_token ext' role = inbound_token ext role)
  ∧ match r with
    | Ok o =>
        (ext' = ext ∧ do_decision o ≠ Allow)
        ∨ ∃ resolved, ext' = delegation_apply_to_extensions resolved ext ∧ do_decision o = Allow
            ∧ do_granted_permissions o = from_option dt_scopes [] (dpl_delegated_token resolved)
            ∧ do_granted_audience o = dt_audience <$> dpl_delegated_token resolved
    | Err _ => ext' = ext
    end.
Proof.
  unfold delegate_step.
  destruct (dp_delegation_entries plan !! _) as [entry|]; [|by intros [= <- <- <-]].
  destruct (delegation_request step ext) as [payload|e]; [|by intros [= <- <- <-]].
  destruct (invoke_entries _ _ _ _ _) as [res st1].
  destruct (pr_continue_processing res); simpl.
  - destruct (delegation_from_result res) as [resolved|]; [|by intros [= <- <- <-]].
    intros [= <- <- <-]. split_and!.
    + apply delegation_apply_security.
    + intros role. unfold inbound_token. rewrite delegation_apply_raw.
      destruct (dpl_delegated_token resolved); [|done]. by destruct (x_raw_credentials ext).
    + right. exists resolved. by destruct (dpl_delegated_token resolved).
  - intros [= <- <- <-]. split_and!; [done..|]. left. by destruct (pr_violation res).
Qed.

(** The answer an elicitation plugin gave, with the pipeline it came from. *)
Definition plugin_answered (plan : Plan) (step : ElicitStep) (payload out : ElicitationPayload)
    (ext : Extensions) (st : State) : Prop :=
  ∃ entry, dp_elicitation_entries plan !! es_plugin_name step = Some entry
    ∧ let result := (invoke_entries [entry] (erase payload) ext None st).1 in
      pr_continue_processing result = true ∧ elicitation_from_result result = Some out.

Lemma elicit_invoke_ok plan op step payload ext st out st' :
  elicit_invoke plan op (es_plugin_name step) payload ext st = (Ok out, st') →
  plugin_answered plan step payload out ext st.
Proof.
  unfold elicit_invoke, plugin_answered.
  destruct (dp_elicitation_entries plan !! _) as [entry|]; [|done]. intros Hi. exists entry.
  split; [done|]. destruct (invoke_entries _ _ _ _ _) as [res st1]. simpl.
  destruct (pr_continue_processing res); [|done]. simpl in Hi.
  destruct (elicitation_from_result res); [|done]. by injection Hi as -> <-.
Qed.

(** Approval is never inferred: a check reports an approval only when the
    plugin the step names let the check through and its payload says resolved
    and approved, and a response is valid only when the plugin said so. *)
Theorem approval_is_explicit plan step id ext st :
  (∀ st', elicit_check_step plan step id ext st = (Ok (StResolved Approved), st') →
     ∃ payload out, plugin_answered plan step payload out ext st
       ∧ ep_operation payload = OpCheck ∧ ep_elicitation_id payload = Some id
       ∧ ep_status out = Some KResolved ∧ ep_outcome out = Some KApproved)
  ∧ (∀ v st', elicit_validate_step plan step id ext st = (Ok v, st') → ev_valid v = true →
     ∃ payload out, plugin_answered plan step payload out ext st
       ∧ ep_operation payload = OpValidate ∧ ep_elicitation_id payload = Some id
       ∧ ep_valid out = Some true).
Proof.
  unfold elicit_check_step, elicit_validate_step. split.
  - intros st'. destruct (elicit_invoke _ _ _ _ _ _) as [[out|e] st1] eqn:Ei; [|done].
    intros Hs. apply elicit_invoke_ok in Ei. eexists _, out. split_and!; [exact Ei|done|done| |];
      by destruct (ep_status out) as [[]|], (ep_outcome out) as [[]|].
  - intros v st'. destruct (elicit_invoke _ _ _ _ _ _) as [[out|e] st1] eqn:Ei; [|done].
    intros [= <- <-] Hv. apply elicit_invoke_ok in Ei. eexists _, out.
    split_and!; [exact Ei|done|done|]. simpl in Hv. by destruct (ep_valid out) as [[]|].
Qed.

End Bridges.

(** ** Examples *)

Module DelegationDemo.

(** A step that exchanges the client's token, with a workload as actor. *)
Definition cfg (l : list (string * string)) : option Yaml :=
  Some (YMapping (map (λ p, (YString p.1, YString p.2)) l)).
Definition step (l : list (string * string)) : DelegateStep := mkDelegate "broker" (cfg l) None "r[0]".

Definition carried (tokens : gmap TokenRole RawInboundToken) : Extensions :=
  mkExtensions None None None None None None (Some (mkRawCredentials tokens ∅)) None None None None
    None None None None None None.
Definition with_tokens : Extensions :=
  carried {[ RoleClient := mkInbound "client.jwt" "Authorization" KindJwt;
             RoleCallerWorkload := mkInbound "svid.jwt" "X-Svid" KindSpiffeJwt ]}.

Definition exchange : DelegateStep := step [("subject", "client"); ("actor", "caller_workload")].
Definition exchange_payload : DelegationPayload :=
  with_actor (with_subject (delegation_new "client.jwt" "broker") SubClient) RoleCallerWorkload "svid.jwt".

Lemma delegation_roles_witness :
  delegation_request exchange with_tokens = Ok exchange_payload
  ∧ inbound_token with_tokens RoleCallerWorkload = Some (dpl_actor_token exchange_payload).
Proof.
  split; [reflexivity|].
  by destruct (delegation_request_roles exchange with_tokens exchange_payload eq_refl)
    as (_ & (? & _) & _).
Defined.

(** An actor beside a workload, or a misspelled subject, is refused. *)
Example actor_refused :
  ∃ msg, delegation_request (step [("subject", "this_workload"); ("actor", "user")]) with_tokens
         = Err (DelegationInvalidConfig msg).
Proof. by eexists. Qed.
Example subject_typo_refused :
  ∃ msg, delegation_request (step [("subject", "gatewy")]) with_tokens
         = Err (DelegationInvalidConfig msg).
Proof. by eexists. Qed.

(** [auth_enforced_by: both] asks for both layers and gets the caller only. *)
Example both_is_caller : auth_enforced_by_from_str "both" = EnforcedByCaller.
Proof. done. Qed.

Definition minting : DelegationPayload :=
  mkDelegationPayload "svid.jwt" EmptyString None SubCallerWorkload "hr" TargetTool None [] None
    EnforcedByCaller None (Some (mkDelegated "minted" "Authorization" "hr" ["read"] 0)) None
    (Some AsCallerWorkload) None ∅.
Definition other_key : DelegationKey :=
  mkDelegationKey "alice" None None "hr" ["read"] OnBehalfOfUser.

Lemma minted_isolated_witness :
  minted (delegation_apply_to_extensions minting with_tokens) other_key = minted with_tokens other_key.
Proof.
  apply (minted_tokens_isolated minting (mkDelegated "minted" "Authorization" "hr" ["read"] 0));
    [reflexivity|discriminate].
Defined.

(** Plugins that answer with a payload computed from the one they get. *)
Abbreviation AnyPayload := (DelegationPayload + ElicitationPayload)%type.
#[global] Instance erased_delegation : Erased DelegationPayload AnyPayload :=
  {| erase := inl; downcast p := match p with inl d => Some d | inr _ => None end;
     downcast_erase _ := eq_refl |}.
#[global] Instance erased_elicitation : Erased ElicitationPayload AnyPayload :=
  {| erase := inr; downcast p := match p with inr d => Some d | inl _ => None end;
     downcast_erase _ := eq_refl |}.
Abbreviation Rewriter := (AnyPayload → AnyPayload).
#[global] Instance rewriting : HookHandler Rewriter AnyPayload unit :=
  λ h p _ ctx w, (Ok (Some (mkErased true (Some (h p)) None None)), ctx, w).
#[global] Instance epoch : Rfc3339 := λ _, "1970-01-01T00:00:00Z".

Definition entry_of (h : Rewriter) : HookEntry unit Rewriter :=
  mkHookEntry (plugin_ref_new tt (demo_config "broker" 10 Sequential) 1%N 0) h.
Definition manager : PluginManager unit Rewriter unit unit AnyPayload * Env unit :=
  (manager_new manager_config_default, mkEnv tt ∅ 0).

Definition mints : Rewriter := λ _, inl minting.
Definition approves : Rewriter := λ p,
  match p with
  | inr e => inr (mkElicitationPayload (ep_operation e) (ep_elicitation_id e) (ep_kind_name e)
                    (ep_from e) None None None None None (Some KResolved) (Some KApproved) None None
                    None (Some true) None ∅)
  | inl d => inl d
  end.
Definition plan : RouteDispatchPlan unit Rewriter :=
  mkPlan ∅ {[ "broker" := entry_of mints ]} {[ "broker" := entry_of approves ]}.
Definition ask : ElicitStep := mkElicit Approval "broker" None "alice" None None None None None "r[0]".

Import Executor.Demo.

Lemma delegate_identity_witness :
  ∃ r ext' st', delegate_step plan exchange with_tokens manager = (r, (ext', st'))
    ∧ inbound_token ext' RoleClient = Some "client.jwt".
Proof.
  destruct (delegate_step plan exchange with_tokens manager) as [r [ext' st']] eqn:E.
  exists r, ext', st'. split; [done|].
  destruct (delegate_keeps_identity plan exchange with_tokens manager r ext' st' E) as (_ & Hi & _).
  by rewrite Hi.
Defined.

Lemma approval_explicit_witness :
  ∃ payload out, plugin_answered plan ask payload out with_tokens manager
    ∧ ep_operation payload = OpCheck ∧ ep_elicitation_id payload = Some "e-1"
    ∧ ep_status out = Some KResolved ∧ ep_outcome out = Some KApproved.
Proof.
  eapply (approval_is_explicit plan ask "e-1" with_tokens manager). vm_compute. reflexivity.
Defined.

End DelegationDemo.
