(* ===== verification/Handler.v ===== *)
(** * The APL route handler (apl-cpex/src/cmf_invoker.rs, route_handler.rs)

    One request through one route: the session's labels are loaded, the bag is
    built, the route is evaluated with invokers that reach the plugin manager,
    and the outcome is folded into what the executor is told.  A [Request] is
    the state the three invokers share behind their mutexes; the evaluator's
    traits are instantiated with it. *)

From S2P Require Import Prelude RustStd F64 Json JsonMerge Yaml Attributes Predicate Pipelines.
From S2P Require Import Orchestration Constraint PredParser Evaluator Route ExtData Routing Headers.
From S2P Require Import Extensions Bag Session PluginTypes Config ConfigLoad Registry Executor.
From S2P Require Import Manager ManagerFacts Dispatch Delegation Message Ir.

Local Open Scope string_scope.
Local Open Scope list_scope.

(** ** Labels *)

Definition snapshot_labels (extensions : Extensions) : gset string :=
  from_option sc_labels ∅ (x_security extensions).

Definition hydrate_labels (extensions : Extensions) (labels : list string) : Extensions :=
  set_ext_security extensions
    (Some (foldl add_label (default security_default (x_security extensions)) labels)).

(** ** Reading a field back *)

Definition field_value_from_message (message : Message.Message) (field : string)
    (phase : DispatchPhase) : option Value :=
  let projection := match phase with
                    | Pre => extract_args_from_message message
                    | Post => extract_result_from_message message
                    end in
  if is_object projection then get_dotted projection field else Some projection.

(** ** Elicitation signals *)

Definition ELICITATION_PENDING_CODE : Z := -32120.
Definition ELICITATION_ID_HEADER : string := "X-Policy-Elicitation-Id".
Definition ELICITATION_APPROVED_CODE : Z := -32121.
Definition ELICITATION_PEEK_HEADER : string := "X-Policy-Elicitation-Peek".

(** [with_proto_error_code] and [with_details]. *)
Definition signal (code reason : string) (proto : Z) (details : gmap string Value) :
    PluginViolation := mkViolation code reason None details None (Some proto).

Definition put_string (key : string) (o : option string) (m : gmap string Value) :
    gmap string Value :=
  match o with Some v => <[key := VString v]> m | None => m end.

Definition approved_peek_violation (bag : AttributeBag) : PluginViolation :=
  signal "elicitation.approved" "approved — confirm to apply (re-send without the peek header)"
    ELICITATION_APPROVED_CODE
    (put_string "approver" (get_string bag EL_APPROVER)
       (put_string "elicitation_id" (get_string bag EL_ID) ∅)).

Definition pending_violation (p : PendingElicitation) : PluginViolation :=
  signal "elicitation.pending"
    ("awaiting approval `" +:+ pe_id p +:+ "` via `" +:+ pe_plugin_name p
       +:+ "` — retry with this id")
    ELICITATION_PENDING_CODE
    (put_string "intent_id" (pe_intent_id p)
       (put_string "expires_at" (pe_expires_at p)
          (put_string "channel" (pe_channel p)
             (put_string "approver" (pe_approver p)
                (<["plugin" := VString (pe_plugin_name p)]>
                   (<["elicitation_id" := VString (pe_id p)]> ∅)))))).

(** ** Denial responses *)

Definition DETAIL_HTTP_STATUS : string := "http.status".
Definition DETAIL_HTTP_BODY : string := "http.body".
Definition DETAIL_HTTP_HEADERS : string := "http.headers".

Definition set_details (v : PluginViolation) (d : gmap string Value) : PluginViolation :=
  mkViolation (vi_code v) (vi_reason v) (vi_description v) d (vi_plugin_name v)
    (vi_proto_error_code v).

Definition decorate_denial_response (violation : PluginViolation) (response : option DenyResponse) :
    PluginViolation :=
  match response with
  | None => violation
  | Some resp =>
      let d := vi_details violation in
      let d := match dr_status resp with
               | Some status => <[DETAIL_HTTP_STATUS := VNumber (PosInt status)]> d
               | None => d
               end in
      let d := match dr_body resp with
               | Some body => <[DETAIL_HTTP_BODY := VString body]> d
               | None => d
               end in
      let d := if bool_decide (dr_headers resp = ∅) then d
               else <[DETAIL_HTTP_HEADERS := VObject (VString <$> dr_headers resp)]> d in
      set_details violation d
  end.

Definition show_conflict (c : ConstraintConflict) : string :=
  "conflicting `restrict` custom label `" +:+ cf_key c +:+ "`: `" +:+ cf_existing c +:+ "` vs `"
    +:+ cf_incoming c +:+ "` (no backend can be both)".

(** ** Pointer comparison *)

(** [Arc::ptr_eq] of the three slots of two containers: the same allocation
    holds the same value. *)
Class SlotPointers := {
  security_ptr_eq : Extensions → Extensions → bool;
  delegation_ptr_eq : Extensions → Extensions → bool;
  raw_ptr_eq : Extensions → Extensions → bool;
  security_ptr_sound a b : security_ptr_eq a b = true → x_security a = x_security b;
  delegation_ptr_sound a b : delegation_ptr_eq a b = true → x_delegation a = x_delegation b;
  raw_ptr_sound a b : raw_ptr_eq a b = true → x_raw_credentials a = x_raw_credentials b
}.

Definition slot_changed {A} (before after : option A) (ptr_eq : bool) : bool :=
  match before, after with
  | Some _, Some _ => negb ptr_eq
  | None, None => false
  | _, _ => true
  end.

Definition extensions_changed `{SlotPointers} (before after : Extensions) : bool :=
  slot_changed (x_security before) (x_security after) (security_ptr_eq before after)
  || slot_changed (x_delegation before) (x_delegation after) (delegation_ptr_eq before after)
  || slot_changed (x_raw_credentials before) (x_raw_credentials after) (raw_ptr_eq before after).

Definition set_owned_constraint (o : OwnedExtensions) (c : option CandidateConstraintExtension) :
    OwnedExtensions :=
  mkOwned (o_request o) (o_agent o) (o_mcp o) (o_completion o) (o_provenance o) (o_llm o)
    (o_framework o) (o_meta o) (o_raw_credentials o) (o_http o) (o_security o) c (o_delegation o)
    (o_custom o) (o_http_write_token o) (o_labels_write_token o) (o_delegation_write_token o).

(** ** The request *)

Record Request (P H F V Pay W : Type) := mkRequest {
  rq_extensions : Extensions;
  rq_payload : MessagePayload;
  rq_payload_modified : bool;
  rq_state : PluginManager P H F V Pay * Env W
}.
Arguments mkRequest {P H F V Pay W}.
Arguments rq_extensions {P H F V Pay W}.
Arguments rq_payload {P H F V Pay W}.
Arguments rq_payload_modified {P H F V Pay W}.
Arguments rq_state {P H F V Pay W}.

(** The fields of [CmfPluginInvoker] that do not change. *)
Record CmfPluginInvoker (P H : Type) := mkInvoker {
  iv_plan : RouteDispatchPlan P H;
  iv_session_id : option string;
  iv_initial_labels : gset string
}.
Arguments mkInvoker {P H}.
Arguments iv_plan {P H}.
Arguments iv_session_id {P H}.
Arguments iv_initial_labels {P H}.

Record AplRouteHandler (R : Type) := mkHandler {
  ah_config : PluginConfig;
  ah_route : CompiledRoute;
  ah_phase : DispatchPhase;
  ah_plugin_registry : gmap string PluginDeclaration;
  ah_pdp : gmap PdpDialect R;
  ah_attribute_tree : AttributeTree
}.
Arguments mkHandler {R}.
Arguments ah_config {R}.
Arguments ah_route {R}.
Arguments ah_phase {R}.
Arguments ah_plugin_registry {R}.
Arguments ah_pdp {R}.
Arguments ah_attribute_tree {R}.

Section Handler.
Context {P H F V Pay W R : Type}.
Context `{HookHandler H Pay W} `{Timer W} `{Runtime W}.
Context `{PluginFactory F P H W} `{Plugin P W} `{HookTypeName H} `{UuidSource W}.
Context `{TaskRuntime H Pay W} `{YamlToJson} `{YamlLib} `{SerdeConfig} `{WildMatch} `{order : HashOrder}.
Context `{Erased MessagePayload Pay} `{Erased DelegationPayload Pay} `{Erased ElicitationPayload Pay}.
Context `{Rfc3339} `{UnicodeLower} `{Sha256} `{SessionStore W} `{SlotPointers} `{PdpBackend R W}.
Context `{RegexCrate} `{HashText}.
(** The process-wide hook table, and how parallel branches share a request. *)
Context (table : HookTable) `{Runtime (Request P H F V Pay W)}.

Abbreviation Req := (Request P H F V Pay W).
Abbreviation State := (PluginManager P H F V Pay * Env W)%type.

Definition set_rq_ext (rq : Req) (e : Extensions) : Req :=
  mkRequest e (rq_payload rq) (rq_payload_modified rq) (rq_state rq).
Definition set_rq_state (rq : Req) (st : State) : Req :=
  mkRequest (rq_extensions rq) (rq_payload rq) (rq_payload_modified rq) st.
(** [*payload = modified; payload_modified = true]. *)
Definition accept_payload (rq : Req) (p : MessagePayload) : Req :=
  mkRequest (rq_extensions rq) p true (rq_state rq).

Definition world_of (st : State) : W := en_world st.2.
Definition with_world (st : State) (w : W) : State := (st.1, set_en_world st.2 w).

(** ** The CMF invoker *)

(** [CmfPluginInvoker::for_request]. *)
Definition for_request (extensions : Extensions) (payload : MessagePayload)
    (plan : RouteDispatchPlan P H) (st : State) :
    Result (CmfPluginInvoker P H * Req) SessionStoreError * State :=
  let session_id := fst <$> resolve_session extensions in
  let '(hydrated, st) :=
    match session_id with
    | None => (Ok extensions, st)
    | Some sid =>
        let '(stored, w) := load_labels sid (world_of st) in
        (match stored with
         | Err e => Err e
         | Ok stored => Ok (if is_nil stored then extensions else hydrate_labels extensions stored)
         end, with_world st w)
    end in
  match hydrated with
  | Err e => (Err e, st)
  | Ok extensions =>
      (Ok (mkInvoker plan session_id (snapshot_labels extensions),
           mkRequest extensions payload false st), st)
  end.

Definition hook_phase (p : DispatchPhase) : HookPhase := match p with Pre => HPre | Post => HPost end.
Definition debug_hook_phase (p : HookPhase) : string :=
  match p with HPre => "Pre" | HPost => "Post" | HUnphased => "Unphased" end.

Definition no_hook_message (plugin_name : string) (et : option string) (ph : HookPhase)
    (hooks : list string) : string :=
  "plugin '" +:+ plugin_name +:+ "' has no hook matching dispatch context (entity_type="
    +:+ debug_option debug_string et +:+ ", phase=" +:+ debug_hook_phase ph
    +:+ "); declared hooks: " +:+ debug_list debug_string hooks.

(** The payload half of [invoke]: the new request and the field's new value. *)
Definition take_payload (invocation : PluginInvocation) (field_before : option Value)
    (result : PipelineResult Pay) (rq : Req) : option Value * Req :=
  if negb (pr_payload_modified result) then (None, rq)
  else
    match pr_modified_payload result with
    | None => (None, rq)
    | Some boxed =>
        match downcast boxed with
        | None => (None, rq)
        | Some modified =>
            (match invocation with
             | InvField name _ phase =>
                 v ← field_value_from_message (mp_message modified) name phase;
                 if from_option (value_eqb v) false field_before then None else Some v
             | InvStep _ => None
             end, accept_payload rq modified)
        end
    end.

(** The extensions half: the new request and the taints. *)
Definition take_extensions (before_labels : gset string) (result : PipelineResult Pay) (rq : Req) :
    list TaintEvent * Req :=
  match pr_modified_extensions result with
  | None => ([], rq)
  | Some modified_ext =>
      let new_labels := set_iter (snapshot_labels modified_ext ∖ before_labels) in
      (map (λ label, mkTaint label [Session]) new_labels, set_rq_ext rq modified_ext)
  end.

Definition result_decision (result : PipelineResult Pay) : Ir.Decision :=
  if negb (pr_continue_processing result) then
    match pr_violation result with
    | Some v => Deny (Some (vi_reason v)) (vi_code v)
    | None => Deny None "policy.forbidden"
    end
  else Allow.

(** [PluginInvoker::invoke]. *)
Definition cmf_invoke (plan : RouteDispatchPlan P H) (plugin_name : string)
    (invocation : PluginInvocation) (rq : Req) : Result PluginOutcome Ir.PluginError * Req :=
  match plan_get plan plugin_name with
  | None => (Err (PluginNotFound plugin_name), rq)
  | Some resolved =>
      let request_entity_type := m ← x_meta (rq_extensions rq); mt_entity_type (arc_val m) in
      let dispatch_phase := hook_phase (invocation_phase invocation) in
      match pick_entry table resolved request_entity_type dispatch_phase with
      | None =>
          (Err (PluginDispatch (no_hook_message plugin_name request_entity_type dispatch_phase
                  (map_iter (rpe_entries_by_hook resolved)).*1)), rq)
      | Some entry =>
          let current_extensions := extensions_clone (rq_extensions rq) in
          let before_labels := snapshot_labels current_extensions in
          let field_before :=
            match invocation with
            | InvField name _ phase =>
                field_value_from_message (mp_message (rq_payload rq)) name phase
            | InvStep _ => None
            end in
          let '(result, st) :=
            invoke_entries [entry] (erase (rq_payload rq)) current_extensions None (rq_state rq) in
          let '(modified_value, rq) :=
            take_payload invocation field_before result (set_rq_state rq st) in
          let '(taints, rq) := take_extensions before_labels result rq in
          (Ok (mkPluginOutcome (result_decision result) taints modified_value), rq)
      end
  end.

(** [apply_session_taints]. *)
Definition apply_session_taints (taints : list TaintEvent) (rq : Req) : Req :=
  let session_labels :=
    te_label <$> filter (λ t, existsb (λ s, match s with Session => true | _ => false end)
                                (te_scopes t) = true) taints in
  if is_nil session_labels then rq
  else
    set_rq_ext rq
      (set_ext_security (rq_extensions rq)
         (Some (foldl add_label (default security_default (x_security (rq_extensions rq)))
                  session_labels))).

(** [persist_session]. *)
Definition persist_session (invoker : CmfPluginInvoker P H) (rq : Req) :
    Result unit SessionStoreError * Req :=
  match iv_session_id invoker with
  | None => (Ok tt, rq)
  | Some sid =>
      match x_security (rq_extensions rq) with
      | None => (Ok tt, rq)
      | Some security =>
          let new_labels :=
            filter (λ l, l ∉ iv_initial_labels invoker) (set_iter (sc_labels security)) in
          if is_nil new_labels then (Ok tt, rq)
          else
            let '(r, w) := append_labels sid new_labels (world_of (rq_state rq)) in
            (r, set_rq_state rq (with_world (rq_state rq) w))
      end
  end.

(** ** The evaluator's traits over a request *)

Definition request_plugins (plan : RouteDispatchPlan P H) : PluginInvoker Req :=
  λ name _ invocation rq, cmf_invoke plan name invocation rq.

Definition request_delegations (plan : RouteDispatchPlan P H) : DelegationInvoker Req :=
  λ step rq,
    let '(r, (ext, st)) :=
      delegate_step plan step (extensions_clone (rq_extensions rq)) (rq_state rq) in
    (r, set_rq_state (match r with
                      | Ok o => match do_decision o with
                                | Allow => set_rq_ext rq ext
                                | Deny _ _ => rq
                                end
                      | Err _ => rq
                      end) st).

Definition lift_elicit {A} (call : Extensions → State → A * State) (rq : Req) : A * Req :=
  let '(r, st) := call (extensions_clone (rq_extensions rq)) (rq_state rq) in
  (r, set_rq_state rq st).

Definition request_elicitations (plan : RouteDispatchPlan P H) : ElicitationInvoker Req :=
  {| elicit_dispatch step from := lift_elicit (elicit_dispatch_step plan step from);
     elicit_check step id := lift_elicit (elicit_check_step plan step id);
     elicit_validate step id := lift_elicit (elicit_validate_step plan step id) |}.

Definition request_pdp (router : gmap PdpDialect R) : PdpResolver Req :=
  λ call bag rq,
    let '(r, w) := router_evaluate router call bag (world_of (rq_state rq)) in
    (r, set_rq_state rq (with_world (rq_state rq) w)).

(** [evaluate_pre] or [evaluate_post] with the request's invokers. *)
Definition evaluate_phase (plan : RouteDispatchPlan P H) (router : gmap PdpDialect R)
    (phase : DispatchPhase) (route : CompiledRoute) (st : RouteState Req) :
    RouteDecision * RouteState Req :=
  let plugins := request_plugins plan in
  let delegations := request_delegations plan in
  let elicitations := request_elicitations plan in
  let pdp := request_pdp router in
  match phase with
  | Pre => evaluate_pre route st
  | Post => evaluate_post route st
  end.

(** ** The handler *)

Definition elicitation_id_from_headers (ext : Extensions) : option string :=
  v ← (h ← x_http ext; get_request_header h ELICITATION_ID_HEADER);
  if String.eqb v EmptyString then None else Some v.

Definition elicitation_peek_from_headers (ext : Extensions) : bool :=
  match h ← x_http ext; get_request_header h ELICITATION_PEEK_HEADER with
  | Some v => negb (String.eqb v EmptyString) && negb (eq_ignore_ascii_case v "false")
              && negb (String.eqb v "0")
  | None => false
  end.

(** The payload the pipelines work on. *)
Definition route_payload (phase : DispatchPhase) (message : Message.Message) : RoutePayload :=
  let args_value := extract_args_from_message message in
  match phase with
  | Pre => mkPayload args_value None
  | Post => mkPayload args_value (Some (extract_result_from_message message))
  end.

(** The bag the route is evaluated against. *)
Definition request_bag (handler : AplRouteHandler R) (extensions : Extensions)
    (payload : RoutePayload) : AttributeBag :=
  let bag := with_data (ah_attribute_tree handler)
               (with_route_key (cr_route_key (ah_route handler))
                  (with_extensions extensions bag_new)) in
  let bag := match elicitation_id_from_headers extensions with
             | Some id => bag_set bag EL_ID (AString id)
             | None => bag
             end in
  let bag := extract_args (pl_args payload) bag in
  match ah_phase handler with
  | Post => match pl_result payload with
            | Some result => extract_result result bag
            | None => bag
            end
  | Pre => bag
  end.

Definition set_message (p : MessagePayload) (m : Message.Message) : MessagePayload :=
  mkMessagePayload m.

(** Which of the pipelines and plugins changed the payload, and what to. *)
Definition modified_message (phase : DispatchPhase) (original : Message.Message)
    (decision : RouteDecision) (payload : RoutePayload) (rq : Req) : option MessagePayload :=
  let final_payload := rq_payload rq in
  if rd_args_modified decision then
    Some (match phase with
          | Pre =>
              let pre := extract_args_from_message original in
              let merged := merge_changes (extract_args_from_message (mp_message final_payload))
                              pre (pl_args payload) in
              set_message final_payload
                (write_args_back_to_message (mp_message final_payload) merged)
          | Post => final_payload
          end)
  else if rd_result_modified decision then
    Some (match phase, pl_result payload with
          | Post, Some result_value =>
              let pre := extract_result_from_message original in
              let merged := merge_changes (extract_result_from_message (mp_message final_payload))
                              pre result_value in
              set_message final_payload
                (write_result_back_to_message (mp_message final_payload) merged)
          | _, _ => final_payload
          end)
  else if rq_payload_modified rq then Some final_payload
  else None.

(** The decision as [continue_processing] and [violation]. *)
Definition decision_verdict (response : option DenyResponse) (d : Ir.Decision) :
    bool * option PluginViolation :=
  match d with
  | Allow => (true, None)
  | Deny reason rule_source =>
      let code := if String.eqb rule_source EmptyString then "policy.deny" else rule_source in
      (false, Some (decorate_denial_response
                      (violation_new code (default "access denied" reason)) response))
  end.

(** Pending, peek, persist failure and constraint conflict, in that order. *)
Definition final_verdict (response : option DenyResponse) (decision : RouteDecision)
    (peek : bool) (bag : AttributeBag) (persisted : Result unit SessionStoreError)
    (conflict : option ConstraintConflict) : bool * option PluginViolation :=
  let v := decision_verdict response (rd_decision decision) in
  let v := match rd_pending decision with
           | Some p => (false, Some (pending_violation p))
           | None => v
           end in
  let v := if v.1 && peek && bool_decide (get_string bag EL_OUTCOME = Some "approved")
           then (false, Some (approved_peek_violation bag)) else v in
  let v := match persisted with
           | Err _ =>
               if v.1 then
                 (false, Some (decorate_denial_response
                   (violation_new "session.persist_failed" "session state could not be persisted")
                   response))
               else v
           | Ok _ => v
           end in
  match conflict with
  | Some c =>
      if v.1 then (false, Some (violation_new "policy.restrict_conflict" (show_conflict c))) else v
  | None => v
  end.

Definition returned_extensions (before final : Extensions)
    (folded : option CandidateConstraintExtension) : option OwnedExtensions :=
  let modified := if extensions_changed before final then Some (cow_copy final) else None in
  match folded with
  | Some constraint =>
      Some (set_owned_constraint (default (cow_copy final) modified) (Some constraint))
  | None => modified
  end.

(** After the evaluation: taints, the fold, persistence and the result. *)
Definition finish_request (handler : AplRouteHandler R) (extensions : Extensions)
    (msg_payload : MessagePayload) (invoker : CmfPluginInvoker P H) (peek : bool)
    (decision : RouteDecision) (rst : RouteState Req) : ErasedResultFields Pay * State :=
  let rq := apply_session_taints (rd_taints decision) (rst_world rst) in
  let '(folded, conflict) :=
    match fold_candidate_constraints (rd_constraints decision) with
    | Ok folded => (folded, None)
    | Err e => (None, Some e)
    end in
  let '(persisted, rq) := persist_session invoker rq in
  let final_extensions := extensions_clone (rq_extensions rq) in
  let modified :=
    modified_message (ah_phase handler) (mp_message msg_payload) decision (rst_payload rst) rq in
  let '(continue, violation) :=
    final_verdict (cr_response (ah_route handler)) decision peek (rst_bag rst) persisted conflict in
  (mkErased continue (erase <$> modified)
     (returned_extensions extensions final_extensions folded) violation, rq_state rq).

(** The body of [invoke] once the payload is a message and the manager lives. *)
Definition handle_request (handler : AplRouteHandler R) (msg_payload : MessagePayload)
    (extensions : Extensions) (cache : DispatchCache) (st : State) :
    ErasedResultFields Pay * (DispatchCache * State) :=
  let route := ah_route handler in
  let '(plan, (cache, st)) := get_or_build route (ah_plugin_registry handler) cache st in
  let '(opened, st) := for_request (extensions_clone extensions) msg_payload plan st in
  match opened with
  | Err _ =>
      (mkErased false None None
         (Some (decorate_denial_response
                  (violation_new "session.load_failed" "session state could not be loaded")
                  (cr_response route))), (cache, st))
  | Ok (invoker, rq) =>
      let post_extensions := extensions_clone (rq_extensions rq) in
      let payload := route_payload (ah_phase handler) (mp_message msg_payload) in
      let bag := request_bag handler post_extensions payload in
      let '(decision, rst) :=
        evaluate_phase plan (ah_pdp handler) (ah_phase handler) route (mkRouteState bag payload rq)
      in
      let '(result, st) :=
        finish_request handler extensions msg_payload invoker
          (elicitation_peek_from_headers post_extensions) decision rst in
      (result, (cache, st))
  end.

(** [AnyHookHandler::invoke]; [st] is what upgrading the weak handle gives. *)
Definition apl_invoke (handler : AplRouteHandler R) (payload : Pay) (extensions : Extensions)
    (cache : DispatchCache) (st : option State) :
    Result (ErasedResultFields Pay) PluginTypes.PluginError * (DispatchCache * option State) :=
  let fail what :=
    Err (ErrConfig ("AplRouteHandler '" +:+ cr_route_key (ah_route handler) +:+ "': " +:+ what)) in
  match downcast payload with
  | None => (fail "payload was not MessagePayload", (cache, st))
  | Some msg_payload =>
      match st with
      | None => (fail "PluginManager dropped before invoke", (cache, st))
      | Some st =>
          let '(result, (cache, st)) := handle_request handler msg_payload extensions cache st in
          (Ok result, (cache, Some st))
      end
  end.

(** ** Properties *)

(** C5: nothing a caller or a policy author supplies can pass for identity: in
    the bag a route is evaluated against, the roles, permissions, teams, claims,
    subject id and [authenticated] are exactly those of the authenticated
    subject, whatever the arguments, the result, the attribute files, the route
    key and the elicitation header say. *)
Theorem request_bag_identity handler ext payload :
  identity_exact ext (request_bag handler ext payload).
Proof.
  apply kept_identity_exact. unfold request_bag, with_data, with_route_key, with_extensions.
  assert (∀ l, disjoint_ns l IDENTITY = true → allows (λ key, in_ns IDENTITY key = false) l) as Ha.
  { intros l Hl. by apply outside_allows. }
  set (b0 := extract_data_tree _ _).
  assert (off (λ key, in_ns IDENTITY key = false) b0 (extract_extensions ext bag_new)) as Hb0.
  { eapply off_trans; [by apply writes_data, Ha|]. by apply off_set; [|apply off_refl]. }
  set (b1 := match elicitation_id_from_headers ext with Some _ => _ | None => _ end).
  assert (off (λ key, in_ns IDENTITY key = false) b1 (extract_extensions ext bag_new)) as Hb1.
  { subst b1. destruct (elicitation_id_from_headers ext); [|done]. by apply off_set. }
  assert (off (λ key, in_ns IDENTITY key = false) (extract_args (pl_args payload) b1)
            (extract_extensions ext bag_new)) as Hb2.
  { eapply off_trans; [by apply writes_args, Ha|done]. }
  destruct (ah_phase handler); [done|]. destruct (pl_result payload); [|done].
  eapply off_trans; [by apply writes_result, Ha|done].
Qed.

(** *** Verdicts *)

Lemma verdict_exact response d peek bag persisted conflict :
  let v := final_verdict response d peek bag persisted conflict in
  (v.1 = true ↔
     rd_decision d = Allow ∧ rd_pending d = None
     ∧ ¬ (peek = true ∧ get_string bag EL_OUTCOME = Some "approved")
     ∧ persisted = Ok tt ∧ conflict = None)
  ∧ (v.1 = true ↔ v.2 = None).
Proof.
  unfold final_verdict, decision_verdict.
  destruct (rd_decision d), (rd_pending d), peek, persisted as [[]|], conflict; simpl;
    try case_bool_decide; simpl; naive_solver.
Qed.

(** The parts of a run of the handler once the session is open. *)
Definition evaluated (handler : AplRouteHandler R) (msg : MessagePayload)
    (plan : RouteDispatchPlan P H) (rq : Req) : RouteDecision * RouteState Req :=
  let ext := extensions_clone (rq_extensions rq) in
  let payload := route_payload (ah_phase handler) (mp_message msg) in
  evaluate_phase plan (ah_pdp handler) (ah_phase handler) (ah_route handler)
    (mkRouteState (request_bag handler ext payload) payload rq).

Definition opened (handler : AplRouteHandler R) (msg : MessagePayload) (ext : Extensions)
    (cache : DispatchCache) (st : State) :
    Result (CmfPluginInvoker P H * Req) SessionStoreError * State :=
  let '(plan, (_, st)) := get_or_build (ah_route handler) (ah_plugin_registry handler) cache st in
  for_request (extensions_clone ext) msg plan st.

Lemma for_request_plan ext msg plan st invoker rq st' :
  for_request ext msg plan st = (Ok (invoker, rq), st') →
  iv_plan invoker = plan ∧ rq_payload rq = msg ∧ rq_state rq = st'
  ∧ iv_session_id invoker = fst <$> resolve_session ext
  ∧ iv_initial_labels invoker = snapshot_labels (rq_extensions rq).
Proof.
  unfold for_request. destruct (resolve_session ext) as [[sid src]|]; simpl.
  - destruct (load_labels sid _) as [[l|e] w]; [|done]. by intros [= <- <- <-].
  - by intros [= <- <- <-].
Qed.

Lemma handle_request_opened handler msg ext cache st invoker rq st1 :
  opened handler msg ext cache st = (Ok (invoker, rq), st1) →
  (handle_request handler msg ext cache st).1
  = (finish_request handler ext msg invoker
       (elicitation_peek_from_headers (extensions_clone (rq_extensions rq)))
       (evaluated handler msg (iv_plan invoker) rq).1
       (evaluated handler msg (iv_plan invoker) rq).2).1
  ∧ (handle_request handler msg ext cache st).2.2
  = (finish_request handler ext msg invoker
       (elicitation_peek_from_headers (extensions_clone (rq_extensions rq)))
       (evaluated handler msg (iv_plan invoker) rq).1
       (evaluated handler msg (iv_plan invoker) rq).2).2.
Proof.
  unfold opened, handle_request, evaluated.
  destruct (get_or_build _ _ _ _) as [plan [c st0]]. intros Ho. rewrite Ho.
  destruct (for_request_plan _ _ _ _ _ _ _ Ho) as (-> & _).
  destruct (evaluate_phase _ _ _ _ _) as [d rst]. simpl.
  by destruct (finish_request _ _ _ _ _ _ _).
Qed.

Lemma handle_request_refused handler msg ext cache st e st1 :
  opened handler msg ext cache st = (Err e, st1) →
  let r := (handle_request handler msg ext cache st).1 in
  ef_continue_processing r = false
  ∧ (vi_code <$> ef_violation r) = Some "session.load_failed"
  ∧ ef_modified_payload r = None ∧ ef_modified_extensions r = None.
Proof.
  unfold opened, handle_request. destruct (get_or_build _ _ _ _) as [plan [c st0]].
  intros ->. simpl. split_and!; try done. unfold decorate_denial_response.
  by destruct (cr_response (ah_route handler)).
Qed.

(** The persistence step of a run. *)
Definition persisted (handler : AplRouteHandler R) (msg : MessagePayload)
    (invoker : CmfPluginInvoker P H) (rq : Req) : Result unit SessionStoreError * Req :=
  let '(d, rst) := evaluated handler msg (iv_plan invoker) rq in
  persist_session invoker (apply_session_taints (rd_taints d) (rst_world rst)).

Lemma finish_fields handler ext msg invoker peek d rst :
  let r := (finish_request handler ext msg invoker peek d rst).1 in
  (ef_continue_processing r, ef_violation r)
  = final_verdict (cr_response (ah_route handler)) d peek (rst_bag rst)
      (persist_session invoker (apply_session_taints (rd_taints d) (rst_world rst))).1
      (match fold_candidate_constraints (rd_constraints d) with Ok _ => None | Err e => Some e end).
Proof.
  unfold finish_request.
  destruct (fold_candidate_constraints (rd_constraints d)) as [folded|e];
    destruct (persist_session _ _) as [p rq]; cbn -[final_verdict];
    by destruct (final_verdict _ _ _ _ _ _).
Qed.

(** C4: the handler fails closed: it lets a request through exactly when the
    session's labels were loaded, the policies allow it, no elicitation is
    pending, the agent is not only peeking at an approval, the new labels were
    stored and the routing constraints are consistent; otherwise it reports a
    violation. *)
Theorem forwards_exactly_when_allowed handler msg ext cache st :
  let r := (handle_request handler msg ext cache st).1 in
  (ef_continue_processing r = true ↔
     ∃ invoker rq st1, opened handler msg ext cache st = (Ok (invoker, rq), st1)
       ∧ let d := (evaluated handler msg (iv_plan invoker) rq).1 in
         let bag := rst_bag (evaluated handler msg (iv_plan invoker) rq).2 in
         rd_decision d = Allow ∧ rd_pending d = None
         ∧ ¬ (elicitation_peek_from_headers (extensions_clone (rq_extensions rq)) = true
              ∧ get_string bag EL_OUTCOME = Some "approved")
         ∧ (persisted handler msg invoker rq).1 = Ok tt
         ∧ (∃ folded, fold_candidate_constraints (rd_constraints d) = Ok folded))
  ∧ (ef_continue_processing r = true ↔ ef_violation r = None).
Proof.
  destruct (opened handler msg ext cache st) as [[[invoker rq]|e] st1] eqn:Eo; simpl.
  - destruct (handle_request_opened _ _ _ _ _ _ _ _ Eo) as [-> _].
    pose proof (finish_fields handler ext msg invoker
      (elicitation_peek_from_headers (extensions_clone (rq_extensions rq)))
      (evaluated handler msg (iv_plan invoker) rq).1
      (evaluated handler msg (iv_plan invoker) rq).2) as Hf. simpl in Hf.
    destruct (finish_request _ _ _ _ _ _ _) as [[c mp me v] st2]. simpl in *.
    match type of Hf with _ = final_verdict ?a ?b ?x ?y ?z ?w =>
      pose proof (verdict_exact a b x y z w) as [Hv1 Hv2] end.
    rewrite <-Hf in Hv1, Hv2. simpl in Hv1, Hv2. split; [|done]. rewrite Hv1. clear Hf Hv1 Hv2.
    unfold persisted. destruct (evaluated handler msg (iv_plan invoker) rq) as [d rst] eqn:Ee.
    simpl. split.
    + intros (? & ? & ? & ? & ?). exists invoker, rq, st1. rewrite Ee. simpl. split_and!; try done.
      destruct (fold_candidate_constraints _); [by eexists|done].
    + intros (? & ? & ? & [= <- <- <-] & Hd). rewrite Ee in Hd. simpl in Hd.
      destruct Hd as (? & ? & ? & ? & [folded ->]).
      done.
  - destruct (handle_request_refused _ _ _ _ _ _ _ Eo) as (Hc & Hv & _). rewrite Hc.
    split; split; [done| |done|].
    + by intros (? & ? & ? & ? & _).
    + intros Hn. by rewrite Hn in Hv.
Qed.

(** *** Labels and the session store *)

Lemma add_labels_labels l s : sc_labels (foldl add_label s l) = sc_labels s ∪ list_to_set l.
Proof.
  revert s. induction l as [|x l IH]; intros s; simpl; [set_solver|]. rewrite IH. simpl. set_solver.
Qed.

Lemma hydrate_labels_exact ext l :
  snapshot_labels (hydrate_labels ext l) = snapshot_labels ext ∪ list_to_set l.
Proof.
  unfold snapshot_labels, hydrate_labels. simpl. rewrite add_labels_labels.
  by destruct (x_security ext).
Qed.

(** What an opened request starts with: its own labels and the session's. *)
Lemma for_request_labels `{!SessionStoreSpec W} ext msg plan st invoker rq st' sid :
  for_request ext msg plan st = (Ok (invoker, rq), st') → iv_session_id invoker = Some sid →
  iv_initial_labels invoker = snapshot_labels ext ∪ labels_of (world_of st) sid.
Proof.
  unfold for_request. destruct (resolve_session ext) as [[s src]|]; simpl; [|by intros [= <- <- <-]].
  destruct (load_labels s (world_of st)) as [[l|e] w] eqn:El; [|done].
  intros [= <- <- <-] [= <-]. simpl. apply load_ok in El as <-.
  destruct l as [|x l]; simpl; [set_solver|]. apply (hydrate_labels_exact ext (x :: l)).
Qed.

Definition session_scoped (t : TaintEvent) : Prop := Session ∈ te_scopes t.

Lemma apply_session_taints_label taints (rq : Req) t :
  t ∈ taints → session_scoped t →
  ∃ s, x_security (rq_extensions (apply_session_taints taints rq)) = Some s ∧ te_label t ∈ sc_labels s.
Proof.
  intros Ht Hs. unfold apply_session_taints. set (labels := te_label <$> _).
  assert (te_label t ∈ labels) as Hl.
  { apply list_elem_of_fmap_2, list_elem_of_filter. split; [|done].
    apply existsb_exists. exists Session. split; [by apply list_elem_of_In|done]. }
  destruct labels as [|x l]; [by apply not_elem_of_nil in Hl|].
  simpl is_nil. cbn iota. eexists. split; [reflexivity|]. rewrite add_labels_labels. set_solver.
Qed.

Lemma persist_session_stores `{!SessionStoreSpec W} invoker (rq rq' : Req) sid s label :
  persist_session invoker rq = (Ok tt, rq') → iv_session_id invoker = Some sid →
  x_security (rq_extensions rq) = Some s → label ∈ sc_labels s →
  label ∉ iv_initial_labels invoker → label ∈ labels_of (world_of (rq_state rq')) sid.
Proof.
  unfold persist_session. intros Hp Hsid Hsec Hl Hn. rewrite Hsid, Hsec in Hp.
  set (new := filter _ _) in Hp. assert (label ∈ new) as Hin.
  { apply list_elem_of_filter. split; [done|]. by apply set_iter_elem. }
  destruct new as [|x l]; [by apply not_elem_of_nil in Hin|]. simpl in Hp.
  destruct (append_labels sid (x :: l) _) as [r w] eqn:Ea. injection Hp as -> <-.
  apply append_ok in Ea. unfold world_of, with_world. simpl. rewrite Ea. set_solver.
Qed.

(** C19: taint is not lost: when a request of a session is let through, every
    session-scoped taint its policies or plugins emitted, and that neither the
    request nor the session had at the start, is in the session store. *)
Theorem session_taints_stored `{!SessionStoreSpec W} handler msg ext cache st invoker rq st1 sid t :
  opened handler msg ext cache st = (Ok (invoker, rq), st1) → iv_session_id invoker = Some sid →
  ef_continue_processing (handle_request handler msg ext cache st).1 = true →
  t ∈ rd_taints (evaluated handler msg (iv_plan invoker) rq).1 → session_scoped t →
  te_label t ∉ iv_initial_labels invoker →
  te_label t ∈ labels_of (world_of (handle_request handler msg ext cache st).2.2) sid.
Proof.
  intros Ho Hsid Hc Ht Hs Hn. destruct (handle_request_opened _ _ _ _ _ _ _ _ Ho) as [Hr ->].
  rewrite Hr in Hc. pose proof (finish_fields handler ext msg invoker
    (elicitation_peek_from_headers (extensions_clone (rq_extensions rq)))
    (evaluated handler msg (iv_plan invoker) rq).1
    (evaluated handler msg (iv_plan invoker) rq).2) as Hf. simpl in Hf. rewrite Hc in Hf.
  match type of Hf with _ = final_verdict ?a ?b ?x ?y ?z ?w =>
    destruct (proj1 (verdict_exact a b x y z w)) as [Hv _] end.
  rewrite <-Hf in Hv. destruct (Hv eq_refl) as (_ & _ & _ & Hp & _).
  destruct (evaluated handler msg (iv_plan invoker) rq) as [d rst]. simpl in *.
  destruct (persist_session invoker (apply_session_taints (rd_taints d) (rst_world rst)))
    as [p rq'] eqn:Ep. simpl in Hp. subst p.
  destruct (apply_session_taints_label _ (rst_world rst) _ Ht Hs) as (sec & Hsec & Hl).
  replace (finish_request _ _ _ _ _ _ _).2 with (rq_state rq').
  - by eapply persist_session_stores.
  - unfold finish_request. rewrite Ep. destruct (fold_candidate_constraints _);
      cbn -[final_verdict]; by destruct (final_verdict _ _ _ _ _ _).
Qed.

(** A session taint on a label the request already carries is not stored:
    the diff is against the labels of the request and the session together, so
    the next request of the session starts without it. *)
Theorem session_taint_on_request_label_lost `{!SessionStoreSpec W} invoker (rq : Req) sid label :
  iv_session_id invoker = Some sid → iv_initial_labels invoker = snapshot_labels (rq_extensions rq) →
  label ∈ snapshot_labels (rq_extensions rq) →
  let rq' := apply_session_taints [mkTaint label [Session]] rq in
  (persist_session invoker rq').1 = Ok tt
  ∧ labels_of (world_of (rq_state (persist_session invoker rq').2)) sid
    = labels_of (world_of (rq_state rq)) sid.
Proof.
  intros Hsid Hinit Hl. simpl. unfold persist_session. rewrite Hsid. simpl.
  unfold snapshot_labels in *. destruct (x_security (rq_extensions rq)) as [s|]; simpl in *;
    [|set_solver].
  replace (filter _ _) with (@nil string); [done|]. symmetry. apply elem_of_nil_inv.
  intros x [Hn Hx%set_iter_elem]%list_elem_of_filter. apply Hn. rewrite Hinit. simpl in *. set_solver.
Qed.

(** *** What the executor is told *)

Lemma slot_changed_same {A} (a b : option A) ptr :
  slot_changed a b ptr = false → (ptr = true → a = b) → a = b.
Proof. destruct a, b; try done. by destruct ptr; auto. Qed.

(** No extensions returned: the three compared slots and the constraint are as
    they were. *)
Lemma nothing_returned before final folded :
  returned_extensions before final folded = None →
  folded = None ∧ x_security before = x_security final ∧ x_delegation before = x_delegation final
  ∧ x_raw_credentials before = x_raw_credentials final.
Proof.
  unfold returned_extensions. destruct folded; [done|].
  destruct (extensions_changed before final) eqn:E; [done|]. intros _.
  unfold extensions_changed in E. apply orb_false_iff in E as [[E1 E2]%orb_false_iff E3].
  split_and!; [done|..]; (eapply slot_changed_same; [done|]).
  - apply security_ptr_sound.
  - apply delegation_ptr_sound.
  - apply raw_ptr_sound.
Qed.

(** A change to the request headers (or to the custom slot) by a plugin of
    the route is not reported: with the other slots untouched the handler
    returns no extensions, and the executor keeps the old headers. *)
Theorem header_edits_dropped before after :
  security_ptr_eq before after = true → delegation_ptr_eq before after = true →
  raw_ptr_eq before after = true → returned_extensions before after None = None.
Proof.
  intros Hs Hd Hr. unfold returned_extensions, extensions_changed.
  rewrite (security_ptr_sound _ _ Hs), (delegation_ptr_sound _ _ Hd), (raw_ptr_sound _ _ Hr), Hs, Hd, Hr.
  by destruct (x_security after), (x_delegation after), (x_raw_credentials after).
Qed.

(** A suspended phase reaches the host with its own code and no custom
    response, whatever the route's [response:] says. *)
Lemma pending_signal response d p peek bag persisted conflict :
  rd_pending d = Some p →
  final_verdict response d peek bag persisted conflict = (false, Some (pending_violation p))
  ∧ vi_proto_error_code (pending_violation p) = Some ELICITATION_PENDING_CODE
  ∧ vi_details (pending_violation p) !! DETAIL_HTTP_STATUS = None.
Proof.
  intros Hp. unfold final_verdict. rewrite Hp. simpl. split_and!; [|done|].
  - by destruct persisted as [[]|], conflict.
  - by destruct (pe_intent_id p), (pe_expires_at p), (pe_channel p), (pe_approver p).
Qed.

End Handler.

(** ** Examples *)

Module HandlerDemo.

Abbreviation AnyPayload := (MessagePayload + (DelegationPayload + ElicitationPayload))%type.
#[local] Instance erased_message : Erased MessagePayload AnyPayload :=
  {| erase := inl; downcast p := match p with inl d => Some d | inr _ => None end;
     downcast_erase _ := eq_refl |}.
#[local] Instance erased_delegation : Erased DelegationPayload AnyPayload :=
  {| erase p := inr (inl p); downcast p := match p with inr (inl d) => Some d | _ => None end;
     downcast_erase _ := eq_refl |}.
#[local] Instance erased_elicitation : Erased ElicitationPayload AnyPayload :=
  {| erase p := inr (inr p); downcast p := match p with inr (inr d) => Some d | _ => None end;
     downcast_erase _ := eq_refl |}.

(** Plugins that allow; the in-memory store is the world. *)
#[local] Instance allowing : HookHandler unit AnyPayload MemorySessionStore :=
  λ _ _ _ ctx w, (Ok (Some (mkErased true None None None)), ctx, w).
#[local] Instance patient : Timer MemorySessionStore := λ _ _ _, None.
#[local] Instance eager : Runtime MemorySessionStore :=
  {| rt_fork w _ := w; rt_schedule _ l := imap (λ i _, (i, FateDone)) l; rt_join w _ := w |}.
#[local] Instance no_factory : PluginFactory unit unit unit MemorySessionStore :=
  λ _ _ w, (Err (ErrConfig "none"), w).
#[local] Instance calm : Plugin unit MemorySessionStore :=
  {| plugin_initialize _ w := (Ok tt, w); plugin_shutdown _ w := (Ok tt, w) |}.
#[local] Instance one_uuid : UuidSource MemorySessionStore := λ w, (7%N, w).
#[local] Instance epoch : Rfc3339 := λ _, "1970-01-01T00:00:00Z".
#[local] Instance ascii_lower : UnicodeLower := to_ascii_lowercase.
#[local] Instance first_byte : Sha256 :=
  λ s, match s with String c _ => [Z.of_N (Ascii.N_of_ascii c)] | EmptyString => [] end.
#[local] Instance no_backends : PdpBackend Empty_set MemorySessionStore :=
  {| backend_dialect (r : Empty_set) := match r with end;
     backend_evaluate (r : Empty_set) := match r with end |}.
#[local] Instance no_regex : RegexCrate :=
  {| Regex := unit; regex_new _ := Err "none"; regex_is_match _ _ := false |}.
#[local] Instance plain_hash : HashText :=
  {| Pipelines.json_to_string _ := EmptyString; default_hash _ := 0%Z |}.
#[local] Instance in_order : HashOrder := Config.Demo.forward.
#[local] Instance no_json : YamlToJson := λ _, Err "none".

Abbreviation DemoRequest := (Request unit unit unit unit AnyPayload MemorySessionStore).
#[local] Instance request_runtime : Runtime DemoRequest :=
  {| rt_fork w _ := w; rt_schedule _ l := imap (λ i _, (i, FateDone)) l; rt_join w _ := w |}.

(** Every comparison of pointers says they differ, unless the slots are absent
    or the containers are one. *)
#[local] Instance cautious : SlotPointers.
Proof.
  refine {| security_ptr_eq a b := is_none (x_security a) && is_none (x_security b);
            delegation_ptr_eq a b := is_none (x_delegation a) && is_none (x_delegation b);
            raw_ptr_eq a b := is_none (x_raw_credentials a) && is_none (x_raw_credentials b) |}.
  - intros a b. by destruct (x_security a), (x_security b).
  - intros a b. by destruct (x_delegation a), (x_delegation b).
  - intros a b. by destruct (x_raw_credentials a), (x_raw_credentials b).
Defined.

Definition state : PluginManager unit unit unit unit AnyPayload * Env MemorySessionStore :=
  (manager_new manager_config_default, mkEnv memory_store_new ∅ 0).
Definition tainting : AplRouteHandler Empty_set :=
  mkHandler (Config.Demo.plugin "apl") (mkRoute "tool:get_pay" [] [ETaint "seen" [Session]] [] [] ∅ None)
    Pre ∅ ∅ tree_empty.
Definition hello : MessagePayload := mkMessagePayload (message_text RUser "hello").
Definition alice : Extensions := agent_request "alice" "s1".
Definition sid : string := default EmptyString (fst <$> resolve_session alice).

Definition opening := opened tainting hello alice ∅ state.

Lemma session_taints_witness :
  "seen" ∈ labels_of (world_of (handle_request hook_table_init tainting hello alice ∅ state).2.2) sid.
Proof.
  destruct opening as [[[invoker rq]|e] st1] eqn:Eo; [|by vm_compute in Eo].
  unfold opening in Eo.
  apply (session_taints_stored hook_table_init tainting hello alice ∅ state invoker rq st1 sid
           (mkTaint "seen" [Session])); [exact Eo|..];
    vm_compute in Eo; injection Eo as <- <- <-.
  - vm_compute. reflexivity.
  - vm_compute. reflexivity.
  - apply list_elem_of_In. vm_compute. by left.
  - left.
  - vm_compute. set_solver.
Defined.

(** A request that arrives with the label. *)
Definition labelled : Extensions :=
  set_ext_security alice (Some (add_label (default security_default (x_security alice)) "seen")).
Definition labelled_request : DemoRequest := mkRequest labelled hello false state.
Definition labelled_invoker : CmfPluginInvoker unit unit :=
  mkInvoker (mkPlan ∅ ∅ ∅) (Some sid) (snapshot_labels labelled).

Lemma taint_lost_witness :
  labels_of (world_of (rq_state (persist_session labelled_invoker
    (apply_session_taints [mkTaint "seen" [Session]] labelled_request)).2)) sid = ∅.
Proof.
  destruct (session_taint_on_request_label_lost labelled_invoker labelled_request sid "seen")
    as [_ ->]; [reflexivity|reflexivity| |reflexivity].
  apply (bool_decide_unpack _). vm_compute. exact I.
Defined.

(** Headers added to a request that has no other slot. *)
Lemma header_edits_witness :
  returned_extensions extensions_default
    (mkExtensions None None (Some (set_request_header http_default "X-User" "alice")) None None None
       None None None None None None None None None None None) None = None.
Proof. apply header_edits_dropped; reflexivity. Defined.

(** A constraint conflict denies without the route's own response; a policy
    denial has it. *)
Definition teapot : DenyResponse := mkDenyResponse (Some 418%Z) None ∅.
Definition allowing_decision : RouteDecision := mkRouteDecision Allow [] [] false false None.
Example conflict_not_decorated :
  (vi_details <$> (final_verdict (Some teapot) allowing_decision false bag_new (Ok tt)
                     (Some (mkConflict "zone" "eu" "us"))).2) = Some ∅
  ∧ (vi_details <$> (decision_verdict (Some teapot) (Deny None "r")).2)
    = Some {[ DETAIL_HTTP_STATUS := VNumber (PosInt 418) ]}.
Proof. done. Qed.

End HandlerDemo.
