(* ===== verification/Visitor.v ===== *)
(** * The APL configuration visitor (apl-cpex/src/visitor.rs, register.rs)

    What the manager calls while it walks a configuration: the layers of the
    hierarchy are compiled and kept, each route's layers are stacked, checked
    and installed as a pair of handlers.  The visitor's interior state is passed
    explicitly; building PDPs and session stores is the factories'. *)

From S2P Require Import Prelude RustStd F64 Json JsonMerge Yaml Attributes Predicate Pipelines.
From S2P Require Import Orchestration Constraint PredParser PipeParser StepParser ExtData Routing.
From S2P Require Import Extensions PluginTypes Config ConfigLoad Registry Executor Manager.
From S2P Require Import ManagerFacts Dispatch Handler Ir.

Local Open Scope string_scope.
Local Open Scope list_scope.

(** ** External code *)

(** [serde_yaml::to_value] of a JSON value, and [DenyResponse]'s
    [Deserialize]. *)
Class VisitorSerde := {
  yaml_of_json : Value → option Yaml;
  response_from_value : Yaml → Result DenyResponse string
}.

(** [PdpFactory::build] and [SessionStoreFactory::build], with errors shown. *)
Class FactoryBuild (PF SF R SS : Type) := {
  pdp_build : PF → Yaml → Result R string;
  store_build : SF → Yaml → Result SS string
}.

(** How an installed handler is seen by the manager: the route handler and the
    session store it holds. *)
Class HandlerObject (R SS P H : Type) := {
  as_plugin : AplRouteHandler R * SS → P;
  as_handler : AplRouteHandler R * SS → H
}.

(** ** Data *)

Definition show_attribute_error (e : AttributeError) : string :=
  match e with
  | AeLoad m => "attribute source load failed: " +:+ m
  | AeParse m => "attribute source parse failed: " +:+ m
  | AeConflict path existing incoming =>
      "attribute conflict at `" +:+ path +:+ "`: `" +:+ existing +:+ "` vs `" +:+ incoming +:+ "`"
  end.

Definition ENTITY_HTTP : string := "http".
Definition ENTITY_NAME_GLOBAL : string := "*".
Definition HOOK_CMF_HTTP_REQUEST : string := "cmf.http_request".

Definition hook_pair_for_entity (entity_type : string) : option (string * string) :=
  if String.eqb entity_type ENTITY_TOOL then
    Some (HOOK_CMF_TOOL_PRE_INVOKE, HOOK_CMF_TOOL_POST_INVOKE)
  else if String.eqb entity_type ENTITY_LLM then Some (HOOK_CMF_LLM_INPUT, HOOK_CMF_LLM_OUTPUT)
  else if String.eqb entity_type ENTITY_PROMPT then
    Some (HOOK_CMF_PROMPT_PRE_INVOKE, HOOK_CMF_PROMPT_POST_INVOKE)
  else if String.eqb entity_type ENTITY_RESOURCE then
    Some (HOOK_CMF_RESOURCE_PRE_FETCH, HOOK_CMF_RESOURCE_POST_FETCH)
  else None.

(** [VisitorError]: a message, or a parse failure passed on. *)
Inductive VisitorError := VMessage (msg : string) | VParse (f : Failure).

Definition v_lift {T} (r : Parsed T) : Result T VisitorError :=
  match r with Ok x => Ok x | Err f => Err (VParse f) end.

(** What the visitor keeps behind its locks. *)
Record VisitorState (R SS : Type) := mkVisitorState {
  vs_plugin_registry : gmap string PluginDeclaration;
  vs_global_layer : option CompiledRoute;
  vs_default_layers : gmap string CompiledRoute;
  vs_tag_layers : gmap string CompiledRoute;
  vs_pdp_router : gmap PdpDialect R;
  vs_session_store : SS;
  vs_attribute_tree : AttributeTree
}.
Arguments mkVisitorState {R SS}.
Arguments vs_plugin_registry {R SS}.
Arguments vs_global_layer {R SS}.
Arguments vs_default_layers {R SS}.
Arguments vs_tag_layers {R SS}.
Arguments vs_pdp_router {R SS}.
Arguments vs_session_store {R SS}.
Arguments vs_attribute_tree {R SS}.

(** The fields set before the walk. *)
Record AplConfigVisitor (PF SF : Type) := mkVisitor {
  av_base_capabilities : gset string;
  av_pdp_factories : gmap string PF;
  av_session_store_factories : gmap string SF
}.
Arguments mkVisitor {PF SF}.
Arguments av_base_capabilities {PF SF}.
Arguments av_pdp_factories {PF SF}.
Arguments av_session_store_factories {PF SF}.

Definition default_base_capabilities : gset string :=
  list_to_set ["read_subject"; "read_roles"; "read_permissions"; "read_teams"; "read_claims";
               "read_labels"; "read_delegation"; "read_agent"; "read_meta"].

(** ** Reading a section *)

Definition GLOBAL_ONLY_NON_DSL_KEYS : list string := ["pdp"; "session_store"; "attribute_files"].

Definition RENAMED_APL_KEYS : list (string * string) :=
  [("policy", "authorization.pre_invocation (or flat pre_invocation)");
   ("post_policy", "authorization.post_invocation (or flat post_invocation)")].

Definition FLAT_APL_KEYS : list string :=
  ["pre_invocation"; "post_invocation"; "authorization"; "args"; "result"; "pdp"; "session_store"].

Definition mapping_contains (m : Mapping) (k : string) : bool := negb (is_none (mapping_get m k)).

Definition reject_legacy_apl_keys (scope : string) (yaml : Yaml) : Result unit VisitorError :=
  match yaml_as_mapping yaml with
  | None => Ok tt
  | Some map =>
      try_all (λ '(old, new),
        if mapping_contains map old then
          Err (VMessage ("in `" +:+ scope +:+ "`: config field `" +:+ old +:+ "` was renamed to `"
                 +:+ new +:+ "` — update your config"))
        else Ok tt) RENAMED_APL_KEYS
  end.

(** [Mapping::remove] with a string key: the last entry takes the place of the
    removed one. *)
Definition mapping_remove (m : Mapping) (k : string) : Mapping :=
  match list_find (λ p, is_key k p.1 = true) m, last m with
  | Some (i, _), Some x => take (pred (length m)) (<[i := x]> m)
  | _, _ => m
  end.

Definition strip_non_dsl_keys (apl_block : Yaml) : Yaml :=
  match yaml_as_mapping apl_block with
  | None => apl_block
  | Some map => YMapping (foldl mapping_remove map GLOBAL_ONLY_NON_DSL_KEYS)
  end.

(** [Value::is_mapping]. *)
Definition yaml_is_mapping (v : Yaml) : bool := negb (is_none (yaml_as_mapping v)).

Definition apl_subblock (yaml : Yaml) : option Yaml :=
  match yaml_get yaml "apl" with
  | Some block => if yaml_is_null block then None else Some block
  | None =>
      let block :=
        foldl (λ block key,
          match yaml_get yaml key with
          | Some value => mapping_insert_str block key value
          | None => block
          end) [] FLAT_APL_KEYS in
      let block :=
        match yaml_get yaml "plugins" with
        | Some value =>
            if yaml_is_mapping value then mapping_insert_str block "plugins" value else block
        | None => block
        end in
      if is_nil block then None else Some (YMapping block)
  end.

Definition response_yaml_block (yaml : Yaml) : option Yaml :=
  match yaml_get yaml "response" with
  | Some v => Some v
  | None => apl ← yaml_get yaml "apl"; yaml_get apl "response"
  end.

Definition response_subblock `{VisitorSerde} (yaml : Yaml) : option DenyResponse :=
  block ← response_yaml_block yaml;
  if yaml_is_null block then None
  else match response_from_value block with Ok resp => Some resp | Err _ => None end.

Definition http_catchall_should_install (compiled : CompiledRoute) : bool :=
  phases_contains (declared_phases compiled) PhArgs
  || phases_contains (declared_phases compiled) PhPolicy.

Definition names_of (sol : StringOrList) : list string :=
  match sol with Single p => [p] | NameList v => v end.

Definition entity_identity (route : RouteEntry) : option (string * list string) :=
  match re_tool route, re_resource route, re_prompt route, re_llm route with
  | Some t, _, _, _ => Some ("tool", names_of t)
  | None, Some r, _, _ => Some ("resource", names_of r)
  | None, None, Some p, _ => Some ("prompt", names_of p)
  | None, None, None, Some l => Some ("llm", names_of l)
  | None, None, None, None => None
  end.

Definition on_error_to_string (o : OnError) : string :=
  match o with Fail => "fail" | Ignore => "ignore" | Disable => "disable" end.

(** The key the dispatch cache files a route's plan under. *)
Definition route_key_of (entity_type entity_name : string) (scope : option string) : string :=
  match scope with
  | Some s => entity_type +:+ ":" +:+ entity_name +:+ "@" +:+ s
  | None => entity_type +:+ ":" +:+ entity_name
  end.

Definition set_response (r : CompiledRoute) (resp : option DenyResponse) : CompiledRoute :=
  mkRoute (cr_route_key r) (cr_args r) (cr_policy r) (cr_result r) (cr_post_policy r)
    (cr_plugin_overrides r) resp.

Definition apply_opt (r : CompiledRoute) (layer : option CompiledRoute) : CompiledRoute :=
  match layer with Some l => apply_layer r l | None => r end.

(** ** Operations *)

Section Visitor.
Context {P H F V Pay W R SS PF SF : Type}.
Context `{HookHandler H Pay W} `{Timer W} `{Runtime W}.
Context `{PluginFactory F P H W} `{Plugin P W} `{HookTypeName H} `{UuidSource W}.
Context `{TaskRuntime H Pay W} `{YamlToJson} `{YamlLib} `{SerdeConfig} `{WildMatch} `{order : HashOrder}.
Context `{UnicodeTables} `{EffectDebug} `{SerdeApl} `{JsonText} `{AttributeFiles}.
Context `{PdpBackend R W} `{VisitorSerde} `{FactoryBuild PF SF R SS} `{HandlerObject R SS P H}.
Context (self : AplConfigVisitor PF SF).

Abbreviation Manager := (PluginManager P H F V Pay).
Abbreviation VState := (VisitorState R SS).
Abbreviation State := (Manager * Env W)%type.
Abbreviation Visited := (VState * State)%type.

Definition visitor_state_new (store : SS) : VState := mkVisitorState ∅ None ∅ ∅ ∅ store tree_empty.

Definition set_vs_router (vs : VState) (r : gmap PdpDialect R) : VState :=
  mkVisitorState (vs_plugin_registry vs) (vs_global_layer vs) (vs_default_layers vs)
    (vs_tag_layers vs) r (vs_session_store vs) (vs_attribute_tree vs).
Definition set_vs_store (vs : VState) (s : SS) : VState :=
  mkVisitorState (vs_plugin_registry vs) (vs_global_layer vs) (vs_default_layers vs)
    (vs_tag_layers vs) (vs_pdp_router vs) s (vs_attribute_tree vs).
Definition set_vs_tree (vs : VState) (t : AttributeTree) : VState :=
  mkVisitorState (vs_plugin_registry vs) (vs_global_layer vs) (vs_default_layers vs)
    (vs_tag_layers vs) (vs_pdp_router vs) (vs_session_store vs) t.
Definition set_vs_registry (vs : VState) (r : gmap string PluginDeclaration) : VState :=
  mkVisitorState r (vs_global_layer vs) (vs_default_layers vs) (vs_tag_layers vs)
    (vs_pdp_router vs) (vs_session_store vs) (vs_attribute_tree vs).
Definition set_vs_global (vs : VState) (g : option CompiledRoute) : VState :=
  mkVisitorState (vs_plugin_registry vs) g (vs_default_layers vs) (vs_tag_layers vs)
    (vs_pdp_router vs) (vs_session_store vs) (vs_attribute_tree vs).
Definition set_vs_defaults (vs : VState) (d : gmap string CompiledRoute) : VState :=
  mkVisitorState (vs_plugin_registry vs) (vs_global_layer vs) d (vs_tag_layers vs)
    (vs_pdp_router vs) (vs_session_store vs) (vs_attribute_tree vs).
Definition set_vs_tags (vs : VState) (t : gmap string CompiledRoute) : VState :=
  mkVisitorState (vs_plugin_registry vs) (vs_global_layer vs) (vs_default_layers vs) t
    (vs_pdp_router vs) (vs_session_store vs) (vs_attribute_tree vs).

Definition register_pdp (vs : VState) (resolver : R) : VState :=
  set_vs_router vs (router_register (vs_pdp_router vs) resolver).
Definition set_attribute_tree (vs : VState) (tree : AttributeTree) : VState := set_vs_tree vs tree.

(** [map.get("kind").and_then(as_str)] of a wiring block. *)
Definition block_kind (map : Mapping) : option string := mapping_get map "kind" ≫= yaml_as_str.

Definition build_session_store_from_config (block : Yaml) (vs : VState) :
    Result VState VisitorError :=
  match yaml_as_mapping block with
  | None => Err (VMessage "global.apl.session_store must be a mapping with a `kind:` field")
  | Some map =>
      match block_kind map with
      | None => Err (VMessage "global.apl.session_store missing required `kind:` field")
      | Some kind =>
          match av_session_store_factories self !! kind with
          | None =>
              Err (VMessage ("global.apl.session_store declared kind='" +:+ kind
                +:+ "' but no factory is registered for that kind — host must call register_session_store_factory(...) before load_config_yaml"))
          | Some factory =>
              match store_build factory block with
              | Err e =>
                  Err (VMessage ("global.apl.session_store (kind='" +:+ kind
                         +:+ "') failed to build: " +:+ e))
              | Ok store => Ok (set_vs_store vs store)
              end
          end
      end
  end.

(** The paths of [attribute_files], or the first that is not a string. *)
Fixpoint file_paths (i : nat) (entries : list Yaml) : Result (list string) VisitorError :=
  match entries with
  | [] => Ok []
  | entry :: entries =>
      match yaml_as_str entry with
      | None =>
          Err (VMessage ("global.apl.attribute_files[" +:+ show_nat i
                 +:+ "] must be a string path"))
      | Some s => let? rest := file_paths (S i) entries in Ok (s :: rest)
      end
  end.

Definition build_attribute_tree_from_config (entries : list Yaml) (vs : VState) : Result VState VisitorError :=
  if negb (tree_is_empty (vs_attribute_tree vs)) then Ok vs
  else
    let? paths := file_paths 0 entries in
    if is_nil paths then Ok vs
    else
      match file_source_load paths with
      | Err e =>
          Err (VMessage ("global.apl.attribute_files failed to load: " +:+ show_attribute_error e))
      | Ok tree => Ok (set_vs_tree vs tree)
      end.

Definition build_pdp_from_config (entry : Yaml) (index : nat) (vs : VState) :
    Result VState VisitorError :=
  let at_index := "global.apl.pdp[" +:+ show_nat index +:+ "]" in
  match yaml_as_mapping entry with
  | None => Err (VMessage (at_index +:+ " must be a mapping with a `kind:` field"))
  | Some map =>
      match block_kind map with
      | None => Err (VMessage (at_index +:+ " missing required `kind:` field"))
      | Some kind =>
          match av_pdp_factories self !! kind with
          | None =>
              Err (VMessage (at_index +:+ " declared kind='" +:+ kind
                +:+ "' but no factory is registered for that kind — host must call register_pdp_factory(...) before load_config_yaml"))
          | Some factory =>
              match pdp_build factory entry with
              | Err e => Err (VMessage (at_index +:+ " (kind='" +:+ kind +:+ "') failed to build: " +:+ e))
              | Ok resolver => Ok (register_pdp vs resolver)
              end
          end
      end
  end.

Fixpoint build_pdps (index : nat) (entries : list Yaml) (vs : VState) : VState * Result unit VisitorError :=
  match entries with
  | [] => (vs, Ok tt)
  | entry :: entries =>
      match build_pdp_from_config entry index vs with
      | Err e => (vs, Err e)
      | Ok vs => build_pdps (S index) entries vs
      end
  end.

(** *** Installing *)

Definition handler_capabilities (route : CompiledRoute) (registry : gmap string PluginDeclaration) :
    gset string :=
  {[ CAP_WRITE_CANDIDATE_CONSTRAINT ]} ∪ ({[ "read_headers" ]}
    ∪ (av_base_capabilities self ∪ route_capability_union route registry)).

(** [PluginConfig::default()] with the fields the handler sets. *)
Definition handler_config (entity_type entity_name hook_name : string) (phase : DispatchPhase)
    (capabilities : gset string) : PluginConfig :=
  mkPluginConfig
    ("apl::" +:+ entity_type +:+ "::" +:+ entity_name +:+ "::"
       +:+ match phase with Pre => "pre" | Post => "post" end)
    "builtin" None None None [hook_name] Sequential 0 Fail capabilities [] [] None.

Definition route_handler (vs : VState) (config : PluginConfig) (route : CompiledRoute)
    (phase : DispatchPhase) : AplRouteHandler R * SS :=
  (mkHandler config route phase (vs_plugin_registry vs) (vs_pdp_router vs) (vs_attribute_tree vs),
   vs_session_store vs).

Definition install_handler (vs : VState) (entity_type entity_name : string) (scope : option string)
    (hook_name : string) (phase : DispatchPhase) (route : CompiledRoute) (st : State) : State :=
  let config := handler_config entity_type entity_name hook_name phase
                  (handler_capabilities route (vs_plugin_registry vs)) in
  let handler := route_handler vs config route phase in
  annotate_route entity_type entity_name scope hook_name (as_plugin handler) (as_handler handler)
    config st.

(** *** The visits *)

Definition declaration_of (cfg : PluginConfig) : PluginDeclaration :=
  mkPluginDecl (pcf_name cfg) (pcf_kind cfg) (pcf_hooks cfg) (set_iter (pcf_capabilities cfg))
    (pcf_config cfg ≫= yaml_of_json) (Some (on_error_to_string (pcf_on_error cfg))) ∅.

Definition apl_visit_plugins (plugins : list PluginConfig) (s : Visited) :
    Result unit VisitorError * Visited :=
  (Ok tt, (set_vs_registry s.1 (foldl (λ m cfg, <[pcf_name cfg := declaration_of cfg]> m) ∅ plugins),
           s.2)).

(** The wiring half of [visit_global]: PDPs, the store, the attribute files. *)
Definition visit_wiring (apl_block : Yaml) (vs : VState) : VState * Result unit VisitorError :=
  let '(vs, r) :=
    match yaml_get apl_block "pdp" ≫= yaml_as_sequence with
    | Some entries => build_pdps 0 entries vs
    | None => (vs, Ok tt)
    end in
  match r with
  | Err e => (vs, Err e)
  | Ok _ =>
      let '(vs, r) :=
        match yaml_get apl_block "session_store" with
        | Some block =>
            match build_session_store_from_config block vs with
            | Ok vs => (vs, Ok tt)
            | Err e => (vs, Err e)
            end
        | None => (vs, Ok tt)
        end in
      match r with
      | Err e => (vs, Err e)
      | Ok _ =>
          match yaml_get apl_block "attribute_files" with
          | None => (vs, Ok tt)
          | Some files =>
              match yaml_as_sequence files with
              | None => (vs, Err (VMessage "global.apl.attribute_files must be a list of file paths"))
              | Some entries =>
                  match build_attribute_tree_from_config entries vs with
                  | Ok vs => (vs, Ok tt)
                  | Err e => (vs, Err e)
                  end
              end
          end
      end
  end.

Definition apl_visit_global (yaml : Yaml) (s : Visited) : Result unit VisitorError * Visited :=
  let '(vs, st) := s in
  match reject_legacy_apl_keys "global" yaml with
  | Err e => (Err e, s)
  | Ok _ =>
      match apl_subblock yaml with
      | None => (Ok tt, s)
      | Some apl_block =>
          let '(vs, r) := visit_wiring apl_block vs in
          match r with
          | Err e => (Err e, (vs, st))
          | Ok _ =>
              match v_lift (compile_policy_block_value "global.apl" (strip_non_dsl_keys apl_block)) with
              | Err e => (Err e, (vs, st))
              | Ok compiled =>
                  let compiled := set_response compiled (response_subblock yaml) in
                  let st :=
                    if http_catchall_should_install compiled then
                      install_handler vs ENTITY_HTTP ENTITY_NAME_GLOBAL None HOOK_CMF_HTTP_REQUEST
                        Pre compiled st
                    else st in
                  (Ok tt, (set_vs_global vs (Some compiled), st))
              end
          end
      end
  end.

(** The body [visit_default] and [visit_policy_bundle] share. *)
Definition visit_layer (source : string) (yaml : Yaml) (store : VState → CompiledRoute → VState)
    (s : Visited) : Result unit VisitorError * Visited :=
  match reject_legacy_apl_keys source yaml with
  | Err e => (Err e, s)
  | Ok _ =>
      match apl_subblock yaml with
      | None => (Ok tt, s)
      | Some apl_block =>
          match v_lift (compile_policy_block_value source apl_block) with
          | Err e => (Err e, s)
          | Ok compiled => (Ok tt, (store s.1 compiled, s.2))
          end
      end
  end.

Definition apl_visit_default (entity_type : string) (yaml : Yaml) :
    Visited → Result unit VisitorError * Visited :=
  visit_layer ("global.defaults." +:+ entity_type +:+ ".apl") yaml
    (λ vs compiled, set_vs_defaults vs (<[entity_type := compiled]> (vs_default_layers vs))).

Definition apl_visit_policy_bundle (tag : string) (yaml : Yaml) :
    Visited → Result unit VisitorError * Visited :=
  visit_layer ("global.policies." +:+ tag +:+ ".apl") yaml
    (λ vs compiled, set_vs_tags vs (<[tag := compiled]> (vs_tag_layers vs))).

(** The inherited layers of a route, least specific first. *)
Definition inherited (vs : VState) (entity_type : string) (tags : list string) (route_key : string) :
    CompiledRoute :=
  let effective := apply_opt (route_new route_key) (vs_global_layer vs) in
  let effective := apply_opt effective (vs_default_layers vs !! entity_type) in
  foldl (λ r tag, apply_opt r (vs_tag_layers vs !! tag)) effective tags.

(** The stacked route, or why its own block does not compile. *)
Definition effective_route (vs : VState) (entity_type : string) (tags : list string)
    (route_apl : option Yaml) (response : option DenyResponse) (route_key : string) :
    Result CompiledRoute VisitorError :=
  let base := inherited vs entity_type tags route_key in
  let? effective :=
    match route_apl with
    | None => Ok base
    | Some block =>
        let? layer :=
          v_lift (compile_policy_block_value ("routes." +:+ route_key +:+ ".apl") block) in
        Ok (apply_layer base layer)
    end in
  Ok (set_response effective response).

(** [PluginModeLookup for PluginManager]. *)
Definition manager_mode_for (st : State) (name : string) : option PluginMode :=
  pr_mode (en_flags st.2) <$> get_plugin st.1 name.

(** One entity of a route: nothing, an error, or the two handlers installed. *)
Definition visit_entity (vs : VState) (entity_type : string) (scope : option string)
    (tags : list string) (route_apl : option Yaml) (response : option DenyResponse)
    (entity_name : string) (st : State) : Result unit VisitorError * State :=
  let route_key := route_key_of entity_type entity_name scope in
  match effective_route vs entity_type tags route_apl response route_key with
  | Err e => (Err e, st)
  | Ok effective =>
      if phases_is_empty (declared_phases effective) then (Ok tt, st)
      else
        match validate_parallel_plugin_modes (manager_mode_for st) effective with
        | Err msg =>
            (Err (VMessage ("route '" +:+ route_key +:+ "': parallel-safety: " +:+ msg)), st)
        | Ok _ =>
            match hook_pair_for_entity entity_type with
            | None => (Ok tt, st)
            | Some (hook_pre, hook_post) =>
                let st := install_handler vs entity_type entity_name scope hook_pre Pre effective st in
                (Ok tt, install_handler vs entity_type entity_name scope hook_post Post effective st)
            end
        end
  end.

Fixpoint visit_entities (vs : VState) (entity_type : string) (scope : option string)
    (tags : list string) (route_apl : option Yaml) (response : option DenyResponse)
    (names : list string) (st : State) : Result unit VisitorError * State :=
  match names with
  | [] => (Ok tt, st)
  | name :: names =>
      let '(r, st) := visit_entity vs entity_type scope tags route_apl response name st in
      match r with
      | Err e => (Err e, st)
      | Ok _ => visit_entities vs entity_type scope tags route_apl response names st
      end
  end.

Definition apl_visit_route (yaml : Yaml) (parsed : RouteEntry) (s : Visited) :
    Result unit VisitorError * Visited :=
  match reject_legacy_apl_keys "route" yaml with
  | Err e => (Err e, s)
  | Ok _ =>
      match entity_identity parsed with
      | None => (Ok tt, s)
      | Some (entity_type, entity_names) =>
          let scope := re_meta parsed ≫= rm_scope in
          let tags := from_option rm_tags [] (re_meta parsed) in
          let '(r, st) :=
            visit_entities s.1 entity_type scope tags (apl_subblock yaml) (response_subblock yaml)
              entity_names s.2 in
          (r, (s.1, st))
      end
  end.

(** ** Properties *)

(** *** Stacking *)

Definition policy_of (layer : option CompiledRoute) : list Effect := from_option cr_policy [] layer.
Definition post_policy_of (layer : option CompiledRoute) : list Effect :=
  from_option cr_post_policy [] layer.

Lemma apply_opt_policy r layer :
  cr_policy (apply_opt r layer) = cr_policy r ++ policy_of layer
  ∧ cr_post_policy (apply_opt r layer) = cr_post_policy r ++ post_policy_of layer
  ∧ cr_route_key (apply_opt r layer) = cr_route_key r.
Proof. destruct layer; simpl; rewrite ?(right_id_L [] (++)); done. Qed.

Lemma apply_tags_policy (layers : gmap string CompiledRoute) tags r :
  let r' := foldl (λ r tag, apply_opt r (layers !! tag)) r tags in
  cr_policy r' = cr_policy r ++ (tags ≫= λ tag, policy_of (layers !! tag))
  ∧ cr_post_policy r' = cr_post_policy r ++ (tags ≫= λ tag, post_policy_of (layers !! tag))
  ∧ cr_route_key r' = cr_route_key r.
Proof.
  revert r. induction tags as [|tag tags IH]; intros r; simpl; [by rewrite !(right_id_L [] (++))|].
  destruct (IH (apply_opt r (layers !! tag))) as (-> & -> & ->).
  destruct (apply_opt_policy r (layers !! tag)) as (-> & -> & ->). by rewrite !(assoc_L (++)).
Qed.

Lemma inherited_policy vs et tags key :
  cr_policy (inherited vs et tags key)
  = policy_of (vs_global_layer vs) ++ policy_of (vs_default_layers vs !! et)
    ++ (tags ≫= λ tag, policy_of (vs_tag_layers vs !! tag))
  ∧ cr_post_policy (inherited vs et tags key)
  = post_policy_of (vs_global_layer vs) ++ post_policy_of (vs_default_layers vs !! et)
    ++ (tags ≫= λ tag, post_policy_of (vs_tag_layers vs !! tag))
  ∧ cr_route_key (inherited vs et tags key) = key.
Proof.
  unfold inherited.
  set (g := apply_opt (route_new key) (vs_global_layer vs)).
  set (d := apply_opt g (vs_default_layers vs !! et)).
  destruct (apply_tags_policy (vs_tag_layers vs) tags d) as (-> & -> & ->).
  destruct (apply_opt_policy g (vs_default_layers vs !! et)) as (Hd1 & Hd2 & Hd3).
  destruct (apply_opt_policy (route_new key) (vs_global_layer vs)) as (Hg1 & Hg2 & Hg3).
  fold d in Hd1, Hd2, Hd3. fold g in Hg1, Hg2, Hg3. rewrite Hd1, Hd2, Hd3, Hg1, Hg2, Hg3.
  simpl. by rewrite <-!(assoc_L (++)).
Qed.

(** A route cannot shed what it inherits: the policies evaluated for it are
    those of [global], then of its entity type, then of its tags in order, then
    its own; and its denial response is its own alone. *)
Theorem layers_stack vs et tags route_apl response key r :
  effective_route vs et tags route_apl response key = Ok r →
  ∃ own, match route_apl with
         | None => own = route_new key
         | Some block =>
             compile_policy_block_value ("routes." +:+ key +:+ ".apl") block = Ok own
         end
    ∧ cr_policy r = policy_of (vs_global_layer vs) ++ policy_of (vs_default_layers vs !! et)
        ++ (tags ≫= λ tag, policy_of (vs_tag_layers vs !! tag)) ++ cr_policy own
    ∧ cr_post_policy r = post_policy_of (vs_global_layer vs)
        ++ post_policy_of (vs_default_layers vs !! et)
        ++ (tags ≫= λ tag, post_policy_of (vs_tag_layers vs !! tag)) ++ cr_post_policy own
    ∧ cr_response r = response ∧ cr_route_key r = key.
Proof.
  destruct (inherited_policy vs et tags key) as (Hp & Hq & Hk).
  unfold effective_route. destruct route_apl as [block|]; simpl.
  - destruct (compile_policy_block_value _ block) as [own|f] eqn:Ec; simpl; [|done].
    intros [= <-]. exists own. simpl. rewrite Hp, Hq, Hk, <-!(assoc_L (++)). done.
  - intros [= <-]. exists (route_new key). simpl. rewrite Hp, Hq, Hk, !(right_id_L [] (++)). done.
Qed.

(** *** Installing *)

Definition annotation (st : State) (et en : string) (scope : option string) (hook : string) :
    option (HookEntry P H) :=
  rs_route_annotations (mg_runtime st.1) !! mkAnnotationKey et en scope hook.

(** The handler of one phase of [route] is installed. *)
Definition installed (vs : VState) (et en : string) (scope : option string) (hook : string)
    (phase : DispatchPhase) (route : CompiledRoute) (st : State) : Prop :=
  let config := handler_config et en hook phase
                  (handler_capabilities route (vs_plugin_registry vs)) in
  ∃ entry, annotation st et en scope hook = Some entry
    ∧ he_handler entry = as_handler (route_handler vs config route phase)
    ∧ pr_trusted_config (he_plugin_ref entry) = config.

Lemma install_annotation vs et en scope hook phase route st et' en' scope' hook' :
  mkAnnotationKey et en scope hook ≠ mkAnnotationKey et' en' scope' hook' →
  annotation (install_handler vs et en scope hook phase route st) et' en' scope' hook'
  = annotation st et' en' scope' hook'.
Proof.
  intros Hne. unfold annotation, install_handler, annotate_route. destruct st as [m env].
  destruct (alloc env) as [[id cell] env']. simpl. by rewrite lookup_insert_ne.
Qed.

Lemma install_installed vs et en scope hook phase route st :
  installed vs et en scope hook phase route (install_handler vs et en scope hook phase route st).
Proof.
  unfold installed, annotation, install_handler, annotate_route. destruct st as [m env].
  destruct (alloc env) as [[id cell] env']. simpl. rewrite lookup_insert_eq. by eexists.
Qed.

Lemma installed_keep vs et en scope hook phase route en' hook' phase' route' st :
  (en ≠ en' ∨ hook ≠ hook') → installed vs et en scope hook phase route st →
  installed vs et en scope hook phase route (install_handler vs et en' scope hook' phase' route' st).
Proof.
  intros Hne (entry & Ha & Hh). exists entry. split; [|done].
  rewrite install_annotation; [done|]. intros [= -> ->]. naive_solver.
Qed.

Lemma install_modes vs et en scope hook phase route st name :
  manager_mode_for (install_handler vs et en scope hook phase route st) name
  = manager_mode_for st name.
Proof.
  unfold manager_mode_for, install_handler, annotate_route, alloc. destruct st as [m env].
  by destruct (new_v4 (en_world env)).
Qed.

Lemma hook_pair_distinct et hp hq : hook_pair_for_entity et = Some (hp, hq) → hp ≠ hq.
Proof. unfold hook_pair_for_entity. intros Hp. repeat case_match; simplify_eq; done. Qed.

Section Route.
Context (vs : VState) (et : string) (scope : option string) (tags : list string).
Context (route_apl : option Yaml) (response : option DenyResponse) (hp hq : string).
Context (Hpair : hook_pair_for_entity et = Some (hp, hq)).

Abbreviation effective en := (effective_route vs et tags route_apl response (route_key_of et en scope)).

(** Both handlers of an entity are installed, and its route passed the mode
    check. *)
Definition entity_done (en : string) (st : State) : Prop :=
  ∃ r, effective en = Ok r ∧
    (phases_is_empty (declared_phases r) = false →
     installed vs et en scope hp Pre r st ∧ installed vs et en scope hq Post r st
     ∧ validate_parallel_plugin_modes (manager_mode_for st) r = Ok tt).

Lemma validate_ext (f g : string → option PluginMode) r :
  (∀ n, f n = g n) → validate_parallel_plugin_modes f r = Ok tt →
  validate_parallel_plugin_modes g r = Ok tt.
Proof.
  intros Hfg. rewrite !parallel_ok_iff. intros Hf e n He Hc. rewrite <-Hfg. by eapply Hf.
Qed.

Lemma visit_entity_done en st st' :
  visit_entity vs et scope tags route_apl response en st = (Ok tt, st') →
  entity_done en st' ∧ ∀ en', entity_done en' st → entity_done en' st'.
Proof.
  unfold visit_entity. destruct (effective en) as [r|e] eqn:Ee; [|done].
  destruct (phases_is_empty (declared_phases r)) eqn:Eh.
  { intros [= <-]. split; [|done]. exists r. split; [done|]. by rewrite Eh. }
  destruct (validate_parallel_plugin_modes (manager_mode_for st) r) as [[]|msg] eqn:Ev; [|done].
  rewrite Hpair. intros [= <-]. pose proof (hook_pair_distinct _ _ _ Hpair) as Hd.
  assert (∀ n, manager_mode_for st n = manager_mode_for (install_handler vs et en scope hq Post r
    (install_handler vs et en scope hp Pre r st)) n) as Hm by (intros; by rewrite !install_modes).
  split.
  - exists r. split; [done|]. intros _. split_and!.
    + apply installed_keep; [by right|]. apply install_installed.
    + apply install_installed.
    + by eapply validate_ext.
  - intros en' (r' & Er' & Hr'). exists r'. split; [done|]. intros Hne.
    destruct (Hr' Hne) as (Hi1 & Hi2 & Hv). destruct (decide (en' = en)) as [->|Hn].
    + assert (r' = r) as -> by congruence. split_and!; [|apply install_installed|by eapply validate_ext].
      apply installed_keep; [by right|]. apply install_installed.
    + split_and!; [..|by eapply validate_ext]; (apply installed_keep; [by left|]);
        (apply installed_keep; [by left|done]).
Qed.

Lemma visit_entities_done names : ∀ st st',
  visit_entities vs et scope tags route_apl response names st = (Ok tt, st') →
  (∀ en, en ∈ names → entity_done en st') ∧ ∀ en, entity_done en st → entity_done en st'.
Proof.
  induction names as [|n names IH]; intros st st'; simpl.
  { intros [= <-]. split; [|done]. by intros en ?%not_elem_of_nil. }
  destruct (visit_entity vs et scope tags route_apl response n st) as [[[]|e] st1] eqn:Ev; [|done].
  intros Hv. destruct (visit_entity_done _ _ _ Ev) as [Hn Hk]. destruct (IH _ _ Hv) as [IH1 IH2].
  split; [|auto]. intros en [->|Hin]%elem_of_cons; auto.
Qed.
End Route.

(** C11: a route that loads is enforced for every entity it names: when the visit
    succeeds, each of them whose stacked route says anything has its pre and
    post handlers installed with that route and with the capabilities its
    plugins need, and the route passed the check for parallel blocks. *)
Theorem visited_route_enforced yaml parsed vs st vs' st' et names en hp hq :
  apl_visit_route yaml parsed (vs, st) = (Ok tt, (vs', st')) →
  entity_identity parsed = Some (et, names) → en ∈ names →
  hook_pair_for_entity et = Some (hp, hq) →
  vs' = vs
  ∧ ∃ r, effective_route vs et (from_option rm_tags [] (re_meta parsed)) (apl_subblock yaml)
           (response_subblock yaml) (route_key_of et en (re_meta parsed ≫= rm_scope)) = Ok r
    ∧ (phases_is_empty (declared_phases r) = false →
       installed vs et en (re_meta parsed ≫= rm_scope) hp Pre r st'
       ∧ installed vs et en (re_meta parsed ≫= rm_scope) hq Post r st'
       ∧ validate_parallel_plugin_modes (manager_mode_for st') r = Ok tt).
Proof.
  unfold apl_visit_route. intros Hv He Hin Hp. destruct (reject_legacy_apl_keys "route" yaml); [|done].
  rewrite He in Hv. simpl in Hv.
  destruct (visit_entities _ _ _ _ _ _ _ _) as [r st2] eqn:Ev. injection Hv as -> <- <-.
  split; [done|].
  destruct (visit_entities_done _ _ _ _ _ _ _ _ Hp _ _ _ Ev) as [Hd _]. exact (Hd en Hin).
Qed.

(** *** Reloading *)

(** Policies removed from a configuration stay in force: when a reload visits
    plugins and a [global] section without policies, every route still inherits
    the layers of the previous configuration. *)
Theorem removed_layers_survive_reload plugins yaml vs st et tags key :
  reject_legacy_apl_keys "global" yaml = Ok tt → apl_subblock yaml = None →
  let s1 := (apl_visit_plugins plugins (vs, st)).2 in
  let s2 := (apl_visit_global yaml s1).2 in
  inherited s2.1 et tags key = inherited vs et tags key.
Proof. intros Hr Ha. simpl. unfold apl_visit_global. rewrite Hr, Ha. done. Qed.

(** The router keeps the backend of the first configuration that had one for a
    dialect. *)
Lemma reloaded_pdp_ignored vs r r' :
  vs_pdp_router vs !! backend_dialect r = Some r' → register_pdp vs r = vs.
Proof.
  intros Hl. unfold register_pdp, router_register. rewrite Hl, bool_decide_eq_true_2 by eauto.
  by destruct vs.
Qed.

(** So does the attribute tree: one loaded from files counts as injected. *)
Lemma reloaded_attributes_ignored entries vs :
  tree_is_empty (vs_attribute_tree vs) = false →
  build_attribute_tree_from_config entries vs = Ok vs.
Proof. intros He. unfold build_attribute_tree_from_config. by rewrite He. Qed.

(** *** The catch-all *)

(** The handler for requests without an entity is installed with the global
    policies whatever the modes of the plugins they call in parallel: only
    entity routes are checked. *)
Theorem catchall_not_mode_checked yaml vs st block vs1 compiled :
  reject_legacy_apl_keys "global" yaml = Ok tt → apl_subblock yaml = Some block →
  visit_wiring block vs = (vs1, Ok tt) →
  compile_policy_block_value "global.apl" (strip_non_dsl_keys block) = Ok compiled →
  is_nil (cr_policy compiled) = false →
  let '(r, (vs', st')) := apl_visit_global yaml (vs, st) in
  r = Ok tt
  ∧ installed vs1 ENTITY_HTTP ENTITY_NAME_GLOBAL None HOOK_CMF_HTTP_REQUEST Pre
      (set_response compiled (response_subblock yaml)) st'.
Proof.
  intros Hr Ha Hw Hc Hp. unfold apl_visit_global. rewrite Hr, Ha, Hw, Hc. simpl.
  assert (http_catchall_should_install (set_response compiled (response_subblock yaml)) = true) as ->.
  { unfold http_catchall_should_install. destruct (declared_phases_spec
      (set_response compiled (response_subblock yaml))) as [Hd _]. rewrite !Hd. simpl. rewrite Hp.
    apply orb_true_r. }
  split; [done|]. apply install_installed.
Qed.

End Visitor.

(** ** Registration (register.rs) *)

(** [PdpFactory::kind] and [SessionStoreFactory::kind]. *)
Class FactoryKind (PF SF : Type) := { pdp_kind : PF → string; store_kind : SF → string }.

Record AplOptions (PF SF R SS : Type) := mkAplOptions {
  ao_session_store : SS;
  ao_pdps : list R;
  ao_pdp_factories : list PF;
  ao_session_store_factories : list SF;
  ao_base_capabilities : option (gset string)
}.
Arguments mkAplOptions {PF SF R SS}.
Arguments ao_session_store {PF SF R SS}.
Arguments ao_pdps {PF SF R SS}.
Arguments ao_pdp_factories {PF SF R SS}.
Arguments ao_session_store_factories {PF SF R SS}.
Arguments ao_base_capabilities {PF SF R SS}.

Section Register.
Context {W PF SF R SS : Type} `{FactoryKind PF SF} `{PdpBackend R W}.

Definition register_pdp_factory (v : AplConfigVisitor PF SF) (f : PF) : AplConfigVisitor PF SF :=
  mkVisitor (av_base_capabilities v) (<[pdp_kind f := f]> (av_pdp_factories v))
    (av_session_store_factories v).
Definition register_session_store_factory (v : AplConfigVisitor PF SF) (f : SF) :
    AplConfigVisitor PF SF :=
  mkVisitor (av_base_capabilities v) (av_pdp_factories v)
    (<[store_kind f := f]> (av_session_store_factories v)).

(** The visitor and its state; the caller adds it to the manager. *)
Definition register_apl (opts : AplOptions PF SF R SS) :
    AplConfigVisitor PF SF * VisitorState R SS :=
  let visitor := mkVisitor (default default_base_capabilities (ao_base_capabilities opts)) ∅ ∅ in
  let visitor := foldl register_pdp_factory visitor (ao_pdp_factories opts) in
  let visitor := foldl register_session_store_factory visitor (ao_session_store_factories opts) in
  (visitor, foldl register_pdp (visitor_state_new (ao_session_store opts)) (ao_pdps opts)).

(** The host's backends come before those of any configuration. *)
Lemma registered_pdp_router opts d :
  vs_pdp_router (register_apl opts).2 !! d
  = find (λ r, bool_decide (backend_dialect r = d)) (ao_pdps opts).
Proof.
  simpl. set (start := visitor_state_new _).
  assert (∀ l (vs : VisitorState R SS), vs_pdp_router (foldl register_pdp vs l)
    = foldl router_register (vs_pdp_router vs) l) as ->.
  { induction l as [|r l IH]; intros vs; simpl; [done|]. by rewrite IH. }
  by rewrite router_registrations.
Qed.

End Register.

(** ** Examples *)

(** Entity [a@b] without a scope and entity [a] in scope [b] share a key, so
    they share one cached plan. *)
Example route_keys_collide :
  route_key_of "tool" "a@b" None = route_key_of "tool" "a" (Some "b").
Proof. done. Qed.

(** [attribute_files] written directly under [global:] is not read, although
    [pdp] and [session_store] are. *)
Example flat_attribute_files_dropped :
  apl_subblock (YMapping [(YString "attribute_files", YSequence [YString "teams.yaml"])]) = None
  ∧ is_Some (apl_subblock (YMapping [(YString "pdp", YSequence [])])).
Proof. split; [done|by eexists]. Qed.

(** A flat [policy:] is refused, not dropped. *)
Example legacy_policy_refused :
  ∃ msg, reject_legacy_apl_keys "route" (YMapping [(YString "policy", YSequence [])])
         = Err (VMessage msg).
Proof. by eexists. Qed.

Module VisitorDemo.

Abbreviation DemoHandler := (AplRouteHandler Empty_set * unit)%type.
#[local] Instance handler_itself : HandlerObject Empty_set unit unit DemoHandler :=
  {| as_plugin _ := tt; as_handler h := h |}.
#[local] Instance one_uuid : UuidSource unit := λ w, (7%N, w).
#[local] Instance no_backends : PdpBackend Empty_set unit :=
  {| backend_dialect (r : Empty_set) := match r with end;
     backend_evaluate (r : Empty_set) := match r with end |}.
#[local] Instance no_responses : VisitorSerde :=
  {| yaml_of_json _ := None; response_from_value _ := Err "none" |}.
#[local] Instance no_factories : FactoryBuild unit unit Empty_set unit :=
  {| pdp_build _ _ := Err "none"; store_build _ _ := Ok tt |}.
#[local] Instance plain_yaml : YamlLib :=
  {| debug_yaml _ := "value"; show_yaml_number _ := "number"; yaml_eqb _ _ := false |}.
#[local] Instance no_unicode : UnicodeTables := λ _, false.
#[local] Instance no_debug : EffectDebug := λ _, "effect".
#[local] Instance in_order : HashOrder := Config.Demo.forward.
#[local] Instance no_text : JsonText := λ _, EmptyString.
#[local] Instance no_files : AttributeFiles :=
  {| read_to_string _ := Err "none"; json_from_yaml _ := Err "none" |}.

(** Serde for blocks that only have [pre_invocation]. *)
#[local] Instance pre_only : SerdeApl :=
  {| config_yaml_from_str _ := Err "none";
     route_yaml_from_value v :=
       Ok (mkRouteYaml (default [] (yaml_get v "pre_invocation" ≫= yaml_as_sequence)) [] None ∅ ∅ ∅ ∅) |}.

Definition visitor : AplConfigVisitor unit unit := mkVisitor default_base_capabilities ∅ ∅.
Definition section (steps : list Yaml) : Yaml :=
  YMapping [(YString "apl", YMapping [(YString "pre_invocation", YSequence steps)])].
Definition manager : PluginManager unit DemoHandler unit unit unit * Env unit :=
  (manager_new manager_config_default, mkEnv tt ∅ 0).
Definition start : VisitorState Empty_set unit := visitor_state_new tt.
Definition pay_route : RouteEntry :=
  mkRouteEntry (Some (Single "get_pay")) None None None None None None [] None.

(** A configuration whose [global] section denies, then a route. *)
Definition after_global := (apl_visit_global visitor (section [YString "deny"]) (start, manager)).2.
Definition route_yaml : Yaml := section [YString "allow"].
Definition after_route := apl_visit_route visitor route_yaml pay_route after_global.

Example global_policy_first :
  result_map cr_policy (effective_route after_global.1 "tool" [] (apl_subblock route_yaml) None
    "tool:get_pay")
  = Ok [EWhen XAlways [EDeny None None] "global.apl.pre_invocation[0]";
        EWhen XAlways [EAllow] "routes.tool:get_pay.apl.pre_invocation[0]"].
Proof. vm_compute. reflexivity. Qed.

Lemma layers_stack_witness :
  ∃ r own, effective_route after_global.1 "tool" [] None None "tool:get_pay" = Ok r
    ∧ cr_policy r = policy_of (vs_global_layer after_global.1) ++ [] ++ [] ++ cr_policy own.
Proof.
  destruct (effective_route after_global.1 "tool" [] None None "tool:get_pay") as [r|e] eqn:E;
    [|by vm_compute in E].
  destruct (layers_stack after_global.1 "tool" [] None None "tool:get_pay" r E)
    as (own & _ & Hp & _).
  exists r, own. split; [done|exact Hp].
Defined.

Lemma route_enforced_witness :
  ∃ r, installed visitor after_global.1 "tool" "get_pay" None HOOK_CMF_TOOL_PRE_INVOKE Pre r
         after_route.2.2.
Proof.
  destruct (visited_route_enforced visitor route_yaml pay_route after_global.1 after_global.2
    after_route.2.1 after_route.2.2 "tool" ["get_pay"] "get_pay" HOOK_CMF_TOOL_PRE_INVOKE
    HOOK_CMF_TOOL_POST_INVOKE) as (_ & r & Hr & Hi); [vm_compute; reflexivity|reflexivity|left|reflexivity|].
  exists r. apply Hi. revert Hr. vm_compute. intros [= <-]. reflexivity.
Defined.

(** The second configuration has no policies at all. *)
Lemma reload_witness :
  inherited (apl_visit_global visitor (YMapping [])
    (apl_visit_plugins [] after_global).2).2.1 "tool" [] "tool:get_pay"
  = inherited after_global.1 "tool" [] "tool:get_pay".
Proof.
  apply (removed_layers_survive_reload visitor [] (YMapping []) after_global.1 after_global.2);
    reflexivity.
Defined.

(** A global policy that calls an unregistered plugin in parallel. *)
Definition parallel_block : Yaml :=
  YMapping [(YString "pre_invocation",
    YSequence [YMapping [(YString "parallel", YSequence [YString "plugin(rewriter)"])]])].
Definition parallel_global : Yaml := YMapping [(YString "apl", parallel_block)].

Lemma catchall_witness :
  ∃ compiled, compile_policy_block_value "global.apl" parallel_block = Ok compiled
    ∧ (∃ msg, validate_parallel_plugin_modes (manager_mode_for manager) compiled = Err msg)
    ∧ installed visitor start ENTITY_HTTP ENTITY_NAME_GLOBAL None HOOK_CMF_HTTP_REQUEST Pre
        (set_response compiled None) (apl_visit_global visitor parallel_global (start, manager)).2.2.
Proof.
  destruct (compile_policy_block_value "global.apl" parallel_block) as [compiled|f] eqn:E;
    [|by vm_compute in E].
  exists compiled. split_and!; [done|by vm_compute in E; injection E as <-; eexists; vm_compute|].
  pose proof (catchall_not_mode_checked visitor parallel_global start manager parallel_block start
    compiled eq_refl eq_refl eq_refl E) as Hc.
  destruct (apl_visit_global visitor parallel_global (start, manager)) as [r [vs' st']].
  apply Hc. vm_compute in E. injection E as <-. reflexivity.
Defined.

End VisitorDemo.
