(* ===== verification/PdpInput.v ===== *)
(** * The attribute bag as a document (builtins/pdps/{opa/src/input,cel/src/activation}.rs)

    Policy engines read the flat, dotted attribute bag as one nested document.
    Both engines build the same tree of namespaces and differ in the values at
    its leaves, so the tree is polymorphic in them.  The bag is walked in the
    order of the class [HashOrder]. *)

From S2P Require Import Prelude RustStd F64 Json JsonMerge Attributes.
From Stdlib Require Import SpecFloat.

Local Open Scope string_scope.
Local Open Scope list_scope.

(** ** The tree of namespaces *)

Inductive Node (V : Type) :=
| Leaf (v : V)
| Branch (children : gmap string (Node V)).
Arguments Leaf {_} _.
Arguments Branch {_} _.

(** [insert]: a namespace wins over a scalar, whichever comes first. *)
Fixpoint insert_node {V} (level : gmap string (Node V)) (segments : list string) (leaf : V) :
    gmap string (Node V) :=
  match segments with
  | [] => level
  | [head] =>
      match level !! head with
      | Some (Branch _) => level
      | _ => <[head := Leaf leaf]> level
      end
  | head :: rest =>
      let child := match level !! head with Some (Branch c) => c | _ => ∅ end in
      <[head := Branch (insert_node child rest leaf)]> level
  end.

(** ** Numbers *)

(** The integer a float is equal to, when it is finite and whole. *)
Definition f64_whole (f : f64) : option Z :=
  match f with
  | S754_zero _ => Some 0%Z
  | S754_finite s m e =>
      let z := if s then Z.neg m else Z.pos m in
      if (0 <=? e)%Z then Some (z * 2 ^ e)%Z
      else if (Z.pos m mod 2 ^ (- e) =? 0)%Z then Some (z / 2 ^ (- e))%Z
      else None
  | _ => None
  end.

(** [f as i64] of a whole number: the cast saturates. *)
Definition saturate_i64 (z : Z) : Z := Z.max i64_min (Z.min i64_max z).

(** The test [f.is_finite() && f.fract() == 0.0 && f >= i64::MIN as f64
    && f <= i64::MAX as f64]; the upper bound rounds to 2^63. *)
Definition whole_i64 (f : f64) : option Z :=
  z ← f64_whole f;
  if f64_leb (f64_of_Z i64_min) f && f64_leb f (f64_of_Z i64_max) then Some (saturate_i64 z) else None.

(** ** OPA's [input] *)

(** [Number::from(i64)]. *)
Definition number_of_i64 (z : Z) : Number := if (0 <=? z)%Z then PosInt z else NegInt z.

Definition f64_is_finite (f : f64) : bool :=
  match f with S754_zero _ | S754_finite _ _ _ => true | _ => false end.

Definition float_to_value (f : f64) : Value :=
  match whole_i64 f with
  | Some z => VNumber (number_of_i64 z)
  | None => if f64_is_finite f then VNumber (NumFloat f) else Null
  end.

Definition attr_to_value (attr : AttributeValue) : Value :=
  match attr with
  | ABool b => VBool b
  | AInt i => VNumber (number_of_i64 i)
  | AFloat f => float_to_value f
  | AString s => VString s
  | AStringSet set => VArray (VString <$> sorted_elements set)
  end.

Fixpoint node_to_value (node : Node Value) : Value :=
  match node with
  | Leaf v => v
  | Branch children => VObject (node_to_value <$> children)
  end.

Definition node_map_to_value (children : gmap string (Node Value)) : Value :=
  VObject (node_to_value <$> children).

Section Document.
Context `{order : HashOrder}.

(** The loop over the bag, for the leaves [conv] makes. *)
Definition build_tree {V} (conv : AttributeValue → V) (bag : AttributeBag) :
    gmap string (Node V) :=
  foldl (λ root '(key, value), insert_node root (split_on dot key) (conv value)) ∅
    (map_iter (attrs bag)).

Definition bag_to_input (bag : AttributeBag) : Value :=
  node_map_to_value (build_tree attr_to_value bag).

End Document.

(** ** What a tree holds *)

(** At a path: nothing, a leaf, or ([Some None]) a namespace. *)
Fixpoint kind_at {V} (level : gmap string (Node V)) (path : list string) : option (option V) :=
  match path with
  | [] => Some None
  | head :: rest =>
      match level !! head with
      | None => None
      | Some (Leaf v) => if is_nil rest then Some (Some v) else None
      | Some (Branch c) => kind_at c rest
      end
  end.

Lemma kind_at_empty {V} path : path ≠ [] → kind_at (∅ : gmap string (Node V)) path = None.
Proof. destruct path as [|s p]; [done|]. simpl. by rewrite lookup_empty. Qed.

Lemma insert_node_deep {V} (level : gmap string (Node V)) h s rest leaf :
  insert_node level (h :: s :: rest) leaf
  = <[h := Branch (insert_node match level !! h with Some (Branch c) => c | _ => ∅ end
                     (s :: rest) leaf)]> level.
Proof. done. Qed.

(** Inserting makes namespaces of the proper prefixes of its path, puts the leaf
    unless a namespace is there, and leaves every other path alone. *)
Lemma kind_at_insert {V} segs : ∀ (level : gmap string (Node V)) leaf path,
  segs ≠ [] → path ≠ [] →
  kind_at (insert_node level segs leaf) path
  = if decide (path = segs) then
      match kind_at level path with Some None => Some None | _ => Some (Some leaf) end
    else if decide (path `prefix_of` segs) then Some None
    else kind_at level path.
Proof.
  induction segs as [|h rest IH]; [done|]. intros level leaf [|p path] _ Hp; [done|clear Hp].
  destruct rest as [|s rest].
  - simpl. destruct (decide (p = h)) as [->|Hne].
    + destruct path as [|q path].
      * rewrite decide_True by done.
        destruct (level !! h) as [[v|c]|] eqn:E; simpl; rewrite ?lookup_insert_eq, ?E; done.
      * rewrite decide_False by done.
        rewrite decide_False by (intros Hpre%prefix_length; simpl in Hpre; lia).
        destruct (level !! h) as [[v|c]|] eqn:E; simpl; rewrite ?lookup_insert_eq, ?E; done.
    + rewrite decide_False by congruence.
      rewrite decide_False by (by intros ?%prefix_cons_inv_1).
      destruct (level !! h) as [[v|c]|]; simpl; by rewrite ?lookup_insert_ne.
  - rewrite insert_node_deep. cbn [kind_at].
    destruct (decide (p = h)) as [->|Hne].
    + rewrite lookup_insert_eq. destruct path as [|q path].
      * rewrite decide_False by done. rewrite decide_True; [done|].
        apply prefix_cons, prefix_nil.
      * rewrite IH by done.
        destruct (decide (q :: path = s :: rest)) as [He|He].
        -- rewrite He, decide_True by done. by destruct (level !! h) as [[v|c]|].
        -- rewrite (decide_False (P := h :: q :: path = _)) by congruence.
           destruct (decide (q :: path `prefix_of` s :: rest)) as [Hpre|Hpre].
           ++ rewrite decide_True; [done|]. by apply prefix_cons.
           ++ rewrite decide_False by (by intros ?%prefix_cons_inv_2).
              by destruct (level !! h) as [[v|c]|]; rewrite ?kind_at_empty.
    + rewrite lookup_insert_ne by done. rewrite decide_False by congruence.
      by rewrite decide_False by (by intros ?%prefix_cons_inv_1).
Qed.

(** *** Keys and paths *)

Lemma split_on_app c a b :
  split_on c (a +:+ String c b) = (split_on c a ++ split_on c b)%list.
Proof.
  induction a as [|x a IH]; simpl; [by rewrite Ascii.eqb_refl|].
  rewrite IH. destruct (Ascii.eqb c x); [done|].
  destruct (split_on c a) as [|h t] eqn:E; [by apply split_on_nonempty in E|done].
Qed.

Lemma join_with_app sep l1 l2 :
  l1 ≠ [] → l2 ≠ [] →
  join_with sep (l1 ++ l2) = join_with sep l1 +:+ sep +:+ join_with sep l2.
Proof.
  intros H1 H2. induction l1 as [|x l1 IH]; [done|]. destruct l1 as [|y l1].
  - destruct l2; [done|]. done.
  - change (join_with sep ((x :: y :: l1) ++ l2)) with (x +:+ sep +:+ join_with sep ((y :: l1) ++ l2)).
    rewrite IH by done. cbn [join_with]. by rewrite !append_assoc.
Qed.

Lemma split_on_inj c a b : split_on c a = split_on c b → a = b.
Proof. intros H. by rewrite <-(join_split c a), <-(join_split c b), H. Qed.

(** A key of the bag lies strictly below this one. *)
Definition shadowed (bag : AttributeBag) (key : string) : Prop :=
  ∃ rest, is_Some (bag_get bag (key +:+ String dot rest)).

Definition strictly_under (path : list string) (key : string) : Prop :=
  path `prefix_of` split_on dot key ∧ path ≠ split_on dot key.

Lemma under_key key key' :
  strictly_under (split_on dot key) key' ↔ ∃ rest, key' = key +:+ String dot rest.
Proof.
  unfold strictly_under. split.
  - intros [[l Hl] Hne]. assert (l ≠ []) as Hl0.
    { intros ->. rewrite app_nil_r in Hl. done. }
    exists (join_with (String dot EmptyString) l).
    rewrite <-(join_split dot key'), Hl, join_with_app, join_split by (done || apply split_on_nonempty).
    done.
  - intros [rest ->]. rewrite split_on_app. split; [by eexists|].
    intros He. apply (f_equal length) in He. rewrite length_app in He.
    destruct (split_on dot rest) eqn:E; [by apply split_on_nonempty in E|simpl in He; lia].
Qed.

(** *** The loop *)

Lemma insert_all_kind {V} (conv : AttributeValue → V) l path :
  path ≠ [] →
  let t := foldl (λ root '(key, value), insert_node root (split_on dot key) (conv value)) ∅ l in
  match kind_at t path with
  | Some None => ∃ key a, (key, a) ∈ l ∧ strictly_under path key
  | Some (Some v) =>
      (∀ key a, (key, a) ∈ l → ¬ strictly_under path key)
      ∧ ∃ key a, (key, a) ∈ l ∧ split_on dot key = path ∧ v = conv a
  | None => ∀ key a, (key, a) ∈ l → ¬ strictly_under path key ∧ split_on dot key ≠ path
  end.
Proof.
  intros Hp. induction l as [|[key a] l IH] using rev_ind; simpl.
  { rewrite kind_at_empty by done. by intros ? ? ?%not_elem_of_nil. }
  rewrite foldl_snoc, kind_at_insert by (done || apply split_on_nonempty). simpl in IH.
  destruct (decide (path = split_on dot key)) as [->|Hne].
  - destruct (kind_at _ _) as [[v|]|] eqn:E.
    + destruct IH as [Hn _]. split.
      * intros k b [?|[= -> ->]%list_elem_of_singleton]%elem_of_app; [by eapply Hn|by intros [_ ?]].
      * exists key, a. set_solver.
    + destruct IH as (k & b & Hin & Hu). exists k, b. set_solver.
    + split.
      * intros k b [Hin|[= -> ->]%list_elem_of_singleton]%elem_of_app; [by destruct (IH _ _ Hin)|by intros [_ ?]].
      * exists key, a. set_solver.
  - destruct (decide (path `prefix_of` split_on dot key)) as [Hpre|Hpre].
    { exists key, a. split; [set_solver|done]. }
    assert (¬ strictly_under path key) as Hnu by (by intros [? _]).
    destruct (kind_at _ path) as [[v|]|] eqn:E.
    + destruct IH as [Hn (k & b & Hin & Hs)]. split; [|exists k, b; set_solver].
      intros k' b' [?|[= -> ->]%list_elem_of_singleton]%elem_of_app; [by eapply Hn|done].
    + destruct IH as (k & b & Hin & Hu). exists k, b. set_solver.
    + intros k b [Hin|[= -> ->]%list_elem_of_singleton]%elem_of_app; [by apply (IH k b)|done].
Qed.

Lemma build_tree_leaf `{HashOrder} {V} (conv : AttributeValue → V) bag path v :
  path ≠ [] →
  kind_at (build_tree conv bag) path = Some (Some v)
  ↔ ∃ key a, bag_get bag key = Some a ∧ split_on dot key = path ∧ v = conv a ∧ ¬ shadowed bag key.
Proof.
  intros Hp. pose proof (insert_all_kind conv (map_iter (attrs bag)) path Hp) as Hk. simpl in Hk.
  fold (build_tree conv bag) in Hk. unfold bag_get, shadowed. split.
  - intros E. rewrite E in Hk. destruct Hk as [Hn (key & a & Hin & Hs & ->)].
    apply map_iter_elem in Hin. exists key, a. split_and!; try done.
    intros [rest [b Hb]]. apply map_iter_elem in Hb. eapply Hn; [exact Hb|].
    rewrite <-Hs. apply under_key. by eexists.
  - intros (key & a & Hg & <- & -> & Hn). apply map_iter_elem in Hg as Hin.
    destruct (kind_at (build_tree conv bag) (split_on dot key)) as [[w|]|].
    + destruct Hk as [_ (k & b & Hin' & Hs & ->)]. apply split_on_inj in Hs as ->.
      apply map_iter_elem in Hin'. congruence.
    + destruct Hk as (k & b & Hin' & [rest ->]%under_key). destruct Hn. exists rest.
      apply map_iter_elem in Hin'. by eexists.
    + by destruct (Hk _ _ Hin) as [_ ?].
Qed.

(** *** From the tree to the document *)

Lemma get_segments_leaf path : ∀ m v,
  (∀ p w, kind_at m p = Some (Some w) → is_object w = false) →
  get_segments (node_map_to_value m) path = Some v ∧ is_object v = false
  ↔ kind_at m path = Some (Some v).
Proof.
  induction path as [|h path IH]; intros m v Hf; simpl.
  { split; [by intros [[= <-] ?]|done]. }
  rewrite lookup_fmap. destruct (m !! h) as [[w|c]|] eqn:E; simpl.
  - assert (is_object w = false) as Hw by (apply (Hf [h]); simpl; by rewrite E).
    destruct path as [|s path]; simpl.
    + split; [by intros [[= ->] _]|by intros [= ->]].
    + destruct w; try done; simpl; (split; [by intros [? _]|done]).
  - apply IH. intros p w Hw. apply (Hf (h :: p)). simpl. by rewrite E.
  - split; [by intros [? _]|done].
Qed.

Lemma attr_to_value_flat a : is_object (attr_to_value a) = false.
Proof.
  destruct a; try done. simpl. unfold float_to_value.
  destruct (whole_i64 _); [done|]. by destruct (f64_is_finite _).
Qed.

(** A policy engine reads exactly the bag: the value at a path of the
    document is the attribute of that dotted key, for every attribute with no
    other key below it, and there is nothing else; so the document does not
    depend on the order the bag is walked in. *)
Theorem input_exact `{HashOrder} bag path v :
  path ≠ [] →
  get_segments (bag_to_input bag) path = Some v ∧ is_object v = false
  ↔ ∃ key a, bag_get bag key = Some a ∧ split_on dot key = path ∧ v = attr_to_value a
             ∧ ¬ shadowed bag key.
Proof.
  intros Hp. unfold bag_to_input. rewrite get_segments_leaf.
  - by apply build_tree_leaf.
  - intros p w Hw. destruct p as [|s p]; [done|]. apply build_tree_leaf in Hw; [|done].
    destruct Hw as (key & a & _ & _ & -> & _). apply attr_to_value_flat.
Qed.

(** ** Numbers keep their value *)

Lemma saturate_in_range z : in_i64 z = true → saturate_i64 z = z.
Proof. unfold in_i64, saturate_i64. intros [?%Z.leb_le ?%Z.leb_le]%andb_prop. lia. Qed.

(** 2^63 passes the range test, which compares with the rounded bound, and is
    read as the integer below it. *)
Lemma float_above_i64 : float_to_value (f64_of_Z (2 ^ 63)) = VNumber (PosInt (2 ^ 63 - 1)).
Proof. by vm_compute. Qed.

(** ** Witnesses *)

Module InputDemo.

#[local] Program Instance listed : HashOrder := {
  set_iter s := elements s;
  map_iter _ m := map_to_list m
}.
Solve Obligations with done.

Definition bag : AttributeBag :=
  bag_set (bag_set (bag_set bag_new "subject.id" (AString "alice")) "delegation" (ABool true))
    "delegation.depth" (AFloat (f64_of_Z 2)).

Lemma input_witness :
  get_segments (bag_to_input bag) ["delegation"; "depth"] = Some (VNumber (PosInt 2)).
Proof.
  apply (input_exact bag ["delegation"; "depth"]); [done|].
  exists "delegation.depth", (AFloat (f64_of_Z 2)). split_and!; [done|done|by vm_compute|].
  intros [rest [a Ha]]. unfold bag_get, bag, bag_set in Ha. simpl in Ha.
  rewrite !lookup_insert_ne in Ha by done. done.
Defined.

(** The scalar [delegation] gives way to the namespace. *)
Example scalar_dropped :
  get_segments (bag_to_input bag) ["delegation"] = Some (VObject {[ "depth" := VNumber (PosInt 2) ]}).
Proof. by vm_compute. Qed.

End InputDemo.
