(* ===== verification/Opa.v ===== *)
(** * The OPA policy decision point (builtins/pdps/opa/src)

    Mapping of Rego results to decisions (decision.rs), the resolver with its
    cache of inline modules, and its configuration (resolver.rs).  The regorus
    engine, the YAML and JSON text libraries, the file system and the blocking
    task are parameters; regorus' value type is the documented enum. *)

From S2P Require Import Prelude RustStd F64 Json JsonMerge Yaml Attributes Ir PdpInput.

Local Open Scope string_scope.
Local Open Scope list_scope.

(** ** Values and engines *)

Inductive RegoValue :=
| RNull
| RBool (b : bool)
| RNumber (n : Number)
| RString (s : string)
| RArray (l : list RegoValue)
| RSet (l : list RegoValue)
| RObject (m : list (RegoValue * RegoValue))
| RUndefined.

(** [obj.get(&Value::from(key))]. *)
Fixpoint rego_get (m : list (RegoValue * RegoValue)) (key : string) : option RegoValue :=
  match m with
  | [] => None
  | (RString k, v) :: m => if String.eqb k key then Some v else rego_get m key
  | _ :: m => rego_get m key
  end.

Class Rego (E : Type) := {
  engine_new : E;
  add_policy : E → string → string → Result (E * string) string;
  add_data_json : E → string → Result E string;
  set_input_json : E → string → Result E string;
  eval_rule : E → string → Result RegoValue string;
  to_json_str : RegoValue → Result string string
}.

(** Whether the blocking task panicked, and with what. *)
Class Blocking (W : Type) := join_blocking : W → option string * W.

(** ** Decisions (decision.rs) *)

Definition DEFAULT_RULE_SOURCE : string := "opa".
Definition MAX_DIAGNOSTIC_ELEMENTS : nat := 16.
Definition MAX_DIAGNOSTIC_LEN : nat := 1024.

Inductive Mapped := MDecision (d : PdpDecision) | MDegenerate (cause : string).

Definition allow : PdpDecision := mkPdpDecision Allow [].
Definition deny (reason rule_source : string) (diagnostics : list string) : PdpDecision :=
  mkPdpDecision (Deny (Some reason) rule_source) diagnostics.

Definition bounded (s : string) : string :=
  if (String.length s <=? MAX_DIAGNOSTIC_LEN)%nat then s
  else
    let cut := floor_char_boundary s MAX_DIAGNOSTIC_LEN in
    String.substring 0 cut s +:+ "... [" +:+ show_nat (String.length s - cut)
      +:+ " more bytes omitted]".

Definition get_str (obj : list (RegoValue * RegoValue)) (key : string) : option string :=
  match rego_get obj key with Some (RString s) => Some s | _ => None end.

Section Decisions.
Context {E : Type} `{Rego E}.

Definition render (value : RegoValue) : string :=
  match value with
  | RString s => s
  | _ => match to_json_str value with Ok s => s | Err _ => "<unrenderable value>" end
  end.

Definition bounded_elements (items : list RegoValue) : list string :=
  let out := (λ item, bounded (render item)) <$> take MAX_DIAGNOSTIC_ELEMENTS items in
  if (length out <? length items)%nat then
    out ++ ["[" +:+ show_nat (length items - length out) +:+ " more element(s) omitted]"]
  else out.

Definition map_collection (items : list RegoValue) : Mapped :=
  if is_nil items then MDecision allow
  else
    MDecision (deny ("OPA policy produced " +:+ show_nat (length items) +:+ " violation(s)")
                 DEFAULT_RULE_SOURCE (bounded_elements items)).

Definition violation_list (obj : list (RegoValue * RegoValue)) (key : string) : list string :=
  match rego_get obj key with Some (RArray l) => bounded_elements l | _ => [] end.

Definition map_object (obj : list (RegoValue * RegoValue)) (decision_field : string) : Mapped :=
  match rego_get obj decision_field with
  | Some (RBool true) => MDecision allow
  | Some (RBool false) =>
      let reason :=
        match get_str obj "reason" with
        | Some s => s
        | None => default "OPA policy denied the request" (get_str obj "message")
        end in
      let rule_source :=
        match get_str obj "rule_source" with
        | Some s => s
        | None => default DEFAULT_RULE_SOURCE (get_str obj "id")
        end in
      MDecision (deny reason rule_source
        (violation_list obj "violations" ++ violation_list obj "errors"
           ++ [bounded ("opa: " +:+ render (RObject obj))]))
  | _ =>
      MDegenerate ("OPA decision object has no boolean `" +:+ decision_field +:+ "` field: "
                     +:+ render (RObject obj))
  end.

Definition map_query_result (value : RegoValue) (decision_field : string) : Mapped :=
  match value with
  | RBool true => MDecision allow
  | RBool false => MDecision (deny "OPA query evaluated to false" DEFAULT_RULE_SOURCE [])
  | RObject obj => map_object obj decision_field
  | RSet items | RArray items => map_collection items
  | RUndefined =>
      MDecision (deny "OPA query undefined — request not granted" DEFAULT_RULE_SOURCE [])
  | other =>
      MDegenerate ("OPA query returned a value that carries no decision: " +:+ render other)
  end.

End Decisions.

(** ** The resolver (resolver.rs) *)

Inductive OpaOnError := OnErrorDeny | OnErrorAllow.

Definition DEFAULT_MAX_CACHE_ENTRIES : Z := 1024.
Definition INLINE_MODULE_NAME : string := "__inline__.rego".

Record OpaResolver (E : Type) := mkOpa {
  op_dialect : PdpDialect;
  op_on_error : OpaOnError;
  op_decision_field : string;
  op_base_engine : E;
  op_global_packages : gset string;
  op_inline_cache : gmap string E;
  op_max_cache_entries : Z
}.
Arguments mkOpa {_} _ _ _ _ _ _ _.
Arguments op_dialect {_} _.
Arguments op_on_error {_} _.
Arguments op_decision_field {_} _.
Arguments op_base_engine {_} _.
Arguments op_global_packages {_} _.
Arguments op_inline_cache {_} _.
Arguments op_max_cache_entries {_} _.

Inductive EngineError :=
| EngineCompile (cause : string)
| EnginePackageCollision (package : string)
| EngineCacheFull (cap : Z).

Inductive EvalOutcome := OutDecision (d : PdpDecision) | OutOnError (cause : string).

Section Resolver.
Context {E W : Type} `{rego : Rego E} `{!JsonText} `{order : HashOrder} `{!Blocking W}.
Implicit Types self : OpaResolver E.

Definition with_inline_cache self (cache : gmap string E) : OpaResolver E :=
  mkOpa (op_dialect self) (op_on_error self) (op_decision_field self) (op_base_engine self)
    (op_global_packages self) cache (op_max_cache_entries self).

(** The part of [engine_for] before the write lock: base engine and module. *)
Definition engine_prepare self (src : string) : Result E EngineError :=
  match add_policy (op_base_engine self) INLINE_MODULE_NAME src with
  | Err e => Err (EngineCompile e)
  | Ok (engine, package) =>
      if bool_decide (package ∈ op_global_packages self) then Err (EnginePackageCollision package)
      else Ok engine
  end.

(** The part under the write lock. *)
Definition engine_commit self (src : string) (engine : E) : Result E EngineError * OpaResolver E :=
  let cache := op_inline_cache self in
  if (op_max_cache_entries self <=? Z.of_nat (size cache))%Z && is_none (cache !! src) then
    (Err (EngineCacheFull (op_max_cache_entries self)), self)
  else (Ok engine, with_inline_cache self (<[src := engine]> cache)).

Definition engine_for self (module : option string) : Result E EngineError * OpaResolver E :=
  match module with
  | None => (Ok (op_base_engine self), self)
  | Some src =>
      match op_inline_cache self !! src with
      | Some engine => (Ok engine, self)
      | None =>
          match engine_prepare self src with
          | Err e => (Err e, self)
          | Ok engine => engine_commit self src engine
          end
      end
  end.

Definition on_error_decision self (cause : string) : PdpDecision :=
  match op_on_error self with
  | OnErrorAllow => mkPdpDecision Allow [cause]
  | OnErrorDeny => mkPdpDecision (Deny (Some cause) "opa") [cause]
  end.

Definition compile_error_decision (cause : string) : PdpDecision :=
  mkPdpDecision (Deny (Some cause) "opa") [cause].

(** The body of the blocking task. *)
Definition eval_task (engine : E) (input_json query decision_field : string) : EvalOutcome :=
  match set_input_json engine input_json with
  | Err e => OutOnError ("OPA failed to set input: " +:+ e)
  | Ok engine =>
      match eval_rule engine query with
      | Ok value =>
          match map_query_result value decision_field with
          | MDecision d => OutDecision d
          | MDegenerate cause => OutOnError cause
          end
      | Err e => OutOnError ("OPA eval error: " +:+ e)
      end
  end.

Definition step_arg (call : PdpCall) (key : string) : option string :=
  m ← yaml_as_mapping (pc_args call); v ← mapping_get m key; yaml_as_str v.

Definition opa_evaluate self (call : PdpCall) (bag : AttributeBag) (w : W) :
    Result PdpDecision PdpError * (OpaResolver E * W) :=
  match step_arg call "query" with
  | None => (Err (PdpDispatch "opa: step requires a string `query` argument"), (self, w))
  | Some query =>
      match engine_for self (step_arg call "module") with
      | (Err (EngineCompile cause), self) =>
          (Ok (compile_error_decision ("OPA inline module: " +:+ cause)), (self, w))
      | (Err (EnginePackageCollision package), self) =>
          (Ok (compile_error_decision
                 ("OPA inline module package `" +:+ package +:+ "` collides with a global-module "
                    +:+ "package; inline modules may not override global policy")), (self, w))
      | (Err (EngineCacheFull cap), self) =>
          (Ok (compile_error_decision
                 ("OPA inline-module cache full (cap=" +:+ show_Z cap
                    +:+ "); refusing a new module")), (self, w))
      | (Ok engine, self) =>
          let input_json := json_to_string (bag_to_input bag) in
          let '(panicked, w) := join_blocking w in
          (Ok (match panicked with
               | Some e => compile_error_decision ("OPA evaluation task panicked: " +:+ e)
               | None =>
                   match eval_task engine input_json query (op_decision_field self) with
                   | OutDecision d => d
                   | OutOnError cause => on_error_decision self cause
                   end
               end), (self, w))
      end
  end.

(** ** When a request is allowed *)

(** The values by which a policy grants, and those that decide at all. *)
Inductive grants (field : string) : RegoValue → Prop :=
| grants_true : grants field (RBool true)
| grants_no_violation : grants field (RArray [])
| grants_no_violation_set : grants field (RSet [])
| grants_field obj : rego_get obj field = Some (RBool true) → grants field (RObject obj).

Definition decides (field : string) (v : RegoValue) : Prop :=
  match v with
  | RBool _ | RArray _ | RSet _ | RUndefined => True
  | RObject obj => ∃ b, rego_get obj field = Some (RBool b)
  | _ => False
  end.

(** What the policy answers, if anything. *)
Definition answer (engine : E) (bag : AttributeBag) (query : string) : Result RegoValue string :=
  let? engine := set_input_json engine (json_to_string (bag_to_input bag)) in
  eval_rule engine query.

Definition undecided (field : string) (r : Result RegoValue string) : Prop :=
  match r with Ok v => ¬ decides field v | Err _ => True end.

Lemma map_query_result_spec v field :
  match map_query_result v field with
  | MDecision d => decides field v ∧ (pd_decision d = Allow ↔ grants field v)
  | MDegenerate _ => ¬ decides field v ∧ ¬ grants field v
  end.
Proof.
  assert (∀ l, match map_collection l with
               | MDecision d => pd_decision d = Allow ↔ l = []
               | MDegenerate _ => False
               end) as Hc by (by intros [|x l]).
  destruct v as [|b| | |l|l|obj|]; simpl;
    try (by split; [intros []|intros Hx; inversion Hx]);
    try (by split; [done|split; [done|intros Hx; inversion Hx]]).
  - destruct b; split; try done; split; try done; [constructor|intros Hx; by inversion Hx].
  - specialize (Hc l). destruct (map_collection l); [|done]. split; [done|]. rewrite Hc.
    split; [intros ->; constructor|intros Hx; by inversion Hx].
  - specialize (Hc l). destruct (map_collection l); [|done]. split; [done|]. rewrite Hc.
    split; [intros ->; constructor|intros Hx; by inversion Hx].
  - unfold map_object.
    destruct (rego_get obj field) as [[|b| | | | | |]|] eqn:Eg; simpl;
      try (split; [intros [c Hb]; congruence|intros Hx; inversion Hx; congruence]).
    destruct b; (split; [by eexists|split; try done; try (by constructor); intros Hx; inversion Hx; congruence]).
Qed.

(** What the task makes of the policy's answer. *)
Lemma eval_task_spec engine bag query field :
  let r := answer engine bag query in
  match eval_task engine (json_to_string (bag_to_input bag)) query field with
  | OutDecision d => (pd_decision d = Allow ↔ ∃ v, r = Ok v ∧ grants field v) ∧ ¬ undecided field r
  | OutOnError _ => undecided field r ∧ ¬ ∃ v, r = Ok v ∧ grants field v
  end.
Proof.
  unfold answer, eval_task. destruct (set_input_json engine _) as [engine'|e]; simpl;
    [|by split; [|intros (? & ? & _)]].
  destruct (eval_rule engine' query) as [v|e]; simpl; [|by split; [|intros (? & ? & _)]].
  pose proof (map_query_result_spec v field) as Hm.
  destruct (map_query_result v field) as [d|cause], Hm as [Hd Hg]; (split; [|naive_solver]).
  - rewrite Hg. naive_solver.
  - done.
Qed.

Lemma engine_for_settings self module :
  op_decision_field (engine_for self module).2 = op_decision_field self
  ∧ op_on_error (engine_for self module).2 = op_on_error self.
Proof. unfold engine_for, engine_commit. by repeat case_match. Qed.

(** C27: OPA fails closed: a step allows exactly when its module compiled
    without touching an operator's package and fitted the cache, the evaluation
    did not crash, and the policy granted; or, with [on_error: allow] only, when
    the policy gave no decision at all.  A deny, an undefined query and every
    failure to prepare deny whatever [on_error] says. *)
Theorem opa_allows_exactly self call bag w :
  (∃ d, (opa_evaluate self call bag w).1 = Ok d ∧ pd_decision d = Allow)
  ↔ ∃ query engine, step_arg call "query" = Some query
      ∧ (engine_for self (step_arg call "module")).1 = Ok engine
      ∧ (join_blocking w).1 = None
      ∧ let r := answer engine bag query in
        (∃ v, r = Ok v ∧ grants (op_decision_field self) v)
        ∨ (op_on_error self = OnErrorAllow ∧ undecided (op_decision_field self) r).
Proof.
  unfold opa_evaluate. destruct (step_arg call "query") as [query|] eqn:Eq;
    [|split; [by intros (? & ? & _)|by intros (? & ? & ? & _)]].
  destruct (engine_for self (step_arg call "module")) as [[engine|[]] self'] eqn:Ee;
    try (split; [by intros (? & [= <-] & ?)|by intros (? & ? & _ & ? & _)]).
  pose proof (engine_for_settings self (step_arg call "module")) as [Hf Hon].
  rewrite Ee in Hf, Hon. simpl in Hf, Hon.
  destruct (join_blocking w) as [[e|] w'] eqn:Ej; simpl.
  { split; [by intros (? & [= <-] & ?)|by intros (? & ? & _ & _ & ? & _)]. }
  unfold on_error_decision. rewrite Hf, Hon.
  pose proof (eval_task_spec engine bag query (op_decision_field self)) as Ht. simpl in Ht.
  destruct (eval_task _ _ _ _) as [d|cause], Ht as [Ht1 Ht2]; split.
  - intros (d' & [= <-] & Ha%Ht1). exists query, engine. naive_solver.
  - intros (q & en & [= <-] & [= <-] & _ & [Hg|[_ Hu]]); [|done].
    eexists. split; [done|]. by apply Ht1.
  - intros (d' & [= <-] & Ha). exists query, engine. split_and!; try done. right.
    by destruct (op_on_error self).
  - intros (q & en & [= <-] & [= <-] & _ & [Hg|[Ho _]]); [done|].
    eexists. split; [done|]. by rewrite Ho.
Qed.

(** ** The cache of inline modules *)

(** Requests prepare engines concurrently and commit them in any order;
    preparing reads nothing a commit changes. *)
Inductive cache_step self : OpaResolver E → Prop :=
| commit_step src engine :
    engine_prepare self src = Ok engine → cache_step self (engine_commit self src engine).2.

(** Every cached engine is what preparing its module gives, within the cap. *)
Record cache_ok (base self : OpaResolver E) : Prop := {
  ok_engines src engine : op_inline_cache self !! src = Some engine → engine_prepare base src = Ok engine;
  ok_base : op_base_engine self = op_base_engine base;
  ok_packages : op_global_packages self = op_global_packages base;
  ok_cap : op_max_cache_entries self = op_max_cache_entries base;
  ok_size : (Z.of_nat (size (op_inline_cache self)) ≤ Z.max 0 (op_max_cache_entries base))%Z
}.

Lemma engine_prepare_ok base self src :
  cache_ok base self → engine_prepare self src = engine_prepare base src.
Proof. intros []. unfold engine_prepare. by rewrite ok_base0, ok_packages0. Qed.

Lemma engine_commit_ok base self src engine :
  cache_ok base self → engine_prepare base src = Ok engine →
  cache_ok base (engine_commit self src engine).2.
Proof.
  intros Hok Hp. pose proof Hok as []. unfold engine_commit.
  destruct (_ <=? _)%Z eqn:Ele; destruct (op_inline_cache self !! src) as [old|] eqn:El; simpl; try done.
  all: constructor; simpl; try done.
  all: try (intros s e; rewrite lookup_insert_Some; intros [[-> ->]|[_ ?]]; eauto).
  - rewrite map_size_insert_Some by (by eexists). done.
  - rewrite map_size_insert_Some by (by eexists). done.
  - rewrite map_size_insert_None by done. apply Z.leb_gt in Ele. lia.
Qed.

Lemma cache_steps_ok base self : op_inline_cache base = ∅ → rtc cache_step base self → cache_ok base self.
Proof.
  intros He Hs. assert (cache_ok base base) as Hok.
  { constructor; try done; rewrite He; [done|]. rewrite map_size_empty. lia. }
  clear He. revert Hok. generalize base at 1 3. intros b Hok. induction Hs as [|x y z Hxy _ IH]; [done|].
  apply IH. destruct Hxy as [src engine Hp]. apply engine_commit_ok; [done|].
  by rewrite <-(engine_prepare_ok _ _ _ Hok).
Qed.

(** The engine of a step, without a cache. *)
Definition engine_uncached self (module : option string) : Result E EngineError :=
  match module with None => Ok (op_base_engine self) | Some src => engine_prepare self src end.

(** The cache is invisible but for its cap: after any interleaving of
    requests it is within the cap, and a step gets the engine that compiling
    its module afresh would give, or is refused because the cache is full and
    its module is not in it. *)
Theorem opa_cache_transparent base self module :
  op_inline_cache base = ∅ → rtc cache_step base self →
  (Z.of_nat (size (op_inline_cache self)) ≤ Z.max 0 (op_max_cache_entries base))%Z
  ∧ ((engine_for self module).1 = engine_uncached base module
     ∨ ∃ src, module = Some src ∧ op_inline_cache self !! src = None
         ∧ (op_max_cache_entries base ≤ Z.of_nat (size (op_inline_cache self)))%Z
         ∧ (engine_for self module).1 = Err (EngineCacheFull (op_max_cache_entries base))).
Proof.
  intros He Hs. pose proof (cache_steps_ok _ _ He Hs) as Hok. pose proof Hok as [Hen Hb Hpk Hcap Hsz].
  split; [done|]. destruct module as [src|]; simpl; [|left; by rewrite Hb].
  destruct (op_inline_cache self !! src) as [engine|] eqn:El; simpl.
  { left. by rewrite (Hen _ _ El). }
  rewrite (engine_prepare_ok _ _ src Hok).
  destruct (engine_prepare base src) as [engine|e]; [|by left].
  unfold engine_commit. rewrite El, Hcap. simpl. rewrite andb_true_r.
  destruct (op_max_cache_entries base <=? _)%Z eqn:Ele; [|by left].
  right. exists src. apply Z.leb_le in Ele. done.
Qed.

End Resolver.

(** ** Diagnostics are bounded *)

(** The longest line: a full one, cut and marked with what was dropped. *)
Definition line_bound (n : nat) : nat :=
  (MAX_DIAGNOSTIC_LEN + String.length ("... [" +:+ show_nat n +:+ " more bytes omitted]"))%nat.

Definition line_ok (line : string) : Prop := ∃ n, (String.length line ≤ line_bound n)%nat.

Lemma bounded_ok s : line_ok (bounded s).
Proof.
  unfold bounded. destruct (_ <=? _)%nat eqn:E.
  - exists 0%nat. unfold line_bound. apply Nat.leb_le in E. lia.
  - exists (String.length s - floor_char_boundary s MAX_DIAGNOSTIC_LEN)%nat. unfold line_bound.
    rewrite string_app_length. apply Nat.add_le_mono_r.
    etrans; [apply substring_length|apply floor_char_boundary_le].
Qed.

Section Diagnostics.
Context {E : Type} `{Rego E}.

Lemma omitted_line_ok n : line_ok ("[" +:+ show_nat n +:+ " more element(s) omitted]").
Proof. exists n. unfold line_bound. rewrite !string_app_length. simpl. lia. Qed.

Lemma bounded_elements_ok items :
  (length (bounded_elements items) ≤ S MAX_DIAGNOSTIC_ELEMENTS)%nat ∧ Forall line_ok (bounded_elements items).
Proof.
  unfold bounded_elements. set (out := _ <$> _).
  assert ((length out ≤ MAX_DIAGNOSTIC_ELEMENTS)%nat ∧ Forall line_ok out) as [Hl Hf].
  { unfold out. rewrite length_fmap, length_take. split; [lia|].
    apply Forall_fmap, Forall_true. intros x. apply bounded_ok. }
  destruct (_ <? _)%nat; [|split; [lia|done]]. rewrite length_app. split; [simpl; lia|].
  apply Forall_app. split; [done|]. constructor; [apply omitted_line_ok|constructor].
Qed.

Lemma violation_list_ok obj key :
  (length (violation_list obj key) ≤ S MAX_DIAGNOSTIC_ELEMENTS)%nat ∧ Forall line_ok (violation_list obj key).
Proof.
  unfold violation_list. destruct (rego_get obj key) as [[]|]; try (split; [simpl; lia|constructor]).
  apply bounded_elements_ok.
Qed.

(** What a policy returns cannot flood the audit trail: a decision carries
    at most 35 diagnostic lines, each at most 1024 bytes long but for the marker
    that says how much was dropped. *)
Theorem diagnostics_bounded value field d :
  map_query_result value field = MDecision d →
  (length (pd_diagnostics d) ≤ 35)%nat ∧ Forall line_ok (pd_diagnostics d).
Proof.
  assert (∀ l, map_collection l = MDecision d →
    (length (pd_diagnostics d) ≤ 35)%nat ∧ Forall line_ok (pd_diagnostics d)) as Hc.
  { intros l. unfold map_collection. destruct l as [|x l]; simpl is_nil; cbn match; intros [= <-]; simpl;
      [split; [lia|constructor]|]. destruct (bounded_elements_ok (x :: l)) as [Hl Hf].
    split; [|exact Hf]. unfold MAX_DIAGNOSTIC_ELEMENTS in Hl. lia. }
  destruct value as [|[]| | |l|l|obj|]; simpl; try done;
    try (intros [= <-]; simpl; split; [lia|constructor]); try apply Hc.
  unfold map_object. destruct (rego_get obj field) as [[|[]| | | | | |]|]; try done;
    intros [= <-]; simpl; [split; [lia|constructor]|].
  destruct (violation_list_ok obj "violations") as [H1 F1], (violation_list_ok obj "errors") as [H2 F2].
  rewrite !length_app. unfold MAX_DIAGNOSTIC_ELEMENTS in *. simpl. split; [lia|].
  apply Forall_app. split; [done|]. apply Forall_app. split; [done|].
  constructor; [apply bounded_ok|constructor].
Qed.

End Diagnostics.

(** ** Configuration (resolver.rs) *)

Inductive OpaBuildError :=
| OpaConfigShape (msg : string)
| OpaModuleFile (path source : string)
| OpaModuleParse (name cause : string)
| OpaDataFile (path source : string)
| OpaDataParse (name cause : string).

(** [std::fs::read_to_string], [serde_yaml::from_str] and [serde_json::to_string]
    of a YAML value. *)
Class PdpFiles := {
  file_text : string → Result string string;
  yaml_from_str : string → Result Yaml string;
  yaml_to_json : Yaml → Result string string
}.

Definition OPA_KNOWN_KEYS : list string :=
  ["kind"; "on_error"; "decision_field"; "modules"; "module_files"; "data"; "data_files";
   "max_cache_entries"].

Fixpoint check_keys (m : Mapping) : Result unit OpaBuildError :=
  match m with
  | [] => Ok tt
  | (key, _) :: m =>
      match yaml_as_str key with
      | None => Err (OpaConfigShape "OPA PDP config keys must be strings")
      | Some name =>
          if bool_decide (name ∈ OPA_KNOWN_KEYS) then check_keys m
          else
            Err (OpaConfigShape ("unknown OPA PDP config key `" +:+ name +:+ "`; expected one of "
                   +:+ debug_list debug_string OPA_KNOWN_KEYS))
      end
  end.

Definition read_string (map : Mapping) (key : string) : Result (option string) OpaBuildError :=
  match mapping_get map key with
  | None | Some YNull => Ok None
  | Some value =>
      match yaml_as_str value with
      | Some s => Ok (Some s)
      | None => Err (OpaConfigShape ("`" +:+ key +:+ "` must be a string"))
      end
  end.

Definition yaml_as_u64 (v : Yaml) : option Z :=
  match untag v with YNumber (PosInt n) => Some n | _ => None end.

Definition read_usize (map : Mapping) (key : string) : Result (option Z) OpaBuildError :=
  match mapping_get map key with
  | None | Some YNull => Ok None
  | Some value =>
      match yaml_as_u64 value with
      | Some n => Ok (Some n)
      | None => Err (OpaConfigShape ("`" +:+ key +:+ "` must be a non-negative integer"))
      end
  end.

Fixpoint string_items (key : string) (seq : list Yaml) : Result (list string) OpaBuildError :=
  match seq with
  | [] => Ok []
  | item :: seq =>
      match yaml_as_str item with
      | None => Err (OpaConfigShape ("`" +:+ key +:+ "` entries must be strings"))
      | Some s => let? rest := string_items key seq in Ok (s :: rest)
      end
  end.

Definition read_string_seq (map : Mapping) (key : string) : Result (list string) OpaBuildError :=
  match mapping_get map key with
  | None => Ok []
  | Some value =>
      if yaml_is_null value then Ok []
      else
        match yaml_as_sequence value with
        | None => Err (OpaConfigShape ("`" +:+ key +:+ "` must be a sequence of strings"))
        | Some seq => string_items key seq
        end
  end.

Section Configuration.
Context {E : Type} `{rego : Rego E} `{!PdpFiles}.

Definition add_module (name text : string) (st : E * gset string) :
    Result (E * gset string) OpaBuildError :=
  match add_policy st.1 name text with
  | Ok (engine, package) => Ok (engine, {[ package ]} ∪ st.2)
  | Err cause => Err (OpaModuleParse name cause)
  end.

Fixpoint add_modules (module_index : nat) (texts : list string) (st : E * gset string) :
    Result (E * gset string) OpaBuildError :=
  match texts with
  | [] => Ok st
  | text :: texts =>
      let? st := add_module ("global-" +:+ show_nat module_index +:+ ".rego") text st in
      add_modules (S module_index) texts st
  end.

Fixpoint add_module_files (paths : list string) (st : E * gset string) :
    Result (E * gset string) OpaBuildError :=
  match paths with
  | [] => Ok st
  | path :: paths =>
      match file_text path with
      | Err source => Err (OpaModuleFile path source)
      | Ok text => let? st := add_module path text st in add_module_files paths st
      end
  end.

Definition merge_data (engine : E) (name : string) (value : Yaml) : Result E OpaBuildError :=
  match yaml_to_json value with
  | Err e => Err (OpaDataParse name e)
  | Ok json =>
      match add_data_json engine json with Err e => Err (OpaDataParse name e) | Ok engine => Ok engine end
  end.

Fixpoint add_data_files (paths : list string) (engine : E) : Result E OpaBuildError :=
  match paths with
  | [] => Ok engine
  | path :: paths =>
      match file_text path with
      | Err source => Err (OpaDataFile path source)
      | Ok text =>
          match yaml_from_str text with
          | Err e => Err (OpaDataParse path e)
          | Ok parsed => let? engine := merge_data engine path parsed in add_data_files paths engine
          end
      end
  end.

Definition read_on_error (map : Mapping) : Result OpaOnError OpaBuildError :=
  let? o := read_string map "on_error" in
  match o with
  | None => Ok OnErrorDeny
  | Some s =>
      if String.eqb s "deny" then Ok OnErrorDeny
      else if String.eqb s "allow" then Ok OnErrorAllow
      else Err (OpaConfigShape ("`on_error` must be `deny` or `allow`, got `" +:+ s +:+ "`"))
  end.

Definition opa_from_config (value : Yaml) : Result (OpaResolver E) OpaBuildError :=
  match yaml_as_mapping value with
  | None => Err (OpaConfigShape "OPA PDP config must be a mapping")
  | Some map =>
      let? _ := check_keys map in
      let? on_error := read_on_error map in
      let? decision_field := read_string map "decision_field" in
      let? texts := read_string_seq map "modules" in
      let? st := add_modules 0 texts (engine_new, ∅) in
      let? paths := read_string_seq map "module_files" in
      let? st := add_module_files paths st in
      let? engine :=
        match mapping_get map "data" with
        | Some data => if yaml_is_null data then Ok st.1 else merge_data st.1 "data" data
        | None => Ok st.1
        end in
      let? data_paths := read_string_seq map "data_files" in
      let? engine := add_data_files data_paths engine in
      let? cap := read_usize map "max_cache_entries" in
      Ok (mkOpa Opa on_error (default "allow" decision_field) engine st.2 ∅
            (default DEFAULT_MAX_CACHE_ENTRIES cap))
  end.

(** *** What loads *)

Lemma check_keys_ok m :
  check_keys m = Ok tt → ∀ k v, (k, v) ∈ m → ∃ name, yaml_as_str k = Some name ∧ name ∈ OPA_KNOWN_KEYS.
Proof.
  induction m as [|[key x] m IH]; simpl; [by intros _ ? ? ?%not_elem_of_nil|].
  destruct (yaml_as_str key) as [name|] eqn:Ek; [|done]. case_bool_decide; [|done].
  intros Hm k v [[= -> ->]|Hin]%elem_of_cons; eauto.
Qed.

Lemma add_module_packages name text st st' :
  add_module name text st = Ok st' →
  (∃ engine package, add_policy st.1 name text = Ok (engine, package) ∧ package ∈ st'.2)
  ∧ st.2 ⊆ st'.2.
Proof.
  unfold add_module. destruct (add_policy _ _ _) as [[engine package]|] eqn:Ea; [|done].
  intros [= <-]. simpl. split; [|set_solver]. eexists _, _. split; [done|set_solver].
Qed.

Lemma add_modules_packages texts : ∀ i st st',
  add_modules i texts st = Ok st' →
  (∀ text, text ∈ texts → ∃ base name engine package,
     add_policy base name text = Ok (engine, package) ∧ package ∈ st'.2) ∧ st.2 ⊆ st'.2.
Proof.
  induction texts as [|text texts IH]; intros i st st'; simpl.
  { intros [= <-]. split; [by intros ? ?%not_elem_of_nil|done]. }
  intros (st1 & (Hp & Hs1)%add_module_packages & (Ht & Hs2)%IH)%result_bind_ok.
  split; [|set_solver]. intros t [->|Hin]%elem_of_cons; [|by apply Ht].
  destruct Hp as (engine & package & ? & ?). eexists _, _, _, _. split; [done|]. set_solver.
Qed.

Lemma add_module_files_packages paths : ∀ st st',
  add_module_files paths st = Ok st' →
  (∀ path, path ∈ paths → ∃ text base engine package, file_text path = Ok text
     ∧ add_policy base path text = Ok (engine, package) ∧ package ∈ st'.2) ∧ st.2 ⊆ st'.2.
Proof.
  induction paths as [|path paths IH]; intros st st'; simpl.
  { intros [= <-]. split; [by intros ? ?%not_elem_of_nil|done]. }
  destruct (file_text path) as [text|] eqn:Ef; [|done].
  intros (st1 & (Hp & Hs1)%add_module_packages & (Ht & Hs2)%IH)%result_bind_ok.
  split; [|set_solver]. intros p [->|Hin]%elem_of_cons; [|by apply Ht].
  destruct Hp as (engine & package & ? & ?). eexists _, _, _, _. split_and!; [done|done|set_solver].
Qed.

(** An OPA block loads only when it says what it means: every key is known,
    failing open must be asked for by name, the cache starts empty, and the
    package of every operator module, inline or from a file, is protected from
    the modules of routes. *)
Theorem opa_config_strict value self :
  opa_from_config value = Ok self →
  ∃ map, yaml_as_mapping value = Some map
    ∧ (∀ k v, (k, v) ∈ map → ∃ name, yaml_as_str k = Some name ∧ name ∈ OPA_KNOWN_KEYS)
    ∧ (op_on_error self = OnErrorAllow → read_string map "on_error" = Ok (Some "allow"))
    ∧ op_inline_cache self = ∅
    ∧ (∃ texts paths, read_string_seq map "modules" = Ok texts
       ∧ read_string_seq map "module_files" = Ok paths
       ∧ (∀ text, text ∈ texts → ∃ base name engine package,
            add_policy base name text = Ok (engine, package) ∧ package ∈ op_global_packages self)
       ∧ (∀ path, path ∈ paths → ∃ text base engine package, file_text path = Ok text
            ∧ add_policy base path text = Ok (engine, package) ∧ package ∈ op_global_packages self)).
Proof.
  unfold opa_from_config. destruct (yaml_as_mapping value) as [map|] eqn:Em; [|done].
  intros ([] & Hk & (on_error & Ho & (field & _ & (texts & Ht & (st1 & Ha & (paths & Hp & Hr)
    %result_bind_ok)%result_bind_ok)%result_bind_ok)%result_bind_ok)%result_bind_ok)%result_bind_ok.
  apply result_bind_ok in Hr as (st2 & Hf & (engine & _ & (dpaths & _ & (engine' & _ & (cap & _ & [= <-])
    %result_bind_ok)%result_bind_ok)%result_bind_ok)%result_bind_ok).
  apply add_modules_packages in Ha as [Ha _]. apply add_module_files_packages in Hf as [Hf Hs].
  exists map. simpl. split_and!; [done|by apply check_keys_ok| |done|].
  - intros ->. unfold read_on_error in Ho. apply result_bind_ok in Ho as ([s|] & Hs' & Ho); [|done].
    destruct (String.eqb_spec s "deny"); [done|]. destruct (String.eqb_spec s "allow") as [->|]; done.
  - exists texts, paths. split_and!; try done. intros text Hin.
    destruct (Ha _ Hin) as (b & n & en & pk & ? & ?). exists b, n, en, pk. split; [done|set_solver].
Qed.

End Configuration.

(** ** Witnesses *)

Module OpaDemo.

(** An engine that is the list of its modules: a module's text is its package,
    and a query looks for itself among them. *)
#[local] Instance texts : Rego (list string) := {
  engine_new := [];
  add_policy e name text := if String.eqb text "" then Err "empty module" else Ok (text :: e, text);
  add_data_json e _ := Ok e;
  set_input_json e _ := Ok e;
  eval_rule e query := Ok (if bool_decide (query ∈ e) then RBool true else RUndefined);
  to_json_str _ := Ok "{}"
}.
#[local] Instance files : PdpFiles := {
  file_text p := Ok ("file " +:+ p);
  yaml_from_str _ := Ok YNull;
  yaml_to_json _ := Ok "null"
}.

Definition config : Yaml :=
  YMapping [(YString "kind", YString "opa"); (YString "on_error", YString "allow");
            (YString "modules", YSequence [YString "authz"]);
            (YString "module_files", YSequence [YString "a.rego"]);
            (YString "max_cache_entries", YNumber (PosInt 1))].

Definition resolver : OpaResolver (list string) :=
  mkOpa Opa OnErrorAllow "allow" ["file a.rego"; "authz"] {[ "authz"; "file a.rego" ]} ∅ 1.

Lemma opa_config_witness :
  opa_from_config config = Ok resolver
  ∧ ∃ map, yaml_as_mapping config = Some map ∧ read_string map "on_error" = Ok (Some "allow").
Proof.
  assert (opa_from_config config = Ok resolver) as H by (by vm_compute).
  split; [exact H|].
  destruct (opa_config_strict config resolver H) as (map & Hm & _ & Ho & _).
  exists map. split; [exact Hm|]. by apply Ho.
Defined.

Lemma opa_cache_witness :
  (engine_for (engine_commit resolver "mine" ["mine"; "file a.rego"; "authz"]).2 (Some "mine")).1
  = engine_uncached resolver (Some "mine").
Proof.
  destruct (opa_cache_transparent resolver
    (engine_commit resolver "mine" ["mine"; "file a.rego"; "authz"]).2 (Some "mine")) as [_ [H|H]].
  - done.
  - apply rtc_once. by apply commit_step.
  - exact H.
  - exfalso. destruct H as (src & [= <-] & H & _). by vm_compute in H.
Defined.

(** A route's module in an operator's package, and a second one beyond the cap. *)
Example overriding_refused :
  (engine_for resolver (Some "authz")).1 = Err (EnginePackageCollision "authz").
Proof. by vm_compute. Qed.
Example cap_refused :
  (engine_for (engine_for resolver (Some "mine")).2 (Some "other")).1 = Err (EngineCacheFull 1).
Proof. by vm_compute. Qed.

Lemma diagnostics_witness :
  ∃ d, map_query_result (RSet [RString "too long"]) "allow" = MDecision d
       ∧ (length (pd_diagnostics d) ≤ 35)%nat.
Proof.
  eexists. split; [reflexivity|].
  eapply (diagnostics_bounded (RSet [RString "too long"]) "allow"). reflexivity.
Defined.

End OpaDemo.
