(* ===== verification/Cel.v ===== *)
(** * The CEL policy decision point (builtins/pdps/cel/src)

    The evaluation context built from the bag and a step's arguments
    (activation.rs), and the resolver with its cache of compiled expressions
    (resolver.rs).  The cel crate is a parameter; of its context the library
    documents that a variable added last is the one read. *)

From S2P Require Import Prelude RustStd F64 Json Yaml Attributes Ir PdpInput Opa.

Local Open Scope string_scope.
Local Open Scope list_scope.

(** ** The library *)

(** [V] are values, [P] compiled programs, [C] contexts. *)
Class CelLib (V P C : Type) := {
  cel_null : V;
  cel_bool : bool → V;
  cel_int : Z → V;
  cel_float : f64 → V;
  cel_string : string → V;
  cel_list : list V → V;
  cel_map : gmap string V → V;
  cel_as_bool : V → option bool;
  cel_debug : V → string;
  debug_attribute : AttributeValue → string;
  compile : string → Result P string;
  references : P → list string;
  execute : P → C → Result V string;
  context_default : C;
  add_variable : C → string → V → C;
  variables : C → gmap string V;
  variables_add c name v : variables (add_variable c name v) = <[name := v]> (variables c)
}.

(** ** The context (activation.rs) *)

Section Activation.
Context {V P C : Type} `{cel : CelLib V P C} `{order : HashOrder}.

Definition cel_float_to_value (f : f64) : V :=
  match whole_i64 f with Some z => cel_int z | None => cel_float f end.

Definition cel_attr_to_value (attr : AttributeValue) : V :=
  match attr with
  | ABool b => cel_bool b
  | AInt i => cel_int i
  | AFloat f => cel_float_to_value f
  | AString s => cel_string s
  | AStringSet set => cel_list (cel_string <$> sorted_elements set)
  end.

Fixpoint cel_node_to_value (node : Node V) : V :=
  match node with
  | Leaf v => v
  | Branch children => cel_map (cel_node_to_value <$> children)
  end.

(** [n.as_i64()], else [n.as_f64()]. *)
Definition yaml_number_value (n : Number) : V :=
  match number_as_i64 n with
  | Some i => cel_int i
  | None =>
      cel_float_to_value (match n with PosInt z | NegInt z => f64_of_Z z | NumFloat f => f end)
  end.

Fixpoint yaml_to_value (v : Yaml) : V :=
  match v with
  | YNull => cel_null
  | YBool b => cel_bool b
  | YNumber n => yaml_number_value n
  | YString s => cel_string s
  | YSequence seq => cel_list (yaml_to_value <$> seq)
  | YMapping map =>
      cel_map (foldl (λ out '(k, val),
        match yaml_as_str k with Some name => <[name := yaml_to_value val]> out | None => out end)
        ∅ map)
  | YTagged _ _ => cel_null
  end.

(** The author's arguments, without the program text. *)
Definition extra_context (extra_args : Yaml) : C :=
  match yaml_as_mapping extra_args with
  | None => context_default
  | Some map =>
      foldl (λ ctx '(k, v),
        match yaml_as_str k with
        | None => ctx
        | Some name =>
            if String.eqb name "expr" then ctx else add_variable ctx name (yaml_to_value v)
        end) context_default map
  end.

(** A [BTreeMap] is walked in key order; the order does not matter for distinct
    names. *)
Definition bag_to_context (bag : AttributeBag) (extra_args : Yaml) : C :=
  foldl (λ ctx '(name, node), add_variable ctx name (cel_node_to_value node))
    (extra_context extra_args) (map_to_list (build_tree cel_attr_to_value bag)).

Lemma add_variables_lookup (l : list (string * Node V)) c name :
  NoDup l.*1 →
  variables (foldl (λ ctx '(name, node), add_variable ctx name (cel_node_to_value node)) c l) !! name
  = match list_to_map (M := gmap string (Node V)) l !! name with
    | Some node => Some (cel_node_to_value node)
    | None => variables c !! name
    end.
Proof.
  revert c. induction l as [|[n node] l IH]; intros c; [by simpl; rewrite lookup_empty|].
  intros [Hn Hl]%NoDup_cons. simpl. rewrite IH by done. rewrite variables_add.
  destruct (decide (name = n)) as [->|Hne].
  - rewrite lookup_insert_eq, (not_elem_of_list_to_map_1 l n) by done. by rewrite lookup_insert_eq.
  - by rewrite !lookup_insert_ne by done.
Qed.

Lemma build_tree_top (bag : AttributeBag) name :
  is_Some (build_tree cel_attr_to_value bag !! name)
  ↔ ∃ key, is_Some (bag_get bag key) ∧ head (split_on dot key) = Some name.
Proof.
  pose proof (insert_all_kind cel_attr_to_value (map_iter (attrs bag)) [name]) as Hk.
  simpl in Hk. fold (build_tree cel_attr_to_value bag) in Hk. specialize (Hk ltac:(done)).
  unfold bag_get. split.
  - intros [node Hnode]. rewrite Hnode in Hk. destruct node as [v|c]; simpl in Hk.
    + destruct Hk as [_ (key & a & Hin%map_iter_elem & Hs & _)]. exists key. rewrite Hs. eauto.
    + destruct Hk as (key & a & Hin%map_iter_elem & [l Hl] & _). exists key. rewrite Hl. eauto.
  - intros (key & [a Ha] & Hh). apply map_iter_elem in Ha.
    destruct (build_tree _ _ !! name); [done|]. destruct (Hk _ _ Ha) as [Hu Hs]. exfalso.
    destruct (split_on dot key) as [|n rest] eqn:Es; [done|]. injection Hh as ->.
    apply Hu. split; rewrite Es; [by exists rest|]. by intros [= <-].
Qed.

(** A policy author's arguments cannot pose as attributes: a variable named
    like a namespace of the bag holds the bag's values whatever the step says,
    every other variable is the author's, and the program text is not one. *)
Theorem cel_bag_wins bag extra_args name :
  variables (bag_to_context bag extra_args) !! name
  = match build_tree cel_attr_to_value bag !! name with
    | Some node => Some (cel_node_to_value node)
    | None => variables (extra_context extra_args) !! name
    end
  ∧ (is_Some (build_tree cel_attr_to_value bag !! name)
     ↔ ∃ key, is_Some (bag_get bag key) ∧ head (split_on dot key) = Some name)
  ∧ variables (extra_context extra_args) !! "expr" = variables context_default !! "expr".
Proof.
  split_and!; [|apply build_tree_top|].
  - unfold bag_to_context. rewrite add_variables_lookup by apply NoDup_fst_map_to_list.
    by rewrite list_to_map_to_list.
  - unfold extra_context. destruct (yaml_as_mapping extra_args) as [map|]; [|done].
    generalize context_default as c. induction map as [|[k v] map IH]; intros c; [done|]. simpl.
    rewrite IH. destruct (yaml_as_str k) as [n|]; [|done].
    destruct (String.eqb_spec n "expr"); [done|]. by rewrite variables_add, lookup_insert_ne.
Qed.

End Activation.

(** ** The resolver (resolver.rs) *)

Record CelResolver (P C : Type) := mkCel {
  cl_dialect : PdpDialect;
  cl_on_error : OpaOnError;
  cl_max_cache_entries : Z;
  cl_function_setups : list (C → C);
  cl_cache : gmap string P
}.
Arguments mkCel {_ _} _ _ _ _ _.
Arguments cl_dialect {_ _} _.
Arguments cl_on_error {_ _} _.
Arguments cl_max_cache_entries {_ _} _.
Arguments cl_function_setups {_ _} _.
Arguments cl_cache {_ _} _.

Inductive GetOrCompileError := CompileFailed (e : string) | CompileCacheFull (cap : Z).

Definition show_compile_error (e : GetOrCompileError) : string :=
  match e with
  | CompileFailed e => "CEL compile error: " +:+ e
  | CompileCacheFull cap =>
      "CEL compile-cache full (cap=" +:+ show_Z cap
        +:+ "); refusing to compile a new expression. Bump `with_max_cache_entries` if the policy "
        +:+ "legitimately needs more, otherwise investigate a templating or generation bug "
        +:+ "producing unbounded distinct exprs."
  end.

Definition CEL_MAX_CACHE_ENTRIES : Z := 1024.
Definition CEL_KNOWN_KEYS : list string := ["kind"; "on_error"].

Section Resolver.
Context {V P C : Type} `{cel : CelLib V P C} `{order : HashOrder}.
Implicit Types self : CelResolver P C.

Definition cel_new : CelResolver P C := mkCel Cel OnErrorDeny CEL_MAX_CACHE_ENTRIES [] ∅.
Definition with_on_error self (on_error : OpaOnError) : CelResolver P C :=
  mkCel (cl_dialect self) on_error (cl_max_cache_entries self) (cl_function_setups self) (cl_cache self).
Definition with_max_cache_entries self (n : Z) : CelResolver P C :=
  mkCel (cl_dialect self) (cl_on_error self) n (cl_function_setups self) (cl_cache self).
Definition with_functions self (setup : C → C) : CelResolver P C :=
  mkCel (cl_dialect self) (cl_on_error self) (cl_max_cache_entries self)
    (cl_function_setups self ++ [setup]) (cl_cache self).
Definition with_dialect self (d : PdpDialect) : CelResolver P C :=
  mkCel d (cl_on_error self) (cl_max_cache_entries self) (cl_function_setups self) (cl_cache self).
Definition with_cache self (cache : gmap string P) : CelResolver P C :=
  mkCel (cl_dialect self) (cl_on_error self) (cl_max_cache_entries self) (cl_function_setups self) cache.

Fixpoint cel_check_keys (m : Mapping) : Result unit string :=
  match m with
  | [] => Ok tt
  | (key, _) :: m =>
      match yaml_as_str key with
      | None => Err "CEL PDP config keys must be strings"
      | Some name =>
          if bool_decide (name ∈ CEL_KNOWN_KEYS) then cel_check_keys m
          else
            Err ("unknown CEL PDP config key `" +:+ name +:+ "`; expected one of "
                   +:+ debug_list debug_string CEL_KNOWN_KEYS)
      end
  end.

(** [from_config]; the error is the message of [BuildError::ConfigShape]. *)
Definition cel_from_config (value : Yaml) : Result (CelResolver P C) string :=
  match yaml_as_mapping value with
  | None => Err "CEL PDP config must be a mapping"
  | Some map =>
      let? _ := cel_check_keys map in
      let? on_error :=
        match mapping_get map "on_error" ≫= yaml_as_str with
        | None => Ok OnErrorDeny
        | Some s =>
            if String.eqb s "deny" then Ok OnErrorDeny
            else if String.eqb s "allow" then Ok OnErrorAllow
            else Err ("`on_error` must be `deny` or `allow`, got `" +:+ s +:+ "`")
        end in
      Ok (with_on_error cel_new on_error)
  end.

(** The part of [get_or_compile] under the write lock. *)
Definition commit_program self (expr : string) (program : P) :
    Result P GetOrCompileError * CelResolver P C :=
  if (cl_max_cache_entries self <=? Z.of_nat (size (cl_cache self)))%Z
     && is_none (cl_cache self !! expr)
  then (Err (CompileCacheFull (cl_max_cache_entries self)), self)
  else (Ok program, with_cache self (<[expr := program]> (cl_cache self))).

Definition get_or_compile self (expr : string) : Result P GetOrCompileError * CelResolver P C :=
  match cl_cache self !! expr with
  | Some program => (Ok program, self)
  | None =>
      match compile expr with
      | Err e => (Err (CompileFailed e), self)
      | Ok program => commit_program self expr program
      end
  end.

Definition cel_on_error_decision self (cause : string) : PdpDecision :=
  match cl_on_error self with
  | OnErrorAllow => mkPdpDecision Allow [cause]
  | OnErrorDeny => mkPdpDecision (Deny (Some cause) "cel") [cause]
  end.

Definition cel_compile_error_decision (cause : string) : PdpDecision :=
  mkPdpDecision (Deny (Some cause) "cel") [cause].

Definition key_head (key : string) : string := default key (head (split_on dot key)).

Definition snapshot_referenced_bag_values (program : P) (bag : AttributeBag) : list string :=
  let referenced := references program in
  if is_nil referenced then []
  else
    sorted_strings
      ((λ '(key, value), key +:+ "=" +:+ debug_attribute value)
         <$> filter (λ p, key_head p.1 ∈ referenced) (map_iter (attrs bag))).

Definition bag_namespace_present (bag : AttributeBag) (name : string) : bool :=
  existsb (λ p, String.eqb (key_head p.1) name) (map_iter (attrs bag)).

(** The message for an evaluation error. *)
Definition eval_error_cause (program : P) (bag : AttributeBag) (e : string) : string :=
  let cause := "CEL eval error: " +:+ e in
  let referenced := references program in
  if is_nil referenced then cause
  else
    let present := filter (λ n, bag_namespace_present bag n = true) referenced in
    let missing := filter (λ n, bag_namespace_present bag n = false) referenced in
    cause +:+ " (expr references variables: " +:+ debug_list debug_string referenced
      +:+ "; present in bag: " +:+ debug_list debug_string (sorted_strings present)
      +:+ "; missing: " +:+ debug_list debug_string (sorted_strings missing) +:+ ")".

(** The context of one evaluation, host functions included. *)
Definition eval_context self (bag : AttributeBag) (args : Yaml) : C :=
  foldl (λ ctx setup, setup ctx) (bag_to_context bag args) (cl_function_setups self).

Definition cel_evaluate self (call : PdpCall) (bag : AttributeBag) :
    Result PdpDecision PdpError * CelResolver P C :=
  match step_arg call "expr" with
  | None => (Err (PdpDispatch "cel:() step requires a string `expr` argument"), self)
  | Some expr =>
      match get_or_compile self expr with
      | (Err (CompileFailed e), self) =>
          (Ok (cel_compile_error_decision (show_compile_error (CompileFailed e))), self)
      | (Err e, self) => (Ok (cel_on_error_decision self (show_compile_error e)), self)
      | (Ok program, self) =>
          (Ok (match execute program (eval_context self bag (pc_args call)) with
               | Ok v =>
                   match cel_as_bool v with
                   | Some true => mkPdpDecision Allow []
                   | Some false =>
                       mkPdpDecision (Deny (Some "CEL expression evaluated to false") "cel")
                         (("cel: " +:+ expr) :: snapshot_referenced_bag_values program bag)
                   | None =>
                       cel_on_error_decision self ("CEL expression must return bool, got " +:+ cel_debug v)
                   end
               | Err e => cel_on_error_decision self (eval_error_cause program bag e)
               end), self)
      end
  end.

(** ** When a request is allowed *)

Lemma get_or_compile_settings self expr :
  cl_on_error (get_or_compile self expr).2 = cl_on_error self
  ∧ cl_function_setups (get_or_compile self expr).2 = cl_function_setups self.
Proof. unfold get_or_compile, commit_program. by repeat case_match. Qed.

Lemma exists_some {A} (a : A) (Q : A → Prop) : (∃ x, Some a = Some x ∧ Q x) ↔ Q a.
Proof. naive_solver. Qed.

Lemma ok_allows (d : PdpDecision) :
  (∃ d', (Ok d : Result PdpDecision PdpError) = Ok d' ∧ pd_decision d' = Allow) ↔ pd_decision d = Allow.
Proof. naive_solver. Qed.

(** A CEL step allows exactly when its expression compiles and evaluates to
    true, or, with [on_error: allow] only, when the evaluation fails, gives no
    boolean, or the expression does not fit the cache; an expression that does
    not compile denies whatever [on_error] says. *)
Theorem cel_allows_exactly self call bag :
  (∃ d, (cel_evaluate self call bag).1 = Ok d ∧ pd_decision d = Allow)
  ↔ ∃ expr, step_arg call "expr" = Some expr ∧
      match (get_or_compile self expr).1 with
      | Ok program =>
          match execute program (eval_context self bag (pc_args call)) with
          | Ok v => cel_as_bool v = Some true ∨ (cl_on_error self = OnErrorAllow ∧ cel_as_bool v = None)
          | Err _ => cl_on_error self = OnErrorAllow
          end
      | Err (CompileFailed _) => False
      | Err (CompileCacheFull _) => cl_on_error self = OnErrorAllow
      end.
Proof.
  unfold cel_evaluate. destruct (step_arg call "expr") as [expr|];
    [|split; [by intros (? & ? & _)|by intros (? & ? & _)]].
  etrans; [|symmetry; apply (exists_some expr (λ expr, match (get_or_compile self expr).1 with
    Ok _ => _ | Err _ => _ end))].
  pose proof (get_or_compile_settings self expr) as [Ho Hs].
  destruct (get_or_compile self expr) as [[program|[e|cap]] self']; simpl in *.
  - unfold eval_context. rewrite Hs.
    assert (∀ cause, pd_decision (cel_on_error_decision self' cause) = Allow ↔ cl_on_error self = OnErrorAllow)
      as He by (intros cause; unfold cel_on_error_decision; rewrite <-Ho; by destruct (cl_on_error self')).
    destruct (execute program _) as [v|e]; [destruct (cel_as_bool v) as [[]|]|]; rewrite ok_allows; simpl;
      rewrite ?He; naive_solver.
  - rewrite ok_allows. naive_solver.
  - rewrite ok_allows. unfold cel_on_error_decision. rewrite Ho. destruct (cl_on_error self); naive_solver.
Qed.

(** *** The cache holds compiled expressions only *)

Inductive compile_step self : CelResolver P C → Prop :=
| program_step expr program :
    compile expr = Ok program → compile_step self (commit_program self expr program).2.

Definition programs_ok (self : CelResolver P C) : Prop :=
  (∀ expr program, cl_cache self !! expr = Some program → compile expr = Ok program)
  ∧ (Z.of_nat (size (cl_cache self)) ≤ Z.max 0 (cl_max_cache_entries self))%Z.

Lemma commit_program_ok self expr program :
  programs_ok self → compile expr = Ok program → programs_ok (commit_program self expr program).2.
Proof.
  intros [Hp Hs] Hc. unfold commit_program.
  destruct (_ <=? _)%Z eqn:Ele; destruct (cl_cache self !! expr) as [old|] eqn:El; simpl; try done.
  all: split; simpl; [intros x p; rewrite lookup_insert_Some; intros [[<- <-]|[_ ?]]; eauto|].
  - by rewrite map_size_insert_Some by (by eexists).
  - by rewrite map_size_insert_Some by (by eexists).
  - rewrite map_size_insert_None by done. apply Z.leb_gt in Ele. lia.
Qed.

Lemma compile_steps_ok self : rtc compile_step cel_new self → programs_ok self.
Proof.
  intros Hs. assert (programs_ok cel_new) as Hok by (by split).
  revert Hok. induction Hs as [|x y z Hxy _ IH]; [done|].
  intros Hok. apply IH. destruct Hxy. by apply commit_program_ok.
Qed.

End Resolver.

(** ** Witnesses *)

Module CelDemo.

(** Programs are variable names; a program is true when its variable is set. *)
#[local] Program Instance vars : CelLib bool string (gmap string bool) := {
  cel_null := false; cel_bool b := b; cel_int z := (0 <? z)%Z; cel_float _ := false;
  cel_string s := negb (String.eqb s ""); cel_list l := negb (is_nil l); cel_map m := bool_decide (m ≠ ∅);
  cel_as_bool := Some; cel_debug := show_bool; debug_attribute _ := "";
  compile e := if String.eqb e "(" then Err "unbalanced" else Ok e;
  references p := [p];
  execute p c := match c !! p with Some b => Ok b | None => Err "undeclared" end;
  context_default := ∅; add_variable c n v := <[n := v]> c; variables c := c
}.
Solve Obligations with done.

#[local] Program Instance listed : HashOrder := {
  set_iter s := elements s;
  map_iter _ m := map_to_list m
}.
Solve Obligations with done.

Definition call (expr : string) : PdpCall :=
  mkPdpCall Cel (YMapping [(YString "expr", YString expr); (YString "subject", YBool false)]).
Definition bag : AttributeBag := bag_set bag_new "subject.id" (AString "alice").

(** The bag's [subject] is used, not the step's. *)
Example bag_allows : (cel_evaluate cel_new (call "subject") bag).1 = Ok (mkPdpDecision Allow []).
Proof. by vm_compute. Qed.

(** A full cache fails open under [on_error: allow]; a syntax error does not. *)
Example full_cache_fails_open :
  let self := with_max_cache_entries (with_on_error cel_new OnErrorAllow) 0 in
  ∃ d, (cel_evaluate self (call "subject") bag).1 = Ok d ∧ pd_decision d = Allow.
Proof. eexists. by split; vm_compute. Qed.
Example syntax_error_denies :
  ∃ d, (cel_evaluate (with_on_error cel_new OnErrorAllow) (call "(") bag).1 = Ok d ∧ pd_decision d ≠ Allow.
Proof. eexists. by split; vm_compute. Qed.

End CelDemo.
