(* ===== verification/Cedar.v ===== *)
(** * The Cedar policy decision point (builtins/pdps/cedar-direct/src)

    Substitution of bag keys in a step's arguments (template.rs), the request
    with its merged context (request.rs), the principal and resource entities
    (entities.rs), the translation of Cedar's response (decision.rs) and the
    resolver (resolver.rs).  The cedar-policy crate and the conversion of YAML
    to JSON are parameters. *)

From S2P Require Import Prelude RustStd F64 Json JsonMerge Yaml Attributes Ir ExtData Headers Extensions.
From S2P Require Import Bag PdpInput Opa.
From Stdlib Require Import Ascii.

Local Open Scope string_scope.
Local Open Scope list_scope.

(** ** The library *)

(** Cedar's answer: its decision, the ids of the policies that determined it,
    and the errors of policies that could not be evaluated. *)
Record Response := mkResponse {
  rs_allow : bool;
  rs_reason : list string;
  rs_errors : list string
}.

(** [U] are entity ids, [Cx] contexts, [En] entities, [Es] entity sets, [Rq]
    requests, [Sc] schemas, [Ps] policy sets. *)
Class CedarLib (U Cx En Es Rq Sc Ps : Type) := {
  parse_uid : string → Result U string;
  context_from_json : Value → Result Cx string;
  entity_from_json : Value → option Sc → Result En string;
  entities_from : En → En → option Sc → Result Es string;
  request_new : U → U → U → Cx → option Sc → Result Rq string;
  is_authorized : Rq → Ps → Es → Response;
  policy_annotation_id : Ps → string → option string;
  parse_policy_set : string → Result Ps string;
  schema_from_str : string → Result Sc string
}.

(** [serde_json::to_value] of a YAML value. *)
Class YamlJson := yaml_json_value : Yaml → Result Value string.

(** ** Placeholders (template.rs) *)

Definition parse_placeholder (s : string) : option string :=
  inner ← strip_prefix "${" s; inner ← strip_suffix_char "}"%char inner;
  let trimmed := trim inner in
  if String.eqb trimmed "" then None else Some trimmed.

Section Template.
Context `{order : HashOrder}.

Definition attr_yaml (value : AttributeValue) : Yaml :=
  match value with
  | AString v => YString v
  | ABool v => YBool v
  | AInt v => YNumber (number_of_i64 v)
  | AFloat v => YNumber (NumFloat v)
  | AStringSet set => YSequence (YString <$> set_iter set)
  end.

Definition substitute (key original : string) (bag : AttributeBag) : Result Yaml PdpError :=
  match bag_get bag key with
  | None =>
      Err (PdpDispatch ("cedar:() references `" +:+ original +:+ "` but the bag has no key `" +:+ key
             +:+ "` — check the spelling against the projection vocabulary populated by apl-cmf "
             +:+ "(security / payload extractors)"))
  | Some value => Ok (attr_yaml value)
  end.

(** The keys of a mapping are distinct, so inserting them in turn appends. *)
Fixpoint resolve_refs (bag : AttributeBag) (value : Yaml) : Result Yaml PdpError :=
  match value with
  | YString s =>
      match parse_placeholder s with
      | Some key => substitute key s bag
      | None => Ok value
      end
  | YMapping map =>
      let? out := (fix go map := match map with
                     | [] => Ok []
                     | (k, v) :: map => let? v := resolve_refs bag v in let? r := go map in Ok ((k, v) :: r)
                     end) map in
      Ok (YMapping out)
  | YSequence items =>
      let? out := (fix go items := match items with
                     | [] => Ok []
                     | v :: items => let? v := resolve_refs bag v in let? r := go items in Ok (v :: r)
                     end) items in
      Ok (YSequence out)
  | _ => Ok value
  end.

(** *** What substitution does *)

(** The same document with each placeholder replaced by its attribute, once. *)
Inductive instantiates (bag : AttributeBag) : Yaml → Yaml → Prop :=
| inst_placeholder s key a :
    parse_placeholder s = Some key → bag_get bag key = Some a →
    instantiates bag (YString s) (attr_yaml a)
| inst_literal s : parse_placeholder s = None → instantiates bag (YString s) (YString s)
| inst_sequence l l' : Forall2 (instantiates bag) l l' → instantiates bag (YSequence l) (YSequence l')
| inst_mapping m m' :
    Forall2 (λ p p', p.1 = p'.1 ∧ instantiates bag p.2 p'.2) m m' →
    instantiates bag (YMapping m) (YMapping m')
| inst_other v :
    match v with YString _ | YSequence _ | YMapping _ => False | _ => True end →
    instantiates bag v v.

Lemma yaml_ind_nested (Q : Yaml → Prop) :
  (∀ s, Q (YString s)) → (∀ l, Forall Q l → Q (YSequence l)) →
  (∀ m, Forall (λ p, Q p.2) m → Q (YMapping m)) →
  (∀ v, match v with YString _ | YSequence _ | YMapping _ => False | _ => True end → Q v) →
  ∀ v, Q v.
Proof.
  intros Hs Hl Hm Ho v. remember (yaml_depth v) as n eqn:Hn. revert v Hn.
  induction (lt_wf n) as [n _ IH]. intros v ->.
  destruct v as [| | | |l|m|]; try (by apply Ho); [done| |].
  - apply Hl, Forall_forall. intros x Hx. eapply IH; [|done]. by apply sequence_depth.
  - apply Hm, Forall_forall. intros [k x] Hx. eapply IH; [|done]. by eapply mapping_depth.
Qed.

(** Substitution does what the author wrote and nothing more: the document
    keeps its shape and keys, every placeholder is replaced by the attribute it
    names, a value put in is not expanded again, and the step fails exactly when
    an attribute is missing. *)
Theorem resolve_refs_exact bag value :
  match resolve_refs bag value with
  | Ok r => instantiates bag value r
  | Err _ => ∀ r, ¬ instantiates bag value r
  end.
Proof.
  induction value as [s|l IH|m IH|v Hv] using yaml_ind_nested.
  - simpl. destruct (parse_placeholder s) as [key|] eqn:Ep; [|by apply inst_literal].
    unfold substitute. destruct (bag_get bag key) as [a|] eqn:Eb; [by eapply inst_placeholder|].
    intros r Hr. inversion Hr; simplify_eq; done.
  - simpl. set (go := fix go items := match items with [] => Ok [] | v :: items => _ end).
    assert (match go l with
            | Ok l' => Forall2 (instantiates bag) l l'
            | Err _ => ∀ l', ¬ Forall2 (instantiates bag) l l'
            end) as Hgo.
    { induction IH as [|v l Hv _ IHl]; simpl; [constructor|].
      destruct (resolve_refs bag v) as [v'|e]; simpl.
      - destruct (go l) as [l'|e]; simpl; [by constructor|].
        intros l' Hl'. inversion Hl'; subst. by eapply IHl.
      - intros l' Hl'. inversion Hl'; subst. by eapply Hv. }
    destruct (go l) as [l'|e]; simpl; [by apply inst_sequence|].
    intros r Hr. inversion Hr; subst; [by eapply Hgo|done].
  - simpl. set (go := fix go map := match map with [] => Ok [] | _ :: _ => _ end).
    assert (match go m with
            | Ok m' => Forall2 (λ p p', p.1 = p'.1 ∧ instantiates bag p.2 p'.2) m m'
            | Err _ => ∀ m', ¬ Forall2 (λ p p', p.1 = p'.1 ∧ instantiates bag p.2 p'.2) m m'
            end) as Hgo.
    { induction IH as [|[k v] m Hv _ IHm]; simpl in *; [constructor|].
      destruct (resolve_refs bag v) as [v'|e]; simpl.
      - destruct (go m) as [m'|e]; simpl; [by constructor|].
        intros m' Hm'. inversion Hm'; subst. by eapply IHm.
      - intros m' Hm'. inversion Hm' as [|? [] ? ? [? ?]]; subst. by eapply Hv. }
    destruct (go m) as [m'|e]; simpl; [by apply inst_mapping|].
    intros r Hr. inversion Hr; subst; [by eapply Hgo|done].
  - destruct v; try done; by apply inst_other.
Qed.

End Template.

(** ** Entity ids (resolver.rs) *)

Fixpoint replace_char (c : ascii) (by_text : string) (s : string) : string :=
  match s with
  | EmptyString => EmptyString
  | String d s => (if Ascii.eqb d c then by_text else String d EmptyString) +:+ replace_char c by_text s
  end.

Definition backslash : ascii := "\"%char.

Definition escape_id (s : string) : string :=
  replace_char quote_char (String backslash quote)
    (replace_char backslash (String backslash (String backslash EmptyString)) s).

(** Reading a quoted Cedar string after its opening quote: the text up to the
    first quote that is not escaped, and the rest. *)
Fixpoint read_quoted (s : string) : option (string * string) :=
  match s with
  | EmptyString => None
  | String c rest =>
      if Ascii.eqb c quote_char then Some (EmptyString, rest)
      else if Ascii.eqb c backslash then
        match rest with
        | String d rest => '(t, r) ← read_quoted rest; Some (String d t, r)
        | EmptyString => None
        end
      else '(t, r) ← read_quoted rest; Some (String c t, r)
  end.

Lemma escape_id_cons c s :
  escape_id (String c s)
  = (if Ascii.eqb c backslash then String backslash (String backslash EmptyString)
     else if Ascii.eqb c quote_char then String backslash quote else String c EmptyString)
    +:+ escape_id s.
Proof.
  unfold escape_id. cbn [replace_char]. destruct (Ascii.eqb_spec c backslash) as [->|Hb]; [done|].
  simpl. by destruct (Ascii.eqb c quote_char).
Qed.

#[local] Arguments escape_id : simpl never.

Lemma read_quoted_plain c s :
  c ≠ quote_char → c ≠ backslash →
  read_quoted (String c s) = ('(t, r) ← read_quoted s; Some (String c t, r)).
Proof.
  intros Hq%Ascii.eqb_neq Hb%Ascii.eqb_neq. cbn [read_quoted]. by rewrite Hq, Hb.
Qed.

Lemma read_quoted_escape d s :
  read_quoted (String backslash (String d s)) = ('(t, r) ← read_quoted s; Some (String d t, r)).
Proof. done. Qed.

Lemma read_escaped s rest : read_quoted (escape_id s +:+ String quote_char rest) = Some (s, rest).
Proof.
  induction s as [|c s IH]; [done|]. rewrite escape_id_cons.
  destruct (Ascii.eqb_spec c backslash) as [->|Hb]; [|destruct (Ascii.eqb_spec c quote_char) as [->|Hq]].
  - change (_ +:+ _) with (String backslash (String backslash (escape_id s +:+ String quote_char rest))).
    by rewrite read_quoted_escape, IH.
  - change (_ +:+ _) with (String backslash (String quote_char (escape_id s +:+ String quote_char rest))).
    by rewrite read_quoted_escape, IH.
  - change (_ +:+ _) with (String c (escape_id s +:+ String quote_char rest)).
    by rewrite read_quoted_plain, IH.
Qed.

(** ** Context and entities (request.rs, entities.rs) *)

(** [map.get(key)?.as_str()]. *)
Definition read_yaml_string (map : Mapping) (key : string) : option string :=
  mapping_get map key ≫= yaml_as_str.

(** [json!(f)]: a float without a JSON form is null. *)
Definition json_f64 (f : f64) : Value := if f64_is_finite f then VNumber (NumFloat f) else Null.

Definition put_json {A} (key : string) (json : A → Value) (o : option A) (m : gmap string Value) :
    gmap string Value :=
  match o with Some v => <[key := json v]> m | None => m end.

Definition put_record (key : string) (o m : gmap string Value) : gmap string Value :=
  if bool_decide (o = ∅) then m else <[key := VObject o]> m.

Definition qualify_type (bare : string) (namespace : option string) : string :=
  match namespace with
  | Some ns => if String.eqb ns "" then bare else ns +:+ "::" +:+ bare
  | None => bare
  end.

Section Entities.
Context `{order : HashOrder}.

Definition json_set (s : gset string) : Value := VArray (VString <$> set_iter s).

Definition build_cpex_context (bag : AttributeBag) : Value :=
  let delegation :=
    put_json "delegated" VBool (get_bool bag "delegated")
      (put_json "depth" (λ n, VNumber (number_of_i64 n)) (get_int bag "delegation.depth") ∅) in
  let meta :=
    put_json "tags" json_set (get_string_set bag "meta.tags")
      (put_json "scope" VString (get_string bag "meta.scope")
        (put_json "entity_name" VString (get_string bag "meta.entity_name")
          (put_json "entity_type" VString (get_string bag "meta.entity_type") ∅))) in
  let security :=
    put_json "classification" VString (get_string bag "security.classification")
      (put_json "labels" json_set (get_string_set bag "security.labels") ∅) in
  VObject (put_json "authenticated" VBool (get_bool bag "authenticated")
             (put_record "security" security
                (put_record "meta" meta (put_record "delegation" delegation ∅)))).

(** [merge_into]: a shallow overlay. *)
Definition merge_into (target overlay : Value) : Value :=
  match target, overlay with
  | VObject t, VObject o => VObject (o ∪ t)
  | _, _ => target
  end.

Definition collect_prefixed_bools (bag : AttributeBag) (prefix : string) : list string :=
  sorted_elements
    (foldl (λ out '(key, value),
       match strip_prefix prefix key with
       | Some name => match value with ABool true => {[ name ]} ∪ out | _ => out end
       | None => out
       end) (∅ : gset string) (map_iter (attrs bag))).

Definition attr_json (value : AttributeValue) : Value :=
  match value with
  | ABool b => VBool b
  | AInt i => VNumber (number_of_i64 i)
  | AFloat f => json_f64 f
  | AString s => VString s
  | AStringSet set => json_set set
  end.

Definition collect_claims (bag : AttributeBag) : gmap string Value :=
  foldl (λ out '(key, value),
    match strip_prefix "claim." key with Some name => <[name := attr_json value]> out | None => out end)
    ∅ (map_iter (attrs bag)).

(** The record [Entity::from_json_value] reads. *)
Definition entity_json (type_name id : string) (attributes : Value) : Value :=
  VObject (<["uid" := VObject (<["type" := VString type_name]> {[ "id" := VString id ]})]>
             (<["attrs" := attributes]> {[ "parents" := VArray [] ]})).

Definition principal_attrs (bag : AttributeBag) (id kind : string) : gmap string Value :=
  <["id" := VString id]> (<["type" := VString kind]>
    (<["roles" := VArray (VString <$> collect_prefixed_bools bag "role.")]>
      (<["permissions" := VArray (VString <$> collect_prefixed_bools bag "perm.")]>
        (<["teams" := json_set (default ∅ (get_string_set bag "subject.teams"))]>
          {[ "claims" := VObject (collect_claims bag) ]})))).

Definition principal_json (bag : AttributeBag) (namespace : option string) : Result Value PdpError :=
  match get_string bag "subject.id" with
  | None =>
      Err (PdpDispatch ("Cedar request needs a principal but bag has no `subject.id` — install an "
             +:+ "identity-hook plugin upstream of APL policy"))
  | Some id =>
      let kind := default "User" (get_string bag "subject.type") in
      Ok (entity_json (qualify_type kind namespace) id (VObject (principal_attrs bag id kind)))
  end.

Context {U Cx En Es Rq Sc Ps : Type} `{cedar : CedarLib U Cx En Es Rq Sc Ps} `{!YamlJson}.

Definition uid_text (type_name id : string) : string :=
  type_name +:+ "::" +:+ quote +:+ escape_id id +:+ quote.

(** The text of an entity id in an error message, which is not escaped. *)
Definition entity_error (what type_name id e : string) : string :=
  "failed to construct " +:+ what +:+ " entity '" +:+ type_name +:+ "::" +:+ quote +:+ id +:+ quote
    +:+ "': " +:+ e.

Definition build_principal (bag : AttributeBag) (schema : option Sc) (namespace : option string) :
    Result En PdpError :=
  let? json := principal_json bag namespace in
  match entity_from_json json schema with
  | Ok e => Ok e
  | Err e =>
      Err (PdpDispatch (entity_error "principal"
             (qualify_type (default "User" (get_string bag "subject.type")) namespace)
             (default "" (get_string bag "subject.id")) e))
  end.

Definition build_resource (resource_args : Yaml) (schema : option Sc) : Result En PdpError :=
  match yaml_as_mapping resource_args with
  | None => Err (PdpDispatch "cedar:() `resource` must be a mapping with `type` and `id` keys")
  | Some map =>
      match read_yaml_string map "type", read_yaml_string map "id" with
      | None, _ => Err (PdpDispatch "cedar:() `resource.type` missing or not a string")
      | Some _, None => Err (PdpDispatch "cedar:() `resource.id` missing or not a string")
      | Some entity_type, Some id =>
          match yaml_json_value (default (YMapping []) (mapping_get map "attributes")) with
          | Err e => Err (PdpDispatch ("cedar:() `resource.attributes` not JSON-representable: " +:+ e))
          | Ok attributes =>
              match entity_from_json (entity_json entity_type id attributes) schema with
              | Ok e => Ok e
              | Err e => Err (PdpDispatch (entity_error "resource" entity_type id e))
              end
          end
      end
  end.

(** [build] of entities.rs. *)
Definition build_entities (bag : AttributeBag) (resource_args : Yaml) (schema : option Sc)
    (namespace : option string) : Result Es PdpError :=
  let? principal := build_principal bag schema namespace in
  let? resource := build_resource resource_args schema in
  match entities_from principal resource schema with
  | Ok es => Ok es
  | Err e => Err (PdpDispatch ("failed to assemble Cedar entity set: " +:+ e))
  end.

Record ParsedCall := mkParsedCall {
  pk_action : U;
  pk_context : Cx;
  pk_resource_args : Yaml
}.

(** [parse] of request.rs. *)
Definition parse_call (args : Yaml) (bag : AttributeBag) : Result ParsedCall PdpError :=
  match yaml_as_mapping args with
  | None => Err (PdpDispatch "cedar:() args must be a mapping with `action` and `resource` keys")
  | Some map =>
      match read_yaml_string map "action" with
      | None =>
          Err (PdpDispatch ("cedar:() `action` missing — provide a fully-qualified UID like 'Action::"
                 +:+ quote +:+ "read" +:+ quote +:+ "'"))
      | Some action_str =>
          match parse_uid action_str with
          | Err e =>
              Err (PdpDispatch ("cedar:() `action` '" +:+ action_str +:+ "' not a valid EntityUid: " +:+ e))
          | Ok action =>
              match mapping_get map "resource" with
              | None => Err (PdpDispatch "cedar:() `resource` missing")
              | Some resource_args =>
                  let operator_ctx := default YNull (mapping_get map "context") in
                  let? merged :=
                    if yaml_is_null operator_ctx then Ok (build_cpex_context bag)
                    else
                      match yaml_json_value operator_ctx with
                      | Err e => Err (PdpDispatch ("cedar:() `context` not JSON-representable: " +:+ e))
                      | Ok op_json => Ok (merge_into (build_cpex_context bag) op_json)
                      end in
                  match context_from_json merged with
                  | Err e => Err (PdpDispatch ("failed to construct Cedar context: " +:+ e))
                  | Ok context => Ok (mkParsedCall action context resource_args)
                  end
              end
          end
      end
  end.

(** ** Decisions (decision.rs) *)

Definition cedar_deny (reason rule_source : string) (firing : list string) : PdpDecision :=
  mkPdpDecision (Deny (Some reason) rule_source) firing.

Definition translate (response : Response) (policies : Ps) : PdpDecision :=
  let firing_policies := (λ pid, default pid (policy_annotation_id policies pid)) <$> rs_reason response in
  if negb (is_nil (rs_errors response)) then
    cedar_deny ("Cedar evaluation produced errors (fail-closed): "
                  +:+ join_with "; " (rs_errors response))
      (default "cedar.evaluation_error" (head firing_policies)) firing_policies
  else if rs_allow response then mkPdpDecision Allow firing_policies
  else
    cedar_deny (if is_nil firing_policies then "no Cedar permit policy matched the request"
                else "denied by Cedar policy: " +:+ join_with ", " firing_policies)
      (default "cedar.default_deny" (head firing_policies)) firing_policies.

(** ** The resolver (resolver.rs) *)

Record CedarDirectResolver := mkCedar {
  cd_policies : Ps;
  cd_schema : option Sc;
  cd_dialect : PdpDialect;
  cd_entity_namespace : option string
}.

Definition build_principal_uid (bag : AttributeBag) (namespace : option string) : Result U PdpError :=
  match get_string bag "subject.id" with
  | None => Err (PdpDispatch "bag missing `subject.id`")
  | Some id =>
      let kind := default "User" (get_string bag "subject.type") in
      let uid_str := uid_text (qualify_type kind namespace) id in
      match parse_uid uid_str with
      | Ok u => Ok u
      | Err e => Err (PdpDispatch ("failed to parse principal UID '" +:+ uid_str +:+ "': " +:+ e))
      end
  end.

Definition build_resource_uid (resource_args : Yaml) : Result U PdpError :=
  match yaml_as_mapping resource_args with
  | None => Err (PdpDispatch "cedar:() `resource` must be a mapping")
  | Some map =>
      match read_yaml_string map "type", read_yaml_string map "id" with
      | None, _ => Err (PdpDispatch "cedar:() `resource.type` missing")
      | Some _, None => Err (PdpDispatch "cedar:() `resource.id` missing")
      | Some type_name, Some id =>
          let uid_str := uid_text type_name id in
          match parse_uid uid_str with
          | Ok u => Ok u
          | Err e => Err (PdpDispatch ("failed to parse resource UID '" +:+ uid_str +:+ "': " +:+ e))
          end
      end
  end.

(** The part of [evaluate] that prepares Cedar's request and entities. *)
Definition cedar_request (self : CedarDirectResolver) (call : PdpCall) (bag : AttributeBag) :
    Result (Rq * Es) PdpError :=
  let? args := resolve_refs bag (pc_args call) in
  let? parsed := parse_call args bag in
  let? entities :=
    build_entities bag (pk_resource_args parsed) (cd_schema self) (cd_entity_namespace self) in
  let? principal_uid := build_principal_uid bag (cd_entity_namespace self) in
  let? resource_uid := build_resource_uid (pk_resource_args parsed) in
  match request_new principal_uid (pk_action parsed) resource_uid (pk_context parsed) (cd_schema self) with
  | Err e => Err (PdpDispatch ("Cedar request validation failed: " +:+ e))
  | Ok request => Ok (request, entities)
  end.

Definition cedar_evaluate (self : CedarDirectResolver) (call : PdpCall) (bag : AttributeBag) :
    Result PdpDecision PdpError :=
  let? re := cedar_request self call bag in
  Ok (translate (is_authorized re.1 (cd_policies self) re.2) (cd_policies self)).

(** ** Configuration *)

Inductive CedarBuildError :=
| CedarPolicyParse (e : string)
| CedarPolicyFile (path source : string)
| CedarSchemaParse (e : string)
| CedarSchemaFile (path source : string)
| CedarConfigShape (msg : string).

Context `{!PdpFiles}.

Definition parse_schema (text : string) : Result Sc CedarBuildError :=
  match schema_from_str text with Ok s => Ok s | Err e => Err (CedarSchemaParse e) end.

Definition from_policy_text (policies : string) : Result CedarDirectResolver CedarBuildError :=
  match parse_policy_set policies with
  | Ok ps => Ok (mkCedar ps None Cedar None)
  | Err e => Err (CedarPolicyParse e)
  end.

Definition from_policy_file (path : string) : Result CedarDirectResolver CedarBuildError :=
  match file_text path with
  | Err source => Err (CedarPolicyFile path source)
  | Ok text => from_policy_text text
  end.

Definition cedar_from_config (value : Yaml) : Result CedarDirectResolver CedarBuildError :=
  match yaml_as_mapping value with
  | None => Err (CedarConfigShape "Cedar PDP config must be a mapping")
  | Some map =>
      let? policies :=
        match read_yaml_string map "policy_text", read_yaml_string map "policy_file" with
        | Some text, _ => Ok text
        | None, Some path =>
            match file_text path with Ok t => Ok t | Err source => Err (CedarPolicyFile path source) end
        | None, None => Err (CedarConfigShape "Cedar PDP config requires `policy_text` or `policy_file`")
        end in
      match parse_policy_set policies with
      | Err e => Err (CedarPolicyParse e)
      | Ok policy_set =>
          let? schema :=
            match read_yaml_string map "schema_text", read_yaml_string map "schema_file" with
            | Some text, _ => result_map Some (parse_schema text)
            | None, Some path =>
                match file_text path with
                | Ok text => result_map Some (parse_schema text)
                | Err source => Err (CedarSchemaFile path source)
                end
            | None, None => Ok None
            end in
          let dialect :=
            match read_yaml_string map "dialect" with
            | None => Cedar
            | Some d => if String.eqb d "cedar" then Cedar else Custom d
            end in
          Ok (mkCedar policy_set schema dialect (read_yaml_string map "entity_namespace"))
      end
  end.

(** ** When a request is allowed *)

Lemma translate_allows response policies :
  pd_decision (translate response policies) = Allow ↔ rs_allow response = true ∧ rs_errors response = [].
Proof.
  unfold translate. destruct (rs_errors response) as [|e l]; simpl; [|naive_solver].
  destruct (rs_allow response); simpl; naive_solver.
Qed.

(** Cedar fails closed, and decides about the caller: a step allows exactly
    when the request that was built from the caller's own id, the step with its
    placeholders filled in and the bag is valid, Cedar allows it, and no policy
    failed to evaluate. *)
Theorem cedar_allows_exactly self call bag :
  (∃ d, cedar_evaluate self call bag = Ok d ∧ pd_decision d = Allow)
  ↔ ∃ id args parsed entities principal resource request,
      get_string bag "subject.id" = Some id
      ∧ resolve_refs bag (pc_args call) = Ok args
      ∧ parse_call args bag = Ok parsed
      ∧ build_entities bag (pk_resource_args parsed) (cd_schema self) (cd_entity_namespace self) = Ok entities
      ∧ parse_uid (uid_text (qualify_type (default "User" (get_string bag "subject.type"))
                              (cd_entity_namespace self)) id) = Ok principal
      ∧ build_resource_uid (pk_resource_args parsed) = Ok resource
      ∧ request_new principal (pk_action parsed) resource (pk_context parsed) (cd_schema self) = Ok request
      ∧ rs_allow (is_authorized request (cd_policies self) entities) = true
      ∧ rs_errors (is_authorized request (cd_policies self) entities) = [].
Proof.
  unfold cedar_evaluate, cedar_request. split.
  - intros (d & ([rq es] & (args & Ha & (parsed & Hp & (entities & He & (pu & Hu & (ru & Hr & Hq)
      %result_bind_ok)%result_bind_ok)%result_bind_ok)%result_bind_ok)%result_bind_ok & [= <-])%result_bind_ok & Hd).
    apply translate_allows in Hd as [Hd Herr]. unfold build_principal_uid in Hu.
    destruct (get_string bag "subject.id") as [id|]; [|done].
    destruct (parse_uid _) as [u|] eqn:Eu in Hu; [injection Hu as <-|done].
    destruct (request_new _ _ _ _ _) as [rq'|] eqn:Eq in Hq; [injection Hq as -> ->|done].
    eexists id, args, parsed, es, _, ru, rq. done.
  - intros (id & args & parsed & es & pu & ru & rq & Hid & Ha & Hp & He & Hu & Hr & Hq & Hd & Herr).
    rewrite Ha. simpl. rewrite Hp. simpl. rewrite He. simpl. unfold build_principal_uid.
    rewrite Hid, Hu. simpl. rewrite Hr. simpl. rewrite Hq. simpl.
    eexists. split; [done|]. by apply translate_allows.
Qed.

(** An id cannot break out of its quotes: whatever characters a subject id
    or a tool argument holds, the entity id Cedar is given reads back as that
    text in full, under the type the configuration chose. *)
Theorem uid_text_reads_back type_name id :
  ∃ quoted, uid_text type_name id = type_name +:+ "::" +:+ quote +:+ quoted
    ∧ read_quoted quoted = Some (id, EmptyString).
Proof.
  eexists. split; [done|]. apply (read_escaped id EmptyString).
Qed.

(** ** The principal is the authenticated subject *)

Lemma prefixed_bools_elem bag prefix name :
  name ∈ collect_prefixed_bools bag prefix ↔ get_bool bag (prefix +:+ name) = Some true.
Proof.
  unfold collect_prefixed_bools. rewrite elem_of_sorted_elements.
  assert (∀ l acc, name ∈ foldl (λ out '(key, value),
       match strip_prefix prefix key with
       | Some name => match value with ABool true => {[ name ]} ∪ out | _ => out end
       | None => out
       end) (acc : gset string) l ↔ name ∈ acc ∨ (prefix +:+ name, ABool true) ∈ l) as Hl.
  { induction l as [|[key value] l IH]; intros acc; simpl; [set_solver|]. rewrite IH, elem_of_cons.
    destruct (strip_prefix prefix key) as [n|] eqn:Ek.
    - apply strip_prefix_spec in Ek as ->.
      assert (prefix +:+ name = prefix +:+ n ↔ name = n) as Hinj by (by split; [intros ?%(inj _)|intros ->]).
      destruct value as [[]| | | |]; simplify_eq; try set_solver; naive_solver.
    - assert (prefix +:+ name ≠ key) by (intros <-; by rewrite (proj2 (strip_prefix_spec _ _ name)) in Ek).
      naive_solver. }
  rewrite Hl, map_iter_elem. unfold get_bool, bag_get. split.
  - intros [Hx|Hx]; [by apply not_elem_of_empty in Hx|by rewrite Hx].
  - destruct (attrs bag !! _) as [[[]| | | |]|]; naive_solver.
Qed.

Lemma prefixed_bools_sorted bag prefix (s : gset string) :
  (∀ name, get_bool bag (prefix +:+ name) = Some true ↔ name ∈ s) →
  collect_prefixed_bools bag prefix = sorted_elements s.
Proof.
  intros Hs. unfold collect_prefixed_bools. f_equal. apply set_eq. intros name.
  rewrite <-Hs, <-prefixed_bools_elem. unfold collect_prefixed_bools. by rewrite elem_of_sorted_elements.
Qed.

(** The principal Cedar reasons about is the authenticated subject: for
    every bag that keeps the identity attributes (as the bag of a request does),
    there is a principal exactly when the caller has an id, and its id, roles
    and permissions are the caller's, in an order that does not depend on
    hashing. *)
Theorem principal_is_subject ext bag namespace :
  identity_exact ext bag →
  match principal_json bag namespace, request_subject ext ≫= sj_id with
  | Ok json, Some id =>
      get_segments json ["uid"; "id"] = Some (VString id)
      ∧ get_segments json ["attrs"; "id"] = Some (VString id)
      ∧ ∀ s, request_subject ext = Some s →
          get_segments json ["attrs"; "roles"] = Some (VArray (VString <$> sorted_elements (sj_roles s)))
          ∧ get_segments json ["attrs"; "permissions"]
            = Some (VArray (VString <$> sorted_elements (sj_permissions s)))
  | Err _, None => True
  | _, _ => False
  end.
Proof.
  intros (Hr & Hq & _ & _ & Hid & _). unfold principal_json. rewrite Hid.
  destruct (request_subject ext) as [s|]; simpl in *; [|done].
  destruct (sj_id s) as [id|]; simpl; [|done]. split_and!; [done|done|].
  intros s' [= <-]. unfold principal_attrs.
  by rewrite (prefixed_bools_sorted bag "role." _ Hr), (prefixed_bools_sorted bag "perm." _ Hq).
Qed.

End Entities.

(** ** Witnesses *)

Module CedarDemo.
Import BagDemo.

#[local] Instance ascii_lower : UnicodeLower := to_ascii_lowercase.
#[local] Instance in_order : HashOrder := BagDemo.in_order.

Lemma principal_witness :
  match principal_json (extract_extensions alice bag_new) (Some "Acme") with
  | Ok json => get_segments json ["attrs"; "roles"] = Some (VArray [VString "hr"])
  | Err _ => False
  end.
Proof.
  pose proof (principal_is_subject alice (extract_extensions alice bag_new) (Some "Acme")
    (kept_identity_exact alice _ (off_refl _ _))) as H.
  destruct (principal_json _ _) as [json|]; [|done].
  destruct H as (_ & _ & H). by destruct (H _ eq_refl) as [-> _].
Defined.

(** The entity type of an authenticated user is [user]; only a caller without a
    type is a [User]. *)
Example user_type_lower_case :
  let typed := set_opt "subject.type" (λ t, AString (subject_type_str t)) (Some SubjUser)
                 (bag_set bag_new "subject.id" (AString "alice")) in
  match principal_json typed None, principal_json (bag_set bag_new "subject.id" (AString "alice")) None with
  | Ok a, Ok b => get_segments a ["uid"; "type"] = Some (VString "user")
                  ∧ get_segments b ["uid"; "type"] = Some (VString "User")
  | _, _ => False
  end.
Proof. by vm_compute. Qed.

End CedarDemo.
