(* ===== verification/JwtKeys.v ===== *)
(** * Keys and issuers of the JWT identity resolver (builtins/plugins/identity-jwt/src)

    Key stores and trusted issuers (trusted_issuer.rs) and the configuration they
    are built from (config.rs).  Key parsing, JWKS parsing, files and HTTP are
    parameters; the network is an argument, since it answers differently at each
    fetch. *)

From Stdlib Require Import Ascii.
From S2P Require Import Prelude RustStd F64 Json JsonMerge ExtData PluginTypes.

Local Open Scope string_scope.
Local Open Scope list_scope.

(** ** Keys and issuers (trusted_issuer.rs) *)

Record KeyStore (K : Type) := mkKeyStore {
  ks_by_kid : gmap string K;
  ks_fallback : option K
}.
Arguments mkKeyStore {_} _ _.
Arguments ks_by_kid {_} _.
Arguments ks_fallback {_} _.

Definition keystore_empty {K} : KeyStore K := mkKeyStore ∅ None.
Definition single_fallback {K} (key : K) : KeyStore K := mkKeyStore ∅ (Some key).
(** Collecting into a [HashMap]: the last entry of a [kid] stands. *)
Definition from_jwks_entries {K} (entries : list (string * K)) : KeyStore K :=
  mkKeyStore (foldl (λ m p, <[p.1 := p.2]> m) ∅ entries) None.
Definition select {K} (self : KeyStore K) (kid : option string) : option K :=
  match kid with Some k => ks_by_kid self !! k | None => ks_fallback self end.
Definition keystore_is_empty {K} (self : KeyStore K) : bool :=
  bool_decide (ks_by_kid self = ∅) && is_none (ks_fallback self).

Record TrustedIssuer (A K : Type) := mkIssuer {
  ti_issuer : string;
  ti_audiences : list string;
  ti_keys : KeyStore K;
  ti_algorithms : list A;
  ti_leeway_seconds : Z
}.
Arguments mkIssuer {_ _} _ _ _ _ _.
Arguments ti_issuer {_ _} _.
Arguments ti_audiences {_ _} _.
Arguments ti_keys {_ _} _.
Arguments ti_algorithms {_ _} _.
Arguments ti_leeway_seconds {_ _} _.

(** ** Configuration (config.rs) *)

(** The [use] of a JSON Web Key. *)
Inductive PublicKeyUse := UseSignature | UseEncryption | UseOther (s : string).

(** The stages at which a JWKS GET can fail. *)
Inductive HttpGet :=
| HttpBody (body : string) | ClientFailed (e : string) | SendFailed (e : string)
| BadStatus (e : string) | BodyFailed (e : string).
Abbreviation Network := (string → HttpGet).

(** [K] are decoding keys, [J] parsed JSON Web Keys. *)
Class KeyLib (K J : Type) := {
  read_key_file : string → Result string string;
  from_secret : string → K;
  from_rsa_pem : string → Result K string;
  from_ec_pem : string → Result K string;
  from_ed_pem : string → Result K string;
  jwk_from_value : Value → Result J string;
  from_jwk : J → Result K string;
  jwks_from_str : string → Result (list J) string;
  public_key_use : J → option PublicKeyUse;
  key_id : J → option string
}.

Inductive DecodingKeySource :=
| Pem (pem : string)
| PemFile (path : string)
| Jwk (jwk : Value)
| JwksUrl (url : string) (insecure_http : bool) (refresh_secs : Z)
| Secret (secret : string).

Record TrustedIssuerConfig (A : Type) := mkIssuerConfig {
  tc_issuer : string;
  tc_audiences : list string;
  tc_algorithms : list A;
  tc_decoding_key : DecodingKeySource;
  tc_leeway_seconds : Z
}.
Arguments mkIssuerConfig {_} _ _ _ _ _.
Arguments tc_issuer {_} _.
Arguments tc_audiences {_} _.
Arguments tc_algorithms {_} _.
Arguments tc_decoding_key {_} _.
Arguments tc_leeway_seconds {_} _.

Record JwtIdentityResolverConfig (A : Type) := mkJwtConfig {
  jc_trusted_issuers : list (TrustedIssuerConfig A);
  jc_role : TokenRole;
  jc_header : string;
  jc_claim_mapper : option string
}.
Arguments mkJwtConfig {_} _ _ _ _.
Arguments jc_trusted_issuers {_} _.
Arguments jc_role {_} _.
Arguments jc_header {_} _.
Arguments jc_claim_mapper {_} _.

Definition default_role : TokenRole := RoleUser.
Definition default_refresh_secs : Z := 600.
Definition default_header : string := "Authorization".

Definition needs_async (self : DecodingKeySource) : bool :=
  match self with JwksUrl _ _ _ => true | _ => false end.
(** In seconds. *)
Definition refresh_interval (self : DecodingKeySource) : option Z :=
  match self with JwksUrl _ _ refresh_secs => Some refresh_secs | _ => None end.

(** [str::trim_start]. *)
Definition trim_start (s : string) : string := concat_str (drop_while is_whitespace (chars s)).

Definition require_https (url : string) (insecure_http : bool) : Result unit string :=
  let lowered := to_ascii_lowercase (trim_start url) in
  if starts_with "https://" lowered then Ok tt
  else if starts_with "http://" lowered then
    if insecure_http then Ok tt
    else Err ("JWKS URL must use https:// (got '" +:+ url +:+ "'). Set `insecure_http: true` "
                +:+ "to allow plaintext for localhost/dev only — never production.")
  else Ok tt.

Definition or_else {T E} (r s : Result T E) : Result T E := match r with Ok v => Ok v | Err _ => s end.

Section Build.
Context {A K J : Type} `{keys : KeyLib K J}.

Definition build_from_pem_bytes (bytes origin : string) : Result K string :=
  map_err (λ e, origin +:+ " PEM key failed to parse: " +:+ e)
    (or_else (or_else (from_rsa_pem bytes) (from_ec_pem bytes)) (from_ed_pem bytes)).

Definition build_from_jwk_value (jwk : Value) : Result K string :=
  let? parsed := map_err (λ e, "JWK is not well-formed: " +:+ e) (jwk_from_value jwk) in
  map_err (λ e, "JWK not usable: " +:+ e) (from_jwk parsed).

Definition source_build (self : DecodingKeySource) : Result (KeyStore K) string :=
  let? key :=
    match self with
    | Pem pem => build_from_pem_bytes pem "inline PEM"
    | PemFile path =>
        let? bytes := map_err (λ e, "decoding-key file '" +:+ path +:+ "' unreadable: " +:+ e)
                        (read_key_file path) in
        build_from_pem_bytes bytes ("file '" +:+ path +:+ "'")
    | Jwk jwk => build_from_jwk_value jwk
    | JwksUrl url _ _ =>
        Err ("JwksUrl source '" +:+ url +:+ "' requires async resolution — call build_async()")
    | Secret secret => Ok (from_secret secret)
    end in
  Ok (single_fallback key).

(** The loop over the keys of a JWKS: the usable entries, how many had no [kid],
    and what was wrong with the unusable ones. *)
Fixpoint jwks_entries (jwks : list J) (entries : list (string * K)) (skipped_no_kid : nat)
    (skipped_unusable : list string) : list (string * K) * nat * list string :=
  match jwks with
  | [] => (entries, skipped_no_kid, skipped_unusable)
  | k :: jwks =>
      match public_key_use k with
      | Some UseEncryption | Some (UseOther _) => jwks_entries jwks entries skipped_no_kid skipped_unusable
      | Some UseSignature | None =>
          match key_id k with
          | None | Some EmptyString => jwks_entries jwks entries (S skipped_no_kid) skipped_unusable
          | Some kid =>
              match from_jwk k with
              | Ok key => jwks_entries jwks (entries ++ [(kid, key)]) skipped_no_kid skipped_unusable
              | Err e =>
                  jwks_entries jwks entries skipped_no_kid (skipped_unusable ++ [kid +:+ ": " +:+ e])
              end
          end
      end
  end.

Definition http_text (url : string) (g : HttpGet) : Result string string :=
  match g with
  | HttpBody body => Ok body
  | ClientFailed e => Err ("JWKS client construction failed: " +:+ e)
  | SendFailed e => Err ("JWKS GET " +:+ url +:+ " failed: " +:+ e)
  | BadStatus e => Err ("JWKS GET " +:+ url +:+ " returned non-2xx: " +:+ e)
  | BodyFailed e => Err ("JWKS GET " +:+ url +:+ " body read failed: " +:+ e)
  end.

Definition source_build_async (net : Network) (self : DecodingKeySource) : Result (KeyStore K) string :=
  match self with
  | JwksUrl url insecure_http _ =>
      let? _ := require_https url insecure_http in
      let? body := http_text url (net url) in
      let? jwks := map_err (λ e, "JWKS " +:+ url +:+ " body is not a JWKSet: " +:+ e) (jwks_from_str body) in
      let '(entries, skipped_no_kid, skipped_unusable) := jwks_entries jwks [] 0 [] in
      if is_nil entries then
        Err ("JWKS at " +:+ url +:+ " contained no usable signature keys (skipped "
               +:+ show_nat skipped_no_kid +:+ " entries with no kid; "
               +:+ show_nat (length skipped_unusable) +:+ " entries failed to parse: ["
               +:+ join_with ", " skipped_unusable +:+ "])")
      else Ok (from_jwks_entries entries)
  | other => source_build other
  end.

Implicit Types self : TrustedIssuerConfig A.

Definition issuer_validate self : Result unit string :=
  if String.eqb (trim (tc_issuer self)) EmptyString then Err "trusted_issuer.issuer must be non-empty"
  else if is_nil (tc_algorithms self) then
    Err ("trusted_issuer '" +:+ tc_issuer self +:+ "' must list at least one algorithm")
  else Ok tt.

Definition issuer_of self (store : KeyStore K) : TrustedIssuer A K :=
  mkIssuer (tc_issuer self) (tc_audiences self) store (tc_algorithms self) (tc_leeway_seconds self).

Definition build_failed self (e : string) : string :=
  "trusted_issuer '" +:+ tc_issuer self +:+ "' decoding_key build failed: " +:+ e.

Definition issuer_build self : Result (TrustedIssuer A K) string :=
  let? _ := issuer_validate self in
  let? store := map_err (build_failed self) (source_build (tc_decoding_key self)) in
  Ok (issuer_of self store).

Definition issuer_build_async (net : Network) self : Result (TrustedIssuer A K) string :=
  let? _ := issuer_validate self in
  let? store := map_err (build_failed self) (source_build_async net (tc_decoding_key self)) in
  Ok (issuer_of self store).

End Build.
