(* ===== verification/Jwt.v ===== *)
(** * The JWT identity resolver (builtins/plugins/identity-jwt/src)

    The mapping of claims to an identity (claim_map.rs), and the resolver
    (resolver.rs): its construction, the fetches of [initialize], the refresh
    tasks as steps of the shared key stores, and [handle], which validates a
    request's token.  The jsonwebtoken crate, base64 and JSON parsing are
    parameters; the clock is an argument. *)

From Stdlib Require Import Ascii.
From S2P Require Import Prelude RustStd F64 Json JsonMerge ExtData Extensions PluginTypes Executor.
From S2P Require Import Delegation JwtKeys.

Local Open Scope string_scope.
Local Open Scope list_scope.

(** ** The library *)

(** The kinds of [jsonwebtoken::errors::ErrorKind] the code tells apart. *)
Inductive JwtErrorKind :=
| ExpiredSignature | InvalidSignature | ImmatureSignature | InvalidAudience | InvalidIssuer
| InvalidAlgorithm | InvalidAlgorithmName | Base64Error | JsonError | OtherJwtError.
Record JwtError := mkJwtError { je_kind : JwtErrorKind; je_text : string }.

(** The fields of [Validation] that the code sets, and those it leaves at the
    documented defaults of [Validation::new]. *)
Record Validation (A : Type) := mkValidation {
  vd_algorithms : list A;
  vd_leeway : Z;
  vd_validate_exp : bool;
  vd_validate_nbf : bool;
  vd_iss : option string;
  vd_validate_aud : bool;
  vd_aud : option (list string)
}.
Arguments mkValidation {_} _ _ _ _ _ _ _.
Arguments vd_algorithms {_} _.
Arguments vd_leeway {_} _.
Arguments vd_validate_exp {_} _.
Arguments vd_validate_nbf {_} _.
Arguments vd_iss {_} _.
Arguments vd_validate_aud {_} _.
Arguments vd_aud {_} _.

Definition validation_new {A} (alg : A) : Validation A := mkValidation [alg] 60 true false None true None.

Abbreviation ClaimMap := (gmap string Value).

(** [A] are algorithms, [K] decoding keys. *)
Class JwtLib (A K : Type) := {
  base64_decode : string → option string;
  json_from_slice : string → option Value;
  decode_header : string → Result (option string) JwtError;
  jwt_decode : string → K → Validation A → Z → Result ClaimMap JwtError
}.

(** ** Claims (claim_map.rs) *)

Fixpoint words (current : string) (l : list string) : list string :=
  match l with
  | [] => [current]
  | c :: l => if is_whitespace c then current :: words EmptyString l else words (current +:+ c) l
  end.
(** [str::split_whitespace]. *)
Definition split_whitespace (s : string) : list string :=
  filter (λ w, w ≠ EmptyString) (words EmptyString (chars s)).

Definition as_array (v : Value) : option (list Value) :=
  match v with VArray l => Some l | _ => None end.

Definition claim_str (claims : ClaimMap) (k : string) : option string := claims !! k ≫= as_str.
Definition claim_array (claims : ClaimMap) (k : string) : option (list string) :=
  match claims !! k ≫= as_array with Some l => Some (omap as_str l) | None => None end.

Definition SUBJECT_RESERVED : list string :=
  ["sub"; "roles"; "permissions"; "scope"; "teams"; "groups"; "iss"; "aud"; "exp"; "nbf"; "iat"; "jti"].
Definition CLIENT_RESERVED : list string :=
  ["client_id"; "azp"; "client_name"; "authorized_scopes"; "scope"; "aud"; "roles"; "iss"; "exp"; "nbf";
   "iat"; "jti"; "sub"].

Section Claims.
Context `{!JsonText}.

Definition stringified (v : Value) : string :=
  match v with VString s => s | other => json_to_string other end.

Definition map_subject (claims : ClaimMap) : option SubjectExtension :=
  sub ← claim_str claims "sub";
  Some (mkSubject (Some sub) None
    (list_to_set (default [] (claim_array claims "roles")))
    (list_to_set match claim_array claims "permissions" with
                 | Some l => l
                 | None => from_option split_whitespace [] (claim_str claims "scope")
                 end)
    (list_to_set match claim_array claims "teams" with
                 | Some l => l
                 | None => default [] (claim_array claims "groups")
                 end)
    (stringified <$> filter (λ p, p.1 ∉ SUBJECT_RESERVED) claims)).

End Claims.

Definition map_client (claims : ClaimMap) : option ClientExtension :=
  client_id ← (v ← match claims !! "client_id" with Some v => Some v | None => claims !! "azp" end; as_str v);
  Some (mkClient client_id (claim_str claims "client_name") ThirdParty
    (match claim_array claims "authorized_scopes" with
     | Some l => l
     | None => from_option split_whitespace [] (claim_str claims "scope")
     end)
    (match claims !! "aud" with
     | Some (VString s) => [s]
     | Some (VArray l) => omap as_str l
     | _ => []
     end)
    (default [] (claim_array claims "roles")) [] []
    (filter (λ p, p.1 ∉ CLIENT_RESERVED) claims)).

Definition spiffe (o : option string) : option string :=
  s ← o; if starts_with "spiffe://" s then Some s else None.

Definition map_workload (claims : ClaimMap) : option WorkloadIdentity :=
  spiffe_id ← spiffe match spiffe (claim_str claims "sub") with
                     | Some s => Some s
                     | None => claim_str claims "spiffe_id"
                     end;
  Some (mkWorkload (Some spiffe_id)
    (rest ← strip_prefix "spiffe://" spiffe_id; head (split_on "/"%char rest))
    None (Some "jwt") [] None).

(** ** The resolver (resolver.rs) *)

Inductive ValidateError := UnknownKid (kid : option string) | KeysUnavailable | JwtFailed (e : JwtError).

Definition classify_jwt_error (e : JwtError) : string * string :=
  (match je_kind e with
   | ExpiredSignature => "auth.token_expired"
   | InvalidSignature => "auth.signature_invalid"
   | ImmatureSignature => "auth.token_not_yet_valid"
   | InvalidAudience => "auth.audience_mismatch"
   | InvalidIssuer => "auth.untrusted_issuer"
   | InvalidAlgorithm | InvalidAlgorithmName => "auth.algorithm_mismatch"
   | Base64Error | JsonError => "auth.malformed_header"
   | OtherJwtError => "auth.token_invalid"
   end, je_text e).

Definition DEFAULT_LEEWAY_SECONDS : Z := 60.

Definition debug_token_role (r : TokenRole) : string :=
  match r with
  | RoleUser => "User" | RoleClient => "Client" | RoleCallerWorkload => "CallerWorkload"
  | RoleCustom s => "Custom(" +:+ debug_string s +:+ ")"
  end.

(** The shared key stores sit in the list of issuers: a refresh task owns the
    position of its issuer, which never moves since the list only grows at its
    end. *)
Record JwtIdentityResolver (A K : Type) := mkResolver {
  jr_name : string;
  jr_trusted_issuers : list (TrustedIssuer A K);
  jr_pending_jwks : list (TrustedIssuerConfig A);
  jr_role : TokenRole;
  jr_header : string;
  jr_refresh_tasks : list (nat * DecodingKeySource)
}.
Arguments mkResolver {_ _} _ _ _ _ _ _.
Arguments jr_name {_ _} _.
Arguments jr_trusted_issuers {_ _} _.
Arguments jr_pending_jwks {_ _} _.
Arguments jr_role {_ _} _.
Arguments jr_header {_ _} _.
Arguments jr_refresh_tasks {_ _} _.

(** The derived deserialization of the configuration. *)
Class JwtSerde (A : Type) := jwt_config_from_value : Value → Result (JwtIdentityResolverConfig A) string.

Definition with_issuers {A K} (r : JwtIdentityResolver A K) (issuers : list (TrustedIssuer A K))
    (tasks : list (nat * DecodingKeySource)) : JwtIdentityResolver A K :=
  mkResolver (jr_name r) issuers (jr_pending_jwks r) (jr_role r) (jr_header r) tasks.
Definition with_keys {A K} (i : TrustedIssuer A K) (store : KeyStore K) : TrustedIssuer A K :=
  mkIssuer (ti_issuer i) (ti_audiences i) store (ti_algorithms i) (ti_leeway_seconds i).

Section Lifecycle.
Context {A K J : Type} `{keys : KeyLib K J} `{serde : JwtSerde A}.
Implicit Types self : JwtIdentityResolver A K.
Implicit Types net : Network.

Definition jwt_config_error {T} (name message : string) : Result T PluginError :=
  Err (ErrConfig ("plugin '" +:+ name +:+ "' (cpex-plugin-identity-jwt)" +:+ message)).

(** The issuers built at once and those that wait for [initialize]. *)
Fixpoint partition_issuers (name : string) (raws : list (TrustedIssuerConfig A))
    (trusted : list (TrustedIssuer A K)) (pending : list (TrustedIssuerConfig A)) :
    Result (list (TrustedIssuer A K) * list (TrustedIssuerConfig A)) PluginError :=
  match raws with
  | [] => Ok (trusted, pending)
  | raw :: raws =>
      match issuer_validate raw with
      | Err e => jwt_config_error name (": " +:+ e)
      | Ok _ =>
          if needs_async (tc_decoding_key raw) then partition_issuers name raws trusted (pending ++ [raw])
          else
            match issuer_build raw with
            | Err e => jwt_config_error name (": " +:+ e)
            | Ok built => partition_issuers name raws (trusted ++ [built]) pending
            end
      end
  end.

Definition jwt_new (cfg : PluginConfig) : Result (JwtIdentityResolver A K) PluginError :=
  let name := pcf_name cfg in
  match pcf_config cfg with
  | None => jwt_config_error name " requires a `config:` block — missing trusted_issuers etc."
  | Some raw_config =>
      match jwt_config_from_value raw_config with
      | Err e => jwt_config_error name (" config parse failed: " +:+ e)
      | Ok typed =>
          if is_nil (jc_trusted_issuers typed) then
            jwt_config_error name " requires at least one entry in `trusted_issuers`"
          else
            let? ' (trusted, pending) := partition_issuers name (jc_trusted_issuers typed) [] [] in
            let mapper := default "standard" (jc_claim_mapper typed) in
            if negb (String.eqb mapper "standard") then
              jwt_config_error name (": unknown claim_mapper '" +:+ mapper +:+ "'; valid: [standard]")
            else
              match jc_role typed with
              | RoleCustom _ =>
                  jwt_config_error name (": role: Custom(...) is not yet supported — pick one of "
                                           +:+ "`user`, `client`, `workload`")
              | role =>
                  if String.eqb (trim (jc_header typed)) EmptyString then
                    jwt_config_error name ": `header:` must be a non-empty HTTP header name"
                  else Ok (mkResolver name trusted pending role (jc_header typed) [])
              end
      end
  end.

(** One issuer of the loop of [initialize]: a failed fetch leaves it with an
    empty key store, and its refresh task is spawned all the same. *)
Definition init_issuer net (acc : list (TrustedIssuer A K) * list (nat * DecodingKeySource))
    (cfg : TrustedIssuerConfig A) : list (TrustedIssuer A K) * list (nat * DecodingKeySource) :=
  let '(issuers, tasks) := acc in
  let issuer := match issuer_build_async net cfg with
                | Ok iss => iss
                | Err _ => issuer_of cfg keystore_empty
                end in
  (issuers ++ [issuer],
   match refresh_interval (tc_decoding_key cfg) with
   | Some _ => tasks ++ [(length issuers, tc_decoding_key cfg)]
   | None => tasks
   end).

Definition jwt_initialize net self : JwtIdentityResolver A K :=
  if is_nil (jr_pending_jwks self) then self
  else
    let '(issuers, tasks) :=
      foldl (init_issuer net) (jr_trusted_issuers self, jr_refresh_tasks self) (jr_pending_jwks self) in
    with_issuers self issuers tasks.

(** One tick of a refresh task: the whole store is replaced, or kept. *)
Definition jwt_refresh net (task : nat * DecodingKeySource) self : JwtIdentityResolver A K :=
  match source_build_async net task.2 with
  | Ok new_store =>
      with_issuers self (alter (λ i, with_keys i new_store) task.1 (jr_trusted_issuers self))
        (jr_refresh_tasks self)
  | Err _ => self
  end.

(** What a resolver goes through: [initialize], then the ticks of its tasks.
    [tokio::time::interval] panics on a period of zero, which ends such a task
    before its first tick. *)
Inductive jwt_step : JwtIdentityResolver A K → JwtIdentityResolver A K → Prop :=
| step_initialize net self : jwt_step self (jwt_initialize net self)
| step_refresh net self task secs :
    task ∈ jr_refresh_tasks self → refresh_interval task.2 = Some secs → (0 < secs)%Z →
    jwt_step self (jwt_refresh net task self).

Definition jwt_reachable (cfg : PluginConfig) self : Prop :=
  ∃ r0, jwt_new cfg = Ok r0 ∧ rtc jwt_step r0 self.

End Lifecycle.

(** [PluginResult::deny] and [PluginResult::modify_payload]. *)
Definition result_deny {Pay} (code reason : string) : ErasedResultFields Pay :=
  mkErased false None None (Some (violation_new code reason)).
Definition result_modify {Pay} (p : Pay) : ErasedResultFields Pay := mkErased true (Some p) None None.

Section Resolver.
Context {A K : Type} `{jwt : JwtLib A K} `{!JsonText}.
Implicit Types self : JwtIdentityResolver A K.
Implicit Types issuer : TrustedIssuer A K.

Definition peek_issuer (token : string) : option string :=
  match split_on "."%char token with
  | [_; part; _] =>
      payload_bytes ← base64_decode part; value ← json_from_slice payload_bytes;
      v ← value_get value "iss"; as_str v
  | _ => None
  end.

(** The validation an issuer asks for; [issuer.algorithms[0]] is there because
    configurations without an algorithm are refused. *)
Definition issuer_validation issuer : option (Validation A) :=
  primary ← head (ti_algorithms issuer);
  let v := validation_new primary in
  Some (mkValidation (ti_algorithms issuer)
          (if (ti_leeway_seconds issuer =? 0)%Z then DEFAULT_LEEWAY_SECONDS else ti_leeway_seconds issuer)
          (vd_validate_exp v) (vd_validate_nbf v) (Some (ti_issuer issuer))
          (negb (is_nil (ti_audiences issuer)))
          (if is_nil (ti_audiences issuer) then vd_aud v else Some (ti_audiences issuer))).

(** [None] is the panic of indexing an empty list of algorithms. *)
Definition validate_token (token : string) issuer (now : Z) : option (Result ClaimMap ValidateError) :=
  match decode_header token with
  | Err e => Some (Err (JwtFailed e))
  | Ok kid =>
      if keystore_is_empty (ti_keys issuer) then Some (Err KeysUnavailable)
      else
        match select (ti_keys issuer) kid with
        | None => Some (Err (UnknownKid kid))
        | Some key =>
            validation ← issuer_validation issuer;
            Some (match jwt_decode token key validation now with
                  | Ok claims => Ok claims
                  | Err e => Err (JwtFailed e)
                  end)
        end
  end.

(** The token of a request: its header without [Bearer ], or the pre-extracted
    one. *)
Definition request_token self (payload : IdentityPayload) : option string :=
  match ip_headers payload !! to_ascii_lowercase (jr_header self) with
  | Some v => Some (default v (strip_prefix "Bearer " v))
  | None => if String.eqb (ip_raw_token payload) EmptyString then None else Some (ip_raw_token payload)
  end.

Definition with_subject (p : IdentityPayload) (s : SubjectExtension) : IdentityPayload :=
  mkIdentity (ip_raw_token p) (ip_source p) (ip_source_header p) (ip_headers p) (ip_client_host p)
    (ip_client_port p) (Some s) (ip_client p) (ip_caller_workload p) (ip_delegation p)
    (ip_raw_credentials p) (ip_resolved_at p) (ip_raw_claims p).
Definition with_client (p : IdentityPayload) (c : ClientExtension) : IdentityPayload :=
  mkIdentity (ip_raw_token p) (ip_source p) (ip_source_header p) (ip_headers p) (ip_client_host p)
    (ip_client_port p) (ip_subject p) (Some c) (ip_caller_workload p) (ip_delegation p)
    (ip_raw_credentials p) (ip_resolved_at p) (ip_raw_claims p).
Definition with_workload (p : IdentityPayload) (w : WorkloadIdentity) : IdentityPayload :=
  mkIdentity (ip_raw_token p) (ip_source p) (ip_source_header p) (ip_headers p) (ip_client_host p)
    (ip_client_port p) (ip_subject p) (ip_client p) (Some w) (ip_delegation p)
    (ip_raw_credentials p) (ip_resolved_at p) (ip_raw_claims p).
Definition with_credentials (p : IdentityPayload) (c : RawCredentialsExtension) (now : Z)
    (claims : ClaimMap) : IdentityPayload :=
  mkIdentity (ip_raw_token p) (ip_source p) (ip_source_header p) (ip_headers p) (ip_client_host p)
    (ip_client_port p) (ip_subject p) (ip_client p) (ip_caller_workload p) (ip_delegation p)
    (Some c) (Some now) claims.

(** Step 3 of [handle]: the slot of the configured role. *)
Definition fill_slot self (payload : IdentityPayload) (claims : ClaimMap) :
    Result IdentityPayload (string * string) :=
  match jr_role self with
  | RoleUser =>
      match map_subject claims with
      | Some s => Ok (with_subject payload s)
      | None => Err ("auth.mapping_failed",
                     "claim mapper produced no subject — required `sub` claim missing or wrong shape")
      end
  | RoleClient =>
      match map_client claims with
      | Some c => Ok (with_client payload c)
      | None => Err ("auth.mapping_failed",
                     "claim mapper produced no client — required `client_id` / `azp` claim missing")
      end
  | RoleCallerWorkload =>
      match map_workload claims with
      | Some w => Ok (with_workload payload w)
      | None => Err ("auth.mapping_failed", "claim mapper produced no workload — token doesn't look "
                       +:+ "like a SPIFFE-JWT-SVID (sub doesn't start with `spiffe://`)")
      end
  | RoleCustom _ => Err ("auth.misconfigured", "role: Custom(...) is not supported")
  end.

(** Step 4: the raw token, kept under the role. *)
Definition stash_token self (payload : IdentityPayload) (token : string) (now : Z) (claims : ClaimMap) :
    IdentityPayload :=
  let kind := match jr_role self with RoleCallerWorkload => KindSpiffeJwt | _ => KindJwt end in
  let creds := default raw_default (ip_raw_credentials payload) in
  with_credentials payload
    (mkRawCredentials (<[jr_role self := mkInbound token (jr_header self) kind]> (rc_inbound_tokens creds))
       (rc_delegated_tokens creds)) now claims.

Definition unknown_kid_reason (kid : option string) : string :=
  match kid with
  | Some k => "token's header `kid` = '" +:+ k +:+ "' did not match any key in issuer's JWKS"
  | None => "token has no `kid` header; issuer's JWKS keys all require kid match"
  end.

Definition unavailable_reason (iss : string) : string :=
  "issuer '" +:+ iss +:+ "' has no signing keys available — initial JWKS fetch failed and refresh "
    +:+ "has not yet succeeded; check upstream IdP reachability".

Definition handle self (payload : IdentityPayload) (now : Z) : option (ErasedResultFields IdentityPayload) :=
  match request_token self payload with
  | None =>
      Some (result_deny "auth.malformed_header"
              ("header '" +:+ jr_header self +:+ "' missing from request (resolver '" +:+ jr_name self
                 +:+ "' / role '" +:+ debug_token_role (jr_role self) +:+ "')"))
  | Some token =>
      if String.eqb token EmptyString then
        Some (result_deny "auth.malformed_header"
                ("header '" +:+ jr_header self +:+ "' is present but empty"))
      else
        match peek_issuer token with
        | None => Some (result_deny "auth.malformed_header" "JWT not well-formed or missing `iss` claim")
        | Some iss =>
            match find (λ i, String.eqb (ti_issuer i) iss) (jr_trusted_issuers self) with
            | None =>
                Some (result_deny "auth.untrusted_issuer"
                        ("issuer '" +:+ iss +:+ "' is not in the trusted-issuer list"))
            | Some issuer =>
                validated ← validate_token token issuer now;
                Some (match validated with
                      | Err KeysUnavailable => result_deny "auth.jwks_unavailable" (unavailable_reason iss)
                      | Err (UnknownKid kid) => result_deny "auth.unknown_kid" (unknown_kid_reason kid)
                      | Err (JwtFailed e) =>
                          let '(code, reason) := classify_jwt_error e in result_deny code reason
                      | Ok claims =>
                          match fill_slot self payload claims with
                          | Err (code, reason) => result_deny code reason
                          | Ok updated => result_modify (stash_token self updated token now claims)
                          end
                      end)
            end
        end
  end.
End Resolver.

(** ** Where the keys of a resolver come from *)

(** A store an entry of the configuration accounts for: empty, after a fetch that
    failed, or what building its own source gave under some network. *)
Definition store_of `{keys : KeyLib K J} {A} (c : TrustedIssuerConfig A) (store : KeyStore K) : Prop :=
  store = keystore_empty ∨ ∃ net, source_build_async net (tc_decoding_key c) = Ok store.

Section Provenance.
Context {A K J : Type} `{keys : KeyLib K J} `{serde : JwtSerde A}.
Implicit Types self : JwtIdentityResolver A K.

Definition issuer_from (cfgs : list (TrustedIssuerConfig A)) (c : TrustedIssuerConfig A)
    (i : TrustedIssuer A K) : Prop :=
  c ∈ cfgs ∧ tc_algorithms c ≠ [] ∧ ∃ store, i = issuer_of c store ∧ store_of c store.

Definition pending_from (cfgs : list (TrustedIssuerConfig A)) (c : TrustedIssuerConfig A) : Prop :=
  c ∈ cfgs ∧ tc_algorithms c ≠ [].

(** The issuers of a resolver beside the configuration entries they come from,
    and the tasks beside the issuers they refresh. *)
Definition resolver_from (cfgs : list (TrustedIssuerConfig A)) self : Prop :=
  ∃ cs, Forall2 (issuer_from cfgs) cs (jr_trusted_issuers self) ∧
        Forall (pending_from cfgs) (jr_pending_jwks self) ∧
        Forall (λ t, ∃ c, cs !! t.1 = Some c ∧ tc_decoding_key c = t.2) (jr_refresh_tasks self).

Lemma issuer_validate_ok (c : TrustedIssuerConfig A) u : issuer_validate c = Ok u → tc_algorithms c ≠ [].
Proof. unfold issuer_validate. destruct (String.eqb _ _); [done|]. by destruct (tc_algorithms c). Qed.

Lemma source_build_sync net src (store : KeyStore K) :
  source_build src = Ok store → source_build_async net src = Ok store.
Proof. by destruct src. Qed.

Lemma issuer_build_from c (i : TrustedIssuer A K) :
  issuer_build c = Ok i → ∃ store, i = issuer_of c store ∧ store_of c store.
Proof.
  unfold issuer_build, result_bind. destruct (issuer_validate c); [|done].
  destruct (source_build (tc_decoding_key c)) as [store|] eqn:E; [|done]. intros [= <-].
  exists store. split; [done|]. right. exists (λ _, BadStatus EmptyString). by apply source_build_sync.
Qed.

Lemma partition_from name cfgs raws trusted pending trusted' pending' cs :
  (∀ c, c ∈ raws → c ∈ cfgs) →
  Forall2 (issuer_from cfgs) cs trusted → Forall (pending_from cfgs) pending →
  partition_issuers name raws trusted pending = Ok (trusted', pending') →
  (∃ cs', Forall2 (issuer_from cfgs) cs' trusted') ∧ Forall (pending_from cfgs) pending'.
Proof.
  revert trusted pending cs. induction raws as [|raw raws IH]; intros trusted pending cs Hin Ht Hp; simpl.
  { intros [= <- <-]. eauto. }
  destruct (issuer_validate raw) as [u|] eqn:Ev; [|done]. apply issuer_validate_ok in Ev.
  destruct (needs_async (tc_decoding_key raw)).
  - apply (IH _ _ cs); [set_solver|done|]. apply Forall_app_2; [done|].
    repeat constructor; [set_solver|done].
  - destruct (issuer_build raw) as [i|] eqn:Ei; [|done]. apply (IH _ _ (cs ++ [raw])); [set_solver| |done].
    apply Forall2_app; [done|]. repeat constructor; [set_solver|done|]. by apply issuer_build_from.
Qed.

Lemma init_issuer_from net cfgs (l : list (TrustedIssuerConfig A)) issuers tasks cs issuers' tasks' :
  Forall (pending_from cfgs) l → Forall2 (issuer_from cfgs) cs issuers →
  Forall (λ t, ∃ c, cs !! t.1 = Some c ∧ tc_decoding_key c = t.2) tasks →
  foldl (init_issuer net) (issuers, tasks) l = (issuers', tasks') →
  ∃ cs', Forall2 (issuer_from cfgs) cs' issuers' ∧
         Forall (λ t, ∃ c, cs' !! t.1 = Some c ∧ tc_decoding_key c = t.2) tasks'.
Proof.
  revert issuers tasks cs. induction l as [|c l IH]; intros issuers tasks cs Hl Hi Ht; simpl.
  { intros [= <- <-]. eauto. }
  apply Forall_cons in Hl as [[Hc Ha] Hl]. pose proof (Forall2_length _ _ _ Hi) as Hlen.
  apply (IH _ _ (cs ++ [c])); [done| |].
  - apply Forall2_app; [done|]. repeat constructor; [done|done|].
    unfold issuer_build_async, result_bind.
    destruct (issuer_validate c); [|exists keystore_empty; split; [done|by left]].
    destruct (source_build_async net (tc_decoding_key c)) as [store|] eqn:E; simpl.
    + exists store. split; [done|right; eauto].
    + exists keystore_empty. split; [done|by left].
  - assert (Forall (λ t, ∃ c', (cs ++ [c]) !! t.1 = Some c' ∧ tc_decoding_key c' = t.2) tasks) as Hmono.
    { eapply Forall_impl; [exact Ht|]. intros t (c' & Hl' & He). exists c'. split; [|done].
      by apply lookup_app_l_Some. }
    destruct (refresh_interval _); [|done]. apply Forall_app_2; [done|]. repeat constructor.
    exists c. simpl. rewrite <- Hlen. by rewrite lookup_app_r, Nat.sub_diag.
Qed.

Lemma jwt_step_from cfgs self self' :
  jwt_step self self' → resolver_from cfgs self → resolver_from cfgs self'.
Proof.
  intros [net r|net r task secs Htask _ _] (cs & Hi & Hp & Ht).
  - unfold jwt_initialize. destruct (is_nil _); [by exists cs|].
    destruct (foldl _ _ _) as [issuers tasks] eqn:E.
    eapply init_issuer_from in E as (cs' & ? & ?); [|done..]. by exists cs'.
  - unfold jwt_refresh. destruct (source_build_async net task.2) as [store|] eqn:E; [|by exists cs].
    exists cs. split_and!; [|done|done]. simpl.
    rewrite Forall_forall in Ht. destruct (Ht _ Htask) as (c & Hc & Hsrc).
    apply Forall2_alter_r; [done|]. intros c' i Hc' _ (Hin & Ha & st & -> & _). simplify_eq.
    split_and!; [done|done|]. exists store. split; [done|]. right. exists net. by rewrite Hsrc.
Qed.

(** Every key store of a reachable resolver is accounted for by an entry of its
    configuration. *)
Lemma reachable_from cfg self typed v :
  pcf_config cfg = Some v → jwt_config_from_value v = Ok typed →
  jwt_reachable cfg self → resolver_from (jc_trusted_issuers typed) self.
Proof.
  intros Hv Ht (r0 & Hnew & Hsteps).
  assert (resolver_from (jc_trusted_issuers typed) r0) as H0.
  { revert Hnew. unfold jwt_new. rewrite Hv, Ht. destruct (is_nil _); [done|].
    destruct (partition_issuers _ _ _ _) as [[trusted pending]|] eqn:E; simpl; [|done].
    eapply (partition_from _ (jc_trusted_issuers typed) _ _ _ _ _ []) in E as [[cs Hcs] Hp];
      [|done|constructor|constructor].
    intros Hr. exists cs. destruct (negb _); [done|]. destruct (jc_role typed); [..|done]; destruct (String.eqb _ _); by simplify_eq. }
  clear Hnew. induction Hsteps; eauto using jwt_step_from.
Qed.

End Provenance.

(** ** What a resolver accepts *)

Section Acceptance.
Context {A K J : Type} `{keys : KeyLib K J} `{serde : JwtSerde A} `{jwt : JwtLib A K} `{!JsonText}.
Implicit Types self : JwtIdentityResolver A K.

(** A plaintext JWKS endpoint is fetched only on request. *)
Definition transport_ok (src : DecodingKeySource) : Prop :=
  match src with
  | JwksUrl url insecure_http _ =>
      starts_with "http://" (to_ascii_lowercase (trim_start url)) = true → insecure_http = true
  | _ => True
  end.

Lemma https_not_http s : starts_with "https://" s = true → starts_with "http://" s = false.
Proof.
  unfold starts_with. destruct (strip_prefix "https://" s) as [r|] eqn:E; [|done].
  by apply strip_prefix_spec in E as ->.
Qed.

Lemma build_async_transport net src (store : KeyStore K) :
  source_build_async net src = Ok store → transport_ok src.
Proof.
  destruct src as [| | |url insecure secs|]; simpl; try done.
  unfold require_https. destruct (starts_with "https://" _) eqn:E; simpl.
  - intros _ Hp. apply https_not_http in E. congruence.
  - destruct (starts_with "http://" _), insecure; done.
Qed.

(** A non-empty store comes from a build of the source. *)
Lemma store_of_built (c : TrustedIssuerConfig A) (store : KeyStore K) :
  store_of c store → keystore_is_empty store = false →
  ∃ net, source_build_async net (tc_decoding_key c) = Ok store.
Proof. by intros [->|?]. Qed.

Lemma reachable_issuer cfg v typed self i :
  pcf_config cfg = Some v → jwt_config_from_value v = Ok typed → jwt_reachable cfg self →
  i ∈ jr_trusted_issuers self → ∃ c, issuer_from (jc_trusted_issuers typed) c i.
Proof.
  intros Hv Ht Hr Hi. destruct (reachable_from _ _ _ _ Hv Ht Hr) as (cs & Hcs & _).
  apply list_elem_of_lookup_1 in Hi as [n Hn].
  destruct (Forall2_lookup_r _ _ _ _ _ Hcs Hn) as (c & _ & ?). eauto.
Qed.

Lemma find_issuer (issuers : list (TrustedIssuer A K)) iss i :
  find (λ i, String.eqb (ti_issuer i) iss) issuers = Some i → i ∈ issuers ∧ ti_issuer i = iss.
Proof. intros [Hi He]%find_some. apply String.eqb_eq in He. by rewrite list_elem_of_In. Qed.

Lemma fill_slot_codes self payload claims e :
  fill_slot self payload claims = Err e → starts_with "auth." e.1 = true.
Proof. unfold fill_slot. split_matches; by intros [= <-]. Qed.

(** What the validated claims and the chosen role leave on the payload. *)
Definition slot_only (r : TokenRole) (p p' : IdentityPayload) : Prop :=
  (r ≠ RoleUser → ip_subject p' = ip_subject p) ∧ (r ≠ RoleClient → ip_client p' = ip_client p) ∧
  (r ≠ RoleCallerWorkload → ip_caller_workload p' = ip_caller_workload p) ∧
  ip_raw_token p' = ip_raw_token p ∧ ip_headers p' = ip_headers p ∧ ip_delegation p' = ip_delegation p.

Lemma fill_slot_only self p claims p' : fill_slot self p claims = Ok p' → slot_only (jr_role self) p p' ∧
  ip_raw_credentials p' = ip_raw_credentials p.
Proof. unfold fill_slot, slot_only. split_matches; intros [= <-]; by split_and!. Qed.

(** C12: an identity is accepted only under a key that the configuration of the
    token's own issuer yields.  In every state a resolver reaches, through its
    concurrent start-up fetches, the failures they leave behind and any sequence
    of refreshes, a modified payload means: the token names an issuer of the
    configuration, the key its [kid] selects is in a store built from that entry's
    own source over an acceptable transport, and the signature was checked under
    that entry's issuer, algorithms and audiences with expiry on.  The payload
    then differs from the request's in the slot of the configured role alone,
    beside the stored token, the claims and the time. *)
Theorem jwt_accepts_only_configured cfg v typed self payload now res p' :
  pcf_config cfg = Some v → jwt_config_from_value v = Ok typed → jwt_reachable cfg self →
  handle self payload now = Some res → ef_modified_payload res = Some p' →
  ∃ token c net store kid key vd claims,
    (c ∈ jc_trusted_issuers typed ∧ request_token self payload = Some token ∧
     peek_issuer token = Some (tc_issuer c)) ∧
    (source_build_async net (tc_decoding_key c) = Ok store ∧ transport_ok (tc_decoding_key c) ∧
     decode_header token = Ok kid ∧ select store kid = Some key) ∧
    (jwt_decode token key vd now = Ok claims ∧ vd_iss vd = Some (tc_issuer c) ∧
     vd_algorithms vd = tc_algorithms c ∧ vd_validate_exp vd = true ∧
     (tc_audiences c ≠ [] → vd_validate_aud vd = true ∧ vd_aud vd = Some (tc_audiences c))) ∧
    slot_only (jr_role self) payload p' ∧ ip_raw_claims p' = claims ∧ ip_resolved_at p' = Some now ∧
    it_token <$> (ip_raw_credentials p' ≫= λ r, rc_inbound_tokens r !! jr_role self) = Some token.
Proof.
  intros Hv Ht Hr. unfold handle. destruct (request_token self payload) as [token|]; [|by intros [= <-]].
  destruct (String.eqb token _); [by intros [= <-]|].
  destruct (peek_issuer token) as [iss|] eqn:Hiss; [|by intros [= <-]].
  destruct (find _ _) as [i|] eqn:Hfind; [|by intros [= <-]].
  apply find_issuer in Hfind as [Hin <-].
  destruct (reachable_issuer _ _ _ _ _ Hv Ht Hr Hin) as (c & Hc & Halg & store & -> & Hstore).
  unfold validate_token. destruct (decode_header token) as [kid|e] eqn:Hkid;
    [|simpl; destruct (classify_jwt_error e); by intros [= <-]].
  simpl. destruct (keystore_is_empty store) eqn:Hempty; [by intros [= <-]|].
  destruct (select store kid) as [key|] eqn:Hkey; [|by intros [= <-]].
  unfold issuer_validation; simpl. destruct (tc_algorithms c) as [|primary algs] eqn:Ealg; [done|]. simpl.
  destruct (jwt_decode _ _ _ _) as [claims|e] eqn:Hdec; [|destruct (classify_jwt_error e); by intros [= <-]].
  destruct (fill_slot self payload claims) as [p1|[code reason]] eqn:Hfill; [|by intros [= <-]].
  apply fill_slot_only in Hfill as [Hslot Hcreds]. intros [= <-] [= <-].
  destruct (store_of_built _ _ Hstore Hempty) as [net Hnet].
  eexists token, c, net, store, kid, key, _, claims.
  split; [done|]. split; [split_and!; eauto using build_async_transport|].
  split; [split; [exact Hdec|]|]; simpl.
  - split_and!; [done..|]. intros Haud. by destruct (tc_audiences c).
  - destruct Hslot as (?&?&?&?&?&?). split_and!; [by split_and!|done|done|by rewrite lookup_insert_eq].
Qed.

Ltac solve_denied := eexists; split; [done|right; do 2 eexists; by split].

(** The resolver never panics and never answers twice: in every reachable
    state a request either gets a payload with no violation, or is denied with
    an [auth.] code and no payload. *)
Theorem jwt_answers cfg v typed self payload now :
  pcf_config cfg = Some v → jwt_config_from_value v = Ok typed → jwt_reachable cfg self →
  ∃ res, handle self payload now = Some res ∧
    ((∃ p', res = result_modify p') ∨
     (∃ code reason, res = result_deny code reason ∧ starts_with "auth." code = true)).
Proof.
  intros Hv Ht Hr. unfold handle.
  destruct (request_token self payload) as [token|]; [|solve_denied].
  destruct (String.eqb token _); [solve_denied|].
  destruct (peek_issuer token) as [iss|]; [|solve_denied].
  destruct (find _ _) as [i|] eqn:Hfind; [|solve_denied].
  apply find_issuer in Hfind as [Hin <-].
  destruct (reachable_issuer _ _ _ _ _ Hv Ht Hr Hin) as (c & _ & Halg & store & -> & _).
  unfold validate_token. destruct (decode_header token) as [kid|e]; simpl.
  2: { destruct e as [[] ?]; solve_denied. }
  destruct (keystore_is_empty store); [solve_denied|].
  destruct (select store kid) as [key|]; [|solve_denied].
  unfold issuer_validation; simpl. destruct (tc_algorithms c) as [|primary algs]; [done|]. simpl.
  destruct (jwt_decode _ _ _ _) as [claims|e];
    [|destruct e as [[] ?]; solve_denied].
  destruct (fill_slot self payload claims) as [p1|[code reason]] eqn:Hfill; [eauto|].
  apply fill_slot_codes in Hfill. cbn [fst] in Hfill. solve_denied.
Qed.

(** The first issuer of a name. *)
Definition first_issuer (issuers : list (TrustedIssuer A K)) (n : nat) (i : TrustedIssuer A K) : Prop :=
  issuers !! n = Some i ∧ ∀ m j, (m < n)%nat → issuers !! m = Some j → ti_issuer j ≠ ti_issuer i.

Lemma first_issuer_find issuers n i :
  first_issuer issuers n i → find (λ j, String.eqb (ti_issuer j) (ti_issuer i)) issuers = Some i.
Proof.
  revert n. induction issuers as [|j issuers IH]; intros n [Hn Hfirst]; [done|]. simpl.
  destruct n as [|n]; [injection Hn as ->; by rewrite String.eqb_refl|].
  destruct (String.eqb_spec (ti_issuer j) (ti_issuer i)) as [He|].
  - exfalso. apply (Hfirst 0%nat j); [lia|done|done].
  - apply (IH n). split; [done|]. intros m j' Hm Hj. apply (Hfirst (S m)); [lia|done].
Qed.

Lemma first_issuer_refreshed issuers n i store :
  first_issuer issuers n i →
  first_issuer (alter (λ j, with_keys j store) n issuers) n (with_keys i store).
Proof.
  intros [Hn Hfirst]. split; [by rewrite list_lookup_alter_eq, Hn|].
  intros m j Hm. rewrite list_lookup_alter_ne by lia. by apply Hfirst.
Qed.

Lemma collect_nonempty (l : list (string * K)) (m : gmap string K) :
  m ≠ ∅ → foldl (λ m p, <[p.1 := p.2]> m) m l ≠ ∅.
Proof. revert m. induction l as [|p l IH]; intros m Hm; [done|]. apply IH, insert_non_empty. Qed.

Lemma built_nonempty net src (store : KeyStore K) :
  source_build_async net src = Ok store → keystore_is_empty store = false.
Proof.
  assert (∀ key : K, keystore_is_empty (single_fallback key) = false) as Hs.
  { intros. unfold keystore_is_empty; simpl. by rewrite andb_false_r. }
  destruct src as [| | |url insecure secs|]; simpl; unfold source_build, result_bind;
    try (split_matches; by intros [= <-]).
  destruct (require_https _ _); [|done]. destruct (http_text _ _); [|done].
  destruct (map_err _ _); [|done]. destruct (jwks_entries _ _ _ _) as [[entries n] us].
  destruct entries as [|[kid key] entries]; [done|]. intros [= <-].
  unfold keystore_is_empty. simpl. rewrite andb_true_r. apply bool_decide_eq_false.
  apply collect_nonempty, insert_non_empty.
Qed.

(** A key the provider has withdrawn is refused from the next successful
    refresh on, however long it was accepted before: the refresh replaces the
    store, it does not merge into it, and no fallback key takes the place of the
    missing one. *)
Theorem withdrawn_key_refused net task self payload now token i store kid :
  first_issuer (jr_trusted_issuers self) task.1 i →
  source_build_async net task.2 = Ok store →
  request_token self payload = Some token → token ≠ EmptyString →
  peek_issuer token = Some (ti_issuer i) → decode_header token = Ok kid → select store kid = None →
  handle (jwt_refresh net task self) payload now
    = Some (result_deny "auth.unknown_kid" (unknown_kid_reason kid)).
Proof.
  intros Hi Hb Htok Hne Hiss Hkid Hsel. unfold jwt_refresh. rewrite Hb. unfold handle.
  change (request_token (with_issuers self _ _) payload) with (request_token self payload).
  rewrite Htok. apply String.eqb_neq in Hne. rewrite Hne, Hiss. simpl.
  apply (first_issuer_refreshed _ _ _ store), first_issuer_find in Hi. simpl in Hi. rewrite Hi.
  unfold validate_token. rewrite Hkid. simpl. by rewrite (built_nonempty _ _ _ Hb), Hsel.
Qed.

End Acceptance.

(** ** Witnesses *)

Module JwtDemo.

(** Tokens [kid.issuer.key]: the signature of a token is the key itself. *)
Definition part (n : nat) (token : string) : string := nth n (split_on "."%char token) EmptyString.

#[local] Instance tokens : JwtLib string string := {
  base64_decode s := Some s;
  json_from_slice s := Some (VObject {[ "iss" := VString s ]});
  decode_header t := Ok (if String.eqb (part 0 t) EmptyString then None else Some (part 0 t));
  jwt_decode t key vd now :=
    if String.eqb (part 2 t) key then Ok {[ "sub" := VString "alice"; "iss" := VString (part 1 t) ]}
    else Err (mkJwtError InvalidSignature "InvalidSignature")
}.
#[local] Instance jwks : KeyLib string (string * string) := {
  read_key_file _ := Err "no such file";
  from_secret s := s;
  from_rsa_pem s := Ok s;
  from_ec_pem s := Ok s;
  from_ed_pem s := Ok s;
  jwk_from_value _ := Err "no";
  from_jwk p := Ok p.2;
  jwks_from_str body := Ok [(body, "key-" +:+ body)];
  public_key_use _ := None;
  key_id p := Some p.1
}.
#[local] Instance text : JsonText := λ _, EmptyString.

Definition idp : TrustedIssuerConfig string :=
  mkIssuerConfig "idp" ["api"] ["RS256"] (JwksUrl "https://idp/keys" false 600) 0.
Definition typed : JwtIdentityResolverConfig string := mkJwtConfig [idp] RoleUser "X-User-Token" None.
#[local] Instance serde : JwtSerde string := λ _, Ok typed.
Definition cfg : PluginConfig :=
  mkPluginConfig "jwt" "identity/jwt" None None None [] Sequential 0 Fail ∅ [] [] (Some Null).

Definition up (kid : string) : Network := λ _, HttpBody kid.
Definition down : Network := λ _, SendFailed "unreachable".
Definition task : nat * DecodingKeySource := (0%nat, JwksUrl "https://idp/keys" false 600).
Definition pending : JwtIdentityResolver string string := mkResolver "jwt" [] [idp] RoleUser "X-User-Token" [].

Lemma new_ok : jwt_new cfg = Ok pending.
Proof. by vm_compute. Qed.

(** Started while the provider was down, then refreshed. *)
Definition booted := jwt_initialize down pending.
Definition recovered := jwt_refresh (up "k1") task booted.

Lemma booted_reachable : jwt_reachable cfg booted.
Proof. exists pending. split; [apply new_ok|]. apply rtc_once, step_initialize. Qed.

Lemma recovered_reachable : jwt_reachable cfg recovered.
Proof.
  exists pending. split; [apply new_ok|]. eapply rtc_l; [apply (step_initialize down)|]. apply rtc_once.
  apply (step_refresh _ _ _ 600); [|done|done]. vm_compute. left.
Qed.

Definition request (token : string) : IdentityPayload :=
  mkIdentity EmptyString Bearer None {[ "x-user-token" := "Bearer " +:+ token ]} None None None None None
    None None None ∅.

Definition accepted : option IdentityPayload :=
  handle recovered (request "k1.idp.key-k1") 5 ≫= ef_modified_payload.

Lemma accepts_witness : ∃ p', accepted = Some p' ∧ ip_resolved_at p' = Some 5%Z.
Proof.
  destruct accepted as [p'|] eqn:E; [|by vm_compute in E]. exists p'. split; [done|].
  apply bind_Some in E as (res & Hres & Hp).
  destruct (jwt_accepts_only_configured cfg Null typed recovered (request "k1.idp.key-k1") 5 res p'
    eq_refl eq_refl recovered_reachable Hres Hp) as (? & ? & ? & ? & ? & ? & ? & ? & _ & _ & _ & _ & _ & H & _).
  exact H.
Defined.

Lemma answers_witness : ∃ res, handle booted (request "k1.idp.key-k1") 5 = Some res.
Proof.
  destruct (jwt_answers cfg Null typed booted (request "k1.idp.key-k1") 5 eq_refl eq_refl booted_reachable)
    as (res & H & _). by exists res.
Defined.

Lemma withdrawn_witness :
  handle (jwt_refresh (up "k2") task recovered) (request "k1.idp.key-k1") 5
  = Some (result_deny "auth.unknown_kid" (unknown_kid_reason (Some "k1"))).
Proof.
  eapply (withdrawn_key_refused (up "k2") task recovered _ _ "k1.idp.key-k1" _ _ (Some "k1")).
  - split; [by vm_compute|]. intros m j Hm. simpl in Hm. lia.
  - by vm_compute.
  - by vm_compute.
  - done.
  - by vm_compute.
  - by vm_compute.
  - by vm_compute.
Defined.

(** Before the first successful fetch every token of the issuer is refused. *)
Example boot_unavailable :
  handle booted (request "k1.idp.key-k1") 5 = Some (result_deny "auth.jwks_unavailable" (unavailable_reason "idp")).
Proof. by vm_compute. Qed.

(** The pre-extracted token is used although the request has a header map that
    lacks the configured header. *)
Example missing_header_uses_raw_token :
  request_token recovered
    (mkIdentity "k1.idp.key-k1" Bearer None {[ "authorization" := "Basic x" ]} None None None None None None
       None None ∅)
  = Some "k1.idp.key-k1".
Proof. by vm_compute. Qed.

(** The validation of every issuer leaves [nbf] unchecked. *)
Example nbf_unchecked :
  vd_validate_nbf <$> issuer_validation (issuer_of idp (single_fallback "key")) = Some false.
Proof. by vm_compute. Qed.

(** A key given inline serves no token that names a [kid]. *)
Example inline_key_needs_no_kid : select (single_fallback "key") (Some "k1") = None.
Proof. done. Qed.

End JwtDemo.
