(* ===== verification/HostError.v ===== *)
(** * Errors of the Python host (cpex-hosts-python/src/error.rs)

    What can go wrong around a plugin in a subprocess, its stable code, its
    structured details, and its translation to the error of the framework. *)

From S2P Require Import Prelude RustStd F64 Json JsonMerge PluginTypes.

Local Open Scope string_scope.
Local Open Scope list_scope.

Definition STDERR_EXCERPT_BYTES : nat := 4096.

Record ProcessOutput := mkProcessOutput { po_exit_code : option Z; po_stderr : string }.

(** [while start < len && !is_char_boundary(start) { start += 1 }]: [n] bytes are
    left. *)
Fixpoint next_char_boundary (s : string) (start n : nat) : nat :=
  match n with
  | O => start
  | S n => if is_char_boundary s start then start else next_char_boundary s (S start) n
  end.

Definition stderr_excerpt (self : ProcessOutput) : string * bool :=
  let s := po_stderr self in
  let len := String.length s in
  if (len <=? STDERR_EXCERPT_BYTES)%nat then (s, false)
  else
    let start := next_char_boundary s (len - STDERR_EXCERPT_BYTES) STDERR_EXCERPT_BYTES in
    (String.substring start (len - start) s, true).

Definition describe (self : ProcessOutput) : string :=
  let status := match po_exit_code self with
                | Some code => "exited " +:+ show_Z code
                | None => "was killed by a signal"
                end in
  let excerpt := (stderr_excerpt self).1 in
  if String.eqb excerpt EmptyString then status else status +:+ ": " +:+ excerpt.

Definition json_int (z : Z) : Value := VNumber (if (0 <=? z)%Z then PosInt z else NegInt z).

Definition write_details (self : ProcessOutput) (details : gmap string Value) : gmap string Value :=
  let details := <["exit_code" := from_option json_int Null (po_exit_code self)]> details in
  let '(excerpt, truncated) := stderr_excerpt self in
  let details := <["stderr_excerpt" := VString excerpt]> details in
  if truncated then <["stderr_truncated" := VBool true]> details else details.

Inductive HostError :=
| HConfig (message : string)
| HVenvBuild (message : string)
| HVenvCommand (step context : string) (output : ProcessOutput)
| HWorkerStart (message : string)
| HWorkerDied (message : string)
| HTimeout (timeout_secs : Z)
| HTaskTooLarge (size limit : nat)
| HResponseTooLarge (size limit : nat)
| HWorkerError (message : string)
| HProtocol (message : string)
| HCredential (message : string).

Definition show_host_error (e : HostError) : string :=
  match e with
  | HConfig m => "configuration error: " +:+ m
  | HVenvBuild m => "venv build failed: " +:+ m
  | HVenvCommand step context output =>
      "venv build failed: `" +:+ step +:+ "` on " +:+ context +:+ " " +:+ describe output
  | HWorkerStart m => "worker failed to start: " +:+ m
  | HWorkerDied m => "worker process died: " +:+ m
  | HTimeout t => "worker did not respond within " +:+ show_Z t +:+ "s"
  | HTaskTooLarge size limit =>
      "serialized task is " +:+ show_nat size +:+ " bytes, over the " +:+ show_nat limit
        +:+ "-byte max_content_size"
  | HResponseTooLarge size limit =>
      "worker response frame is at least " +:+ show_nat size +:+ " bytes, over the " +:+ show_nat limit
        +:+ "-byte max_content_size; the frame was discarded rather than buffered"
  | HWorkerError m => "worker returned an error: " +:+ m
  | HProtocol m => "protocol error: " +:+ m
  | HCredential m => "credential error: " +:+ m
  end.

Definition host_error_code (e : HostError) : string :=
  match e with
  | HConfig _ => "config"
  | HVenvBuild _ | HVenvCommand _ _ _ => "venv_build_failed"
  | HWorkerStart _ => "worker_start_failed"
  | HWorkerDied _ => "worker_died"
  | HTimeout _ => "timeout"
  | HTaskTooLarge _ _ => "task_too_large"
  | HResponseTooLarge _ _ => "response_too_large"
  | HWorkerError _ => "worker_error"
  | HProtocol _ => "protocol_error"
  | HCredential _ => "credential_error"
  end.

Definition host_error_details (e : HostError) : gmap string Value :=
  match e with
  | HVenvCommand step _ output => write_details output {[ "step" := VString step ]}
  | HTimeout t => {[ "timeout_secs" := json_int t ]}
  | HTaskTooLarge size limit | HResponseTooLarge size limit =>
      {[ "size_bytes" := json_int (Z.of_nat size); "limit_bytes" := json_int (Z.of_nat limit) ]}
  | _ => ∅
  end.

(** [u64::saturating_mul]. *)
Definition saturating_mul (a b : Z) : Z := Z.min (2 ^ 64 - 1) (a * b).

Definition into_plugin_error (e : HostError) (plugin_name : string) : PluginError :=
  match e with
  | HTimeout t => ErrTimeout plugin_name (saturating_mul t 1000) None
  | HConfig m => ErrConfig ("plugin '" +:+ plugin_name +:+ "' (isolated_venv): " +:+ m)
  | other =>
      ErrExecution plugin_name (show_host_error other) (Some (host_error_code other))
        (host_error_details other) None
  end.

(** ** The excerpt of a log is its tail, within the limit *)

Lemma next_char_boundary_range s start n :
  (start ≤ next_char_boundary s start n ≤ start + n)%nat.
Proof.
  revert start. induction n as [|n IH]; intros start; simpl; [lia|].
  destruct (is_char_boundary s start); [lia|]. specialize (IH (S start)). lia.
Qed.

Lemma next_char_boundary_at s start n :
  is_char_boundary s (start + n) = true → is_char_boundary s (next_char_boundary s start n) = true.
Proof.
  revert start. induction n as [|n IH]; intros start Hend; simpl; [by rewrite Nat.add_0_r in Hend|].
  destruct (is_char_boundary s start) eqn:E; [done|]. apply IH. by rewrite Nat.add_succ_comm.
Qed.

Lemma substring_all s : String.substring 0 (String.length s) s = s.
Proof. induction s as [|c s IH]; simpl; [done|by rewrite IH]. Qed.

Lemma substring_split s i :
  (i ≤ String.length s)%nat →
  String.substring 0 i s +:+ String.substring i (String.length s - i) s = s.
Proof.
  revert i. induction s as [|c s IH]; intros [|i] Hi; simpl in *; [done|lia| |].
  - by rewrite substring_all.
  - change (String c (String.substring 0 i s +:+ String.substring i (String.length s - i) s) = String c s).
    f_equal. apply IH. lia.
Qed.

Lemma substring_le s i k : (String.length (String.substring i k s) ≤ k)%nat.
Proof.
  revert i k. induction s as [|c s IH]; intros [|i] [|k]; simpl; try lia; [|apply IH..].
  specialize (IH 0%nat k). lia.
Qed.

Lemma is_char_boundary_end s : is_char_boundary s (String.length s) = true.
Proof.
  unfold is_char_boundary. assert (String.get (String.length s) s = None) as ->.
  { induction s; done. }
  by rewrite Nat.eqb_refl.
Qed.

(** The excerpt of a failed command is the end of what it wrote, cut at a
    character boundary and never more than the limit; it is marked exactly when
    something was cut. *)
Theorem excerpt_is_tail o excerpt truncated :
  stderr_excerpt o = (excerpt, truncated) →
  (String.length excerpt ≤ STDERR_EXCERPT_BYTES)%nat ∧
  (∃ before, po_stderr o = before +:+ excerpt ∧ (truncated = false ↔ before = EmptyString) ∧
             is_char_boundary (po_stderr o) (String.length before) = true).
Proof.
  unfold stderr_excerpt. generalize STDERR_EXCERPT_BYTES as lim. intros lim. destruct (_ <=? _)%nat eqn:E.
  { intros [= <- <-]. apply Nat.leb_le in E. split; [done|]. exists EmptyString.
    split_and!; [done|done|]. unfold is_char_boundary. simpl. by destruct (po_stderr o). }
  apply Nat.leb_gt in E. intros [= <- <-].
  set (s := po_stderr o) in *. set (len := String.length s) in *.
  pose proof (next_char_boundary_range s (len - lim) lim) as Hr.
  pose proof (next_char_boundary_at s (len - lim) lim) as Hb.
  set (start := next_char_boundary _ _ _) in *.
  assert (start ≤ len)%nat as Hle by lia. pose proof (substring_split s start Hle) as Hs.
  assert (String.length (String.substring 0 start s) = start) as Hlen.
  { pose proof (substring_length s start). pose proof (f_equal String.length Hs) as Hl.
    rewrite string_app_length in Hl. fold len in Hl.
    pose proof (substring_le s start (len - start)). lia. }
  split.
  { pose proof (f_equal String.length Hs) as Hl. rewrite string_app_length in Hl.
    fold len in Hl. lia. }
  exists (String.substring 0 start s). split_and!; [done| |].
  - split; [done|]. intros H0. rewrite H0 in Hlen. simpl in Hlen. lia.
  - rewrite Hlen. apply Hb. replace (len - lim + lim)%nat with len by lia.
    apply is_char_boundary_end.
Qed.

(** The class of a failure survives the translation: only timeouts become
    timeouts and only configuration faults become configuration errors, so the
    error policy of the executor applies to every other failure. *)
Theorem plugin_error_class e name :
  match into_plugin_error e name with
  | ErrTimeout n _ _ => n = name ∧ ∃ t, e = HTimeout t
  | ErrConfig _ => ∃ m, e = HConfig m
  | ErrExecution n m c _ _ => n = name ∧ m = show_host_error e ∧ c = Some (host_error_code e)
  | _ => False
  end.
Proof. destruct e; simpl; eauto. Qed.
