(* ===== verification/HostWire.v ===== *)
(** * The wire of the Python host (cpex-hosts-python/src)

    Which payload a hook carries and how an answer becomes a result
    (conversion.rs), which token a task carries (credentials.rs), and how
    extensions go to a worker and come back (extensions.rs).  Serde of the
    payloads and of the extension structs, and the iteration order of the token
    maps, are parameters. *)

From S2P Require Import Prelude RustStd F64 Json JsonMerge ExtData Extensions PluginTypes Executor.
From S2P Require Import HostError.

Local Open Scope string_scope.
Local Open Scope list_scope.

(** ** Payloads and results (conversion.rs) *)

Definition CMF_PREFIX : string := "cmf.".

Inductive PayloadKind :=
| CmfMessage | ToolPreInvoke | ToolPostInvoke | PromptPreFetch | PromptPostFetch
| ResourcePreFetch | ResourcePostFetch | IdentityResolve | TokenDelegate | Generic.

Definition payload_kind_for_hook (hook_name : string) : PayloadKind :=
  if starts_with CMF_PREFIX hook_name then CmfMessage
  else if String.eqb hook_name "tool_pre_invoke" then ToolPreInvoke
  else if String.eqb hook_name "tool_post_invoke" then ToolPostInvoke
  else if String.eqb hook_name "prompt_pre_fetch" then PromptPreFetch
  else if String.eqb hook_name "prompt_post_fetch" then PromptPostFetch
  else if String.eqb hook_name "resource_pre_fetch" then ResourcePreFetch
  else if String.eqb hook_name "resource_post_fetch" then ResourcePostFetch
  else if String.eqb hook_name "identity_resolve" then IdentityResolve
  else if String.eqb hook_name "token_delegate" then TokenDelegate
  else Generic.

Definition is_credential_hook (hook_name : string) : bool :=
  match payload_kind_for_hook hook_name with IdentityResolve | TokenDelegate => true | _ => false end.

(** The erased payloads: the typed ones with their serde, by the name of the
    type, and the wrapper of any JSON value. *)
Class PayloadCodec (Pay : Type) := {
  typed_to_json : Pay → option (string * Result Value string);
  generic_value : Pay → option Value;
  typed_from_json : PayloadKind → Value → Result Pay string;
  generic_payload : Value → Pay
}.

Section Conversion.
Context {Pay : Type} `{codec : PayloadCodec Pay}.

Definition serialize_payload (payload : Pay) : Result Value HostError :=
  match typed_to_json payload with
  | Some (_, Ok v) => Ok v
  | Some (ty, Err e) => Err (HProtocol ("could not serialize a " +:+ ty +:+ " payload: " +:+ e))
  | None =>
      match generic_value payload with
      | Some v => Ok v
      | None =>
          Err (HProtocol ("payload type is not one this host can forward to a Python worker (expected a "
                            +:+ "CMF message payload, a legacy typed payload, or the generic payload)"))
      end
  end.

Definition deserialize_payload (hook_name : string) (value : Value) : Result Pay HostError :=
  match payload_kind_for_hook hook_name with
  | Generic => Ok (generic_payload value)
  | kind =>
      match typed_from_json kind value with
      | Ok p => Ok p
      | Err e =>
          Err (HProtocol ("worker returned a modified payload that does not match hook '"
                            +:+ hook_name +:+ "': " +:+ e))
      end
  end.

End Conversion.

Definition get_str_or_empty (m : gmap string Value) (key : string) : string :=
  default EmptyString (m !! key ≫= as_str).

(** [Value::as_i64]. *)
Definition value_as_i64 (v : Value) : option Z :=
  match v with VNumber n => number_as_i64 n | _ => None end.

Definition parse_violation (raw : Value) : Result PluginViolation HostError :=
  match raw with
  | VObject obj =>
      Ok (mkViolation (get_str_or_empty obj "code") (get_str_or_empty obj "reason")
            (obj !! "description" ≫= as_str)
            (match obj !! "details" with Some (VObject details) => details | _ => ∅ end) None
            (match obj !! "mcp_error_code" with
             | Some v => value_as_i64 v
             | None => obj !! "proto_error_code" ≫= value_as_i64
             end))
  | _ => Err (HProtocol "worker returned a violation that is not a JSON object")
  end.

(** ** Credentials (credentials.rs) *)

Definition CREDENTIAL_FIELD : string := "credential".
Definition CAP_READ_INBOUND : string := "read_inbound_credentials".
Definition CAP_READ_DELEGATED : string := "read_delegated_tokens".

Record InboundCredential := mkInboundCred {
  ic_token : string;
  ic_source_header : string;
  ic_kind : string;
  ic_headers : option (gmap string string)
}.

Record DelegatedCredential := mkDelegatedCred {
  dc_token : string;
  dc_outbound_header : string;
  dc_audience : string;
  dc_scopes : list string
}.

Record CredentialDto := mkDto {
  cd_inbound : option InboundCredential;
  cd_delegated : option DelegatedCredential
}.

Definition put_opt {A} (key : string) (json : A → Value) (o : option A) (m : gmap string Value) :
    gmap string Value :=
  match o with Some a => <[key := json a]> m | None => m end.

(** The derived serialization of the three structs. *)
Definition inbound_json (c : InboundCredential) : Value :=
  VObject (put_opt "headers" (λ h, VObject (VString <$> h)) (ic_headers c)
    {[ "token" := VString (ic_token c); "source_header" := VString (ic_source_header c);
       "kind" := VString (ic_kind c) ]}).
Definition delegated_json (c : DelegatedCredential) : Value :=
  VObject {[ "token" := VString (dc_token c); "outbound_header" := VString (dc_outbound_header c);
             "audience" := VString (dc_audience c); "scopes" := VArray (VString <$> dc_scopes c) ]}.
Definition dto_json (d : CredentialDto) : Value :=
  VObject (put_opt "inbound" inbound_json (cd_inbound d)
             (put_opt "delegated" delegated_json (cd_delegated d) ∅)).

Definition token_kind_wire_name (kind : TokenKind) : string :=
  match kind with
  | KindJwt => "jwt" | KindOpaque => "opaque" | KindSpiffeJwt => "spiffe_jwt"
  | KindUcan => "ucan" | KindTxnToken => "txn_token"
  end.

(** The iteration order of the two token maps. *)
Class TokenOrder := {
  inbound_values : gmap TokenRole RawInboundToken → list RawInboundToken;
  delegated_iter : gmap DelegationKey RawDelegatedToken → list (DelegationKey * RawDelegatedToken);
  inbound_values_perm m : inbound_values m ≡ₚ (map_to_list m).*2;
  delegated_iter_perm m : delegated_iter m ≡ₚ map_to_list m
}.

Definition mode_rank (mode : DelegationMode) : nat :=
  match mode with OnBehalfOfUser => 0 | AsThisWorkload => 1 | _ => 2 end.

(** [Ord] on [Vec<String>] and [Ordering::then_with]. *)
Definition then_with (a b : comparison) : comparison := match a with Eq => b | c => c end.
Fixpoint compare_strings (a b : list string) : comparison :=
  match a, b with
  | [], [] => Eq
  | [], _ :: _ => Lt
  | _ :: _, [] => Gt
  | x :: a, y :: b => then_with (String.compare x y) (compare_strings a b)
  end.

Definition compare_keys (l r : DelegationKey) : comparison :=
  then_with (then_with (Nat.compare (mode_rank (dk_mode l)) (mode_rank (dk_mode r)))
                       (String.compare (dk_subject_id l) (dk_subject_id r)))
            (compare_strings (dk_scopes l) (dk_scopes r)).

(** [slice::sort_by], which is stable: an element goes before the first one it
    is less than or equal to, working from the end of the list. *)
Fixpoint insert_by {A} (cmp : A → A → comparison) (x : A) (l : list A) : list A :=
  match l with
  | [] => [x]
  | y :: l => match cmp x y with Gt => y :: insert_by cmp x l | _ => x :: y :: l end
  end.
Definition sort_by {A} (cmp : A → A → comparison) (l : list A) : list A :=
  foldr (insert_by cmp) [] l.

Definition is_blank (s : string) : bool := String.eqb (trim s) EmptyString.

Definition inbound_from_token (token : RawInboundToken) (hook_name : string) :
    Result InboundCredential HostError :=
  if is_blank (it_token token) then
    Err (HCredential ("the inbound token for hook '" +:+ hook_name +:+ "' is empty — refusing to send an "
           +:+ "empty credential (an empty bearer authenticates nowhere, and a plugin may read it as "
           +:+ "'no authentication required')"))
  else
    Ok (mkInboundCred (it_token token) (it_source_header token) (token_kind_wire_name (it_kind token))
          (Some {[ it_source_header token := it_token token ]})).

Definition delegated_from_token (token : RawDelegatedToken) (hook_name : string) :
    Result DelegatedCredential HostError :=
  if is_blank (dt_token token) then
    Err (HCredential ("the delegated token for hook '" +:+ hook_name
           +:+ "' is empty — refusing to send an empty credential"))
  else Ok (mkDelegatedCred (dt_token token) (dt_outbound_header token) (dt_audience token) (dt_scopes token)).

Definition no_raw_credentials (cap hook_name : string) : HostError :=
  HCredential ("plugin declared '" +:+ cap +:+ "' for hook '" +:+ hook_name
    +:+ "' but the request carries no raw-credentials extension — refusing to dispatch without the token "
    +:+ "it asked for").

Section Credentials.
Context `{order : TokenOrder}.

(** The user's token, then the client's, then the workload's, then any. *)
Definition pick_inbound (tokens : gmap TokenRole RawInboundToken) : option RawInboundToken :=
  match tokens !! RoleUser with
  | Some t => Some t
  | None =>
      match tokens !! RoleClient with
      | Some t => Some t
      | None =>
          match tokens !! RoleCallerWorkload with
          | Some t => Some t
          | None => head (inbound_values tokens)
          end
      end
  end.

Definition build_inbound (extensions : Extensions) (hook_name : string) : Result InboundCredential HostError :=
  match x_raw_credentials extensions with
  | None => Err (no_raw_credentials CAP_READ_INBOUND hook_name)
  | Some raw =>
      match pick_inbound (rc_inbound_tokens raw) with
      | None =>
          Err (HCredential ("plugin declared '" +:+ CAP_READ_INBOUND +:+ "' for hook '" +:+ hook_name
                 +:+ "' but no inbound token is present — refusing to dispatch without it"))
      | Some token => inbound_from_token token hook_name
      end
  end.

Definition requested_audience (task : Value) : option string :=
  payload ← value_get task "payload"; audience ← value_get payload "target_audience"; as_str audience.

Definition audience_matches (requested : option string) (p : DelegationKey * RawDelegatedToken) : bool :=
  match requested with
  | Some audience => String.eqb (dk_audience p.1) audience && String.eqb (dt_audience p.2) audience
  | None => true
  end.

Definition build_delegated (extensions : Extensions) (hook_name : string) (requested : option string) :
    Result DelegatedCredential HostError :=
  match x_raw_credentials extensions with
  | None => Err (no_raw_credentials CAP_READ_DELEGATED hook_name)
  | Some raw =>
      let candidates := List.filter (audience_matches requested) (delegated_iter (rc_delegated_tokens raw)) in
      match head (sort_by (λ l r, compare_keys l.1 r.1) candidates) with
      | None =>
          let scope := match requested with
                       | Some audience => " for audience '" +:+ audience +:+ "'"
                       | None => EmptyString
                       end in
          Err (HCredential ("plugin declared '" +:+ CAP_READ_DELEGATED +:+ "' for hook '" +:+ hook_name
                 +:+ "' but no delegated token" +:+ scope +:+ " is present — refusing to dispatch without "
                 +:+ "it, and refusing to substitute a token minted for a different audience"))
      | Some (_, token) => delegated_from_token token hook_name
      end
  end.

(** The DTO of a hook, or [None] where the task carries none. *)
Definition credential_for (task : Value) (hook_name : string) (extensions : Extensions)
    (capabilities : gset string) : Result (option CredentialDto) HostError :=
  match payload_kind_for_hook hook_name with
  | IdentityResolve =>
      if negb (bool_decide (CAP_READ_INBOUND ∈ capabilities)) then Ok None
      else
        let? inbound := build_inbound extensions hook_name in
        Ok (Some (mkDto (Some inbound) None))
  | TokenDelegate =>
      if negb (bool_decide (CAP_READ_DELEGATED ∈ capabilities)) then Ok None
      else
        let? delegated := build_delegated extensions hook_name (requested_audience task) in
        Ok (Some (mkDto None (Some delegated)))
  | _ => Ok None
  end.

Definition attach_credential (task : Value) (hook_name : string) (extensions : Extensions)
    (capabilities : gset string) : Result Value HostError :=
  let? dto := credential_for task hook_name extensions capabilities in
  match dto with
  | None => Ok task
  | Some dto =>
      match task with
      | VObject object => Ok (VObject (<[CREDENTIAL_FIELD := dto_json dto]> object))
      | _ => Err (HProtocol "task must be a JSON object to carry a credential")
      end
  end.

End Credentials.

(** ** Extensions (extensions.rs) *)

Definition EXTENSIONS_FIELD : string := "extensions".
Definition MODIFIED_EXTENSIONS_FIELD : string := "modified_extensions".
Definition SENSITIVE_HEADERS : list string := ["authorization"; "cookie"; "set-cookie"; "x-api-key"].

Definition is_sensitive (name : string) : bool := existsb (eq_ignore_ascii_case name) SENSITIVE_HEADERS.

Definition strip_sensitive (headers : gmap string string) : gmap string string :=
  filter (λ p, is_sensitive p.1 = false) headers.

Definition sanitize_http (http : HttpExtension) : HttpExtension :=
  mkHttp (strip_sensitive (ht_request_headers http)) (strip_sensitive (ht_response_headers http))
    (ht_method http) (ht_path http) (ht_host http) (ht_scheme http).

Definition returned_http (returned : HttpExtension) (inbound : option HttpExtension) : HttpExtension :=
  mkHttp (strip_sensitive (ht_request_headers returned)) (strip_sensitive (ht_response_headers returned))
    (inbound ≫= ht_method) (inbound ≫= ht_path) (inbound ≫= ht_host) (inbound ≫= ht_scheme).

(** Serde of the extension structs. *)
Class ExtSerde := {
  request_to_json : RequestExtension → Result Value string;
  agent_to_json : AgentExtension → Result Value string;
  http_to_json : HttpExtension → Result Value string;
  security_to_json : SecurityExtension → Result Value string;
  delegation_to_json : DelegationExtension → Result Value string;
  mcp_to_json : MCPExtension → Result Value string;
  completion_to_json : CompletionExtension → Result Value string;
  provenance_to_json : ProvenanceExtension → Result Value string;
  llm_to_json : LLMExtension → Result Value string;
  framework_to_json : FrameworkExtension → Result Value string;
  meta_to_json : MetaExtension → Result Value string;
  http_of_json : Value → Result HttpExtension string;
  security_of_json : Value → Result SecurityExtension string;
  delegation_of_json : Value → Result DelegationExtension string;
  custom_of_json : Value → Result (gmap string Value) string
}.

Section Wire.
Context `{serde : ExtSerde}.

(** [if let Some(x) = &extensions.key { put(key, to_value(x))? }]. *)
Definition put_slot {T} (key : string) (to_value : T → Result Value string) (slot : option T)
    (map : gmap string Value) : Result (gmap string Value) HostError :=
  match slot with
  | None => Ok map
  | Some x =>
      match to_value x with
      | Ok value => Ok (<[key := value]> map)
      | Err e => Err (HProtocol ("could not serialize the '" +:+ key +:+ "' extension for the worker: " +:+ e))
      end
  end.

Definition to_wire (extensions : Extensions) : Result Value HostError :=
  let? m := put_slot "request" request_to_json (arc_val <$> x_request extensions) ∅ in
  let? m := put_slot "agent" agent_to_json (arc_val <$> x_agent extensions) m in
  let? m := put_slot "http" (λ http, http_to_json (sanitize_http http)) (x_http extensions) m in
  let? m := put_slot "security" security_to_json (x_security extensions) m in
  let? m := put_slot "delegation" delegation_to_json (x_delegation extensions) m in
  let? m := put_slot "mcp" mcp_to_json (arc_val <$> x_mcp extensions) m in
  let? m := put_slot "completion" completion_to_json (arc_val <$> x_completion extensions) m in
  let? m := put_slot "provenance" provenance_to_json (arc_val <$> x_provenance extensions) m in
  let? m := put_slot "llm" llm_to_json (arc_val <$> x_llm extensions) m in
  let? m := put_slot "framework" framework_to_json (arc_val <$> x_framework extensions) m in
  let? m := put_slot "meta" meta_to_json (arc_val <$> x_meta extensions) m in
  let? m := put_slot "custom" (λ c, Ok (VObject c)) (x_custom extensions) m in
  Ok (VObject m).

Definition object_is_empty (v : Value) : bool :=
  match v with VObject m => bool_decide (m = ∅) | _ => true end.

Definition attach_extensions (task : Value) (extensions : Extensions) : Result Value HostError :=
  let? wire := to_wire extensions in
  if object_is_empty wire then Ok task
  else
    match task with
    | VObject object => Ok (VObject (<[EXTENSIONS_FIELD := wire]> object))
    | _ => Err (HProtocol "task must be a JSON object to carry extensions")
    end.

(** [slot]: an absent or null key is no value. *)
Definition read_slot {T} (of_value : Value → Result T string) (object : gmap string Value) (key : string) :
    Result (option T) HostError :=
  match object !! key with
  | None | Some Null => Ok None
  | Some value =>
      match of_value value with
      | Ok t => Ok (Some t)
      | Err e =>
          Err (HProtocol ("could not deserialize the '" +:+ key
                            +:+ "' extension returned by the worker: " +:+ e))
      end
  end.

(** The copy a plugin returns, with one slot replaced. *)
Definition with_http (o : OwnedExtensions) (h : HttpExtension) : OwnedExtensions :=
  mkOwned (o_request o) (o_agent o) (o_mcp o) (o_completion o) (o_provenance o) (o_llm o) (o_framework o)
    (o_meta o) (o_raw_credentials o) (Some (guarded_new h)) (o_security o) (o_candidate_constraint o)
    (o_delegation o) (o_custom o) (o_http_write_token o) (o_labels_write_token o) (o_delegation_write_token o).
Definition with_security (o : OwnedExtensions) (s : SecurityExtension) : OwnedExtensions :=
  mkOwned (o_request o) (o_agent o) (o_mcp o) (o_completion o) (o_provenance o) (o_llm o) (o_framework o)
    (o_meta o) (o_raw_credentials o) (o_http o) (Some s) (o_candidate_constraint o)
    (o_delegation o) (o_custom o) (o_http_write_token o) (o_labels_write_token o) (o_delegation_write_token o).
Definition with_delegation (o : OwnedExtensions) (d : DelegationExtension) : OwnedExtensions :=
  mkOwned (o_request o) (o_agent o) (o_mcp o) (o_completion o) (o_provenance o) (o_llm o) (o_framework o)
    (o_meta o) (o_raw_credentials o) (o_http o) (o_security o) (o_candidate_constraint o)
    (Some d) (o_custom o) (o_http_write_token o) (o_labels_write_token o) (o_delegation_write_token o).
Definition with_custom (o : OwnedExtensions) (c : gmap string Value) : OwnedExtensions :=
  mkOwned (o_request o) (o_agent o) (o_mcp o) (o_completion o) (o_provenance o) (o_llm o) (o_framework o)
    (o_meta o) (o_raw_credentials o) (o_http o) (o_security o) (o_candidate_constraint o)
    (o_delegation o) (Some c) (o_http_write_token o) (o_labels_write_token o) (o_delegation_write_token o).

(** One slot of the answer: the copy so far, and whether anything was taken. *)
Definition take_http (inbound : Extensions) (http : option HttpExtension) (st : OwnedExtensions * bool) :
    OwnedExtensions * bool :=
  match http with
  | Some http =>
      if is_some (x_http_write_token inbound) then (with_http st.1 (returned_http http (x_http inbound)), true)
      else st
  | None => st
  end.
Definition take_security (inbound : Extensions) (security : option SecurityExtension)
    (st : OwnedExtensions * bool) : OwnedExtensions * bool :=
  match security with
  | Some security =>
      if is_some (x_labels_write_token inbound) then
        (with_security st.1 (add_labels (default security_default (x_security inbound)) (sc_labels security)), true)
      else st
  | None => st
  end.
Definition take_delegation (inbound : Extensions) (delegation : option DelegationExtension)
    (st : OwnedExtensions * bool) : OwnedExtensions * bool :=
  match delegation with
  | Some delegation =>
      if is_some (x_delegation_write_token inbound) then
        if chain_extends (from_option dg_chain [] (x_delegation inbound)) (dg_chain delegation) then
          (with_delegation st.1 delegation, true)
        else st
      else st
  | None => st
  end.
Definition take_custom (custom : option (gmap string Value)) (st : OwnedExtensions * bool) :
    OwnedExtensions * bool :=
  match custom with Some custom => (with_custom st.1 custom, true) | None => st end.

Definition owned_from_returned_slot (field : Value) (inbound : Extensions) :
    Result (option OwnedExtensions) HostError :=
  match field with
  | Null => Ok None
  | VObject object =>
      let st := (cow_copy inbound, false) in
      let? http := read_slot http_of_json object "http" in
      let st := take_http inbound http st in
      let? security := read_slot security_of_json object "security" in
      let st := take_security inbound security st in
      let? delegation := read_slot delegation_of_json object "delegation" in
      let st := take_delegation inbound delegation st in
      let? custom := read_slot custom_of_json object "custom" in
      let '(owned, applied) := take_custom custom st in
      Ok (if applied then Some owned else None)
  | _ =>
      Err (HProtocol ("the worker returned a '" +:+ MODIFIED_EXTENSIONS_FIELD
                        +:+ "' field that is not a JSON object"))
  end.

Definition parse_returned_extensions (response : Value) (inbound : Extensions) :
    Result (option OwnedExtensions) HostError :=
  match value_get response MODIFIED_EXTENSIONS_FIELD with
  | None => Ok None
  | Some field => owned_from_returned_slot field inbound
  end.

(** An optional field of the answer: absent and null are the same. *)
Definition response_field {T} (response : Value) (key : string) (parse : Value → Result (option T) HostError) :
    Result (option T) HostError :=
  match value_get response key with
  | None | Some Null => Ok None
  | Some raw => parse raw
  end.

Definition value_as_bool (v : Value) : option bool := match v with VBool b => Some b | _ => None end.

Definition response_to_result `{codec : PayloadCodec Pay} (hook_name : string) (response : Value)
    (inbound : Extensions) : Result (ErasedResultFields Pay) HostError :=
  let continue_processing := default true (value_get response "continue_processing" ≫= value_as_bool) in
  let? violation := response_field response "violation" (λ raw, result_map Some (parse_violation raw)) in
  let? modified_payload :=
    response_field response "modified_payload" (λ raw, result_map Some (deserialize_payload hook_name raw)) in
  let? modified_extensions :=
    response_field response MODIFIED_EXTENSIONS_FIELD (λ raw, owned_from_returned_slot raw inbound) in
  Ok (mkErased continue_processing modified_payload modified_extensions violation).

End Wire.

(** ** What crosses the process boundary *)

(** Everything of a view but the values of sensitive headers and the raw
    credentials. *)
Definition without_secrets (e : Extensions) :=
  (arc_val <$> x_request e, arc_val <$> x_agent e, sanitize_http <$> x_http e, x_security e, x_delegation e,
   (arc_val <$> x_mcp e, arc_val <$> x_completion e, arc_val <$> x_provenance e, arc_val <$> x_llm e,
    arc_val <$> x_framework e, arc_val <$> x_meta e, x_custom e)).

Section Boundary.
Context `{serde : ExtSerde} `{order : TokenOrder}.

Lemma put_sanitized key (slot : option HttpExtension) m :
  put_slot key (λ http, http_to_json (sanitize_http http)) slot m
  = put_slot key http_to_json (sanitize_http <$> slot) m.
Proof. by destruct slot. Qed.

Lemma bind_ext {T U E} (r : Result T E) (k k' : T → Result U E) :
  (∀ x, k x = k' x) → result_bind r k = result_bind r k'.
Proof. destruct r; simpl; auto. Qed.

(** The extensions channel is free of secrets: two requests that differ only
    in raw credentials and in the values of authorization, cookie, set-cookie and
    x-api-key headers put the same task on the wire, whatever the slots
    serialize to. *)
Theorem wire_hides_secrets task e1 e2 :
  without_secrets e1 = without_secrets e2 → attach_extensions task e1 = attach_extensions task e2.
Proof.
  intros [= H1 H2 H3 H4 H5 H6 H7 H8 H9 H10 H11 H12]. unfold attach_extensions.
  assert (to_wire e1 = to_wire e2) as ->; [|done].
  unfold to_wire. rewrite H1, H2, H4, H5, H6, H7, H8, H9, H10, H11, H12.
  do 2 (apply bind_ext; intros ?). by rewrite !put_sanitized, H3.
Qed.

Lemma strip_sensitive_lookup h k v :
  strip_sensitive h !! k = Some v ↔ h !! k = Some v ∧ is_sensitive k = false.
Proof. unfold strip_sensitive. by rewrite map_lookup_filter_Some. Qed.

(** What a returned copy can hold, slot by slot. *)
Record returned_from (inbound : Extensions) (o : OwnedExtensions) : Prop := {
  rf_immutable : (o_request o, o_agent o, o_mcp o, o_completion o, o_provenance o, o_llm o, o_framework o,
                  o_meta o) = (x_request inbound, x_agent inbound, x_mcp inbound, x_completion inbound,
                  x_provenance inbound, x_llm inbound, x_framework inbound, x_meta inbound);
  rf_constraint : o_candidate_constraint o = x_candidate_constraint inbound;
  rf_credentials : o_raw_credentials o = x_raw_credentials inbound;
  rf_http : o_http o = guarded_new <$> x_http inbound ∨
            ∃ h, o_http o = Some (guarded_new (returned_http h (x_http inbound)));
  rf_security : o_security o = x_security inbound ∨
            ∃ ls, o_security o = Some (add_labels (default security_default (x_security inbound)) ls)
}.

Lemma cow_copy_from inbound : returned_from inbound (cow_copy inbound).
Proof. split; simpl; auto. Qed.

Lemma take_http_from inbound http st :
  returned_from inbound st.1 → returned_from inbound (take_http inbound http st).1.
Proof.
  intros [H1 H2 H3 H4 H5]. unfold take_http. destruct http; [|done]. destruct (is_some _); [|done].
  split; simpl; eauto.
Qed.
Lemma take_security_from inbound security st :
  returned_from inbound st.1 → returned_from inbound (take_security inbound security st).1.
Proof.
  intros [H1 H2 H3 H4 H5]. unfold take_security. destruct security; [|done]. destruct (is_some _); [|done].
  split; simpl; eauto.
Qed.
Lemma take_delegation_from inbound delegation st :
  returned_from inbound st.1 → returned_from inbound (take_delegation inbound delegation st).1.
Proof.
  intros [H1 H2 H3 H4 H5]. unfold take_delegation. destruct delegation; [|done]. destruct (is_some _); [|done].
  destruct (chain_extends _ _); [|done]. split; simpl; eauto.
Qed.
Lemma take_custom_from inbound custom st :
  returned_from inbound st.1 → returned_from inbound (take_custom custom st).1.
Proof. intros [H1 H2 H3 H4 H5]. destruct custom; [|done]. split; simpl; eauto. Qed.

Lemma owned_from_slot_ok field inbound owned :
  owned_from_returned_slot field inbound = Ok (Some owned) → returned_from inbound owned.
Proof.
  unfold owned_from_returned_slot. destruct field; try done. unfold result_bind.
  destruct (read_slot http_of_json _ _) as [http|]; [|done].
  destruct (read_slot security_of_json _ _) as [security|]; [|done].
  destruct (read_slot delegation_of_json _ _) as [delegation|]; [|done].
  destruct (read_slot custom_of_json _ _) as [custom|]; [|done].
  destruct (take_custom _ _) as [o applied] eqn:E. destruct applied; [|done]. intros [= <-].
  apply (f_equal fst) in E. simpl in E. subst o.
  auto using take_custom_from, take_delegation_from, take_security_from, take_http_from, cow_copy_from.
Qed.

Definition request_header (e : Extensions) (k : string) : option string :=
  x_http e ≫= λ h, ht_request_headers h !! k.
Definition response_header (e : Extensions) (k : string) : option string :=
  x_http e ≫= λ h, ht_response_headers h !! k.

Lemma returned_validates caps e o :
  returned_from (serial_view caps e) o → validate_immutable e o = true.
Proof.
  intros [Him _ _ _ _]. simpl in Him. injection Him as H1 H2 H3 H4 H5 H6 H7 H8.
  unfold validate_immutable. rewrite H1, H2, H3, H4, H5, H6, H7, H8.
  assert (∀ T (a : option (Arc T)), ptr_eq_opt a a = true) as Hr.
  { intros T [a|]; [|done]. simpl. unfold arc_ptr_eq. apply Nat.eqb_refl. }
  rewrite !Hr. destruct (x_agent e) as [a|]; [|done]. simpl.
  destruct (can_read _ _); [|done]. simpl. unfold arc_ptr_eq. by rewrite Nat.eqb_refl.
Qed.

Lemma merged_http_safe caps e o token k v :
  returned_from (serial_view caps e) o → is_sensitive k = true →
  (merge_http (x_http e) (o_http o) token ≫= (λ h, ht_request_headers h !! k) = Some v →
     request_header e k = Some v) ∧
  (merge_http (x_http e) (o_http o) token ≫= (λ h, ht_response_headers h !! k) = Some v →
     response_header e k = Some v).
Proof.
  intros [_ _ _ [->|[h ->]] _] Hk; simpl.
  - unfold request_header, response_header. destruct (x_http e) as [h|]; [|done]. simpl.
    destruct (can_read _ _); [|done]. simpl. by destruct (negb _).
  - destruct (negb _); [done|]. simpl.
    split; intros [_ H]%strip_sensitive_lookup; congruence.
Qed.

(** C14: whatever JSON a worker returns, taking it over is safe.  An honest copy is
    never refused for the immutable slots; the canonical slots other than the raw
    credentials move only along the tier order and within the declared
    capabilities; the candidate constraint stands; no value of a sensitive header
    is there that was not there before; and the raw credentials, which the merge
    takes from the plugin's filtered view, gain no token and are unchanged if the
    plugin may read both kinds of them or neither (one that may read one kind
    erases the other: [custom_write_erases_tokens]). *)
Theorem worker_return_safe caps e field owned :
  owned_from_returned_slot field (serial_view caps e) = Ok (Some owned) →
  let e' := accept_extensions caps e owned in
  validate_immutable e owned = true ∧ tier_order e e' ∧ within caps e e' ∧
  x_candidate_constraint e' = x_candidate_constraint e ∧
  raw_within (x_raw_credentials e) (x_raw_credentials e') ∧
  (holds caps ReadInboundCredentials = holds caps ReadDelegatedTokens →
   x_raw_credentials e' = x_raw_credentials e) ∧
  (∀ k v, is_sensitive k = true →
     (request_header e' k = Some v → request_header e k = Some v) ∧
     (response_header e' k = Some v → response_header e k = Some v)).
Proof.
  intros Hf e'. pose proof (owned_from_slot_ok _ _ _ Hf) as Ho.
  pose proof (returned_validates _ _ _ Ho) as Hv.
  pose proof (returned_raw caps (x_raw_credentials e)) as [Hr1 Hr2].
  pose proof (rf_credentials _ _ Ho) as Hc. simpl in Hc.
  split_and!; [done|apply accept_extensions_tiers|apply accept_extensions_within|..]; subst e';
    unfold accept_extensions; rewrite Hv; simpl; destruct (negb _); try done; try apply raw_within_refl;
    destruct (candidate_constraint_write_ok _ _ _); try done; try apply raw_within_refl; simpl.
  - apply (rf_constraint _ _ Ho).
  - by rewrite Hc.
  - by rewrite Hc.
  - intros k v Hk. apply (merged_http_safe caps e owned _ k v Ho Hk).
Qed.

End Boundary.

(** ** Which token a task carries *)

(** A comparison function of a total preorder. *)
Class CompareOrder {A} (cmp : A → A → comparison) : Prop := {
  cmp_opp x y : cmp y x = CompOpp (cmp x y);
  cmp_trans x y z : cmp x y ≠ Gt → cmp y z ≠ Gt → cmp x z ≠ Gt
}.

#[global] Instance nat_compare_order : CompareOrder Nat.compare.
Proof. split; [intros; by rewrite Nat.compare_antisym|]. intros x y z. rewrite !Nat.compare_le_iff. lia. Qed.

#[global] Instance string_compare_order : CompareOrder String.compare.
Proof.
  split; [intros; by rewrite String.compare_antisym|].
  assert (∀ x y, String.compare x y ≠ Gt ↔ String.le x y) as Hle.
  { intros x y. unfold String.le, String.leb. by destruct (String.compare x y). }
  intros x y z. rewrite !Hle. apply transitivity.
Qed.

(** The lexicographic order, as a relation. *)
Lemma then_with_le (cxy cyx dxy : comparison) :
  cyx = CompOpp cxy → then_with cxy dxy ≠ Gt ↔ cxy ≠ Gt ∧ (cyx ≠ Gt → dxy ≠ Gt).
Proof. intros ->. destruct cxy; simpl; split; try done; try (intros [? H]; by apply H); by intros [??]. Qed.

Lemma then_with_opp (cxy dxy : comparison) :
  then_with (CompOpp cxy) (CompOpp dxy) = CompOpp (then_with cxy dxy).
Proof. by destruct cxy. Qed.

#[global] Instance then_with_order {A} (c d : A → A → comparison) `{!CompareOrder c, !CompareOrder d} :
  CompareOrder (λ x y, then_with (c x y) (d x y)).
Proof.
  split.
  - intros x y. rewrite (cmp_opp (cmp := c) x y), (cmp_opp (cmp := d) x y). apply then_with_opp.
  - intros x y z. rewrite !(then_with_le (c _ _) _ _ (cmp_opp _ _)).
    intros [Hxy Dxy] [Hyz Dyz]. split; [by eapply cmp_trans|]. intros Hzx.
    apply (cmp_trans x y z); [apply Dxy|apply Dyz]; by eapply cmp_trans.
Qed.

#[global] Instance compare_strings_order : CompareOrder compare_strings.
Proof.
  split.
  - intros x. induction x as [|a x IH]; intros [|b y]; try done. simpl.
    rewrite (String.compare_antisym b a), (IH y). apply then_with_opp.
  - intros x. induction x as [|a x IH]; intros [|b y] [|c z]; try done.
    change (then_with (String.compare a b) (compare_strings x y) ≠ Gt →
            then_with (String.compare b c) (compare_strings y z) ≠ Gt →
            then_with (String.compare a c) (compare_strings x z) ≠ Gt).
    rewrite !(then_with_le (String.compare _ _) _ _ (cmp_opp _ _)).
    intros [Hxy Dxy] [Hyz Dyz]. split; [by eapply cmp_trans|]. intros Hzx.
    apply (IH y z); [apply Dxy|apply Dyz]; by eapply cmp_trans.
Qed.

Lemma compare_on {A B} (f : A → B) (c : B → B → comparison) `{!CompareOrder c} :
  CompareOrder (λ x y, c (f x) (f y)).
Proof. split; intros; [apply cmp_opp|by eapply cmp_trans]. Qed.

#[global] Instance compare_keys_order : CompareOrder compare_keys.
Proof.
  pose proof (compare_on (λ k, mode_rank (dk_mode k)) Nat.compare) as H1.
  pose proof (compare_on dk_subject_id String.compare) as H2.
  pose proof (compare_on dk_scopes compare_strings) as H3.
  exact (then_with_order _ _).
Qed.

(** The first element of a sorted list is one of the least. *)
Lemma insert_by_head {A} (cmp : A → A → comparison) `{!CompareOrder cmp} x l h :
  (∀ y, head l = Some y → ∀ z, z ∈ l → cmp y z ≠ Gt) → head (insert_by cmp x l) = Some h →
  (∀ z, z ∈ x :: l → cmp h z ≠ Gt) ∧ h ∈ x :: l.
Proof.
  assert (∀ a, cmp a a ≠ Gt) as Hrefl.
  { intros a. pose proof (cmp_opp a a). destruct (cmp a a); done. }
  destruct l as [|y l]; simpl.
  { intros _ [= <-]. split; [|left]. intros z ->%list_elem_of_singleton. apply Hrefl. }
  intros Hl. specialize (Hl y eq_refl). destruct (cmp x y) eqn:E; intros [= <-].
  1,2: split; [|left]; intros z [->|Hz]%elem_of_cons; [apply Hrefl|];
    apply (cmp_trans x y z); [congruence|by apply Hl].
  split; [|right; left]. intros z [->|Hz]%elem_of_cons; [|by apply Hl].
  rewrite (cmp_opp x y), E. done.
Qed.

Lemma insert_by_elem {A} (cmp : A → A → comparison) x l z : z ∈ insert_by cmp x l ↔ z ∈ x :: l.
Proof. induction l as [|y l IH]; simpl; [done|]. destruct (cmp x y); [done|done|]. set_solver. Qed.

Lemma sort_by_elem {A} (cmp : A → A → comparison) l z : z ∈ sort_by cmp l ↔ z ∈ l.
Proof.
  induction l as [|x l IH]; simpl; [done|]. rewrite insert_by_elem. set_solver.
Qed.

Lemma sort_by_least {A} (cmp : A → A → comparison) `{!CompareOrder cmp} l h :
  head (sort_by cmp l) = Some h → h ∈ l ∧ ∀ z, z ∈ l → cmp h z ≠ Gt.
Proof.
  revert h. induction l as [|x l IH]; intros h; [done|]. simpl. intros Hh.
  apply insert_by_head in Hh as [Hle Hin]; [|by apply _|].
  - split; [by rewrite elem_of_cons, sort_by_elem, <- elem_of_cons in Hin|].
    intros z Hz. apply Hle. by rewrite elem_of_cons, sort_by_elem, <- elem_of_cons.
  - intros y Hy z Hz. apply sort_by_elem in Hz. by apply IH.
Qed.

Definition role_rank (r : TokenRole) : nat :=
  match r with RoleUser => 0 | RoleClient => 1 | RoleCallerWorkload => 2 | RoleCustom _ => 3 end.

(** The two pairs of hook and capability that a token is sent for. *)
Definition entitled (hook_name : string) (caps : gset string) : Prop :=
  (payload_kind_for_hook hook_name = IdentityResolve ∧ CAP_READ_INBOUND ∈ caps) ∨
  (payload_kind_for_hook hook_name = TokenDelegate ∧ CAP_READ_DELEGATED ∈ caps).

(** The token a task carries: of the most preferred role there is, or the least
    key among those of the requested audience. *)
Inductive sends (hook_name : string) (caps : gset string) (e : Extensions) (task : Value) :
    CredentialDto → Prop :=
| sends_inbound raw r t :
    payload_kind_for_hook hook_name = IdentityResolve → CAP_READ_INBOUND ∈ caps →
    x_raw_credentials e = Some raw → rc_inbound_tokens raw !! r = Some t →
    (∀ r', (role_rank r' < role_rank r)%nat → rc_inbound_tokens raw !! r' = None) →
    is_blank (it_token t) = false →
    sends hook_name caps e task
      (mkDto (Some (mkInboundCred (it_token t) (it_source_header t) (token_kind_wire_name (it_kind t))
                      (Some {[ it_source_header t := it_token t ]}))) None)
| sends_delegated raw key t :
    payload_kind_for_hook hook_name = TokenDelegate → CAP_READ_DELEGATED ∈ caps →
    x_raw_credentials e = Some raw → rc_delegated_tokens raw !! key = Some t →
    audience_matches (requested_audience task) (key, t) = true →
    (∀ key' t', rc_delegated_tokens raw !! key' = Some t' →
       audience_matches (requested_audience task) (key', t') = true → compare_keys key key' ≠ Gt) →
    is_blank (dt_token t) = false →
    sends hook_name caps e task
      (mkDto None (Some (mkDelegatedCred (dt_token t) (dt_outbound_header t) (dt_audience t) (dt_scopes t)))).

Section Tokens.
Context `{order : TokenOrder}.

Lemma pick_inbound_preferred tokens t :
  pick_inbound tokens = Some t →
  ∃ r, tokens !! r = Some t ∧ ∀ r', (role_rank r' < role_rank r)%nat → tokens !! r' = None.
Proof.
  unfold pick_inbound.
  destruct (tokens !! RoleUser) eqn:E1; [intros [= <-]; exists RoleUser; split; [done|simpl; lia]|].
  destruct (tokens !! RoleClient) eqn:E2; [intros [= <-]; exists RoleClient; split;
    [done|intros []; simpl; (done || lia)]|].
  destruct (tokens !! RoleCallerWorkload) eqn:E3;
    [intros [= <-]; exists RoleCallerWorkload; split; [done|intros []; simpl; (done || lia)]|].
  intros Ht. assert (t ∈ inbound_values tokens) as Hin by (destruct (inbound_values tokens); set_solver).
  rewrite inbound_values_perm in Hin. apply list_elem_of_fmap in Hin as ((r & t') & -> & Hr).
  apply elem_of_map_to_list in Hr. exists r. split; [done|].
  destruct r as [| | |c]; simplify_eq. intros []; simpl; (done || lia).
Qed.

Lemma build_inbound_sends hook caps e task c :
  payload_kind_for_hook hook = IdentityResolve → CAP_READ_INBOUND ∈ caps →
  build_inbound e hook = Ok c → sends hook caps e task (mkDto (Some c) None).
Proof.
  intros Hk Hc. unfold build_inbound. destruct (x_raw_credentials e) as [raw|] eqn:Eraw; [|done].
  destruct (pick_inbound _) as [t|] eqn:Ep; [|done]. apply pick_inbound_preferred in Ep as (r & Hr & Hpref).
  unfold inbound_from_token. destruct (is_blank (it_token t)) eqn:Eb; [done|]. intros [= <-].
  by eapply sends_inbound.
Qed.

Lemma build_delegated_sends hook caps e task c :
  payload_kind_for_hook hook = TokenDelegate → CAP_READ_DELEGATED ∈ caps →
  build_delegated e hook (requested_audience task) = Ok c → sends hook caps e task (mkDto None (Some c)).
Proof.
  intros Hk Hc. unfold build_delegated. destruct (x_raw_credentials e) as [raw|] eqn:Eraw; [|done].
  destruct (head _) as [[key t]|] eqn:Eh; [|done].
  apply (sort_by_least _ (CompareOrder0 := compare_on fst compare_keys)) in Eh as [Hin Hleast].
  assert (∀ p, p ∈ List.filter (audience_matches (requested_audience task))
                    (delegated_iter (rc_delegated_tokens raw)) ↔
               rc_delegated_tokens raw !! p.1 = Some p.2 ∧
               audience_matches (requested_audience task) p = true) as Hcand.
  { intros [k t']. rewrite list_elem_of_In, filter_In, <- list_elem_of_In, delegated_iter_perm.
    by rewrite elem_of_map_to_list. }
  apply Hcand in Hin as [Hkey Haud].
  unfold delegated_from_token. destruct (is_blank (dt_token t)) eqn:Eb; [done|]. intros [= <-].
  eapply (sends_delegated _ _ _ _ raw key t); try done. intros key' t' Hk' Ha'. by apply (Hleast (key', t')), Hcand.
Qed.

(** Tokens are sent exactly to whom they are meant for.  A plugin that did not
    declare the capability of the hook gets the task untouched; one that did gets
    the credential of the user before the client before the workload, or the
    delegated token of the requested audience and preferred mode, and never a
    blank one; where there is none the dispatch fails instead of going on
    without. *)
Theorem credential_gated task hook e caps :
  (¬ entitled hook caps → attach_credential (VObject task) hook e caps = Ok (VObject task)) ∧
  (entitled hook caps → ∀ task', attach_credential (VObject task) hook e caps = Ok task' →
     ∃ dto, sends hook caps e (VObject task) dto ∧
            task' = VObject (<[CREDENTIAL_FIELD := dto_json dto]> task)).
Proof.
  unfold attach_credential, credential_for. split.
  - intros Hn. destruct (payload_kind_for_hook hook) eqn:Ek; try done.
    + rewrite bool_decide_false; [done|]. intros Hc. apply Hn. left. by split.
    + rewrite bool_decide_false; [done|]. intros Hc. apply Hn. right. by split.
  - intros [[Ek Hc]|[Ek Hc]] task'; rewrite Ek, bool_decide_true by done; simpl; unfold result_bind.
    + destruct (build_inbound e hook) as [c|] eqn:E; [|done]. intros [= <-].
      eexists. split; [by apply build_inbound_sends|done].
    + destruct (build_delegated _ _ _) as [c|] eqn:E; [|done]. intros [= <-].
      eexists. split; [by apply build_delegated_sends|done].
Qed.

End Tokens.

(** ** Witnesses *)

Module WireDemo.

(** Serde that shows the number of request headers and reads one header back. *)
#[local] Instance demo_serde : ExtSerde := {
  request_to_json _ := Ok Null; agent_to_json _ := Ok Null;
  http_to_json h := Ok (VObject (VString <$> ht_request_headers h));
  security_to_json _ := Ok Null; delegation_to_json _ := Ok Null; mcp_to_json _ := Ok Null;
  completion_to_json _ := Ok Null; provenance_to_json _ := Ok Null; llm_to_json _ := Ok Null;
  framework_to_json _ := Ok Null; meta_to_json _ := Ok Null;
  http_of_json v :=
    match v with VObject m => Ok (mkHttp (omap as_str m) ∅ None None None None) | _ => Err "not an object" end;
  security_of_json _ := Err "none"; delegation_of_json _ := Err "none";
  custom_of_json v := match v with VObject m => Ok m | _ => Err "not an object" end
}.

Definition request_with (headers : gmap string string) (raw : option RawCredentialsExtension) : Extensions :=
  mkExtensions None None (Some (mkHttp headers ∅ (Some "GET") None None None)) None None None raw
    None None None None None None None None None None.

Definition bearer : Extensions := request_with {[ "Authorization" := "Bearer t"; "accept" := "json" ]} None.
Definition anonymous : Extensions := request_with {[ "accept" := "json" ]} None.

Lemma wire_witness :
  attach_extensions (VObject ∅) bearer = attach_extensions (VObject ∅) anonymous.
Proof. apply wire_hides_secrets. by vm_compute. Defined.

Definition writer : gset string := {[ "read_headers"; "write_headers" ]}.

(** A worker that returns the headers it was given, with one more. *)
Definition tagged : Value :=
  VObject {[ "http" := VObject {[ "accept" := VString "json"; "x-tag" := VString "1" ]} ]}.

Definition returned : option OwnedExtensions :=
  match owned_from_returned_slot tagged (serial_view writer bearer) with Ok o => o | Err _ => None end.

Lemma return_witness :
  ∃ owned, returned = Some owned ∧ validate_immutable bearer owned = true.
Proof.
  destruct returned as [owned|] eqn:E; [|by vm_compute in E]. exists owned. split; [done|].
  destruct (worker_return_safe writer bearer tagged owned) as [H _]; [|exact H].
  revert E. unfold returned. destruct (owned_from_returned_slot _ _); [by intros ->|done].
Defined.

(** The sensitive headers it was not shown are gone from the request. *)
Example return_drops_authorization :
  option_map (λ owned, (request_header (accept_extensions writer bearer owned) "Authorization",
                        request_header (accept_extensions writer bearer owned) "x-tag")) returned
  = Some (None, Some "1").
Proof. by vm_compute. Qed.

(** A write to [custom] alone, by a plugin that may read inbound credentials,
    erases the delegated tokens of the request. *)
Definition delegation_key (client : string) : DelegationKey :=
  mkDelegationKey "alice" None (Some client) "api" [] OnBehalfOfUser.
Definition token (t : string) : RawDelegatedToken := mkDelegated t "Authorization" "api" [] 0.
Definition two_tokens : gmap DelegationKey RawDelegatedToken :=
  {[ delegation_key "a" := token "token-a"; delegation_key "b" := token "token-b" ]}.
Definition delegating : Extensions := request_with ∅ (Some (mkRawCredentials ∅ two_tokens)).
Definition reader : gset string := {[ "read_inbound_credentials" ]}.

Example custom_write_erases_tokens :
  match owned_from_returned_slot (VObject {[ "custom" := VObject ∅ ]}) (serial_view reader delegating) with
  | Ok (Some owned) =>
      (x_raw_credentials (accept_extensions reader delegating owned))
  | _ => None
  end = Some (mkRawCredentials ∅ ∅).
Proof. by vm_compute. Qed.

(** Two tokens that differ in the client alone: which one is sent follows the
    iteration order of the map. *)
#[local] Instance forward : TokenOrder :=
  {| inbound_values m := (map_to_list m).*2; delegated_iter m := map_to_list m;
     inbound_values_perm _ := Permutation_refl _; delegated_iter_perm _ := Permutation_refl _ |}.
Definition backward : TokenOrder :=
  {| inbound_values m := (map_to_list m).*2; delegated_iter m := reverse (map_to_list m);
     inbound_values_perm _ := Permutation_refl _; delegated_iter_perm _ := reverse_Permutation _ |}.

Example delegated_pick_follows_hash_order :
  build_delegated (order := forward) delegating "token_delegate" (Some "api")
  ≠ build_delegated (order := backward) delegating "token_delegate" (Some "api").
Proof. by vm_compute. Qed.

(** The hooks the framework invokes for identity and delegation are not the ones
    a credential is attached for. *)
Example framework_hooks_carry_no_credential :
  is_credential_hook "identity.resolve" = false ∧ is_credential_hook "token.delegate" = false ∧
  is_credential_hook "identity_resolve" = true ∧ is_credential_hook "token_delegate" = true.
Proof. by vm_compute. Qed.

End WireDemo.
