(* ===== verification/HostWorker.v ===== *)
(** * The worker client of the Python host (cpex-hosts-python/src/worker.rs)

    Reading of one line under a limit, whatever way the bytes arrive; routing of
    the answers of a worker to the callers that wait for them; the life of a
    caller as a step relation beside the reader task; the handshake.  Parsing and
    printing of JSON, lossy decoding and the file system are parameters. *)

From Stdlib Require Import Ascii.
From S2P Require Import Prelude RustStd F64 Json JsonMerge.
From S2P Require Import HostError.

Local Open Scope string_scope.
Local Open Scope list_scope.

Definition SHUTDOWN_GRACE_SECS : Z := 5.
Definition TASK_LOAD_AND_RUN_HOOK : string := "load_and_run_hook".
Definition TASK_SHUTDOWN : string := "shutdown".
Definition TASK_CAPABILITIES : string := "capabilities".
Definition FEATURE_CREDENTIAL : string := "credential".
Definition FEATURE_EXTENSIONS : string := "extensions".
Definition STDERR_RETAIN_LINES : nat := 40.
Definition STDERR_MAX_LINE_BYTES : nat := 8 * 1024.
Definition TRUNCATION_MARKER : string := "… [truncated by host]".

Definition newline : ascii := ascii_of_nat 10.
Definition carriage_return : ascii := ascii_of_nat 13.

(** ** Lines under a limit *)

Inductive BoundedLine :=
| BLine (line : string)
| BOversized (prefix : string) (scanned : nat)
| BEof.

(** [String::from_utf8_lossy]. *)
Class Utf8 := from_utf8_lossy : string → string.

(** What is left of a stream: the buffers [fill_buf] will still hand out, none of
    them empty, and how the stream ends. *)
Record Source := mkSource { src_chunks : list string; src_error : option string }.

Definition rest_of (chunk : string) (chunks : list string) : list string :=
  if String.eqb chunk EmptyString then chunks else chunk :: chunks.

(** [if buffer.last() == Some(&b'\r') { buffer.pop(); }]. *)
Definition strip_cr (s : string) : string := default s (strip_suffix_char carriage_return s).

Section Reading.
Context `{utf8 : Utf8} (limit : nat).

Definition finish_line (buffer : string) (scanned : nat) (over : bool) : BoundedLine :=
  let text := from_utf8_lossy (strip_cr buffer) in
  if over then BOversized text scanned else BLine text.

(** The bytes kept of a chunk, the count of bytes seen, and whether the line is
    over the limit. *)
Definition take_chunk (chunk : string) (buffer : string) (scanned : nat) (over : bool) :
    string * nat * bool :=
  let scanned := (scanned + String.length chunk)%nat in
  if over then (buffer, scanned, over)
  else
    let keep := Nat.min (String.length chunk) (limit - String.length buffer) in
    (buffer +:+ String.substring 0 keep chunk, scanned, (limit <? scanned)%nat).

(** The loop of [read_bounded_line], over the buffers still to come. *)
Fixpoint read_loop (chunks : list string) (error : option string) (buffer : string) (scanned : nat)
    (over : bool) : Result BoundedLine string * Source :=
  match chunks with
  | [] =>
      match error with
      | Some e => (Err e, mkSource [] error)
      | None =>
          (Ok (if (scanned =? 0)%nat then BEof else finish_line buffer scanned over), mkSource [] error)
      end
  | available :: chunks =>
      match split_once newline available with
      | Some (chunk, rest) =>
          let '(buffer, scanned, over) := take_chunk chunk buffer scanned over in
          (Ok (finish_line buffer scanned over), mkSource (rest_of rest chunks) error)
      | None =>
          let '(buffer, scanned, over) := take_chunk available buffer scanned over in
          read_loop chunks error buffer scanned over
      end
  end.

Definition read_bounded_line (reader : Source) : Result BoundedLine string * Source :=
  read_loop (src_chunks reader) (src_error reader) EmptyString 0 false.

End Reading.

(** ** Answers *)

(** Parsing and printing of JSON. *)
Class JsonCodec := {
  json_parse : string → option Value;
  json_print : Value → Result string string
}.

(** The fields a derived [Deserialize] of a struct reads: those of an object, or the
    elements of an array in the order of the declaration. *)
Definition struct_fields (names : list string) (v : Value) : option (gmap string Value) :=
  match v with
  | VObject m => Some m
  | VArray l => if (length l <=? length names)%nat then Some (list_to_map (zip names l)) else None
  | _ => None
  end.

Definition remove_key (key : string) (v : Value) : Value :=
  match v with VObject m => VObject (delete key m) | v => v end.

Definition interpret_response (response : Value) : Result Value HostError :=
  let response := remove_key "request_id" response in
  match value_get response "status" ≫= as_str with
  | Some "error" =>
      Err (HWorkerError (default "worker reported an error with no message"
                           (value_get response "message" ≫= as_str)))
  | _ => Ok response
  end.

Definition response_too_large (size limit : nat) : HostError := HResponseTooLarge size limit.

(** The text after the first occurrence of a pattern. *)
Fixpoint after_first (pat s : string) : option string :=
  match strip_prefix pat s with
  | Some rest => Some rest
  | None => match s with EmptyString => None | String _ s => after_first pat s end
  end.

Definition quote : ascii := ascii_of_nat 34.
Definition quoted_key : string := String quote ("request_id" +:+ String quote EmptyString).

Definition request_id_from_prefix (prefix : string) : option string :=
  after_key ← after_first quoted_key prefix;
  after_colon ← after_first ":" after_key;
  rest ← after_first (String quote EmptyString) after_colon;
  p ← split_once quote rest; Some p.1.

(** ** The callers of one worker *)

(** A caller of [send_task], by its request id: it has found the worker alive; it
    is registered and its task written; the reader handed it a result; its
    sender was dropped; it has returned; or its future was dropped before it
    returned (the executor's timeout does that). *)
Inductive Caller :=
| CChecked
| CRegistered
| CValue (r : Result Value HostError)
| CDropped
| CDone (r : Result Value HostError)
| CGone.

(** The reader task: reading, stopped with the flag set, or done. *)
Inductive Reader := Reading | Stopped | Cleared.

(** [ws_frames] is what the worker has answered so far. *)
Record WorkerState := mkWorker {
  ws_alive : bool;
  ws_reader : Reader;
  ws_pending : gset string;
  ws_callers : gmap string Caller;
  ws_tail : list string;
  ws_frames : list Value
}.

Definition worker_new : WorkerState := mkWorker true Reading ∅ ∅ [] [].

(** [tx.send(r)]: the receiver is gone when the caller has given up. *)
Definition deliver (r : Result Value HostError) (c : Caller) : Caller :=
  match c with CRegistered => CValue r | c => c end.
Definition drop_sender (c : Caller) : Caller := match c with CRegistered => CDropped | c => c end.

(** [pending.remove(id)] and the send to the channel that was there. *)
Definition route (id : string) (r : Result Value HostError) (st : WorkerState) : WorkerState :=
  if bool_decide (id ∈ ws_pending st) then
    mkWorker (ws_alive st) (ws_reader st) (ws_pending st ∖ {[ id ]}) (alter (deliver r) id (ws_callers st))
      (ws_tail st) (ws_frames st)
  else st.

(** [pending.drain()]. *)
Definition route_all (r : Result Value HostError) (st : WorkerState) : WorkerState :=
  mkWorker (ws_alive st) (ws_reader st) ∅
    (map_imap (λ id c, Some (if bool_decide (id ∈ ws_pending st) then deliver r c else c)) (ws_callers st))
    (ws_tail st) (ws_frames st).

Definition log_frame (v : Value) (st : WorkerState) : WorkerState :=
  mkWorker (ws_alive st) (ws_reader st) (ws_pending st) (ws_callers st) (ws_tail st) (ws_frames st ++ [v]).

(** [died]: the context, with what the worker last wrote to stderr. *)
Definition died (tail : list string) (context : string) : HostError :=
  HWorkerDied (if is_nil tail then context
               else context +:+ "; recent worker stderr: " +:+ join_with " | " tail).

(** One line of stderr: its text, and the ring of recent lines with it. *)
Definition stderr_text (outcome : BoundedLine) : option string :=
  match outcome with
  | BLine line => Some line
  | BOversized prefix _ => Some (prefix +:+ TRUNCATION_MARKER)
  | BEof => None
  end.
Definition push_tail (line : string) (tail : list string) : list string :=
  (if (length tail =? STDERR_RETAIN_LINES)%nat then drop 1 tail else tail) ++ [line].
Definition on_stderr (line : string) (st : WorkerState) : WorkerState :=
  mkWorker (ws_alive st) (ws_reader st) (ws_pending st) (ws_callers st) (push_tail line (ws_tail st))
    (ws_frames st).

Section Client.
Context `{json : JsonCodec} (max_content_size : nat).

(** One line of the worker's output. *)
Definition on_line (line : string) (st : WorkerState) : WorkerState :=
  let line := trim line in
  if String.eqb line EmptyString then st
  else
    match json_parse line with
    | None => st
    | Some response =>
        match value_get response "request_id" ≫= as_str with
        | None => st
        | Some id => route id (Ok response) (log_frame response st)
        end
    end.

Definition on_oversized (prefix : string) (scanned : nat) (st : WorkerState) : WorkerState :=
  let r := Err (response_too_large scanned max_content_size) in
  match request_id_from_prefix prefix with
  | Some id => if bool_decide (id ∈ ws_pending st) then route id r st else route_all r st
  | None => route_all r st
  end.

Definition set_reader (alive : bool) (r : Reader) (st : WorkerState) : WorkerState :=
  mkWorker alive r (ws_pending st) (ws_callers st) (ws_tail st) (ws_frames st).

(** One outcome of [read_bounded_line] in the reader task. *)
Definition on_read (outcome : Result BoundedLine string) (st : WorkerState) : WorkerState :=
  match outcome with
  | Ok (BLine line) => on_line line st
  | Ok (BOversized prefix scanned) => on_oversized prefix scanned st
  | Ok BEof | Err _ => set_reader false Stopped st
  end.

(** [pending.lock().await.clear()]. *)
Definition on_clear (st : WorkerState) : WorkerState :=
  mkWorker (ws_alive st) Cleared ∅
    (map_imap (λ id c, Some (if bool_decide (id ∈ ws_pending st) then drop_sender c else c)) (ws_callers st))
    (ws_tail st) (ws_frames st).

Definition set_caller (id : string) (c : Caller) (st : WorkerState) : WorkerState :=
  mkWorker (ws_alive st) (ws_reader st) (ws_pending st) (<[id := c]> (ws_callers st)) (ws_tail st) (ws_frames st).
Definition register (id : string) (st : WorkerState) : WorkerState :=
  mkWorker (ws_alive st) (ws_reader st) ({[ id ]} ∪ ws_pending st) (<[id := CRegistered]> (ws_callers st))
    (ws_tail st) (ws_frames st).
Definition unregister (id : string) (r : Result Value HostError) (st : WorkerState) : WorkerState :=
  mkWorker (ws_alive st) (ws_reader st) (ws_pending st ∖ {[ id ]}) (<[id := CDone r]> (ws_callers st))
    (ws_tail st) (ws_frames st).

(** The first part of [send_task]: the flag, the id on the task, the size.  The id
    is fresh. *)
Definition send_start (id : string) (task : Value) (st : WorkerState) : Result string HostError :=
  if negb (ws_alive st) then Err (died (ws_tail st) "worker process is no longer running")
  else
    match task with
    | VObject obj =>
        match json_print (VObject (<["request_id" := VString id]> obj)) with
        | Err e => Err (HProtocol ("could not serialize task: " +:+ e))
        | Ok line =>
            if (max_content_size <? String.length line)%nat then
              Err (HTaskTooLarge (String.length line) max_content_size)
            else Ok line
        end
    | _ => Err (HProtocol "task must be a JSON object")
    end.

(** What a caller returns once its channel has answered. *)
Definition received (tail : list string) (c : Caller) : option (Result Value HostError) :=
  match c with
  | CValue (Ok response) => Some (interpret_response response)
  | CValue (Err e) => Some (Err e)
  | CDropped => Some (Err (died tail "worker exited while the request was in flight"))
  | _ => None
  end.

(** Callers, reader and timers in any order. *)
Inductive worker_step (timeout_secs : Z) : WorkerState → WorkerState → Prop :=
| st_refused id task e st :
    ws_callers st !! id = None → send_start id task st = Err e →
    worker_step timeout_secs st (set_caller id (CDone (Err e)) st)
| st_started id task line st :
    ws_callers st !! id = None → send_start id task st = Ok line →
    worker_step timeout_secs st (set_caller id CChecked st)
| st_registered id st :
    ws_callers st !! id = Some CChecked → worker_step timeout_secs st (register id st)
| st_writer_gone id st :
    ws_callers st !! id = Some CRegistered →
    worker_step timeout_secs st
      (unregister id
         (Err (died (ws_tail st) "writer task is gone — the worker is no longer accepting tasks")) st)
| st_read outcome st :
    ws_reader st = Reading → worker_step timeout_secs st (on_read outcome st)
| st_stderr outcome line st :
    stderr_text outcome = Some line → worker_step timeout_secs st (on_stderr line st)
| st_cleared st : ws_reader st = Stopped → worker_step timeout_secs st (on_clear st)
| st_returned id c r st :
    ws_callers st !! id = Some c → received (ws_tail st) c = Some r →
    worker_step timeout_secs st (set_caller id (CDone r) st)
| st_timeout id st :
    ws_callers st !! id = Some CRegistered →
    worker_step timeout_secs st (unregister id (Err (HTimeout timeout_secs)) st)
| st_abandoned id c st :
    ws_callers st !! id = Some c → (∀ r, c ≠ CDone r) →
    worker_step timeout_secs st (set_caller id CGone st).

Definition worker_reachable (timeout_secs : Z) (st : WorkerState) : Prop :=
  rtc (worker_step timeout_secs) worker_new st.

End Client.

(** ** The handshake *)

Record WorkerCapabilities := mkWorkerCapabilities {
  wc_protocol_version : Z;
  wc_features : gset string;
  wc_cpex_version : option string
}.

(** [WorkerCapabilities::none] and [has]. *)
Definition capabilities_none : WorkerCapabilities := mkWorkerCapabilities 0 ∅ None.
Definition capabilities_has (self : WorkerCapabilities) (feature : string) : bool :=
  bool_decide (feature ∈ wc_features self).

Definition value_as_u64 (v : Value) : option Z :=
  match v with VNumber (PosInt z) => Some z | _ => None end.

Definition capabilities_task : Value := VObject {[ "task_type" := VString TASK_CAPABILITIES ]}.

(** [capabilities], given what [send_task] returned for [capabilities_task]. *)
Definition capabilities (answer : Result Value HostError) : Result WorkerCapabilities HostError :=
  match answer with
  | Ok response =>
      Ok (mkWorkerCapabilities
            (default 0%Z (value_get response "protocol_version" ≫= value_as_u64))
            (match value_get response "features" with
             | Some (VArray l) => list_to_set (omap as_str l)
             | _ => ∅
             end)
            (value_get response "cpex_version" ≫= as_str))
  | Err (HWorkerError _) => Ok capabilities_none
  | Err e => Err e
  end.

(** ** Shutdown *)

(** How the child goes after the shutdown task: within the grace window, not at
    all because the wait fails, or by a kill that may fail too. *)
Inductive ChildEnd :=
| Exited
| WaitFailed (e : string)
| GraceElapsed (kill : option string).

Definition shutdown_task : Value :=
  VObject {[ "task_type" := VString TASK_SHUTDOWN; "request_id" := VString TASK_SHUTDOWN ]}.

(** [shutdown]: the result, and the lines sent to the worker; the slot of the
    child is empty from then on. *)
Definition worker_shutdown `{JsonCodec} (child : option ChildEnd) :
    Result unit HostError * list string * option ChildEnd :=
  match child with
  | None => (Ok tt, [], None)
  | Some ending =>
      let sent := match json_print shutdown_task with
                  | Ok line => [line +:+ String newline EmptyString]
                  | Err _ => []
                  end in
      let result := match ending with
                    | Exited => Ok tt
                    | WaitFailed e => Err (HWorkerDied ("could not wait on the worker process: " +:+ e))
                    | GraceElapsed None => Ok tt
                    | GraceElapsed (Some e) =>
                        Err (HWorkerDied ("could not kill the unresponsive worker: " +:+ e))
                    end in
      (result, sent, None)
  end.

(** ** The worker script *)

(** What the script lookup asks of the file system. *)
Class DirView := {
  path_exists : string → bool;
  read_dir : string → option (list string)
}.

Definition script_candidates `{DirView} (venv_path relative : string) : list string :=
  ((λ entry, path_join (path_join entry "site-packages") relative)
     <$> default [] (read_dir (path_join venv_path "lib"))) ++
  [path_join (path_join (path_join venv_path "Lib") "site-packages") relative;
   path_join venv_path relative].

Definition resolve_worker_script `{DirView} (venv_path relative : string) : Result string HostError :=
  if is_absolute relative then Ok relative
  else
    match List.find path_exists (script_candidates venv_path relative) with
    | Some p => Ok p
    | None =>
        Err (HWorkerStart
               ("could not find '" +:+ relative +:+ "' in the venv at " +:+ venv_path
                  +:+ " — is `cpex` installed in it? (a plugin's requirements file must pull in the "
                  +:+ "framework that ships worker.py)"))
    end.

(** ** A line does not depend on how its bytes arrive *)

Lemma substring_prefix_app k a b :
  String.substring 0 k (a +:+ b) =
  String.substring 0 k a +:+ String.substring 0 (k - String.length a) b.
Proof.
  revert k. induction a as [|c a IH]; intros k; simpl; [by destruct k; rewrite ?Nat.sub_0_r|].
  destruct k as [|k]; simpl; [by destruct b|].
  change (String c (String.substring 0 k (a +:+ b)) =
          String c (String.substring 0 k a +:+ String.substring 0 (k - String.length a) b)).
  by rewrite IH.
Qed.

Lemma substring_prefix_length k s : String.length (String.substring 0 k s) = Nat.min k (String.length s).
Proof. revert k. induction s as [|c s IH]; intros [|k]; simpl; [done|done|done|by rewrite IH]. Qed.

Lemma substring_prefix_min k s : String.substring 0 (Nat.min (String.length s) k) s = String.substring 0 k s.
Proof. revert k. induction s as [|c s IH]; intros [|k]; simpl; [done|done|done|by rewrite IH]. Qed.

Section Framing.
Context `{utf8 : Utf8} (limit : nat).

(** The outcome for a line, given whole. *)
Definition line_outcome (line : string) : BoundedLine :=
  finish_line (String.substring 0 limit line) (String.length line) (limit <? String.length line)%nat.

(** The first line of a text, and the text after it. *)
Definition first_line (text : string) : BoundedLine * string :=
  match split_once newline text with
  | Some (line, rest) => (line_outcome line, rest)
  | None => (if String.eqb text EmptyString then BEof else line_outcome text, EmptyString)
  end.

Lemma take_chunk_seen seen chunk :
  take_chunk limit chunk (String.substring 0 limit seen) (String.length seen) (limit <? String.length seen)%nat
  = (String.substring 0 limit (seen +:+ chunk), String.length (seen +:+ chunk),
     (limit <? String.length (seen +:+ chunk))%nat).
Proof.
  unfold take_chunk. rewrite string_app_length, substring_prefix_app, substring_prefix_length.
  destruct (limit <? String.length seen)%nat eqn:E.
  - apply Nat.ltb_lt in E. replace (limit - String.length seen)%nat with 0%nat by lia.
    assert (String.substring 0 0 chunk = EmptyString) as -> by (by destruct chunk).
    assert ((limit <? String.length seen + String.length chunk)%nat = true) as ->.
    { apply Nat.ltb_lt. lia. }
    by rewrite append_empty_r.
  - apply Nat.ltb_ge in E. rewrite (Nat.min_r limit) by lia. by rewrite substring_prefix_min.
Qed.

Lemma append_cons d a b : String d a +:+ b = String d (a +:+ b).
Proof. done. Qed.

Lemma split_once_app_none c a b :
  split_once c a = None →
  split_once c (a +:+ b) = match split_once c b with Some (x, y) => Some (a +:+ x, y) | None => None end.
Proof.
  induction a as [|d a IH].
  { intros _. change (EmptyString +:+ b) with b. by destruct (split_once c b) as [[x y]|]. }
  rewrite append_cons. simpl. destruct (Ascii.eqb c d); [done|]. destruct (split_once c a) as [[]|] eqn:E; [done|]. intros _.
  rewrite IH by done. by destruct (split_once c b) as [[]|].
Qed.
Lemma split_once_app_some c a b x y :
  split_once c a = Some (x, y) → split_once c (a +:+ b) = Some (x, y +:+ b).
Proof.
  revert x. induction a as [|d a IH]; intros x; [done|]. rewrite append_cons. simpl.
  destruct (Ascii.eqb c d); [by intros [= <- <-]|].
  destruct (split_once c a) as [[x' y']|] eqn:E; [|done]. intros [= <- <-]. by rewrite (IH x').
Qed.

Lemma rest_of_text chunk chunks : concat_str (rest_of chunk chunks) = chunk +:+ concat_str chunks.
Proof. unfold rest_of. by destruct (String.eqb_spec chunk EmptyString) as [->|]. Qed.

Lemma read_loop_exact chunks seen :
  split_once newline seen = None →
  let '(r, src) := read_loop limit chunks None (String.substring 0 limit seen) (String.length seen)
                     (limit <? String.length seen)%nat in
  (r, concat_str (src_chunks src), src_error src)
  = (Ok (first_line (seen +:+ concat_str chunks)).1, (first_line (seen +:+ concat_str chunks)).2, None).
Proof.
  revert seen. induction chunks as [|c chunks IH]; intros seen Hseen; simpl.
  - rewrite append_empty_r. unfold first_line. rewrite Hseen. simpl. by destruct seen.
  - rewrite take_chunk_seen. destruct (split_once newline c) as [[line rest]|] eqn:Ec.
    + rewrite take_chunk_seen. unfold first_line.
      rewrite (split_once_app_none _ _ _ Hseen), (split_once_app_some _ _ _ _ _ Ec).
      simpl. by rewrite rest_of_text.
    + assert (split_once newline (seen +:+ c) = None) as Hn.
      { by rewrite (split_once_app_none _ _ _ Hseen), Ec. }
      specialize (IH _ Hn). by rewrite append_assoc in IH.
Qed.

(** C28: the host reads the same lines however the bytes of the worker arrive: each
    read takes exactly the text up to the next newline, reports it whole when it
    is within the limit, and otherwise keeps its first [limit] bytes with the
    full length; the rest of the stream starts right after the newline, so the
    frames stay apart. *)
Theorem bounded_line_exact chunks :
  let '(r, src) := read_bounded_line limit (mkSource chunks None) in
  r = Ok (first_line (concat_str chunks)).1 ∧
  concat_str (src_chunks src) = (first_line (concat_str chunks)).2 ∧ src_error src = None.
Proof.
  unfold read_bounded_line. simpl. pose proof (read_loop_exact chunks EmptyString eq_refl) as H.
  assert (String.substring 0 limit EmptyString = EmptyString) as E by (by destruct limit).
  assert ((limit <? String.length EmptyString)%nat = false) as E' by (by apply Nat.ltb_ge; simpl; lia).
  rewrite E, E' in H. destruct (read_loop _ _ _ _ _ _) as [r src]. by injection H as -> -> ->.
Qed.

End Framing.

(** ** Every caller gets its own answer *)

Definition answer_id (v : Value) : option string := value_get v "request_id" ≫= as_str.

(** What holds of a caller, given the registrations and the answers so far. *)
Definition caller_ok (pending : gset string) (frames : list Value) (id : string) (c : Caller) : Prop :=
  (c = CRegistered → id ∈ pending) ∧ (id ∈ pending → c = CRegistered ∨ c = CGone) ∧
  match c with
  | CValue (Ok v) => v ∈ frames ∧ answer_id v = Some id
  | CDone (Ok u) => ∃ v, v ∈ frames ∧ answer_id v = Some id ∧ interpret_response v = Ok u
  | _ => True
  end.

Record worker_inv (st : WorkerState) : Prop := {
  wi_pending id : id ∈ ws_pending st → is_Some (ws_callers st !! id);
  wi_callers id c : ws_callers st !! id = Some c → caller_ok (ws_pending st) (ws_frames st) id c;
  wi_alive : ws_alive st = true ↔ ws_reader st = Reading;
  wi_tail : (length (ws_tail st) ≤ STDERR_RETAIN_LINES)%nat
}.

Lemma caller_ok_frames pending frames v id c :
  caller_ok pending frames id c → caller_ok pending (frames ++ [v]) id c.
Proof. intros (Hr & Hp & Hc). split_and!; [done..|]. destruct c as [| |[]| |[]|]; set_solver. Qed.

(** Nothing is asked of the registration of a caller that has left. *)
Lemma caller_ok_pending pending pending' frames id c :
  (id ∈ pending ↔ id ∈ pending') → caller_ok pending frames id c → caller_ok pending' frames id c.
Proof. intros Hiff (Hr & Hp & Hc). split_and!; [by rewrite <- Hiff|by rewrite <- Hiff|done]. Qed.

Lemma log_frame_inv v st : worker_inv st → worker_inv (log_frame v st).
Proof.
  intros [H1 H2 H3 H4]. split; [done| |done|done]. intros id c Hc. by apply caller_ok_frames, H2.
Qed.

(** A caller is given a result it may have, and its registration ends. *)
Lemma settle_caller_ok pending frames id c r :
  caller_ok pending frames id c → id ∈ pending →
  match r with Ok v => v ∈ frames ∧ answer_id v = Some id | Err _ => True end →
  ∀ pending', id ∉ pending' → caller_ok pending' frames id (deliver r c).
Proof.
  intros (_ & Hp & _) Hid Hr pending' Hn. by destruct (Hp Hid) as [-> | ->].
Qed.

Lemma route_inv id r st :
  worker_inv st → match r with Ok v => v ∈ ws_frames st ∧ answer_id v = Some id | Err _ => True end →
  worker_inv (route id r st).
Proof.
  intros [H1 H2 H3 H4] Hr. unfold route. case_bool_decide as Hid; [|by split].
  split; simpl; [| |done|done].
  - intros j Hj. apply elem_of_difference in Hj as [Hj _]. rewrite lookup_alter_is_Some. by apply H1.
  - intros j c. destruct (decide (id = j)) as [->|Hne].
    + rewrite lookup_alter_eq. intros Hc. apply fmap_Some in Hc as (c0 & Hc0 & ->).
      apply (settle_caller_ok (ws_pending st)); [by apply H2|done|done|set_solver].
    + rewrite lookup_alter_ne by done. intros Hc. eapply caller_ok_pending; [|by apply H2]. set_solver.
Qed.

Lemma settle_all_inv f st :
  worker_inv st → (∀ frames id c pending, caller_ok pending frames id c → id ∈ pending →
                     caller_ok ∅ frames id (f c)) →
  ∀ id c, map_imap (λ id c, Some (if bool_decide (id ∈ ws_pending st) then f c else c)) (ws_callers st) !! id
          = Some c → caller_ok ∅ (ws_frames st) id c.
Proof.
  intros [H1 H2 H3 H4] Hf id c. rewrite map_lookup_imap. intros (c0 & Hc0 & Hc)%bind_Some.
  injection Hc as <-. specialize (H2 id c0 Hc0). case_bool_decide as Hid; [by eapply Hf|].
  eapply caller_ok_pending; [|done]. set_solver.
Qed.

Lemma route_all_inv e st : worker_inv st → worker_inv (route_all (Err e) st).
Proof.
  intros Hi. pose proof (settle_all_inv (deliver (Err e)) st Hi) as Hs. destruct Hi as [H1 H2 H3 H4].
  split; simpl; [set_solver| |done|done]. apply Hs. intros frames id c pending Hok Hid.
  apply (settle_caller_ok pending frames id c (Err e)); [done|done|done|set_solver].
Qed.

Lemma on_clear_inv st : worker_inv st → ws_reader st = Stopped → worker_inv (on_clear st).
Proof.
  intros Hi Hr. pose proof (settle_all_inv drop_sender st Hi) as Hs. destruct Hi as [H1 H2 H3 H4].
  split; simpl; [set_solver| |rewrite H3, Hr; by split|done]. apply Hs.
  intros frames id c pending (_ & Hp & _) Hid. by destruct (Hp Hid) as [-> | ->].
Qed.

Lemma set_caller_inv id c st :
  worker_inv st → (ws_callers st !! id ≠ Some CRegistered ∧ ws_callers st !! id ≠ Some CGone) →
  c ≠ CRegistered →
  caller_ok ∅ (ws_frames st) id c → worker_inv (set_caller id c st).
Proof.
  intros [H1 H2 H3 H4] [Hr Hg] Hc Hok. assert (id ∉ ws_pending st) as Hn.
  { intros Hid. destruct (H1 id Hid) as [c0 Hc0]. destruct (H2 id c0 Hc0) as (_ & Hp & _).
    rewrite Hc0 in Hr, Hg. destruct (Hp Hid) as [-> | ->]; done. }
  split; simpl; [|intros j cj|done|done].
  - intros j Hj. destruct (decide (id = j)) as [->|]; [set_solver|]. rewrite lookup_insert_ne by done. by apply H1.
  - destruct (decide (id = j)) as [->|]; [rewrite lookup_insert_eq; intros [= <-]|
      rewrite lookup_insert_ne by done; apply H2].
    eapply caller_ok_pending; [|exact Hok]. set_solver.
Qed.

Lemma abandon_inv id c st :
  worker_inv st → ws_callers st !! id = Some c → worker_inv (set_caller id CGone st).
Proof.
  intros [H1 H2 H3 H4] Hc. split; simpl; [| |done|done].
  - intros j Hj. destruct (decide (id = j)) as [->|]; [rewrite lookup_insert_eq; eauto|].
    rewrite lookup_insert_ne by done. by apply H1.
  - intros j cj. destruct (decide (id = j)) as [->|]; [rewrite lookup_insert_eq; intros [= <-]|
      rewrite lookup_insert_ne by done; apply H2]. split_and!; [done|by right|done].
Qed.

(** The registration and the caller of one id change, the others stay. *)
Lemma change_one_inv id c pending st :
  worker_inv st → (∀ j, j ≠ id → j ∈ pending ↔ j ∈ ws_pending st) →
  caller_ok pending (ws_frames st) id c →
  worker_inv (mkWorker (ws_alive st) (ws_reader st) pending (<[id := c]> (ws_callers st)) (ws_tail st)
                (ws_frames st)).
Proof.
  intros [H1 H2 H3 H4] Hj Hc. split; simpl; [| |done|done].
  - intros j Hin. destruct (decide (id = j)) as [->|]; [rewrite lookup_insert_eq; eauto|].
    rewrite lookup_insert_ne by done. apply H1. by apply Hj.
  - intros j cj. destruct (decide (id = j)) as [->|]; [rewrite lookup_insert_eq; by intros [= <-]|].
    rewrite lookup_insert_ne by done. intros Hcj. eapply caller_ok_pending; [|by apply H2].
    symmetry. by apply Hj.
Qed.

Lemma register_inv id st : worker_inv st → worker_inv (register id st).
Proof.
  intros Hi. apply change_one_inv; [done|set_solver|].
  split_and!; [set_solver|by left|done].
Qed.

Lemma unregister_inv id e st : worker_inv st → worker_inv (unregister id (Err e) st).
Proof.
  intros Hi. apply change_one_inv; [done|set_solver|]. split_and!; [done|set_solver|done].
Qed.

Lemma push_tail_bounded line tail :
  (length tail ≤ STDERR_RETAIN_LINES)%nat → (length (push_tail line tail) ≤ STDERR_RETAIN_LINES)%nat.
Proof.
  unfold push_tail. generalize (eq_refl : STDERR_RETAIN_LINES = 40%nat). generalize STDERR_RETAIN_LINES.
  intros n Hn Hle. rewrite length_app. simpl. destruct (length tail =? n)%nat eqn:E.
  - rewrite length_drop. apply Nat.eqb_eq in E. lia.
  - apply Nat.eqb_neq in E. lia.
Qed.

Section Demux.
Context `{json : JsonCodec} (max_content_size : nat) (timeout_secs : Z).

Lemma on_read_inv outcome st :
  worker_inv st → ws_reader st = Reading → worker_inv (on_read max_content_size outcome st).
Proof.
  intros Hi Hr. destruct outcome as [[line|prefix scanned|]|e]; simpl.
  - unfold on_line. destruct (String.eqb _ _); [done|]. destruct (json_parse _) as [v|]; [|done].
    destruct (value_get v "request_id" ≫= as_str) as [id|] eqn:E; [|done].
    apply route_inv; [by apply log_frame_inv|]. simpl. split; [set_solver|done].
  - unfold on_oversized. destruct (request_id_from_prefix prefix) as [id|]; [|by apply route_all_inv].
    case_bool_decide; [by apply route_inv|by apply route_all_inv].
  - destruct Hi as [H1 H2 H3 H4]. by split.
  - destruct Hi as [H1 H2 H3 H4]. by split.
Qed.

Lemma received_ok st id c r :
  worker_inv st → ws_callers st !! id = Some c → received (ws_tail st) c = Some r →
  (c ≠ CRegistered ∧ c ≠ CGone) ∧ caller_ok ∅ (ws_frames st) id (CDone r).
Proof.
  intros Hi Hc. destruct (wi_callers _ Hi id c Hc) as (_ & _ & Hok). destruct c as [| |[v|e]| | |]; try done.
  - intros [= <-]. split; [done|]. split_and!; [done|set_solver|]. destruct Hok as [Hv Hid].
    destruct (interpret_response v) eqn:E; [|done]. by exists v.
  - intros [= <-]. split; [done|]. split_and!; [done|set_solver|done].
  - intros [= <-]. split; [done|]. split_and!; [done|set_solver|done].
Qed.

Lemma worker_step_inv st st' :
  worker_step max_content_size timeout_secs st st' → worker_inv st → worker_inv st'.
Proof.
  intros [id task e st0 Hnew _|id task line st0 Hnew _|id st0 Hc|id st0 Hc|outcome st0 Hr|outcome line st0 _
         |st0 Hr|id c r st0 Hc Hrecv|id st0 Hc|id c st0 Hc _] Hi.
  - apply set_caller_inv; [done|by rewrite Hnew|done|split_and!; [done|set_solver|done]].
  - apply set_caller_inv; [done|by rewrite Hnew|done|split_and!; [done|set_solver|done]].
  - by apply register_inv.
  - by apply unregister_inv.
  - by apply on_read_inv.
  - destruct Hi as [H1 H2 H3 H4]. split; [done|done|done|by apply push_tail_bounded].
  - by apply on_clear_inv.
  - destruct (received_ok _ _ _ _ Hi Hc Hrecv) as [[Hne Hg] Hok]. apply set_caller_inv; [done| |done|done].
    rewrite Hc. split; congruence.
  - by apply unregister_inv.
  - by eapply abandon_inv.
Qed.

Lemma worker_reachable_inv st : worker_reachable max_content_size timeout_secs st → worker_inv st.
Proof.
  intros Hr. assert (worker_inv worker_new) as H0.
  { split; simpl; [set_solver|by intros ? ? ?|done|lia]. }
  induction Hr; eauto using worker_step_inv.
Qed.

(** C29: with any number of calls in flight and any order of answers, timeouts,
    failures and callers that are dropped while they wait, a call that returns a
    result returns the content of an answer the worker sent for that very call;
    every waiting caller is registered, and a registration is that of a caller
    that waits or was dropped, so an answer is handed out at most once; and the
    retained stderr never exceeds its ring.  (The registration of a dropped caller
    stays until the worker answers it or exits: [abandoned_registration].) *)
Theorem answers_are_own st :
  worker_reachable max_content_size timeout_secs st →
  (∀ id u, ws_callers st !! id = Some (CDone (Ok u)) →
     ∃ v, v ∈ ws_frames st ∧ answer_id v = Some id ∧ interpret_response v = Ok u) ∧
  (∀ id, ws_callers st !! id = Some CRegistered → id ∈ ws_pending st) ∧
  (∀ id, id ∈ ws_pending st →
     ws_callers st !! id = Some CRegistered ∨ ws_callers st !! id = Some CGone) ∧
  (length (ws_tail st) ≤ STDERR_RETAIN_LINES)%nat.
Proof.
  intros Hi%worker_reachable_inv. split_and!; [| | |apply (wi_tail _ Hi)].
  - intros id u Hc. by destruct (wi_callers _ Hi id _ Hc) as (_ & _ & ?).
  - intros id Hc. destruct (wi_callers _ Hi id _ Hc) as [Hp _]. by apply Hp.
  - intros id Hid. destruct (wi_pending _ Hi id Hid) as [c Hc].
    destruct (wi_callers _ Hi id c Hc) as (_ & Hp & _). rewrite Hc.
    destruct (Hp Hid) as [-> | ->]; auto.
Qed.

(** When the reader gives up, every caller registered by then is released. *)
Lemma clear_releases st id c :
  worker_reachable max_content_size timeout_secs st → ws_callers st !! id = Some CRegistered →
  ws_callers (on_clear st) !! id = Some c → c = CDropped.
Proof.
  intros Hr Hc. destruct (worker_reachable_inv _ Hr) as [_ H2 _ _]. destruct (H2 _ _ Hc) as [Hp _].
  simpl. rewrite map_lookup_imap, Hc. simpl. rewrite bool_decide_true by (by apply Hp). by intros [= <-].
Qed.

(** Once the reader has gone, a caller that is registered can only leave by
    its own timeout, because the writer is gone too, or by being dropped: nothing
    answers it. *)
Theorem late_caller_waits st st' id c :
  ws_reader st = Cleared → ws_callers st !! id = Some CRegistered →
  worker_step max_content_size timeout_secs st st' → ws_callers st' !! id = Some c →
  c = CRegistered ∨ c = CGone ∨ c = CDone (Err (HTimeout timeout_secs)) ∨
  c = CDone (Err (died (ws_tail st) "writer task is gone — the worker is no longer accepting tasks")).
Proof.
  intros Hcl Hid Hs.
  destruct Hs as [j task e st0 Hnew _|j task line st0 Hnew _|j st0 Hj|j st0 Hj|outcome st0 Hr|outcome line st0 _
         |st0 Hr|j cj r st0 Hj Hrecv|j st0 Hj|j cj st0 Hj _]; simpl; try congruence.
  all: try (rewrite Hid; intros [= <-]; by left).
  all: destruct (decide (j = id)) as [->|]; rewrite ?lookup_insert_eq, ?lookup_insert_ne by done;
    intros Hc'; simplify_eq; auto.
Qed.

End Demux.

(** A feature is granted only when the worker itself listed it. *)
Lemma capabilities_claimed answer caps f :
  capabilities answer = Ok caps → capabilities_has caps f = true →
  ∃ response l, answer = Ok response ∧ value_get response "features" = Some (VArray l) ∧ VString f ∈ l.
Proof.
  destruct answer as [response|[]]; simpl; intros [= <-] Hf; unfold capabilities_has in Hf;
    apply bool_decide_eq_true in Hf; simpl in Hf; [|set_solver].
  destruct (value_get response "features") as [[]|] eqn:E; try set_solver.
  exists response. eexists. split_and!; [done|done|].
  apply elem_of_list_to_set, list_elem_of_omap in Hf as (v & Hv & Hs).
  destruct v; try done. by injection Hs as ->.
Qed.

(** ** Witnesses *)

Module WorkerDemo.

(** A codec for one task and one answer. *)
Definition answer : Value := VObject {[ "request_id" := VString "a"; "n" := VNumber (PosInt 1) ]}.
#[local] Instance demo_codec : JsonCodec := {
  json_parse s := if String.eqb s "answer" then Some answer else None;
  json_print v := Ok "task"
}.

Lemma rtc_eq {A} (R : relation A) x y : x = y → rtc R x y.
Proof. by intros ->. Qed.

Definition waiting : WorkerState := mkWorker true Reading {[ "a" ]} {[ "a" := CRegistered ]} [] [].

Lemma waiting_reachable : worker_reachable 100 30 waiting.
Proof.
  eapply rtc_l; [apply (st_started 100 30 "a" (VObject ∅) "task" worker_new); by vm_compute|].
  eapply rtc_l; [apply (st_registered 100 30 "a"); by vm_compute|].
  apply rtc_eq. by vm_compute.
Qed.

Definition answered : WorkerState :=
  set_caller "a" (CDone (interpret_response answer)) (on_read 100 (Ok (BLine "answer")) waiting).

Lemma own_answers_witness :
  ws_callers answered !! "a" = Some (CDone (Ok (VObject {[ "n" := VNumber (PosInt 1) ]}))) ∧
  ∃ v, v ∈ ws_frames answered ∧ answer_id v = Some "a".
Proof.
  split; [by vm_compute|].
  destruct (answers_are_own 100 30 answered) as [H _].
  - unfold worker_reachable. etransitivity; [apply waiting_reachable|].
    eapply rtc_l; [apply (st_read 100 30 (Ok (BLine "answer"))); by vm_compute|].
    apply rtc_once. apply (st_returned 100 30 "a" (CValue (Ok answer))); by vm_compute.
  - destruct (H "a" (VObject {[ "n" := VNumber (PosInt 1) ]})) as (v & Hv & Hid & _); [by vm_compute|].
    by exists v.
Defined.

(** The caller looks at the flag, the reader sets it and clears the map, and the
    caller registers. *)
Definition late : WorkerState := mkWorker false Cleared {[ "a" ]} {[ "a" := CRegistered ]} [] [].

Example registration_after_clear : worker_reachable 100 30 late.
Proof.
  eapply rtc_l; [apply (st_started 100 30 "a" (VObject ∅) "task" worker_new); by vm_compute|].
  eapply rtc_l; [apply (st_read 100 30 (Ok BEof)); by vm_compute|].
  eapply rtc_l; [apply (st_cleared 100 30); by vm_compute|].
  eapply rtc_l; [apply (st_registered 100 30 "a"); by vm_compute|].
  apply rtc_eq. by vm_compute.
Qed.

Lemma late_caller_witness :
  ws_callers (on_stderr "bye" late) !! "a" = Some CRegistered ∧
  (CRegistered = CRegistered ∨ CRegistered = CGone ∨ CRegistered = CDone (Err (HTimeout 30)) ∨
   CRegistered = CDone (Err (died [] "writer task is gone — the worker is no longer accepting tasks"))).
Proof.
  split; [by vm_compute|].
  apply (late_caller_waits 100 30 late (on_stderr "bye" late) "a"); try (by vm_compute).
  by apply (st_stderr 100 30 (BLine "bye")).
Defined.

(** A caller that is dropped while it waits leaves its registration behind. *)
Example abandoned_registration :
  let st := set_caller "a" CGone waiting in
  worker_reachable 100 30 st ∧ ws_pending st = {[ "a" ]}.
Proof.
  split; [|by vm_compute]. unfold worker_reachable. etransitivity; [apply waiting_reachable|].
  apply rtc_once. by apply (st_abandoned 100 30 "a" CRegistered).
Qed.

End WorkerDemo.
