(* ===== verification/HostVenv.v ===== *)
(** * The virtual environments of the Python host (cpex-hosts-python/src/venv.rs)

    When a cached environment is reused, updated in place or rebuilt, who may
    delete a shared one, and what the cache metadata says about its content.  The
    file system is a value: the files by path, and the environments with the
    interpreter build and the requirements pip has installed.  Every operation
    of the system that can fail takes its outcome from [BuildIo], which also says
    what a failure leaves behind.  Digests, JSON text and the alphanumeric
    characters beyond ASCII are parameters. *)

From Stdlib Require Import Ascii.
From S2P Require Import Prelude RustStd F64 Json JsonMerge Session.
From S2P Require Import HostError HostWorker.

Local Open Scope string_scope.
Local Open Scope list_scope.

Definition DEFAULT_PIP_TIMEOUT_SECS : Z := 600.
Definition OWNERS_FILENAME : string := "owners.json".

(** ** The file system *)

Record Venv := mkVenv { vn_build : nat; vn_installed : list string }.

Record Fs := mkFs {
  fs_files : gmap string string;
  fs_venvs : gmap string Venv;
  fs_builds : nat
}.

Definition set_file (path : string) (content : option string) (fs : Fs) : Fs :=
  mkFs (partial_alter (λ _, content) path (fs_files fs)) (fs_venvs fs) (fs_builds fs).
Definition set_venv (path : string) (v : option Venv) (fs : Fs) : Fs :=
  mkFs (fs_files fs) (partial_alter (λ _, v) path (fs_venvs fs)) (fs_builds fs).

(** A write that fails leaves the file with some content, or without one. *)
Definition WriteIo := option (string * option string).

(** How [python3 -m venv] ends: an environment, no run, or a failure with what it
    left. *)
Inductive VenvRun :=
| VenvMade
| VenvNotRun (e : string)
| VenvExit (code : option Z) (stderr : string) (leftover : option Venv).

(** How [pip install] ends; a failure leaves some packages behind. *)
Inductive PipRun :=
| PipDone
| PipNotRun (e : string)
| PipWaitFailed (e : string) (leftover : list string)
| PipTimeout (leftover : list string)
| PipExit (code : option Z) (stderr : string) (leftover : list string).

Record BuildIo := mkBuildIo {
  io_plugin_dir : option string;
  io_cache_dir : option string;
  io_remove : option (string * option Venv);
  io_venv : VenvRun;
  io_pip : PipRun;
  io_meanwhile : list (string * option string);   (** what others write while pip runs *)
  io_owners_dir : option string;
  io_owners_write : WriteIo;
  io_owners_remove : option string;
  io_metadata_write : WriteIo
}.

(** Everything works. *)
Definition io_ok : BuildIo := mkBuildIo None None None VenvMade PipDone [] None None None None.

(** Operations on the file system that may fail. *)
Definition VenvM (A : Type) := Fs → Result A HostError * Fs.
Definition vret {A} (a : A) : VenvM A := λ fs, (Ok a, fs).
Definition vfail {A} (e : HostError) : VenvM A := λ fs, (Err e, fs).
Definition vbind {A B} (m : VenvM A) (k : A → VenvM B) : VenvM B :=
  λ fs, let '(r, fs) := m fs in match r with Ok a => k a fs | Err e => (Err e, fs) end.

Declare Scope venv_scope.
Notation "'let!' x ':=' m 'in' k" := (vbind m (λ x, k))
  (at level 10, x name, m at level 100, k at level 200) : venv_scope.
Local Open Scope venv_scope.

Definition try_io (error : option string) (f : string → HostError) : VenvM unit :=
  match error with Some e => vfail (f e) | None => vret tt end.
Definition write_file (path text : string) (io : WriteIo) (f : string → HostError) : VenvM unit :=
  λ fs, match io with
        | None => (Ok tt, set_file path (Some text) fs)
        | Some (e, leftover) => (Err (f e), set_file path leftover fs)
        end.

(** ** Metadata and owners *)

Record CacheMetadata := mkCacheMetadata {
  cm_venv_path : string;
  cm_requirements_file : option string;
  cm_requirements_hash : string;
  cm_manifest_version : option string;
  cm_manifest_hash : option string;
  cm_python_version : option string
}.

Inductive CacheVerdict :=
| Valid
| VenvMissing
| MetadataMissing
| MetadataUnreadable
| RequirementsChanged
| ManifestVersionChanged
| ManifestHashChanged.

Definition is_valid (v : CacheVerdict) : bool := match v with Valid => true | _ => false end.

(** An optional text as serde writes it, and as it reads it back with
    [#[serde(default)]]. *)
Definition opt_json (o : option string) : Value := from_option VString Null o.
Definition opt_field (m : gmap string Value) (key : string) : option (option string) :=
  match m !! key with
  | None | Some Null => Some None
  | Some (VString s) => Some (Some s)
  | Some _ => None
  end.
Definition put_some (key : string) (o : option string) (m : gmap string Value) : gmap string Value :=
  match o with Some s => <[key := VString s]> m | None => m end.

Definition metadata_json (md : CacheMetadata) : Value :=
  VObject (put_some "manifest_version" (cm_manifest_version md)
            (put_some "manifest_hash" (cm_manifest_hash md)
              {[ "venv_path" := VString (cm_venv_path md);
                 "requirements_file" := opt_json (cm_requirements_file md);
                 "requirements_hash" := VString (cm_requirements_hash md);
                 "python_version" := opt_json (cm_python_version md) ]})).

Definition metadata_of_json (v : Value) : option CacheMetadata :=
  m ← struct_fields ["venv_path"; "requirements_file"; "requirements_hash"; "manifest_version";
                     "manifest_hash"; "python_version"] v;
  venv_path ← m !! "venv_path" ≫= as_str;
  requirements_file ← opt_field m "requirements_file";
  requirements_hash ← m !! "requirements_hash" ≫= as_str;
  manifest_version ← opt_field m "manifest_version";
  manifest_hash ← opt_field m "manifest_hash";
  python_version ← opt_field m "python_version";
  Some (mkCacheMetadata venv_path requirements_file requirements_hash manifest_version manifest_hash
          python_version).

(** [VenvOwners]. *)
Definition owners_json (owners : gset string) : Value :=
  VObject {[ "owners" := VArray (VString <$> sorted_elements owners) ]}.
Definition owners_of_json (v : Value) : option (gset string) :=
  m ← struct_fields ["owners"] v;
  match m !! "owners" with
  | None => Some ∅
  | Some (VArray l) => list_to_set <$> mapM as_str l
  | Some _ => None
  end.

Definition has_other_owner (owners : gset string) (class_name : string) : bool :=
  existsb (λ o, negb (String.eqb o class_name)) (elements owners).

(** ** Layout *)

(** [char::is_alphanumeric] beyond ASCII. *)
Class UnicodeAlnum := unicode_alnum : string → bool.

Definition is_alphanumeric `{UnicodeAlnum} (c : string) : bool :=
  match c with
  | String b EmptyString => is_ascii_alphanumeric b
  | _ => unicode_alnum c
  end.

Definition is_dash (c : string) : bool := String.eqb c "-".

(** [trim_matches('-')] on the characters. *)
Definition trim_dashes (l : list string) : list string :=
  rev (drop_while is_dash (rev (drop_while is_dash l))).

Definition manifest_stem_for_class `{UnicodeAlnum} (class_name : string) : string :=
  let safe := (λ c, if is_alphanumeric c || String.eqb c "-" || String.eqb c "_" then c else "-")
                <$> chars (trim class_name) in
  let safe := concat_str (trim_dashes safe) in
  if String.eqb safe EmptyString then "plugin" else safe.

Definition manifest_filename_for_class `{UnicodeAlnum} (class_name : string) : string :=
  manifest_stem_for_class class_name +:+ ".plugin-manifest.yaml".

Record VenvLayout := mkLayout {
  vl_plugin_path : string;
  vl_venv_path : string;
  vl_cache_dir : string;
  vl_metadata_path : string;
  vl_manifest_path : string;
  vl_owners_path : string
}.

Definition class_root (class_name : string) : string := default class_name (head (split_on "."%char class_name)).

(** [VenvLayout::resolve]. *)
Definition layout_resolve `{UnicodeAlnum} (plugin_dirs : list string) (class_name : string) :
    Result VenvLayout HostError :=
  match plugin_dirs with
  | [] =>
      Err (HConfig ("isolated_venv requires at least one plugin directory — "
                      +:+ "the venv is built under the first one"))
  | first :: _ =>
      if String.eqb (class_root class_name) EmptyString then
        Err (HConfig ("`class_name` '" +:+ class_name +:+ "' has no leading package segment"))
      else
        let plugin_path := path_join first (class_root class_name) in
        let cache_dir := path_join (path_join plugin_path ".cpex") "venv_cache" in
        Ok (mkLayout plugin_path (path_join plugin_path ".venv") cache_dir
              (path_join cache_dir (manifest_stem_for_class class_name +:+ "_metadata.json"))
              (path_join plugin_path (manifest_filename_for_class class_name))
              (path_join cache_dir OWNERS_FILENAME))
  end.

Definition python_executable (self : VenvLayout) : string :=
  path_join (path_join (vl_venv_path self) "bin") "python".

(** ** The manager *)

Inductive EnsureOutcome :=
| Reused
| Built (installed_requirements : bool)
| SharedUpdate (installed_requirements : bool).

Record VenvManager := mkVenvManager {
  vm_layout : VenvLayout;
  vm_requirements_file : option string;
  vm_manifest_version : option string;
  vm_class_name : string;
  vm_pip_timeout_secs : Z
}.

(** [VenvManager::new]. *)
Definition venv_manager_new `{UnicodeAlnum} (plugin_dirs : list string) (class_name : string)
    (requirements_file manifest_version : option string) : Result VenvManager HostError :=
  let? layout := layout_resolve plugin_dirs class_name in
  Ok (mkVenvManager layout
        ((λ rel, if is_absolute rel then rel else path_join (vl_plugin_path layout) rel) <$> requirements_file)
        manifest_version class_name DEFAULT_PIP_TIMEOUT_SECS).

Definition with_pip_timeout_secs (secs : Z) (self : VenvManager) : VenvManager :=
  mkVenvManager (vm_layout self) (vm_requirements_file self) (vm_manifest_version self)
    (vm_class_name self) secs.

(** [serde_json::to_string_pretty]. *)
Class PrettyJson := to_string_pretty : Value → Result string string.

Section Manager.
Context `{sha : Sha256} `{json : JsonCodec} `{pretty : PrettyJson} `{utf8 : Utf8}.

Definition digest_hex (content : string) : string := concat_str (hex_byte <$> sha256 content).

Definition hash_file_or_empty (fs : Fs) (path : option string) : string :=
  digest_hex (default EmptyString (p ← path; fs_files fs !! p)).

Definition load_metadata (fs : Fs) (path : string) : option CacheMetadata :=
  raw ← fs_files fs !! path; v ← json_parse raw; metadata_of_json v.

Definition evaluate_cache (fs : Fs) (venv_path metadata_path expected_requirements_hash : string)
    (expected_manifest_version expected_manifest_hash : option string) : CacheVerdict :=
  if bool_decide (fs_venvs fs !! venv_path = None) then VenvMissing
  else if bool_decide (fs_files fs !! metadata_path = None) then MetadataMissing
  else
    match load_metadata fs metadata_path with
    | None => MetadataUnreadable
    | Some metadata =>
        if negb (String.eqb (cm_requirements_hash metadata) expected_requirements_hash) then RequirementsChanged
        else if bool_decide (is_Some (cm_manifest_version metadata)) &&
                negb (bool_decide (cm_manifest_version metadata = expected_manifest_version))
        then ManifestVersionChanged
        else if bool_decide (is_Some (cm_manifest_hash metadata)) &&
                negb (bool_decide (cm_manifest_hash metadata = expected_manifest_hash))
        then ManifestHashChanged
        else Valid
    end.

(** [VenvOwners::load]. *)
Definition owners_load (fs : Fs) (path : string) : gset string :=
  default ∅ (raw ← fs_files fs !! path; v ← json_parse raw; owners_of_json v).

Definition cache_verdict (self : VenvManager) (fs : Fs) : CacheVerdict :=
  evaluate_cache fs (vl_venv_path (vm_layout self)) (vl_metadata_path (vm_layout self))
    (hash_file_or_empty fs (vm_requirements_file self))
    (vm_manifest_version self)
    (Some (hash_file_or_empty fs (Some (vl_manifest_path (vm_layout self))))).

Definition venv_has_other_owner (self : VenvManager) (fs : Fs) : bool :=
  has_other_owner (owners_load fs (vl_owners_path (vm_layout self))) (vm_class_name self).

Definition print_pretty (what : string) (v : Value) : VenvM string :=
  match to_string_pretty v with
  | Ok text => vret text
  | Err e => vfail (HVenvBuild ("could not serialize " +:+ what +:+ ": " +:+ e))
  end.

Definition at_path (what path e : string) : HostError :=
  HVenvBuild (what +:+ " " +:+ path +:+ ": " +:+ e).

Definition register_owner (self : VenvManager) (io : BuildIo) : VenvM unit := λ fs,
  let path := vl_owners_path (vm_layout self) in
  let owners := owners_load fs path in
  if bool_decide (vm_class_name self ∈ owners) then (Ok tt, fs)
  else
    (let! _ := try_io (io_owners_dir io) (at_path "could not create cache dir" (vl_cache_dir (vm_layout self))) in
     let! text := print_pretty "the venv owner registry" (owners_json ({[ vm_class_name self ]} ∪ owners)) in
     write_file path text (io_owners_write io) (at_path "could not write venv owners" path)) fs.

Definition release_owner (self : VenvManager) (io : BuildIo) : VenvM unit := λ fs,
  let path := vl_owners_path (vm_layout self) in
  let owners := owners_load fs path in
  let rest := owners ∖ {[ vm_class_name self ]} in
  if negb (bool_decide (vm_class_name self ∈ owners)) then (Ok tt, fs)
  else if bool_decide (rest = ∅) then
    if bool_decide (fs_files fs !! path = None) then (Ok tt, fs)
    else
      match io_owners_remove io with
      | Some e => (Err (at_path "could not remove venv owners" path e), fs)
      | None => (Ok tt, set_file path None fs)
      end
  else
    (let! text := print_pretty "the venv owner registry" (owners_json rest) in
     write_file path text (io_owners_write io) (at_path "could not write venv owners" path)) fs.

(** [remove_dir_all] on the environment, where there is one. *)
Definition remove_venv (self : VenvManager) (io : BuildIo) : VenvM unit := λ fs,
  let path := vl_venv_path (vm_layout self) in
  if bool_decide (fs_venvs fs !! path = None) then (Ok tt, fs)
  else
    match io_remove io with
    | Some (e, leftover) => (Err (at_path "could not remove stale venv" path e), set_venv path leftover fs)
    | None => (Ok tt, set_venv path None fs)
    end.

Definition prepare_directories (self : VenvManager) (io : BuildIo) (update_in_place : bool) : VenvM unit :=
  let! _ := try_io (io_plugin_dir io)
              (at_path "could not create plugin dir" (vl_plugin_path (vm_layout self))) in
  let! _ := try_io (io_cache_dir io)
              (at_path "could not create cache dir" (vl_cache_dir (vm_layout self))) in
  if update_in_place then vret tt else remove_venv self io.

(** [ProcessOutput::from_output], and the same by hand in [install_requirements]. *)
Definition from_output (code : option Z) (stderr : string) : ProcessOutput :=
  mkProcessOutput code (trim (from_utf8_lossy stderr)).

Definition create_venv (self : VenvManager) (io : BuildIo) : VenvM unit := λ fs,
  let path := vl_venv_path (vm_layout self) in
  match io_venv io with
  | VenvMade =>
      (Ok tt, mkFs (fs_files fs) (<[path := mkVenv (fs_builds fs) []]> (fs_venvs fs)) (S (fs_builds fs)))
  | VenvNotRun e =>
      (Err (HVenvBuild ("could not run `python3 -m venv`: " +:+ e +:+ " (is python3 on PATH?)")), fs)
  | VenvExit code stderr leftover =>
      (Err (HVenvCommand "python3 -m venv" path (from_output code stderr)), set_venv path leftover fs)
  end.

(** What is installed in the environment, the interpreter kept. *)
Definition reinstall (path : string) (f : list string → list string) (fs : Fs) : Fs :=
  mkFs (fs_files fs) (alter (λ v, mkVenv (vn_build v) (f (vn_installed v))) path (fs_venvs fs)) (fs_builds fs).

Definition install_requirements (self : VenvManager) (io : BuildIo) : VenvM bool := λ fs,
  let path := vl_venv_path (vm_layout self) in
  let python := python_executable (vm_layout self) in
  match (p ← vm_requirements_file self; content ← fs_files fs !! p; Some (p, content)) with
  | None => (Ok false, fs)
  | Some (requirements, content) =>
      match io_pip io with
      | PipDone => (Ok true, reinstall path (λ l, content :: l) fs)
      | PipNotRun e => (Err (HVenvBuild ("could not run pip in " +:+ python +:+ ": " +:+ e)), fs)
      | PipWaitFailed e leftover =>
          (Err (HVenvBuild ("could not wait on pip in " +:+ python +:+ ": " +:+ e)),
           reinstall path (λ _, leftover) fs)
      | PipTimeout leftover =>
          (Err (HVenvBuild
                  ("pip install -r " +:+ requirements +:+ " exceeded the "
                     +:+ show_Z (vm_pip_timeout_secs self)
                     +:+ "s timeout and was killed — check network reachability to the package index, "
                     +:+ "or raise the pip timeout")),
           reinstall path (λ _, leftover) fs)
      | PipExit code stderr leftover =>
          (Err (HVenvCommand "pip install" requirements (from_output code stderr)),
           reinstall path (λ _, leftover) fs)
      end
  end.

(** [pip install] runs as a process of its own, for as long as its timeout allows;
    files that others write meanwhile are there afterwards. *)
Definition meanwhile (io : BuildIo) : VenvM unit := λ fs,
  (Ok tt, foldl (λ fs e, set_file e.1 e.2 fs) fs (io_meanwhile io)).

Definition metadata_of (self : VenvManager) (fs : Fs) : CacheMetadata :=
  mkCacheMetadata (vl_venv_path (vm_layout self))
    (p ← vm_requirements_file self; _ ← fs_files fs !! p; Some p)
    (hash_file_or_empty fs (vm_requirements_file self))
    (vm_manifest_version self)
    (Some (hash_file_or_empty fs (Some (vl_manifest_path (vm_layout self)))))
    None.

Definition save_metadata (self : VenvManager) (io : BuildIo) : VenvM unit := λ fs,
  let path := vl_metadata_path (vm_layout self) in
  (let! text := print_pretty "cache metadata" (metadata_json (metadata_of self fs)) in
   write_file path text (io_metadata_write io) (at_path "could not write cache metadata" path)) fs.

(** The build of [ensure], for a cache that is not valid. *)
Definition rebuild (self : VenvManager) (io : BuildIo) (update_in_place : bool) : VenvM EnsureOutcome :=
  let! _ := prepare_directories self io update_in_place in
  let! _ := (if update_in_place then vret tt else create_venv self io) in
  let! installed_requirements := install_requirements self io in
  let! _ := meanwhile io in
  let! _ := register_owner self io in
  let! _ := save_metadata self io in
  vret (if update_in_place then SharedUpdate installed_requirements else Built installed_requirements).

Definition ensure (self : VenvManager) (io : BuildIo) : VenvM EnsureOutcome := λ fs,
  if is_valid (cache_verdict self fs) then
    (let! _ := register_owner self io in vret Reused) fs
  else
    let shared := venv_has_other_owner self fs in
    let venv_exists := bool_decide (is_Some (fs_venvs fs !! vl_venv_path (vm_layout self))) in
    rebuild self io (shared && venv_exists) fs.

End Manager.

(** ** What is written reads back *)

Lemma metadata_json_reads md : metadata_of_json (metadata_json md) = Some md.
Proof. by destruct md as [p [f|] h [mv|] [mh|] [pv|]]. Qed.

Lemma mapM_as_str l : mapM as_str (VString <$> l) = Some l.
Proof. induction l as [|s l IH]; [done|]. rewrite fmap_cons. cbn [mapM mret option_ret mbind option_bind as_str]. by rewrite IH. Qed.

Lemma owners_json_reads owners : owners_of_json (owners_json owners) = Some owners.
Proof.
  unfold owners_of_json, owners_json, struct_fields. cbn [mbind option_bind]. rewrite lookup_singleton_eq. cbv beta iota. rewrite mapM_as_str. simpl. f_equal.
  apply set_eq. intros x. by rewrite elem_of_list_to_set, elem_of_sorted_elements.
Qed.

Lemma has_other_owner_spec owners class :
  has_other_owner owners class = true ↔ ∃ other, other ∈ owners ∧ other ≠ class.
Proof.
  unfold has_other_owner. rewrite existsb_exists. split; intros (x & Hx & Hne); exists x.
  - split; [by apply elem_of_elements, list_elem_of_In|]. by apply negb_true_iff, String.eqb_neq in Hne.
  - split; [by apply list_elem_of_In, elem_of_elements|]. by apply negb_true_iff, String.eqb_neq.
Qed.

(** ** Reasoning about operations on the file system *)

Lemma vbind_ok {A B} (m : VenvM A) (k : A → VenvM B) fs b fs' :
  vbind m k fs = (Ok b, fs') ↔ ∃ a fs1, m fs = (Ok a, fs1) ∧ k a fs1 = (Ok b, fs').
Proof.
  unfold vbind. destruct (m fs) as [[a|e] fs1]; split; [by eauto|by intros (? & ? & [= <- <-] & ?)|done|].
  by intros (? & ? & ? & ?).
Qed.

(** Whatever its outcome, an operation relates the file systems around it. *)
Definition keeps {A} (R : relation Fs) (m : VenvM A) : Prop := ∀ fs, R fs (m fs).2.

Lemma vret_keeps {A} (R : relation Fs) `{!Reflexive R} (a : A) : keeps R (vret a).
Proof. by intros fs. Qed.
Lemma try_io_keeps (R : relation Fs) `{!Reflexive R} e f : keeps R (try_io e f).
Proof. intros fs. by destruct e. Qed.
Lemma vbind_keeps {A B} (R : relation Fs) `{!Transitive R} (m : VenvM A) (k : A → VenvM B) :
  keeps R m → (∀ a, keeps R (k a)) → keeps R (vbind m k).
Proof.
  intros Hm Hk fs. unfold vbind. specialize (Hm fs). destruct (m fs) as [[a|e] fs1]; [|done].
  simpl in Hm. etransitivity; [exact Hm|apply Hk].
Qed.

(** The interpreter of an environment is the same one, if there is any. *)
Definition same_interpreter (path : string) : relation Fs :=
  λ fs fs', (vn_build <$> (fs_venvs fs' !! path)) = (vn_build <$> (fs_venvs fs !! path)).

#[export] Instance same_interpreter_preorder path : PreOrder (same_interpreter path).
Proof. split; [by intros x|]. intros x y z Hxy Hyz. unfold same_interpreter in *. by rewrite Hyz. Qed.

Lemma set_file_interpreter path p content fs : same_interpreter path fs (set_file p content fs).
Proof. done. Qed.
Lemma reinstall_interpreter path p f fs : same_interpreter path fs (reinstall p f fs).
Proof.
  unfold same_interpreter, reinstall. simpl. destruct (decide (p = path)) as [->|].
  - rewrite lookup_alter_eq. by destruct (fs_venvs fs !! path).
  - by rewrite lookup_alter_ne.
Qed.

Create HintDb venv.
#[export] Hint Resolve vret_keeps try_io_keeps set_file_interpreter reinstall_interpreter : venv.
#[export] Hint Resolve vbind_keeps : venv.

Section Laws.
Context `{sha : Sha256} `{json : JsonCodec} `{pretty : PrettyJson} `{utf8 : Utf8}.

Lemma write_file_keeps path p text io f : keeps (same_interpreter path) (write_file p text io f).
Proof. intros fs. by destruct io as [[e c]|]. Qed.
Lemma print_pretty_keeps path what v : keeps (same_interpreter path) (print_pretty what v).
Proof. intros fs. unfold print_pretty. by destruct (to_string_pretty v). Qed.
Local Hint Resolve write_file_keeps print_pretty_keeps : venv.

Lemma register_owner_keeps m io path : keeps (same_interpreter path) (register_owner m io).
Proof.
  intros fs. unfold register_owner. case_bool_decide; [done|]. apply (vbind_keeps (same_interpreter path)); [auto with typeclass_instances venv|].
  intros _. apply vbind_keeps; [apply _|auto with venv|auto with venv].
Qed.

Lemma install_requirements_keeps m io path : keeps (same_interpreter path) (install_requirements m io).
Proof.
  intros fs. unfold install_requirements. destruct (_ ≫= _) as [[p c]|]; [|done].
  destruct (io_pip io); simpl; auto with venv; done.
Qed.

Lemma save_metadata_keeps m io path : keeps (same_interpreter path) (save_metadata m io).
Proof. intros fs. unfold save_metadata. apply (vbind_keeps (same_interpreter path)); auto with venv. Qed.

Lemma meanwhile_keeps io path : keeps (same_interpreter path) (meanwhile io).
Proof.
  intros fs. unfold meanwhile. cbn [snd]. revert fs. induction (io_meanwhile io) as [|e l IH]; intros fs; [done|].
  cbn [foldl]. etransitivity; [apply set_file_interpreter|apply IH].
Qed.

(** A rebuild in place never touches the interpreter. *)
Lemma rebuild_in_place_keeps m io path : keeps (same_interpreter path) (rebuild m io true).
Proof.
  unfold rebuild, prepare_directories.
  repeat first [apply save_metadata_keeps | apply meanwhile_keeps | apply register_owner_keeps | apply install_requirements_keeps
               | apply try_io_keeps, _ | apply vret_keeps, _ | apply vbind_keeps; [apply _| |intros ?]].
Qed.

(** As long as another plugin has claimed the shared environment, bringing it up
    to date for this one leaves the other's interpreter in place, whatever fails
    on the way. *)
Theorem co_owner_keeps_interpreter m io fs other v :
  other ∈ owners_load fs (vl_owners_path (vm_layout m)) → other ≠ vm_class_name m →
  fs_venvs fs !! vl_venv_path (vm_layout m) = Some v →
  ∃ v', fs_venvs (ensure m io fs).2 !! vl_venv_path (vm_layout m) = Some v' ∧ vn_build v' = vn_build v.
Proof.
  intros Ho Hne Hv.
  assert (same_interpreter (vl_venv_path (vm_layout m)) fs (ensure m io fs).2) as Hs.
  { unfold ensure. destruct (is_valid _).
    - apply (vbind_keeps (same_interpreter _)); [apply register_owner_keeps|intros ?; apply vret_keeps, _].
    - assert (venv_has_other_owner m fs = true) as ->.
      { apply has_other_owner_spec. eauto. }
      rewrite bool_decide_true by (by rewrite Hv). apply rebuild_in_place_keeps. }
  unfold same_interpreter in Hs. rewrite Hv in Hs. by apply fmap_Some in Hs as (v' & -> & ?); eauto.
Qed.

(** What reads of files the verdict and the metadata depend on. *)
Definition agrees (m : VenvManager) (fs fs' : Fs) : Prop :=
  (∀ p, vm_requirements_file m = Some p → fs_files fs' !! p = fs_files fs !! p) ∧
  fs_files fs' !! vl_manifest_path (vm_layout m) = fs_files fs !! vl_manifest_path (vm_layout m).

Definition requirements_content (m : VenvManager) (fs : Fs) : option string :=
  p ← vm_requirements_file m; fs_files fs !! p.

Lemma agrees_content m fs fs' : agrees m fs fs' → requirements_content m fs' = requirements_content m fs.
Proof. intros [Hr _]. unfold requirements_content. destruct (vm_requirements_file m); simpl; auto. Qed.

Lemma agrees_metadata m fs fs' : agrees m fs fs' → metadata_of m fs' = metadata_of m fs.
Proof.
  intros [Hr Hm]. unfold metadata_of, hash_file_or_empty. simpl. rewrite Hm.
  destruct (vm_requirements_file m) as [p|]; simpl; [|done]. by rewrite (Hr p).
Qed.

Lemma agrees_verdict m fs fs' :
  agrees m fs fs' → is_Some (fs_venvs fs' !! vl_venv_path (vm_layout m)) →
  is_Some (fs_venvs fs !! vl_venv_path (vm_layout m)) →
  fs_files fs' !! vl_metadata_path (vm_layout m) = fs_files fs !! vl_metadata_path (vm_layout m) →
  cache_verdict m fs' = cache_verdict m fs.
Proof.
  intros [Hr Hm] [v' Hv'] [v Hv] Hf. unfold cache_verdict, evaluate_cache, load_metadata.
  rewrite Hv', Hv, Hf. simpl. unfold hash_file_or_empty. simpl. rewrite Hm.
  destruct (vm_requirements_file m) as [p|]; simpl; [|done]. by rewrite (Hr p).
Qed.

Lemma fresh_metadata_valid m fs :
  is_Some (fs_venvs fs !! vl_venv_path (vm_layout m)) →
  load_metadata fs (vl_metadata_path (vm_layout m)) = Some (metadata_of m fs) →
  cache_verdict m fs = Valid.
Proof.
  intros [v Hv] Hl. unfold cache_verdict, evaluate_cache. rewrite Hl, Hv.
  assert (fs_files fs !! vl_metadata_path (vm_layout m) ≠ None) as Hf.
  { intros H. unfold load_metadata in Hl. by rewrite H in Hl. }
  rewrite (bool_decide_false (Some v = None)), (bool_decide_false _ Hf) by done.
  unfold metadata_of. cbn [cm_requirements_hash cm_manifest_version cm_manifest_hash].
  rewrite String.eqb_refl. cbn [negb].
  rewrite (bool_decide_eq_true_2 (vm_manifest_version m = _)), (bool_decide_eq_true_2 (Some _ = Some _)) by done.
  by rewrite !andb_false_r.
Qed.

(** JSON text that the host writes is what it reads. *)
Context (pretty_reads : ∀ v text, to_string_pretty v = Ok text → json_parse text = Some v).

Lemma print_pretty_ok what v text fs fs' :
  print_pretty what v fs = (Ok text, fs') → fs' = fs ∧ json_parse text = Some v.
Proof. unfold print_pretty. destruct (to_string_pretty v) eqn:E; intros [= <- <-]. auto. Qed.

Lemma write_file_ok p text io f fs u fs' :
  write_file p text io f fs = (Ok u, fs') → fs' = set_file p (Some text) fs.
Proof. by destruct io as [[]|]; intros [= <- <-] || done. Qed.

Lemma try_io_ok e f fs u fs' : try_io e f fs = (Ok u, fs') → fs' = fs.
Proof. destruct e; [done|]. by intros [= _ <-]. Qed.

Lemma set_file_lookup p c fs q :
  fs_files (set_file p c fs) !! q = if decide (q = p) then c else fs_files fs !! q.
Proof.
  simpl. destruct (decide (q = p)) as [->|]; [by rewrite lookup_partial_alter_eq|].
  by rewrite lookup_partial_alter_ne.
Qed.

Lemma register_owner_ok m io fs u fs' :
  register_owner m io fs = (Ok u, fs') →
  vm_class_name m ∈ owners_load fs' (vl_owners_path (vm_layout m)) ∧ fs_venvs fs' = fs_venvs fs ∧
  ∀ p, p ≠ vl_owners_path (vm_layout m) → fs_files fs' !! p = fs_files fs !! p.
Proof.
  unfold register_owner. case_bool_decide as Hin; [by intros [= <- <-]|].
  intros (? & fs1 & H1%try_io_ok & (text & fs2 & [-> Hp]%print_pretty_ok & H3%write_file_ok)%vbind_ok)%vbind_ok.
  subst. split_and!; [|done|].
  - unfold owners_load. rewrite set_file_lookup, decide_True by done. cbn [mbind option_bind].
    rewrite Hp. cbn [mbind option_bind]. rewrite owners_json_reads. simpl. set_solver.
  - intros p Hne. by rewrite set_file_lookup, decide_False.
Qed.

Lemma save_metadata_ok m io fs u fs' :
  save_metadata m io fs = (Ok u, fs') →
  load_metadata fs' (vl_metadata_path (vm_layout m)) = Some (metadata_of m fs) ∧
  fs_venvs fs' = fs_venvs fs ∧
  ∀ p, p ≠ vl_metadata_path (vm_layout m) → fs_files fs' !! p = fs_files fs !! p.
Proof.
  unfold save_metadata. intros (text & fs1 & [-> Hp]%print_pretty_ok & ->%write_file_ok)%vbind_ok.
  split_and!; [|done|].
  - unfold load_metadata. rewrite set_file_lookup, decide_True by done. cbn [mbind option_bind].
    rewrite Hp. apply metadata_json_reads.
  - intros p Hne. by rewrite set_file_lookup, decide_False.
Qed.

Lemma install_requirements_ok m io fs b fs' :
  install_requirements m io fs = (Ok b, fs') →
  b = bool_decide (is_Some (requirements_content m fs)) ∧
  fs' = match requirements_content m fs with
        | Some c => reinstall (vl_venv_path (vm_layout m)) (λ l, c :: l) fs
        | None => fs
        end.
Proof.
  unfold install_requirements, requirements_content. destruct (vm_requirements_file m) as [p|]; simpl.
  - destruct (fs_files fs !! p) as [c|]; simpl; [|by intros [= <- <-]].
    destruct (io_pip io); simpl; congruence || by intros [= <- <-].
  - by intros [= <- <-].
Qed.

(** None of the files the cache looks at is written while pip runs. *)
Definition undisturbed (m : VenvManager) (io : BuildIo) : Prop :=
  ∀ p, p ∈ (io_meanwhile io).*1 → vm_requirements_file m ≠ Some p ∧
    p ≠ vl_manifest_path (vm_layout m) ∧ p ≠ vl_metadata_path (vm_layout m) ∧
    p ≠ vl_owners_path (vm_layout m).

Lemma meanwhile_ok io fs u fs' :
  meanwhile io fs = (Ok u, fs') →
  fs_venvs fs' = fs_venvs fs ∧ ∀ p, (p ∉ (io_meanwhile io).*1) → fs_files fs' !! p = fs_files fs !! p.
Proof.
  intros [= _ <-]. revert fs. induction (io_meanwhile io) as [|e l IH]; intros fs; [done|]. cbn [foldl].
  destruct (IH (set_file e.1 e.2 fs)) as [Hv Hf]. split; [by rewrite Hv|]. intros p Hp.
  rewrite Hf by set_solver. rewrite set_file_lookup, decide_False; [done|]. set_solver.
Qed.

Lemma meanwhile_agrees m io fs u fs' :
  undisturbed m io → meanwhile io fs = (Ok u, fs') →
  fs_venvs fs' = fs_venvs fs ∧ agrees m fs fs'.
Proof.
  intros Hu [Hv Hf]%meanwhile_ok. split; [done|]. split; [intros p Hp|]; apply Hf; intros Hin; by apply Hu in Hin as (? & ? & _).
Qed.

Lemma prepare_directories_ok m io inplace fs u fs' :
  prepare_directories m io inplace fs = (Ok u, fs') →
  fs' = if inplace then fs else set_venv (vl_venv_path (vm_layout m)) None fs.
Proof.
  unfold prepare_directories.
  intros (? & ? & ->%try_io_ok & (? & ? & ->%try_io_ok & H)%vbind_ok)%vbind_ok. destruct inplace.
  - by injection H.
  - unfold remove_venv in H. case_bool_decide as Hn.
    + injection H as _ <-. unfold set_venv. destruct fs as [f vs n]. simpl in *. f_equal.
      apply map_eq. intros i. destruct (decide (i = vl_venv_path (vm_layout m))) as [->|].
      * by rewrite lookup_partial_alter_eq.
      * by rewrite lookup_partial_alter_ne.
    + destruct (io_remove io) as [[]|]; congruence.
Qed.

(** The environment a build leaves, given the one it works on. *)
Definition with_requirements (m : VenvManager) (fs : Fs) (base : option Venv) : option Venv :=
  (λ v, mkVenv (vn_build v) (option_list (requirements_content m fs) ++ vn_installed v)) <$> base.

Lemma reinstall_content m fs fs1 :
  requirements_content m fs1 = requirements_content m fs →
  fs_venvs (match requirements_content m fs1 with
            | Some c => reinstall (vl_venv_path (vm_layout m)) (λ l, c :: l) fs1
            | None => fs1
            end) !! vl_venv_path (vm_layout m)
  = with_requirements m fs (fs_venvs fs1 !! vl_venv_path (vm_layout m)).
Proof.
  intros ->. unfold with_requirements. destruct (requirements_content m fs) as [c|]; simpl.
  - by rewrite lookup_alter_eq.
  - by destruct (fs_venvs fs1 !! _) as [[]|].
Qed.

(** The files of a plugin are not those of the cache. *)
Record apart (m : VenvManager) : Prop := {
  ap_requirements p : vm_requirements_file m = Some p →
    p ≠ vl_metadata_path (vm_layout m) ∧ p ≠ vl_owners_path (vm_layout m);
  ap_manifest : vl_manifest_path (vm_layout m) ≠ vl_metadata_path (vm_layout m) ∧
    vl_manifest_path (vm_layout m) ≠ vl_owners_path (vm_layout m);
  ap_metadata : vl_metadata_path (vm_layout m) ≠ vl_owners_path (vm_layout m)
}.

Lemma apart_agrees m fs fs' :
  apart m →
  (∀ p, p ≠ vl_metadata_path (vm_layout m) → p ≠ vl_owners_path (vm_layout m) →
        fs_files fs' !! p = fs_files fs !! p) →
  agrees m fs fs'.
Proof.
  intros [Hr [Hm1 Hm2] _] Hf. split; [|by apply Hf].
  intros p [Hp1 Hp2]%Hr. by apply Hf.
Qed.

Lemma agrees_trans m fs1 fs2 fs3 : agrees m fs1 fs2 → agrees m fs2 fs3 → agrees m fs1 fs3.
Proof. intros [A1 A2] [B1 B2]. split; [intros p Hp; by rewrite B1, A1|by rewrite B2]. Qed.

Lemma rebuild_ok m io inplace fs o fs' :
  apart m → undisturbed m io → rebuild m io inplace fs = (Ok o, fs') →
  let b := bool_decide (is_Some (requirements_content m fs)) in
  o = (if inplace then SharedUpdate b else Built b) ∧
  fs_venvs fs' !! vl_venv_path (vm_layout m)
  = with_requirements m fs (if inplace then fs_venvs fs !! vl_venv_path (vm_layout m)
                            else Some (mkVenv (fs_builds fs) [])) ∧
  load_metadata fs' (vl_metadata_path (vm_layout m)) = Some (metadata_of m fs) ∧
  vm_class_name m ∈ owners_load fs' (vl_owners_path (vm_layout m)) ∧ agrees m fs fs'.
Proof.
  intros Ha Hu. unfold rebuild.
  intros (? & fs1 & ->%prepare_directories_ok & (? & fs2 & Hc & (b & fs3 & Hi & (? & fs3' & Hmw &
    (? & fs4 & Ho & (? & fs5 & Hs & [= <- <-])%vbind_ok)%vbind_ok)%vbind_ok)%vbind_ok)%vbind_ok)%vbind_ok.
  assert (fs_files fs2 = fs_files fs ∧
          fs_venvs fs2 !! vl_venv_path (vm_layout m)
          = if inplace then fs_venvs fs !! vl_venv_path (vm_layout m) else Some (mkVenv (fs_builds fs) []))
    as [Hf2 Hv2].
  { destruct inplace; [by injection Hc as _ <-|]. unfold create_venv in Hc.
    destruct (io_venv io); try discriminate. injection Hc as _ <-. simpl. split; [done|].
    by rewrite lookup_insert_eq. }
  apply install_requirements_ok in Hi as [-> ->].
  assert (requirements_content m fs2 = requirements_content m fs) as Hrc.
  { unfold requirements_content. by rewrite Hf2. }
  pose proof (reinstall_content m fs fs2 Hrc) as Hv3. rewrite Hv2 in Hv3.
  set (fs3 := match requirements_content m fs2 with Some _ => _ | None => _ end) in *.
  assert (agrees m fs fs3) as Hag3.
  { assert (fs_files fs3 = fs_files fs) as Hf3 by (unfold fs3; by destruct (requirements_content m fs2)).
    split; intros; by rewrite Hf3. }
  apply (meanwhile_agrees m) in Hmw as [Hvm Hagm]; [|done].
  apply register_owner_ok in Ho as (Ho & Hvo & Hfo). apply save_metadata_ok in Hs as (Hl & Hvs & Hfs).
  assert (agrees m fs fs4) as Hag4.
  { eapply agrees_trans; [exact Hag3|]. eapply agrees_trans; [exact Hagm|]. apply apart_agrees; auto. }
  split_and!.
  - by rewrite Hrc.
  - by rewrite Hvs, Hvo, Hvm.
  - by rewrite Hl, (agrees_metadata _ _ _ Hag4).
  - unfold owners_load in *. rewrite Hfs; [done|]. destruct Ha as [_ _ Ham]. congruence.
  - eapply agrees_trans; [exact Hag4|]. apply apart_agrees; auto.
Qed.

(** An environment that was found valid, or was just built, is there. *)
Lemma valid_has_venv m fs :
  cache_verdict m fs = Valid →
  ∃ v md, fs_venvs fs !! vl_venv_path (vm_layout m) = Some v ∧
          load_metadata fs (vl_metadata_path (vm_layout m)) = Some md ∧
          cm_requirements_hash md = hash_file_or_empty fs (vm_requirements_file m).
Proof.
  unfold cache_verdict, evaluate_cache. destruct (fs_venvs fs !! _) as [v|] eqn:Hv; [|done]. simpl.
  case_bool_decide; [done|]. destruct (load_metadata fs _) as [md|] eqn:Hl; [|done].
  destruct (String.eqb_spec (cm_requirements_hash md) (hash_file_or_empty fs (vm_requirements_file m)));
    [|done]. intros _. eauto.
Qed.

Lemma is_valid_true v : is_valid v = true ↔ v = Valid.
Proof. by destruct v. Qed.

(** What a successful [ensure] did. *)
Lemma ensure_ok m io fs o fs' :
  apart m → undisturbed m io → ensure m io fs = (Ok o, fs') →
  (o = Reused ∧ cache_verdict m fs = Valid ∧ fs_venvs fs' = fs_venvs fs ∧
   (∀ p, p ≠ vl_owners_path (vm_layout m) → fs_files fs' !! p = fs_files fs !! p) ∧
   vm_class_name m ∈ owners_load fs' (vl_owners_path (vm_layout m))) ∨
  (o ≠ Reused ∧ ∃ inplace,
   inplace = (venv_has_other_owner m fs && bool_decide (is_Some (fs_venvs fs !! vl_venv_path (vm_layout m)))) ∧
   rebuild m io inplace fs = (Ok o, fs')).
Proof.
  intros Ha Hu. unfold ensure. destruct (is_valid (cache_verdict m fs)) eqn:Ev.
  - intros (u & fs1 & (Ho & Hv & Hf)%register_owner_ok & [= <- <-])%vbind_ok. left.
    split_and!; [done|by apply is_valid_true|done|done|done].
  - intros Hr. right. split; [|by eexists].
    pose proof (rebuild_ok _ _ _ _ _ _ Ha Hu Hr) as (-> & _). by destruct (_ && _).
Qed.

Lemma registered_noop m io fs :
  vm_class_name m ∈ owners_load fs (vl_owners_path (vm_layout m)) → register_owner m io fs = (Ok tt, fs).
Proof. intros H. unfold register_owner. by rewrite bool_decide_true. Qed.

Lemma valid_registered_reused m io fs :
  cache_verdict m fs = Valid → vm_class_name m ∈ owners_load fs (vl_owners_path (vm_layout m)) →
  ensure m io fs = (Ok Reused, fs).
Proof. intros Hv Ho. unfold ensure, vbind. by rewrite Hv, registered_noop. Qed.

Lemma ensure_settles m io fs o fs' :
  apart m → undisturbed m io → ensure m io fs = (Ok o, fs') →
  cache_verdict m fs' = Valid ∧ vm_class_name m ∈ owners_load fs' (vl_owners_path (vm_layout m)).
Proof.
  intros Ha Hu He. destruct (ensure_ok _ _ _ _ _ Ha Hu He) as [(-> & Hv & Hvn & Hf & Ho)|(_ & inplace & Hin & Hr)].
  - split; [|done]. destruct (valid_has_venv _ _ Hv) as (v & _ & Hvv & _). rewrite <- Hv.
    apply agrees_verdict; [|by rewrite Hvn, Hvv|by rewrite Hvv|apply Hf, (ap_metadata _ Ha)].
    apply apart_agrees; [done|auto].
  - destruct (rebuild_ok _ _ _ _ _ _ Ha Hu Hr) as (_ & Hvv & Hl & Ho & Hag). split; [|done].
    apply fresh_metadata_valid; [|by rewrite Hl, (agrees_metadata _ _ _ Hag)].
    rewrite Hvv. unfold with_requirements. rewrite fmap_is_Some. destruct inplace; [|done].
    by apply eq_sym, andb_true_iff in Hin as [_ Hin%bool_decide_eq_true].
Qed.

(** ** Runs of one plugin on its own environment *)

Inductive venv_run (m : VenvManager) : Fs → Prop :=
| vr_start fs : load_metadata fs (vl_metadata_path (vm_layout m)) = None → venv_run m fs
| vr_ensure io o fs fs' :
    venv_run m fs → undisturbed m io → ensure m io fs = (Ok o, fs') → venv_run m fs'
| vr_release io fs : venv_run m fs → venv_run m (release_owner m io fs).2
| vr_edit p content fs :
    venv_run m fs → p ≠ vl_metadata_path (vm_layout m) → p ≠ vl_owners_path (vm_layout m) →
    venv_run m (set_file p content fs)
| vr_removed fs : venv_run m fs → venv_run m (set_venv (vl_venv_path (vm_layout m)) None fs).

(** The metadata names the digest of something that is installed. *)
Definition backed (m : VenvManager) (fs : Fs) : Prop :=
  ∀ v md, fs_venvs fs !! vl_venv_path (vm_layout m) = Some v →
    load_metadata fs (vl_metadata_path (vm_layout m)) = Some md →
    ∃ c, c ∈ EmptyString :: vn_installed v ∧ cm_requirements_hash md = digest_hex c.

Lemma backed_frame m fs fs' :
  fs_venvs fs' = fs_venvs fs →
  fs_files fs' !! vl_metadata_path (vm_layout m) = fs_files fs !! vl_metadata_path (vm_layout m) →
  backed m fs → backed m fs'.
Proof. intros Hv Hf Hb. unfold backed, load_metadata in *. by rewrite Hv, Hf. Qed.

Lemma release_frame m io fs :
  apart m →
  fs_venvs (release_owner m io fs).2 = fs_venvs fs ∧
  fs_files (release_owner m io fs).2 !! vl_metadata_path (vm_layout m)
  = fs_files fs !! vl_metadata_path (vm_layout m).
Proof.
  intros [_ _ Hne]. unfold release_owner, vbind, print_pretty, write_file.
  repeat case_bool_decide; simpl; try done.
  - destruct (io_owners_remove io); simpl; [done|]. by rewrite lookup_partial_alter_ne.
  - destruct (to_string_pretty _); simpl; [|done]. destruct (io_owners_write io) as [[]|]; simpl;
      by rewrite lookup_partial_alter_ne.
Qed.

Lemma ensure_backed m io fs o fs' :
  apart m → undisturbed m io → ensure m io fs = (Ok o, fs') → backed m fs → backed m fs'.
Proof.
  intros Ha Hu He Hb. destruct (ensure_ok _ _ _ _ _ Ha Hu He) as [(-> & Hv & Hvn & Hf & Ho)|(_ & inplace & Hin & Hr)].
  - eapply backed_frame; [exact Hvn|apply Hf, (ap_metadata _ Ha)|done].
  - destruct (rebuild_ok _ _ _ _ _ _ Ha Hu Hr) as (_ & Hvv & Hl & _). intros v md Hv' Hl'.
    rewrite Hl in Hl'. injection Hl' as <-. rewrite Hvv in Hv'.
    apply fmap_Some in Hv' as (v0 & _ & ->). simpl.
    exists (default EmptyString (requirements_content m fs)). split; [|done].
    destruct (requirements_content m fs); simpl; set_solver.
Qed.

Lemma run_backed m fs : apart m → venv_run m fs → backed m fs.
Proof.
  intros Ha Hr. induction Hr as [fs Hn|io o fs fs' _ IH Hu He|io fs _ IH|p c fs _ IH Hp _|fs _ _].
  - intros v md _ Hl. congruence.
  - by eapply ensure_backed.
  - destruct (release_frame m io fs Ha). by eapply backed_frame.
  - apply (backed_frame m fs); [done|by rewrite set_file_lookup, decide_False|done].
  - intros v md Hv. simpl in Hv. by rewrite lookup_partial_alter_eq in Hv.
Qed.

(** C30: for a plugin alone on its environment whose builds have all succeeded with
    none of the files the cache looks at written while pip ran, and with its files
    edited, its claim released and the environment removed at any time between the
    builds, a cache that counts as valid is one where requirements with the digest
    of the current ones have been installed.  (An edit while pip runs is recorded
    as installed although it is not: [edit_during_install].) *)
Theorem sole_tenant_reuse_sound m fs content :
  apart m → venv_run m fs → cache_verdict m fs = Valid → requirements_content m fs = Some content →
  ∃ v c, fs_venvs fs !! vl_venv_path (vm_layout m) = Some v ∧ c ∈ EmptyString :: vn_installed v ∧
         digest_hex c = digest_hex content.
Proof.
  intros Ha Hr Hv Hc. destruct (valid_has_venv _ _ Hv) as (v & md & Hvv & Hl & Hh).
  destruct (run_backed _ _ Ha Hr v md Hvv Hl) as (c & Hin & Hd). exists v, c. split_and!; [done|done|].
  rewrite <- Hd, Hh. unfold hash_file_or_empty. unfold requirements_content in Hc. by rewrite Hc.
Qed.

(** ** The files of a resolved layout are apart *)

Lemma append_suffix_eq a b s t : String.length s = String.length t → a +:+ s = b +:+ t → s = t.
Proof.
  intros Hl Heq. apply (f_equal bytes) in Heq. rewrite !bytes_append in Heq.
  apply app_inj_2 in Heq as [_ Heq]; [|by rewrite !length_bytes].
  by rewrite <- (of_bytes_bytes s), Heq, of_bytes_bytes.
Qed.

Lemma path_join_suffix a b : ∃ p, path_join a b = p +:+ b.
Proof.
  unfold path_join. destruct (_ || _); [by exists EmptyString|]. case_bool_decide; [|eauto].
  exists (a +:+ "/"). by rewrite append_assoc.
Qed.

Lemma layout_apart `{UnicodeAlnum} dirs class_name l :
  layout_resolve dirs class_name = Ok l →
  vl_manifest_path l ≠ vl_metadata_path l ∧ vl_manifest_path l ≠ vl_owners_path l ∧
  vl_metadata_path l ≠ vl_owners_path l.
Proof.
  unfold layout_resolve. destruct dirs as [|first dirs]; [done|]. destruct (String.eqb _ _); [done|].
  intros [= <-]. simpl. unfold manifest_filename_for_class, OWNERS_FILENAME.
  set (stem := manifest_stem_for_class class_name).
  repeat match goal with |- context [path_join ?a (?b +:+ ?c)] =>
    destruct (path_join_suffix a (b +:+ c)) as [? ->] end.
  match goal with |- context [path_join ?a "owners.json"] =>
    destruct (path_join_suffix a "owners.json") as [p ->] end.
  change "owners.json" with ("owner" +:+ "s.json").
  change "_metadata.json" with ("_metadat" +:+ "a.json").
  change ".plugin-manifest.yaml" with (".plugin-manifes" +:+ "t.yaml").
  rewrite <- !append_assoc.
  split_and!; intros Heq; apply append_suffix_eq in Heq; done.
Qed.

Lemma manager_apart `{UnicodeAlnum} dirs class_name req version m :
  venv_manager_new dirs class_name req version = Ok m →
  (∀ p, vm_requirements_file m = Some p →
        p ≠ vl_metadata_path (vm_layout m) ∧ p ≠ vl_owners_path (vm_layout m)) →
  apart m.
Proof.
  intros (l & (H1 & H2 & H3)%layout_apart & [= <-])%result_bind_ok Hr. by split.
Qed.

(** Once an environment is ready, asking for it again finds it ready and changes
    nothing at all, whatever the first call had to do. *)
Theorem ensure_then_reused `{UnicodeAlnum} dirs class_name req version m io fs o fs' :
  venv_manager_new dirs class_name req version = Ok m →
  (∀ p, vm_requirements_file m = Some p →
        p ≠ vl_metadata_path (vm_layout m) ∧ p ≠ vl_owners_path (vm_layout m)) →
  undisturbed m io → ensure m io fs = (Ok o, fs') → ∀ io', ensure m io' fs' = (Ok Reused, fs').
Proof.
  intros Hm Hr Hu He io'. pose proof (manager_apart _ _ _ _ _ Hm Hr) as Ha.
  destruct (ensure_settles _ _ _ _ _ Ha Hu He). by apply valid_registered_reused.
Qed.

(** A build that succeeds leaves a fresh interpreter with exactly the current
    requirements, or, in a shared environment, the same interpreter with the
    current requirements added; a reuse leaves the environments untouched. *)
Theorem ensure_installs m io fs o fs' :
  apart m → undisturbed m io → ensure m io fs = (Ok o, fs') →
  let reqs := option_list (requirements_content m fs) in
  match o with
  | Reused => fs_venvs fs' = fs_venvs fs ∧ cache_verdict m fs = Valid
  | Built b =>
      b = bool_decide (is_Some (requirements_content m fs)) ∧
      fs_venvs fs' !! vl_venv_path (vm_layout m) = Some (mkVenv (fs_builds fs) reqs)
  | SharedUpdate b =>
      b = bool_decide (is_Some (requirements_content m fs)) ∧
      ∃ v, fs_venvs fs !! vl_venv_path (vm_layout m) = Some v ∧
           fs_venvs fs' !! vl_venv_path (vm_layout m) = Some (mkVenv (vn_build v) (reqs ++ vn_installed v))
  end.
Proof.
  intros Ha Hu He. simpl. destruct (ensure_ok _ _ _ _ _ Ha Hu He) as [(-> & Hv & Hvn & _)|(_ & inplace & Hin & Hr)].
  - done.
  - destruct (rebuild_ok _ _ _ _ _ _ Ha Hu Hr) as (-> & Hvv & _). destruct inplace.
    + split; [done|]. apply eq_sym, andb_true_iff in Hin as [_ [v Hv]%bool_decide_eq_true].
      exists v. split; [done|]. by rewrite Hvv, Hv.
    + split; [done|]. rewrite Hvv. unfold with_requirements. simpl. by rewrite app_nil_r.
Qed.

End Laws.

(** ** Witnesses and histories *)

Module VenvDemo.

(** A codec for the few documents below: the text of a document is its position. *)
Definition atom_eqb (a b : Value) : bool :=
  match a, b with
  | Null, Null => true
  | VString x, VString y => String.eqb x y
  | VArray l, VArray k =>
      match mapM as_str l, mapM as_str k with
      | Some l, Some k => bool_decide (l = k)
      | _, _ => false
      end
  | _, _ => false
  end.
Definition document_eqb (a b : Value) : bool :=
  match a, b with
  | VObject m, VObject n =>
      bool_decide (dom m = dom n) &&
      forallb (λ k, match m !! k, n !! k with Some x, Some y => atom_eqb x y | _, _ => false end)
        (elements (dom m))
  | _, _ => false
  end.

Lemma mapM_as_str_inv l k : mapM as_str l = Some k → l = VString <$> k.
Proof.
  intros H. apply mapM_Some in H. induction H as [|v s l k Hv _ IH]; [done|]. simpl.
  destruct v; try done. injection Hv as ->. by f_equal.
Qed.

Lemma atom_eqb_eq a b : atom_eqb a b = true → a = b.
Proof.
  destruct a as [| | |s|l|], b as [| | |t|k|]; try done; simpl; [by intros ->%String.eqb_eq|].
  destruct (mapM as_str l) as [x|] eqn:El; [|done]. destruct (mapM as_str k) as [y|] eqn:Ek; [|done].
  intros ->%bool_decide_eq_true. apply mapM_as_str_inv in El, Ek. congruence.
Qed.

Lemma document_eqb_eq a b : document_eqb a b = true → a = b.
Proof.
  destruct a as [| | | | |m]; try done. destruct b as [| | | | |n]; try done. simpl.
  intros [Hd%bool_decide_eq_true Hf]%andb_true_iff. f_equal. apply map_eq. intros k.
  destruct (m !! k) as [x|] eqn:Hm.
  - assert (k ∈ elements (dom m)) as Hk by (rewrite elem_of_elements; by eapply elem_of_dom_2).
    rewrite forallb_forall in Hf. specialize (Hf k (proj1 (list_elem_of_In _ _) Hk)). rewrite Hm in Hf.
    destruct (n !! k) as [y|]; [|done]. by rewrite (atom_eqb_eq _ _ Hf).
  - symmetry. apply not_elem_of_dom. rewrite <- Hd. by apply not_elem_of_dom.
Qed.

Fixpoint position (v : Value) (docs : list Value) : option string :=
  match docs with
  | [] => None
  | d :: docs => if document_eqb v d then Some EmptyString else String "x"%char <$> position v docs
  end.

Lemma position_lookup v docs text : position v docs = Some text → docs !! String.length text = Some v.
Proof.
  revert text. induction docs as [|d docs IH]; intros text; [done|]. simpl.
  destruct (document_eqb v d) eqn:E; [intros [= <-]; by rewrite (document_eqb_eq _ _ E)|].
  intros (t & Ht & ->)%fmap_Some. by apply IH.
Qed.

#[local] Instance codes : Sha256 := λ s, Z.of_N ∘ N_of_ascii <$> bytes s.
#[local] Instance ascii_only : UnicodeAlnum := λ _, false.
#[local] Instance no_decoding : Utf8 := λ s, s.

(** Two plugins of one package. *)
Definition manager (class_name req : string) : VenvManager :=
  match venv_manager_new ["/p"] class_name (Some req) None with
  | Ok m => m
  | Err _ => mkVenvManager (mkLayout "" "" "" "" "" "") None None "" 0
  end.
Definition A : VenvManager := manager "pkg.a.A" "a.txt".
Definition B : VenvManager := manager "pkg.b.B" "b.txt".

Definition files (a : string) : Fs :=
  mkFs {[ "/p/pkg/a.txt" := a; "/p/pkg/b.txt" := "numpy" ]} ∅ 0.
Definition docs : list Value :=
  [owners_json {[ "pkg.a.A" ]}; owners_json {[ "pkg.b.B" ]}; owners_json {[ "pkg.a.A"; "pkg.b.B" ]};
   metadata_json (metadata_of A (files "flask==1")); metadata_json (metadata_of A (files "flask==2"));
   metadata_json (metadata_of B (files "flask==1"))].

#[local] Instance table_codec : JsonCodec := {
  json_parse text := docs !! String.length text;
  json_print _ := Err "unused"
}.
#[local] Instance table_pretty : PrettyJson :=
  λ v, match position v docs with Some text => Ok text | None => Err "no such document" end.

Lemma table_reads v text : to_string_pretty v = Ok text → json_parse text = Some v.
Proof.
  unfold to_string_pretty, table_pretty. destruct (position v docs) eqn:E; [|done]. intros [= <-].
  by apply position_lookup.
Qed.

(** A history of calls, each with its outcome forgotten. *)
Definition after (fs : Fs) (ops : list (Fs → Fs)) : Fs := fold_left (λ fs op, op fs) ops fs.
Definition ensured (m : VenvManager) : Fs → Fs := λ fs, (ensure m io_ok fs).2.
Definition released (m : VenvManager) : Fs → Fs := λ fs, (release_owner m io_ok fs).2.
Definition edited (content : string) : Fs → Fs := set_file "/p/pkg/a.txt" (Some content).
Definition installed (fs : Fs) : option (list string) := vn_installed <$> (fs_venvs fs !! "/p/pkg/.venv").

Definition first_build : Fs := ensured A (files "flask==1").

Example shared_update :
  (ensure B io_ok first_build).1 = Ok (SharedUpdate true) ∧
  installed (ensured B first_build) = Some ["numpy"; "flask==1"].
Proof. by vm_compute. Qed.

(** Both plugins stop; one of them changes its requirements and starts first, which
    rebuilds the shared environment; the other one then finds its own metadata
    valid, and runs without its requirements. *)
Definition restarted : Fs :=
  after (files "flask==1") [ensured A; ensured B; released A; released B; edited "flask==2"; ensured A].

Example co_tenant_loses_requirements :
  (ensure B io_ok restarted).1 = Ok Reused ∧ installed (ensured B restarted) = Some ["flask==2"].
Proof. by vm_compute. Qed.

(** A build that fails in pip has already removed the environment but keeps the old
    metadata; with the requirements put back the empty environment is reused. *)
Definition pip_fails : BuildIo := mkBuildIo None None None VenvMade (PipExit (Some 1%Z) "" []) [] None None None None.
Definition rolled_back : Fs :=
  after first_build [edited "flask==2"; λ fs, (ensure A pip_fails fs).2; edited "flask==1"].

Example failed_rebuild_reused_empty :
  (ensure A io_ok rolled_back).1 = Ok Reused ∧ installed (ensured A rolled_back) = Some [].
Proof. by vm_compute. Qed.

Lemma co_owner_witness :
  ∃ v', fs_venvs (ensure B pip_fails first_build).2 !! vl_venv_path (vm_layout B) = Some v' ∧
        vn_build v' = vn_build (mkVenv 0 ["flask==1"]).
Proof.
  refine (co_owner_keeps_interpreter B pip_fails first_build "pkg.a.A" (mkVenv 0 ["flask==1"]) _ _ _).
  - by vm_compute.
  - by vm_compute.
  - by vm_compute.
Defined.

Lemma A_requirements p :
  vm_requirements_file A = Some p →
  p ≠ vl_metadata_path (vm_layout A) ∧ p ≠ vl_owners_path (vm_layout A).
Proof. intros H. vm_compute in H. injection H as <-. split; vm_compute; discriminate. Qed.

Lemma A_apart : apart A.
Proof.
  apply (manager_apart ["/p"] "pkg.a.A" (Some "a.txt") None); [by vm_compute|exact A_requirements].
Qed.

Lemma io_ok_undisturbed : undisturbed A io_ok.
Proof. by intros p ?%not_elem_of_nil. Qed.

Lemma first_build_eq : ensure A io_ok (files "flask==1") = (Ok (Built true), first_build).
Proof. by vm_compute. Qed.

Lemma ensure_then_reused_witness : ensure A pip_fails first_build = (Ok Reused, first_build).
Proof.
  refine (ensure_then_reused table_reads ["/p"] "pkg.a.A" (Some "a.txt") None A io_ok (files "flask==1")
            (Built true) first_build _ A_requirements io_ok_undisturbed first_build_eq pip_fails).
  by vm_compute.
Defined.

Lemma ensure_installs_witness :
  fs_venvs first_build !! "/p/pkg/.venv" = Some (mkVenv 0 ["flask==1"]).
Proof.
  pose proof (ensure_installs table_reads A io_ok (files "flask==1") (Built true) first_build A_apart io_ok_undisturbed) as H.
  destruct (H first_build_eq) as [_ H']. exact H'.
Defined.

Lemma sole_tenant_witness :
  ∃ v c, fs_venvs first_build !! "/p/pkg/.venv" = Some v ∧ c ∈ EmptyString :: vn_installed v ∧
         digest_hex c = digest_hex "flask==1".
Proof.
  apply (sole_tenant_reuse_sound table_reads A first_build "flask==1"); [exact A_apart| |by vm_compute|by vm_compute].
  eapply (vr_ensure A io_ok (Built true) (files "flask==1")); [by apply vr_start|exact io_ok_undisturbed|exact first_build_eq].
Defined.

(** The requirements change while pip installs the old ones: the digest of the new
    ones is recorded, and the environment is reused without them. *)
Definition edited_meanwhile : Fs :=
  (ensure A (mkBuildIo None None None VenvMade PipDone [("/p/pkg/a.txt", Some "flask==2")] None None None None)
     (files "flask==1")).2.

Example edit_during_install :
  requirements_content A edited_meanwhile = Some "flask==2" ∧
  (ensure A io_ok edited_meanwhile).1 = Ok Reused ∧ installed edited_meanwhile = Some ["flask==1"].
Proof. by vm_compute. Qed.

End VenvDemo.
