(* ===== verification/HostPlugin.v ===== *)
(** * Plugins in a subprocess (cpex-hosts-python/src/plugin.rs and factory.rs)

    One Python plugin: its settings, the launch and the verification of its
    worker, the respawn of a dead one within a budget, the task of an invocation
    and what comes back.  A worker process is what it answers to the handshake,
    whether its output is still open, and how it will end; the working directory,
    the clock, process creation and the answers to tasks are inputs. *)

From S2P Require Import Prelude RustStd F64 Json JsonMerge ExtData Extensions.
From S2P Require Import Session PluginTypes Executor Manager.
From S2P Require Import HostError HostWire HostWorker HostVenv.

Local Open Scope string_scope.
Local Open Scope list_scope.

Definition KIND : string := "isolated_venv".
Definition DEFAULT_MAX_CONTENT_SIZE : Z := 10000000.
Definition DEFAULT_TIMEOUT_SECS : Z := 30.
Definition DEFAULT_SCRIPT_PATH : string := "cpex/framework/isolated/worker.py".
Definition MAX_RESPAWN_ATTEMPTS : Z := 3.
Definition RESPAWN_BACKOFF_BASE_MS : Z := 100.
Definition RESPAWN_BUDGET_RESET_SECS : Z := 60.
Definition DEFAULT_PLUGIN_DIR : string := "plugins".
Definition GLOBAL_REQUEST_ID_KEY : string := "request_id".
Definition WORKER_KNOWN_CAPABILITIES : list string :=
  ["read_subject"; "read_roles"; "read_teams"; "read_claims"; "read_permissions"; "read_agent";
   "read_headers"; "write_headers"; "read_labels"; "append_labels"; "read_delegation"; "append_delegation"].

(** ** Settings *)

Record VenvConfig := mkVenvConfig {
  vc_class_name : string;
  vc_requirements_file : option string;
  vc_script_path : string;
  vc_max_content_size : Z;
  vc_timeout_secs : Z
}.

(** A field with a default: absent, or of the right type. *)
Definition default_field {A} (read : Value → option A) (d : A) (m : gmap string Value) (key : string) : option A :=
  match m !! key with None => Some d | Some v => read v end.

Definition venv_config_of_json (v : Value) : option VenvConfig :=
  m ← struct_fields ["class_name"; "requirements_file"; "script_path"; "max_content_size"; "timeout_secs"] v;
  class_name ← m !! "class_name" ≫= as_str;
  requirements_file ← opt_field m "requirements_file";
  script_path ← default_field as_str DEFAULT_SCRIPT_PATH m "script_path";
  max_content_size ← default_field value_as_u64 DEFAULT_MAX_CONTENT_SIZE m "max_content_size";
  timeout_secs ← default_field value_as_u64 DEFAULT_TIMEOUT_SECS m "timeout_secs";
  Some (mkVenvConfig class_name requirements_file script_path max_content_size timeout_secs).

(** The text of the error serde reports for a value. *)
Class SerdeText := serde_error : Value → string.

Definition from_plugin_config `{SerdeText} (config : PluginConfig) : Result VenvConfig PluginError :=
  let raw := default (VObject ∅) (pcf_config config) in
  match venv_config_of_json raw with
  | Some c => Ok c
  | None =>
      Err (ErrConfig ("plugin '" +:+ pcf_name config +:+ "' (isolated_venv): invalid `config:` block — "
                        +:+ serde_error raw
                        +:+ ". `class_name` is required (the fully-qualified Python class, "
                        +:+ "e.g. my_pkg.filters.PiiFilter)"))
  end.

(** [project_root] and [default_plugin_dirs], given the working directory where it
    can be read. *)
Definition project_root (current_dir : option string) : string := default "." current_dir.
Definition default_plugin_dirs (current_dir : option string) : list string :=
  [path_join (project_root current_dir) DEFAULT_PLUGIN_DIR].

Record IsolatedPythonPlugin := mkPlugin {
  ip_config : PluginConfig;
  ip_venv_config : VenvConfig;
  ip_plugin_dirs : list string;
  ip_venv : option VenvManager;
  ip_worker_override : option string
}.

Definition from_config `{SerdeText} `{UnicodeAlnum} (current_dir : option string) (config : PluginConfig) :
    Result IsolatedPythonPlugin PluginError :=
  let? venv_config := from_plugin_config config in
  let plugin_dirs := default_plugin_dirs current_dir in
  let venv := venv_manager_new plugin_dirs (vc_class_name venv_config) (vc_requirements_file venv_config)
                (pcf_version config) in
  Ok (mkPlugin config venv_config plugin_dirs (match venv with Ok m => Some m | Err _ => None end) None).

(** ** The respawn budget *)

(** Instants count nanoseconds. *)
Record RespawnState := mkRespawn { rs_attempts : Z; rs_window_started : option Z }.

Definition respawn_new : RespawnState := mkRespawn 0 None.

Definition elapsed_secs (now since : Z) : Z := Z.max 0 (now - since) `div` 10 ^ 9.

Definition window_expired (now : Z) (st : RespawnState) : bool :=
  match rs_window_started st with
  | Some s => (RESPAWN_BUDGET_RESET_SECS <=? elapsed_secs now s)%Z
  | None => false
  end.

Definition try_reserve (now : Z) (st : RespawnState) : option Z * RespawnState :=
  let st := if window_expired now st then mkRespawn 0 None else st in
  if (MAX_RESPAWN_ATTEMPTS <=? rs_attempts st)%Z then (None, st)
  else
    let attempts := (rs_attempts st + 1)%Z in
    (Some attempts, mkRespawn attempts (Some (default now (rs_window_started st)))).

Definition record_success (_ : RespawnState) : RespawnState := mkRespawn 0 None.

(** The delay before an attempt, in milliseconds. *)
Definition backoff_ms (attempt : Z) : Z :=
  saturating_mul RESPAWN_BACKOFF_BASE_MS (Z.shiftl 1 (attempt - 1)).

(** ** Workers *)

Record Worker := mkLive {
  lw_answer : Result Value HostError;
  lw_alive : bool;
  lw_end : ChildEnd
}.

Record PluginState := mkPluginState {
  ps_worker : option Worker;
  ps_respawn : RespawnState;
  ps_fs : Fs
}.

Definition set_worker (w : option Worker) (st : PluginState) : PluginState :=
  mkPluginState w (ps_respawn st) (ps_fs st).
Definition set_respawn (r : RespawnState) (st : PluginState) : PluginState :=
  mkPluginState (ps_worker st) r (ps_fs st).
Definition set_fs (fs : Fs) (st : PluginState) : PluginState :=
  mkPluginState (ps_worker st) (ps_respawn st) fs.

(** What a launch meets: the outcomes of the build, the directories as it finds
    them, [command -v python3], and the new process. *)
Record LaunchEnv := mkLaunchEnv {
  le_io : BuildIo;
  le_view : DirView;
  le_sh : Result string string;
  le_spawn : Result Worker string
}.

Definition which_python3 (env : LaunchEnv) : Result string HostError :=
  match List.find (@path_exists (le_view env))
          ["/usr/bin/python3"; "/usr/local/bin/python3"; "/opt/homebrew/bin/python3"] with
  | Some p => Ok p
  | None =>
      match le_sh env with
      | Err e => Err (HWorkerStart ("could not look up python3: " +:+ e))
      | Ok out =>
          if String.eqb (trim out) EmptyString then Err (HWorkerStart "python3 was not found on PATH")
          else Ok (trim out)
      end
  end.

(** [WorkerClient::spawn]; the pipes are always there. *)
Definition spawn (env : LaunchEnv) (python script : string) : Result Worker HostError :=
  if negb (@path_exists (le_view env) python) then
    Err (HWorkerStart ("venv interpreter not found at " +:+ python))
  else
    match le_spawn env with
    | Ok w => Ok w
    | Err e => Err (HWorkerStart ("could not spawn " +:+ python +:+ " " +:+ script +:+ ": " +:+ e))
    end.

Section Plugin.
Context `{hash : HashOrder} `{sha : Sha256} `{json : JsonCodec} `{pretty : PrettyJson} `{utf8 : Utf8}.
Context (self : IsolatedPythonPlugin).

Definition no_layout : HostError :=
  HConfig ("could not resolve a venv layout under " +:+ join_with ", " (ip_plugin_dirs self)
             +:+ " — check that `class_name` ('" +:+ vc_class_name (ip_venv_config self)
             +:+ "') begins with a package segment").

(** The interpreter and the script of a worker. *)
Definition worker_paths (env : LaunchEnv) : VenvM (string * string) := λ fs,
  match ip_worker_override self with
  | Some script => (let? python := which_python3 env in Ok (python, script), fs)
  | None =>
      match ip_venv self with
      | None => (Err no_layout, fs)
      | Some venv =>
          let '(r, fs) := ensure venv (le_io env) fs in
          (let? _ := r in
           let? script := @resolve_worker_script (le_view env) (vl_venv_path (vm_layout venv))
                            (vc_script_path (ip_venv_config self)) in
           Ok (python_executable (vm_layout venv), script), fs)
      end
  end.

Definition launch_worker (env : LaunchEnv) : VenvM Worker := λ fs,
  let '(r, fs) := worker_paths env fs in
  (let? '(python, script) := r in spawn env python script, fs).

Definition worker_capabilities : list string :=
  filter (λ c, c ∈ WORKER_KNOWN_CAPABILITIES) (set_iter (pcf_capabilities (ip_config self))).

Definition required_worker_features : list string :=
  let caps := set_iter (pcf_capabilities (ip_config self)) in
  (if existsb (λ c, String.eqb c CAP_READ_INBOUND || String.eqb c CAP_READ_DELEGATED) caps
   then [FEATURE_CREDENTIAL] else []) ++
  (if existsb (λ c, bool_decide (c ∈ WORKER_KNOWN_CAPABILITIES)) caps then [FEATURE_EXTENSIONS] else []).

Definition missing_features (missing : list string) (reported : WorkerCapabilities) : HostError :=
  HCredential
    ("the installed cpex worker does not implement " +:+ join_with ", " missing +:+ " — which plugin '"
       +:+ pcf_name (ip_config self) +:+ "' needs given its declared capabilities ("
       +:+ join_with ", " (sorted_elements (pcf_capabilities (ip_config self))) +:+ ") and hooks ("
       +:+ join_with ", " (pcf_hooks (ip_config self)) +:+ "). The worker reported protocol version "
       +:+ show_Z (wc_protocol_version reported) +:+ " and features ["
       +:+ join_with ", " (sorted_elements (wc_features reported)) +:+ "] (cpex "
       +:+ default "version unknown" (wc_cpex_version reported)
       +:+ "). Running anyway would drop those fields silently, so this plugin is failed closed at "
       +:+ "startup; upgrade the cpex package in the plugin's venv.").

Definition verify_worker_understands (worker : Worker) : Result unit HostError :=
  let required := required_worker_features in
  if is_nil required then Ok tt
  else
    let? reported := capabilities (lw_answer worker) in
    let missing := List.filter (λ f, negb (capabilities_has reported f)) required in
    if is_nil missing then Ok tt else Err (missing_features missing reported).

Definition to_plugin_error {A} (r : Result A HostError) : Result A PluginError :=
  match r with Ok a => Ok a | Err e => Err (into_plugin_error e (pcf_name (ip_config self))) end.

(** Launch and verification, the worker not yet installed. *)
Definition verified_worker (env : LaunchEnv) : VenvM Worker := λ fs,
  let '(r, fs) := launch_worker env fs in
  (let? w := r in let? _ := verify_worker_understands w in Ok w, fs).

(** A verified worker becomes the live one. *)
Definition install_worker (env : LaunchEnv) (st : PluginState) : Result Worker PluginError * PluginState :=
  let '(r, fs) := verified_worker env (ps_fs st) in
  let st := set_fs fs st in
  match to_plugin_error r with
  | Ok w => (Ok w, set_worker (Some w) st)
  | Err e => (Err e, st)
  end.

Definition initialize (env : LaunchEnv) (st : PluginState) : Result unit PluginError * PluginState :=
  let '(r, st) := install_worker env st in (result_map (λ _, tt) r, st).

Definition budget_spent : HostError :=
  HWorkerStart ("worker died and could not be respawned after " +:+ show_Z MAX_RESPAWN_ATTEMPTS
                  +:+ " attempts — the plugin's worker is failing to start (check its venv and dependencies)").

(** Under the respawn lock. *)
Definition respawn_worker (now : Z) (env : LaunchEnv) (st : PluginState) :
    Result Worker PluginError * PluginState :=
  match ps_worker st with
  | Some (mkLive answer true ending) => (Ok (mkLive answer true ending), st)
  | _ =>
      let '(reserved, respawn) := try_reserve now (ps_respawn st) in
      let st := set_respawn respawn st in
      match reserved with
      | None => (to_plugin_error (Err budget_spent), st)
      | Some _ => install_worker env (set_worker None st)
      end
  end.

Definition no_worker : HostError :=
  HWorkerStart "plugin has no worker — initialize() did not run or it failed".

Definition worker (now : Z) (env : LaunchEnv) (st : PluginState) : Result Worker PluginError * PluginState :=
  match ps_worker st with
  | None => (to_plugin_error (Err no_worker), st)
  | Some w => if lw_alive w then (Ok w, st) else respawn_worker now env st
  end.

Definition note_worker_healthy (st : PluginState) : PluginState :=
  if (0 <? rs_attempts (ps_respawn st))%Z then set_respawn (record_success (ps_respawn st)) st else st.

Definition plugin_shutdown (io : BuildIo) (st : PluginState) : Result unit PluginError * PluginState :=
  let result := match ps_worker st with
                | Some w => to_plugin_error (worker_shutdown (Some (lw_end w))).1.1
                | None => Ok tt
                end in
  let st := set_worker None st in
  (result, match ip_venv self with
           | Some venv => set_fs (release_owner venv io (ps_fs st)).2 st
           | None => st
           end).

(** ** One invocation *)

Definition build_task (hook_name : string) (payload : Value) (ctx : PluginContext) (uuid : string) :
    Result Value HostError :=
  let config_json := VObject {[
    "name" := VString (pcf_name (ip_config self));
    "kind" := VString (pcf_kind (ip_config self));
    "hooks" := VArray (VString <$> pcf_hooks (ip_config self));
    "capabilities" := VArray (VString <$> worker_capabilities);
    "config" := default Null (pcf_config (ip_config self)) ]} in
  match json_print config_json with
  | Err e => Err (HProtocol ("could not serialize the plugin config for the worker: " +:+ e))
  | Ok config_string =>
      let request_id := default uuid (ctx_global_state ctx !! GLOBAL_REQUEST_ID_KEY ≫= as_str) in
      Ok (VObject {[
        "task_type" := VString TASK_LOAD_AND_RUN_HOOK;
        "plugin_dirs" := VArray (VString <$> ip_plugin_dirs self);
        "class_name" := VString (vc_class_name (ip_venv_config self));
        "config" := VString config_string;
        "hook_type" := VString hook_name;
        "plugin_name" := VString (pcf_name (ip_config self));
        "payload" := payload;
        "context" := VObject {[
          "state" := VObject (ctx_local_state ctx);
          "global_context" := VObject {[
            "request_id" := VString request_id;
            "state" := VObject (ctx_global_state ctx) ]};
          "metadata" := VObject ∅ ]} ]})
  end.

(** The entries of [delta] written over the state. *)
Definition merge_state (delta : option Value) (state : StateMap) : StateMap :=
  match delta with Some (VObject m) => m ∪ state | _ => state end.

Definition apply_context_deltas (response : Value) (ctx : PluginContext) : PluginContext :=
  match value_get response "context" with
  | None => ctx
  | Some context =>
      mkPluginContext
        (merge_state (value_get context "state") (ctx_local_state ctx))
        (merge_state (g ← value_get context "global_context"; value_get g "state") (ctx_global_state ctx))
  end.

Context {Pay : Type} `{codec : PayloadCodec Pay} `{order : TokenOrder} `{serde : ExtSerde}.

(** The task of an invocation. *)
Definition invocation_task (hook_name : string) (payload : Pay) (extensions : Extensions)
    (ctx : PluginContext) (uuid : string) : Result Value HostError :=
  let? payload_json := serialize_payload payload in
  let? task := build_task hook_name payload_json ctx uuid in
  let? task := attach_credential task hook_name extensions (pcf_capabilities (ip_config self)) in
  attach_extensions task extensions.

(** [invoke]: the result, the context and the state after it, and the worker with
    the task that was handed to it.  [answer] is what [send_task] returns. *)
Definition invoke (hook_name : string) (payload : Pay) (extensions : Extensions) (uuid : string)
    (now : Z) (env : LaunchEnv) (answer : Worker → Value → Result Value HostError)
    (ctx : PluginContext) (st : PluginState) :
    Result (ErasedResultFields Pay) PluginError * PluginContext * PluginState * option (Worker * Value) :=
  match to_plugin_error (invocation_task hook_name payload extensions ctx uuid) with
  | Err e => (Err e, ctx, st, None)
  | Ok task =>
      let '(r, st) := worker now env st in
      match r with
      | Err e => (Err e, ctx, st, None)
      | Ok w =>
          match to_plugin_error (answer w task) with
          | Err e => (Err e, ctx, st, Some (w, task))
          | Ok response =>
              (to_plugin_error (response_to_result hook_name response extensions),
               apply_context_deltas response ctx, note_worker_healthy st, Some (w, task))
          end
      end
  end.

End Plugin.

(** ** The factory *)

Definition declares_ignored_plugin_dirs (config : PluginConfig) : bool :=
  match pcf_config config with
  | Some (VObject block) => bool_decide (is_Some (block !! "plugin_dirs"))
  | _ => false
  end.

(** [create]: the handler of a hook is the plugin with the name of the hook. *)
Definition create `{SerdeText} `{UnicodeAlnum} (current_dir : option string) (config : PluginConfig) :
    Result (PluginInstance IsolatedPythonPlugin (IsolatedPythonPlugin * string)) PluginError :=
  if is_nil (pcf_hooks config) then
    Err (ErrConfig ("plugin '" +:+ pcf_name config
                      +:+ "' (isolated_venv): `hooks:` must list at least one hook "
                      +:+ "for the Python plugin to handle (e.g. tool_pre_invoke)"))
  else
    let? plugin := from_config current_dir config in
    Ok (mkInstance plugin ((λ hook, (hook, (plugin, hook))) <$> pcf_hooks config)).

(** ** The budget *)

(** Reservations at the given instants: how many were granted. *)
Fixpoint reservations (times : list Z) (st : RespawnState) : list Z :=
  match times with
  | [] => []
  | now :: times =>
      let '(granted, st) := try_reserve now st in option_list granted ++ reservations times st
  end.

Definition in_window (since now : Z) : Prop := (since ≤ now < since + RESPAWN_BUDGET_RESET_SECS * 10 ^ 9)%Z.

Lemma in_window_not_expired since now a :
  in_window since now → window_expired now (mkRespawn a (Some since)) = false.
Proof.
  unfold in_window, window_expired, elapsed_secs, RESPAWN_BUDGET_RESET_SECS. simpl. intros H.
  apply Z.leb_gt. apply Z.div_lt_upper_bound; lia.
Qed.

Lemma reservations_in_window since times a :
  (0 ≤ a ≤ MAX_RESPAWN_ATTEMPTS)%Z → Forall (in_window since) times →
  Forall (λ n, a < n ≤ MAX_RESPAWN_ATTEMPTS)%Z (reservations times (mkRespawn a (Some since))) ∧
  (a + Z.of_nat (length (reservations times (mkRespawn a (Some since)))) ≤ MAX_RESPAWN_ATTEMPTS)%Z.
Proof.
  unfold MAX_RESPAWN_ATTEMPTS. revert a. induction times as [|now times IH]; intros a Ha Ht; simpl.
  { split; [constructor|lia]. }
  inversion_clear Ht as [|? ? Hnow Htimes]. unfold try_reserve. rewrite in_window_not_expired by done.
  unfold MAX_RESPAWN_ATTEMPTS. simpl. destruct (3 <=? a)%Z eqn:E; [by apply IH|]. apply Z.leb_gt in E.
  destruct (IH (a + 1)%Z) as [H1 H2]; [lia|done|]. simpl. split; [|lia].
  constructor; [lia|]. eapply Forall_impl; [exact H1|]. simpl. lia.
Qed.

(** Within a minute of the first attempt a dead worker is respawned at most three
    times, and the delay before an attempt is 100, 200 or 400 milliseconds: no
    shift or product overflows. *)
Theorem respawn_budget_bounded since times :
  Forall (in_window since) times →
  (Z.of_nat (length (reservations (since :: times) respawn_new)) ≤ MAX_RESPAWN_ATTEMPTS)%Z ∧
  Forall (λ attempt, backoff_ms attempt ∈ [100; 200; 400]%Z) (reservations (since :: times) respawn_new).
Proof.
  intros Ht. destruct (reservations_in_window since times 1) as [H1 H2]; [by vm_compute|done|].
  change (reservations (since :: times) respawn_new)
    with (1%Z :: reservations times (mkRespawn 1 (Some since))). split.
  - unfold MAX_RESPAWN_ATTEMPTS in *. simpl length. lia.
  - constructor; [by left|]. eapply Forall_impl; [exact H1|]. unfold MAX_RESPAWN_ATTEMPTS. intros n Hn.
    assert (n = 2 ∨ n = 3)%Z as [->| ->] by lia; vm_compute; set_solver.
Qed.

(** ** Only a worker that claims what the plugin needs is ever used *)

Section Verified.
Context `{hash : HashOrder} `{sha : Sha256} `{json : JsonCodec} `{pretty : PrettyJson} `{utf8 : Utf8}.
Context (self : IsolatedPythonPlugin).

(** The worker listed the feature in its answer to the handshake. *)
Definition lists (w : Worker) (f : string) : Prop :=
  ∃ response l, lw_answer w = Ok response ∧ value_get response "features" = Some (VArray l) ∧ VString f ∈ l.
Definition understands (w : Worker) : Prop := ∀ f, f ∈ required_worker_features self → lists w f.

Inductive plugin_step : PluginState → PluginState → Prop :=
| ps_initialize env st : plugin_step st (initialize self env st).2
| ps_worker_call now env st : plugin_step st (worker self now env st).2
| ps_respawn_call now env st : plugin_step st (respawn_worker self now env st).2
| ps_dies answer alive ending st :
    ps_worker st = Some (mkLive answer alive ending) →
    plugin_step st (set_worker (Some (mkLive answer false ending)) st)
| ps_healthy st : plugin_step st (note_worker_healthy st)
| ps_shutdown io st : plugin_step st (plugin_shutdown self io st).2
| ps_files fs st : plugin_step st (set_fs fs st).

Definition plugin_start (fs : Fs) : PluginState := mkPluginState None respawn_new fs.
Definition plugin_reachable (st : PluginState) : Prop := ∃ fs, rtc plugin_step (plugin_start fs) st.

Lemma verify_understands w : verify_worker_understands self w = Ok tt → understands w.
Proof.
  unfold verify_worker_understands, understands. destruct (required_worker_features self) as [|f0 fs0] eqn:Er.
  { intros _ f Hf. set_solver. }
  rewrite <- Er. assert (is_nil (required_worker_features self) = false) as -> by (by rewrite Er).
  intros (reported & Hc & Hm)%result_bind_ok f Hf.
  destruct (List.filter _ _) as [|g gs] eqn:Ef; [|done]. eapply capabilities_claimed; [exact Hc|].
  destruct (capabilities_has reported f) eqn:E; [done|].
  assert (In f (List.filter (λ f, negb (capabilities_has reported f)) (required_worker_features self))) as Hin.
  { apply filter_In. rewrite E. split; [by apply list_elem_of_In|done]. }
  by rewrite Ef in Hin.
Qed.

Lemma verified_worker_understands env fs w fs' :
  verified_worker self env fs = (Ok w, fs') → understands w.
Proof.
  unfold verified_worker. destruct (launch_worker self env fs) as [r fs1].
  intros [= (w0 & -> & ([] & Hv & [= ->])%result_bind_ok)%result_bind_ok _]. by apply verify_understands.
Qed.

(** The worker in the slot, if any. *)
Definition slot_ok (st : PluginState) : Prop := ∀ w, ps_worker st = Some w → understands w.

Lemma to_plugin_error_ok {A} (r : Result A HostError) a : to_plugin_error self r = Ok a ↔ r = Ok a.
Proof. destruct r; simpl; split; congruence. Qed.

Lemma install_worker_ok env st :
  slot_ok st →
  slot_ok (install_worker self env st).2 ∧ ∀ w, (install_worker self env st).1 = Ok w → understands w.
Proof.
  intros Hs. unfold install_worker.
  destruct (verified_worker self env (ps_fs st)) as [[w|e] fs] eqn:E; simpl; [|done].
  apply verified_worker_understands in E. split; by intros ? [= <-].
Qed.

Lemma respawn_worker_ok now env st :
  slot_ok st →
  slot_ok (respawn_worker self now env st).2 ∧
  ∀ w, (respawn_worker self now env st).1 = Ok w → understands w.
Proof.
  intros Hs. unfold respawn_worker.
  assert (∀ r, slot_ok (set_worker None (set_respawn r st))) as Hn by done.
  destruct (ps_worker st) as [[answer [] ending]|] eqn:Ew.
  - split; [done|]. intros w [= <-]. by apply Hs.
  - destruct (try_reserve now (ps_respawn st)) as [[n|] r]; [by apply install_worker_ok|by split].
  - destruct (try_reserve now (ps_respawn st)) as [[n|] r]; [by apply install_worker_ok|by split].
Qed.

Lemma worker_ok now env st :
  slot_ok st → slot_ok (worker self now env st).2 ∧ ∀ w, (worker self now env st).1 = Ok w → understands w.
Proof.
  intros Hs. unfold worker. destruct (ps_worker st) as [w0|] eqn:Ew; [|by split].
  destruct (lw_alive w0); [|by apply respawn_worker_ok]. split; [done|]. intros w [= <-]. by apply Hs.
Qed.

Lemma plugin_step_slot st st' : plugin_step st st' → slot_ok st → slot_ok st'.
Proof.
  intros [env st0|now env st0|now env st0|answer alive ending st0 Hw|st0|io st0|fs st0] Hs.
  - pose proof (install_worker_ok env st0 Hs) as [Hi _]. unfold initialize.
    by destruct (install_worker self env st0).
  - by apply worker_ok.
  - by apply respawn_worker_ok.
  - intros w [= <-]. specialize (Hs _ Hw). intros f Hf. apply (Hs f Hf).
  - unfold note_worker_healthy. by destruct (0 <? _)%Z.
  - intros w. unfold plugin_shutdown. simpl. by destruct (ip_venv self).
  - done.
Qed.

Lemma reachable_slot st : plugin_reachable st → slot_ok st.
Proof.
  intros [fs Hr]. assert (slot_ok (plugin_start fs)) as H0 by done.
  induction Hr; eauto using plugin_step_slot.
Qed.

(** A task carries a credential exactly for an entitled plugin. *)
Context {Pay : Type} `{codec : PayloadCodec Pay} `{order : TokenOrder} `{serde : ExtSerde}.

Lemma credential_for_entitled task hook e caps dto :
  credential_for task hook e caps = Ok dto → is_Some dto ↔ entitled hook caps.
Proof.
  unfold credential_for, entitled. destruct (payload_kind_for_hook hook) eqn:Ek.
  all: try (intros [= <-]; split; [by intros []|by intros [[? _]|[? _]]]).
  - case_bool_decide as Hc; simpl.
    + intros (? & _ & [= <-])%result_bind_ok. split; [by left|done].
    + intros [= <-]. split; [by intros []|by intros [[_ ?]|[? _]]].
  - case_bool_decide as Hc; simpl.
    + intros (? & _ & [= <-])%result_bind_ok. split; [by right|done].
    + intros [= <-]. split; [by intros []|by intros [[? _]|[_ ?]]].
Qed.

Lemma attach_extensions_credential task e task' :
  attach_extensions task e = Ok task' → value_get task' CREDENTIAL_FIELD = value_get task CREDENTIAL_FIELD.
Proof.
  unfold attach_extensions. intros (wire & _ & H)%result_bind_ok.
  destruct (object_is_empty wire); [by injection H as <-|].
  destruct task; try done. injection H as <-. simpl. by rewrite lookup_insert_ne.
Qed.

Lemma build_task_no_credential hook payload ctx uuid task :
  build_task self hook payload ctx uuid = Ok task → value_get task CREDENTIAL_FIELD = None ∧ is_object task = true.
Proof. unfold build_task. destruct (json_print _); [|done]. by intros [= <-]. Qed.

Lemma invocation_credential hook payload e ctx uuid task :
  invocation_task self hook payload e ctx uuid = Ok task →
  is_Some (value_get task CREDENTIAL_FIELD) ↔ entitled hook (pcf_capabilities (ip_config self)).
Proof.
  unfold invocation_task.
  intros (pj & _ & (t1 & [Hn Ho]%build_task_no_credential & (t2 & Ha & Hx)%result_bind_ok)%result_bind_ok)%result_bind_ok.
  rewrite (attach_extensions_credential _ _ _ Hx). unfold attach_credential in Ha.
  apply result_bind_ok in Ha as (dto & Hd%credential_for_entitled & Ha). rewrite <- Hd.
  destruct dto as [d|].
  - destruct t1; try done. injection Ha as <-. simpl. by rewrite lookup_insert_eq.
  - injection Ha as <-. rewrite Hn. by split; intros [].
Qed.

Lemma entitled_requires hook :
  entitled hook (pcf_capabilities (ip_config self)) → FEATURE_CREDENTIAL ∈ required_worker_features self.
Proof.
  intros He. unfold required_worker_features. apply elem_of_app. left.
  assert (existsb (λ c, String.eqb c CAP_READ_INBOUND || String.eqb c CAP_READ_DELEGATED)
            (set_iter (pcf_capabilities (ip_config self))) = true) as ->; [|set_solver].
  apply existsb_exists. destruct He as [[_ Hc]|[_ Hc]]; eexists; (split; [by apply list_elem_of_In, set_iter_elem|]).
  all: by rewrite String.eqb_refl, ?orb_true_r.
Qed.

(** What is attached to a task is its credential and its extensions. *)
Lemma attach_credential_get task hook e caps task' key :
  attach_credential task hook e caps = Ok task' → key ≠ CREDENTIAL_FIELD →
  value_get task' key = value_get task key.
Proof.
  unfold attach_credential. intros ([d|] & _ & H)%result_bind_ok Hne; [|by injection H as <-].
  destruct task; try done. injection H as <-. simpl. by rewrite lookup_insert_ne.
Qed.

Lemma attach_extensions_get task1 task2 e1 e2 t1 t2 key :
  without_secrets e1 = without_secrets e2 → value_get task1 key = value_get task2 key →
  attach_extensions task1 e1 = Ok t1 → attach_extensions task2 e2 = Ok t2 →
  value_get t1 key = value_get t2 key.
Proof.
  intros He Hk H1 H2. rewrite (wire_hides_secrets _ _ _ He) in H1. unfold attach_extensions in *.
  apply result_bind_ok in H1 as (wire & Hw & H1). apply result_bind_ok in H2 as (wire2 & Hw2 & H2).
  rewrite Hw in Hw2. injection Hw2 as <-. destruct (object_is_empty wire); [by simplify_eq|].
  destruct task1, task2; simplify_eq/=. destruct (decide (key = EXTENSIONS_FIELD)) as [->|].
  - by rewrite !lookup_insert_eq.
  - by rewrite !lookup_insert_ne.
Qed.

Lemma invocation_secrets hook payload e1 e2 ctx uuid t1 t2 key :
  without_secrets e1 = without_secrets e2 → key ≠ CREDENTIAL_FIELD →
  invocation_task self hook payload e1 ctx uuid = Ok t1 →
  invocation_task self hook payload e2 ctx uuid = Ok t2 →
  value_get t1 key = value_get t2 key.
Proof.
  intros He Hne. unfold invocation_task.
  intros (p1 & Hp1 & (b1 & Hb1 & (a1 & Ha1 & H1)%result_bind_ok)%result_bind_ok)%result_bind_ok.
  intros (p2 & Hp2 & (b2 & Hb2 & (a2 & Ha2 & H2)%result_bind_ok)%result_bind_ok)%result_bind_ok.
  rewrite Hp1 in Hp2. injection Hp2 as <-. rewrite Hb1 in Hb2. injection Hb2 as <-.
  apply (attach_extensions_get a1 a2 e1 e2); [done| |done|done].
  by rewrite (attach_credential_get _ _ _ _ _ _ Ha1 Hne), (attach_credential_get _ _ _ _ _ _ Ha2 Hne).
Qed.

(** C13: what a task says of the request's raw credentials.  Its credential object is
    there exactly when the plugin declared the capability of the hook, and then
    the task goes only to a worker process that said it reads credentials: not
    after a crash, a respawn, a shutdown or a rebuild does it reach another one,
    and an entitled plugin is never run without.  No other field of the task
    depends on the raw credentials or on the values of sensitive headers: two
    requests that differ only in those, with the same payload and context, give
    tasks that differ in the credential object alone.  (The payload is written as
    its codec writes it, for every plugin on the hook; the identity and delegation
    payloads hold their token themselves: [Legacy.token_travels_in_payload].) *)
Theorem credential_only_to_capable hook payload e uuid now env answer ctx st r ctx' st' w task :
  plugin_reachable st →
  invoke self hook payload e uuid now env answer ctx st = (r, ctx', st', Some (w, task)) →
  (is_Some (value_get task CREDENTIAL_FIELD) ↔ entitled hook (pcf_capabilities (ip_config self))) ∧
  (is_Some (value_get task CREDENTIAL_FIELD) → lists w FEATURE_CREDENTIAL) ∧
  (∀ e2 task2 key, without_secrets e2 = without_secrets e → key ≠ CREDENTIAL_FIELD →
     invocation_task self hook payload e2 ctx uuid = Ok task2 → value_get task2 key = value_get task key).
Proof.
  intros Hr%reachable_slot. unfold invoke.
  destruct (to_plugin_error self (invocation_task _ _ _ _ _ _)) as [t|] eqn:Et; [|done].
  apply to_plugin_error_ok in Et. pose proof (invocation_credential _ _ _ _ _ _ Et) as Hc.
  destruct (worker_ok now env st Hr) as [_ Hw]. destruct (worker self now env st) as [[w0|] st1]; [|done].
  intros H. assert (w0 = w ∧ t = task) as [-> ->].
  { by destruct (to_plugin_error self (answer w0 t)); injection H as _ _ _ -> ->. }
  split_and!; [done| |].
  - intros He%Hc. apply (Hw w eq_refl). by eapply entitled_requires.
  - intros e2 task2 key He Hne H2. by eapply invocation_secrets.
Qed.

(** Once a relaunch has failed, the slot is empty, and then no invocation brings
    the worker back: each one fails at once, however much later it comes. *)
Theorem failed_relaunch_is_permanent now env st reserved respawn e fs :
  (∀ w, ps_worker st = Some w → lw_alive w = false) →
  try_reserve now (ps_respawn st) = (Some reserved, respawn) →
  verified_worker self env (ps_fs st) = (Err e, fs) →
  let st' := (respawn_worker self now env st).2 in
  ∀ later env', worker self later env' st' = (to_plugin_error self (Err no_worker), st').
Proof.
  intros Hd Hr Hv. unfold respawn_worker. rewrite Hr.
  destruct (ps_worker st) as [[answer [] ending]|] eqn:Ew; [by specialize (Hd _ eq_refl)| |].
  all: unfold install_worker; simpl; by rewrite Hv.
Qed.

End Verified.

(** What the worker sends back is laid over the context: a key it did not send keeps
    its value. *)
Lemma context_deltas_keep response ctx key :
  (∀ context m, value_get response "context" = Some context → value_get context "state" = Some (VObject m) →
     m !! key = None) →
  ctx_local_state (apply_context_deltas response ctx) !! key = ctx_local_state ctx !! key.
Proof.
  intros H. unfold apply_context_deltas. destruct (value_get response "context") as [context|]; [|done]. simpl.
  unfold merge_state. destruct (value_get context "state") as [[]|] eqn:E; try done.
  rewrite lookup_union_r; [done|]. by eapply H.
Qed.

(** A plugin is made of a configuration with hooks and a class, and serves each hook
    of its list. *)
Lemma create_serves `{SerdeText} `{UnicodeAlnum} cwd config inst :
  create cwd config = Ok inst →
  (pi_handlers inst).*1 = pcf_hooks config ∧
  Forall (λ h, h.2 = (pi_plugin inst, h.1)) (pi_handlers inst) ∧ ip_config (pi_plugin inst) = config.
Proof.
  unfold create. destruct (is_nil _); [done|].
  intros (p & (vc & _ & [= <-])%result_bind_ok & [= <-])%result_bind_ok. simpl. split_and!; [|by apply Forall_fmap, Forall_true|done].
  rewrite <- list_fmap_compose. apply list_fmap_id.
Qed.

(** ** Witnesses *)

Module PluginDemo.

#[local] Program Instance in_order : HashOrder := { set_iter s := elements s; map_iter _ m := map_to_list m }.
Solve Obligations with done.
#[local] Instance no_digest : Sha256 := λ _, [].
#[local] Instance codec : JsonCodec := { json_parse _ := None; json_print _ := Ok "text" }.
#[local] Instance no_pretty : PrettyJson := λ _, Err "unused".
#[local] Instance no_decoding : Utf8 := λ s, s.
#[local] Instance plain_payload : PayloadCodec Value :=
  {| typed_to_json _ := None; generic_value v := Some v; typed_from_json _ v := Ok v; generic_payload v := v |}.
#[local] Instance token_order : TokenOrder := WireDemo.forward.
#[local] Instance slots : ExtSerde := WireDemo.demo_serde.

(** An identity plugin that asked for inbound credentials, with a given worker. *)
Definition plugin : IsolatedPythonPlugin :=
  mkPlugin
    (mkPluginConfig "id" KIND None None None ["identity_resolve"] Sequential 10 Fail
       {[ CAP_READ_INBOUND ]} [] [] None)
    (mkVenvConfig "pkg.Identity" None DEFAULT_SCRIPT_PATH DEFAULT_MAX_CONTENT_SIZE DEFAULT_TIMEOUT_SECS)
    ["/p/plugins"] None (Some "/w.py").

Definition current : Worker :=
  mkLive (Ok (VObject {[ "features" := VArray [VString "credential"; VString "extensions"] ]})) true Exited.
Definition outdated : Worker := mkLive (Err (HWorkerError "task type not supported.")) true Exited.

#[local] Instance everything : DirView := { path_exists _ := true; read_dir _ := None }.
Definition starts (w : Result Worker string) : LaunchEnv := mkLaunchEnv io_ok everything (Err "no shell") w.

Definition fresh : PluginState := plugin_start (mkFs ∅ ∅ 0).
Definition running : PluginState := (initialize plugin (starts (Ok current)) fresh).2.

Lemma running_reachable : plugin_reachable plugin running.
Proof. exists (mkFs ∅ ∅ 0). apply rtc_once, ps_initialize. Qed.

(** A worker without the feature is refused. *)
Example outdated_worker_refused :
  (initialize plugin (starts (Ok outdated)) fresh).2 = fresh ∧
  match (initialize plugin (starts (Ok outdated)) fresh).1 with
  | Err (ErrExecution _ _ code _ _) => code = Some "credential_error"
  | _ => False
  end.
Proof. by vm_compute. Qed.

Definition user_token : Extensions :=
  WireDemo.request_with ∅
    (Some (mkRawCredentials {[ RoleUser := mkInbound "secret" "Authorization" KindJwt ]} ∅)).

Definition call : Result (ErasedResultFields Value) PluginError * PluginContext * PluginState *
    option (Worker * Value) :=
  invoke plugin "identity_resolve" Null user_token "uuid" 0 (starts (Err "down"))
    (λ _ _, Ok (VObject ∅)) context_new running.

Lemma credential_witness :
  match call.2 with
  | Some (w, task) => is_Some (value_get task CREDENTIAL_FIELD) ∧ lists w FEATURE_CREDENTIAL
  | None => False
  end.
Proof.
  destruct call as [[[r ctx'] st'] [[w task]|]] eqn:E; [|by vm_compute in E].
  destruct (credential_only_to_capable plugin "identity_resolve" Null user_token "uuid" 0 (starts (Err "down"))
              (λ _ _, Ok (VObject ∅)) context_new running r ctx' st' w task running_reachable E) as (H1 & H2 & _).
  assert (is_Some (value_get task CREDENTIAL_FIELD)) as H.
  { apply H1. left. split; [done|]. simpl. set_solver. }
  split; [exact H|by apply H2].
Defined.

Lemma budget_witness :
  (Z.of_nat (length (reservations [0; 1; 2; 3; 4]%Z respawn_new)) ≤ MAX_RESPAWN_ATTEMPTS)%Z ∧
  Forall (λ attempt, backoff_ms attempt ∈ [100; 200; 400]%Z) (reservations [0; 1; 2; 3; 4]%Z respawn_new).
Proof.
  apply (respawn_budget_bounded 0 [1; 2; 3; 4]%Z).
  repeat (constructor; [unfold in_window, RESPAWN_BUDGET_RESET_SECS; lia|]). constructor.
Defined.

(** The worker dies, one relaunch fails, and an hour later, with everything in order
    again, the plugin still has no worker. *)
Definition dead : PluginState := set_worker (Some (mkLive (Ok Null) false Exited)) running.
Definition after_failure : PluginState := (respawn_worker plugin 0 (starts (Err "down")) dead).2.

Lemma permanent_witness :
  worker plugin (3600 * 10 ^ 9) (starts (Ok current)) after_failure
  = (to_plugin_error plugin (Err no_worker), after_failure).
Proof.
  apply (failed_relaunch_is_permanent plugin 0 (starts (Err "down")) dead 1 (mkRespawn 1 (Some 0%Z))
           (HWorkerStart "could not spawn /usr/bin/python3 /w.py: down") (mkFs ∅ ∅ 0)).
  - by intros w [= <-].
  - by vm_compute.
  - by vm_compute.
Defined.

End PluginDemo.
