(* ===== verification/Idp.v ===== *)
(** * Clients of an identity provider (builtins/plugins/delegator-oauth and elicitation-ciba)

    What the two plugins share: form posts and their outcomes, the gate on
    plaintext endpoints, the sources of the client secret, and the claims of a
    token.  The network is an argument of the operations that use it; JSON
    reading, the shapes serde rejects, base64, the texts of status codes, the
    environment and files, and the calendar are parameters. *)

From Stdlib Require Import Ascii.
From S2P Require Import Prelude RustStd F64 Json JsonMerge PluginTypes Executor JwtKeys.

Local Open Scope string_scope.
Local Open Scope list_scope.

(** A form-encoded POST, with the client credentials of basic authentication. *)
Record Post := mkPost {
  po_url : string;
  po_basic : option (string * string);
  po_form : list (string * string)
}.

(** What comes of it; reading the body can fail on its own. *)
Inductive PostReply :=
| PostTimeout (e : string)
| PostFailed (e : string)
| Replied (status : Z) (body : Result string string).

Definition is_success (status : Z) : bool := (200 <=? status)%Z && (status <? 300)%Z.

(** [response.text().await.unwrap_or_default()]. *)
Definition body_text (body : Result string string) : string :=
  match body with Ok s => s | Err _ => EmptyString end.

Class IdpLib := {
  status_text : Z → string;
  json_read : string → Result Value string;
  shape_error : Value → string;
  b64url_decode : string → option string;
  env_var : string → Result string string;
  read_file : string → Result string string;
  http_client : Z → Result unit string
}.

(** [DateTime + Duration::seconds]: [None] where the sum is out of range, which
    panics. *)
Class Calendar := add_seconds : Z → Z → option Z.

Inductive ClientSecretSource :=
| SecretEnvVar (name : string)
| SecretFile (path : string)
| SecretLiteral (secret : string).

(** [ClientSecretSource::resolve]. *)
Definition secret_resolve `{IdpLib} (self : ClientSecretSource) : Result string string :=
  match self with
  | SecretEnvVar name => map_err (λ e, "env var '" +:+ name +:+ "' unavailable: " +:+ e) (env_var name)
  | SecretFile path =>
      map_err (λ e, "secret file '" +:+ path +:+ "' unreadable: " +:+ e) (result_map trim (read_file path))
  | SecretLiteral secret => Ok secret
  end.

(** The gate on endpoints that carry credentials. *)
Definition endpoint_https (url : string) (insecure_http : bool) : Result unit string :=
  let lowered := to_ascii_lowercase (trim_start url) in
  if starts_with "https://" lowered then Ok tt
  else if starts_with "http://" lowered then
    if insecure_http then Ok tt
    else Err ("must use https:// (got '" +:+ url +:+ "'). Set `insecure_http: true` to allow "
                +:+ "plaintext for localhost/dev only — never production.")
  else Ok tt.

(** A typed body: JSON of a shape, or an error. *)
Definition read_shape `{IdpLib} {T} (shape : Value → option T) (body : string) : Result T string :=
  let? v := json_read body in
  match shape v with Some t => Ok t | None => Err (shape_error v) end.
Definition response_json `{IdpLib} {T} (shape : Value → option T) (body : Result string string) :
    Result T string :=
  let? text := body in read_shape shape text.

(** The fields of a struct: those of an object, or the elements of an array in the
    order of the declaration. *)
Definition shape_fields (names : list string) (v : Value) : option (gmap string Value) :=
  match v with
  | VObject m => Some m
  | VArray l => if (length l <=? length names)%nat then Some (list_to_map (zip names l)) else None
  | _ => None
  end.
(** An optional field, absent or null. *)
Definition optional {T} (read : Value → option T) (m : gmap string Value) (key : string) : option (option T) :=
  match m !! key with
  | None | Some Null => Some None
  | Some v => Some <$> read v
  end.

(** The claims of a token, unverified. *)
Definition jwt_claims `{IdpLib} (token : string) : option Value :=
  payload_b64 ← split_on "."%char token !! 1%nat;
  bytes ← b64url_decode payload_b64;
  match json_read bytes with Ok v => Some v | Err _ => None end.

(** A plaintext endpoint passes only by explicit consent. *)
Lemma endpoint_https_plaintext url :
  starts_with "http://" (to_ascii_lowercase (trim_start url)) = true →
  ∀ insecure, endpoint_https url insecure = Ok tt → insecure = true.
Proof.
  intros Hh insecure. unfold endpoint_https. rewrite Hh.
  assert (starts_with "https://" (to_ascii_lowercase (trim_start url)) = false) as ->.
  { revert Hh. unfold starts_with. destruct (strip_prefix "http://" _) as [r|] eqn:E; [|done]. intros _.
    apply strip_prefix_spec in E. rewrite E. by destruct r. }
  by destruct insecure.
Qed.
