(* ===== verification/OAuth.v ===== *)
(** * The OAuth token delegator (builtins/plugins/delegator-oauth)

    Construction, the two legs of a delegation and the forms they send, the check
    of what the identity provider granted, and the token that is handed on.  An
    outcome [None] is a panic. *)

From S2P Require Import Prelude RustStd F64 Json JsonMerge ExtData PluginTypes Executor.
From S2P Require Import Delegation JwtKeys Jwt Idp.

Local Open Scope string_scope.
Local Open Scope list_scope.

Definition GRANT_TYPE_TOKEN_EXCHANGE : string := "urn:ietf:params:oauth:grant-type:token-exchange".
Definition GRANT_TYPE_CLIENT_CREDENTIALS : string := "client_credentials".
Definition DEFAULT_ISSUED_TOKEN_TYPE : string := "urn:ietf:params:oauth:token-type:access_token".

Record OAuthDelegatorConfig := mkOAuthConfig {
  oc_token_endpoint : string;
  oc_client_id : string;
  oc_client_secret_source : ClientSecretSource;
  oc_subject_token_type : string;
  oc_timeout_seconds : Z;
  oc_default_outbound_header : string;
  oc_insecure_http : bool;
  oc_actor_token_type : string;
  oc_workload_assertion_type : string
}.

(** The derived deserializer of the configuration. *)
Class OAuthSerde := oauth_config_of_json : Value → Result OAuthDelegatorConfig string.

Record OAuthDelegator := mkOAuth {
  od_cfg : PluginConfig;
  od_typed : OAuthDelegatorConfig;
  od_client_secret : string
}.

Definition oauth_error {T} (cfg : PluginConfig) (message : string) : Result T PluginError :=
  Err (ErrConfig ("plugin '" +:+ pcf_name cfg +:+ "' (cpex-plugin-delegator-oauth)" +:+ message)).

Section OAuth.
Context `{lib : IdpLib} `{cal : Calendar} `{serde : OAuthSerde}.

Definition oauth_new (cfg : PluginConfig) : Result OAuthDelegator PluginError :=
  match pcf_config cfg with
  | None => oauth_error cfg " requires a `config:` block"
  | Some raw =>
      match oauth_config_of_json raw with
      | Err e => oauth_error cfg (" config parse failed: " +:+ e)
      | Ok typed =>
          if String.eqb (trim (oc_token_endpoint typed)) EmptyString then
            oauth_error cfg ": token_endpoint must be non-empty"
          else
            match endpoint_https (oc_token_endpoint typed) (oc_insecure_http typed) with
            | Err e => oauth_error cfg (": token_endpoint " +:+ e)
            | Ok _ =>
                if String.eqb (trim (oc_client_id typed)) EmptyString then
                  oauth_error cfg ": client_id must be non-empty"
                else
                  match secret_resolve (oc_client_secret_source typed) with
                  | Err e => oauth_error cfg (" client secret resolve failed: " +:+ e)
                  | Ok secret =>
                      match http_client (oc_timeout_seconds typed) with
                      | Err e => oauth_error cfg (" HTTP client build failed: " +:+ e)
                      | Ok _ => Ok (mkOAuth cfg typed secret)
                      end
                  end
            end
      end
  end.

(** The permissions, and the capabilities that are not among them yet. *)
Definition add_missing (scopes caps : list string) : list string :=
  fold_left (λ acc cap, if bool_decide (cap ∈ acc) then acc else acc ++ [cap]) caps scopes.
Definition scope_list (payload : DelegationPayload) : list string :=
  match dpl_route_attenuation payload with
  | Some att => add_missing (dpl_required_permissions payload) (at_capabilities att)
  | None => dpl_required_permissions payload
  end.
Definition requested_scopes (payload : DelegationPayload) : string := join_with " " (scope_list payload).

Record TokenExchangeResponse := mkTokenResponse {
  tr_access_token : string;
  tr_issued_token_type : option string;
  tr_expires_in : option Z;
  tr_scope : option string
}.
Definition token_response (v : Value) : option TokenExchangeResponse :=
  m ← shape_fields ["access_token"; "issued_token_type"; "expires_in"; "scope"] v;
  access_token ← m !! "access_token" ≫= as_str;
  issued ← optional as_str m "issued_token_type";
  expires_in ← optional as_i64 m "expires_in";
  scope ← optional as_str m "scope";
  Some (mkTokenResponse access_token issued expires_in scope).

Record TokenErrorResponse := mkTokenError { te_error : string; te_error_description : option string }.
Definition token_error (v : Value) : option TokenErrorResponse :=
  m ← shape_fields ["error"; "error_description"] v;
  error ← m !! "error" ≫= as_str;
  description ← optional as_str m "error_description";
  Some (mkTokenError error description).

Context (self : OAuthDelegator).
Abbreviation typed := (od_typed self).

(** Leg 1: the SVID as a client assertion. *)
Definition assertion_post (svid : string) : Post :=
  mkPost (oc_token_endpoint typed) None
    [("grant_type", GRANT_TYPE_CLIENT_CREDENTIALS);
     ("client_assertion_type", oc_workload_assertion_type typed);
     ("client_assertion", svid)].

Definition base_token (reply : PostReply) : Result string PluginViolation :=
  match reply with
  | PostTimeout _ =>
      Err (violation_new "delegation.idp_timeout"
             ("workload client_assertion to " +:+ oc_token_endpoint typed +:+ " timed out"))
  | PostFailed e =>
      Err (violation_new "delegation.idp_unreachable"
             ("workload client_assertion POST to " +:+ oc_token_endpoint typed +:+ " failed: " +:+ e))
  | Replied status body =>
      if negb (is_success status) then
        Err (violation_new "delegation.idp_rejected"
               match read_shape token_error (body_text body) with
               | Ok err => "workload client_assertion rejected: " +:+ te_error err
               | Err _ => "workload client_assertion rejected (HTTP " +:+ status_text status +:+ ")"
               end)
      else
        match response_json token_response body with
        | Ok parsed => Ok (tr_access_token parsed)
        | Err e =>
            Err (violation_new "delegation.bad_response"
                   ("workload client_assertion response wasn't valid token JSON: " +:+ e))
        end
  end.

Definition as_this_workload (payload : DelegationPayload) : bool := bool_decide (dpl_subject payload = SubThisWorkload).
Definition is_workload (payload : DelegationPayload) : bool := bool_decide (dpl_subject payload = SubCallerWorkload).
Definition actor_requested (payload : DelegationPayload) : bool :=
  negb (String.eqb (dpl_actor_token payload) EmptyString) && negb (as_this_workload payload)
    && negb (is_workload payload).

(** Leg 2: the exchange, or this instance asking for itself. *)
Definition exchange_post (payload : DelegationPayload) (audience subject_token : string) : Post :=
  let scope := requested_scopes payload in
  mkPost (oc_token_endpoint typed) (Some (oc_client_id typed, od_client_secret self))
    ((if as_this_workload payload then
        [("grant_type", GRANT_TYPE_CLIENT_CREDENTIALS); ("audience", audience)]
      else
        [("grant_type", GRANT_TYPE_TOKEN_EXCHANGE); ("subject_token", subject_token);
         ("subject_token_type", oc_subject_token_type typed); ("audience", audience)]) ++
     (if String.eqb scope EmptyString then [] else [("scope", scope)]) ++
     (if actor_requested payload then
        [("actor_token", dpl_actor_token payload); ("actor_token_type", oc_actor_token_type typed)]
      else [])).

Definition effective_scopes (payload : DelegationPayload) (parsed : TokenExchangeResponse) : list string :=
  match tr_scope parsed with
  | Some s => split_whitespace s
  | None =>
      let scope := requested_scopes payload in
      if String.eqb scope EmptyString then [] else split_whitespace scope
  end.
Definition missing_permissions (payload : DelegationPayload) (parsed : TokenExchangeResponse) : list string :=
  match tr_scope parsed with
  | Some _ => filter (λ req, req ∉ effective_scopes payload parsed) (dpl_required_permissions payload)
  | None => []
  end.
Definition token_ttl (payload : DelegationPayload) (parsed : TokenExchangeResponse) : Z :=
  let ttl_secs := default 300%Z (tr_expires_in parsed) in
  match dpl_route_attenuation payload ≫= at_ttl_seconds with
  | Some hint => Z.min ttl_secs (as_i64_cast hint)
  | None => ttl_secs
  end.

(** The payload with the token; [now] is read for the expiry and [minted] at the end. *)
Definition with_token (payload : DelegationPayload) (token : RawDelegatedToken) (mode : DelegationMode)
    (minted : Z) (key : string) (value : string) : DelegationPayload :=
  mkDelegationPayload (dpl_bearer_token payload) (dpl_actor_token payload) (dpl_actor_role payload)
    (dpl_subject payload) (dpl_target_name payload) (dpl_target_type payload) (dpl_target_audience payload)
    (dpl_required_permissions payload) (dpl_trust_domain payload) (dpl_auth_enforced_by payload)
    (dpl_route_attenuation payload) (Some token) (dpl_delegation_update payload) (Some mode) (Some minted)
    (<[key := VString value]> (dpl_metadata payload)).

Definition granted (payload : DelegationPayload) (audience : string) (parsed : TokenExchangeResponse)
    (now minted : Z) : option (ErasedResultFields DelegationPayload) :=
  let missing := missing_permissions payload parsed in
  if negb (is_nil missing) then
    Some (result_deny "delegation.scope_too_broad"
            ("IdP granted narrower scopes than requested. requested=["
               +:+ join_with " " (dpl_required_permissions payload) +:+ "] granted=["
               +:+ join_with " " (effective_scopes payload parsed) +:+ "] missing=["
               +:+ join_with " " missing +:+ "]"))
  else
    expires_at ← add_seconds now (token_ttl payload parsed);
    Some (result_modify
            (with_token payload
               (mkDelegated (tr_access_token parsed) (oc_default_outbound_header typed) audience
                  (effective_scopes payload parsed) expires_at)
               (default_mode (dpl_subject payload)) minted "issued_token_type"
               (default DEFAULT_ISSUED_TOKEN_TYPE (tr_issued_token_type parsed)))).

Definition rejected_reason (status : Z) (body : string) : string :=
  match read_shape token_error body with
  | Ok err =>
      te_error err +:+ match te_error_description err with Some d => ": " +:+ d | None => EmptyString end
  | Err _ => "IdP returned " +:+ status_text status +:+ ": " +:+ body
  end.

Definition exchange_result (payload : DelegationPayload) (audience : string) (reply : PostReply)
    (now minted : Z) : option (ErasedResultFields DelegationPayload) :=
  match reply with
  | PostTimeout _ =>
      Some (result_deny "delegation.idp_timeout"
              ("token-exchange to " +:+ oc_token_endpoint typed +:+ " timed out"))
  | PostFailed e =>
      Some (result_deny "delegation.idp_unreachable"
              ("token-exchange POST to " +:+ oc_token_endpoint typed +:+ " failed: " +:+ e))
  | Replied status body =>
      if negb (is_success status) then
        Some (result_deny "delegation.idp_rejected" (rejected_reason status (body_text body)))
      else
        match response_json token_response body with
        | Err e =>
            Some (result_deny "delegation.bad_response"
                    ("IdP response wasn't valid token-exchange JSON: " +:+ e))
        | Ok parsed => granted payload audience parsed now minted
        end
  end.

(** [handle], with the posts it makes. *)
Definition oauth_handle (payload : DelegationPayload) (net : Post → PostReply) (now minted : Z) :
    option (ErasedResultFields DelegationPayload) * list Post :=
  let bearer := dpl_bearer_token payload in
  let audience := default EmptyString (dpl_target_audience payload) in
  if String.eqb bearer EmptyString && negb (as_this_workload payload) then
    (Some (result_deny "delegation.bad_request"
             ("DelegationPayload carried an empty bearer_token — outbound caller didn't populate the "
                +:+ "credential before invoking the hook")), [])
  else if String.eqb audience EmptyString then
    (Some (result_deny "delegation.bad_request"
             ("target_audience missing — RFC 8693 token exchange requires an audience to scope the "
                +:+ "minted credential")), [])
  else
    let leg1 := if is_workload payload then [assertion_post bearer] else [] in
    match (if is_workload payload then base_token (net (assertion_post bearer)) else Ok bearer) with
    | Err violation => (Some (mkErased false None None (Some violation)), leg1)
    | Ok subject_token =>
        let post := exchange_post payload audience subject_token in
        (exchange_result payload audience (net post) now minted, leg1 ++ [post])
    end.

(** Whether the minted token is a JWT that names no actor. *)
Definition jwt_payload_omits_act (access_token : string) : bool :=
  match jwt_claims access_token with
  | Some (VObject claims) => match claims !! "act" with None | Some Null => true | _ => false end
  | _ => false
  end.

End OAuth.

(** ** Words of a scope string *)

Lemma chars_head s g gs :
  chars s = g :: gs → starts_with_continuation g = starts_with_continuation s.
Proof.
  destruct s as [|c s]; simpl; [done|]. destruct (chars s) as [|h hs]; [by intros [= <- _]|].
  destruct (starts_with_continuation h); by intros [= <- _].
Qed.

Lemma chars_nil s : chars s = [] → s = EmptyString.
Proof.
  destruct s as [|c s]; simpl; [done|]. destruct (chars s) as [|h hs]; [done|].
  by destruct (starts_with_continuation h).
Qed.

Lemma chars_app a b : starts_with_continuation b = false → chars (a +:+ b) = chars a ++ chars b.
Proof.
  intros Hb. induction a as [|c a IH]; [done|].
  change (String c a +:+ b) with (String c (a +:+ b)). cbn [chars]. rewrite IH.
  destruct (chars a) as [|g gs] eqn:Ea; simpl.
  - destruct (chars b) as [|h hs] eqn:Eb; [done|]. by rewrite (chars_head _ _ _ Eb), Hb.
  - by destruct (starts_with_continuation g).
Qed.

(** A name that a list of names separated by blanks can hold. *)
Definition is_word (s : string) : Prop :=
  s ≠ EmptyString ∧ starts_with_continuation s = false ∧ Forall (λ c, is_whitespace c = false) (chars s).

Lemma words_run cur l rest :
  Forall (λ c, is_whitespace c = false) l → words cur (l ++ rest) = words (cur +:+ concat_str l) rest.
Proof.
  intros Hl. revert cur. induction Hl as [|c l Hc _ IH]; intros cur; simpl; [by rewrite append_empty_r|].
  by rewrite Hc, IH, append_assoc.
Qed.

Lemma words_join w ws :
  Forall is_word (w :: ws) → words EmptyString (chars (join_with " " (w :: ws))) = w :: ws.
Proof.
  revert w. induction ws as [|w' ws IH]; intros w Hl.
  - inversion_clear Hl as [|? ? (_ & _ & Hw) _]. simpl. rewrite <- (app_nil_r (chars w)), words_run by done.
    simpl. by rewrite concat_chars.
  - inversion_clear Hl as [|? ? (_ & _ & Hw) Hws].
    change (join_with " " (w :: w' :: ws)) with (w +:+ (" " +:+ join_with " " (w' :: ws))).
    assert (starts_with_continuation (join_with " " (w' :: ws)) = false) as Hc.
    { inversion_clear Hws as [|? ? (Hne & Hs & _) _]. destruct ws; [done|]. by destruct w'. }
    rewrite chars_app by done. rewrite words_run by done. rewrite (chars_app " ") by done.
    simpl (chars " "). change ([" "] ++ ?l) with (" " :: l). cbn [words].
    change (is_whitespace " ") with true. cbv iota. rewrite IH by done. simpl. by rewrite concat_chars.
Qed.

Lemma split_whitespace_join l : Forall is_word l → split_whitespace (join_with " " l) = l.
Proof.
  destruct l as [|w ws]; [done|]. intros Hl. unfold split_whitespace. rewrite words_join by done.
  apply filter_every. rewrite Forall_forall in Hl. intros s Hs. by destruct (Hl s Hs).
Qed.

(** ** What is asked for and what is handed on *)

Lemma add_missing_keeps scopes caps x : x ∈ scopes → x ∈ add_missing scopes caps.
Proof.
  unfold add_missing. revert scopes. induction caps as [|c caps IH]; intros scopes Hx; simpl; [done|].
  apply IH. case_bool_decide; set_solver.
Qed.

Lemma scope_list_required payload x : x ∈ dpl_required_permissions payload → x ∈ scope_list payload.
Proof. unfold scope_list. destruct (dpl_route_attenuation payload); [apply add_missing_keeps|done]. Qed.

Lemma join_with_empty l : join_with " " l = EmptyString → Forall is_word l → l = [].
Proof.
  destruct l as [|w ws]; [done|]. intros Hj Hl. inversion_clear Hl as [|? ? (Hne & _) _].
  destruct ws; [done|]. by destruct w.
Qed.

Lemma granted_permissions payload parsed :
  missing_permissions payload parsed = [] → Forall is_word (scope_list payload) →
  ∀ x, x ∈ dpl_required_permissions payload → x ∈ effective_scopes payload parsed.
Proof.
  unfold missing_permissions, effective_scopes. destruct (tr_scope parsed) as [s|].
  - intros Hm _ x Hx. destruct (decide (x ∈ split_whitespace s)) as [|Hn]; [done|].
    assert (x ∈ filter (λ req, req ∉ split_whitespace s) (dpl_required_permissions payload)) as Hf.
    { by apply list_elem_of_filter. }
    rewrite Hm in Hf. set_solver.
  - intros _ Hw x Hx%scope_list_required. unfold requested_scopes.
    destruct (String.eqb_spec (join_with " " (scope_list payload)) EmptyString) as [Hj|_].
    + apply join_with_empty in Hj; [|done]. rewrite Hj in Hx. set_solver.
    + by rewrite split_whitespace_join.
Qed.

(** What the token is handed on with: all that was required, or, where the reply
    names no scope, the blank-separated words of what was asked for. *)
Lemma granted_scopes payload parsed :
  missing_permissions payload parsed = [] →
  (∀ x, x ∈ dpl_required_permissions payload → x ∈ effective_scopes payload parsed) ∨
  effective_scopes payload parsed = split_whitespace (requested_scopes payload).
Proof.
  unfold missing_permissions, effective_scopes. destruct (tr_scope parsed) as [s|]; [left|right].
  - intros x Hx. destruct (decide (x ∈ split_whitespace s)) as [|Hn]; [done|].
    assert (x ∈ filter (λ req, req ∉ split_whitespace s) (dpl_required_permissions payload)) as Hf.
    { by apply list_elem_of_filter. }
    rewrite H in Hf. set_solver.
  - by destruct (String.eqb_spec (requested_scopes payload) EmptyString) as [->|].
Qed.

(** Membership of a field in a form that is written out. *)
Ltac in_form :=
  repeat match goal with
  | H : _ ∈ _ ++ _ |- _ => apply elem_of_app in H as [H|H]
  | H : _ ∈ _ :: _ |- _ => apply elem_of_cons in H as [H|H]; [simplify_eq|]
  | H : _ ∈ [] |- _ => by apply not_elem_of_nil in H
  end.

Section Facts.
Context `{lib : IdpLib} `{cal : Calendar} (self : OAuthDelegator).
Context (calendar_adds : ∀ now secs t, add_seconds now secs = Some t → t = (now + secs)%Z).

Lemma exchange_result_token payload audience reply now minted r p' :
  exchange_result self payload audience reply now minted = Some r → ef_modified_payload r = Some p' →
  ∃ parsed, granted self payload audience parsed now minted = Some r ∧ missing_permissions payload parsed = [].
Proof.
  unfold exchange_result. destruct reply as [e|e|status body]; [by intros [= <-]|by intros [= <-]|].
  destruct (negb _); [by intros [= <-]|]. destruct (response_json _ _) as [parsed|]; [|by intros [= <-]].
  intros Hg Hp. exists parsed. split; [done|]. unfold granted in Hg.
  destruct (missing_permissions payload parsed); [done|]. simpl in Hg. by injection Hg as <-.
Qed.


(** Each credential travels under its own field and to the token endpoint only.
    The bearer is a subject token, or the assertion of a calling workload, whose
    exchange then carries the token minted for it; this instance acting as itself
    sends neither bearer nor actor; the client secret goes with everything but the
    assertion. *)
Theorem oauth_credentials_placed payload net now minted r posts post :
  oauth_handle self payload net now minted = (r, posts) → post ∈ posts →
  po_url post = oc_token_endpoint (od_typed self) ∧
  (po_basic post = None ↔ post = assertion_post self (dpl_bearer_token payload) ∧ is_workload payload = true) ∧
  (∀ v, ("subject_token", v) ∈ po_form post → as_this_workload payload = false ∧
     if is_workload payload then base_token self (net (assertion_post self (dpl_bearer_token payload))) = Ok v
     else v = dpl_bearer_token payload) ∧
  (∀ v, ("actor_token", v) ∈ po_form post → v = dpl_actor_token payload ∧ actor_requested payload = true) ∧
  (∀ v, ("client_assertion", v) ∈ po_form post → v = dpl_bearer_token payload ∧ is_workload payload = true).
Proof.
  clear calendar_adds. unfold oauth_handle. destruct (_ && _); [intros [= _ <-]; set_solver|]. destruct (String.eqb _ _) in |- *;
    [intros [= _ <-]; set_solver|].
  set (bearer := dpl_bearer_token payload).
  assert (is_workload payload = true → as_this_workload payload = false) as Hdis.
  { unfold is_workload, as_this_workload. by intros ->%bool_decide_eq_true. }
  assert (∀ ps, post ∈ (if is_workload payload then [assertion_post self bearer] else []) ++ ps →
          (is_workload payload = true ∧ post = assertion_post self bearer) ∨ post ∈ ps) as Hleg.
  { intros ps. destruct (is_workload payload); set_solver. }
  assert (is_workload payload = true → post = assertion_post self bearer →
    po_url post = oc_token_endpoint (od_typed self) ∧
    (po_basic post = None ↔ post = assertion_post self bearer ∧ is_workload payload = true) ∧
    (∀ v, ("subject_token", v) ∉ po_form post) ∧ (∀ v, ("actor_token", v) ∉ po_form post) ∧
    (∀ v, ("client_assertion", v) ∈ po_form post → v = bearer ∧ is_workload payload = true)) as Hassert.
  { intros Hw ->. simpl. split_and!; [done|done|intros v Hv; in_form..]; auto. }
  destruct (if is_workload payload then base_token self (net (assertion_post self bearer)) else Ok bearer)
    as [subject|v] eqn:Es; intros [= _ <-].
  - intros [[Hw Hp]|Hp]%Hleg; [destruct (Hassert Hw Hp) as (H1 & H2 & H3 & H4 & H5); naive_solver|].
    apply list_elem_of_singleton in Hp as ->. split_and!; [done|by split; [|intros [[=] _]]|..]; simpl; intros v Hv.
    + destruct (as_this_workload payload); [exfalso|split; [done|]].
      * destruct (String.eqb _ _), (actor_requested payload); in_form.
      * assert (v = subject) as ->.
        { destruct (String.eqb _ _), (actor_requested payload); in_form; done. }
        destruct (is_workload payload); [done|]. by injection Es.
    + destruct (as_this_workload payload), (String.eqb _ _), (actor_requested payload) eqn:E; in_form; done.
    + destruct (as_this_workload payload), (String.eqb _ _), (actor_requested payload) eqn:E; in_form; done.
  - intros Hp. destruct (Hleg []) as [[Hw Hp']|?]; [by rewrite app_nil_r| |set_solver].
    destruct (Hassert Hw Hp') as (H1 & H2 & H3 & H4 & H5). naive_solver.
Qed.

End Facts.

(** ** Witnesses *)

Module OAuthDemo.

#[local] Instance demo_lib : IdpLib := {
  status_text _ := "400 Bad Request";
  json_read s := if String.eqb s "granted"
                 then Ok (VObject {[ "access_token" := VString "minted"; "scope" := VString "read write" ]})
                 else if String.eqb s "scopeless"
                 then Ok (VObject {[ "access_token" := VString "minted" ]})
                 else if String.eqb s "endless"
                 then Ok (VObject {[ "access_token" := VString "minted";
                                     "expires_in" := VNumber (PosInt i64_max) ]})
                 else Err "not JSON";
  shape_error _ := "wrong shape";
  b64url_decode _ := None;
  env_var _ := Err "unset"; read_file _ := Err "absent"; http_client _ := Ok tt
}.
(** Sums below the year 262143 or so. *)
#[local] Instance demo_calendar : Calendar :=
  λ now secs, if (now + secs <=? 8210266876799)%Z then Some (now + secs)%Z else None.

Lemma demo_adds now secs t : add_seconds now secs = Some t → t = (now + secs)%Z.
Proof. unfold add_seconds, demo_calendar. destruct (_ <=? _)%Z; [by intros [= <-]|done]. Qed.

Definition delegator : OAuthDelegator :=
  mkOAuth (mkPluginConfig "oauth" "delegator/oauth" None None None [] Sequential 0 Fail ∅ [] [] None)
    (mkOAuthConfig "https://idp/token" "gateway" (SecretLiteral "s") "urn:ietf:params:oauth:token-type:access_token"
       5 "Authorization" false "urn:ietf:params:oauth:token-type:jwt"
       "urn:ietf:params:oauth:client-assertion-type:jwt-spiffe") "s".

Definition request (hint : option Z) : DelegationPayload :=
  mkDelegationPayload "user-token" "agent-svid" None SubUser "crm" TargetTool (Some "api") ["read"] None
    EnforcedByCaller (Some (mkAttenuation [] None [] hint)) None None None None ∅.
Definition replies (body : string) : Post → PostReply := λ _, Replied 200 (Ok body).


Lemma placed_witness :
  "actor_token" ∈ (po_form (exchange_post delegator (request None) "api" "user-token")).*1 ∧
  po_url (exchange_post delegator (request None) "api" "user-token") = "https://idp/token".
Proof.
  split; [vm_compute; set_solver|].
  apply (oauth_credentials_placed delegator (request None) (replies "granted") 0 0
           (oauth_handle delegator (request None) (replies "granted") 0 0).1
           [exchange_post delegator (request None) "api" "user-token"]); [by vm_compute|set_solver].
Defined.

(** A lifetime hint above the signed range turns negative: the token is already
    expired. *)
Example huge_hint_expires_at_once :
  match (oauth_handle delegator (request (Some (2 ^ 64 - 60)%Z)) (replies "granted") 1000 1000).1 with
  | Some r => dt_expires_at <$> (ef_modified_payload r ≫= dpl_delegated_token)
  | None => None
  end = Some 940%Z.
Proof. by vm_compute. Qed.

(** A reply with a lifetime the calendar cannot hold panics the handler. *)
Example endless_token_panics :
  (oauth_handle delegator (request None) (replies "endless") 1000 1000).1 = None.
Proof. by vm_compute. Qed.

(** A permission with a blank in it, and a reply without a scope: the words are
    handed on, and not the permission. *)
Example blank_permission_is_split :
  match (oauth_handle delegator
           (mkDelegationPayload "user-token" "agent-svid" None SubUser "crm" TargetTool (Some "api") ["read all"]
              None EnforcedByCaller None None None None None ∅) (replies "scopeless") 1000 1000).1 with
  | Some r => dt_scopes <$> (ef_modified_payload r ≫= dpl_delegated_token)
  | None => None
  end = Some ["read"; "all"].
Proof. by vm_compute. Qed.

End OAuthDemo.
