(* ===== verification/Biscuit.v ===== *)
(** * The biscuit token delegator (builtins/plugins/delegator-biscuit)

    The sources of the root key, the Datalog text of the attenuation block, and the
    handler.  The biscuit library, hex decoding and files are parameters; an
    outcome [None] is a panic. *)

From Stdlib Require Import Ascii.
From S2P Require Import Prelude RustStd F64 Json JsonMerge ExtData PluginTypes Executor.
From S2P Require Import Delegation Cedar JwtKeys Jwt Idp OAuth.

Local Open Scope string_scope.
Local Open Scope list_scope.

Inductive PublicKeySource :=
| KeyHex (hex : string)
| KeyFile (path : string)
| KeyBytes (bytes : string).

Record BiscuitDelegatorConfig := mkBiscuitConfig {
  bc_root_public_key : PublicKeySource;
  bc_default_outbound_header : string;
  bc_default_ttl_seconds : Z
}.

(** The biscuit-auth and hex crates, file reading and the derived deserializer;
    [K] are keys, [B] verified biscuits, [L] blocks. *)
Class BiscuitLib (K B L : Type) := {
  hex_decode : string → Result string string;
  read_bytes : string → Result string string;
  utf8_check : string → option string;
  ed25519_key : string → Result K string;
  from_base64 : string → K → Result B string;
  block_code : string → Result L string;
  biscuit_append : B → L → Result B string;
  to_base64 : B → Result string string;
  biscuit_config_of_json : Value → Result BiscuitDelegatorConfig string
}.

(** [escape_datalog_string]. *)
Definition escape_datalog_string (s : string) : string :=
  replace_char quote_char (String backslash quote)
    (replace_char backslash (String backslash (String backslash EmptyString)) s).

(** A clause with one text. *)
Definition clause (before : string) (value : string) : string :=
  before +:+ quote +:+ escape_datalog_string value +:+ quote +:+ ");".
Definition DELEGATED_TO : string := "delegated_to(".
Definition AUDIENCE : string := "audience(".
Definition OPERATION : string := "check if operation(".
Definition TIME : string := "check if time($t), $t <= ".

Definition datalog (target_name audience : string) (permissions : list string) (expires_at_unix : Z) : string :=
  clause DELEGATED_TO target_name +:+ clause AUDIENCE audience
    +:+ concat_str (clause OPERATION <$> permissions) +:+ TIME +:+ show_Z expires_at_unix +:+ ";".

Record BiscuitDelegator (K : Type) := mkBiscuit {
  bd_cfg : PluginConfig;
  bd_typed : BiscuitDelegatorConfig;
  bd_root_public_key : K
}.
Arguments mkBiscuit {K}.
Arguments bd_cfg {K}.
Arguments bd_typed {K}.
Arguments bd_root_public_key {K}.

Definition biscuit_error {T} (cfg : PluginConfig) (message : string) : Result T PluginError :=
  Err (ErrConfig ("plugin '" +:+ pcf_name cfg +:+ "' (cpex-plugin-delegator-biscuit) " +:+ message)).

Section Biscuit.
Context {K B L : Type} `{lib : BiscuitLib K B L} `{cal : Calendar}.

Definition bytes_to_public_key (bytes : string) : Result K string :=
  if negb (String.length bytes =? 32)%nat then
    Err ("Ed25519 public key must be 32 bytes; got " +:+ show_nat (String.length bytes))
  else map_err (λ e, "public key bytes not a valid Ed25519 key: " +:+ e) (ed25519_key bytes).

(** [PublicKeySource::resolve]. *)
Definition key_resolve (self : PublicKeySource) : Result K string :=
  match self with
  | KeyHex hex =>
      let? bytes := map_err (λ e, "public_key.hex isn't valid hex: " +:+ e) (hex_decode (trim hex)) in
      bytes_to_public_key bytes
  | KeyBytes bytes => bytes_to_public_key bytes
  | KeyFile path =>
      let? raw := map_err (λ e, "public_key file '" +:+ path +:+ "' unreadable: " +:+ e) (read_bytes path) in
      if (String.length raw =? 32)%nat then bytes_to_public_key raw
      else
        match utf8_check raw with
        | Some e =>
            Err ("public_key file '" +:+ path +:+ "' isn't 32 raw bytes or valid UTF-8 hex: " +:+ e)
        | None =>
            let? bytes := map_err (λ e, "public_key file '" +:+ path +:+ "' isn't valid hex: " +:+ e)
                            (hex_decode (trim raw)) in
            bytes_to_public_key bytes
        end
  end.

Definition biscuit_new (cfg : PluginConfig) : Result (BiscuitDelegator K) PluginError :=
  match pcf_config cfg with
  | None => biscuit_error cfg "requires a `config:` block"
  | Some raw =>
      match biscuit_config_of_json raw with
      | Err e => biscuit_error cfg ("config parse failed: " +:+ e)
      | Ok typed =>
          match key_resolve (bc_root_public_key typed) with
          | Err e => biscuit_error cfg ("root_public_key: " +:+ e)
          | Ok key => Ok (mkBiscuit cfg typed key)
          end
      end
  end.

Definition effective_ttl_seconds (self : BiscuitDelegator K) (payload : DelegationPayload) : Z :=
  match dpl_route_attenuation payload ≫= at_ttl_seconds with
  | Some hint => Z.min hint (bc_default_ttl_seconds (bd_typed self))
  | None => bc_default_ttl_seconds (bd_typed self)
  end.

(** The attenuated token; the three clock readings of the handler are arguments. *)
Definition biscuit_handle (self : BiscuitDelegator K) (payload : DelegationPayload) (now later minted : Z) :
    option (ErasedResultFields DelegationPayload) :=
  let audience := default EmptyString (dpl_target_audience payload) in
  if String.eqb (dpl_bearer_token payload) EmptyString then
    Some (result_deny "delegation.bad_request" "DelegationPayload carried an empty bearer_token")
  else if String.eqb audience EmptyString then
    Some (result_deny "delegation.bad_request"
            ("target_audience missing — biscuit attenuation requires an audience to scope the "
               +:+ "delegation block"))
  else
    match from_base64 (dpl_bearer_token payload) (bd_root_public_key self) with
    | Err e =>
        Some (result_deny "delegation.token_invalid"
                ("inbound biscuit verification failed against configured root public key: " +:+ e))
    | Ok biscuit =>
        let ttl := as_i64_cast (effective_ttl_seconds self payload) in
        expires_at_unix ← add_seconds now ttl;
        match block_code (datalog (dpl_target_name payload) audience (dpl_required_permissions payload)
                            expires_at_unix) with
        | Err e =>
            Some (result_deny "delegation.attenuation_failed"
                    ("delegation block Datalog parse failed: " +:+ e))
        | Ok block =>
            match biscuit_append biscuit block with
            | Err e => Some (result_deny "delegation.attenuation_failed" ("biscuit append failed: " +:+ e))
            | Ok attenuated =>
                match to_base64 attenuated with
                | Err e =>
                    Some (result_deny "delegation.attenuation_failed"
                            ("could not serialize attenuated biscuit: " +:+ e))
                | Ok text =>
                    expires_at ← add_seconds later ttl;
                    Some (result_modify
                            (with_token payload
                               (mkDelegated text (bc_default_outbound_header (bd_typed self)) audience
                                  (scope_list payload) expires_at)
                               OnBehalfOfUser minted "delegator" "biscuit"))
                end
            end
        end
    end.

End Biscuit.

(** ** The text of a block is unambiguous

    How biscuit-auth reads a block is a parameter; that two different blocks have
    different texts is shown with an inverse of the writing, which stands for no
    code. *)

(** What was written, clause by clause. *)
Inductive Clause := CFact (name value : string) | CExpiry (unix : string).

(** Taking a text that was written apart: a text in quotes may hold anything,
    escaped. *)
Definition read_clause (before s : string) : option (string * string) :=
  rest ← strip_prefix (before +:+ quote) s; '(v, rest) ← read_quoted rest;
  rest ← strip_prefix ");" rest; Some (v, rest).
Fixpoint read_block (fuel : nat) (s : string) : option (list Clause) :=
  match fuel with
  | O => None
  | S fuel =>
      if String.eqb s EmptyString then Some []
      else
        match List.find (λ before, bool_decide (is_Some (read_clause before s))) [DELEGATED_TO; AUDIENCE; OPERATION] with
        | Some before => '(v, rest) ← read_clause before s; cs ← read_block fuel rest; Some (CFact before v :: cs)
        | None =>
            rest ← strip_prefix TIME s; '(n, rest) ← split_once ";"%char rest;
            cs ← read_block fuel rest; Some (CExpiry n :: cs)
        end
  end.

Lemma strip_prefix_app p s : strip_prefix p (p +:+ s) = Some s.
Proof. by apply strip_prefix_spec. Qed.

Lemma read_clause_own before v rest : read_clause before (clause before v +:+ rest) = Some (v, rest).
Proof.
  unfold read_clause, clause.
  rewrite !append_assoc, <- (append_assoc before), strip_prefix_app. cbn [mbind option_bind].
  change (quote +:+ ?x) with (String quote_char x).
  change escape_datalog_string with escape_id. rewrite read_escaped. cbn [mbind option_bind].
  by rewrite strip_prefix_app.
Qed.

(** The clauses start apart, so only its own reader accepts one. *)
Lemma read_clause_find before v rest :
  before ∈ [DELEGATED_TO; AUDIENCE; OPERATION] →
  List.find (λ b, bool_decide (is_Some (read_clause b (clause before v +:+ rest)))) [DELEGATED_TO; AUDIENCE; OPERATION]
  = Some before.
Proof.
  intros Hb. assert (bool_decide (is_Some (read_clause before (clause before v +:+ rest))) = true) as Hown.
  { apply bool_decide_eq_true. rewrite read_clause_own. eauto. }
  repeat (apply elem_of_cons in Hb as [->|Hb]); [..|by apply not_elem_of_nil in Hb]; cbn [List.find]; rewrite Hown;
    done.
Qed.

Lemma read_block_clause fuel before v rest :
  before ∈ [DELEGATED_TO; AUDIENCE; OPERATION] →
  read_block (S fuel) (clause before v +:+ rest)
  = (cs ← read_block fuel rest; Some (CFact before v :: cs)).
Proof.
  intros Hb. cbn [read_block]. rewrite read_clause_find by done. rewrite read_clause_own.
  assert (String.eqb (clause before v +:+ rest) EmptyString = false) as ->; [|done].
  repeat (apply elem_of_cons in Hb as [->|Hb]); [done..|by apply not_elem_of_nil in Hb].
Qed.

Lemma no_char_append c a b :
  contains_char c a = false → contains_char c b = false → contains_char c (a +:+ b) = false.
Proof. intros Ha Hb. by rewrite contains_char_append, Ha, Hb. Qed.

Lemma pretty_char_no_semicolon n : Ascii.eqb ";"%char (pretty.pretty_N_char n) = false.
Proof. destruct n as [|p]; [done|]. by do 4 (try destruct p as [p|p|]). Qed.

Lemma pretty_N_go_no_semicolon x s :
  contains_char ";"%char s = false → contains_char ";"%char (pretty.pretty_N_go x s) = false.
Proof.
  revert s. induction (N.lt_wf_0 x) as [x _ IH]; intros s Hs.
  assert (x = 0 ∨ 0 < x)%N as [->|Hx] by lia; [done|].
  rewrite pretty.pretty_N_go_step by done. apply IH; [by apply N.div_lt|].
  cbn [contains_char]. by rewrite pretty_char_no_semicolon, Hs.
Qed.

Lemma show_Z_no_semicolon z : contains_char ";"%char (show_Z z) = false.
Proof.
  assert (∀ n : N, contains_char ";"%char (pretty.pretty n) = false) as Hn.
  { intros n. unfold pretty.pretty, pretty.pretty_N. destruct (decide _); [done|]. by apply pretty_N_go_no_semicolon. }
  unfold show_Z. destruct z as [|p|p]; [done|apply Hn|]. apply (no_char_append _ "-"); [done|apply Hn].
Qed.

Lemma split_once_number n rest : split_once ";"%char (show_Z n +:+ ";" +:+ rest) = Some (show_Z n, rest).
Proof.
  generalize (show_Z_no_semicolon n). induction (show_Z n) as [|c s IH]; [done|].
  change (String c s +:+ ?x) with (String c (s +:+ x)). cbn [contains_char split_once].
  destruct (Ascii.eqb ";" c); [done|]. simpl. intros Hs. by rewrite IH.
Qed.

Lemma expiry_no_clause before s : before ∈ [DELEGATED_TO; AUDIENCE; OPERATION] → read_clause before (TIME +:+ s) = None.
Proof. intros Hb. repeat (apply elem_of_cons in Hb as [->|Hb]); [done..|by apply not_elem_of_nil in Hb]. Qed.

Lemma expiry_find s :
  List.find (λ b, bool_decide (is_Some (read_clause b (TIME +:+ s)))) [DELEGATED_TO; AUDIENCE; OPERATION] = None.
Proof.
  cbn [List.find]. rewrite !expiry_no_clause by set_solver.
  by rewrite (bool_decide_eq_false_2 (is_Some None)) by (by intros []).
Qed.

Lemma read_block_expiry fuel n : read_block (S (S fuel)) (TIME +:+ show_Z n +:+ ";") = Some [CExpiry (show_Z n)].
Proof.
  cbn [read_block]. rewrite expiry_find, strip_prefix_app.
  change (String.eqb (TIME +:+ ?s) EmptyString) with false. cbv iota. cbn [mbind option_bind].
  pose proof (split_once_number n EmptyString) as Hs. rewrite append_empty_r in Hs. by rewrite Hs.
Qed.

Lemma read_block_operations fuel perms n :
  read_block (length perms + S (S fuel)) (concat_str (clause OPERATION <$> perms) +:+ TIME +:+ show_Z n +:+ ";")
  = Some ((CFact OPERATION <$> perms) ++ [CExpiry (show_Z n)]).
Proof.
  induction perms as [|p perms IH]; [apply read_block_expiry|].
  change (length (p :: perms) + S (S fuel))%nat with (S (length perms + S (S fuel))).
  rewrite fmap_cons. cbn [concat_str]. rewrite append_assoc, read_block_clause by set_solver. by rewrite IH.
Qed.

Lemma read_block_datalog target audience perms expires :
  read_block (length perms + 4) (datalog target audience perms expires)
  = Some (CFact DELEGATED_TO target :: CFact AUDIENCE audience ::
          (CFact OPERATION <$> perms) ++ [CExpiry (show_Z expires)]).
Proof.
  replace (length perms + 4)%nat with (S (S (length perms + 2))) by lia. unfold datalog.
  rewrite read_block_clause by set_solver. rewrite read_block_clause by set_solver.
  by rewrite read_block_operations.
Qed.

Lemma read_block_fuel fuel fuel' s cs : read_block fuel s = Some cs → (fuel ≤ fuel')%nat → read_block fuel' s = Some cs.
Proof.
  revert fuel' s cs. induction fuel as [|fuel IH]; intros fuel' s cs; [done|].
  destruct fuel' as [|fuel']; [lia|]. intros Hr Hle. cbn [read_block] in *.
  destruct (String.eqb s EmptyString); [done|].
  destruct (List.find _ _) as [before|].
  - apply bind_Some in Hr as ([v rest] & Hv & Hr). rewrite Hv. simpl in *.
    apply bind_Some in Hr as (cs' & Hcs & Hr). rewrite (IH fuel' rest cs' Hcs) by lia. done.
  - apply bind_Some in Hr as (rest & Hs & Hr). rewrite Hs. simpl in *.
    apply bind_Some in Hr as ([n rest'] & Hn & Hr). rewrite Hn. simpl in *.
    apply bind_Some in Hr as (cs' & Hcs & Hr). rewrite (IH fuel' rest' cs' Hcs) by lia. done.
Qed.

(** The text of a block determines what it says, whatever characters the names are
    made of: no name can be chosen so that it looks like another clause. *)
Lemma datalog_injective target audience perms expires target' audience' perms' expires' :
  datalog target audience perms expires = datalog target' audience' perms' expires' →
  target = target' ∧ audience = audience' ∧ perms = perms' ∧ expires = expires'.
Proof.
  intros Heq. pose proof (read_block_datalog target audience perms expires) as H1.
  pose proof (read_block_datalog target' audience' perms' expires') as H2. rewrite <- Heq in H2.
  apply (read_block_fuel _ ((length perms + 4) `max` (length perms' + 4))) in H1; [|lia].
  apply (read_block_fuel _ ((length perms + 4) `max` (length perms' + 4))) in H2; [|lia].
  rewrite H1 in H2. injection H2 as -> -> H2. split_and!; [done|done|..].
  - apply app_inj_tail in H2 as [H2 _]. revert H2. apply list_fmap_eq_inj. by intros ? ? [= ->].
  - apply app_inj_tail in H2 as [_ H2]. injection H2 as H2. by apply (inj (pretty.pretty (A := Z))) in H2.
Qed.

(** ** The handler attenuates *)

Section Facts.
Context {K B L : Type} `{lib : BiscuitLib K B L} `{cal : Calendar} (self : BiscuitDelegator K).

(** C34: a token handed on is the caller's own biscuit, verified under the configured
    root key, with exactly one block appended; the text of that block is the one
    written for the target, the audience, the required permissions and an expiry
    that is the lifetime of the delegation after now, within both the configured
    default and the hint of the route; and that text is written for no other
    target, audience, permissions or expiry, whatever characters they are made of
    (how biscuit-auth reads and enforces it is a parameter). *)
Theorem biscuit_attenuates payload now later minted r p' :
  biscuit_handle self payload now later minted = Some r → ef_modified_payload r = Some p' →
  ∃ b block b' t expires, from_base64 (dpl_bearer_token payload) (bd_root_public_key self) = Ok b ∧
    block_code (datalog (dpl_target_name payload) (dt_audience t) (dpl_required_permissions payload) expires)
      = Ok block ∧
    biscuit_append b block = Ok b' ∧ to_base64 b' = Ok (dt_token t) ∧
    dpl_delegated_token p' = Some t ∧ dpl_target_audience payload = Some (dt_audience t) ∧
    add_seconds now (as_i64_cast (effective_ttl_seconds self payload)) = Some expires ∧
    (effective_ttl_seconds self payload ≤ bc_default_ttl_seconds (bd_typed self))%Z ∧
    (∀ att hint, dpl_route_attenuation payload = Some att → at_ttl_seconds att = Some hint →
       (effective_ttl_seconds self payload ≤ hint)%Z) ∧
    (∀ target audience perms unix,
       datalog target audience perms unix
       = datalog (dpl_target_name payload) (dt_audience t) (dpl_required_permissions payload) expires →
       target = dpl_target_name payload ∧ audience = dt_audience t ∧
       perms = dpl_required_permissions payload ∧ unix = expires).
Proof.
  unfold biscuit_handle. destruct (String.eqb _ _); [by intros [= <-]|].
  destruct (String.eqb_spec (default EmptyString (dpl_target_audience payload)) EmptyString) as [|Ha];
    [by intros [= <-]|].
  destruct (from_base64 _ _) as [b|e] eqn:Eb; [|by intros [= <-]].
  intros (expires & Hx & H)%bind_Some. destruct (block_code _) as [block|e] eqn:Ek; [|by injection H as <-].
  destruct (biscuit_append b block) as [b'|e] eqn:Ea; [|by injection H as <-].
  destruct (to_base64 b') as [text|e] eqn:Et; [|by injection H as <-].
  apply bind_Some in H as (at_end & _ & [= <-]). simpl. intros [= <-].
  eexists b, block, b', (mkDelegated text _ _ _ _), expires. simpl.
  split_and!; [done|exact Ek|exact Ea|exact Et|reflexivity|by destruct (dpl_target_audience payload)|exact Hx| | |].
  - unfold effective_ttl_seconds. destruct (_ ≫= _); lia.
  - intros att hint Hatt Hh. unfold effective_ttl_seconds. rewrite Hatt. simpl. rewrite Hh. lia.
  - intros target audience perms unix. apply datalog_injective.
Qed.

(** Whatever the subject of the delegation, the token is recorded as one on behalf
    of the user. *)
Lemma biscuit_mode_ignores_subject payload now later minted r p' :
  biscuit_handle self payload now later minted = Some r → ef_modified_payload r = Some p' →
  dpl_delegation_mode p' = Some OnBehalfOfUser.
Proof.
  unfold biscuit_handle. destruct (String.eqb _ _); [by intros [= <-]|].
  destruct (String.eqb _ _); [by intros [= <-]|]. destruct (from_base64 _ _); [|by intros [= <-]].
  intros (expires & _ & H)%bind_Some. destruct (block_code _); [|by injection H as <-].
  destruct (biscuit_append _ _); [|by injection H as <-]. destruct (to_base64 _); [|by injection H as <-].
  apply bind_Some in H as (? & _ & [= <-]). simpl. by intros [= <-].
Qed.

End Facts.

Module BiscuitDemo.

(** Keys, biscuits and blocks are texts. *)
#[local] Instance demo_lib : BiscuitLib string string string := {
  hex_decode s := Ok s; read_bytes _ := Err "absent"; utf8_check _ := None; ed25519_key s := Ok s;
  from_base64 text key := if String.eqb text "root" then Ok key else Err "bad signature";
  block_code s := Ok s; biscuit_append b block := Ok (b +:+ "|" +:+ block); to_base64 b := Ok b;
  biscuit_config_of_json _ := Err "none"
}.
#[local] Instance demo_calendar : Calendar := λ now secs, Some (now + secs)%Z.

Definition delegator : BiscuitDelegator string :=
  mkBiscuit (mkPluginConfig "b" "delegator/biscuit" None None None [] Sequential 0 Fail ∅ [] [] None)
    (mkBiscuitConfig (KeyHex "k") "Authorization" 300) "k".
Definition request (subject : DelegationSubject) : DelegationPayload :=
  mkDelegationPayload "root" EmptyString None subject "crm" TargetTool (Some "api") ["read"] None
    EnforcedByCaller (Some (mkAttenuation [] None [] (Some 60%Z))) None None None None ∅.

Lemma attenuates_witness :
  ∃ r p' t, biscuit_handle delegator (request SubUser) 10 11 12 = Some r ∧ ef_modified_payload r = Some p' ∧
    dpl_delegated_token p' = Some t ∧ dpl_target_audience (request SubUser) = Some (dt_audience t).
Proof.
  destruct (biscuit_handle delegator (request SubUser) 10 11 12) as [r|] eqn:E; [|by vm_compute in E].
  destruct (ef_modified_payload r) as [p'|] eqn:Ep; [|vm_compute in E; injection E as <-; by vm_compute in Ep].
  destruct (biscuit_attenuates delegator (request SubUser) 10 11 12 r p' E Ep)
    as (b & block & b' & t & expires & _ & _ & _ & _ & Ht & Ha & _).
  by exists r, p', t.
Defined.

(** A client's token is filed as a user's. *)
Example client_token_filed_as_user :
  (ef_modified_payload <$> biscuit_handle delegator (request SubClient) 10 11 12) ≫= (λ p, p ≫= dpl_delegation_mode)
  = Some OnBehalfOfUser ∧ default_mode SubClient = AsClient.
Proof. by vm_compute. Qed.

End BiscuitDemo.
