(* ===== verification/Ciba.v ===== *)
(** * The CIBA approver (builtins/plugins/elicitation-ciba)

    Dispatch, check and validation of an approval over an identity provider's
    backchannel, with the store of correlations that is carried between them; the
    cue shown to the approver and the reading of timeouts.  Runs of the three
    operations are a step relation with the history of what happened. *)

From Stdlib Require Import Ascii.
From S2P Require Import Prelude RustStd F64 Json JsonMerge ExtData PluginTypes Executor.
From S2P Require Import Delegation JwtKeys Jwt Idp.

Local Open Scope string_scope.
Local Open Scope list_scope.

Definition GRANT_TYPE_CIBA : string := "urn:openid:params:grant-type:ciba".

(** ** The store (store.rs) *)

Record Correlation := mkCorrelation { co_expected_approver : string; co_resolved_approver : option string }.

(** [InMemoryCorrelationStore]. *)
Abbreviation CorrelationStore := (gmap string Correlation).

Definition store_put (id : string) (c : Correlation) (store : CorrelationStore) : CorrelationStore := <[id := c]> store.
Definition set_resolved_approver (id approver : string) (store : CorrelationStore) : CorrelationStore :=
  alter (λ c, mkCorrelation (co_expected_approver c) (Some approver)) id store.

(** ** Configuration and construction *)

Record CibaConfig := mkCibaConfig {
  cc_backchannel_endpoint : string;
  cc_token_endpoint : string;
  cc_client_id : string;
  cc_client_secret_source : ClientSecretSource;
  cc_scope : string;
  cc_default_requested_expiry_seconds : Z;
  cc_http_timeout_seconds : Z;
  cc_approver_claim : string;
  cc_insecure_http : bool
}.

(** The derived deserializer of the configuration. *)
Class CibaSerde := ciba_config_of_json : Value → Result CibaConfig string.
(** [DateTime::to_rfc3339]. *)
Class CibaTime := ciba_rfc3339 : Z → string.

Record CibaApprover := mkCiba { ca_cfg : PluginConfig; ca_typed : CibaConfig; ca_client_secret : string }.

Definition cfg_err {T} (plugin msg : string) : Result T PluginError :=
  Err (ErrConfig ("plugin '" +:+ plugin +:+ "' (cpex-plugin-elicitation-ciba): " +:+ msg)).

(** The two checks on an endpoint. *)
Definition check_endpoint (plugin field url : string) (insecure_http : bool) : Result unit PluginError :=
  if String.eqb (trim url) EmptyString then cfg_err plugin (field +:+ " must be non-empty")
  else
    match endpoint_https url insecure_http with
    | Err e => cfg_err plugin (field +:+ " " +:+ e)
    | Ok _ => Ok tt
    end.

Definition ciba_new `{IdpLib} `{CibaSerde} (cfg : PluginConfig) : Result CibaApprover PluginError :=
  let name := pcf_name cfg in
  match pcf_config cfg with
  | None => cfg_err name "requires a `config:` block"
  | Some raw =>
      match ciba_config_of_json raw with
      | Err e => cfg_err name ("config parse failed: " +:+ e)
      | Ok typed =>
          let? _ := check_endpoint name "backchannel_endpoint" (cc_backchannel_endpoint typed)
                      (cc_insecure_http typed) in
          let? _ := check_endpoint name "token_endpoint" (cc_token_endpoint typed) (cc_insecure_http typed) in
          if String.eqb (trim (cc_client_id typed)) EmptyString then cfg_err name "client_id must be non-empty"
          else
            match secret_resolve (cc_client_secret_source typed) with
            | Err e => cfg_err name ("client secret resolve failed: " +:+ e)
            | Ok secret =>
                match http_client (cc_http_timeout_seconds typed) with
                | Err e => cfg_err name ("HTTP client build failed: " +:+ e)
                | Ok _ => Ok (mkCiba cfg typed secret)
                end
            end
      end
  end.

(** ** Texts *)

Definition is_ascii_alnum_char (c : string) : bool :=
  match c with String b EmptyString => is_ascii_alphanumeric b | _ => false end.

(** The loop over the characters: what is written so far, and whether it ends in a
    dash. *)
Definition cue_step (st : string * bool) (c : string) : string * bool :=
  let '(out, prev_dash) := st in
  if is_ascii_alnum_char c then (out +:+ c, false)
  else if is_whitespace c && negb (String.eqb out EmptyString) && negb prev_dash then (out +:+ "-", true)
  else (out, prev_dash).

(** [trim_end_matches('-')]. *)
Definition trim_end_dashes (l : list string) : list string := rev (drop_while (String.eqb "-") (rev l)).

Definition sanitize_binding_message (purpose : string) : string :=
  let out := (fold_left cue_step (chars purpose) (EmptyString, false)).1 in
  concat_str (trim_end_dashes (take 50 (chars out))).

Definition last_char (s : string) : option string := last (chars s).
(** All but the last byte. *)
Definition but_last (s : string) : string := String.substring 0 (String.length s - 1) s.

(** The product is taken in 64 bits. *)
Definition parse_duration_secs (s : string) : option Z :=
  let s := trim s in
  c ← last_char s;
  '(num, mult) ←
    (if String.eqb c "s" then Some (but_last s, 1%Z)
     else if String.eqb c "m" then Some (but_last s, 60%Z)
     else if String.eqb c "h" then Some (but_last s, 3600%Z)
     else if String.eqb c "d" then Some (but_last s, 86400%Z)
     else if match c with String b EmptyString => is_ascii_digit b | _ => false end then Some (s, 1%Z)
     else None);
  n ← parse_u64 (trim num); Some (u64_wrap (n * mult)).

(** ** Replies *)

Definition backchannel_response (v : Value) : option (string * option Z) :=
  m ← shape_fields ["auth_req_id"; "expires_in"] v;
  auth_req_id ← m !! "auth_req_id" ≫= as_str;
  expires_in ← optional as_i64 m "expires_in";
  Some (auth_req_id, expires_in).
Definition ciba_token_response (v : Value) : option (option string * option string) :=
  m ← shape_fields ["access_token"; "id_token"] v;
  access_token ← optional as_str m "access_token";
  id_token ← optional as_str m "id_token";
  Some (access_token, id_token).
Definition oauth_error_response (v : Value) : option string :=
  m ← shape_fields ["error"] v;
  match m !! "error" with None => Some EmptyString | Some e => as_str e end.

(** The payload with the results of an operation. *)
Definition with_dispatched (p : ElicitationPayload) (id approver : string) (expires_at : option string) :
    ElicitationPayload :=
  mkElicitationPayload (ep_operation p) (ep_elicitation_id p) (ep_kind_name p) (ep_from p) (ep_purpose p)
    (ep_scope p) (ep_timeout p) (ep_channel p) (Some id) (Some KPending) (ep_outcome p)
    (Some approver) (ep_intent_id p) expires_at (ep_valid p) (ep_reason p) (ep_metadata p).
Definition with_status (p : ElicitationPayload) (status : ElicitationStatusKind)
    (outcome : option ElicitationOutcomeKind) : ElicitationPayload :=
  mkElicitationPayload (ep_operation p) (ep_elicitation_id p) (ep_kind_name p) (ep_from p) (ep_purpose p)
    (ep_scope p) (ep_timeout p) (ep_channel p) (ep_id p) (Some status) outcome
    (ep_approver p) (ep_intent_id p) (ep_expires_at p) (ep_valid p) (ep_reason p) (ep_metadata p).
Definition with_verdict (p : ElicitationPayload) (approver : option string) (valid : bool)
    (reason : option string) : ElicitationPayload :=
  mkElicitationPayload (ep_operation p) (ep_elicitation_id p) (ep_kind_name p) (ep_from p) (ep_purpose p)
    (ep_scope p) (ep_timeout p) (ep_channel p) (ep_id p) (ep_status p) (ep_outcome p)
    approver (ep_intent_id p) (ep_expires_at p) (Some valid) reason (ep_metadata p).

Definition invalid (p : ElicitationPayload) (reason : string) : ErasedResultFields ElicitationPayload :=
  result_modify (with_verdict p (ep_approver p) false (Some reason)).

(** ** The operations *)

Section Approver.
Context `{lib : IdpLib} `{cal : Calendar} `{time : CibaTime} (self : CibaApprover).
Abbreviation typed := (ca_typed self).
Abbreviation Outcome := (ErasedResultFields ElicitationPayload).

Definition basic : option (string * string) := Some (cc_client_id typed, ca_client_secret self).

Definition backchannel_post (payload : ElicitationPayload) : Post :=
  let requested_expiry := default (cc_default_requested_expiry_seconds typed)
                            (ep_timeout payload ≫= parse_duration_secs) in
  mkPost (cc_backchannel_endpoint typed) basic
    ([("scope", cc_scope typed); ("login_hint", ep_from payload); ("requested_expiry", show_Z requested_expiry)] ++
     match sanitize_binding_message <$> ep_purpose payload with
     | Some bm => if String.eqb bm EmptyString then [] else [("binding_message", bm)]
     | None => []
     end).

(** [None] is a panic. *)
Definition do_dispatch (payload : ElicitationPayload) (net : Post → PostReply) (now : Z)
    (store : CorrelationStore) : option Outcome * CorrelationStore :=
  let login_hint := ep_from payload in
  if String.eqb login_hint EmptyString then
    (Some (result_deny "elicitation.bad_request"
             ("CIBA dispatch requires a resolved approver (login_hint) — `from` resolved to empty")), store)
  else
    match net (backchannel_post payload) with
    | PostTimeout e =>
        (Some (result_deny "elicitation.op_timeout" ("CIBA backchannel POST timed out: " +:+ e)), store)
    | PostFailed e =>
        (Some (result_deny "elicitation.op_unreachable"
                 ("CIBA backchannel POST to " +:+ cc_backchannel_endpoint typed +:+ " failed: " +:+ e)), store)
    | Replied status body =>
        if negb (is_success status) then
          (Some (result_deny "elicitation.op_rejected"
                   ("CIBA backchannel rejected (" +:+ status_text status +:+ "): " +:+ body_text body)), store)
        else
          match response_json backchannel_response body with
          | Err e =>
              (Some (result_deny "elicitation.bad_response"
                       ("CIBA backchannel response wasn't valid JSON: " +:+ e)), store)
          | Ok (id, expires_in) =>
              let store := store_put id (mkCorrelation login_hint None) store in
              (match expires_in with
               | None => Some (result_modify (with_dispatched payload id login_hint None))
               | Some secs =>
                   t ← add_seconds now secs;
                   Some (result_modify (with_dispatched payload id login_hint (Some (ciba_rfc3339 t))))
               end, store)
          end
    end.

Definition decode_jwt_claim (token claim : string) : option string :=
  claims ← jwt_claims token; v ← value_get claims claim; as_str v.

Definition poll_post (id : string) : Post :=
  mkPost (cc_token_endpoint typed) basic [("grant_type", GRANT_TYPE_CIBA); ("auth_req_id", id)].

(** The approver the token of a successful poll names. *)
Definition token_approver (tokens : option string * option string) : option string :=
  token ← (match tokens.2 with Some t => Some t | None => tokens.1 end);
  decode_jwt_claim token (cc_approver_claim typed).

Definition approved (payload : ElicitationPayload) : Outcome :=
  result_modify (with_status payload KResolved (Some KApproved)).

Definition lifecycle (payload : ElicitationPayload) (status : Z) (body : string) : Outcome :=
  let err_code := match read_shape oauth_error_response body with Ok e => e | Err _ => EmptyString end in
  if String.eqb err_code "authorization_pending" || String.eqb err_code "slow_down" then
    result_modify (with_status payload KPending None)
  else if String.eqb err_code "expired_token" then result_modify (with_status payload KExpired None)
  else if String.eqb err_code "access_denied" then
    result_modify (with_status payload KResolved (Some KDenied))
  else
    result_deny "elicitation.op_rejected"
      ("CIBA token poll failed (" +:+ status_text status +:+ "): " +:+ body).

Definition do_check (payload : ElicitationPayload) (net : Post → PostReply) (store : CorrelationStore) :
    Outcome * CorrelationStore :=
  match ep_elicitation_id payload with
  | None => (result_deny "elicitation.bad_request" "CIBA check requires an elicitation id", store)
  | Some id =>
      if bool_decide (is_Some (store !! id ≫= co_resolved_approver)) then (approved payload, store)
      else
        match net (poll_post id) with
        | PostTimeout e => (result_deny "elicitation.op_timeout" ("CIBA token poll timed out: " +:+ e), store)
        | PostFailed e =>
            (result_deny "elicitation.op_unreachable"
               ("CIBA token poll to " +:+ cc_token_endpoint typed +:+ " failed: " +:+ e), store)
        | Replied status body =>
            let body := body_text body in
            if is_success status then
              match read_shape ciba_token_response body with
              | Err e =>
                  (result_deny "elicitation.bad_response"
                     ("CIBA token response wasn't valid JSON: " +:+ e), store)
              | Ok tokens =>
                  (approved payload,
                   match token_approver tokens with
                   | Some approver => set_resolved_approver id approver store
                   | None => store
                   end)
              end
            else (lifecycle payload status body, store)
        end
  end.

Definition do_validate (payload : ElicitationPayload) (store : CorrelationStore) : Outcome :=
  match ep_elicitation_id payload with
  | None => result_deny "elicitation.bad_request" "CIBA validate requires an elicitation id"
  | Some id =>
      match store !! id with
      | None => invalid payload "unknown elicitation id"
      | Some correlation =>
          match co_resolved_approver correlation with
          | None =>
              invalid payload
                ("elicitation has no resolved approver (no `" +:+ cc_approver_claim typed
                   +:+ "` claim was extracted at check, or it hasn't resolved)")
          | Some resolved =>
              if String.eqb resolved (co_expected_approver correlation) then
                result_modify (with_verdict payload (Some resolved) true (ep_reason payload))
              else
                result_modify
                  (with_verdict payload (Some resolved) false
                     (Some ("approver mismatch: token names `" +:+ resolved +:+ "`, expected `"
                              +:+ co_expected_approver correlation +:+ "`")))
          end
      end
  end.

Definition ciba_handle (payload : ElicitationPayload) (net : Post → PostReply) (now : Z)
    (store : CorrelationStore) : option Outcome * CorrelationStore :=
  match ep_operation payload with
  | OpDispatch => do_dispatch payload net now store
  | OpCheck => let '(r, store) := do_check payload net store in (Some r, store)
  | OpValidate => (Some (do_validate payload store), store)
  end.

End Approver.

(** ** An approval that counts was given *)

(** The exchanges with the provider that succeeded: a backchannel request for a
    payload, and a poll of an id, each with the body of the reply. *)
Inductive Exchange :=
| Asked (payload : ElicitationPayload) (body : string)
| Polled (id body : string).

Definition success_body (reply : PostReply) : list string :=
  match reply with
  | Replied status body => if is_success status then [body_text body] else []
  | _ => []
  end.

Section Approval.
Context `{lib : IdpLib} `{cal : Calendar} `{time : CibaTime} (self : CibaApprover).

(** The exchanges an operation has, where it posts at all. *)
Definition dispatch_log (payload : ElicitationPayload) (net : Post → PostReply) : list Exchange :=
  if String.eqb (ep_from payload) EmptyString then []
  else Asked payload <$> success_body (net (backchannel_post self payload)).
Definition check_log (payload : ElicitationPayload) (net : Post → PostReply) (store : CorrelationStore) : list Exchange :=
  match ep_elicitation_id payload with
  | None => []
  | Some id =>
      if bool_decide (is_Some (store !! id ≫= co_resolved_approver)) then []
      else Polled id <$> success_body (net (poll_post self id))
  end.

(** Requests of any kind, in any order, against a network that may answer anything. *)
Inductive ciba_step : CorrelationStore * list Exchange → CorrelationStore * list Exchange → Prop :=
| cs_dispatch payload net now store log :
    ciba_step (store, log) ((do_dispatch self payload net now store).2, log ++ dispatch_log payload net)
| cs_check payload net store log :
    ciba_step (store, log) ((do_check self payload net store).2, log ++ check_log payload net store)
| cs_validate store log : ciba_step (store, log) (store, log).

Definition ciba_reachable (st : CorrelationStore * list Exchange) : Prop := rtc ciba_step (∅, []) st.

(** The body of a reply that opens an elicitation with this id, and one that names
    this approver. *)
Definition opens (body id : string) : Prop := ∃ expires, read_shape backchannel_response body = Ok (id, expires).
Definition names_approver (body a : string) : Prop :=
  ∃ tokens, read_shape ciba_token_response body = Ok tokens ∧ token_approver self tokens = Some a.

(** What backs an entry of the store. *)
Definition backed_by (log : list Exchange) (id : string) (c : Correlation) : Prop :=
  ∃ l1 payload body l2, log = l1 ++ Asked payload body :: l2 ∧ opens body id ∧
    ep_from payload = co_expected_approver c ∧ ep_from payload ≠ EmptyString ∧
    ∀ a, co_resolved_approver c = Some a → ∃ body', Polled id body' ∈ l2 ∧ names_approver body' a.
Definition store_backed (st : CorrelationStore * list Exchange) : Prop :=
  ∀ id c, st.1 !! id = Some c → backed_by st.2 id c.

Lemma backed_by_grows log more id c : backed_by log id c → backed_by (log ++ more) id c.
Proof.
  intros (l1 & p & body & l2 & -> & Ho & Hf & Hne & Ha). exists l1, p, body, (l2 ++ more).
  split_and!; [by rewrite <- app_assoc|done|done|done|]. intros a (body' & Hin & Hn)%Ha. exists body'. set_solver.
Qed.

Lemma store_backed_grows store log more : store_backed (store, log) → store_backed (store, log ++ more).
Proof. intros Hs id c Hc. by apply backed_by_grows, Hs. Qed.

Lemma dispatch_backed payload net now store log :
  store_backed (store, log) →
  store_backed ((do_dispatch self payload net now store).2, log ++ dispatch_log payload net).
Proof.
  intros Hs. unfold do_dispatch, dispatch_log. destruct (String.eqb_spec (ep_from payload) EmptyString) as [|Hne];
    [by apply store_backed_grows|].
  destruct (net _) as [e|e|status body]; simpl; [by apply store_backed_grows..|].
  destruct (is_success status); simpl; [|by apply store_backed_grows].
  destruct (response_json backchannel_response body) as [[id expires]|] eqn:E; simpl; [|by apply store_backed_grows].
  intros j c. simpl. destruct (decide (id = j)) as [<-|].
  - unfold store_put. rewrite lookup_insert_eq. intros [= <-].
    exists log, payload, (body_text body), []. split_and!; [done| |done|done|done].
    destruct body as [text|]; [|done]. simpl in E |- *. by exists expires.
  - unfold store_put. rewrite lookup_insert_ne by done. intros Hc. by apply backed_by_grows, Hs.
Qed.

Lemma check_backed payload net store log :
  store_backed (store, log) →
  store_backed ((do_check self payload net store).2, log ++ check_log payload net store).
Proof.
  intros Hs. unfold do_check, check_log. destruct (ep_elicitation_id payload) as [id|]; [|by apply store_backed_grows].
  case_bool_decide; [by apply store_backed_grows|].
  destruct (net _) as [e|e|status body]; simpl; [by apply store_backed_grows..|].
  destruct (is_success status); simpl; [|by apply store_backed_grows].
  destruct (read_shape ciba_token_response (body_text body)) as [tokens|] eqn:E; simpl; [|by apply store_backed_grows].
  destruct (token_approver self tokens) as [a|] eqn:Ea; [|by apply store_backed_grows].
  intros j c. simpl. unfold set_resolved_approver. destruct (decide (id = j)) as [<-|].
  - rewrite lookup_alter_eq. intros (c0 & Hc0 & ->)%fmap_Some.
    destruct (Hs id c0 Hc0) as (l1 & p & b & l2 & Hlog & Ho & Hf & Hne & _). simpl in Hlog. subst log.
    exists l1, p, b, (l2 ++ [Polled id (body_text body)]).
    split_and!; [by rewrite <- app_assoc|done|done|done|]. simpl. intros a' [= <-].
    exists (body_text body). split; [set_solver|]. by exists tokens.
  - rewrite lookup_alter_ne by done. intros Hc. by apply backed_by_grows, Hs.
Qed.

Lemma reachable_backed st : ciba_reachable st → store_backed st.
Proof.
  intros Hr. assert (store_backed (∅, [])) as H0 by (intros id c Hc; simpl in Hc; by rewrite lookup_empty in Hc).
  induction Hr as [|st1 st2 st3 Hs _ IH]; [done|]. apply IH. inversion Hs; subst.
  - by apply dispatch_backed.
  - by apply check_backed.
  - done.
Qed.

Lemma validated_backed store log payload id p' :
  store_backed (store, log) → ep_elicitation_id payload = Some id →
  ef_modified_payload (do_validate self payload store) = Some p' → ep_valid p' = Some true →
  ∃ l1 asked body l2 body', log = l1 ++ Asked asked body :: l2 ∧ opens body id ∧ Polled id body' ∈ l2 ∧
    names_approver body' (ep_from asked) ∧ ep_from asked ≠ EmptyString ∧ ep_approver p' = Some (ep_from asked).
Proof.
  intros Hs Hid. unfold do_validate. rewrite Hid.
  destruct (store !! id) as [c|] eqn:Ec; [|by intros [= <-]].
  destruct (Hs id c Ec) as (l1 & asked & body & l2 & Hlog & Ho & Hf & Hne & Ha).
  destruct (co_resolved_approver c) as [a|]; [|by intros [= <-]].
  destruct (Ha a eq_refl) as (body' & Hin & Hn).
  destruct (String.eqb_spec a (co_expected_approver c)) as [->|]; [|by intros [= <-]].
  intros [= <-] _. rewrite <- Hf in *. exists l1, asked, body, l2, body'. done.
Qed.

(** An elicitation is validated only if the provider opened it for an approver the
    gateway named, and afterwards answered a poll for that very id with a token
    naming the same approver; in every history of requests and replies. *)
Theorem ciba_valid_means_approved store log payload id p' :
  ciba_reachable (store, log) → ep_elicitation_id payload = Some id →
  ef_modified_payload (do_validate self payload store) = Some p' → ep_valid p' = Some true →
  ∃ l1 asked body l2 body', log = l1 ++ Asked asked body :: l2 ∧ opens body id ∧ Polled id body' ∈ l2 ∧
    names_approver body' (ep_from asked) ∧ ep_from asked ≠ EmptyString ∧ ep_approver p' = Some (ep_from asked).
Proof. intros Hs%reachable_backed. by apply validated_backed. Qed.

(** A reply without the claim, or an unknown id, never validates. *)
Lemma unresolved_never_valid store payload id :
  ep_elicitation_id payload = Some id → store !! id ≫= co_resolved_approver = None →
  ∃ reason, do_validate self payload store = invalid payload reason.
Proof.
  intros Hid. unfold do_validate. rewrite Hid. destruct (store !! id) as [c|]; simpl; [|eauto].
  intros ->. eauto.
Qed.

End Approval.

(** ** The cue *)

Definition cue_byte (c : ascii) : bool := is_ascii_alphanumeric c || Ascii.eqb c "-".

Lemma cue_byte_ascii c : cue_byte c = true → is_continuation c = false.
Proof. destruct c as [[] [] [] [] [] [] [] []]; vm_compute; done. Qed.

Lemma chars_ascii s :
  Forall (λ c, cue_byte c = true) (bytes s) → chars s = (λ c, String c EmptyString) <$> bytes s.
Proof.
  induction s as [|c s IH]; simpl; [done|]. inversion_clear 1 as [|? ? Hc Hs]. rewrite IH by done.
  destruct (bytes s) as [|d l] eqn:E; simpl; [done|]. inversion_clear Hs as [|? ? Hd _].
  by rewrite (cue_byte_ascii _ Hd).
Qed.

Lemma bytes_singletons l : bytes (concat_str ((λ c, String c EmptyString) <$> l)) = l.
Proof. induction l as [|c l IH]; [done|]. rewrite fmap_cons. cbn [concat_str]. rewrite bytes_append, IH. done. Qed.

(** What the loop keeps: letters, digits and dashes, the first no dash. *)
Definition cue_ok (l : list ascii) : Prop :=
  Forall (λ c, cue_byte c = true) l ∧ head l ≠ Some "-"%char.

Lemma cue_step_ok st c : cue_ok (bytes st.1) → cue_ok (bytes (cue_step st c).1).
Proof.
  destruct st as [out dash]. simpl. intros [Hf Hh]. unfold cue_step. destruct (is_ascii_alnum_char c) eqn:Ec.
  - destruct c as [|b [|]]; [done| |done]. simpl in Ec |- *. rewrite bytes_append. simpl. split.
    + apply Forall_app. split; [done|]. constructor; [|done]. unfold cue_byte. by rewrite Ec.
    + destruct (bytes out) as [|d l]; [|done]. simpl. intros [= ->]. done.
  - destruct (_ && _ && _) eqn:Ew; [|done]. simpl. rewrite bytes_append. simpl. split.
    + apply Forall_app. split; [done|]. by repeat constructor.
    + destruct out as [|d l]; [|done]. by rewrite !andb_false_r in Ew.
Qed.

Lemma cue_loop_ok l st : cue_ok (bytes st.1) → cue_ok (bytes (fold_left cue_step l st).1).
Proof. revert st. induction l as [|c l IH]; intros st H; [done|]. by apply IH, cue_step_ok. Qed.

Lemma drop_while_suffix {A} (f : A → bool) l : ∃ k, drop_while f l = drop k l.
Proof.
  induction l as [|x l [k IH]]; [by exists 0%nat|]. simpl. destruct (f x); [by exists (S k)|by exists 0%nat].
Qed.
Lemma drop_while_head {A} (f : A → bool) l x : head (drop_while f l) = Some x → f x = false.
Proof. induction l as [|y l IH]; [done|]. simpl. destruct (f y) eqn:E; [done|]. by intros [= <-]. Qed.

Lemma last_rev {A} (l : list A) : last (rev l) = head l.
Proof. destruct l as [|x l]; [done|]. apply last_snoc. Qed.

Lemma trim_end_dashes_take l : ∃ k, trim_end_dashes l = take k l.
Proof.
  unfold trim_end_dashes. destruct (drop_while_suffix (String.eqb "-") (rev l)) as [k ->].
  exists (length l - k)%nat. rewrite skipn_rev, rev_involutive. done.
Qed.

(** The cue shown to the approver is within the limits the provider sets: at most
    fifty letters, digits and dashes, none of them a dash at either end, whatever
    the purpose says. *)
Theorem binding_message_plain purpose :
  let m := bytes (sanitize_binding_message purpose) in
  (length m ≤ 50)%nat ∧ Forall (λ c, cue_byte c = true) m ∧
  head m ≠ Some "-"%char ∧ last m ≠ Some "-"%char.
Proof.
  unfold sanitize_binding_message. cbv zeta.
  pose proof (cue_loop_ok (chars purpose) (EmptyString, false)) as [Hf Hh]; [by split; [constructor|]|].
  set (out := (fold_left cue_step (chars purpose) (EmptyString, false)).1) in *.
  rewrite chars_ascii by done. rewrite <- fmap_take.
  destruct (trim_end_dashes_take ((λ c, String c EmptyString) <$> take 50 (bytes out))) as [k Hk].
  pose proof (drop_while_head (String.eqb "-") (rev ((λ c, String c EmptyString) <$> take 50 (bytes out)))) as Hlast.
  assert (last (trim_end_dashes ((λ c, String c EmptyString) <$> take 50 (bytes out))) ≠ Some "-") as Hl.
  { unfold trim_end_dashes. rewrite last_rev. intros Hd. by apply Hlast in Hd. }
  rewrite Hk in Hl |- *. rewrite <- fmap_take in Hl |- *. rewrite bytes_singletons.
  rewrite take_take in Hl |- *. set (n := (k `min` 50)%nat) in *. split_and!.
  - rewrite length_take. lia.
  - by apply Forall_take.
  - destruct n, (bytes out); done.
  - intros Hd. apply Hl. rewrite fmap_last, Hd. done.
Qed.

Module CibaDemo.

#[local] Instance demo_lib : IdpLib := {
  status_text _ := "400 Bad Request";
  json_read s := if String.eqb s "opened"
                 then Ok (VObject {[ "auth_req_id" := VString "req-1" ]})
                 else if String.eqb s "endless"
                 then Ok (VObject {[ "auth_req_id" := VString "req-1"; "expires_in" := VNumber (PosInt i64_max) ]})
                 else if String.eqb s "tokens" then Ok (VObject {[ "id_token" := VString "h.alice.s" ]})
                 else if String.eqb s "alice" then Ok (VObject {[ "preferred_username" := VString "alice" ]})
                 else Err "not JSON";
  shape_error _ := "wrong shape";
  b64url_decode s := Some s;
  env_var _ := Err "unset"; read_file _ := Err "absent"; http_client _ := Ok tt
}.
#[local] Instance demo_calendar : Calendar :=
  λ now secs, if (now + secs <=? 8210266876799)%Z then Some (now + secs)%Z else None.
#[local] Instance demo_time : CibaTime := show_Z.

Definition approver : CibaApprover :=
  mkCiba (mkPluginConfig "ciba" "elicitation/ciba" None None None [] Sequential 0 Fail ∅ [] [] None)
    (mkCibaConfig "https://idp/bc" "https://idp/token" "gateway" (SecretLiteral "s") "openid" 300 5
       "preferred_username" false) "s".
Definition replies (body : string) : Post → PostReply := λ _, Replied 200 (Ok body).
Definition later (op : ElicitationOp) (from : string) : ElicitationPayload :=
  mkElicitationPayload op (Some "req-1") "approval" from None None None None None None None None None None
    None None ∅.

Definition asked : ElicitationPayload := elicitation_new OpDispatch "approval" "alice".
Definition store1 : CorrelationStore := (do_dispatch approver asked (replies "opened") 0 ∅).2.
Definition store2 : CorrelationStore := (do_check approver (later OpCheck "alice") (replies "tokens") store1).2.
Definition log2 : list Exchange := [Asked asked "opened"; Polled "req-1" "tokens"].

Lemma log2_reachable : ciba_reachable approver (store2, log2).
Proof.
  apply (rtc_l _ _ (store1, [Asked asked "opened"])).
  { apply (cs_dispatch approver asked (replies "opened") 0 ∅ []). }
  apply rtc_once. apply (cs_check approver (later OpCheck "alice") (replies "tokens") store1 [Asked asked "opened"]).
Qed.

(** An approval that is asked for, given and validated, through the handler. *)
Lemma approved_witness :
  ∃ p', ef_modified_payload (do_validate approver (later OpValidate "alice") store2) = Some p' ∧
    ep_valid p' = Some true ∧ ∃ body', Polled "req-1" body' ∈ log2.
Proof.
  destruct (ef_modified_payload (do_validate approver (later OpValidate "alice") store2)) as [p'|] eqn:E;
    [|by vm_compute in E].
  assert (ep_valid p' = Some true) as Hv by (vm_compute in E; injection E as <-; done).
  destruct (ciba_valid_means_approved approver store2 log2 (later OpValidate "alice") "req-1" p'
              log2_reachable eq_refl E Hv) as (l1 & a & body & l2 & body' & Hlog & _ & Hin & _).
  exists p'. split_and!; [done|done|]. exists body'. rewrite Hlog. set_solver.
Defined.

(** The step that presents an id is not compared with the one it was opened for:
    alice's approval also validates a step that asks bob. *)
Example approval_replayed_for_another_approver :
  (λ p', (ep_from p', ep_approver p', ep_valid p')) <$>
    ef_modified_payload (do_validate approver (later OpValidate "bob") store2)
  = Some ("bob", Some "alice", Some true).
Proof. by vm_compute. Qed.

(** A timeout beyond 64 bits of seconds wraps to a short one. *)
Example huge_timeout_wraps : parse_duration_secs "213503982334602d" = Some 61184%Z.
Proof. by vm_compute. Qed.

(** A reply with a lifetime the calendar cannot hold panics the handler, after the
    correlation is stored. *)
Example endless_elicitation_panics :
  (do_dispatch approver asked (replies "endless") 0 ∅).1 = None ∧
  is_Some ((do_dispatch approver asked (replies "endless") 0 ∅).2 !! "req-1").
Proof. split; [by vm_compute|]. vm_compute. by eexists. Qed.

Example cue_reads_plain :
  sanitize_binding_message "Approve Bob's $25,000 raise for Jane Smith" = "Approve-Bobs-25000-raise-for-Jane-Smith".
Proof. by vm_compute. Qed.

End CibaDemo.
