(* ===== verification/Scanner.v ===== *)
(** * The PII scanner and the audit logger (builtins/plugins/pii-scanner, audit-logger)

    Two plugins on CMF messages: one that denies or rewrites a message whose
    arguments or texts match a pattern, one that describes each request in a JSON
    record.  Hash maps are iterated in the order of [HashOrder] and [TokenOrder];
    regular expressions, timestamps and the derived deserializers are parameters. *)

From S2P Require Import Prelude RustStd F64 Json JsonMerge ExtData Extensions PluginTypes Executor Manager.
From S2P Require Import Message Pipelines Jwt HostWire HostVenv.

Local Open Scope string_scope.
Local Open Scope list_scope.

(** [PluginResult::allow]. *)
Definition result_allow {Pay} : ErasedResultFields Pay := mkErased true None None None.

(** A factory that registers one handler on every hook of the configuration. *)
Definition on_every_hook {P} (label purpose : string) (config : PluginConfig) (plugin : P) :
    Result (PluginInstance P P) PluginError :=
  if is_nil (pcf_hooks config) then
    Err (ErrConfig ("plugin '" +:+ pcf_name config +:+ "' (" +:+ label +:+ "): `hooks:` must list at "
                      +:+ "least one CMF hook to " +:+ purpose +:+ " (e.g. cmf.tool_pre_invoke)"))
  else Ok (mkInstance plugin ((λ h, (h, plugin)) <$> pcf_hooks config)).

(** ** The scanner *)

Inductive PiiPattern := PiiSsn | PiiCreditCard | PiiEmail | PiiCustom (name regex : string).
Inductive PiiScanMode := ScanDeny | ScanRedact.
Record PiiScannerConfig := mkPiiConfig { pii_detect : list PiiPattern; pii_mode : PiiScanMode }.
Definition default_detect : list PiiPattern := [PiiSsn; PiiCreditCard].

(** The derived deserializers of the two configurations. *)
Inductive AuditDestination := ToStderr | ToTracing.
Record AuditLoggerConfig := mkAuditConfig { au_destination : AuditDestination; au_source : option string }.
Definition audit_config_default : AuditLoggerConfig := mkAuditConfig ToStderr None.
Class ScanSerde := {
  pii_config_of_json : Value → Result PiiScannerConfig string;
  audit_config_of_json : Value → Result AuditLoggerConfig string
}.

Record PiiScanner `{RegexCrate} := mkScanner {
  ps_cfg : PluginConfig;
  ps_typed : PiiScannerConfig;
  ps_patterns : list (string * Regex)
}.

Definition PII : string := "[PII]".

(** The name of a pattern and its expression. *)
Definition pattern_source (p : PiiPattern) : string * string :=
  match p with
  | PiiSsn => ("ssn", "\b\d{3}-\d{2}-\d{4}\b")
  | PiiCreditCard => ("credit_card", "\b(?:\d[ -]?){13,19}\b")
  | PiiEmail => ("email", "\b[A-Za-z0-9._%+-]+@[A-Za-z0-9.-]+\.[A-Za-z]{2,}\b")
  | PiiCustom name regex => (name, regex)
  end.

Fixpoint compile_patterns `{RegexCrate} (patterns : list PiiPattern) (plugin_name : string) :
    Result (list (string * Regex)) PluginError :=
  match patterns with
  | [] => Ok []
  | p :: patterns =>
      let '(name, re_str) := pattern_source p in
      match regex_new re_str with
      | Err e =>
          Err (ErrConfig ("plugin '" +:+ plugin_name +:+ "' (cpex-plugin-pii-scanner): pattern '" +:+ name
                            +:+ "' failed to compile: " +:+ e))
      | Ok re => let? out := compile_patterns patterns plugin_name in Ok ((name, re) :: out)
      end
  end.

Definition scanner_new `{RegexCrate} `{ScanSerde} (cfg : PluginConfig) : Result PiiScanner PluginError :=
  match pcf_config cfg with
  | None =>
      Err (ErrConfig ("plugin '" +:+ pcf_name cfg +:+ "' (cpex-plugin-pii-scanner) requires a `config:` block"))
  | Some raw =>
      match pii_config_of_json raw with
      | Err e =>
          Err (ErrConfig ("plugin '" +:+ pcf_name cfg +:+ "' (cpex-plugin-pii-scanner) config parse failed: " +:+ e))
      | Ok typed =>
          let? patterns := compile_patterns (pii_detect typed) (pcf_name cfg) in
          Ok (mkScanner _ cfg typed patterns)
      end
  end.
Definition scanner_create `{RegexCrate} `{ScanSerde} (config : PluginConfig) :
    Result (PluginInstance PiiScanner PiiScanner) PluginError :=
  let? scanner := scanner_new config in on_every_hook "cpex-plugin-pii-scanner" "scan on" config scanner.

(** The first element of a list a search accepts. *)
Fixpoint first_some {A B} (f : A → option B) (l : list A) : option B :=
  match l with
  | [] => None
  | x :: l => match f x with Some b => Some b | None => first_some f l end
  end.

Section Scan.
Context `{regex : RegexCrate} `{order : HashOrder} (self : PiiScanner).

Definition match_str (s : string) : option string :=
  first_some (λ '(name, re), if regex_is_match re s then Some name else None) (ps_patterns self).
Definition match_value (v : Value) : option string :=
  match v with VString s => match_str s | _ => None end.
Definition match_part (part : ContentPart) : option string :=
  match part with
  | PToolCall content => first_some match_value (map_iter (tc_arguments content)).*2
  | PPromptRequest content => first_some match_value (map_iter (pq_arguments content)).*2
  | PText text => match_str text
  | _ => None
  end.
Definition first_match (message : Message) : option string := first_some match_part (ms_content message).

Definition redact_value (v : Value) : Value :=
  match v with
  | VString s => if negb (is_none (match_str s)) then VString PII else v
  | _ => v
  end.
Definition redact_part (part : ContentPart) : ContentPart :=
  match part with
  | PToolCall c =>
      PToolCall (mkToolCall (tc_tool_call_id c) (tc_name c) (redact_value <$> tc_arguments c) (tc_namespace c))
  | PPromptRequest c =>
      PPromptRequest (mkPromptRequest (pq_prompt_request_id c) (pq_name c) (redact_value <$> pq_arguments c)
                        (pq_server_id c))
  | PText text => if negb (is_none (match_str text)) then PText PII else part
  | _ => part
  end.
Definition redact_message (m : Message) : Message :=
  mkMessage (ms_schema_version m) (ms_role m) (redact_part <$> ms_content m) (ms_channel m).

Definition scanner_handle (payload : MessagePayload) : ErasedResultFields MessagePayload :=
  match first_match (mp_message payload), pii_mode (ps_typed self) with
  | None, _ => result_allow
  | Some pattern_name, ScanDeny =>
      result_deny "pii.detected"
        ("PII pattern '" +:+ pattern_name +:+ "' detected in request args — refusing to forward to downstream")
  | Some _, ScanRedact => result_modify (mkMessagePayload (redact_message (mp_message payload)))
  end.

(** ** What is scanned *)

(** The strings of a part the plugin looks at: top-level string arguments, and text. *)
Definition part_scans (part : ContentPart) (s : string) : Prop :=
  match part with
  | PToolCall c => ∃ k, tc_arguments c !! k = Some (VString s)
  | PPromptRequest c => ∃ k, pq_arguments c !! k = Some (VString s)
  | PText text => s = text
  | _ => False
  end.
Definition scans (m : Message) (s : string) : Prop := ∃ part, part ∈ ms_content m ∧ part_scans part s.
(** A configured pattern matches. *)
Definition hit (s : string) : Prop := ∃ name re, (name, re) ∈ ps_patterns self ∧ regex_is_match re s = true.

Lemma first_some_None {A B} (f : A → option B) l : first_some f l = None ↔ ∀ x, x ∈ l → f x = None.
Proof.
  induction l as [|x l IH]; simpl; [set_solver|]. destruct (f x) eqn:E.
  - split; [done|]. intros H. rewrite H in E; [done|set_solver].
  - rewrite IH. set_solver.
Qed.

Lemma match_str_None s : match_str s = None ↔ ¬ hit s.
Proof.
  unfold match_str, hit. rewrite first_some_None. split.
  - intros H (name & re & Hin & Hm). specialize (H _ Hin). simpl in H. by rewrite Hm in H.
  - intros H [name re] Hin. destruct (regex_is_match re s) eqn:E; [|done]. destruct H; eauto.
Qed.
Lemma match_str_hit s : negb (is_none (match_str s)) = true ↔ hit s.
Proof.
  destruct (match_str s) eqn:E; simpl.
  - split; [|done]. intros _. destruct (decide (match_str s = None)) as [|Hn]; [congruence|].
    clear E. unfold match_str in Hn. unfold hit. induction (ps_patterns self) as [|[name re] l IH]; [done|].
    simpl in Hn. destruct (regex_is_match re s) eqn:Em; [exists name, re; set_solver|].
    destruct (IH Hn) as (n' & re' & Hin & Hm). exists n', re'. set_solver.
  - split; [done|]. intros H. by apply match_str_None in E.
Qed.

Lemma arguments_match (args : gmap string Value) :
  first_some match_value (map_iter args).*2 = None ↔ ∀ k s, args !! k = Some (VString s) → ¬ hit s.
Proof.
  rewrite first_some_None. split.
  - intros H k s Hk. apply match_str_None. apply (H (VString s)). apply list_elem_of_fmap.
    exists (k, VString s). split; [done|]. by rewrite map_iter_perm, elem_of_map_to_list.
  - intros H v [[k v'] [-> Hin]]%list_elem_of_fmap. rewrite map_iter_perm, elem_of_map_to_list in Hin. simpl.
    destruct v'; try done. simpl. apply match_str_None. by apply (H k).
Qed.

Lemma match_part_None part : match_part part = None ↔ ∀ s, part_scans part s → ¬ hit s.
Proof.
  destruct part; simpl; try (by split); rewrite ?arguments_match, ?match_str_None; naive_solver.
Qed.
Lemma first_match_None m : first_match m = None ↔ ∀ s, scans m s → ¬ hit s.
Proof.
  unfold first_match, scans. rewrite first_some_None. setoid_rewrite match_part_None. naive_solver.
Qed.

Lemma redact_value_scans v s :
  redact_value v = VString s → (v = VString s ∧ ¬ hit s) ∨ s = PII.
Proof.
  destruct v; simpl; try done. destruct (is_none (match_str s0)) eqn:E; simpl; intros [= <-]; [left|by right].
  split; [done|]. intros H%match_str_hit. by rewrite E in H.
Qed.
Lemma redact_part_scans part s : part_scans (redact_part part) s → ¬ hit s ∨ s = PII.
Proof.
  destruct part; simpl; try done.
  - destruct (is_none (match_str text)) eqn:E; simpl; intros ->; [left|by right].
    intros H%match_str_hit. by rewrite E in H.
  - intros (k & Hk). rewrite lookup_fmap in Hk. apply fmap_Some in Hk as (v & _ & Hv).
    symmetry in Hv. apply redact_value_scans in Hv. naive_solver.
  - intros (k & Hk). rewrite lookup_fmap in Hk. apply fmap_Some in Hk as (v & _ & Hv).
    symmetry in Hv. apply redact_value_scans in Hv. naive_solver.
Qed.

(** A message the scanner lets through, as it is forwarded, holds no scanned
    string that a pattern matches, but for the marker it writes itself; and a
    message without a match is never touched or refused, whatever the order of
    the arguments. *)
Theorem scanner_forwards_clean payload :
  let r := scanner_handle payload in
  (ef_continue_processing r = true →
   ∀ s, scans (mp_message (default payload (ef_modified_payload r))) s → hit s →
     s = PII ∧ pii_mode (ps_typed self) = ScanRedact) ∧
  ((∀ s, scans (mp_message payload) s → ¬ hit s) ↔ r = result_allow).
Proof.
  unfold scanner_handle. destruct (first_match (mp_message payload)) as [name|] eqn:E; simpl.
  - split.
    + destruct (pii_mode (ps_typed self)); [done|]. intros _ s (part & Hin & Hs) Hh. simpl in Hin.
      apply list_elem_of_fmap in Hin as (part' & -> & Hin). apply redact_part_scans in Hs as [|]; [done|done].
    + split; [|by destruct (pii_mode (ps_typed self))]. intros H%first_match_None. congruence.
  - pose proof (proj1 (first_match_None _) E) as Hc. split; [|by split]. intros _ s Hs Hh. by apply Hc in Hs.
Qed.

(** Redaction keeps the kinds, the keys and every value that does not match. *)
Lemma redact_keeps_keys c k :
  tc_arguments c !! k = None ↔ (redact_value <$> tc_arguments c) !! k = None.
Proof. rewrite lookup_fmap. by destruct (tc_arguments c !! k). Qed.
Lemma redact_message_clean m : (∀ s, scans m s → ¬ hit s) → redact_message m = m.
Proof.
  intros H. destruct m as [ver role content ch]. unfold redact_message. simpl. f_equal.
  rewrite <- (list_fmap_id content) at 2. apply list_fmap_ext. intros i part Hp.
  assert (∀ s, part_scans part s → match_str s = None) as Hc.
  { intros s Hs. apply match_str_None, H. exists part. split; [|done]. by eapply list_elem_of_lookup_2. }
  destruct part; simpl in *; try done.
  - by rewrite Hc.
  - destruct content0. simpl in *. do 2 f_equal. rewrite <- (map_fmap_id tc_arguments) at 2. apply map_fmap_ext.
    intros k v Hv. destruct v; try done. simpl. by rewrite Hc by eauto.
  - destruct content0. simpl in *. do 2 f_equal. rewrite <- (map_fmap_id pq_arguments) at 2. apply map_fmap_ext.
    intros k v Hv. destruct v; try done. simpl. by rewrite Hc by eauto.
Qed.

(** A second scan is clean where no pattern matches the marker. *)
Lemma redact_once m : ¬ hit PII → redact_message (redact_message m) = redact_message m.
Proof.
  intros Hp. apply redact_message_clean. intros s (part & Hin & Hs) Hh. simpl in Hin.
  apply list_elem_of_fmap in Hin as (part' & -> & _). apply redact_part_scans in Hs as [|Hs]; [done|].
  by subst s.
Qed.

End Scan.

(** ** The audit logger *)

Record AuditLogger := mkLogger { al_cfg : PluginConfig; al_typed : AuditLoggerConfig }.

Definition logger_new `{ScanSerde} (cfg : PluginConfig) : Result AuditLogger PluginError :=
  match pcf_config cfg with
  | Some raw =>
      match audit_config_of_json raw with
      | Err e =>
          Err (ErrConfig ("plugin '" +:+ pcf_name cfg +:+ "' (cpex-plugin-audit-logger) config parse failed: " +:+ e))
      | Ok typed => Ok (mkLogger cfg typed)
      end
  | None => Ok (mkLogger cfg audit_config_default)
  end.
Definition logger_create `{ScanSerde} (config : PluginConfig) :
    Result (PluginInstance AuditLogger AuditLogger) PluginError :=
  let? logger := logger_new config in on_every_hook "cpex-plugin-audit-logger" "audit" config logger.

(** [to_rfc3339_opts] in milliseconds and in seconds. *)
Class AuditTime := { rfc3339_millis : Z → string; rfc3339_secs : Z → string }.

Section Audit.
Context `{time : AuditTime} `{order : HashOrder} `{tokens : TokenOrder} (self : AuditLogger).
Abbreviation Record_ := (gmap string Value).

Definition subject_entry (s : SubjectExtension) : Value :=
  VObject {[ "id" := opt_json (sj_id s); "roles" := VArray (VString <$> set_iter (sj_roles s));
             "teams" := VArray (VString <$> set_iter (sj_teams s)) ]}.
Definition client_entry (c : ClientExtension) : Value :=
  VObject {[ "client_id" := VString (cl_client_id c); "client_name" := opt_json (cl_client_name c) ]}.
Definition entity_entry (meta : MetaExtension) : Value :=
  VObject {[ "type" := opt_json (mt_entity_type meta); "name" := opt_json (mt_entity_name meta) ]}.
Definition token_entry (tok : RawDelegatedToken) : Value :=
  VObject {[ "audience" := VString (dt_audience tok); "scopes" := VArray (VString <$> dt_scopes tok);
             "outbound_header" := VString (dt_outbound_header tok);
             "expires_at" := VString (rfc3339_secs (dt_expires_at tok)) ]}.

(** The first call or prompt of the message. *)
Definition content_entry (part : ContentPart) : option (string * Value) :=
  match part with
  | PToolCall c =>
      Some ("tool_call", VObject {[ "name" := VString (tc_name c); "tool_call_id" := VString (tc_tool_call_id c);
                                    "args" := VObject (tc_arguments c) ]})
  | PPromptRequest c =>
      Some ("prompt_request", VObject {[ "name" := VString (pq_name c); "args" := VObject (pq_arguments c) ]})
  | _ => None
  end.

Definition insert_some (kv : option (string * Value)) (r : Record_) : Record_ :=
  match kv with Some (k, v) => <[k := v]> r | None => r end.

Definition build_record (payload : MessagePayload) (ext : Extensions) (now : Z) : Value :=
  let r : Record_ := {[ "ts" := VString (rfc3339_millis now) ]} in
  let r := <["plugin" := VString (pcf_name (al_cfg self))]> r in
  let r := insert_some ((λ s, ("source", VString s)) <$> au_source (al_typed self)) r in
  let r := insert_some ((λ s, ("subject", subject_entry s)) <$> (x_security ext ≫= sc_subject)) r in
  let r := insert_some ((λ c, ("client", client_entry c)) <$> (x_security ext ≫= sc_client)) r in
  let r := insert_some ((λ m, ("entity", entity_entry (arc_val m))) <$> x_meta ext) r in
  let r := insert_some (first_some content_entry (ms_content (mp_message payload))) r in
  let r := insert_some
    (raw ← x_raw_credentials ext;
     if bool_decide (rc_delegated_tokens raw = ∅) then None
     else Some ("delegated_tokens", VArray ((λ '(_, tok), token_entry tok) <$> delegated_iter (rc_delegated_tokens raw)))) r in
  VObject r.

(** The record is emitted, and the request always goes on. *)
Definition audit_emit (record : Value) : list (AuditDestination * Value) := [(au_destination (al_typed self), record)].
Definition audit_handle (payload : MessagePayload) (ext : Extensions) (now : Z) :
    ErasedResultFields MessagePayload * list (AuditDestination * Value) :=
  (result_allow, audit_emit (build_record payload ext now)).

(** ** Secrets *)

(** The extensions with every credential blanked: no inbound token, and delegated
    tokens without their text. *)
Definition blank_token (t : RawDelegatedToken) : RawDelegatedToken :=
  mkDelegated EmptyString (dt_outbound_header t) (dt_audience t) (dt_scopes t) (dt_expires_at t).
Definition blank_credentials (raw : RawCredentialsExtension) : RawCredentialsExtension :=
  mkRawCredentials ∅ (blank_token <$> rc_delegated_tokens raw).
Definition blank (ext : Extensions) : Extensions :=
  mkExtensions (x_request ext) (x_agent ext) (x_http ext) (x_security ext) (x_candidate_constraint ext)
    (x_delegation ext) (blank_credentials <$> x_raw_credentials ext) (x_mcp ext) (x_completion ext) (x_provenance ext)
    (x_llm ext) (x_framework ext) (x_meta ext) (x_custom ext) (x_http_write_token ext)
    (x_labels_write_token ext) (x_delegation_write_token ext).

(** Records that agree but for the order of the delegated tokens. *)
Definition same_record (a b : Value) : Prop :=
  ∃ ra rb, a = VObject ra ∧ b = VObject rb ∧
    (∀ k, k ≠ "delegated_tokens" → ra !! k = rb !! k) ∧
    (ra !! "delegated_tokens" = rb !! "delegated_tokens" ∨
     ∃ la lb, ra !! "delegated_tokens" = Some (VArray la) ∧ rb !! "delegated_tokens" = Some (VArray lb) ∧ la ≡ₚ lb).

Lemma delegated_entries_blank m :
  ((λ '(_, tok), token_entry tok) <$> delegated_iter m) ≡ₚ
  ((λ '(_, tok), token_entry tok) <$> delegated_iter (blank_token <$> m)).
Proof.
  rewrite !delegated_iter_perm, map_to_list_fmap, <- list_fmap_compose. apply Permutation_refl'.
  apply list_fmap_ext. by intros ? [? []] _.
Qed.

(** The audit record does not depend on any credential: blanking the inbound
    tokens and the text of the delegated ones leaves the same record, and the
    logger never stops or changes a request. *)
Theorem audit_keeps_secrets payload ext now :
  (audit_handle payload ext now).1 = result_allow ∧
  same_record (build_record payload ext now) (build_record payload (blank ext) now).
Proof.
  split; [done|]. unfold build_record. cbv zeta. simpl.
  match goal with |- context [insert_some (_ ≫= _) ?r] => generalize r as base; intros base end.
  destruct (x_raw_credentials ext) as [raw|]; simpl.
  2:{ exists base, base. split_and!; [done..|by left]. }
  assert (blank_token <$> rc_delegated_tokens raw = ∅ ↔ rc_delegated_tokens raw = ∅) as Hempty by apply fmap_empty_iff.
  rewrite (bool_decide_ext _ _ Hempty). case_bool_decide; simpl.
  { exists base, base. split_and!; [done..|by left]. }
  eexists _, _. split_and!; [done|done|by intros k Hk; rewrite !lookup_insert_ne by done|].
  right. rewrite !lookup_insert_eq. eexists _, _. split_and!; [done|done|apply delegated_entries_blank].
Qed.

End Audit.

Module ScannerDemo.

#[local] Program Instance in_order : HashOrder := { set_iter s := elements s; map_iter _ m := map_to_list m }.
Solve All Obligations with done.
(** A crate whose expressions match the texts that begin with them. *)
#[local] Instance demo_regex : RegexCrate := {
  Regex := string; regex_new := Ok; regex_is_match re s := starts_with re s
}.

Definition scanner (mode : PiiScanMode) : PiiScanner :=
  mkScanner _ (mkPluginConfig "pii" "validator/pii-scan" None None None [] Sequential 0 Fail ∅ [] [] None)
    (mkPiiConfig [PiiCustom "id" "INT-"] mode) [("id", "INT-")].
Definition call (args : gmap string Value) : MessagePayload :=
  mkMessagePayload (message_with_content RUser [PToolCall (mkToolCall "1" "send" args None)]).

Lemma scanner_witness :
  let r := scanner_handle (scanner ScanRedact) (call {[ "ref" := VString "INT-ABC123" ]}) in
  ef_continue_processing r = true ∧
  ¬ scans (mp_message (default (call ∅) (ef_modified_payload r))) "INT-ABC123".
Proof.
  split; [by vm_compute|]. intros Hs.
  destruct (scanner_forwards_clean (scanner ScanRedact) (call {[ "ref" := VString "INT-ABC123" ]})) as [Hc _].
  destruct (Hc eq_refl "INT-ABC123" Hs) as [Hbad _]; [|done]. exists "id", "INT-". split; [set_solver|by vm_compute].
Defined.

(** What is not scanned: values inside an array or an object, and the parts other
    than calls, prompts and text. *)
Example nested_value_passes :
  scanner_handle (scanner ScanDeny) (call {[ "refs" := VArray [VString "INT-ABC123"] ]}) = result_allow.
Proof. by vm_compute. Qed.
Example tool_result_passes :
  scanner_handle (scanner ScanDeny)
    (mkMessagePayload (message_with_content RTool [PToolResult (mkToolResult "1" "lookup" (VString "INT-ABC123") false)]))
  = result_allow.
Proof. by vm_compute. Qed.

End ScannerDemo.
