(* ===== verification/Ffi.v ===== *)
(** * The C interface (cpex-ffi/src/lib.rs and apl.rs)

    The exported functions over a heap of handles: managers, context tables,
    background tasks and byte buffers.  A pointer is a block number or null; an
    operation on a block that is not live is undefined behaviour, [None].  What
    the runtime makes of a call (it finishes, is cut off by the clock or panics)
    and whether the allocator has room are arguments; MessagePack is a class. *)

From Stdlib Require Import Ascii.
From S2P Require Import Prelude RustStd F64 Json Yaml JsonMerge ExtData Routing Extensions PluginTypes Registry.
From S2P Require Import Orchestration Executor Config ConfigLoad Manager Message Delegation.

Local Open Scope string_scope.
Local Open Scope list_scope.

(** ** Codes *)

Definition RC_OK : Z := 0.
Definition RC_INVALID_HANDLE : Z := -1.
Definition RC_INVALID_INPUT : Z := -2.
Definition RC_PARSE_ERROR : Z := -3.
Definition RC_PIPELINE_ERROR : Z := -4.
Definition RC_SERIALIZE_ERROR : Z := -5.
Definition RC_TIMEOUT : Z := -6.
Definition RC_PANIC : Z := -7.
Definition FFI_ABI_VERSION : Z := 2.
Definition cpex_ffi_abi_version : Z := FFI_ABI_VERSION.

Definition PAYLOAD_GENERIC : Z := 0.
Definition PAYLOAD_CMF_MESSAGE : Z := 1.
Definition PAYLOAD_IDENTITY : Z := 2.

(** [c_int::MAX]. *)
Definition c_int_max : Z := (2 ^ 31 - 1)%Z.

(** ** Data *)

Abbreviation Ptr := (option positive).

Record GenericPayload := mkGenericPayload { gp_value : Value }.

Record FfiPipelineResult := mkFfiResult {
  fr_continue_processing : bool;
  fr_violation : option PluginViolation;
  fr_errors : list PluginErrorRecord;
  fr_metadata : option Value;
  fr_payload_type : Z;
  fr_modified_payload : option string;
  fr_payload_modified : bool;
  fr_modified_extensions : option string
}.

(** [rmp_serde] at the types that cross. *)
Class Msgpack := {
  generic_read : string → Result Value string;
  message_read : string → Result MessagePayload string;
  identity_read : string → Result IdentityPayload string;
  extensions_read : string → Result Extensions string;
  generic_write : Value → Result string string;
  message_write : MessagePayload → Result string string;
  identity_write : IdentityPayload → Result string string;
  extensions_write : Extensions → Result string string;
  names_write : list string → Result string string;
  errors_write : list PluginErrorRecord → Result string string;
  result_write : FfiPipelineResult → Result string string
}.

(** A pointer with a length: the memory it points to, of at least that length. *)
Definition c_bytes_to_slice (ptr : option string) (len : Z) : option string :=
  mem ← ptr; if (len <=? 0)%Z then None else Some (String.substring 0 (Z.to_nat len) mem).
Definition c_str_to_slice (ptr : option string) (len : Z) : option string :=
  s ← c_bytes_to_slice ptr len; if valid_utf8 (bytes s) then Some s else None.

(** How a supervised call ends, and the state a cut-off call leaves behind. *)
Inductive SafeRun (T : Type) := SafeOk (v : T) | SafeTimeout | SafePanicked.
Arguments SafeOk {T}.
Arguments SafeTimeout {T}.
Arguments SafePanicked {T}.
Definition safe_run_rc {T} (self : SafeRun T) : Z :=
  match self with SafeOk _ => RC_OK | SafeTimeout => RC_TIMEOUT | SafePanicked => RC_PANIC end.
Inductive Ending (S : Type) := Finishes | TimesOut (after : S) | Panics (after : S).
Arguments Finishes {S}.
Arguments TimesOut {S}.
Arguments Panics {S}.

(** [run_safely]. *)
Definition run_safely {S T} (run : S → T * S) (ending : Ending S) (st : S) : SafeRun T * S :=
  match ending with
  | Finishes => let '(v, st) := run st in (SafeOk v, st)
  | TimesOut after => (SafeTimeout, after)
  | Panics after => (SafePanicked, after)
  end.

Section Ffi.
Context {P H F V Pay W : Type}.
Context `{HookHandler H Pay W} `{Timer W} `{Runtime W}.
Context `{PluginFactory F P H W} `{Plugin P W} `{HookTypeName H} `{UuidSource W}.
Context `{TaskRuntime H Pay W} `{YamlToJson} `{YamlLib} `{SerdeConfig} `{WildMatch} `{order : HashOrder}.
Context `{ConfigVisitor P H F V Pay W} `{codec : Msgpack}.
Context `{Erased MessagePayload Pay} `{Erased IdentityPayload Pay} `{Erased GenericPayload Pay}.
(** The environment variable for the number of worker threads. *)
Context (env_threads : option string).

Abbreviation Mgr := (PluginManager P H F V Pay).
Abbreviation State := (PluginManager P H F V Pay * Env W)%type.
Abbreviation Tasks := (list (BackgroundTask H Pay)).

Record Heap := mkHeap {
  hp_managers : gmap positive Mgr;
  hp_tables : gmap positive PluginContextTable;
  hp_tasks : gmap positive Tasks;
  hp_buffers : gmap positive string;
  hp_next : positive;
  hp_runtime : option (option Z);   (** the shared runtime: its threads, or the default *)
  hp_env : Env W
}.

(** *** Boxes and buffers *)

Definition new_manager (m : Mgr) (h : Heap) : positive * Heap :=
  (hp_next h, mkHeap (<[hp_next h := m]> (hp_managers h)) (hp_tables h) (hp_tasks h) (hp_buffers h)
                (Pos.succ (hp_next h)) (hp_runtime h) (hp_env h)).
Definition new_table (t : PluginContextTable) (h : Heap) : positive * Heap :=
  (hp_next h, mkHeap (hp_managers h) (<[hp_next h := t]> (hp_tables h)) (hp_tasks h) (hp_buffers h)
                (Pos.succ (hp_next h)) (hp_runtime h) (hp_env h)).
Definition new_tasks (t : Tasks) (h : Heap) : positive * Heap :=
  (hp_next h, mkHeap (hp_managers h) (hp_tables h) (<[hp_next h := t]> (hp_tasks h)) (hp_buffers h)
                (Pos.succ (hp_next h)) (hp_runtime h) (hp_env h)).

(** [Box::from_raw] of a pointer that may be null. *)
Definition take_table (p : Ptr) (h : Heap) : option (option PluginContextTable * Heap) :=
  match p with
  | None => Some (None, h)
  | Some p =>
      t ← hp_tables h !! p;
      Some (Some t, mkHeap (hp_managers h) (delete p (hp_tables h)) (hp_tasks h) (hp_buffers h) (hp_next h)
                      (hp_runtime h) (hp_env h))
  end.
Definition take_tasks (p : Ptr) (h : Heap) : option (option Tasks * Heap) :=
  match p with
  | None => Some (None, h)
  | Some p =>
      t ← hp_tasks h !! p;
      Some (Some t, mkHeap (hp_managers h) (hp_tables h) (delete p (hp_tasks h)) (hp_buffers h) (hp_next h)
                      (hp_runtime h) (hp_env h))
  end.

(** [mgr.as_ref()]. *)
Definition as_ref (p : Ptr) (h : Heap) : option (option (positive * Mgr)) :=
  match p with
  | None => Some None
  | Some p => m ← hp_managers h !! p; Some (Some (p, m))
  end.

(** [room]: whether [alloc] gives memory. *)
Definition alloc_bytes (room : bool) (data : string) (h : Heap) : Ptr * Z * Heap :=
  let len := Z.of_nat (String.length data) in
  if (len =? 0)%Z || (c_int_max <? len)%Z || negb room then (None, 0%Z, h)
  else (Some (hp_next h), len,
        mkHeap (hp_managers h) (hp_tables h) (hp_tasks h) (<[hp_next h := data]> (hp_buffers h))
          (Pos.succ (hp_next h)) (hp_runtime h) (hp_env h)).

(** [dealloc] with a size that is not that of the block is undefined. *)
Definition cpex_free_bytes (ptr : Ptr) (len : Z) (h : Heap) : option Heap :=
  match ptr with
  | None => Some h
  | Some p =>
      if (len <=? 0)%Z then Some h
      else
        data ← hp_buffers h !! p;
        if (Z.of_nat (String.length data) =? len)%Z then
          Some (mkHeap (hp_managers h) (hp_tables h) (hp_tasks h) (delete p (hp_buffers h)) (hp_next h)
                  (hp_runtime h) (hp_env h))
        else None
  end.

(** *** The shared runtime *)

Definition worker_threads_from_env : option Z :=
  raw ← env_threads; n ← parse_u64 raw; if (0 <? n)%Z then Some n else None.

Definition set_hp_runtime (r : option (option Z)) (h : Heap) : Heap :=
  mkHeap (hp_managers h) (hp_tables h) (hp_tasks h) (hp_buffers h) (hp_next h) r (hp_env h).

(** [get_or_init]; a runtime that cannot be built aborts the process. *)
Definition shared_runtime (h : Heap) : Heap :=
  match hp_runtime h with
  | Some _ => h
  | None => set_hp_runtime (Some worker_threads_from_env) h
  end.

Definition cpex_configure_runtime (worker_threads : Z) (built : bool) (h : Heap) : Z * Heap :=
  if (worker_threads <=? 0)%Z then (RC_INVALID_INPUT, h)
  else if negb built then (RC_PIPELINE_ERROR, h)
  else
    match hp_runtime h with
    | None => (RC_OK, set_hp_runtime (Some (Some worker_threads)) h)
    | Some _ => (RC_INVALID_INPUT, h)
    end.

(** A supervised call on a manager. *)
Definition on_manager {T} (p : positive) (m : Mgr) (run : State → T * State) (ending : Ending State) (h : Heap) :
    SafeRun T * Heap :=
  let h := shared_runtime h in
  let '(r, (m', env')) := run_safely run ending (m, hp_env h) in
  (r, mkHeap (<[p := m']> (hp_managers h)) (hp_tables h) (hp_tasks h) (hp_buffers h) (hp_next h)
        (hp_runtime h) env').

(** *** Payloads *)

Definition deserialize_payload (payload_type : Z) (b : string) : Result Pay string :=
  if (payload_type =? PAYLOAD_GENERIC)%Z then
    map_err (λ e, "generic payload deserialize failed: " +:+ e)
      (result_map (λ v, erase (mkGenericPayload v)) (generic_read b))
  else if (payload_type =? PAYLOAD_CMF_MESSAGE)%Z then
    map_err (λ e, "CMF payload deserialize failed: " +:+ e) (result_map erase (message_read b))
  else if (payload_type =? PAYLOAD_IDENTITY)%Z then
    map_err (λ e, "identity payload deserialize failed: " +:+ e) (result_map erase (identity_read b))
  else Err ("unknown payload type: " +:+ show_Z payload_type).

Definition serialize_payload (payload : Pay) : Result (Z * string) string :=
  match downcast payload with
  | Some mp =>
      map_err (λ e, "CMF payload serialize failed: " +:+ e)
        (result_map (pair PAYLOAD_CMF_MESSAGE) (message_write mp))
  | None =>
      match downcast payload with
      | Some gp =>
          map_err (λ e, "generic payload serialize failed: " +:+ e)
            (result_map (pair PAYLOAD_GENERIC) (generic_write (gp_value gp)))
      | None =>
          match downcast payload with
          | Some idp =>
              map_err (λ e, "identity payload serialize failed: " +:+ e)
                (result_map (pair PAYLOAD_IDENTITY) (identity_write idp))
          | None => Err "unknown payload type, cannot serialize across FFI"
          end
      end
  end.

Definition read_extensions (ptr : option string) (len : Z) : Result Extensions Z :=
  if (0 <? len)%Z then
    match c_bytes_to_slice ptr len with
    | None => Err RC_INVALID_INPUT
    | Some b => map_err (λ _, RC_PARSE_ERROR) (extensions_read b)
    end
  else Ok extensions_default.

(** *** Results *)

(** What a call gives back: its code and its out parameters. *)
Record Reply := mkReply {
  rp_rc : Z;
  rp_manager : Ptr;
  rp_buffer : Ptr;
  rp_len : Z;
  rp_table : Ptr;
  rp_tasks : Ptr
}.
Definition only_code (rc : Z) : Reply := mkReply rc None None 0 None None.

Definition ffi_record (e : string) : PluginErrorRecord :=
  mkErrorRecord "<ffi>" ("modified payload could not be serialized across FFI: " +:+ e)
    (Some "ffi_serialize_error") ∅ None.

Definition ffi_result (result : PipelineResult Pay) (payload_type : Z) : FfiPipelineResult :=
  let '(t, b, errors) :=
    match pr_modified_payload result with
    | None => (payload_type, None, pr_errors result)
    | Some p =>
        match serialize_payload p with
        | Ok (t, b) => (t, Some b, pr_errors result)
        | Err e => (payload_type, None, pr_errors result ++ [ffi_record e])
        end
    end in
  mkFfiResult (pr_continue_processing result) (pr_violation result) errors (pr_metadata result) t b
    (pr_payload_modified result)
    (ext ← pr_modified_extensions result; match extensions_write ext with Ok b => Some b | Err _ => None end).

Definition finish_pipeline_result (room : bool) (result : PipelineResult Pay) (bg : option Tasks)
    (payload_type : Z) (h : Heap) : Reply * Heap :=
  match result_write (ffi_result result payload_type) with
  | Err _ => (only_code RC_SERIALIZE_ERROR, h)
  | Ok b =>
      let '(ptr, len, h) := alloc_bytes room b h in
      let '(table, h) := new_table (pr_context_table result) h in
      match bg with
      | Some tasks => let '(bgp, h) := new_tasks tasks h in (mkReply RC_OK None ptr len (Some table) (Some bgp), h)
      | None => (mkReply RC_OK None ptr len (Some table) None, h)
      end
  end.

(** A hook, with the tasks it leaves running. *)
Definition invoke_hook_tasks (name : string) (payload : Pay) (ext : Extensions)
    (table : option PluginContextTable) (st : State) : (PipelineResult Pay * Tasks) * State :=
  let '(r, st') := invoke_by_name name payload ext table st in
  ((r, drop (length (mg_tasks st.1)) (mg_tasks st'.1)), st').

(** *** Managers *)

Definition cpex_manager_new (yaml : option string) (len : Z) (h : Heap) : Reply * Heap :=
  match c_str_to_slice yaml len with
  | None => (only_code RC_OK, h)
  | Some yaml =>
      match parse_config yaml with
      | Err _ => (only_code RC_OK, h)
      | Ok config =>
          let h := shared_runtime h in
          let '(res, (m, env)) := load_config config (manager_new manager_config_default, hp_env h) in
          let h := mkHeap (hp_managers h) (hp_tables h) (hp_tasks h) (hp_buffers h) (hp_next h) (hp_runtime h) env in
          match res with
          | Err _ => (only_code RC_OK, h)
          | Ok _ => let '(p, h) := new_manager m h in (mkReply RC_OK (Some p) None 0 None None, h)
          end
      end
  end.
Definition cpex_manager_new_default (h : Heap) : Reply * Heap :=
  let '(p, h) := new_manager (manager_new manager_config_default) (shared_runtime h) in
  (mkReply RC_OK (Some p) None 0 None None, h).

(** [catch_unwind] has no clock: [panic] is the state a panic leaves. *)
Definition run_caught {T} (p : positive) (m : Mgr) (run : State → T * State) (panic : option State) (h : Heap) :
    option T * Heap :=
  let '(r, (m', env')) := match panic with
                          | Some after => (None, after)
                          | None => let '(v, st) := run (m, hp_env h) in (Some v, st)
                          end in
  (r, mkHeap (<[p := m']> (hp_managers h)) (hp_tables h) (hp_tasks h) (hp_buffers h) (hp_next h)
        (hp_runtime h) env').

Definition cpex_load_config (mgr : Ptr) (yaml : option string) (len : Z) (panic : option State) (h : Heap) :
    option (Reply * Heap) :=
  inner ← as_ref mgr h;
  Some match inner with
       | None => (only_code RC_INVALID_HANDLE, h)
       | Some (p, m) =>
           match c_str_to_slice yaml len with
           | None => (only_code RC_INVALID_INPUT, h)
           | Some yaml =>
               match parse_config yaml with
               | Err _ => (only_code RC_PARSE_ERROR, h)
               | Ok _ =>
                   let '(r, h) := run_caught p m (load_config_yaml yaml) panic h in
                   (only_code match r with
                              | Some (Ok _) => RC_OK
                              | Some (Err _) => RC_PIPELINE_ERROR
                              | None => RC_PANIC
                              end, h)
               end
           end
       end.

Definition cpex_initialize (mgr : Ptr) (ending : Ending State) (h : Heap) : option (Reply * Heap) :=
  inner ← as_ref mgr h;
  Some match inner with
       | None => (only_code RC_INVALID_HANDLE, h)
       | Some (p, m) =>
           let '(r, h) := on_manager p m initialize ending h in
           (only_code match r with
                      | SafeOk (Ok _) => RC_OK
                      | SafeOk (Err _) => RC_PIPELINE_ERROR
                      | other => safe_run_rc other
                      end, h)
       end.

(** The manager is freed whatever becomes of the shutdown. *)
Definition cpex_shutdown (mgr : Ptr) (ending : Ending State) (h : Heap) : option (Reply * Heap) :=
  inner ← as_ref mgr h;
  Some match inner with
       | None => (only_code RC_OK, h)
       | Some (p, m) =>
           let h := (on_manager p m (λ st, (tt, shutdown st)) ending h).2 in
           (only_code RC_OK,
            mkHeap (delete p (hp_managers h)) (hp_tables h) (hp_tasks h) (hp_buffers h) (hp_next h)
              (hp_runtime h) (hp_env h))
       end.

Definition bool_code (b : bool) : Z := if b then 1%Z else 0%Z.
Definition cpex_has_hooks_for (mgr : Ptr) (hook : option string) (len : Z) (h : Heap) : option (Reply * Heap) :=
  inner ← as_ref mgr h;
  Some (only_code match inner, c_str_to_slice hook len with
                  | Some (_, m), Some name => bool_code (manager_has_hooks_for m name)
                  | _, _ => 0%Z
                  end, h).
(** [as c_int] of the count. *)
Definition cpex_plugin_count (mgr : Ptr) (h : Heap) : option (Reply * Heap) :=
  inner ← as_ref mgr h;
  Some (only_code match inner with
                  | Some (_, m) =>
                      let n := u32_wrap (Z.of_nat (plugin_count (rs_registry (mg_runtime m)))) in
                      if (n <=? c_int_max)%Z then n else (n - 2 ^ 32)%Z
                  | None => 0%Z
                  end, h).
Definition cpex_is_initialized (mgr : Ptr) (h : Heap) : option (Reply * Heap) :=
  inner ← as_ref mgr h;
  Some (only_code match inner with Some (_, m) => bool_code (is_initialized m) | None => 0%Z end, h).
Definition cpex_plugin_names (mgr : Ptr) (room : bool) (h : Heap) : option (Reply * Heap) :=
  inner ← as_ref mgr h;
  Some match inner with
       | None => (only_code RC_INVALID_HANDLE, h)
       | Some (_, m) =>
           match names_write (plugin_names (rs_registry (mg_runtime m))) with
           | Err _ => (only_code RC_SERIALIZE_ERROR, h)
           | Ok b => let '(ptr, len, h) := alloc_bytes room b h in (mkReply RC_OK None ptr len None None, h)
           end
       end.

(** [cpex_apl_install]: the builtin factories, then the visitor. *)
Definition cpex_apl_install (builtins : list (string * F)) (visitor : V) (mgr : Ptr) (panic : option State)
    (h : Heap) : option (Reply * Heap) :=
  inner ← as_ref mgr h;
  Some match inner with
       | None => (only_code RC_INVALID_HANDLE, h)
       | Some (p, m) =>
           let install (st : State) :=
             (tt, (register_visitor (foldl (λ m '(kind, f), register_factory m kind f) st.1 builtins) visitor, st.2)) in
           let '(r, h) := run_caught p m install panic h in
           (only_code match r with Some _ => RC_OK | None => RC_PANIC end, h)
       end.

(** *** Invocation *)

Record InvokeArgs := mkInvokeArgs {
  ia_mgr : Ptr;
  ia_hook : option string;
  ia_hook_len : Z;
  ia_type : Z;
  ia_payload : option string;
  ia_payload_len : Z;
  ia_extensions : option string;
  ia_extensions_len : Z;
  ia_table : Ptr
}.

(** The checks and readings both entry points make, in their order. *)
Definition read_arguments (a : InvokeArgs) : Result (string * Pay * Extensions) Z :=
  match c_str_to_slice (ia_hook a) (ia_hook_len a) with
  | None => Err RC_INVALID_INPUT
  | Some name =>
      match c_bytes_to_slice (ia_payload a) (ia_payload_len a) with
      | None => Err RC_INVALID_INPUT
      | Some b =>
          let? payload := map_err (λ _, RC_PARSE_ERROR) (deserialize_payload (ia_type a) b) in
          let? ext := read_extensions (ia_extensions a) (ia_extensions_len a) in
          Ok (name, payload, ext)
      end
  end.

(** The hook itself and the reply. *)
Definition invoke_tail (p : positive) (m : Mgr) (name : string) (payload : Pay) (ext : Extensions)
    (table : option PluginContextTable) (payload_type : Z) (ending : Ending State) (room : bool) (h : Heap) :
    Reply * Heap :=
  let '(r, h) := on_manager p m (invoke_hook_tasks name payload ext table) ending h in
  match r with
  | SafeOk (result, bg) => finish_pipeline_result room result (Some bg) payload_type h
  | other => (only_code (safe_run_rc other), h)
  end.

Definition cpex_invoke (a : InvokeArgs) (ending : Ending State) (room : bool) (h : Heap) : option (Reply * Heap) :=
  '(table, h) ← take_table (ia_table a) h;
  inner ← as_ref (ia_mgr a) h;
  Some match inner with
       | None => (only_code RC_INVALID_HANDLE, h)
       | Some (p, m) =>
           match read_arguments a with
           | Err rc => (only_code rc, h)
           | Ok (name, payload, ext) => invoke_tail p m name payload ext table (ia_type a) ending room h
           end
       end.

(** The extensions the hook sees after identity resolution. *)
Definition resolved_extensions (idr : PipelineResult Pay) (base : Extensions) : Extensions :=
  match identity_from_result idr with
  | Some resolved => identity_apply_to_extensions resolved base
  | None => base
  end.

(** The identity step: the extensions for the hook, or the reply that ends the call. *)
Definition resolve_identity (p : positive) (m : Mgr) (identity : option string) (len payload_type : Z)
    (base : Extensions) (ending : Ending State) (room : bool) (h : Heap) : (Extensions + Reply) * Heap :=
  if (0 <? len)%Z && manager_has_hooks_for m HOOK_IDENTITY_RESOLVE then
    match c_bytes_to_slice identity len with
    | None => (inr (only_code RC_INVALID_INPUT), h)
    | Some b =>
        match identity_read b with
        | Err _ => (inr (only_code RC_PARSE_ERROR), h)
        | Ok id_payload =>
            let '(r, h) := on_manager p m
              (invoke_by_name HOOK_IDENTITY_RESOLVE (erase id_payload) extensions_default None) ending h in
            match r with
            | SafeOk result =>
                if negb (pr_continue_processing result) then
                  let '(reply, h) := finish_pipeline_result room result None payload_type h in (inr reply, h)
                else
                  (inl (resolved_extensions result base), h)
            | other => (inr (only_code (safe_run_rc other)), h)
            end
        end
    end
  else (inl base, h).

Definition cpex_invoke_resolved (identity : option string) (identity_len : Z) (a : InvokeArgs)
    (id_ending ending : Ending State) (room : bool) (h : Heap) : option (Reply * Heap) :=
  '(table, h) ← take_table (ia_table a) h;
  inner ← as_ref (ia_mgr a) h;
  match inner with
  | None => Some (only_code RC_INVALID_HANDLE, h)
  | Some (p, m) =>
      match read_arguments a with
      | Err rc => Some (only_code rc, h)
      | Ok (name, payload, base) =>
          let '(step, h) := resolve_identity p m identity identity_len (ia_type a) base id_ending room h in
          match step with
          | inr reply => Some (reply, h)
          | inl ext =>
              m ← hp_managers h !! p;
              Some (invoke_tail p m name payload ext table (ia_type a) ending room h)
          end
      end
  end.

(** *** Background tasks *)

(** [wait_for_background_tasks]: [join] says how a task ended, [Some e] for a panic. *)
Definition background_errors (join : BackgroundTask H Pay → option string) (tasks : Tasks) : list PluginError :=
  omap (λ t, (λ e, ErrExecution (bt_plugin_name _ _ t) ("background task panicked: " +:+ e) None ∅ None) <$> join t) tasks.

Definition write_errors (room : bool) (errors : list PluginError) (h : Heap) : Reply * Heap :=
  match errors_write (error_record <$> errors) with
  | Err _ => (only_code RC_SERIALIZE_ERROR, h)
  | Ok b => let '(ptr, len, h) := alloc_bytes room b h in (mkReply RC_OK None ptr len None None, h)
  end.

Definition cpex_wait_background (mgr bg : Ptr) (join : BackgroundTask H Pay → option string) (ending : Ending unit)
    (room : bool) (h : Heap) : option (Reply * Heap) :=
  inner ← as_ref mgr h;
  match inner with
  | None => '(_, h) ← take_tasks bg h; Some (only_code RC_INVALID_HANDLE, h)
  | Some _ =>
      '(tasks, h) ← take_tasks bg h;
      Some match tasks with
           | None => write_errors room [] h
           | Some tasks =>
               match (run_safely (pair (background_errors join tasks)) ending tt).1 with
               | SafeOk errors => write_errors room errors (shared_runtime h)
               | other => (only_code (safe_run_rc other), shared_runtime h)
               end
           end
  end.
Definition cpex_free_background (bg : Ptr) (h : Heap) : option Heap := '(_, h) ← take_tasks bg h; Some h.
Definition cpex_free_context_table (ct : Ptr) (h : Heap) : option Heap := '(_, h) ← take_table ct h; Some h.

(** ** Who owns what *)

Inductive Call :=
| CallNew (yaml : option string) (len : Z)
| CallNewDefault
| CallLoad (mgr : Ptr) (yaml : option string) (len : Z) (panic : option State)
| CallInit (mgr : Ptr) (ending : Ending State)
| CallShutdown (mgr : Ptr) (ending : Ending State)
| CallHasHooks (mgr : Ptr) (hook : option string) (len : Z)
| CallCount (mgr : Ptr)
| CallIsInit (mgr : Ptr)
| CallNames (mgr : Ptr) (room : bool)
| CallApl (builtins : list (string * F)) (visitor : V) (mgr : Ptr) (panic : option State)
| CallInvoke (a : InvokeArgs) (ending : Ending State) (room : bool)
| CallResolved (identity : option string) (len : Z) (a : InvokeArgs) (id_ending ending : Ending State) (room : bool)
| CallWait (mgr bg : Ptr) (join : BackgroundTask H Pay → option string) (ending : Ending unit) (room : bool)
| CallFreeTasks (bg : Ptr)
| CallFreeTable (ct : Ptr)
| CallFreeBytes (ptr : Ptr) (len : Z)
| CallConfigure (worker_threads : Z) (built : bool).

Definition no_reply (o : option Heap) : option (Reply * Heap) := h ← o; Some (only_code RC_OK, h).

Definition perform (c : Call) (h : Heap) : option (Reply * Heap) :=
  match c with
  | CallNew yaml len => Some (cpex_manager_new yaml len h)
  | CallNewDefault => Some (cpex_manager_new_default h)
  | CallLoad mgr yaml len panic => cpex_load_config mgr yaml len panic h
  | CallInit mgr ending => cpex_initialize mgr ending h
  | CallShutdown mgr ending => cpex_shutdown mgr ending h
  | CallHasHooks mgr hook len => cpex_has_hooks_for mgr hook len h
  | CallCount mgr => cpex_plugin_count mgr h
  | CallIsInit mgr => cpex_is_initialized mgr h
  | CallNames mgr room => cpex_plugin_names mgr room h
  | CallApl builtins visitor mgr panic => cpex_apl_install builtins visitor mgr panic h
  | CallInvoke a ending room => cpex_invoke a ending room h
  | CallResolved identity len a id_ending ending room => cpex_invoke_resolved identity len a id_ending ending room h
  | CallWait mgr bg join ending room => cpex_wait_background mgr bg join ending room h
  | CallFreeTasks bg => no_reply (cpex_free_background bg h)
  | CallFreeTable ct => no_reply (cpex_free_context_table ct h)
  | CallFreeBytes ptr len => no_reply (cpex_free_bytes ptr len h)
  | CallConfigure n built => let '(rc, h) := cpex_configure_runtime n built h in Some (only_code rc, h)
  end.

(** What the caller holds, by the contract of each function: a manager until it is
    shut down, a table until it is passed to an invocation or freed, tasks until
    they are waited for or freed, a buffer with its length until it is freed. *)
Record Held := mkHeld {
  hd_managers : gset positive;
  hd_tables : gset positive;
  hd_tasks : gset positive;
  hd_buffers : gmap positive Z
}.

Definition uses_manager (c : Call) : Ptr :=
  match c with
  | CallLoad mgr _ _ _ | CallInit mgr _ | CallShutdown mgr _ | CallHasHooks mgr _ _ | CallCount mgr | CallIsInit mgr
  | CallNames mgr _ | CallApl _ _ mgr _ | CallWait mgr _ _ _ _ => mgr
  | CallInvoke a _ _ | CallResolved _ _ a _ _ _ => ia_mgr a
  | _ => None
  end.
Definition gives_manager (c : Call) : Ptr := match c with CallShutdown mgr _ => mgr | _ => None end.
Definition gives_table (c : Call) : Ptr :=
  match c with CallInvoke a _ _ | CallResolved _ _ a _ _ _ => ia_table a | CallFreeTable ct => ct | _ => None end.
Definition gives_tasks (c : Call) : Ptr :=
  match c with CallWait _ bg _ _ _ | CallFreeTasks bg => bg | _ => None end.
Definition gives_buffer (c : Call) : Ptr := match c with CallFreeBytes p _ => p | _ => None end.

Definition holds (s : gset positive) (p : Ptr) : Prop := ∀ q, p = Some q → q ∈ s.
Definition may_call (hd : Held) (c : Call) : Prop :=
  holds (hd_managers hd) (uses_manager c) ∧ holds (hd_tables hd) (gives_table c) ∧ holds (hd_tasks hd) (gives_tasks c) ∧
  match c with CallFreeBytes (Some p) len => hd_buffers hd !! p = Some len | _ => True end.

Definition lose (p : Ptr) (s : gset positive) : gset positive := match p with Some q => s ∖ {[q]} | None => s end.
Definition gain (p : Ptr) (s : gset positive) : gset positive := match p with Some q => {[q]} ∪ s | None => s end.
Definition lost (c : Call) (hd : Held) : Held :=
  mkHeld (lose (gives_manager c) (hd_managers hd)) (lose (gives_table c) (hd_tables hd))
    (lose (gives_tasks c) (hd_tasks hd))
    (match gives_buffer c with Some q => delete q (hd_buffers hd) | None => hd_buffers hd end).
Definition gained (r : Reply) (hd : Held) : Held :=
  mkHeld (gain (rp_manager r) (hd_managers hd)) (gain (rp_table r) (hd_tables hd)) (gain (rp_tasks r) (hd_tasks hd))
    (match rp_buffer r with Some q => <[q := rp_len r]> (hd_buffers hd) | None => hd_buffers hd end).
Definition ledger (c : Call) (r : Reply) (hd : Held) : Held := gained r (lost c hd).

(** What the heap holds. *)
Definition live (h : Heap) : Held :=
  mkHeld (dom (hp_managers h)) (dom (hp_tables h)) (dom (hp_tasks h))
    ((λ d, Z.of_nat (String.length d)) <$> hp_buffers h).

Definition all_handles (hd : Held) : gset positive :=
  hd_managers hd ∪ hd_tables hd ∪ hd_tasks hd ∪ dom (hd_buffers hd).
Definition pointers (r : Reply) : gset positive :=
  gain (rp_manager r) (gain (rp_table r) (gain (rp_tasks r) (gain (rp_buffer r) ∅))).

Definition wf_heap (h : Heap) : Prop :=
  (∀ p, p ∈ all_handles (live h) → (p < hp_next h)%positive) ∧
  map_Forall (λ _ n, 0 < n ≤ c_int_max)%Z (hd_buffers (live h)).

(** A reply and the heap it comes with. *)
Record gains (r : Reply) (h h' : Heap) : Prop := {
  g_live : live h' = gained r (live h);
  g_next : (hp_next h ≤ hp_next h')%positive;
  g_new : ∀ p, p ∈ pointers r → (hp_next h ≤ p < hp_next h')%positive;
  g_len : ∀ p, rp_buffer r = Some p → (0 < rp_len r ≤ c_int_max)%Z
}.

Lemma only_code_pointers rc : pointers (only_code rc) = ∅.
Proof. done. Qed.
Lemma gained_only_code rc hd : gained (only_code rc) hd = hd.
Proof. by destruct hd. Qed.

Lemma gains_code rc h h' : live h' = live h → hp_next h' = hp_next h → gains (only_code rc) h h'.
Proof.
  intros Hl Hn. split; [by rewrite gained_only_code|by rewrite Hn| |done].
  intros p. rewrite only_code_pointers. set_solver.
Qed.

Lemma gains_wf r h h' : wf_heap h → gains r h h' → wf_heap h'.
Proof.
  intros [Hb Hs] [Hl Hn Hp Hlen]. split.
  - intros p Hin. destruct (decide (p ∈ pointers r)) as [Hr|Hr]; [by apply Hp|].
    assert (p ∈ all_handles (live h)) as Hin'.
    { rewrite Hl in Hin. revert Hin Hr. unfold all_handles, gained, pointers, gain. simpl.
      destruct (rp_manager r), (rp_table r), (rp_tasks r), (rp_buffer r); rewrite ?dom_insert_L; set_solver. }
    specialize (Hb p Hin'). lia.
  - rewrite Hl. unfold gained. cbn [hd_buffers]. destruct (rp_buffer r) as [q|] eqn:Eq; [|done].
    apply map_Forall_insert_2; [by eapply Hlen|done].
Qed.

Lemma shared_runtime_live h :
  live (shared_runtime h) = live h ∧ hp_next (shared_runtime h) = hp_next h ∧
  hp_managers (shared_runtime h) = hp_managers h ∧ hp_tables (shared_runtime h) = hp_tables h.
Proof. unfold shared_runtime. by destruct (hp_runtime h). Qed.

Lemma on_manager_live {T} p m (run : State → T * State) ending h r h' :
  hp_managers h !! p = Some m → on_manager p m run ending h = (r, h') →
  live h' = live h ∧ hp_next h' = hp_next h ∧ is_Some (hp_managers h' !! p).
Proof.
  intros Hp. unfold on_manager. destruct (run_safely run ending _) as [r' [m' env']]. intros [= _ <-]. simpl.
  destruct (shared_runtime_live h) as (Hl & Hn & Hm & _). rewrite Hm, Hn, lookup_insert_eq. split_and!; [|done|done].
  rewrite <- Hl. unfold live. simpl. rewrite Hm, dom_insert_lookup_L by done. done.
Qed.
Lemma run_caught_live {T} p m (run : State → T * State) panic h r h' :
  hp_managers h !! p = Some m → run_caught p m run panic h = (r, h') → live h' = live h ∧ hp_next h' = hp_next h.
Proof.
  intros Hp. unfold run_caught. destruct (match panic with Some _ => _ | None => _ end) as [r' [m' env']].
  intros [= _ <-]. simpl. unfold live. simpl. by rewrite dom_insert_lookup_L by done.
Qed.

Lemma alloc_gains room data h ptr len h' rc :
  alloc_bytes room data h = (ptr, len, h') → gains (mkReply rc None ptr len None None) h h'.
Proof.
  unfold alloc_bytes. destruct (_ || _ || _) eqn:E.
  - intros [= <- <- <-]. split; simpl; [by destruct (live h)|done|set_solver|done].
  - intros [= <- <- <-]. apply orb_false_iff in E as [[E1 E2]%orb_false_iff _].
    apply Z.eqb_neq in E1. apply Z.ltb_ge in E2. split; simpl.
    + unfold live, gained. simpl. by rewrite fmap_insert.
    + lia.
    + unfold pointers, gain. simpl. intros p Hin. assert (p = hp_next h) as -> by set_solver. lia.
    + intros _ _. lia.
Qed.

Lemma finish_gains room result bg ty h r h' : finish_pipeline_result room result bg ty h = (r, h') → gains r h h'.
Proof.
  unfold finish_pipeline_result. destruct (result_write _) as [b|]; [|intros [= <- <-]; by apply gains_code].
  destruct (alloc_bytes room b h) as [[ptr len] h1] eqn:Ea. apply (alloc_gains _ _ _ _ _ _ RC_OK) in Ea as [Hl Hn Hp Hlen].
  unfold new_table, new_tasks. destruct bg as [tasks|]; intros [= <- <-]; split; simpl.
  - revert Hl. unfold live, gained, gain. simpl. intros [= Hm Ht Hk Hb]. by rewrite Hm, !dom_insert_L, Ht, Hk, Hb.
  - simpl in *. lia.
  - intros p. specialize (Hp p). revert Hp. unfold pointers, gain. simpl. rewrite !elem_of_union, !elem_of_singleton.
    intros Hp [->|[->|Hin]]; [lia|lia|]. specialize (Hp Hin). lia.
  - intros p Hq. by apply (Hlen p).
  - revert Hl. unfold live, gained, gain. simpl. intros [= Hm Ht Hk Hb]. by rewrite Hm, !dom_insert_L, Ht, Hk, Hb.
  - simpl in *. lia.
  - intros p. specialize (Hp p). revert Hp. unfold pointers, gain. simpl. rewrite !elem_of_union, !elem_of_singleton.
    intros Hp [->|Hin]; [lia|]. specialize (Hp Hin). lia.
  - intros p Hq. by apply (Hlen p).
Qed.

(** A call: what it consumes is gone, and what it returns is new. *)
Definition owned_step (c : Call) (h : Heap) (r : Reply) (h' : Heap) : Prop :=
  ∃ h1, live h1 = lost c (live h) ∧ hp_next h1 = hp_next h ∧ gains r h1 h'.

Lemma as_ref_held p h :
  holds (hd_managers (live h)) p →
  ∃ o, as_ref p h = Some o ∧ ∀ q m, o = Some (q, m) → p = Some q ∧ hp_managers h !! q = Some m.
Proof.
  intros Hp. destruct p as [q|]; [|by exists None]. specialize (Hp q eq_refl). simpl in Hp.
  apply elem_of_dom in Hp as [m Hm]. exists (Some (q, m)). simpl. rewrite Hm. split; [done|]. naive_solver.
Qed.

Lemma take_table_held p h :
  holds (hd_tables (live h)) p →
  ∃ o h1, take_table p h = Some (o, h1) ∧ hp_next h1 = hp_next h ∧ hp_managers h1 = hp_managers h ∧
    live h1 = mkHeld (hd_managers (live h)) (lose p (hd_tables (live h))) (hd_tasks (live h)) (hd_buffers (live h)).
Proof.
  intros Hp. destruct p as [q|]; [|by exists None, h]. specialize (Hp q eq_refl). simpl in Hp.
  apply elem_of_dom in Hp as [t Ht]. simpl. rewrite Ht. simpl. eexists _, _. split_and!; [done|done|done|].
  unfold live. simpl. by rewrite dom_delete_L.
Qed.
Lemma take_tasks_held p h :
  holds (hd_tasks (live h)) p →
  ∃ o h1, take_tasks p h = Some (o, h1) ∧ hp_next h1 = hp_next h ∧
    live h1 = mkHeld (hd_managers (live h)) (hd_tables (live h)) (lose p (hd_tasks (live h))) (hd_buffers (live h)).
Proof.
  intros Hp. destruct p as [q|]; [|by exists None, h]. specialize (Hp q eq_refl). simpl in Hp.
  apply elem_of_dom in Hp as [t Ht]. simpl. rewrite Ht. simpl. eexists _, _. split_and!; [done|done|].
  unfold live. simpl. by rewrite dom_delete_L.
Qed.

(** The invocations from the point where the table is taken. *)
Lemma invoke_tail_gains p m name payload ext table ty ending room h r h' :
  hp_managers h !! p = Some m → invoke_tail p m name payload ext table ty ending room h = (r, h') → gains r h h'.
Proof.
  intros Hp. unfold invoke_tail.
  destruct (on_manager p m _ ending h) as [o h1] eqn:Eo. apply on_manager_live in Eo as (Hl & Hn & _); [|done].
  destruct o as [[result bg]| |].
  - intros [Gl Gn Gp Glen]%finish_gains. by split; rewrite <- ?Hl, <- ?Hn.
  - intros [= <- <-]. by apply gains_code.
  - intros [= <- <-]. by apply gains_code.
Qed.

Lemma resolve_identity_gains p m identity len ty base ending room h step h' :
  hp_managers h !! p = Some m → resolve_identity p m identity len ty base ending room h = (step, h') →
  match step with
  | inl _ => live h' = live h ∧ hp_next h' = hp_next h ∧ is_Some (hp_managers h' !! p)
  | inr r => gains r h h'
  end.
Proof.
  intros Hp. unfold resolve_identity. destruct (_ && _); [|by intros [= <- <-]].
  destruct (c_bytes_to_slice identity len); [|intros [= <- <-]; by apply gains_code].
  destruct (identity_read _); [|intros [= <- <-]; by apply gains_code].
  destruct (on_manager p m _ ending h) as [o h1] eqn:Eo. apply on_manager_live in Eo as (Hl & Hn & Hs); [|done].
  destruct o as [result| |]; [|intros [= <- <-]; by apply gains_code..].
  destruct (pr_continue_processing result); simpl; [by intros [= <- <-]|].
  destruct (finish_pipeline_result _ _ _ _ h1) as [reply h2] eqn:Ef. intros [= <- <-].
  apply finish_gains in Ef as [Gl Gn Gp Glen]. by split; rewrite <- ?Hl, <- ?Hn.
Qed.

Lemma invoke_owned a ending room h :
  may_call (live h) (CallInvoke a ending room) →
  ∃ r h', cpex_invoke a ending room h = Some (r, h') ∧ owned_step (CallInvoke a ending room) h r h'.
Proof.
  intros (Hm & Ht & _ & _). destruct (take_table_held _ _ Ht) as (table & h1 & E1 & Hn & Hmg & Hl).
  unfold cpex_invoke. cbn [gives_table] in E1. rewrite E1. simpl. destruct (as_ref_held (ia_mgr a) h1) as (o & Eo & Ho);
    [by unfold live; rewrite Hmg|]. simpl in Eo. rewrite Eo. simpl.
  destruct o as [[p m]|]; [destruct (Ho p m eq_refl) as [_ Hp]; destruct (read_arguments a) as [[[name payload] ext]|rc]|].
  - destruct (invoke_tail _ _ _ _ _ _ _ _ _ h1) as [r h'] eqn:Ei. exists r, h'. split; [done|].
    apply invoke_tail_gains in Ei; [|done]. exists h1. by rewrite Hl.
  - eexists _, _. split; [done|]. exists h1. rewrite Hl. split_and!; [done..|by apply gains_code].
  - eexists _, _. split; [done|]. exists h1. rewrite Hl. split_and!; [done..|by apply gains_code].
Qed.

Lemma resolved_owned identity len a id_ending ending room h :
  may_call (live h) (CallResolved identity len a id_ending ending room) →
  ∃ r h', cpex_invoke_resolved identity len a id_ending ending room h = Some (r, h') ∧
    owned_step (CallResolved identity len a id_ending ending room) h r h'.
Proof.
  intros (Hm & Ht & _ & _). destruct (take_table_held _ _ Ht) as (table & h1 & E1 & Hn & Hmg & Hl).
  unfold cpex_invoke_resolved. cbn [gives_table] in E1. rewrite E1. simpl. destruct (as_ref_held (ia_mgr a) h1) as (o & Eo & Ho);
    [by unfold live; rewrite Hmg|]. simpl in Eo. rewrite Eo. simpl.
  assert (∀ rc, owned_step (CallResolved identity len a id_ending ending room) h (only_code rc) h1) as Hcode.
  { intros rc. exists h1. rewrite Hl. split_and!; [done..|by apply gains_code]. }
  destruct o as [[p m]|]; [|eauto]. destruct (Ho p m eq_refl) as [_ Hp].
  destruct (read_arguments a) as [[[name payload] base]|rc]; [|eauto].
  destruct (resolve_identity p m identity len _ base id_ending room h1) as [step h2] eqn:Es.
  apply resolve_identity_gains in Es; [|done]. destruct step as [ext|reply].
  - destruct Es as (Hl2 & Hn2 & [m' Hm']). rewrite Hm'. simpl.
    destruct (invoke_tail _ _ _ _ _ _ _ _ _ h2) as [r h'] eqn:Ei. exists r, h'. split; [done|].
    apply invoke_tail_gains in Ei; [|done]. exists h2. rewrite Hl2, Hl. by rewrite Hn2.
  - eexists _, _. split; [done|]. exists h1. by rewrite Hl.
Qed.

Lemma wait_owned mgr bg join ending room h :
  may_call (live h) (CallWait mgr bg join ending room) →
  ∃ r h', cpex_wait_background mgr bg join ending room h = Some (r, h') ∧
    owned_step (CallWait mgr bg join ending room) h r h'.
Proof.
  intros (Hm & _ & Hk & _). destruct (as_ref_held _ _ Hm) as (o & Eo & _).
  destruct (take_tasks_held _ _ Hk) as (tasks & h1 & E1 & Hn & Hl).
  unfold cpex_wait_background. cbn [uses_manager gives_tasks] in Eo, E1. rewrite Eo. simpl. rewrite E1. simpl.
  assert (∀ h2, live h2 = live h1 → hp_next h2 = hp_next h1 → ∀ errors, ∃ r h',
    write_errors room errors h2 = (r, h') ∧ owned_step (CallWait mgr bg join ending room) h r h') as Hw.
  { intros h2 Hl2 Hn2 errors. unfold write_errors. destruct (errors_write _) as [b|].
    - destruct (alloc_bytes room b h2) as [[ptr len] h3] eqn:Ea. eexists _, _. split; [done|].
      exists h2. rewrite Hl2, Hl, Hn2. split_and!; [done|done|by eapply alloc_gains].
    - eexists _, _. split; [done|]. exists h2. rewrite Hl2, Hl, Hn2. split_and!; [done|done|by apply gains_code]. }
  destruct (shared_runtime_live h1) as (Hlr & Hnr & _ & _).
  destruct o as [[p m]|].
  - destruct tasks as [tasks|].
    + destruct (run_safely _ ending tt).1 as [errors| |].
      * destruct (Hw (shared_runtime h1) Hlr Hnr errors) as (r & h' & -> & Hs). eauto.
      * eexists _, _. split; [done|]. exists h1. rewrite Hl. split_and!; [done|done|by apply gains_code].
      * eexists _, _. split; [done|]. exists h1. rewrite Hl. split_and!; [done|done|by apply gains_code].
    + destruct (Hw h1 eq_refl eq_refl []) as (r & h' & -> & Hs). eauto.
  - eexists _, _. split; [done|]. exists h1. rewrite Hl. split_and!; [done|done|by apply gains_code].
Qed.

(** A call that keeps what there is and returns a code. *)
Lemma code_owned c h rc h' :
  lost c (live h) = live h → live h' = live h → hp_next h' = hp_next h → owned_step c h (only_code rc) h'.
Proof. intros Hc Hl Hn. exists h. rewrite Hc. split_and!; [done|done|by apply gains_code]. Qed.

Lemma manager_owned c h m (Hc : lost c (live h) = live h) :
  let '(p, h') := new_manager m h in owned_step c h (mkReply RC_OK (Some p) None 0 None None) h'.
Proof.
  simpl. exists h. rewrite Hc. split_and!; [done|done|]. split; simpl.
  - unfold live, gained. simpl. by rewrite dom_insert_L.
  - lia.
  - unfold pointers, gain. simpl. intros p Hin. assert (p = hp_next h) as -> by set_solver. lia.
  - done.
Qed.

Lemma live_lost_nothing c h :
  gives_manager c = None → gives_table c = None → gives_tasks c = None → gives_buffer c = None →
  lost c (live h) = live h.
Proof. unfold lost. intros -> -> -> ->. done. Qed.

Lemma free_bytes_owned p len h :
  wf_heap h → may_call (live h) (CallFreeBytes p len) →
  ∃ h', cpex_free_bytes p len h = Some h' ∧ live h' = lost (CallFreeBytes p len) (live h) ∧ hp_next h' = hp_next h.
Proof.
  intros [_ Hs] (_ & _ & _ & Hb). destruct p as [q|]; [|by exists h]. specialize (Hs q len Hb). simpl in Hs.
  simpl in Hb |- *. rewrite lookup_fmap in Hb. apply fmap_Some in Hb as (d & Hd & ->). rewrite Hd. simpl.
  destruct (Z.leb_spec (Z.of_nat (String.length d)) 0); [lia|]. rewrite Z.eqb_refl. eexists. split_and!; [done| |done].
  unfold live, lost. simpl. by rewrite fmap_delete.
Qed.

Lemma shutdown_owned mgr ending h :
  may_call (live h) (CallShutdown mgr ending) →
  ∃ r h', cpex_shutdown mgr ending h = Some (r, h') ∧ owned_step (CallShutdown mgr ending) h r h'.
Proof.
  intros (Hm & _). destruct (as_ref_held _ _ Hm) as (o & Eo & Ho). cbn [uses_manager] in Eo, Ho.
  unfold cpex_shutdown. rewrite Eo. simpl. destruct o as [[p m]|].
  - destruct (Ho p m eq_refl) as [-> Hp].
    destruct (on_manager p m _ ending h) as [r h1] eqn:E. apply on_manager_live in E as (Hl & Hn & _); [|done]. simpl.
    eexists _, _. split; [done|]. eexists. split; [|split; [|by apply gains_code]]; [|done].
    revert Hl. unfold live, lost. simpl. intros [= Hg Ht Hk Hb]. by rewrite dom_delete_L, Hg, Ht, Hk, Hb.
  - destruct mgr as [q|]; [simpl in Eo; destruct (hp_managers h !! q); discriminate Eo|]. eexists _, _. split; [done|].
    by apply code_owned.
Qed.

(** The calls that look a manager up and keep every handle. *)
Lemma ref_owned c h mgr (k : option (positive * Mgr) → Reply * Heap) :
  may_call (live h) c → uses_manager c = mgr →
  (∀ o, (∀ q m, o = Some (q, m) → hp_managers h !! q = Some m) → owned_step c h (k o).1 (k o).2) →
  ∃ r h', (inner ← as_ref mgr h; Some (k inner)) = Some (r, h') ∧ owned_step c h r h'.
Proof.
  intros [Hm _] <- Hk. destruct (as_ref_held _ _ Hm) as (o & -> & Ho). simpl. exists (k o).1, (k o).2.
  split; [apply f_equal, surjective_pairing|]. apply Hk. intros q m Hq. by apply Ho.
Qed.

Lemma new_owned yaml len h : ∃ r h', perform (CallNew yaml len) h = Some (r, h') ∧ owned_step (CallNew yaml len) h r h'.
Proof.
  simpl. unfold cpex_manager_new. destruct (c_str_to_slice _ _); [|eexists _, _; split; [done|by apply code_owned]].
  destruct (parse_config _) as [config|]; [|eexists _, _; split; [done|by apply code_owned]].
  destruct (shared_runtime_live h) as (Hl & Hn & _ & _). destruct (load_config _ _) as [res [m env]].
  set (h1 := mkHeap _ _ _ _ _ _ env).
  assert (live h1 = live h ∧ hp_next h1 = hp_next h) as [Hl1 Hn1] by (split; [exact Hl|exact Hn]).
  destruct res; [|eexists _, _; split; [done|by apply code_owned]]. simpl. eexists _, _. split; [done|].
  destruct (manager_owned (CallNew yaml len) h1 m) as (h2 & Hl2 & Hn2 & Hg); [by apply live_lost_nothing|].
  exists h2. rewrite Hl2, Hl1, Hn2. done.
Qed.
Lemma new_default_owned h : ∃ r h', perform CallNewDefault h = Some (r, h') ∧ owned_step CallNewDefault h r h'.
Proof.
  simpl. destruct (shared_runtime_live h) as (Hl & Hn & _ & _). eexists _, _. split; [done|].
  destruct (manager_owned CallNewDefault (shared_runtime h) (manager_new manager_config_default)) as (h2 & Hl2 & Hn2 & Hg);
    [by apply live_lost_nothing|]. exists h2. split_and!; [by rewrite Hl2, Hl|by rewrite Hn2, Hn|done].
Qed.

(** What is left of a supervised call once its code is known. *)
Ltac manager_call E Hl Hn :=
  let r := fresh "r" in let h' := fresh "h'" in
  match goal with
  | Hp : hp_managers ?h !! ?p = Some ?m |- context [on_manager ?p ?m ?run ?e ?h] =>
      destruct (on_manager p m run e h) as [r h'] eqn:E; apply on_manager_live in E as (Hl & Hn & _); [|done]
  | Hp : hp_managers ?h !! ?p = Some ?m |- context [run_caught ?p ?m ?run ?e ?h] =>
      destruct (run_caught p m run e h) as [r h'] eqn:E; apply run_caught_live in E as [Hl Hn]; [|done]
  end; by apply code_owned.

Lemma manager_calls_owned c h :
  may_call (live h) c →
  match c with
  | CallLoad _ _ _ _ | CallInit _ _ | CallHasHooks _ _ _ | CallCount _ | CallIsInit _ | CallNames _ _
  | CallApl _ _ _ _ => ∃ r h', perform c h = Some (r, h') ∧ owned_step c h r h'
  | _ => True
  end.
Proof.
  intros Hmay. destruct c; try done; cbn [perform]; apply ref_owned; [done|done|intros o Ho|done|done|intros o Ho|
    done|done|intros o Ho|done|done|intros o Ho|done|done|intros o Ho|done|done|intros o Ho|done|done|intros o Ho].
  - destruct o as [[p m]|]; [|by apply code_owned]. specialize (Ho p m eq_refl).
    destruct (c_str_to_slice _ _); [|by apply code_owned]. destruct (parse_config _); [|by apply code_owned].
    manager_call E Hl Hn.
  - destruct o as [[p m]|]; [|by apply code_owned]. specialize (Ho p m eq_refl). cbv beta iota.
    manager_call E Hl Hn.
  - by apply code_owned.
  - by apply code_owned.
  - by apply code_owned.
  - destruct o as [[p m]|]; [|by apply code_owned]. destruct (names_write _) as [b|]; [|by apply code_owned].
    destruct (alloc_bytes room b h) as [[ptr len] h'] eqn:Ea. exists h. split_and!; [done|done|by eapply alloc_gains].
  - destruct o as [[p m]|]; [|by apply code_owned]. specialize (Ho p m eq_refl). cbv beta iota zeta.
    manager_call E Hl Hn.
Qed.

Lemma free_owned c h :
  may_call (live h) c → wf_heap h →
  match c with
  | CallFreeTasks _ | CallFreeTable _ | CallFreeBytes _ _ | CallConfigure _ _ =>
      ∃ r h', perform c h = Some (r, h') ∧ owned_step c h r h'
  | _ => True
  end.
Proof.
  intros Hmay Hwf. destruct c; try done; cbn [perform].
  - destruct Hmay as (_ & _ & Hk & _). destruct (take_tasks_held _ _ Hk) as (o & h1 & E & Hn & Hl).
    cbn [gives_tasks] in E. unfold cpex_free_background. rewrite E. simpl. eexists _, _. split; [done|].
    exists h1. rewrite Hl. split_and!; [done|done|by apply gains_code].
  - destruct Hmay as (_ & Hk & _). destruct (take_table_held _ _ Hk) as (o & h1 & E & Hn & _ & Hl).
    cbn [gives_table] in E. unfold cpex_free_context_table. rewrite E. simpl. eexists _, _. split; [done|].
    exists h1. rewrite Hl. split_and!; [done|done|by apply gains_code].
  - destruct (free_bytes_owned ptr len h Hwf Hmay) as (h' & -> & Hl & Hn). simpl. eexists _, _. split; [done|].
    exists h'. split_and!; [done|done|by apply gains_code].
  - unfold cpex_configure_runtime. destruct (_ <=? _)%Z; [eexists _, _; split; [done|by apply code_owned]|].
    destruct built; [|eexists _, _; split; [done|by apply code_owned]].
    destruct (hp_runtime h); eexists _, _; (split; [done|by apply code_owned]).
Qed.

Lemma perform_owned c h :
  wf_heap h → may_call (live h) c → ∃ r h', perform c h = Some (r, h') ∧ owned_step c h r h'.
Proof.
  intros Hwf Hmay. pose proof (manager_calls_owned c h Hmay) as Hcalls.
  pose proof (free_owned c h Hmay Hwf) as Hfrees. destruct c; try done.
  - apply new_owned.
  - apply new_default_owned.
  - by apply shutdown_owned.
  - by apply invoke_owned.
  - by apply resolved_owned.
  - by apply wait_owned.
Qed.

(** Runs of the interface by a caller that keeps to the contract. *)
Inductive ffi_step : Heap * Held → Heap * Held → Prop :=
| do_call c h hd r h' : may_call hd c → perform c h = Some (r, h') → ffi_step (h, hd) (h', ledger c r hd).
Definition heap_start (env : Env W) : Heap := mkHeap ∅ ∅ ∅ ∅ 1 None env.
Definition ffi_reachable (env : Env W) (st : Heap * Held) : Prop :=
  rtc ffi_step (heap_start env, mkHeld ∅ ∅ ∅ ∅) st.

Lemma lost_wf c h h1 : wf_heap h → live h1 = lost c (live h) → hp_next h1 = hp_next h → wf_heap h1.
Proof.
  intros [Hb Hs] Hl Hn. split.
  - rewrite Hn, Hl. intros p Hp. apply Hb. revert Hp. unfold all_handles, lost, lose. simpl.
    destruct (gives_manager c), (gives_table c), (gives_tasks c), (gives_buffer c); rewrite ?dom_delete_L; set_solver.
  - rewrite Hl. unfold lost. cbn [hd_buffers]. destruct (gives_buffer c) as [q|]; [|done]. by apply map_Forall_delete.
Qed.

Definition ledger_right (st : Heap * Held) : Prop := live st.1 = st.2 ∧ wf_heap st.1.

Lemma ffi_step_owned st st' : ffi_step st st' → ledger_right st → ledger_right st'.
Proof.
  intros Hs [Hl Hwf]. inversion Hs as [c h hd r h' Hmay Hp]; subst. simpl in *. subst hd.
  destruct (perform_owned c h Hwf Hmay) as (r2 & h2 & Hp2 & h1 & Hl1 & Hn1 & Hg). rewrite Hp in Hp2. injection Hp2 as <- <-.
  split; [by simpl; rewrite (g_live _ _ _ Hg), Hl1|]. eapply gains_wf; [|done]. by eapply lost_wf.
Qed.
Lemma heap_start_owned env : ledger_right (heap_start env, mkHeld ∅ ∅ ∅ ∅).
Proof.
  assert (live (heap_start env) = mkHeld ∅ ∅ ∅ ∅) as Hl
    by (unfold live, heap_start; simpl; by rewrite !dom_empty_L, fmap_empty).
  split; [done|]. split; cbn [fst]; rewrite Hl;
    [unfold all_handles; simpl; rewrite dom_empty_L; set_solver|apply map_Forall_empty].
Qed.
Lemma reachable_owned env st : ffi_reachable env st → ledger_right st.
Proof.
  unfold ffi_reachable. pose proof (heap_start_owned env) as Hstart. intros Hr. revert Hstart.
  induction Hr as [|st1 st2 st3 Hs _ IH]; [done|]. intros Hst. by apply IH, (ffi_step_owned st1).
Qed.

(** C15: a host that uses each handle only while the contract says it holds it never
    causes undefined behaviour, through any sequence of calls, errors, timeouts and
    panics; the blocks that are live are exactly those it holds, so nothing leaks
    and nothing dangles; and every pointer it is given is new. *)
Theorem ffi_ownership env st c :
  ffi_reachable env st → may_call st.2 c →
  live st.1 = st.2 ∧
  ∃ r h', perform c st.1 = Some (r, h') ∧ live h' = ledger c r st.2 ∧
    ∀ p, p ∈ pointers r → p ∉ all_handles st.2.
Proof.
  intros [Hl Hwf]%reachable_owned Hmay. split; [done|]. rewrite <- Hl in *.
  destruct (perform_owned c st.1 Hwf Hmay) as (r & h' & Hp & h1 & Hl1 & Hn1 & Hg). exists r, h'. split; [done|].
  split; [by rewrite (g_live _ _ _ Hg), Hl1|]. intros p Hin Hold. pose proof (g_new _ _ _ Hg p Hin) as Hnew.
  destruct Hwf as [Hb _]. specialize (Hb p Hold). rewrite Hn1 in Hnew. lia.
Qed.

(** ** What a reply says *)

(** A text can be handed over: there is memory for it, and its length is a positive
    C [int]. *)
Definition fits (room : bool) (text : string) : bool :=
  room && (0 <? Z.of_nat (String.length text))%Z && (Z.of_nat (String.length text) <=? c_int_max)%Z.

(** The buffer of a reply holds this result exactly if it can be handed over; else
    the reply has no buffer. *)
Definition carries (room : bool) (r : Reply) (h : Heap) (fr : FfiPipelineResult) : Prop :=
  ∃ text, result_write fr = Ok text ∧
    if fits room text then
      ∃ b, rp_buffer r = Some b ∧ hp_buffers h !! b = Some text ∧ rp_len r = Z.of_nat (String.length text)
    else rp_buffer r = None ∧ rp_len r = 0%Z.

(** The context table a reply hands over. *)
Definition returns_table (r : Reply) (h : Heap) (t : PluginContextTable) : Prop :=
  ∃ p, rp_table r = Some p ∧ hp_tables h !! p = Some t.

Lemma alloc_carries room data h ptr len h' :
  alloc_bytes room data h = (ptr, len, h') →
  hp_managers h' = hp_managers h ∧ hp_env h' = hp_env h ∧
  if fits room data then
    ∃ b, ptr = Some b ∧ hp_buffers h' !! b = Some data ∧ len = Z.of_nat (String.length data)
  else ptr = None ∧ len = 0%Z.
Proof.
  unfold alloc_bytes, fits.
  destruct (Z.eqb_spec (Z.of_nat (String.length data)) 0) as [E1|E1]; simpl.
  { intros [= <- <- <-]. rewrite E1, andb_false_r. done. }
  rewrite (proj2 (Z.ltb_lt 0 _)) by lia. rewrite andb_true_r.
  destruct (Z.ltb_spec c_int_max (Z.of_nat (String.length data))) as [E2|E2]; simpl.
  { intros [= <- <- <-]. rewrite (proj2 (Z.leb_gt _ _)) by lia. by rewrite andb_false_r. }
  rewrite (proj2 (Z.leb_le _ _)) by lia. rewrite andb_true_r.
  destruct room; simpl; intros [= <- <- <-]; [|done]. split_and!; [done|done|].
  eexists. split_and!; [done| |done]. simpl. by rewrite lookup_insert_eq.
Qed.

Lemma finish_exact room result bg ty h r h' :
  finish_pipeline_result room result bg ty h = (r, h') →
  hp_managers h' = hp_managers h ∧ hp_env h' = hp_env h ∧
  (r = only_code RC_SERIALIZE_ERROR ∨
   rp_rc r = RC_OK ∧ carries room r h' (ffi_result result ty) ∧ returns_table r h' (pr_context_table result)).
Proof.
  unfold finish_pipeline_result, carries, returns_table. destruct (result_write _) as [b|]; [|intros [= <- <-]; auto].
  destruct (alloc_bytes room b h) as [[ptr len] h1] eqn:Ea. apply alloc_carries in Ea as (Hm & He & Hb).
  destruct bg as [tasks|]; intros [= <- <-]; simpl; (split_and!; [done|done|right]).
  - split_and!; [done|exists b; split; [done|]; by destruct (fits room b)|]. eexists. split; [done|]. by rewrite lookup_insert_eq.
  - split_and!; [done|exists b; split; [done|]; by destruct (fits room b)|]. eexists. split; [done|]. by rewrite lookup_insert_eq.
Qed.

Lemma on_manager_exact {T} p m (run : State → T * State) ending h r h' :
  on_manager p m run ending h = (r, h') →
  match r with
  | SafeOk v => ∃ st', run (m, hp_env h) = (v, st') ∧ hp_managers h' !! p = Some st'.1 ∧ hp_env h' = st'.2
  | _ => True
  end.
Proof.
  unfold on_manager. assert (hp_env (shared_runtime h) = hp_env h) as -> by (unfold shared_runtime; by destruct (hp_runtime h)).
  destruct ending as [|after|after]; simpl.
  - destruct (run _) as [v [m' env']]. intros [= <- <-]. simpl. exists (m', env'). by rewrite lookup_insert_eq.
  - destruct after. by intros [= <- <-].
  - destruct after. by intros [= <- <-].
Qed.

Lemma invoke_tail_exact p m name payload ext table ty ending room h r h' :
  invoke_tail p m name payload ext table ty ending room h = (r, h') →
  (rp_rc r ≠ RC_OK → r = only_code (rp_rc r)) ∧
  (rp_rc r = RC_OK → ∃ result st', invoke_by_name name payload ext table (m, hp_env h) = (result, st') ∧
     hp_managers h' !! p = Some st'.1 ∧ hp_env h' = st'.2 ∧
     carries room r h' (ffi_result result ty) ∧ returns_table r h' (pr_context_table result)).
Proof.
  unfold invoke_tail. destruct (on_manager p m _ ending h) as [o h1] eqn:Eo. apply on_manager_exact in Eo.
  destruct o as [[result bg]| |]; [|by intros [= <- <-]..].
  destruct Eo as (st' & Hrun & Hm1 & He1). unfold invoke_hook_tasks in Hrun.
  destruct (invoke_by_name name payload ext table (m, hp_env h)) as [result' st''] eqn:Ei. injection Hrun as -> _ ->.
  intros (Hm & He & [->|(Hrc & Hc & Ht)])%finish_exact; [done|]. split; [by rewrite Hrc|]. intros _.
  exists result, st'. by rewrite Hm, He.
Qed.

Lemma read_arguments_err a rc : read_arguments a = Err rc → rc = RC_INVALID_INPUT ∨ rc = RC_PARSE_ERROR.
Proof.
  unfold read_arguments, read_extensions. destruct (c_str_to_slice _ _); [|naive_solver].
  destruct (c_bytes_to_slice (ia_payload a) _); [|naive_solver].
  destruct (deserialize_payload _ _); simpl; [|naive_solver]. destruct (0 <? _)%Z; simpl; [|done].
  destruct (c_bytes_to_slice (ia_extensions a) _); simpl; [|naive_solver]. destruct (extensions_read _); simpl; naive_solver.
Qed.

Lemma take_table_frame p h table h1 :
  take_table p h = Some (table, h1) → hp_managers h1 = hp_managers h ∧ hp_env h1 = hp_env h.
Proof.
  destruct p as [q|]; simpl; [|by intros [= _ <-]]. destruct (hp_tables h !! q); simpl; [|done]. by intros [= _ <-].
Qed.

(** C32: an invocation either fails with a code and leaves every out parameter null, or
    succeeds, and then its arguments were well formed, the hook ran once to its end
    on the caller's table, and the reply carries the context table of that run, and
    its result if and only if the text of it can be handed over: there is memory
    for it, and it is not empty and at most [c_int::MAX] bytes long.  Otherwise the
    code is still that of success and the result pointer is null
    ([FfiDemo.lost_result_reported_ok]). *)
Theorem invoke_reply_exact a ending room h r h' :
  cpex_invoke a ending room h = Some (r, h') →
  (rp_rc r ≠ RC_OK → r = only_code (rp_rc r)) ∧
  (rp_rc r = RC_OK → ∃ p m table h1 name payload ext result st',
     take_table (ia_table a) h = Some (table, h1) ∧ ia_mgr a = Some p ∧ hp_managers h !! p = Some m ∧
     read_arguments a = Ok (name, payload, ext) ∧
     invoke_by_name name payload ext table (m, hp_env h) = (result, st') ∧
     hp_managers h' !! p = Some st'.1 ∧ hp_env h' = st'.2 ∧
     carries room r h' (ffi_result result (ia_type a)) ∧ returns_table r h' (pr_context_table result)).
Proof.
  unfold cpex_invoke. destruct (take_table (ia_table a) h) as [[table h1]|] eqn:Et; [|done]. simpl.
  apply take_table_frame in Et as Hf. destruct Hf as [Hm He].
  destruct (ia_mgr a) as [p|] eqn:Ep; simpl; [|by intros [= <- <-]].
  destruct (hp_managers h1 !! p) as [m|] eqn:Em; simpl; [|done].
  destruct (read_arguments a) as [[[name payload] ext]|rc] eqn:Er.
  - intros [= Ei]. apply invoke_tail_exact in Ei as [Hbad Hok]. split; [done|]. intros Hrc.
    destruct (Hok Hrc) as (result & st' & Hi & Hrest). rewrite He in Hi. rewrite Hm in Em.
    exists p, m, table, h1, name, payload, ext, result, st'.
    destruct Hrest as (? & ? & ? & ?). by split_and!.
  - intros [= <- <-]. split; [done|]. apply read_arguments_err in Er as [-> | ->]; done.
Qed.

(** C31: where identities are resolved and the caller sends one, a successful fused
    call has run identity resolution on it first; if that stopped, its result is
    the reply and the hook has not run; otherwise the hook ran on the state
    resolution left, with the caller's extensions overlaid by what it resolved. *)
Theorem resolved_identity_gates identity len a id_ending ending room h r h' p m name payload base :
  cpex_invoke_resolved identity len a id_ending ending room h = Some (r, h') → rp_rc r = RC_OK →
  ia_mgr a = Some p → hp_managers h !! p = Some m → read_arguments a = Ok (name, payload, base) →
  (0 < len)%Z → manager_has_hooks_for m HOOK_IDENTITY_RESOLVE = true →
  ∃ b idp idr st1, c_bytes_to_slice identity len = Some b ∧ identity_read b = Ok idp ∧
    invoke_by_name HOOK_IDENTITY_RESOLVE (erase idp) extensions_default None (m, hp_env h) = (idr, st1) ∧
    (pr_continue_processing idr = false ∧ hp_managers h' !! p = Some st1.1 ∧ hp_env h' = st1.2 ∧
       carries room r h' (ffi_result idr (ia_type a)) ∨
     pr_continue_processing idr = true ∧ ∃ table h1 result st2, take_table (ia_table a) h = Some (table, h1) ∧
       invoke_by_name name payload (resolved_extensions idr base) table st1 = (result, st2) ∧
       hp_managers h' !! p = Some st2.1 ∧ carries room r h' (ffi_result result (ia_type a))).
Proof.
  unfold cpex_invoke_resolved. destruct (take_table (ia_table a) h) as [[table h1]|] eqn:Et; [|done]. simpl.
  apply take_table_frame in Et as Hf. destruct Hf as [Hm He].
  intros Hres Hrc Hmg Hlook Hargs Hlen Hhook. rewrite Hmg in Hres. simpl in Hres. rewrite Hm, Hlook in Hres. simpl in Hres.
  rewrite Hargs in Hres. unfold resolve_identity in Hres. apply Z.ltb_lt in Hlen. rewrite Hlen, Hhook in Hres. simpl in Hres.
  destruct (c_bytes_to_slice identity len) as [b|]; [|by injection Hres as <- <-].
  destruct (identity_read b) as [idp|] eqn:Eid; [|by injection Hres as <- <-].
  destruct (on_manager p m _ id_ending h1) as [o h2] eqn:Eo. apply on_manager_exact in Eo.
  destruct o as [idr| |]; [|by injection Hres as <- <-..]. destruct Eo as (st1 & Hrun & Hm2 & He2). rewrite He in Hrun.
  exists b, idp, idr, st1. split_and!; [done|done|done|].
  destruct (pr_continue_processing idr); simpl in Hres; [right|left].
  - split; [done|]. rewrite Hm2 in Hres. simpl in Hres. injection Hres as Hres.
    apply invoke_tail_exact in Hres as [_ Hok]. destruct (Hok Hrc) as (result & st2 & Hi & Hm' & _ & Hc & _).
    rewrite He2 in Hi. rewrite <- surjective_pairing in Hi. by exists table, h1, result, st2.
  - destruct (finish_pipeline_result room idr None (ia_type a) h2) as [reply h3] eqn:Ef. simplify_eq.
    apply finish_exact in Ef as (Hm3 & He3 & [Hs|(_ & Hc & _)]); [by rewrite Hs in Hrc|].
    split_and!; [done|by rewrite Hm3|by rewrite He3|done].
Qed.

(** A runtime that exists is not reconfigured. *)
Lemma runtime_fixed n built h rt :
  hp_runtime h = Some rt → ∃ rc, cpex_configure_runtime n built h = (rc, h) ∧ rc ≠ RC_OK.
Proof. unfold cpex_configure_runtime. intros ->. destruct (n <=? 0)%Z, built; simpl; by eexists. Qed.

End Ffi.

Module FfiDemo.

Abbreviation AnyPayload := (MessagePayload + (IdentityPayload + GenericPayload))%type.
#[local] Instance erased_message : Erased MessagePayload AnyPayload :=
  {| erase := inl; downcast p := match p with inl d => Some d | inr _ => None end;
     downcast_erase _ := eq_refl |}.
#[local] Instance erased_identity : Erased IdentityPayload AnyPayload :=
  {| erase p := inr (inl p); downcast p := match p with inr (inl d) => Some d | _ => None end;
     downcast_erase _ := eq_refl |}.
#[local] Instance erased_generic : Erased GenericPayload AnyPayload :=
  {| erase p := inr (inr p); downcast p := match p with inr (inr d) => Some d | _ => None end;
     downcast_erase _ := eq_refl |}.

(** A handler says whether it allows. *)
#[local] Instance answering : HookHandler bool AnyPayload unit :=
  λ ok _ _ ctx w, (Ok (Some (mkErased ok None None (if ok then None else Some (violation_new "no" "refused")))), ctx, w).
#[local] Instance patient : Timer unit := λ _ _ _, None.
#[local] Instance eager : Runtime unit :=
  {| rt_fork w _ := w; rt_schedule _ l := imap (λ i _, (i, FateDone)) l; rt_join w _ := w |}.
#[local] Instance no_plugin_factory : PluginFactory unit unit bool unit := λ _ _ w, (Err (ErrConfig "none"), w).
#[local] Instance calm : Plugin unit unit :=
  {| plugin_initialize _ w := (Ok tt, w); plugin_shutdown _ w := (Ok tt, w) |}.
#[local] Instance any_hook : HookTypeName bool := λ _, "identity.resolve".
#[local] Instance one_uuid : UuidSource unit := λ w, (7%N, w).
#[local] Instance no_wait : TaskRuntime bool AnyPayload unit := λ _ w, w.
#[local] Instance no_json : YamlToJson := λ _, Err "none".
#[local] Instance no_serde : SerdeConfig :=
  {| yaml_from_str _ := Err "none"; config_from_value _ := Err "none";
     ref_from_value _ := Err "none"; step_from_value _ := Err "none" |}.
#[local] Instance plain_yaml : YamlLib :=
  {| debug_yaml _ := "value"; show_yaml_number _ := "number"; yaml_eqb _ _ := false |}.
#[local] Instance in_order : HashOrder := Config.Demo.forward.
#[local] Instance idle : ConfigVisitor unit bool unit unit AnyPayload unit :=
  {| visitor_name _ := "idle"; visit_plugins _ _ st := (Ok tt, st); visit_global _ _ st := (Ok tt, st);
     visit_default _ _ _ st := (Ok tt, st); visit_policy_bundle _ _ _ st := (Ok tt, st);
     visit_route _ _ _ st := (Ok tt, st) |}.
(** A codec that writes a fixed text for each type, but no extensions. *)
#[local] Instance texts : Msgpack := {
  generic_read s := Ok (VString s); message_read _ := Err "none";
  identity_read s := Ok (identity_new s Bearer); extensions_read _ := Err "none";
  generic_write _ := Ok "generic"; message_write _ := Ok "message"; identity_write _ := Ok "identity";
  extensions_write _ := Err "unwritable"; names_write _ := Ok "names"; errors_write _ := Ok "errors";
  result_write r := Ok (if fr_continue_processing r then "allowed" else "denied")
}.

Abbreviation DemoHeap := (Heap (P := unit) (H := bool) (F := unit) (V := unit) (Pay := AnyPayload) (W := unit)).
Definition env0 : Env unit := mkEnv tt ∅ 0.
Definition heap0 : DemoHeap := heap_start env0.
Definition heap1 : DemoHeap := (cpex_manager_new_default None heap0).2.
Definition call (mgr : Ptr) : InvokeArgs :=
  mkInvokeArgs mgr (Some "tool_pre_invoke") 15 PAYLOAD_GENERIC (Some "{}") 2 None 0 None.

Lemma ownership_witness :
  ∃ r h', perform None (CallInvoke (call (Some 1%positive)) Finishes true) heap1 = Some (r, h') ∧
    hd_tables (live h') = {[ 3%positive ]}.
Proof.
  destruct (ffi_ownership None env0 (heap1, mkHeld ({[ 1%positive ]} ∪ ∅) ∅ ∅ ∅)
              (CallInvoke (call (Some 1%positive)) Finishes true)) as (_ & r & h' & Hp & Hl & _).
  - apply rtc_once. apply (do_call None CallNewDefault heap0 (mkHeld ∅ ∅ ∅ ∅)
      (mkReply RC_OK (Some 1%positive) None 0 None None) heap1); [|by vm_compute].
    split_and!; [done|done|done|done].
  - split_and!; [intros q [= <-]; set_solver|done|done|done].
  - exists r, h'. split; [exact Hp|]. rewrite Hl. vm_compute in Hp. injection Hp as <- _. by vm_compute.
Defined.

Lemma reply_witness :
  ∃ r h', cpex_invoke None (call (Some 1%positive)) Finishes true heap1 = Some (r, h') ∧
    rp_rc r = RC_OK ∧ ∃ p m, ia_mgr (call (Some 1%positive)) = Some p ∧ hp_managers heap1 !! p = Some m.
Proof.
  destruct (cpex_invoke None (call (Some 1%positive)) Finishes true heap1) as [[r h']|] eqn:E; [|by vm_compute in E].
  assert (rp_rc r = RC_OK) as Hrc by (vm_compute in E; injection E as <- _; done).
  destruct (invoke_reply_exact None _ _ _ _ _ _ E) as [_ Hok].
  destruct (Hok Hrc) as (p & m & _ & _ & _ & _ & _ & _ & _ & _ & Hp & Hm & _).
  exists r, h'. split_and!; [done|done|by exists p, m].
Defined.

(** A manager whose identity resolver refuses. *)
Definition refusing : PluginManager unit bool unit unit AnyPayload :=
  (register_handler HOOK_IDENTITY_RESOLVE tt (Config.Demo.plugin "jwt") false (manager_new manager_config_default, env0)).2.1.
Definition heap2 : DemoHeap := mkHeap {[ 1%positive := refusing ]} ∅ ∅ ∅ 2 (Some None) env0.

Lemma gate_witness :
  ∃ r h' b idp idr st1,
    cpex_invoke_resolved None (Some "token") 5 (call (Some 1%positive)) Finishes Finishes true heap2 = Some (r, h') ∧
    c_bytes_to_slice (Some "token") 5 = Some b ∧ identity_read b = Ok idp ∧
    invoke_by_name HOOK_IDENTITY_RESOLVE (erase idp) extensions_default None (refusing, env0) = (idr, st1).
Proof.
  destruct (cpex_invoke_resolved None (Some "token") 5 (call (Some 1%positive)) Finishes Finishes true heap2)
    as [[r h']|] eqn:E; [|by vm_compute in E].
  assert (rp_rc r = RC_OK) as Hrc by (vm_compute in E; injection E as <- _; done).
  destruct (resolved_identity_gates None (Some "token") 5 (call (Some 1%positive)) Finishes Finishes true heap2 r h'
              1%positive refusing "tool_pre_invoke" (erase (mkGenericPayload (VString "{}"))) extensions_default
              E Hrc eq_refl ltac:(by vm_compute) ltac:(by vm_compute) ltac:(lia) ltac:(by vm_compute))
    as (b & idp & idr & st1 & Hb & Hid & Hi & _).
  exists r, h', b, idp, idr, st1. by split_and!.
Defined.
Example refused_identity_is_the_reply :
  match cpex_invoke_resolved None (Some "token") 5 (call (Some 1%positive)) Finishes Finishes true heap2 with
  | Some (r, h') => (rp_rc r, rp_buffer r ≫= (λ b, hp_buffers h' !! b), rp_tasks r)
  | None => (RC_PANIC, None, None)
  end = (RC_OK, Some "denied", None).
Proof. by vm_compute. Qed.

(** A result the allocator cannot hold, or one over the size a [c_int] counts, is
    reported as a success without a result. *)
Example lost_result_reported_ok :
  match cpex_invoke None (call (Some 1%positive)) Finishes false heap1 with
  | Some (r, _) => (rp_rc r, rp_buffer r)
  | None => (RC_PANIC, None)
  end = (RC_OK, None).
Proof. by vm_compute. Qed.

(** Extensions that cannot be written are dropped without a record. *)
Example unwritable_extensions_vanish :
  let fr := ffi_result (mkPipelineResult (Pay := AnyPayload) true None false (Some extensions_default) None [] None
                          context_table_new) PAYLOAD_GENERIC in
  fr_modified_extensions fr = None ∧ fr_errors fr = [].
Proof. by vm_compute. Qed.

End FfiDemo.
