(* ===== verification/Hooks.v ===== *)
(** * Hook types, typed results and the handler adapter (cpex-core/src/hooks)

    The names of [types.rs], the [PluginResult] of [trait_def.rs] with its
    constructors, [erase_result] of the executor, and the [TypedHandlerAdapter]
    that puts a typed handler behind the erased interface the executor calls.
    A [dyn AnyHookHandler] is the record of its methods.  The last part composes
    a typed plugin, its adapter and the executor. *)

From S2P Require Import Prelude RustStd F64 Json Routing Orchestration ExtData Extensions.
From S2P Require Import Pipelines PluginTypes Registry Executor Config ConfigLoad Manager Message Delegation Dispatch.
From S2P Require Import Jwt Scanner.

Local Open Scope string_scope.
Local Open Scope list_scope.

(** ** Names (types.rs) *)

Record HookType := mkHookType { hook_type_0 : string }.
Definition hook_type_new (name : string) : HookType := mkHookType name.
Definition hook_type_as_str (self : HookType) : string := hook_type_0 self.
Definition hook_type_display (self : HookType) : string := hook_type_0 self.
Definition hook_type_from_str (name : string) : HookType := hook_type_new name.

#[global] Instance HookType_eq_dec : EqDecision HookType.
Proof. solve_decision. Defined.

Module hook_names.
Definition TOOL_PRE_INVOKE : string := "tool_pre_invoke".
Definition TOOL_POST_INVOKE : string := "tool_post_invoke".
Definition PROMPT_PRE_FETCH : string := "prompt_pre_fetch".
Definition PROMPT_POST_FETCH : string := "prompt_post_fetch".
Definition RESOURCE_PRE_FETCH : string := "resource_pre_fetch".
Definition RESOURCE_POST_FETCH : string := "resource_post_fetch".
Definition IDENTITY_RESOLVE : string := "identity_resolve".
Definition TOKEN_DELEGATE : string := "token_delegate".
End hook_names.

Module cmf_hook_names.
Definition TOOL_PRE_INVOKE : string := "cmf.tool_pre_invoke".
Definition TOOL_POST_INVOKE : string := "cmf.tool_post_invoke".
Definition LLM_INPUT : string := "cmf.llm_input".
Definition LLM_OUTPUT : string := "cmf.llm_output".
Definition PROMPT_PRE_FETCH : string := "cmf.prompt_pre_fetch".
Definition PROMPT_POST_FETCH : string := "cmf.prompt_post_fetch".
Definition RESOURCE_PRE_FETCH : string := "cmf.resource_pre_fetch".
Definition RESOURCE_POST_FETCH : string := "cmf.resource_post_fetch".
End cmf_hook_names.

Definition builtin_hook_types : list HookType :=
  hook_type_new <$>
    ["tool_pre_invoke"; "tool_post_invoke"; "prompt_pre_fetch"; "prompt_post_fetch";
     "resource_pre_fetch"; "resource_post_fetch"; "identity_resolve"; "token_delegate";
     "cmf.tool_pre_invoke"; "cmf.tool_post_invoke"; "cmf.llm_input"; "cmf.llm_output";
     "cmf.prompt_pre_fetch"; "cmf.prompt_post_fetch"; "cmf.resource_pre_fetch"; "cmf.resource_post_fetch"].

(** ** Typed results (trait_def.rs) *)

Record PluginResult (T : Type) := mkPluginResult {
  res_continue_processing : bool;
  res_modified_payload : option T;
  res_modified_extensions : option OwnedExtensions;
  res_violation : option PluginViolation;
  res_metadata : option Value
}.
Arguments mkPluginResult {T}.
Arguments res_continue_processing {T}.
Arguments res_modified_payload {T}.
Arguments res_modified_extensions {T}.
Arguments res_violation {T}.
Arguments res_metadata {T}.

Section PluginResult.
Context {T : Type}.

Definition allow : PluginResult T := mkPluginResult true None None None None.
Definition deny (violation : PluginViolation) : PluginResult T :=
  mkPluginResult false None None (Some violation) None.
Definition modify_payload (payload : T) : PluginResult T := mkPluginResult true (Some payload) None None None.
Definition modify_extensions (extensions : OwnedExtensions) : PluginResult T :=
  mkPluginResult true None (Some extensions) None None.
Definition modify (payload : T) (extensions : OwnedExtensions) : PluginResult T :=
  mkPluginResult true (Some payload) (Some extensions) None None.
Definition plugin_result_default : PluginResult T := allow.

Definition is_denied (self : PluginResult T) : bool := negb (res_continue_processing self).
Definition is_payload_modified (self : PluginResult T) : bool := bool_decide (is_Some (res_modified_payload self)).
Definition is_extensions_modified (self : PluginResult T) : bool :=
  bool_decide (is_Some (res_modified_extensions self)).

(** [erase_result] of the executor: the metadata is left behind. *)
Definition erase_result {Pay} `{Erased T Pay} (result : PluginResult T) : ErasedResultFields Pay :=
  mkErased (res_continue_processing result) (erase <$> res_modified_payload result)
    (res_modified_extensions result) (res_violation result).

End PluginResult.

(** A result a plugin builds without metadata, from the fields it sets. *)
Definition plain_result {T} (f : ErasedResultFields T) : PluginResult T :=
  mkPluginResult (ef_continue_processing f) (ef_modified_payload f) (ef_modified_extensions f) (ef_violation f) None.

(** ** The adapter (adapter.rs) *)

(** [HookTypeDef]: the name, and [std::any::type_name] of the payload. *)
Record HookTypeDef := mkHookTypeDef { NAME : string; payload_type_name : string }.

(** [HookHandler<H>::handle] of a plugin, awaited. *)
Definition TypedHandle (T W : Type) : Type :=
  T → Extensions → PluginContext → W → PluginResult T * PluginContext * W.

Record AnyHookHandler (Pay W : Type) := mkAnyHandler {
  any_invoke : Pay → Extensions → PluginContext → W →
    Result (option (ErasedResultFields Pay)) PluginError * PluginContext * W;
  any_hook_type_name : string
}.
Arguments mkAnyHandler {Pay W}.
Arguments any_invoke {Pay W}.
Arguments any_hook_type_name {Pay W}.

#[global] Instance any_hook_handler {Pay W} : HookHandler (AnyHookHandler Pay W) Pay W := any_invoke.
#[global] Instance any_hook_name {Pay W} : HookTypeName (AnyHookHandler Pay W) := any_hook_type_name.

Section Adapter.
Context {T Pay W : Type} `{Erased T Pay}.

Record TypedHandlerAdapter := adapter_new { ad_hook : HookTypeDef; ad_handle : TypedHandle T W }.

Definition mismatch (hook : HookTypeDef) : PluginError :=
  ErrConfig ("payload type mismatch for hook '" +:+ NAME hook +:+ "': expected " +:+ payload_type_name hook).

Definition adapter_invoke (self : TypedHandlerAdapter) (payload : Pay) (extensions : Extensions)
    (ctx : PluginContext) (w : W) :
    Result (option (ErasedResultFields Pay)) PluginError * PluginContext * W :=
  match downcast payload with
  | None => (Err (mismatch (ad_hook self)), ctx, w)
  | Some typed =>
      let '(result, ctx, w) := ad_handle self typed extensions ctx w in
      (Ok (Some (erase_result result)), ctx, w)
  end.
Definition adapter_hook_type_name (self : TypedHandlerAdapter) : string := NAME (ad_hook self).

(** The adapter as a trait object. *)
Definition any_of (self : TypedHandlerAdapter) : AnyHookHandler Pay W :=
  mkAnyHandler (adapter_invoke self) (adapter_hook_type_name self).

End Adapter.
Arguments TypedHandlerAdapter : clear implicits.

(** ** Facts on the adapter *)

(** What the executor sees of a typed handler: at a payload of its type, exactly
    the four fields of its answer, and the returned payload reads back as the one
    the plugin built; at any other payload, an error and no call: context and
    world are as they were. *)
Theorem adapter_exact {T Pay W} `{Erased T Pay} (A : TypedHandlerAdapter T W) payload x ctx (w : W) :
  match downcast payload with
  | Some t =>
      let '(r, ctx', w') := ad_handle A t x ctx w in
      ∃ e, adapter_invoke A payload x ctx w = (Ok (Some e), ctx', w')
        ∧ ef_continue_processing e = negb (is_denied r)
        ∧ ef_modified_extensions e = res_modified_extensions r
        ∧ ef_violation e = res_violation r
        ∧ ef_modified_payload e ≫= downcast = res_modified_payload r
        ∧ (is_Some (ef_modified_payload e) ↔ is_payload_modified r = true)
  | None => adapter_invoke A payload x ctx w = (Err (mismatch (ad_hook A)), ctx, w)
  end.
Proof.
  unfold adapter_invoke. destruct (downcast payload) as [t|]; [|done].
  destruct (ad_handle A t x ctx w) as [[r ctx'] w']. eexists. split; [done|].
  destruct r as [c p o v meta]; unfold is_denied, is_payload_modified; simpl.
  split_and!; [by destruct c|done|done| |].
  - destruct p; simpl; [apply downcast_erase|done].
  - rewrite bool_decide_eq_true. by rewrite fmap_is_Some.
Qed.

(** The metadata of a result never reaches the executor. *)
Lemma metadata_dropped {T Pay} `{Erased T Pay} (r : PluginResult T) meta :
  erase_result (Pay := Pay)
    (mkPluginResult (res_continue_processing r) (res_modified_payload r) (res_modified_extensions r)
       (res_violation r) meta)
  = erase_result r.
Proof. done. Qed.

(** The metadata table knows every built-in CMF name but the two for prompts,
    which it lists under other names. *)
Lemma builtin_names_without_metadata :
  filter (λ n, starts_with "cmf." n = true ∧ hook_table_init !! n = None) (hook_type_as_str <$> builtin_hook_types)
  = [cmf_hook_names.PROMPT_PRE_FETCH; cmf_hook_names.PROMPT_POST_FETCH].
Proof. by vm_compute. Qed.

(** ** A typed guard in a pipeline *)

Section Guard.
Context {P H Pay W : Type} `{HookHandler H Pay W} `{Timer W} `{Runtime W}.
Context (config : ExecutorConfig).
Implicit Types entry : HookEntry P H.
Implicit Types st : PhaseState Pay W.

(** One round changes the payload only to what the handler returns. *)
Lemma serial_entry_payload block entry st :
  let st' := (run_serial_entry config block true entry st).2 in
  ph_payload st' = ph_payload st ∨
  ∃ x ctx e ctx',
    handler_invoke (he_handler entry) (ph_payload st) x ctx (ph_world st) = (Ok (Some e), ctx', ph_world st')
    ∧ ef_modified_payload e = Some (ph_payload st').
Proof.
  unfold run_serial_entry. destruct (take_context _ _) as [ctx table].
  set (x := serial_view _ _). unfold call_handler.
  destruct (timer_elapses _ _ _) as [[ctx1 w1]|].
  { left. unfold serial_failure. by destruct (pcf_on_error _), block. }
  destruct (handler_invoke _ _ x _ _) as [[[[e|]|err] ctx1] w1] eqn:E; simpl; [|by left|].
  - set (halt := if _ && block then ef_violation e else None). destruct halt as [v|]; simpl; [by left|].
    unfold accept_modifications.
    destruct (ef_modified_payload e) as [mp|] eqn:Em; simpl; [|left; by destruct (ef_modified_extensions e)].
    right. exists x, ctx, e, ctx1. destruct (ef_modified_extensions e); simpl; (split; [exact E|done]).
  - left. unfold serial_failure. by destruct (pcf_on_error _), block.
Qed.

(** And it leaves the world as the one call does that it makes, cut off or not. *)
Lemma serial_entry_world block entry st :
  let st' := (run_serial_entry config block true entry st).2 in
  (∃ id ctx ctx', timer_elapses (ph_world st) id ctx = Some (ctx', ph_world st')) ∨
  ∃ x ctx, (handler_invoke (he_handler entry) (ph_payload st) x ctx (ph_world st)).2 = ph_world st'.
Proof.
  unfold run_serial_entry. destruct (take_context _ _) as [ctx table].
  set (x := serial_view _ _). unfold call_handler.
  destruct (timer_elapses _ _ _) as [[ctx1 w1]|] eqn:Et; simpl in Et.
  { left. eexists _, _, ctx1. rewrite Et. unfold serial_failure. by destruct (pcf_on_error _), block. }
  right. exists x, ctx.
  destruct (handler_invoke _ _ x _ _) as [[[[e|]|err] ctx1] w1] eqn:E; simpl in E |- *; rewrite ?E; simpl; [|done|].
  - destruct (if _ && block then ef_violation e else None); simpl; [done|]. unfold accept_modifications.
    by destruct (ef_modified_payload e), (ef_modified_extensions e).
  - unfold serial_failure. by destruct (pcf_on_error _), block.
Qed.

Context (Q : Pay → Prop).

(** A handler that turns a good payload into good ones only. *)
Definition keeps (h : H) : Prop :=
  ∀ p x ctx w e ctx' w' p', handler_invoke h p x ctx w = (Ok (Some e), ctx', w') →
    ef_modified_payload e = Some p' → Q p → Q p'.
(** A handler that lets through good payloads only: when it lets a request go on
    the payload it leaves is good, and when it refuses it says why. *)
Definition guards (h : H) : Prop :=
  ∀ p x ctx w, match (handler_invoke h p x ctx w).1.1 with
               | Ok (Some e) => if ef_continue_processing e then Q (default p (ef_modified_payload e))
                                else is_Some (ef_violation e)
               | Ok None => False
               | Err _ => True
               end.

Lemma keeps_entry block entry st :
  keeps (he_handler entry) → Q (ph_payload st) → Q (ph_payload (run_serial_entry config block true entry st).2).
Proof.
  intros Hk Hq. destruct (serial_entry_payload block entry st) as [->|(x & ctx & e & ctx' & Hr & Hp)];
    [done|by eapply Hk].
Qed.
Lemma keeps_phase block entries st :
  (∀ entry, entry ∈ entries → keeps (he_handler entry)) → Q (ph_payload st) →
  Q (ph_payload (run_serial_phase config block true entries st).2).
Proof.
  revert st. induction entries as [|entry entries IH]; intros st Hk Hq; simpl; [done|].
  pose proof (keeps_entry block entry st (Hk _ ltac:(by left)) Hq) as He.
  destruct (run_serial_entry _ _ _ _ _) as [[v|] st1]; simpl in *; [done|]. apply IH; [|done]. set_solver.
Qed.

(** A guard that fails closed and was passed leaves a good payload. *)
Lemma guard_entry entry st st' :
  guards (he_handler entry) → pcf_on_error (pr_trusted_config (he_plugin_ref entry)) = Fail →
  run_serial_entry config true true entry st = (None, st') → Q (ph_payload st').
Proof.
  intros Hg Hf. unfold run_serial_entry. destruct (take_context _ _) as [ctx table].
  set (x := serial_view _ _). unfold call_handler, serial_failure. rewrite Hf.
  destruct (timer_elapses _ _ _) as [[ctx1 w1]|]; [done|].
  specialize (Hg (ph_payload (set_ctx_table st table)) x ctx (ph_world (set_ctx_table st table))).
  destruct (handler_invoke _ _ x _ _) as [[[[e|]|err] ctx1] w1]; simpl in *; [|done|done].
  rewrite andb_true_r. destruct (ef_continue_processing e); simpl.
  - unfold accept_modifications. intros [= <-]. simpl.
    by destruct (ef_modified_payload e), (ef_modified_extensions e).
  - destruct Hg as [v ->]. done.
Qed.

(** Audit and concurrent plugins never touch the payload. *)
Definition same_payload st st' : Prop := ph_payload st' = ph_payload st.
#[local] Instance same_payload_order : PhaseOrder (P := P) same_payload.
Proof. split; [split| | | |]; unfold same_payload, Reflexive, Transitive; simpl; try done. by intros ??? -> ->. Qed.

(** A sequential guard under [on_error: fail], followed only by plugins that keep
    the property: whatever else runs, a pipeline that lets the request go on
    hands out a good payload. *)
Lemma guard_enforced entries pre entry post payload extensions table flags (w : W) p :
  by_mode flags Sequential entries = pre ++ entry :: post →
  guards (he_handler entry) → pcf_on_error (pr_trusted_config (he_plugin_ref entry)) = Fail →
  (∀ e, e ∈ post ++ by_mode flags Transform entries → keeps (he_handler e)) →
  let r := (execute config entries payload extensions table flags w).1.1.1 in
  pr_continue_processing r = true → pr_modified_payload r = Some p → Q p.
Proof.
  intros Hseq Hg Hf Hk. destruct (decide (entries = [])) as [->|Hne]; [by destruct pre|].
  pose proof (λ v st, execute_as_phases config entries payload extensions table flags w v st Hne) as Hex.
  set (st0 := mkPhase payload extensions (default context_table_new table) [] false flags w) in *.
  destruct (run_phases config (group_by_mode flags entries) st0) as [v st] eqn:Er.
  rewrite (Hex _ _ eq_refl). destruct v as [v|]; simpl; [done|]. intros _ [= <-].
  unfold run_phases in Er. rewrite group_by_mode_spec in Er. simpl in Er. rewrite Hseq, run_serial_phase_app in Er.
  destruct (run_serial_phase config true true pre st0) as [[v|] st1]; [done|]. simpl in Er.
  destruct (run_serial_entry config true true entry st1) as [[v|] st2] eqn:Ee; [done|].
  apply guard_entry in Ee; [|done..].
  pose proof (keeps_phase true post st2 ltac:(set_solver) Ee) as Hp.
  destruct (run_serial_phase config true true post st2) as [[v|] st3]; [done|]. simpl in Hp.
  pose proof (keeps_phase false (by_mode flags Transform entries) st3 ltac:(set_solver) Hp) as Ht.
  set (st4 := (run_serial_phase config false true _ st3).2) in *.
  pose proof (run_ref_phase_order config same_payload (by_mode flags Audit entries) st4) as Href.
  pose proof (run_concurrent_phase_order config same_payload (by_mode flags Concurrent entries)
    (run_ref_phase config (by_mode flags Audit entries) st4)) as Hconc.
  rewrite Er in Hconc. unfold same_payload in Href, Hconc. simpl in Hconc. by rewrite Hconc, Href.
Qed.

End Guard.

Section TypedGuard.
Context {T Pay W : Type} `{Erased T Pay}.

(** The property of a typed payload, at the erased ones. *)
Definition typed (Q : T → Prop) (p : Pay) : Prop := ∃ t, downcast p = Some t ∧ Q t.

(** Behind the adapter a typed guard is a guard: a payload of another type is
    refused before the plugin is asked. *)
Lemma adapter_guards (Q : T → Prop) (A : TypedHandlerAdapter T W) :
  (∀ t x ctx w, let r := (ad_handle A t x ctx w).1.1 in
     if res_continue_processing r then Q (default t (res_modified_payload r)) else is_Some (res_violation r)) →
  guards (typed Q) (any_of (Pay := Pay) A).
Proof.
  intros Hg p x ctx w. unfold handler_invoke, any_hook_handler. simpl. unfold adapter_invoke.
  destruct (downcast p) as [t|] eqn:Ed; [|done]. specialize (Hg t x ctx w).
  destruct (ad_handle A t x ctx w) as [[r ctx'] w']. simpl in *.
  destruct (res_continue_processing r); [|done].
  destruct (res_modified_payload r) as [t'|]; simpl in *; [|by exists t].
  exists t'. split; [apply downcast_erase|done].
Qed.

End TypedGuard.

(** ** The PII scanner in a pipeline *)

Section ScannerPipeline.
Context {P Pay W : Type} `{Erased MessagePayload Pay} `{Timer W} `{Runtime W}.
Context `{regex : RegexCrate} `{order : HashOrder}.
Context (config : ExecutorConfig) (self : PiiScanner).

(** [CmfHook]. *)
Definition cmf_hook : HookTypeDef := mkHookTypeDef "cmf" "cpex_core::cmf::message::MessagePayload".

(** [<PiiScanner as HookHandler<CmfHook>>], adapted. *)
Definition scanner_adapter : TypedHandlerAdapter MessagePayload W :=
  adapter_new cmf_hook (λ payload _ ctx w, (plain_result (scanner_handle self payload), ctx, w)).

(** No scanned text that a pattern matches, but the marker of the redaction. *)
Definition scanned_clean (payload : MessagePayload) : Prop :=
  ∀ s, scans (mp_message payload) s → hit self s → s = PII ∧ pii_mode (ps_typed self) = ScanRedact.

Lemma scanner_clean payload :
  let r := scanner_handle self payload in
  if ef_continue_processing r then scanned_clean (default payload (ef_modified_payload r))
  else is_Some (ef_violation r).
Proof.
  unfold scanner_handle, scanned_clean. destruct (first_match self (mp_message payload)) as [name|] eqn:E; simpl.
  - destruct (pii_mode (ps_typed self)); simpl; [done|]. intros s (part & Hin & Hs) Hh. simpl in Hin.
    apply list_elem_of_fmap in Hin as (part' & -> & Hin). apply redact_part_scans in Hs as [|]; done.
  - pose proof (proj1 (first_match_None _ _) E) as Hc. intros s Hs Hh. by apply Hc in Hs.
Qed.

(** C17: a scanner registered as a sequential plugin with [on_error: fail], behind
    its typed adapter and followed by no plugin that puts text back, decides what
    leaves the pipeline: whatever the other plugins do, however they fail and
    whatever type of payload is sent, a request the executor lets go on carries a
    message without a scanned match. *)
Theorem pipeline_forwards_clean (entries : list (HookEntry P (AnyHookHandler Pay W))) pre entry post
    payload extensions table flags (w : W) p :
  by_mode flags Sequential entries = pre ++ entry :: post →
  he_handler entry = any_of scanner_adapter →
  pcf_on_error (pr_trusted_config (he_plugin_ref entry)) = Fail →
  (∀ e, e ∈ post ++ by_mode flags Transform entries → keeps (typed scanned_clean) (he_handler e)) →
  let r := (execute config entries payload extensions table flags w).1.1.1 in
  pr_continue_processing r = true → pr_modified_payload r = Some p →
  ∃ m, downcast p = Some m ∧ scanned_clean m.
Proof.
  intros Hseq Hh Hf Hk. apply (guard_enforced config (typed scanned_clean) entries pre entry post); [done| |done|done].
  rewrite Hh. apply adapter_guards. intros t x ctx w0. simpl. apply scanner_clean.
Qed.

End ScannerPipeline.

Module HooksDemo.

#[local] Instance own_payload : Erased MessagePayload (MessagePayload + string) := {
  erase := inl; downcast p := match p with inl m => Some m | inr _ => None end; downcast_erase _ := eq_refl
}.
#[local] Existing Instances ScannerDemo.in_order ScannerDemo.demo_regex.
Abbreviation Handlers := (AnyHookHandler (MessagePayload + string) unit).

(** An adder of text, before the scanner, and a plugin that only looks. *)
Definition adder : TypedHandlerAdapter MessagePayload unit :=
  adapter_new cmf_hook (λ m _ ctx w, (modify_payload (ScannerDemo.call {[ "ref" := VString "INT-7" ]}), ctx, w)).
Definition looker : TypedHandlerAdapter MessagePayload unit := adapter_new cmf_hook (λ _ _ ctx w, (allow, ctx, w)).
Definition demo_entry (name : string) (id : N) (mode : PluginMode) (A : TypedHandlerAdapter MessagePayload unit) :
    HookEntry unit Handlers :=
  mkHookEntry (plugin_ref_new tt (demo_config name 10 mode) id 0) (any_of A).
Definition demo_entries (mode : PiiScanMode) : list (HookEntry unit Handlers) :=
  [demo_entry "adder" 1 Sequential adder;
   demo_entry "pii" 2 Sequential (scanner_adapter (ScannerDemo.scanner mode));
   demo_entry "looker" 3 Transform looker].
Definition demo_run (mode : PiiScanMode) (p : MessagePayload + string) :=
  (execute executor_config_default (demo_entries mode) p extensions_default None ∅ tt).1.1.1.

(** The added text is redacted or refused; a payload of another type is refused. *)
Example demo_redacts :
  pr_modified_payload (demo_run ScanRedact (inl (ScannerDemo.call ∅)))
  = Some (inl (ScannerDemo.call {[ "ref" := VString PII ]})).
Proof. by vm_compute. Qed.
Example demo_refuses :
  vi_code <$> pr_violation (demo_run ScanDeny (inl (ScannerDemo.call ∅))) = Some "pii.detected".
Proof. by vm_compute. Qed.
Example demo_mismatch :
  vi_reason <$> pr_violation (demo_run ScanRedact (inr "text"))
  = Some ("Plugin 'adder' failed: configuration error: payload type mismatch for hook 'cmf': expected cpex_core::cmf::message::MessagePayload").
Proof. vm_compute. reflexivity. Qed.

Lemma looker_keeps (Q : MessagePayload + string → Prop) : keeps Q (any_of looker).
Proof.
  intros p x ctx w e ctx' w' p'. unfold handler_invoke, any_hook_handler. simpl. unfold adapter_invoke.
  destruct (downcast p); simpl; by intros [= <- <- <-].
Qed.

Lemma pipeline_clean_witness :
  ∃ p m, pr_modified_payload (demo_run ScanRedact (inl (ScannerDemo.call ∅))) = Some p
    ∧ downcast p = Some m ∧ scanned_clean (ScannerDemo.scanner ScanRedact) m.
Proof.
  eexists. destruct (pipeline_forwards_clean executor_config_default (ScannerDemo.scanner ScanRedact)
    (demo_entries ScanRedact) [demo_entry "adder" 1 Sequential adder]
    (demo_entry "pii" 2 Sequential (scanner_adapter (ScannerDemo.scanner ScanRedact))) []
    (inl (ScannerDemo.call ∅)) extensions_default None ∅ tt (inl (ScannerDemo.call {[ "ref" := VString PII ]}))) as (m & Hd & Hc).
  - by vm_compute.
  - done.
  - done.
  - intros e He. replace e with (demo_entry "looker" 3 Transform looker); [apply looker_keeps|].
    apply list_elem_of_singleton in He. done.
  - by vm_compute.
  - apply demo_redacts.
  - exists m. split; [apply demo_redacts|done].
Defined.

End HooksDemo.
