(* ===== verification/PyConv.v ===== *)
(** * Values at the Python boundary (bindings/python/src/conversions.rs and error.rs)

    Python objects live on a heap and are reached by reference, so that shared
    and cyclic structures are as they are in the interpreter.  A [str] is the
    text in UTF-8, with surrogates passed through: the ones Rust can take are the
    valid ones.  The identity of immutable objects is not modelled. *)

From Stdlib Require Import Ascii.
From S2P Require Import Prelude RustStd F64 Json JsonMerge PluginTypes Config ConfigLoad.

Local Open Scope string_scope.
Local Open Scope list_scope.

(** ** Exceptions (error.rs) *)

(** The last two are raised by the extraction of an [i64] and of a [String]. *)
Inductive PyErr :=
| PyValueError (msg : string)
| PyRuntimeError (msg : string)
| PyTimeoutError (msg : string)
| PyRustPanic
| PyOverflowError
| PyUnicodeEncodeError.

Definition plugin_error_to_pyerr (e : PluginError) : PyErr :=
  match e with
  | ErrConfig message => PyValueError ("cpex config error: " +:+ message)
  | ErrUnknownHook hook_type => PyValueError ("cpex unknown hook type: " +:+ hook_type)
  | ErrTimeout plugin_name timeout_ms _ =>
      PyTimeoutError ("cpex plugin '" +:+ plugin_name +:+ "' timed out after " +:+ show_Z timeout_ms +:+ "ms")
  | ErrViolation plugin_name violation =>
      PyRuntimeError ("cpex plugin '" +:+ plugin_name +:+ "' denied: " +:+ vi_reason violation)
  | ErrExecution plugin_name message _ _ _ =>
      PyRuntimeError ("cpex plugin '" +:+ plugin_name +:+ "' execution error: " +:+ message)
  end.

(** ** Objects *)

(** [PyOther] is an object of any other type, with its qualified name if it can
    be read. *)
Inductive PyObject :=
| PyNone
| PyBool (b : bool)
| PyInt (z : Z)
| PyFloat (f : f64)
| PyStr (text : string)
| PyList (items : list positive)
| PyDict (items : list (positive * positive))
| PyOther (qualname : option string).

(** Every reference denotes an object. *)
Record PyHeap := mkPyHeap { py_object : positive → PyObject; py_next : positive }.

Definition py_alloc (o : PyObject) (h : PyHeap) : positive * PyHeap :=
  (py_next h, mkPyHeap (λ a, if (a =? py_next h)%positive then o else py_object h a) (Pos.succ (py_next h))).

(** The casts; [bool] is a subclass of [int]. *)
Definition obj_is_none (o : PyObject) : bool := match o with PyNone => true | _ => false end.
Definition cast_bool (o : PyObject) : option bool := match o with PyBool b => Some b | _ => None end.
Definition cast_int (o : PyObject) : option Z :=
  match o with PyInt z => Some z | PyBool b => Some (Z.b2z b) | _ => None end.
Definition cast_float (o : PyObject) : option f64 := match o with PyFloat f => Some f | _ => None end.
Definition cast_str (o : PyObject) : option string := match o with PyStr s => Some s | _ => None end.
Definition cast_list (o : PyObject) : option (list positive) := match o with PyList l => Some l | _ => None end.
Definition cast_dict (o : PyObject) : option (list (positive * positive)) :=
  match o with PyDict l => Some l | _ => None end.

Definition extract_i64 (z : Z) : Result Z PyErr := if in_i64 z then Ok z else Err PyOverflowError.
Definition extract_string (text : string) : Result string PyErr :=
  if valid_utf8 (bytes text) then Ok text else Err PyUnicodeEncodeError.

(** [Number::from(i64)] and [Number::from_f64]. *)
Definition number_from_i64 (n : Z) : Number := if (0 <=? n)%Z then PosInt n else NegInt n.
Definition f64_is_finite (f : f64) : bool :=
  match f with SpecFloat.S754_zero _ | SpecFloat.S754_finite _ _ _ => true | _ => false end.
Definition number_from_f64 (f : f64) : option Number := if f64_is_finite f then Some (NumFloat f) else None.
(** [as_f64], which every number has. *)
Definition number_as_f64 (n : Number) : f64 :=
  match n with PosInt z | NegInt z => f64_of_Z z | NumFloat f => f end.

(** ** From Python *)

Definition DEPTH_ERROR : PyErr := PyValueError "cpex: value nesting exceeds maximum depth of 128 levels".
Definition KEY_ERROR : PyErr := PyValueError "cpex: dict keys must be strings; got a non-string key".

Section FromPython.
Context (h : PyHeap).

(** [for (k, v) in d.iter()], the recursion given. *)
Fixpoint entries_to_json (rec : positive → Result Value PyErr) (items : list (positive * positive))
    (map : gmap string Value) : Result (gmap string Value) PyErr :=
  match items with
  | [] => Ok map
  | (k, v) :: items =>
      let? key := match cast_str (py_object h k) with
                  | Some text => map_err (λ _, KEY_ERROR) (extract_string text)
                  | None => Err KEY_ERROR
                  end in
      let? value := rec v in
      entries_to_json rec items (<[key := value]> map)
  end.

(** [levels] counts what is left of the nesting: [129 - depth]. *)
Fixpoint to_json_within (levels : nat) (obj : positive) : Result Value PyErr :=
  match levels with
  | O => Err DEPTH_ERROR
  | S levels =>
      let o := py_object h obj in
      if obj_is_none o then Ok Null
      else
        match cast_bool o, cast_int o, cast_float o, cast_str o, cast_list o, cast_dict o with
        | Some b, _, _, _, _, _ => Ok (VBool b)
        | None, Some i, _, _, _, _ => let? n := extract_i64 i in Ok (VNumber (number_from_i64 n))
        | None, None, Some f, _, _, _ =>
            match number_from_f64 f with
            | Some n => Ok (VNumber n)
            | None => Err (PyValueError ("cpex: float value " +:+ f64_display f +:+ " is not a valid JSON number"))
            end
        | None, None, None, Some s, _, _ => let? text := extract_string s in Ok (VString text)
        | None, None, None, None, Some lst, _ =>
            let? out := collect_results (to_json_within levels) lst in Ok (VArray out)
        | None, None, None, None, None, Some d =>
            let? map := entries_to_json (to_json_within levels) d ∅ in Ok (VObject map)
        | None, None, None, None, None, None =>
            let type_name := match o with PyOther (Some q) => q | _ => "unknown" end in
            Err (PyValueError ("cpex: cannot convert Python object of type '" +:+ type_name +:+ "' to a JSON value"))
        end
  end.

Definition pyobj_to_json_value (obj : positive) (depth : nat) : Result Value PyErr :=
  to_json_within (129 - depth) obj.

End FromPython.

(** ** To Python *)

Section ToPython.
Context `{order : HashOrder}.

(** The items one after the other, threading the heap. *)
Fixpoint thread_items (fs : list (PyHeap → positive * PyHeap)) (h : PyHeap) : list positive * PyHeap :=
  match fs with
  | [] => ([], h)
  | f :: fs => let '(a, h) := f h in let '(items, h) := thread_items fs h in (a :: items, h)
  end.
Fixpoint thread_entries (fs : list (string * (PyHeap → positive * PyHeap))) (h : PyHeap) :
    list (positive * positive) * PyHeap :=
  match fs with
  | [] => ([], h)
  | (k, f) :: fs =>
      let '(v, h) := f h in
      let '(key, h) := py_alloc (PyStr k) h in
      let '(items, h) := thread_entries fs h in ((key, v) :: items, h)
  end.

(** The keys of a map are distinct, so that [set_item] adds one entry each. *)
Fixpoint json_value_to_pyobj (v : Value) : PyHeap → positive * PyHeap :=
  match v with
  | Null => py_alloc PyNone
  | VBool b => py_alloc (PyBool b)
  | VNumber n =>
      match number_as_i64 n with
      | Some i => py_alloc (PyInt i)
      | None => py_alloc (PyFloat (number_as_f64 n))
      end
  | VString s => py_alloc (PyStr s)
  | VArray arr =>
      λ h, let '(items, h) := thread_items (json_value_to_pyobj <$> arr) h in py_alloc (PyList items) h
  | VObject map =>
      λ h, let '(items, h) := thread_entries (map_iter (json_value_to_pyobj <$> map)) h in py_alloc (PyDict items) h
  end.

End ToPython.

(** ** What can cross *)

(** How many containers a part of the value is inside of, at most. *)
Fixpoint nesting (v : Value) : nat :=
  match v with
  | VArray l => foldr (λ x n, max (S (nesting x)) n) 0 l
  | VObject m => map_fold (λ _ x n, max (S (nesting x)) n) 0 m
  | _ => 0
  end.

Definition number_crosses (n : Number) : bool :=
  match n with
  | PosInt z => (0 <=? z)%Z && (z <=? i64_max)%Z
  | NegInt z => (i64_min <=? z)%Z && (z <? 0)%Z
  | NumFloat f => f64_is_finite f
  end.
(** Integers of 64 signed bits, finite floats, and UTF-8. *)
Fixpoint crosses (v : Value) : bool :=
  match v with
  | VNumber n => number_crosses n
  | VString s => valid_utf8 (bytes s)
  | VArray l => forallb crosses l
  | VObject m => map_fold (λ k x b, valid_utf8 (bytes k) && crosses x && b) true m
  | _ => true
  end.

Lemma crosses_object m :
  crosses (VObject m) = true ↔ ∀ k x, m !! k = Some x → valid_utf8 (bytes k) = true ∧ crosses x = true.
Proof.
  simpl. rewrite map_fold_foldr. setoid_rewrite <- elem_of_map_to_list.
  induction (map_to_list m) as [|[k x] l IH]; simpl; [split; [by intros _ ?? ?%not_elem_of_nil|done]|].
  rewrite !andb_true_iff, IH. split.
  - intros [[Hk Hx] Hl] k' x' [[= -> ->]|?]%elem_of_cons; [done|by apply Hl].
  - intros Hl. split; [apply (Hl k x); by left|]. intros k' x' ?. apply Hl. by right.
Qed.
Lemma nesting_array l n : (∀ x, x ∈ l → (nesting x < n)%nat) ↔ (nesting (VArray l) < S n)%nat.
Proof.
  simpl. induction l as [|x l IH]; simpl; [split; [lia|by intros _ ? ?%not_elem_of_nil]|].
  split.
  - intros Hl. pose proof (Hl x ltac:(by left)). pose proof (proj1 IH (λ y Hy, Hl y ltac:(by right))). lia.
  - intros Hl y [->|Hy]%elem_of_cons; [lia|]. apply IH; [lia|done].
Qed.
Lemma nesting_object m n : (∀ k x, m !! k = Some x → (nesting x < n)%nat) ↔ (nesting (VObject m) < S n)%nat.
Proof.
  simpl. rewrite map_fold_foldr. setoid_rewrite <- elem_of_map_to_list.
  induction (map_to_list m) as [|[k x] l IH]; simpl; [split; [lia|by intros _ ?? ?%not_elem_of_nil]|].
  split.
  - intros Hl. pose proof (Hl k x ltac:(by left)). pose proof (proj1 IH (λ k' y Hy, Hl k' y ltac:(by right))). lia.
  - intros Hl k' y [[= -> ->]|Hy]%elem_of_cons; [lia|]. apply (proj2 IH ltac:(lia) k'). done.
Qed.

(** *** Accepted values *)

Lemma to_json_bounded h levels obj v :
  to_json_within h levels obj = Ok v → crosses v = true ∧ (nesting v < levels)%nat.
Proof.
  revert obj v. induction levels as [|levels IH]; intros obj v; simpl; [done|].
  destruct (py_object h obj) as [|b|z|f|s|l|d|q] eqn:Eo; simpl; try (by intros [= <-]; simpl; split; [done|lia]).
  - intros (n & Hn & [= <-])%result_bind_ok. unfold extract_i64, in_i64 in Hn. destruct (_ && _) eqn:Er; [|done].
    injection Hn as <-. apply andb_true_iff in Er as [Hlo Hhi]. split; [|simpl; lia]. simpl. unfold number_from_i64.
    destruct (Z.leb_spec 0 z); simpl; rewrite andb_true_iff; split; lia.
  - unfold number_from_f64. destruct (f64_is_finite f) eqn:Ef; [|done]. intros [= <-]. split; [done|simpl; lia].
  - intros (t & Ht & [= <-])%result_bind_ok. unfold extract_string in Ht. destruct (valid_utf8 _) eqn:Eu; [|done].
    injection Ht as <-. split; [done|simpl; lia].
  - intros (out & Ho%collect_results_ok & [= <-])%result_bind_ok. split.
    + simpl. apply forallb_Forall. clear Eo. induction Ho as [|x y l out Hx Ho IHo]; [done|].
      constructor; [by eapply IH|done].
    + apply nesting_array. intros x Hx.
      apply list_elem_of_lookup_1 in Hx as [i Hi]. destruct (Forall2_lookup_r _ _ _ _ _ Ho Hi) as (o & _ & Hi2).
      by eapply IH.
  - intros (m & Hm & [= <-])%result_bind_ok.
    assert (∀ acc, entries_to_json h (to_json_within h levels) d acc = Ok m →
      (∀ k x, acc !! k = Some x → valid_utf8 (bytes k) = true ∧ crosses x = true ∧ (nesting x < levels)%nat) →
      ∀ k x, m !! k = Some x → valid_utf8 (bytes k) = true ∧ crosses x = true ∧ (nesting x < levels)%nat) as Hall.
    { clear Hm Eo. induction d as [|[k x] d IHd]; simpl; intros acc; [by intros [= <-]|].
      intros (key & Hk & (val & Hv & Hr)%result_bind_ok)%result_bind_ok Hacc. eapply IHd; [exact Hr|].
      intros k' x' [[<- <-]|[_ Hin]]%lookup_insert_Some; [|by apply Hacc].
      split; [|by apply IH in Hv]. destruct (cast_str _); [|done]. unfold extract_string in Hk.
      destruct (valid_utf8 (bytes _)) eqn:Eu; [|done]. by injection Hk as <-. }
    specialize (Hall ∅ Hm ltac:(by intros ??; rewrite lookup_empty)). split.
    + apply crosses_object. intros k x Hk. by destruct (Hall k x Hk) as (? & ? & _).
    + apply nesting_object. intros k x Hk. by destruct (Hall k x Hk) as (_ & _ & ?).
  - done.
Qed.

(** *** The round trip *)

(** What a conversion promises: fresh objects that read back as the value from any
    heap that keeps them. *)
Definition writes (f : PyHeap → positive * PyHeap) (v : Value) : Prop :=
  ∀ h, let '(a, h') := f h in
  (py_next h ≤ a < py_next h')%positive ∧
  (∀ b, (b < py_next h)%positive → py_object h' b = py_object h b) ∧
  ∀ h2 levels, (∀ b, (py_next h ≤ b < py_next h')%positive → py_object h2 b = py_object h' b) →
    to_json_within h2 levels a = if (nesting v <? levels)%nat then Ok v else Err DEPTH_ERROR.

Lemma py_alloc_spec o h :
  let '(a, h') := py_alloc o h in
  a = py_next h ∧ py_next h' = Pos.succ (py_next h) ∧ py_object h' a = o ∧
  ∀ b, (b < py_next h)%positive → py_object h' b = py_object h b.
Proof.
  unfold py_alloc. simpl. split_and!; [done|done|by rewrite Pos.eqb_refl|]. intros b Hb.
  destruct (Pos.eqb_spec b (py_next h)); [lia|done].
Qed.

#[local] Opaque py_alloc.

(** One object without parts. *)
Lemma writes_atom o v :
  nesting v = 0%nat → (∀ h2 levels a, py_object h2 a = o → to_json_within h2 (S levels) a = Ok v) →
  writes (py_alloc o) v.
Proof.
  intros Hn Hr h. pose proof (py_alloc_spec o h) as Ha. destruct (py_alloc o h) as [a h'].
  destruct Ha as (-> & Hn' & Ho & Hk). split_and!; [lia|lia|done|].
  intros h2 levels Hag. rewrite Hn. destruct levels as [|levels]; [done|]. apply Hr. by rewrite Hag by lia.
Qed.

Lemma thread_items_spec fs vs :
  Forall2 writes fs vs → ∀ h, let '(items, h') := thread_items fs h in
  (py_next h ≤ py_next h')%positive ∧
  (∀ b, (b < py_next h)%positive → py_object h' b = py_object h b) ∧
  ∀ h2 levels, (∀ b, (py_next h ≤ b < py_next h')%positive → py_object h2 b = py_object h' b) →
    collect_results (to_json_within h2 levels) items
    = if forallb (λ v, nesting v <? levels)%nat vs then Ok vs else Err DEPTH_ERROR.
Proof.
  induction 1 as [|f v fs vs Hf Hfs IH]; intros h; simpl; [split_and!; [lia|done|done]|].
  specialize (Hf h). destruct (f h) as [a h1]. destruct Hf as (Ha & Hk1 & Hr1).
  specialize (IH h1). destruct (thread_items fs h1) as [items h']. destruct IH as (Hn & Hk2 & Hr2).
  split_and!; [lia| |].
  - intros b Hb. rewrite Hk2 by lia. by apply Hk1.
  - intros h2 levels Hag. simpl. rewrite Hr1, Hr2.
    + destruct (nesting v <? levels)%nat; simpl; [|done]. by destruct (forallb _ vs).
    + intros b Hb. apply Hag. lia.
    + intros b Hb. rewrite Hag by lia. apply Hk2. lia.
Qed.

Lemma thread_entries_spec fs kvs :
  Forall2 (λ f kv, f.1 = kv.1 ∧ valid_utf8 (bytes kv.1) = true ∧ writes f.2 kv.2) fs kvs →
  ∀ h, let '(items, h') := thread_entries fs h in
  (py_next h ≤ py_next h')%positive ∧
  (∀ b, (b < py_next h)%positive → py_object h' b = py_object h b) ∧
  ∀ h2 levels acc, (∀ b, (py_next h ≤ b < py_next h')%positive → py_object h2 b = py_object h' b) →
    entries_to_json h2 (to_json_within h2 levels) items acc
    = if forallb (λ kv, nesting kv.2 <? levels)%nat kvs
      then Ok (foldl (λ m kv, <[kv.1 := kv.2]> m) acc kvs) else Err DEPTH_ERROR.
Proof.
  induction 1 as [|[k f] [k' v] fs kvs (Hk & Hu & Hf) Hfs IH]; intros h; simpl; [split_and!; [lia|done|done]|].
  simpl in Hk, Hu, Hf. subst k'. specialize (Hf h). destruct (f h) as [a h1]. destruct Hf as (Ha & Hk1 & Hr1).
  pose proof (py_alloc_spec (PyStr k) h1) as Hal. destruct (py_alloc (PyStr k) h1) as [key h2].
  destruct Hal as (-> & Hn2 & Ho2 & Hk2).
  specialize (IH h2). destruct (thread_entries fs h2) as [items h']. destruct IH as (Hn & Hk3 & Hr3).
  split_and!; [lia| |].
  - intros b Hb. rewrite Hk3, Hk2 by lia. by apply Hk1.
  - intros h3 levels acc Hag. simpl.
    rewrite (Hag (py_next h1)), Hk3, Ho2 by lia. simpl. unfold extract_string. rewrite Hu. simpl.
    rewrite Hr1.
    + destruct (nesting v <? levels)%nat; simpl; [|done]. apply Hr3. intros b Hb. apply Hag. lia.
    + intros b Hb. rewrite Hag, Hk3, Hk2 by lia. done.
Qed.

Lemma insert_all_lookup (kvs : list (string * Value)) (acc : gmap string Value) :
  NoDup kvs.*1 → foldl (λ m kv, <[kv.1 := kv.2]> m) acc kvs = list_to_map kvs ∪ acc.
Proof.
  revert acc. induction kvs as [|[k v] kvs IH]; intros acc; simpl; [by rewrite (left_id_L ∅ (∪))|].
  intros [Hn Hd]%NoDup_cons. rewrite IH by done. rewrite insert_union_singleton_l, (insert_union_singleton_l (list_to_map kvs)).
  rewrite (map_union_comm {[k := v]} (list_to_map kvs)); [by rewrite (assoc_L (∪))|].
  apply map_disjoint_singleton_l. by apply not_elem_of_list_to_map_1.
Qed.

Section RoundTrip.
Context `{order : HashOrder}.

Lemma forallb_nesting {A} (f : A → Value) l n :
  forallb (λ x, nesting (f x) <? n)%nat l = true ↔ ∀ x, x ∈ l → (nesting (f x) < n)%nat.
Proof.
  rewrite forallb_Forall, Forall_forall. by setoid_rewrite Nat.ltb_lt.
Qed.

(** A container of converted parts. *)
Lemma writes_array fs vs :
  Forall2 writes fs vs → writes (λ h, let '(items, h) := thread_items fs h in py_alloc (PyList items) h) (VArray vs).
Proof.
  intros Hw h. pose proof (thread_items_spec fs vs Hw h) as Hs. destruct (thread_items fs h) as [items h1].
  destruct Hs as (Hn & Hk & Hr). pose proof (py_alloc_spec (PyList items) h1) as Ha.
  destruct (py_alloc (PyList items) h1) as [a h']. destruct Ha as (-> & Hn' & Ho & Hk').
  split_and!; [lia|lia|intros b Hb; rewrite Hk' by lia; by apply Hk|].
  intros h2 [|levels] Hag; [done|].
  assert (forallb (λ v, nesting v <? levels)%nat vs = true ↔ (nesting (VArray vs) < S levels)%nat) as Hfit
    by (rewrite (forallb_nesting id); apply nesting_array).
  generalize dependent (nesting (VArray vs)). intros n Hfit.
  simpl. rewrite (Hag (py_next h1)), Ho by lia. simpl.
  rewrite Hr by (intros b Hb; rewrite Hag by lia; apply Hk'; lia).
  destruct (forallb _ vs), (Nat.ltb_spec n (S levels)); simpl; try done; naive_solver lia.
Qed.

Lemma writes_object fs kvs m :
  Forall2 (λ f kv, f.1 = kv.1 ∧ valid_utf8 (bytes kv.1) = true ∧ writes f.2 kv.2) fs kvs →
  kvs ≡ₚ map_to_list m →
  writes (λ h, let '(items, h) := thread_entries fs h in py_alloc (PyDict items) h) (VObject m).
Proof.
  intros Hw Hp h. pose proof (thread_entries_spec fs kvs Hw h) as Hs. destruct (thread_entries fs h) as [items h1].
  destruct Hs as (Hn & Hk & Hr). pose proof (py_alloc_spec (PyDict items) h1) as Ha.
  destruct (py_alloc (PyDict items) h1) as [a h']. destruct Ha as (-> & Hn' & Ho & Hk').
  split_and!; [lia|lia|intros b Hb; rewrite Hk' by lia; by apply Hk|].
  assert (NoDup kvs.*1) as Hnd by (rewrite Hp; apply NoDup_fst_map_to_list).
  intros h2 [|levels] Hag; [done|].
  assert (forallb (λ kv, nesting kv.2 <? levels)%nat kvs = true ↔ (nesting (VObject m) < S levels)%nat) as Hfit.
  { rewrite (forallb_nesting snd), <- nesting_object. setoid_rewrite Hp. split.
    - intros Hall k x Hx%elem_of_map_to_list. by apply (Hall (k, x)).
    - intros Hall [k x] Hx%elem_of_map_to_list. by eapply Hall. }
  generalize dependent (nesting (VObject m)). intros n Hfit.
  simpl. rewrite (Hag (py_next h1)), Ho by lia. simpl.
  rewrite Hr by (intros b Hb; rewrite Hag by lia; apply Hk'; lia).
  destruct (forallb _ kvs), (Nat.ltb_spec n (S levels)); simpl; try done; try naive_solver lia.
  rewrite insert_all_lookup by done. by rewrite (right_id_L ∅ (∪)), (list_to_map_proper kvs _ Hnd Hp), list_to_map_to_list.
Qed.

Lemma to_py_writes v : crosses v = true → writes (json_value_to_pyobj v) v.
Proof.
  induction v as [|b|n|s|l IH|m IH] using Value_nested_ind; intros Hc; simpl json_value_to_pyobj.
  - apply writes_atom; [done|]. intros h2 levels a Ha. simpl. by rewrite Ha.
  - apply writes_atom; [done|]. intros h2 levels a Ha. simpl. by rewrite Ha.
  - simpl in Hc. destruct n as [z|z|f]; simpl in Hc |- *.
    + apply andb_true_iff in Hc as [Hlo Hhi]. rewrite Hhi. apply writes_atom; [done|]. intros h2 levels a Ha.
      simpl. rewrite Ha. simpl. unfold extract_i64, in_i64, number_from_i64. rewrite Hhi.
      destruct (Z.leb_spec i64_min z) as [|Hbad]; [simpl; by rewrite Hlo|]. unfold i64_min in Hbad. lia.
    + apply andb_true_iff in Hc as [Hlo Hhi]. apply writes_atom; [done|]. intros h2 levels a Ha.
      simpl. rewrite Ha. simpl. unfold extract_i64, in_i64, number_from_i64. rewrite Hlo.
      destruct (Z.leb_spec z i64_max) as [|Hbad]; [|unfold i64_max in Hbad; lia]. simpl.
      destruct (Z.leb_spec 0 z); [lia|done].
    + apply writes_atom; [done|]. intros h2 levels a Ha. simpl. rewrite Ha. simpl. unfold number_from_f64. by rewrite Hc.
  - apply writes_atom; [done|]. intros h2 levels a Ha. simpl. rewrite Ha. simpl. unfold extract_string. simpl in Hc. by rewrite Hc.
  - apply writes_array. apply Forall2_fmap_l. simpl in Hc. apply forallb_Forall in Hc.
    induction IH as [|x l Hx _ IHl]; [done|]. apply Forall_cons in Hc as [Hcx Hcl]. constructor; [by apply Hx|by apply IHl].
  - pose proof (map_iter_perm (json_value_to_pyobj <$> m)) as Hp. rewrite map_to_list_fmap in Hp.
    apply Permutation_map_inv in Hp as (kvs & Heq & Hp). rewrite Heq.
    apply (writes_object _ kvs); [|by symmetry]. apply Forall2_fmap_l, Forall_Forall2_diag, Forall_forall.
    intros [k x] Hx. rewrite <- Hp, elem_of_map_to_list in Hx. rewrite crosses_object in Hc.
    destruct (Hc k x Hx) as [Hu Hcx]. split_and!; [done|done|]. by apply (IH k x Hx).
Qed.

Lemma pyobj_bounded h obj depth v :
  pyobj_to_json_value h obj depth = Ok v → crosses v = true ∧ (nesting v + depth ≤ 128)%nat.
Proof. intros Hv. apply to_json_bounded in Hv as [Hc Hn]. split; [done|lia]. Qed.

Lemma py_roundtrip v h :
  crosses v = true → (nesting v ≤ 128)%nat →
  let '(obj, h') := json_value_to_pyobj v h in
  (∀ b, (b < py_next h)%positive → py_object h' b = py_object h b) ∧ pyobj_to_json_value h' obj 0 = Ok v.
Proof.
  intros Hc Hn. pose proof (to_py_writes v Hc h) as Hw. destruct (json_value_to_pyobj v h) as [obj h'].
  destruct Hw as (Ha & Hk & Hr). split; [done|]. unfold pyobj_to_json_value. rewrite Hr by done.
  destruct (Nat.ltb_spec (nesting v) (129 - 0)); [done|lia].
Qed.

(** An object is written as a dict. *)
Lemma object_is_dict m h :
  is_Some (cast_dict (py_object (json_value_to_pyobj (VObject m) h).2 (json_value_to_pyobj (VObject m) h).1)).
Proof.
  simpl. destruct (thread_entries _ h) as [items h1]. pose proof (py_alloc_spec (PyDict items) h1) as Ha.
  destruct (py_alloc (PyDict items) h1) as [a h']. destruct Ha as (_ & _ & Ho & _). simpl. rewrite Ho. by eexists.
Qed.

(** C38: what crosses the Python boundary, in both directions.  From Python: a
    conversion ends on every heap, cyclic ones included, and what it accepts has
    only 64-bit integers, finite floats and UTF-8 text, at most 128 containers
    deep.  And every such value, written to Python, is read back as it was, also
    after Python has gone on allocating; a deeper one is refused, not cut. *)
Theorem py_boundary :
  (∀ h obj depth v, pyobj_to_json_value h obj depth = Ok v → crosses v = true ∧ (nesting v + depth ≤ 128)%nat) ∧
  (∀ v h, crosses v = true →
     let '(obj, h') := json_value_to_pyobj v h in
     (∀ b, (b < py_next h)%positive → py_object h' b = py_object h b) ∧
     ∀ h2, (∀ b, (b < py_next h')%positive → py_object h2 b = py_object h' b) →
       pyobj_to_json_value h2 obj 0 = if (nesting v <=? 128)%nat then Ok v else Err DEPTH_ERROR).
Proof.
  split.
  - apply pyobj_bounded.
  - intros v h Hc. pose proof (to_py_writes v Hc h) as Hw. destruct (json_value_to_pyobj v h) as [obj h'].
    destruct Hw as (Ha & Hk & Hr). split; [done|]. intros h2 Hag. unfold pyobj_to_json_value.
    rewrite Hr by (intros b Hb; apply Hag; lia). done.
Qed.
End RoundTrip.

Module PyConvDemo.

#[local] Instance forward : HashOrder := Config.Demo.forward.

Definition empty_heap : PyHeap := mkPyHeap (λ _, PyNone) 1.
Definition heap_of (l : list PyObject) : PyHeap :=
  mkPyHeap (λ a, default PyNone (l !! pred (Pos.to_nat a))) (Pos.of_succ_nat (length l)).

Definition sample : Value :=
  VObject {[ "ok" := VBool true; "n" := VNumber (NegInt (-5)); "l" := VArray [Null; VString "x"] ]}.

Lemma boundary_witness :
  let '(obj, h) := json_value_to_pyobj sample empty_heap in pyobj_to_json_value h obj 0 = Ok sample.
Proof.
  pose proof (proj2 py_boundary sample empty_heap ltac:(by vm_compute)) as Hw.
  destruct (json_value_to_pyobj sample empty_heap) as [obj h]. destruct Hw as [_ Hr].
  rewrite Hr by done. by vm_compute.
Defined.

(** A list that holds itself is refused; one that is merely shared is not. *)
Example cyclic_list : pyobj_to_json_value (heap_of [PyList [1%positive]]) 1 0 = Err DEPTH_ERROR.
Proof. by vm_compute. Qed.
Example shared_list :
  pyobj_to_json_value (heap_of [PyList [2; 2]%positive; PyList []]) 1 0 = Ok (VArray [VArray []; VArray []]).
Proof. by vm_compute. Qed.
(** [True] is an [int] too, and is read as a boolean. *)
Example true_is_bool : pyobj_to_json_value (heap_of [PyBool true]) 1 0 = Ok (VBool true).
Proof. by vm_compute. Qed.
(** An integer beyond 64 bits is an [OverflowError], not a [ValueError]. *)
Example big_int_overflows : pyobj_to_json_value (heap_of [PyInt (2 ^ 63)]) 1 0 = Err PyOverflowError.
Proof. by vm_compute. Qed.
(** A JSON integer above [i64::MAX] becomes a float and loses its last digits. *)
Example u64_loses_digits :
  let '(obj, h) := json_value_to_pyobj (VNumber (PosInt (2 ^ 63 + 1))) empty_heap in
  py_object h obj = PyFloat (f64_of_Z (2 ^ 63)).
Proof. by vm_compute. Qed.
Example int_key : pyobj_to_json_value (heap_of [PyDict [(2, 2)%positive]; PyInt 1]) 1 0 = Err KEY_ERROR.
Proof. by vm_compute. Qed.

End PyConvDemo.
