(* ===== verification/Builtins.v ===== *)
(** * The builtin set (cpex-builtins/src/lib.rs and the factories of builtins/plugins)

    The factories of the five builtin plugins, the table that registers them by
    [kind], and [install_builtins], which adds the APL visitor with the enabled
    PDP and session-store factories.  The cargo features are a set of names. *)

From S2P Require Import Prelude RustStd F64 Json Yaml Routing Extensions PluginTypes Registry Config Executor Manager.
From S2P Require Import ConfigLoad Message Delegation Pipelines Session Dispatch Visitor JwtKeys Jwt Idp OAuth Ciba Scanner Hooks.

Local Open Scope string_scope.
Local Open Scope list_scope.

(** ** Kinds *)

Definition JWT_KIND : string := "identity/jwt".
Definition OAUTH_KIND : string := "delegator/oauth".
Definition CIBA_KIND : string := "elicitation/ciba".
Definition PII_KIND : string := "validator/pii-scan".
Definition AUDIT_KIND : string := "audit/logger".
Definition VALKEY_KIND : string := "valkey".

Inductive BuiltinFactory :=
| JwtIdentityFactory | OAuthDelegatorFactory | CibaApproverFactory | PiiScannerFactory | AuditLoggerFactory.
Inductive BuiltinPdp := CedarDirectPdpFactory | CelPdpFactory | OpaPdpFactory.
Inductive BuiltinStore := ValkeySessionStoreFactory.

#[global] Instance builtin_kinds : FactoryKind BuiltinPdp BuiltinStore := {
  pdp_kind f := match f with
                | CedarDirectPdpFactory => "cedar-direct"
                | CelPdpFactory => "cel"
                | OpaPdpFactory => "opa"
                end;
  store_kind _ := VALKEY_KIND
}.

(** ** The factories *)

Section Create.
Context {A K J : Type} `{keys : KeyLib K J} `{jwt_serde : JwtSerde A}.
Context `{lib : IdpLib} `{oauth_serde : OAuthSerde} `{ciba_serde : CibaSerde}.
Context `{regex : RegexCrate} `{scan_serde : ScanSerde}.

(** The created plugin, which is its own handler behind a typed adapter. *)
Inductive BuiltinPlugin :=
| BuiltJwt (r : JwtIdentityResolver A K)
| BuiltOAuth (d : OAuthDelegator)
| BuiltCiba (a : CibaApprover)
| BuiltPii (s : PiiScanner)
| BuiltAudit (l : AuditLogger).
Abbreviation Instance_ := (PluginInstance BuiltinPlugin BuiltinPlugin).

(** A factory with one handler, on the hook of its plugin. *)
Definition on_one_hook (hook : string) (plugin : BuiltinPlugin) : Instance_ := mkInstance plugin [(hook, plugin)].

Definition jwt_create (config : PluginConfig) : Result Instance_ PluginError :=
  let? resolver := jwt_new config in Ok (on_one_hook HOOK_IDENTITY_RESOLVE (BuiltJwt resolver)).
Definition oauth_create (config : PluginConfig) : Result Instance_ PluginError :=
  let? delegator := oauth_new config in Ok (on_one_hook HOOK_TOKEN_DELEGATE (BuiltOAuth delegator)).
Definition ciba_create (config : PluginConfig) : Result Instance_ PluginError :=
  let? approver := ciba_new config in Ok (on_one_hook HOOK_ELICIT (BuiltCiba approver)).

Definition instance_map {P Q} (f : P → Q) (i : PluginInstance P P) : PluginInstance Q Q :=
  mkInstance (f (pi_plugin i)) (prod_map id f <$> pi_handlers i).

Definition builtin_create (factory : BuiltinFactory) (config : PluginConfig) : Result Instance_ PluginError :=
  match factory with
  | JwtIdentityFactory => jwt_create config
  | OAuthDelegatorFactory => oauth_create config
  | CibaApproverFactory => ciba_create config
  | PiiScannerFactory => result_map (instance_map BuiltPii) (scanner_create config)
  | AuditLoggerFactory => result_map (instance_map BuiltAudit) (logger_create config)
  end.

#[global] Instance builtin_factory {W} : PluginFactory BuiltinFactory BuiltinPlugin BuiltinPlugin W :=
  λ factory config w, (builtin_create factory config, w).

(** The hooks a factory registers its plugin on. *)
Definition builtin_hooks (factory : BuiltinFactory) (config : PluginConfig) : list string :=
  match factory with
  | JwtIdentityFactory => [HOOK_IDENTITY_RESOLVE]
  | OAuthDelegatorFactory => [HOOK_TOKEN_DELEGATE]
  | CibaApproverFactory => [HOOK_ELICIT]
  | PiiScannerFactory | AuditLoggerFactory => pcf_hooks config
  end.

(** A builtin that is created is registered on at least one hook, on the hooks of
    its factory, with one and the same plugin behind each. *)
Lemma builtin_create_hooks factory config i :
  builtin_create factory config = Ok i →
  pi_handlers i = (λ h, (h, pi_plugin i)) <$> builtin_hooks factory config ∧ pi_handlers i ≠ [].
Proof.
  assert (∀ {P} label purpose (p : P) (f : P → BuiltinPlugin) i,
    result_map (instance_map f) (on_every_hook label purpose config p) = Ok i →
    pi_handlers i = (λ h, (h, pi_plugin i)) <$> pcf_hooks config ∧ pi_handlers i ≠ []) as Hevery.
  { intros P label purpose p f i'. unfold on_every_hook. destruct (pcf_hooks config) as [|h hs]; simpl; [done|].
    intros [= <-]. simpl. split; [|done]. f_equal. rewrite <- list_fmap_compose. done. }
  destruct factory; simpl; unfold jwt_create, oauth_create, ciba_create, scanner_create, logger_create.
  - by intros (r & _ & [= <-])%result_bind_ok.
  - by intros (r & _ & [= <-])%result_bind_ok.
  - by intros (r & _ & [= <-])%result_bind_ok.
  - destruct (scanner_new config); simpl; [apply Hevery|done].
  - destruct (logger_new config); simpl; [apply Hevery|done].
Qed.

End Create.

(** ** Registration (lib.rs) *)

(** The table of the macro: feature, kind and factory. *)
Definition BUILTINS : list (string * (string * BuiltinFactory)) :=
  [("identity-jwt", (JWT_KIND, JwtIdentityFactory));
   ("delegator-oauth", (OAUTH_KIND, OAuthDelegatorFactory));
   ("elicitation-ciba", (CIBA_KIND, CibaApproverFactory));
   ("pii-scanner", (PII_KIND, PiiScannerFactory));
   ("audit-logger", (AUDIT_KIND, AuditLoggerFactory))].

Section Register.
Context {P H V Pay : Type} (features : gset string).

(** A step compiled in with its feature. *)
Definition cfg {T} (feature : string) (step : T → T) (x : T) : T :=
  if bool_decide (feature ∈ features) then step x else x.

Definition register_builtins (mgr : PluginManager P H BuiltinFactory V Pay) : PluginManager P H BuiltinFactory V Pay :=
  foldl (λ m '(feature, (kind, factory)), cfg feature (λ m, register_factory m kind factory) m) mgr BUILTINS.

Definition builtin_pdps : list BuiltinPdp :=
  cfg "opa" (λ l, l ++ [OpaPdpFactory])
    (cfg "cel" (λ l, l ++ [CelPdpFactory]) (cfg "cedar-direct" (λ l, l ++ [CedarDirectPdpFactory]) [])).
Definition builtin_session_store_factories : list BuiltinStore :=
  cfg "valkey" (λ l, l ++ [ValkeySessionStoreFactory]) [].

(** [AplOptions::in_process]. *)
Definition in_process {PF SF R} : AplOptions PF SF R MemorySessionStore := mkAplOptions memory_store_new [] [] [] None.

(** [wrap] makes the visitor the manager holds. *)
Definition install_builtins {R} `{PdpBackend R W}
    (wrap : AplConfigVisitor BuiltinPdp BuiltinStore * VisitorState R MemorySessionStore → V)
    (mgr : PluginManager P H BuiltinFactory V Pay) : PluginManager P H BuiltinFactory V Pay :=
  let mgr := register_builtins mgr in
  let opts := in_process (PF := BuiltinPdp) (SF := BuiltinStore) (R := R) in
  let opts := mkAplOptions (ao_session_store opts) (ao_pdps opts) builtin_pdps builtin_session_store_factories
                (ao_base_capabilities opts) in
  register_visitor mgr (wrap (register_apl opts)).

Lemma find_fresh {A} (key : A → string) (Q : A → bool) l k :
  k ∉ key <$> l → find (λ x, Q x && String.eqb (key x) k) l = None.
Proof.
  induction l as [|x l IH]; simpl; [done|]. intros [Hne Hn]%not_elem_of_cons.
  destruct (String.eqb_spec (key x) k); [done|]. rewrite andb_false_r. by apply IH.
Qed.

Lemma register_all_lookup (mgr : PluginManager P H BuiltinFactory V Pay) kind l :
  NoDup ((λ b, b.2.1) <$> l) →
  mg_factories (foldl (λ m '(feature, (kind, factory)), cfg feature (λ m, register_factory m kind factory) m) mgr l) !! kind
  = match find (λ b, bool_decide (b.1 ∈ features) && String.eqb b.2.1 kind) l with
    | Some (_, (_, factory)) => Some factory
    | None => mg_factories mgr !! kind
    end.
Proof.
  revert mgr. induction l as [|[feat [k f]] l IH]; intros mgr; simpl; [done|]. intros [Hn Hd]%NoDup_cons.
  rewrite IH by done. unfold cfg. case_bool_decide; simpl; [|done].
  destruct (String.eqb_spec k kind) as [->|]; [|by rewrite lookup_insert_ne].
  by rewrite (find_fresh (λ b, b.2.1)), lookup_insert_eq.
Qed.

#[local] Arguments pdp_kind : simpl never.

Lemma register_pdps_lookup (v : AplConfigVisitor BuiltinPdp BuiltinStore) kind l :
  NoDup (pdp_kind <$> l) →
  av_pdp_factories (foldl register_pdp_factory v l) !! kind
  = match find (λ f, String.eqb (pdp_kind f) kind) l with Some f => Some f | None => av_pdp_factories v !! kind end.
Proof.
  revert v. induction l as [|f l IH]; intros v; simpl; [done|]. intros [Hn Hd]%NoDup_cons. rewrite IH by done. simpl.
  destruct (String.eqb_spec (pdp_kind f) kind) as [<-|]; [|by rewrite lookup_insert_ne].
  pose proof (find_fresh pdp_kind (λ _, true) l _ Hn) as Hf. simpl in Hf. by rewrite Hf, lookup_insert_eq.
Qed.

(** A kind is known after the registration exactly if it was before or its
    feature is compiled in, and then it is served by the builtin. *)
Lemma register_builtins_lookup (mgr : PluginManager P H BuiltinFactory V Pay) kind :
  mg_factories (register_builtins mgr) !! kind
  = match find (λ b, bool_decide (b.1 ∈ features) && String.eqb b.2.1 kind) BUILTINS with
    | Some (_, (_, factory)) => Some factory
    | None => mg_factories mgr !! kind
    end.
Proof. apply register_all_lookup. simpl. by apply (bool_decide_unpack _). Qed.

(** One PDP factory for each enabled feature, in the table of the visitor. *)
Lemma installed_pdp_factories {R} `{PdpBackend R W} kind :
  av_pdp_factories (register_apl (R := R) (mkAplOptions memory_store_new [] builtin_pdps
     builtin_session_store_factories None)).1 !! kind
  = find (λ f, String.eqb (pdp_kind f) kind) builtin_pdps.
Proof.
  unfold register_apl. simpl.
  assert (∀ (v : AplConfigVisitor BuiltinPdp BuiltinStore) l,
    av_pdp_factories (foldl register_session_store_factory v l) = av_pdp_factories v) as ->.
  { intros v l. revert v. induction l as [|f l IH]; intros v; simpl; [done|]. by rewrite IH. }
  rewrite register_pdps_lookup; [by destruct (find _ _)|].
  unfold builtin_pdps, cfg. repeat case_bool_decide; by apply (bool_decide_unpack _).
Qed.

End Register.
