(* ===== verification/PyBind.v ===== *)
(** * The Python bindings (bindings/python/src: conversions, result, manager, lib)

    [PluginManager] and [PipelineResult] as Python sees them.  The JSON side of
    serde at the types that cross is a class; how an awaited call ends (it
    finishes, panics, is cancelled, or the clock runs out) is an argument. *)

From S2P Require Import Prelude RustStd F64 Json Yaml JsonMerge ExtData Routing Extensions PluginTypes Registry.
From S2P Require Import Orchestration Executor Config ConfigLoad Manager Session Message Delegation Dispatch Visitor.
From S2P Require Import Builtins PyConv.

Local Open Scope string_scope.
Local Open Scope list_scope.

(** ** Payloads (conversions.rs) *)

Record PyGenericPayload := mkPyGeneric { pg_value : Value }.

Class PySerde := {
  message_from_value : Value → Result MessagePayload string;
  message_to_value : MessagePayload → Result Value string;
  extensions_of_value : Value → Result Extensions string;
  extensions_to_value : Extensions → Result Value string;
  table_of_value : Value → Result PluginContextTable string;
  table_to_value : PluginContextTable → Result Value string;
  violation_to_value : PluginViolation → Result Value string;
  record_to_value : PluginErrorRecord → Result Value string
}.

Section Payloads.
Context {Pay : Type} `{serde : PySerde} `{msg : Erased MessagePayload Pay} `{gen : Erased PyGenericPayload Pay}.

Definition resolve_payload (hook_name : string) (value : Value) : Result Pay PyErr :=
  if starts_with "cmf." hook_name then
    map_err (λ e, PyValueError ("cpex: payload for '" +:+ hook_name +:+ "' is not a valid MessagePayload: " +:+ e))
      (result_map erase (message_from_value value))
  else Ok (erase (mkPyGeneric value)).

Definition result_ok {T E} (r : Result T E) : option T := match r with Ok v => Some v | Err _ => None end.

Definition serialize_payload (payload : Pay) : option Value :=
  match downcast payload with
  | Some mp => result_ok (message_to_value mp)
  | None =>
      match downcast payload with
      | Some gp => Some (pg_value gp)
      | None => None
      end
  end.

End Payloads.

Definition extensions_from_value `{PySerde} (value : Value) : Result Extensions PyErr :=
  map_err (λ e, PyValueError ("cpex: extensions conversion failed: " +:+ e)) (extensions_of_value value).
Definition context_table_from_value `{PySerde} (value : Value) : Result (option PluginContextTable) PyErr :=
  match value with
  | Null => Ok None
  | _ => map_err (λ e, PyValueError ("cpex: context_table conversion failed: " +:+ e))
           (result_map Some (table_of_value value))
  end.

(** ** Results (result.rs) *)

Record PyPipelineResult := mkPyResult {
  py_continue_processing : bool;
  py_modified_payload : option Value;
  py_payload_modified : bool;
  py_modified_extensions : option Value;
  py_violation : option Value;
  py_errors : list Value;
  py_metadata : option Value;
  py_context_table : Value
}.

Section Getters.
Context `{order : HashOrder}.

(** [json_value_to_pyobj] and [cast_into::<PyDict>]. *)
Definition as_dict (what : string) (v : Value) (h : PyHeap) : Result positive PyErr * PyHeap :=
  let '(obj, h) := json_value_to_pyobj v h in
  (match cast_dict (py_object h obj) with
   | Some _ => Ok obj
   | None => Err (PyRuntimeError ("cpex: " +:+ what +:+ " is not a dict"))
   end, h).
Definition opt_dict (what : string) (v : option Value) (h : PyHeap) : Result (option positive) PyErr * PyHeap :=
  match v with
  | None => (Ok None, h)
  | Some v => let '(r, h) := as_dict what v h in (result_map Some r, h)
  end.

Definition get_continue_processing (self : PyPipelineResult) : bool := py_continue_processing self.
Definition get_modified_payload (self : PyPipelineResult) := opt_dict "modified_payload" (py_modified_payload self).
Definition get_payload_modified (self : PyPipelineResult) : bool := py_payload_modified self.
Definition get_modified_extensions (self : PyPipelineResult) :=
  opt_dict "modified_extensions" (py_modified_extensions self).
Definition get_violation (self : PyPipelineResult) := opt_dict "violation" (py_violation self).
(** [collect] stops at the first error. *)
Fixpoint error_dicts (errors : list Value) (h : PyHeap) : Result (list positive) PyErr * PyHeap :=
  match errors with
  | [] => (Ok [], h)
  | v :: errors =>
      let '(r, h) := as_dict "error entry" v h in
      match r with
      | Err e => (Err e, h)
      | Ok d => let '(rest, h) := error_dicts errors h in (result_map (cons d) rest, h)
      end
  end.
Definition get_errors (self : PyPipelineResult) := error_dicts (py_errors self).
Definition get_metadata (self : PyPipelineResult) := opt_dict "metadata" (py_metadata self).
Definition get_context_table (self : PyPipelineResult) := as_dict "context_table" (py_context_table self).

Definition show_bool (b : bool) : string := if b then "true" else "false".
Definition py_repr (self : PyPipelineResult) : string :=
  "PipelineResult(continue_processing=" +:+ show_bool (py_continue_processing self) +:+ ", violation="
    +:+ (if is_none (py_violation self) then "None" else "Some(...)") +:+ ", errors="
    +:+ show_Z (Z.of_nat (length (py_errors self))) +:+ ")".

End Getters.

(** [option.map(to_value).transpose()], with the message of the failure. *)
Definition opt_to_value {T} (what : string) (to_value : T → Result Value string) (x : option T) :
    Result (option Value) PyErr :=
  match x with
  | None => Ok None
  | Some x => map_err (λ e, PyRuntimeError ("cpex: " +:+ what +:+ " serialization failed: " +:+ e))
                (result_map Some (to_value x))
  end.

Definition py_record : PluginErrorRecord :=
  mkErrorRecord "<py>" "modified payload could not be serialised across the PyO3 boundary"
    (Some "py_serialize_error") ∅ None.

Definition pipeline_result_to_py {Pay} `{PySerde} `{Erased MessagePayload Pay} `{Erased PyGenericPayload Pay}
    (result : PipelineResult Pay) : Result PyPipelineResult PyErr :=
  let '(modified_payload_value, errors) :=
    match pr_modified_payload result with
    | None => (None, pr_errors result)
    | Some p =>
        match serialize_payload p with
        | Some v => (Some v, pr_errors result)
        | None => (None, pr_errors result ++ [py_record])
        end
    end in
  let? modified_extensions_value :=
    opt_to_value "modified_extensions" extensions_to_value (pr_modified_extensions result) in
  let? violation_value := opt_to_value "violation" violation_to_value (pr_violation result) in
  let? errors_value :=
    map_err (λ e, PyRuntimeError ("cpex: errors serialization failed: " +:+ e)) (collect_results record_to_value errors) in
  let? context_table_value :=
    map_err (λ e, PyRuntimeError ("cpex: context_table serialization failed: " +:+ e))
      (table_to_value (pr_context_table result)) in
  Ok (mkPyResult (pr_continue_processing result) modified_payload_value (pr_payload_modified result)
        modified_extensions_value violation_value errors_value (pr_metadata result) context_table_value).

(** ** The manager (manager.rs) *)

Definition PY_WALL_CLOCK_TIMEOUT : Z := 60.

(** How an awaited call ends; the other endings leave a state behind.  A panic
    carries a text if its payload is one. *)
Inductive PyEnding (S : Type) :=
| PyFinishes
| PyPanics (text : option string) (after : S)
| PyCancelled (after : S)
| PyElapses (after : S).
Arguments PyFinishes {S}.
Arguments PyPanics {S}.
Arguments PyCancelled {S}.
Arguments PyElapses {S}.

Section Manager.
Context {P H V Pay W R : Type}.
Context `{HookHandler H Pay W} `{Timer W} `{Runtime W}.
Context `{PluginFactory BuiltinFactory P H W} `{Plugin P W} `{HookTypeName H} `{UuidSource W}.
Context `{TaskRuntime H Pay W} `{YamlToJson} `{YamlLib} `{SerdeConfig} `{WildMatch} `{order : HashOrder}.
Context `{ConfigVisitor P H BuiltinFactory V Pay W} `{PdpBackend R W}.
Context `{serde : PySerde} `{msg : Erased MessagePayload Pay} `{gen : Erased PyGenericPayload Pay}.
(** The features compiled in, and the visitor as the manager holds it. *)
Context (features : gset string).
Context (wrap : AplConfigVisitor BuiltinPdp BuiltinStore * VisitorState R MemorySessionStore → V).

Abbreviation State := (PluginManager P H BuiltinFactory V Pay * Env W)%type.

Definition register_builtin_factories (m : PluginManager P H BuiltinFactory V Pay) :=
  install_builtins features wrap m.

(** [read] is what reading the file gives. *)
Definition py_manager_new (config_path : string) (read : Result string string) (env : Env W) :
    Result State PyErr :=
  match read with
  | Err e => Err (PyValueError ("cpex: cannot read config file '" +:+ config_path +:+ "': " +:+ e))
  | Ok yaml =>
      let manager := register_builtin_factories (manager_new manager_config_default) in
      match load_config_yaml yaml (manager, env) with
      | (Ok _, st) => Ok st
      | (Err e, _) => Err (plugin_error_to_pyerr e)
      end
  end.

(** A panic is raised by the bridge as [RustPanic]; the task of [future_into_py]
    is not cancelled from inside. *)
Definition py_initialize (ending : PyEnding State) (st : State) : Result unit PyErr * State :=
  match ending with
  | PyFinishes => let '(r, st) := initialize st in (map_err plugin_error_to_pyerr r, st)
  | PyElapses after => (Err (PyTimeoutError "cpex: PluginManager::initialize timed out"), after)
  | PyPanics _ after | PyCancelled after => (Err PyRustPanic, after)
  end.
Definition py_shutdown (ending : PyEnding State) (st : State) : Result unit PyErr * State :=
  match ending with
  | PyFinishes => (Ok tt, shutdown st)
  | PyElapses after => (Err (PyTimeoutError "cpex: PluginManager::shutdown timed out"), after)
  | PyPanics _ after | PyCancelled after => (Err PyRustPanic, after)
  end.

Definition invoke_with_timeout (hook_name : string) (rust_payload : Pay) (rust_extensions : Extensions)
    (rust_context : option PluginContextTable) (timeout_secs : Z) (ending : PyEnding State) (st : State) :
    Result PyPipelineResult PyErr * State :=
  match ending with
  | PyElapses after =>
      (Err (PyTimeoutError ("cpex: invoke_hook timed out after " +:+ show_Z timeout_secs +:+ "s")), after)
  | PyPanics text after =>
      (Err (PyRuntimeError ("cpex: plugin panicked: " +:+ default "unknown panic" text)), after)
  | PyCancelled after => (Err (PyRuntimeError "cpex: plugin task was cancelled"), after)
  | PyFinishes =>
      let '(pipeline_result, st) := invoke_by_name hook_name rust_payload rust_extensions rust_context st in
      (pipeline_result_to_py pipeline_result, st)
  end.

(** The part of [invoke_hook] that holds the interpreter lock. *)
Definition py_arguments (h : PyHeap) (hook_name : string) (payload : positive) (extensions : option positive)
    (context_table : option positive) : Result (Pay * Extensions * option PluginContextTable) PyErr :=
  let? payload_value := pyobj_to_json_value h payload 0 in
  let? rust_payload := resolve_payload hook_name payload_value in
  let? ext_value := match extensions with None => Ok (VObject ∅) | Some o => pyobj_to_json_value h o 0 end in
  let? rust_extensions := extensions_from_value ext_value in
  let? ctx_value := match context_table with None => Ok Null | Some o => pyobj_to_json_value h o 0 end in
  let? rust_context := context_table_from_value ctx_value in
  Ok (rust_payload, rust_extensions, rust_context).

Definition py_invoke_hook (h : PyHeap) (hook_name : string) (payload : positive) (extensions : option positive)
    (context_table : option positive) (ending : PyEnding State) (st : State) :
    Result PyPipelineResult PyErr * State :=
  match py_arguments h hook_name payload extensions context_table with
  | Err e => (Err e, st)
  | Ok (p, x, t) => invoke_with_timeout hook_name p x t PY_WALL_CLOCK_TIMEOUT ending st
  end.

End Manager.

(** ** The module (lib.rs) *)

Definition py_worker_threads_from_env (var : option string) : option Z :=
  raw ← var; n ← parse_u64 raw; if (0 <? n)%Z then Some n else None.
(** The threads the module's runtime is built with, or its default. *)
Definition py_lib_init (var : option string) : option Z := py_worker_threads_from_env var.

(** ** Facts *)


(** A field that is there is the written value of what it is of. *)
Definition written {T} (to_value : T → Result Value string) (x : option T) (v : option Value) : Prop :=
  option_Forall2 (λ x v, to_value x = Ok v) x v.

Lemma opt_to_value_ok {T} what (to_value : T → Result Value string) x v :
  opt_to_value what to_value x = Ok v → written to_value x v.
Proof.
  destruct x as [x|]; simpl; [|intros [= <-]; constructor].
  destruct (to_value x) as [w|] eqn:E; simpl; [intros [= <-]; by constructor|done].
Qed.

(** What Python is told of a finished pipeline: every field is the serialised value
    of the field of the result. *)
Definition told `{PySerde} `{Erased MessagePayload Pay} `{Erased PyGenericPayload Pay}
    (result : PipelineResult Pay) (r : PyPipelineResult) : Prop :=
  py_continue_processing r = pr_continue_processing result ∧
  written violation_to_value (pr_violation result) (py_violation r) ∧
  written extensions_to_value (pr_modified_extensions result) (py_modified_extensions r) ∧
  table_to_value (pr_context_table result) = Ok (py_context_table r) ∧
  py_payload_modified r = pr_payload_modified result ∧
  py_metadata r = pr_metadata result ∧
  py_modified_payload r = pr_modified_payload result ≫= serialize_payload ∧
  ∃ errors, Forall2 (λ e v, record_to_value e = Ok v) errors (py_errors r) ∧
    errors = pr_errors result ++
      match pr_modified_payload result with
      | Some p => if is_none (serialize_payload p) then [py_record] else []
      | None => []
      end.

Lemma result_to_py_told `{PySerde} `{Erased MessagePayload Pay} `{Erased PyGenericPayload Pay}
    (result : PipelineResult Pay) r :
  pipeline_result_to_py result = Ok r → told result r.
Proof.
  unfold pipeline_result_to_py, told.
  set (pe := match pr_modified_payload result with None => _ | Some p => _ end).
  assert (pe = (pr_modified_payload result ≫= serialize_payload,
    pr_errors result ++ match pr_modified_payload result with
      | Some p => if is_none (serialize_payload p) then [py_record] else [] | None => [] end)) as ->.
  { subst pe. destruct (pr_modified_payload result) as [p|]; simpl; [|by rewrite app_nil_r].
    destruct (serialize_payload p); simpl; [by rewrite app_nil_r|done]. }
  intros (x & Hx%opt_to_value_ok & (v & Hv%opt_to_value_ok & (es & He & (t & Ht & [= <-])%result_bind_ok)%result_bind_ok)%result_bind_ok)%result_bind_ok.
  simpl. split_and!; [done|done|done| |done|done|done|].
  { by destruct (table_to_value _); simpl in Ht; simplify_eq. }
  eexists. split; [|done].
  destruct (collect_results _ _) eqn:Ec; [|done]. simpl in He. injection He as <-. by apply collect_results_ok.
Qed.

Lemma result_to_py_error `{PySerde} `{Erased MessagePayload Pay} `{Erased PyGenericPayload Pay}
    (result : PipelineResult Pay) e :
  pipeline_result_to_py result = Err e → ∃ m, e = PyRuntimeError m.
Proof.
  unfold pipeline_result_to_py. destruct (match pr_modified_payload result with None => _ | Some p => _ end) as [mp es].
  assert (∀ {T} what (f : T → Result Value string) o, opt_to_value what f o = Err e → ∃ m, e = PyRuntimeError m) as Ho.
  { intros T what f [o|]; simpl; [|done]. destruct (f o); [done|]. intros [= <-]. by eexists. }
  intros [Hx|(? & _ & [Hv|(? & _ & [He|(? & _ & [Ht|(? & _ & ?)]%result_bind_err)]%result_bind_err)]%result_bind_err)]%result_bind_err.
  - by eapply Ho.
  - by eapply Ho.
  - destruct (collect_results _ _); [done|]. injection He as <-. by eexists.
  - destruct (table_to_value _); [done|]. injection Ht as <-. by eexists.
  - done.
Qed.

(** The exceptions of the conversions. *)
Definition caller_error (e : PyErr) : Prop :=
  (∃ m, e = PyValueError m) ∨ e = PyOverflowError ∨ e = PyUnicodeEncodeError.

Lemma to_json_caller_error h levels obj e : to_json_within h levels obj = Err e → caller_error e.
Proof.
  revert obj e. induction levels as [|levels IH]; intros obj e; simpl; [intros [= <-]; left; by eexists|].
  assert (∀ m, caller_error (PyValueError m)) as Hv by (intros m; left; by eexists).
  destruct (py_object h obj) as [|b|z|f|s|l|d|q]; simpl; try done.
  - intros [Hz|(n & _ & ?)]%result_bind_err; [|done]. unfold extract_i64 in Hz. destruct (in_i64 z); [done|].
    injection Hz as <-. right. by left.
  - destruct (number_from_f64 f); [done|]. by intros [= <-].
  - intros [Hs|(n & _ & ?)]%result_bind_err; [|done]. unfold extract_string in Hs. destruct (valid_utf8 _); [done|].
    injection Hs as <-. right. by right.
  - intros [Hl|(n & _ & ?)]%result_bind_err; [|done]. induction l as [|x l IHl]; simpl in Hl; [done|].
    apply result_bind_err in Hl as [Hx|(v & _ & Hl)]; [by eapply IH|].
    apply result_bind_err in Hl as [Hl|(n & _ & ?)]; [by apply IHl|done].
  - intros [Hd|(n & _ & ?)]%result_bind_err; [|done]. revert Hd. generalize (∅ : gmap string Value) as acc.
    induction d as [|[k x] d IHd]; intros acc; simpl; [done|].
    intros [Hk|(key & _ & [Hx|(v & _ & Hr)]%result_bind_err)]%result_bind_err; [|by eapply IH|by eapply IHd].
    destruct (cast_str _) as [t|]; [|injection Hk as <-; apply Hv].
    destruct (extract_string t); [done|]. injection Hk as <-. apply Hv.
  - by intros [= <-].
Qed.

Lemma pyobj_caller_error h obj depth e : pyobj_to_json_value h obj depth = Err e → caller_error e.
Proof. apply to_json_caller_error. Qed.

#[local] Opaque pyobj_to_json_value.

Section Faithful.
Context {P H V Pay W R : Type}.
Context `{HookHandler H Pay W} `{Timer W} `{Runtime W}.
Context `{PluginFactory BuiltinFactory P H W} `{Plugin P W} `{HookTypeName H} `{UuidSource W}.
Context `{TaskRuntime H Pay W} `{YamlToJson} `{YamlLib} `{SerdeConfig} `{WildMatch} `{order : HashOrder}.
Context `{ConfigVisitor P H BuiltinFactory V Pay W} `{PdpBackend R W}.
Context `{serde : PySerde} `{msg : Erased MessagePayload Pay} `{gen : Erased PyGenericPayload Pay}.
Abbreviation State := (PluginManager P H BuiltinFactory V Pay * Env W)%type.

Lemma py_arguments_error h hook payload ext table e :
  py_arguments (Pay := Pay) h hook payload ext table = Err e → caller_error e.
Proof.
  assert (∀ m, caller_error (PyValueError m)) as Hv by (intros m; left; by eexists).
  assert (∀ o, match o with None => Ok (VObject ∅) | Some o => pyobj_to_json_value h o 0 end = Err e → caller_error e) as Ho.
  { intros [o|]; [apply pyobj_caller_error|done]. }
  unfold py_arguments.
  intros [Hp%pyobj_caller_error|(v & _ & [Hr|(p & _ & [Hx%Ho|(x & _ & [Hx|(rx & _ & [Hc|(c & _ & [Ht|(t & _ & ?)]%result_bind_err)]%result_bind_err)]%result_bind_err)]%result_bind_err)]%result_bind_err)]%result_bind_err;
    try done.
  - unfold resolve_payload in Hr. destruct (starts_with _ _); [|done]. destruct (message_from_value v); [done|].
    by injection Hr as <-.
  - unfold extensions_from_value in Hx. destruct (extensions_of_value x); [done|]. by injection Hx as <-.
  - destruct table; [by eapply pyobj_caller_error|done].
  - unfold context_table_from_value in Ht. destruct c; try done;
      (destruct (table_of_value _); [done|]; by injection Ht as <-).
Qed.


(** A pipeline that goes on and changed nothing hands back the payload it got. *)
Lemma invoke_unmodified hook payload ext table (st : State) :
  let r := (invoke_by_name hook payload ext table st).1 in
  pr_continue_processing r = true → pr_payload_modified r = false → pr_modified_payload r = Some payload.
Proof.
  unfold invoke_by_name, Manager.invoke_hook. destruct (is_nil _ && is_nil _); [done|].
  destruct (filter_entries_by_route _ _ _ _ _) as [l st1]. destruct (is_nil l); [done|].
  unfold run_entries. destruct st1 as [m1 env1].
  pose proof (execute_payload_report (rs_executor (mg_runtime st.1)) l payload ext table (en_flags env1) (en_world env1)) as Hr.
  destruct (execute _ _ _ _ _ _ _) as [[[r tasks] flags] w]. simpl. intros Hc Hm.
  destruct Hr as [Ha _]. destruct (Ha Hc) as (_ & p & Hp & Hq). by rewrite Hp, Hq.
Qed.

(** Two payload types are different types. *)
Context (generic_not_message : ∀ g : PyGenericPayload, downcast (T := MessagePayload) (erase (Pay := Pay) g) = None).

(** What a payload comes back as when no plugin changes it: itself, or, for the hooks
    of the common message format, the message that was read from it, written
    again. *)
Definition echoed (hook : string) (v : Value) : option Value :=
  if starts_with "cmf." hook then
    match message_from_value v with Ok m => result_ok (message_to_value m) | Err _ => None end
  else Some v.

Lemma arguments_payload h hook payload ext table p x t v :
  py_arguments h hook payload ext table = Ok (p, x, t) → pyobj_to_json_value h payload 0 = Ok v →
  serialize_payload p = echoed hook v.
Proof.
  intros Ea Hv. unfold py_arguments in Ea. rewrite Hv in Ea. simpl in Ea.
  apply result_bind_ok in Ea as (p0 & Hp & Ea). apply result_bind_ok in Ea as (? & _ & Ea).
  apply result_bind_ok in Ea as (? & _ & Ea). apply result_bind_ok in Ea as (? & _ & Ea).
  apply result_bind_ok in Ea as (? & _ & Ea). injection Ea as <- _ _.
  unfold resolve_payload in Hp. unfold echoed, serialize_payload. destruct (starts_with "cmf." hook).
  - destruct (message_from_value v) as [m|]; [|done]. simpl in Hp. injection Hp as <-. by rewrite downcast_erase.
  - injection Hp as <-. by rewrite generic_not_message, downcast_erase.
Qed.

(** A written object reads back as itself. *)
Lemma object_echo r d h2 :
  py_modified_payload r = Some (VObject d) → crosses (VObject d) = true → (nesting (VObject d) ≤ 128)%nat →
  ∃ obj h3, get_modified_payload r h2 = (Ok (Some obj), h3) ∧ pyobj_to_json_value h3 obj 0 = Ok (VObject d) ∧
    ∀ b, (b < py_next h2)%positive → py_object h3 b = py_object h2 b.
Proof.
  intros Hp Hcr Hn. unfold get_modified_payload. rewrite Hp. simpl opt_dict. unfold as_dict.
  pose proof (py_roundtrip (VObject d) h2 Hcr Hn) as Hw.
  assert (is_Some (cast_dict (py_object (json_value_to_pyobj (VObject d) h2).2 (json_value_to_pyobj (VObject d) h2).1))) as Hd
    by apply object_is_dict.
  destruct (json_value_to_pyobj (VObject d) h2) as [obj h3]. destruct Hw as [Hk Hb].
  exists obj, h3. simpl in Hd. destruct Hd as [items ->]. by split_and!.
Qed.

(** C39: what Python gets back from a hook whose plugins let its payload pass
    unchanged.  For a hook outside the common message format it is an equal dict:
    converted to JSON, boxed, carried through the pipeline, written to fresh Python
    objects and read again it is the value that was sent.  For a [cmf.] hook it is
    the message that was read from the dict, serialised again, which reads back in
    Python as exactly that JSON object wherever this one is within the bounds of the
    conversion; that it equals the dict that was sent is up to the message codec. *)
Theorem py_echo h hook payload ext table (st st' : State) r d h2 :
  pyobj_to_json_value h payload 0 = Ok (VObject d) →
  py_invoke_hook h hook payload ext table PyFinishes st = (Ok r, st') →
  get_continue_processing r = true → get_payload_modified r = false →
  py_modified_payload r = echoed hook (VObject d) ∧
  (∀ o, echoed hook (VObject d) = Some (VObject o) →
     starts_with "cmf." hook = false ∨ crosses (VObject o) = true ∧ (nesting (VObject o) ≤ 128)%nat →
     ∃ obj h3, get_modified_payload r h2 = (Ok (Some obj), h3) ∧ pyobj_to_json_value h3 obj 0 = Ok (VObject o) ∧
       ∀ b, (b < py_next h2)%positive → py_object h3 b = py_object h2 b) ∧
  (starts_with "cmf." hook = false → echoed hook (VObject d) = Some (VObject d)).
Proof.
  intros Hv. unfold py_invoke_hook. destruct (py_arguments h hook payload ext table) as [[[p x] t]|e] eqn:Ea; [|done].
  pose proof (arguments_payload _ _ _ _ _ _ _ _ _ Ea Hv) as Hs. unfold invoke_with_timeout.
  pose proof (invoke_unmodified hook p x t st) as Hu.
  destruct (invoke_by_name hook _ x t st) as [result st1]. simpl in Hu.
  intros [= Hr%result_to_py_told _] Hc Hm. unfold get_continue_processing, get_payload_modified in Hc, Hm.
  destruct Hr as (Hcp & _ & _ & _ & Hpm & _ & Hp & _).
  rewrite Hu in Hp by congruence. simpl in Hp. rewrite Hs in Hp. split_and!; [done| |].
  - intros o Ho Hb. rewrite Ho in Hp. destruct (pyobj_bounded _ _ _ _ Hv) as [Hcr Hn]. rewrite Nat.add_0_r in Hn.
    destruct Hb as [Hb|[Hb1 Hb2]]; [|by apply object_echo].
    unfold echoed in Ho. rewrite Hb in Ho. injection Ho as <-. by apply object_echo.
  - intros Hcmf. unfold echoed. by rewrite Hcmf.
Qed.

End Faithful.

Module PyBindDemo.

Abbreviation AnyPayload := (MessagePayload + PyGenericPayload)%type.
#[local] Instance erased_message : Erased MessagePayload AnyPayload :=
  {| erase := inl; downcast p := match p with inl d => Some d | inr _ => None end; downcast_erase _ := eq_refl |}.
#[local] Instance erased_generic : Erased PyGenericPayload AnyPayload :=
  {| erase := inr; downcast p := match p with inr d => Some d | inl _ => None end; downcast_erase _ := eq_refl |}.

(** A handler says whether it allows. *)
#[local] Instance answering : HookHandler bool AnyPayload unit :=
  λ ok _ _ ctx w, (Ok (Some (mkErased ok None None (if ok then None else Some (violation_new "no" "refused")))), ctx, w).
#[local] Instance patient : Timer unit := λ _ _ _, None.
#[local] Instance eager : Runtime unit :=
  {| rt_fork w _ := w; rt_schedule _ l := imap (λ i _, (i, FateDone)) l; rt_join w _ := w |}.
#[local] Instance no_plugin_factory : PluginFactory BuiltinFactory unit bool unit := λ _ _ w, (Err (ErrConfig "none"), w).
#[local] Instance calm : Plugin unit unit :=
  {| plugin_initialize _ w := (Ok tt, w); plugin_shutdown _ w := (Ok tt, w) |}.
#[local] Instance any_hook : HookTypeName bool := λ _, "tool_pre_invoke".
#[local] Instance one_uuid : UuidSource unit := λ w, (7%N, w).
#[local] Instance no_wait : TaskRuntime bool AnyPayload unit := λ _ w, w.
#[local] Instance no_json : YamlToJson := λ _, Err "none".
#[local] Instance no_serde : SerdeConfig :=
  {| yaml_from_str _ := Err "none"; config_from_value _ := Err "none";
     ref_from_value _ := Err "none"; step_from_value _ := Err "none" |}.
#[local] Instance plain_yaml : YamlLib :=
  {| debug_yaml _ := "value"; show_yaml_number _ := "number"; yaml_eqb _ _ := false |}.
#[local] Instance in_order : HashOrder := Config.Demo.forward.
#[local] Instance idle : ConfigVisitor unit bool BuiltinFactory unit AnyPayload unit :=
  {| visitor_name _ := "idle"; visit_plugins _ _ st := (Ok tt, st); visit_global _ _ st := (Ok tt, st);
     visit_default _ _ _ st := (Ok tt, st); visit_policy_bundle _ _ _ st := (Ok tt, st);
     visit_route _ _ _ st := (Ok tt, st) |}.
(** A codec that reads empty extensions and no message. *)
#[local] Instance texts : PySerde := {
  message_from_value _ := Err "missing field `message`"; message_to_value _ := Err "none";
  extensions_of_value _ := Ok extensions_default; extensions_to_value _ := Ok (VObject ∅);
  table_of_value _ := Err "none"; table_to_value _ := Ok (VObject ∅);
  violation_to_value v := Ok (VObject {[ "code" := VString (vi_code v) ]});
  record_to_value e := Ok (VObject ∅)
}.

Abbreviation DemoState := (PluginManager unit bool BuiltinFactory unit AnyPayload * Env unit)%type.
Definition state_with (answer : bool) : DemoState :=
  (register_handler "tool_pre_invoke" tt (Config.Demo.plugin "gate") answer
     (manager_new manager_config_default, mkEnv tt ∅ 0)).2.

(** [{"tool": "search"}]. *)
Definition sent : PyHeap :=
  PyConvDemo.heap_of [PyDict [(2, 3)%positive]; PyStr "tool"; PyStr "search"].
Definition invoke_demo (hook : string) (answer : bool) (ending : PyEnding DemoState) :=
  py_invoke_hook sent hook 1 None None ending (state_with answer).

Lemma echo_witness :
  ∃ r st' obj h3, invoke_demo "tool_pre_invoke" true PyFinishes = (Ok r, st') ∧
    get_modified_payload r PyConvDemo.empty_heap = (Ok (Some obj), h3) ∧
    pyobj_to_json_value h3 obj 0 = Ok (VObject {[ "tool" := VString "search" ]}).
Proof.
  destruct (invoke_demo "tool_pre_invoke" true PyFinishes) as [[r|e] st'] eqn:E; [|by vm_compute in E].
  assert (get_continue_processing r = true ∧ get_payload_modified r = false) as [Hc Hm]
    by (vm_compute in E; injection E as <- _; done).
  assert (∀ g : PyGenericPayload, downcast (T := MessagePayload) (erase (Pay := AnyPayload) g) = None) as Hne by done.
  destruct (py_echo Hne sent "tool_pre_invoke" 1 None None (state_with true) st' r
              {[ "tool" := VString "search" ]} PyConvDemo.empty_heap ltac:(by vm_compute) E Hc Hm)
    as (_ & Hback & _).
  destruct (Hback {[ "tool" := VString "search" ]} eq_refl (or_introl eq_refl)) as (obj & h3 & Hg & Hv & _).
  exists r, st', obj, h3. by split_and!.
Defined.

(** A denial is a result, not an exception; the other endings are exceptions; and
    a CMF hook takes only what reads as a message. *)
Example denial_is_a_result :
  result_map (λ r, (py_continue_processing r, py_repr r)) (invoke_demo "tool_pre_invoke" false PyFinishes).1
  = Ok (false, "PipelineResult(continue_processing=false, violation=Some(...), errors=0)").
Proof. by vm_compute. Qed.
Example panic_is_raised :
  (invoke_demo "tool_pre_invoke" true (PyPanics (Some "boom") (state_with true))).1
  = Err (PyRuntimeError "cpex: plugin panicked: boom").
Proof. by vm_compute. Qed.
Example cmf_needs_a_message :
  (invoke_demo "cmf.tool_pre_invoke" true PyFinishes).1
  = Err (PyValueError "cpex: payload for 'cmf.tool_pre_invoke' is not a valid MessagePayload: missing field `message`").
Proof. by vm_compute. Qed.

(** A generic payload that is no dict is accepted and let through, and then its
    getter raises. *)
Example list_payload_getter_raises :
  match py_invoke_hook (PyConvDemo.heap_of [PyList []]) "tool_pre_invoke" 1 None None PyFinishes (state_with true) with
  | (Ok r, _) => (get_modified_payload r PyConvDemo.empty_heap).1
  | (Err e, _) => Err e
  end = Err (PyRuntimeError "cpex: modified_payload is not a dict").
Proof. by vm_compute. Qed.

End PyBindDemo.
