(* ===== verification/Approval.v ===== *)
(** * Approvals, end to end

    The CIBA approver behind its typed adapter, called by the executor, through
    the elicitation bridge, from the [elicit] step of a route: what it takes for
    such a step to let a request go on.  The world of the executor is the
    approver's correlation store with the log of its exchanges with the provider;
    the network and the clock may answer anything, from one request to the next. *)

From S2P Require Import Prelude RustStd F64 Json Yaml Routing Orchestration ExtData Extensions PluginTypes Registry.
From S2P Require Import Executor Config ConfigLoad Manager Message Delegation Dispatch Attributes Ir Pipelines Evaluator.
From S2P Require Import PredParser Session Bag Handler Idp Jwt OAuth Ciba Hooks.

Local Open Scope string_scope.
Local Open Scope list_scope.

(** ** One sequential plugin *)

Section Single.
Context {P H Pay W : Type} `{HookHandler H Pay W} `{Timer W} `{Runtime W}.
Context (config : ExecutorConfig).

(** What a pipeline of one sequential plugin does to the world and the payload:
    nothing if its breaker has tripped; else one call, cut off or answered, and an
    accepted payload is the one sent or the one this call returned. *)
Lemma execute_single (entry : HookEntry P H) payload ext table flags (w : W) :
  pcf_mode (pr_trusted_config (he_plugin_ref entry)) = Sequential →
  let '(r, _, _, w') := execute config [entry] payload ext table flags w in
  (w' = w ∨ (∃ id ctx ctx', timer_elapses w id ctx = Some (ctx', w')) ∨
   ∃ x ctx, (handler_invoke (he_handler entry) payload x ctx w).2 = w') ∧
  ∀ p', pr_continue_processing r = true → pr_modified_payload r = Some p' →
    p' = payload ∨ ∃ x ctx e ctx', handler_invoke (he_handler entry) payload x ctx w = (Ok (Some e), ctx', w')
                                   ∧ ef_modified_payload e = Some p'.
Proof.
  intros Hm.
  pose proof (λ v st, execute_as_phases config [entry] payload ext table flags w v st ltac:(done)) as Hex.
  set (st0 := mkPhase payload ext (default context_table_new table) [] false flags w) in *.
  destruct (run_phases config (group_by_mode flags [entry]) st0) as [v st] eqn:Er.
  rewrite (Hex _ _ eq_refl). clear Hex. unfold run_phases in Er. rewrite group_by_mode_spec in Er. unfold by_mode in Er.
  rewrite !filter_cons, !filter_nil in Er. unfold pr_mode in Er. rewrite Hm in Er.
  destruct (is_disabled flags (he_plugin_ref entry)).
  { repeat case_decide; try done. simpl in Er. injection Er as <- <-. simpl. split; [by left|]. intros p' _ [= <-]. by left. }
  repeat case_decide; try done. simpl in Er.
  assert (run_serial_entry config true true entry st0 = (v, st)) as Hrun.
  { destruct (run_serial_entry config true true entry st0) as [[v1|] st1]; simpl in Er; by injection Er as <- <-. }
  pose proof (serial_entry_world config true entry st0) as Hw. pose proof (serial_entry_payload config true entry st0) as Hp.
  rewrite Hrun in Hw, Hp. simpl in Hw, Hp. split.
  - right. by destruct v.
  - destruct v as [v|]; [done|]. simpl. intros p' _ [= <-]. exact Hp.
Qed.

End Single.

(** ** The approver as a hook handler *)

Record CibaWorld := mkCibaWorld { cw_store : CorrelationStore; cw_log : list Exchange; cw_calls : nat }.
Definition cw_pair (w : CibaWorld) : CorrelationStore * list Exchange := (cw_store w, cw_log w).

Section Serve.
Context `{lib : IdpLib} `{cal : Calendar} `{time : CibaTime} (self : CibaApprover).
(** What the network answers and what the clock shows at the n-th call. *)
Context (net : nat → Post → PostReply) (clock : nat → Z).

(** [ElicitationHook]. *)
Definition elicit_hook : HookTypeDef :=
  mkHookTypeDef HOOK_ELICIT "cpex_core::elicitation::payload::ElicitationPayload".

(** [CibaApprover::handle].  A panic unwinds past the executor; as a value it is a
    refusal, and nothing below is about refusals. *)
Definition ciba_serve : TypedHandle ElicitationPayload CibaWorld :=
  λ payload _ ctx w,
    let n := cw_calls w in
    let '(r, store) := ciba_handle self payload (net n) (clock n) (cw_store w) in
    let log := match ep_operation payload with
               | OpDispatch => dispatch_log self payload (net n)
               | OpCheck => check_log self payload (net n) (cw_store w)
               | OpValidate => []
               end in
    (match r with Some r => plain_result r | None => deny (violation_new "panic" "handler panicked") end, ctx,
     mkCibaWorld store (cw_log w ++ log) (S n)).
Definition ciba_adapter : TypedHandlerAdapter ElicitationPayload CibaWorld := adapter_new elicit_hook ciba_serve.

Lemma serve_reaches payload x ctx w :
  ciba_reachable self (cw_pair w) → ciba_reachable self (cw_pair (ciba_serve payload x ctx w).2).
Proof.
  intros Hr. eapply rtc_r; [exact Hr|]. unfold ciba_serve, ciba_handle, cw_pair.
  destruct (ep_operation payload).
  - pose proof (cs_dispatch self payload (net (cw_calls w)) (clock (cw_calls w)) (cw_store w) (cw_log w)) as Hs.
    by destruct (do_dispatch self payload _ _ _).
  - pose proof (cs_check self payload (net (cw_calls w)) (cw_store w) (cw_log w)) as Hs.
    by destruct (do_check self payload _ _).
  - simpl. rewrite app_nil_r. apply cs_validate.
Qed.

(** ** Through the bridge *)

Context {P F V Pay R : Type} `{Erased MessagePayload Pay} `{Erased DelegationPayload Pay} `{erased : Erased ElicitationPayload Pay}.
Context `{timer : Timer CibaWorld} `{Runtime CibaWorld}.
Abbreviation Handlers := (AnyHookHandler Pay CibaWorld).
Abbreviation Mgr := (PluginManager P Handlers F V Pay).
Abbreviation MState := (Mgr * Env CibaWorld)%type.
Abbreviation Req := (Request P Handlers F V Pay CibaWorld).

(** A call that is cut off leaves what some requests to the approver leave. *)
Context (cut_off_reaches : ∀ w id ctx ctx' w',
  timer_elapses w id ctx = Some (ctx', w') → rtc (ciba_step self) (cw_pair w) (cw_pair w')).

(** The plugin a step names is the approver, sequential and behind its adapter. *)
Definition served_by_ciba (plan : RouteDispatchPlan P Handlers) (step : ElicitStep) : Prop :=
  ∃ entry, dp_elicitation_entries plan !! es_plugin_name step = Some entry ∧
    he_handler entry = any_of ciba_adapter ∧ pcf_mode (pr_trusted_config (he_plugin_ref entry)) = Sequential.

Lemma elicit_invoke_ciba plan op step payload ext (st st' : MState) r :
  served_by_ciba plan step → ciba_reachable self (cw_pair (en_world st.2)) →
  elicit_invoke plan op (es_plugin_name step) payload ext st = (r, st') →
  ciba_reachable self (cw_pair (en_world st'.2)) ∧
  ∀ out, r = Ok out → out = payload ∨
    ∃ x ctx, res_modified_payload (ciba_serve payload x ctx (en_world st.2)).1.1 = Some out ∧
             en_world st'.2 = (ciba_serve payload x ctx (en_world st.2)).2.
Proof.
  intros (entry & Hplan & Hh & Hm) Hr. unfold elicit_invoke. rewrite Hplan. unfold invoke_entries. cbn [is_nil].
  unfold run_entries. destruct st as [m env]. cbn [fst snd] in *.
  pose proof (execute_single (rs_executor (mg_runtime m)) entry (erase payload) ext None (en_flags env) (en_world env) Hm) as Hs.
  destruct (execute _ _ _ _ _ _ _) as [[[res tasks] flags] w']. destruct Hs as [Hw Hp].
  assert (ciba_reachable self (cw_pair w')) as Hr'.
  { destruct Hw as [->|[(id & ctx & ctx' & Ht)|(x & ctx & <-)]]; [done|unfold ciba_reachable; etrans; [exact Hr|by eapply cut_off_reaches]|].
    rewrite Hh. unfold handler_invoke, any_hook_handler. simpl. unfold adapter_invoke. rewrite downcast_erase. simpl.
    pose proof (serve_reaches payload x ctx (en_world env) Hr) as Hsr.
    by destruct (ciba_serve payload x ctx (en_world env)) as [[res0 ctx0] w0]. }
  destruct (negb (pr_continue_processing res)) eqn:Ec; simpl; [by intros [= <- <-]|].
  apply negb_false_iff in Ec.
  unfold elicitation_from_result. destruct (pr_modified_payload res) as [p'|] eqn:Ep; simpl; [|by intros [= <- <-]].
  destruct (downcast p') as [out|] eqn:Ed; intros [= <- <-]; simpl; [|done]. split; [done|]. intros out' [= <-].
  destruct (Hp p' Ec eq_refl) as [->|(x & ctx & e & ctx' & Hi & He)]; [left; rewrite downcast_erase in Ed; congruence|].
  right. exists x, ctx. rewrite Hh in Hi. unfold handler_invoke, any_hook_handler in Hi. simpl in Hi.
  unfold adapter_invoke in Hi. rewrite downcast_erase in Hi. simpl in Hi.
  destruct (ciba_serve payload x ctx (en_world env)) as [[res0 ctx0] w0]. injection Hi as <- _ <-. simpl in *. split; [|done].
  destruct (res_modified_payload res0) as [o|]; [|done]. simpl in He. injection He as <-. by rewrite downcast_erase in Ed.
Qed.

(** The three calls of a step keep the history of the approver a real one. *)
Definition world_in (rq : Req) : CibaWorld := en_world (rq_state rq).2.

Lemma lift_elicit_reaches {T} plan op step payload (post : Result ElicitationPayload ElicitationError → MState → T * MState)
    (rq : Req) :
  served_by_ciba plan step → ciba_reachable self (cw_pair (world_in rq)) →
  (∀ r st, (post r st).2 = st) →
  ciba_reachable self (cw_pair (world_in
    (lift_elicit (λ ext st, let '(r, st) := elicit_invoke plan op (es_plugin_name step) payload ext st in post r st) rq).2)).
Proof.
  intros Hs Hr Hpost. unfold lift_elicit.
  destruct (elicit_invoke plan op _ payload _ (rq_state rq)) as [r st'] eqn:Ei.
  apply (elicit_invoke_ciba plan op step) in Ei as [Hr' _]; [|done|done].
  specialize (Hpost r st'). destruct (post r st') as [t st'']. simpl in *. by subst st''.
Qed.

Lemma dispatch_reaches plan step from (rq : Req) :
  served_by_ciba plan step → ciba_reachable self (cw_pair (world_in rq)) →
  ciba_reachable self (cw_pair (world_in (lift_elicit (elicit_dispatch_step plan step from) rq).2)).
Proof.
  intros Hs Hr.
  apply (lift_elicit_reaches plan "dispatch" step _ (λ r st, match r with Err e => (Err e, st) | Ok out => _ end) rq Hs Hr).
  intros [out|e] st; [|done]. by destruct (ep_id out).
Qed.
Lemma check_reaches plan step id (rq : Req) :
  served_by_ciba plan step → ciba_reachable self (cw_pair (world_in rq)) →
  ciba_reachable self (cw_pair (world_in (lift_elicit (elicit_check_step plan step id) rq).2)).
Proof.
  intros Hs Hr.
  apply (lift_elicit_reaches plan "check" step _ (λ r st, match r with Err e => (Err e, st) | Ok out => _ end) rq Hs Hr).
  intros [out|e] st; [|done]. by destruct (ep_status out) as [[]|].
Qed.

(** A validation that succeeds is backed by the log. *)
Lemma validate_backed_by_log plan step id (rq rq' : Req) v :
  served_by_ciba plan step → ciba_reachable self (cw_pair (world_in rq)) →
  lift_elicit (elicit_validate_step plan step id) rq = (Ok v, rq') → ev_valid v = true →
  ∃ l1 asked body l2 body', cw_log (world_in rq') = l1 ++ Asked asked body :: l2 ∧ opens body id ∧ Polled id body' ∈ l2 ∧
    names_approver self body' (ep_from asked) ∧ ep_from asked ≠ EmptyString ∧ ev_approver v = Some (ep_from asked).
Proof.
  intros Hs Hr. unfold lift_elicit, elicit_validate_step.
  destruct (elicit_invoke plan "validate" _ _ _ (rq_state rq)) as [[out|e] st'] eqn:Ei; [|done].
  intros [= <- <-]. simpl. intros Hv.
  apply (elicit_invoke_ciba plan "validate" step) in Ei as [_ Hout]; [|done|done].
  destruct (Hout out eq_refl) as [->|(x & ctx & Hm & Hw)]; [done|]. simpl in Hm, Hw.
  destruct (validated_backed self (cw_store (world_in rq)) (cw_log (world_in rq))
    (apply_step_inputs (with_elicitation_id (elicitation_new OpValidate (elicit_kind_str (es_kind step)) EmptyString) id) step)
    id out (reachable_backed self _ Hr) eq_refl Hm)
    as (l1 & asked & body & l2 & body' & Hlog & Hrest).
  { destruct (ep_valid out) as [[]|]; done. }
  exists l1, asked, body, l2, body'. unfold world_in. simpl. rewrite Hw. simpl. by rewrite app_nil_r.
Qed.

(** The bag a step goes on with names the id it used: the one the request presented,
    or the one its dispatch returned. *)
Lemma elicit_id_in_use {X} `{ElicitationInvoker X} step from (st st1 : EvalState X) id :
  elicit_id step from st = (Ok id, st1) →
  get_string (s_bag st1) EL_ID = Some id ∧
  ∀ presented, get_string (s_bag st) EL_ID = Some presented → id = presented.
Proof.
  unfold elicit_id. destruct (get_string (s_bag st) EL_ID) as [existing|] eqn:E.
  { intros [= <- <-]. split; [done|]. by intros ? [= <-]. }
  destruct (elicit_dispatch step from (s_world st)) as [[d|e] w]; [|done]. intros [= <- <-].
  split; [|done]. simpl. unfold record_dispatch, Evaluator.set_opt.
  destruct (ed_expires_at d), (ed_intent_id d), (ed_approver d), (es_channel step);
    rewrite ?get_string_set_ne by done; apply get_string_set_eq.
Qed.

Lemma record_approval_id bag v : get_string (record_approval bag v) EL_ID = get_string bag EL_ID.
Proof.
  unfold record_approval, Evaluator.set_opt.
  destruct (ev_intent_id v), (ev_approver v); rewrite ?get_string_set_ne by done; done.
Qed.

(** C16: a route that asks for an approval gets one.  Where a step's plugin is the
    CIBA approver, a request passes the step (unless it says [on_error: continue])
    only if the provider opened the very elicitation the step used (the id the
    request presented, else the one the step's own dispatch returned; it is the id
    in the attributes afterwards) for an approver the gateway named, and later
    answered a poll of that id with a token naming this approver, who is recorded
    in the attributes: across the evaluator, the bridge, the manager's executor,
    the adapter and the approver, whatever the network answers and wherever a call
    is cut off. *)
Theorem route_approval_was_given plan step (st st' : EvalState Req) :
  let _ := request_elicitations plan in
  served_by_ciba plan step → ciba_reachable self (cw_pair (world_in (s_world st))) →
  elicit_continues step = false → dispatch_elicitation step st = (Continue, st') →
  ∃ id l1 asked body l2 body',
    cw_log (world_in (s_world st')) = l1 ++ Asked asked body :: l2 ∧ opens body id ∧ Polled id body' ∈ l2 ∧
    names_approver self body' (ep_from asked) ∧ ep_from asked ≠ EmptyString ∧
    get_string (s_bag st') EL_APPROVER = Some (ep_from asked) ∧
    get_string (s_bag st') EL_ID = Some id ∧
    (∀ presented, get_string (s_bag st) EL_ID = Some presented → id = presented).
Proof.
  intros inst Hs Hr Hc Hd.
  destruct (elicitation_continue step st st' Hc Hd) as (from & id & st1 & w2 & v & w3 & _ & Hid & Hch & Hva & Hok & _ & ->).
  destruct (elicit_id_in_use step from st st1 id Hid) as [Hid1 Hpresented].
  assert (ciba_reachable self (cw_pair (world_in (s_world st1)))) as Hr1.
  { revert Hid. unfold elicit_id. destruct (get_string (s_bag st) EL_ID) as [existing|]; [by intros [= _ <-]|].
    pose proof (dispatch_reaches plan step from (s_world st) Hs Hr) as Hdr.
    change (elicit_dispatch step from (s_world st)) with (lift_elicit (elicit_dispatch_step plan step from) (s_world st)).
    destruct (lift_elicit (elicit_dispatch_step plan step from) (s_world st)) as [[d|e] w1]; [|done].
    by intros [= _ <-]. }
  pose proof (check_reaches plan step id (s_world st1) Hs Hr1) as Hr2.
  change (lift_elicit (elicit_check_step plan step id) (s_world st1) = (Ok (StResolved Approved), w2)) in Hch.
  rewrite Hch in Hr2. simpl in Hr2.
  destruct (validate_backed_by_log plan step id w2 w3 v Hs Hr2 Hva Hok)
    as (l1 & asked & body & l2 & body' & Hlog & Hop & Hin & Hn & Hne & Ha).
  exists id, l1, asked, body, l2, body'.
  split_and!; [done|done|done|done|done| |by simpl; rewrite record_approval_id|done].
  change (get_string (record_approval (s_bag st1) v) EL_APPROVER = Some (ep_from asked)).
  unfold record_approval, Evaluator.set_opt. rewrite Ha.
  destruct (ev_intent_id v); [rewrite get_string_set_ne by done|]; apply get_string_set_eq.
Qed.

End Serve.

(** ** Stand-in invokers (apl-core/src/step.rs) *)

Section StandIns.
Context {W : Type}.

Definition NoopDelegationInvoker : DelegationInvoker W := λ step w, (Err (DelegationNotFound (ds_plugin_name step)), w).
Definition NoopElicitationInvoker : ElicitationInvoker W :=
  {| elicit_dispatch step _ w := (Err (ElicitationNotFound (es_plugin_name step)), w);
     elicit_check _ id w := (Err (ElicitationNotFound id), w);
     elicit_validate _ id w := (Err (ElicitationNotFound id), w) |}.
Definition AutoApprovingElicitor : ElicitationInvoker W :=
  {| elicit_dispatch step from w :=
       (Ok (mkElicitationDispatch ("auto-" +:+ es_plugin_name step) (Some from) (Some "auto-intent") None), w);
     elicit_check _ _ w := (Ok (StResolved Approved), w);
     elicit_validate _ _ w := (Ok (Ir.mkValidation true None (Some "auto-intent") None), w) |}.

(** A host that wires no invoker fails closed: no step that needs an approval or
    a token passes, whatever the request carries. *)
Theorem noop_invokers_stop (st : EvalState W) :
  (∀ step, elicit_continues step = false →
     ∃ reason, (@dispatch_elicitation W NoopElicitationInvoker step st).1 = Halt (Deny reason (es_source step))) ∧
  (∀ step, delegate_continues step = false →
     ∃ reason, (@dispatch_delegate W NoopDelegationInvoker step st).1 = Halt (Deny reason (ds_source step))).
Proof.
  split; intros step Hc.
  - unfold dispatch_elicitation, elicit_fail. rewrite Hc. destruct (resolve_from step (s_bag st)); [|by eexists].
    unfold elicit_id. destruct (get_string (s_bag st) EL_ID); by eexists.
  - unfold dispatch_delegate. simpl. rewrite Hc. by eexists.
Qed.

(** The auto-approver passes every step whose [scope] holds, in the name of
    whoever was to be asked. *)
Lemma auto_approves step from (st : EvalState W) :
  resolve_from step (s_bag st) = Ok from → get_string (s_bag st) EL_ID = None → es_scope step = None →
  ∃ st', @dispatch_elicitation W AutoApprovingElicitor step st = (Continue, st') ∧
    get_string (s_bag st') EL_APPROVER = Some from.
Proof.
  intros Hf Hid Hs. unfold dispatch_elicitation. rewrite Hf. unfold elicit_id. rewrite Hid. simpl.
  unfold finish_approved, check_scope. rewrite Hs. simpl. eexists. split; [done|]. simpl.
  unfold record_approval, record_dispatch, Evaluator.set_opt. cbn [ev_approver ev_intent_id ed_approver ed_intent_id ed_expires_at].
  destruct (es_channel step); rewrite ?get_string_set_ne by done; apply get_string_set_eq.
Qed.

End StandIns.

Module ApprovalDemo.

#[local] Existing Instances CibaDemo.demo_lib CibaDemo.demo_calendar CibaDemo.demo_time.
Abbreviation AnyPayload := (MessagePayload + (DelegationPayload + ElicitationPayload))%type.
#[local] Existing Instances HandlerDemo.erased_elicitation.
#[local] Instance patient : Timer CibaWorld := λ _ _ _, None.
#[local] Instance eager : Runtime CibaWorld :=
  {| rt_fork w _ := w; rt_schedule _ l := imap (λ i _, (i, FateDone)) l; rt_join w _ := w |}.

(** The provider opens the request, then answers a poll with alice's tokens. *)
Definition provider (n : nat) : Post → PostReply :=
  CibaDemo.replies (match n with O => "opened" | _ => "tokens" end).
Definition ciba_entry : HookEntry unit (AnyHookHandler AnyPayload CibaWorld) :=
  mkHookEntry (plugin_ref_new tt (demo_config "ciba" 10 Sequential) 1 0)
    (any_of (ciba_adapter CibaDemo.approver provider (λ _, 0%Z))).
Definition plan : RouteDispatchPlan unit (AnyHookHandler AnyPayload CibaWorld) := mkPlan ∅ ∅ {[ "ciba" := ciba_entry ]}.
Definition ask (from : string) : ElicitStep := mkElicit Approval "ciba" None from None None None None None "policy[0]".
Abbreviation DemoReq := (Request unit (AnyHookHandler AnyPayload CibaWorld) unit unit AnyPayload CibaWorld).
Definition start : EvalState DemoReq :=
  state_start bag_new (payload_new Null)
    (mkRequest extensions_default HandlerDemo.hello false
       (manager_new manager_config_default, mkEnv (mkCibaWorld ∅ [] 0) ∅ 0)).
#[local] Instance channel : ElicitationInvoker DemoReq := request_elicitations plan.
Definition run_ask (from : string) := dispatch_elicitation (ask from) start.

Lemma never_cut_off w id ctx ctx' w' :
  timer_elapses (Timer := patient) w id ctx = Some (ctx', w') → rtc (ciba_step CibaDemo.approver) (cw_pair w) (cw_pair w').
Proof. discriminate. Qed.
Lemma ask_served : served_by_ciba CibaDemo.approver provider (λ _, 0%Z) plan (ask "alice").
Proof. exists ciba_entry. split; [reflexivity|]. split; reflexivity. Qed.

Lemma route_approval_witness :
  ∃ st', run_ask "alice" = (Continue, st') ∧ get_string (s_bag st') EL_APPROVER = Some "alice" ∧
    ∃ id body', Polled id body' ∈ cw_log (world_in (s_world st')).
Proof.
  destruct (run_ask "alice") as [[| |] st'] eqn:E; [|by vm_compute in E..].
  pose proof (route_approval_was_given CibaDemo.approver provider (λ _, 0%Z) never_cut_off plan (ask "alice") start st'
    ask_served (rtc_refl _ _) eq_refl) as Hgiven. cbv zeta in Hgiven.
  assert (dispatch_elicitation (ask "alice") start = (Continue, st')) as Hd by (unfold run_ask in E; exact E).
  unfold channel in Hd. apply Hgiven in Hd as (id & l1 & asked & body & l2 & body' & Hlog & _ & Hin & _).
  exists st'. split; [done|]. split; [vm_compute in E; injection E as <-; by vm_compute|].
  exists id, body'. rewrite Hlog. apply elem_of_app. right. by right.
Defined.

(** The same tokens do not pass a step that asked bob. *)
Example other_approver_stops :
  (run_ask "bob").1
  = Halt (Deny (Some "elicitation invalid: approver mismatch: token names `alice`, expected `bob`") "policy[0]").
Proof. by vm_compute. Qed.

End ApprovalDemo.
