(* ===== verification/Legacy.v ===== *)
(** * The legacy payloads of the Python host (cpex-hosts-python/src/legacy/payloads.rs)

    The eight structs with their serde attributes: which fields have a default and
    which are left out when absent.  They give the host's [PayloadCodec] a
    concrete instance, for which a payload survives the way to a worker and back.
    The text of a serde error, the message codec and the reading of a struct from
    anything but an object are parameters. *)

From S2P Require Import Prelude RustStd F64 Json JsonMerge ExtData Extensions PluginTypes Executor Message HostError HostWire.

Local Open Scope string_scope.
Local Open Scope list_scope.

Definition REDACTED : string := "<redacted>".

(** ** The structs *)

Record ToolPreInvokePayload := mkToolPre {
  tpre_name : string; tpre_args : option (gmap string Value); tpre_headers : option (gmap string string)
}.
Record ToolPostInvokePayload := mkToolPost { tpost_name : string; tpost_result : Value }.
Record PromptPreFetchPayload := mkPromptPre { ppre_prompt_id : string; ppre_args : option (gmap string string) }.
Record PromptPostFetchPayload := mkPromptPost { ppost_prompt_id : string; ppost_result : Value }.
Record ResourcePreFetchPayload := mkResourcePre { rpre_uri : string; rpre_metadata : option (gmap string Value) }.
Record ResourcePostFetchPayload := mkResourcePost { rpost_uri : string; rpost_content : Value }.
Record IdentityResolvePayload := mkIdentityResolve {
  ir_raw_token : string; ir_source : string; ir_headers : gmap string string;
  ir_client_host : option string; ir_client_port : option Z
}.
Record AttenuationConfig := mkAttenuationCfg {
  ac_capabilities : list string; ac_resource_template : option string; ac_actions : list string; ac_ttl_seconds : option Z
}.
Record TokenDelegatePayload := mkTokenDelegate {
  td_target_name : string; td_target_type : string; td_target_audience : option string;
  td_required_permissions : list string; td_trust_domain : option string; td_auth_enforced_by : string;
  td_route_attenuation : option AttenuationConfig; td_bearer_token : option string
}.

Definition default_target_type : string := "tool".
Definition default_auth_enforced_by : string := "caller".

(** ** Writing *)

Abbreviation Obj := (gmap string Value).

(** [skip_serializing_if = "Option::is_none"]. *)
Definition put_opt {T} (key : string) (to_value : T → Value) (o : option T) (m : Obj) : Obj :=
  match o with Some x => <[key := to_value x]> m | None => m end.
Definition strings_value (l : list string) : Value := VArray (VString <$> l).
Definition string_map_value (m : gmap string string) : Value := VObject (VString <$> m).
Definition int_value (z : Z) : Value := VNumber (if (0 <=? z)%Z then PosInt z else NegInt z).

Definition tool_pre_write (p : ToolPreInvokePayload) : Obj :=
  put_opt "headers" string_map_value (tpre_headers p)
    (put_opt "args" VObject (tpre_args p) {[ "name" := VString (tpre_name p) ]}).
Definition tool_post_write (p : ToolPostInvokePayload) : Obj :=
  {[ "name" := VString (tpost_name p); "result" := tpost_result p ]}.
Definition prompt_pre_write (p : PromptPreFetchPayload) : Obj :=
  put_opt "args" string_map_value (ppre_args p) {[ "prompt_id" := VString (ppre_prompt_id p) ]}.
Definition prompt_post_write (p : PromptPostFetchPayload) : Obj :=
  {[ "prompt_id" := VString (ppost_prompt_id p); "result" := ppost_result p ]}.
Definition resource_pre_write (p : ResourcePreFetchPayload) : Obj :=
  put_opt "metadata" VObject (rpre_metadata p) {[ "uri" := VString (rpre_uri p) ]}.
Definition resource_post_write (p : ResourcePostFetchPayload) : Obj :=
  {[ "uri" := VString (rpost_uri p); "content" := rpost_content p ]}.
Definition identity_resolve_write (p : IdentityResolvePayload) : Obj :=
  put_opt "client_port" int_value (ir_client_port p)
    (put_opt "client_host" VString (ir_client_host p)
       {[ "raw_token" := VString (ir_raw_token p); "source" := VString (ir_source p);
          "headers" := string_map_value (ir_headers p) ]}).
Definition attenuation_write (c : AttenuationConfig) : Value :=
  VObject (put_opt "ttl_seconds" int_value (ac_ttl_seconds c)
    (put_opt "resource_template" VString (ac_resource_template c)
       {[ "capabilities" := strings_value (ac_capabilities c); "actions" := strings_value (ac_actions c) ]})).
Definition token_delegate_write (p : TokenDelegatePayload) : Obj :=
  put_opt "bearer_token" VString (td_bearer_token p)
    (put_opt "route_attenuation" attenuation_write (td_route_attenuation p)
       (put_opt "trust_domain" VString (td_trust_domain p)
          (put_opt "target_audience" VString (td_target_audience p)
             {[ "target_name" := VString (td_target_name p); "target_type" := VString (td_target_type p);
                "required_permissions" := strings_value (td_required_permissions p);
                "auth_enforced_by" := VString (td_auth_enforced_by p) ]}))).

(** ** Reading *)

(** A required field, one with a default, and an [Option], where null is absent. *)
Definition need {T} (read : Value → option T) (m : Obj) (key : string) : option T := m !! key ≫= read.
Definition or_default {T} (d : T) (read : Value → option T) (m : Obj) (key : string) : option T :=
  match m !! key with None => Some d | Some v => read v end.
Definition optional {T} (read : Value → option T) (m : Obj) (key : string) : option (option T) :=
  match m !! key with
  | None | Some Null => Some None
  | Some v => Some <$> read v
  end.

Definition read_object (v : Value) : option Obj := match v with VObject m => Some m | _ => None end.
(** [HashMap<String, String>] and [Vec<String>]: every element must be a string. *)
Definition read_string_map (v : Value) : option (gmap string string) :=
  match v with
  | VObject m => if forallb (λ kv, is_string kv.2) (map_to_list m) then Some (omap as_str m) else None
  | _ => None
  end.
Definition read_strings (v : Value) : option (list string) :=
  match v with VArray l => mapM as_str l | _ => None end.
Definition read_i64 (v : Value) : option Z := as_i64 v.
Definition read_u16 (v : Value) : option Z :=
  match v with VNumber (PosInt n) => if (n <? 2 ^ 16)%Z then Some n else None | _ => None end.

Definition tool_pre_read (m : Obj) : option ToolPreInvokePayload :=
  name ← need as_str m "name"; args ← optional read_object m "args"; headers ← optional read_string_map m "headers";
  Some (mkToolPre name args headers).
Definition tool_post_read (m : Obj) : option ToolPostInvokePayload :=
  name ← need as_str m "name"; result ← or_default Null Some m "result"; Some (mkToolPost name result).
Definition prompt_pre_read (m : Obj) : option PromptPreFetchPayload :=
  prompt_id ← need as_str m "prompt_id"; args ← optional read_string_map m "args"; Some (mkPromptPre prompt_id args).
Definition prompt_post_read (m : Obj) : option PromptPostFetchPayload :=
  prompt_id ← need as_str m "prompt_id"; result ← or_default Null Some m "result"; Some (mkPromptPost prompt_id result).
Definition resource_pre_read (m : Obj) : option ResourcePreFetchPayload :=
  uri ← need as_str m "uri"; metadata ← optional read_object m "metadata"; Some (mkResourcePre uri metadata).
Definition resource_post_read (m : Obj) : option ResourcePostFetchPayload :=
  uri ← need as_str m "uri"; content ← or_default Null Some m "content"; Some (mkResourcePost uri content).
Definition identity_resolve_read (m : Obj) : option IdentityResolvePayload :=
  raw_token ← or_default EmptyString as_str m "raw_token"; source ← or_default EmptyString as_str m "source";
  headers ← or_default ∅ read_string_map m "headers"; client_host ← optional as_str m "client_host";
  client_port ← optional read_u16 m "client_port";
  Some (mkIdentityResolve raw_token source headers client_host client_port).
Definition attenuation_read (v : Value) : option AttenuationConfig :=
  m ← read_object v;
  capabilities ← or_default [] read_strings m "capabilities"; resource_template ← optional as_str m "resource_template";
  actions ← or_default [] read_strings m "actions"; ttl_seconds ← optional read_i64 m "ttl_seconds";
  Some (mkAttenuationCfg capabilities resource_template actions ttl_seconds).
Definition token_delegate_read (m : Obj) : option TokenDelegatePayload :=
  target_name ← need as_str m "target_name"; target_type ← or_default default_target_type as_str m "target_type";
  target_audience ← optional as_str m "target_audience";
  required_permissions ← or_default [] read_strings m "required_permissions";
  trust_domain ← optional as_str m "trust_domain";
  auth_enforced_by ← or_default default_auth_enforced_by as_str m "auth_enforced_by";
  route_attenuation ← optional attenuation_read m "route_attenuation";
  bearer_token ← optional as_str m "bearer_token";
  Some (mkTokenDelegate target_name target_type target_audience required_permissions trust_domain auth_enforced_by
          route_attenuation bearer_token).

(** ** The codec *)

Inductive HostPayload :=
| HpMessage (p : MessagePayload)
| HpToolPre (p : ToolPreInvokePayload) | HpToolPost (p : ToolPostInvokePayload)
| HpPromptPre (p : PromptPreFetchPayload) | HpPromptPost (p : PromptPostFetchPayload)
| HpResourcePre (p : ResourcePreFetchPayload) | HpResourcePost (p : ResourcePostFetchPayload)
| HpIdentity (p : IdentityResolvePayload) | HpDelegate (p : TokenDelegatePayload)
| HpGeneric (value : Value).

Class LegacySerde := {
  host_message_write : MessagePayload → Result Value string;
  host_message_read : Value → Result MessagePayload string;
  serde_error : PayloadKind → Value → string;
  (** a struct from a value that is not an object *)
  read_other_shape : PayloadKind → Value → Result HostPayload string
}.

Definition legacy_write (p : HostPayload) : option (string * Obj) :=
  match p with
  | HpToolPre p => Some ("ToolPreInvokePayload", tool_pre_write p)
  | HpToolPost p => Some ("ToolPostInvokePayload", tool_post_write p)
  | HpPromptPre p => Some ("PromptPreFetchPayload", prompt_pre_write p)
  | HpPromptPost p => Some ("PromptPostFetchPayload", prompt_post_write p)
  | HpResourcePre p => Some ("ResourcePreFetchPayload", resource_pre_write p)
  | HpResourcePost p => Some ("ResourcePostFetchPayload", resource_post_write p)
  | HpIdentity p => Some ("IdentityResolvePayload", identity_resolve_write p)
  | HpDelegate p => Some ("TokenDelegatePayload", token_delegate_write p)
  | HpMessage _ | HpGeneric _ => None
  end.
Definition legacy_read (kind : PayloadKind) (m : Obj) : option HostPayload :=
  match kind with
  | ToolPreInvoke => HpToolPre <$> tool_pre_read m
  | ToolPostInvoke => HpToolPost <$> tool_post_read m
  | PromptPreFetch => HpPromptPre <$> prompt_pre_read m
  | PromptPostFetch => HpPromptPost <$> prompt_post_read m
  | ResourcePreFetch => HpResourcePre <$> resource_pre_read m
  | ResourcePostFetch => HpResourcePost <$> resource_post_read m
  | IdentityResolve => HpIdentity <$> identity_resolve_read m
  | TokenDelegate => HpDelegate <$> token_delegate_read m
  | CmfMessage | Generic => None
  end.

#[global] Instance host_codec `{LegacySerde} : PayloadCodec HostPayload := {
  typed_to_json p :=
    match p with
    | HpMessage m => Some ("MessagePayload", host_message_write m)
    | p => prod_map id (λ m, Ok (VObject m)) <$> legacy_write p
    end;
  generic_value p := match p with HpGeneric v => Some v | _ => None end;
  typed_from_json kind v :=
    match kind, v with
    | CmfMessage, v => result_map HpMessage (host_message_read v)
    | kind, VObject m => match legacy_read kind m with Some p => Ok p | None => Err (serde_error kind v) end
    | kind, v => read_other_shape kind v
    end;
  generic_payload := HpGeneric
}.

(** ** Round trips *)

(** The kind of a payload, and the ranges of the machine integers in it. *)
Definition payload_kind (p : HostPayload) : PayloadKind :=
  match p with
  | HpMessage _ => CmfMessage | HpToolPre _ => ToolPreInvoke | HpToolPost _ => ToolPostInvoke
  | HpPromptPre _ => PromptPreFetch | HpPromptPost _ => PromptPostFetch | HpResourcePre _ => ResourcePreFetch
  | HpResourcePost _ => ResourcePostFetch | HpIdentity _ => IdentityResolve | HpDelegate _ => TokenDelegate
  | HpGeneric _ => Generic
  end.
Definition in_width (p : HostPayload) : Prop :=
  match p with
  | HpIdentity p => ∀ n, ir_client_port p = Some n → (0 ≤ n < 2 ^ 16)%Z
  | HpDelegate p => ∀ c n, td_route_attenuation p = Some c → ac_ttl_seconds c = Some n → in_i64 n = true
  | _ => True
  end.

Lemma read_strings_value l : read_strings (strings_value l) = Some l.
Proof. apply mapM_Some_2, Forall2_fmap_l, Forall_Forall2_diag, Forall_forall. done. Qed.
Lemma read_string_map_value m : read_string_map (string_map_value m) = Some m.
Proof.
  simpl. replace (forallb _ _) with true.
  - f_equal. apply map_eq. intros k. rewrite lookup_omap, lookup_fmap. by destruct (m !! k).
  - symmetry. apply forallb_Forall, Forall_forall. intros [k v] Hk%elem_of_map_to_list.
    rewrite lookup_fmap in Hk. apply fmap_Some in Hk as (s & _ & ->). done.
Qed.
Lemma read_i64_value z : in_i64 z = true → read_i64 (int_value z) = Some z.
Proof.
  unfold in_i64. intros [Hlo Hhi]%andb_true_iff. unfold int_value, read_i64. destruct (0 <=? z)%Z; simpl; [by rewrite Hhi|done].
Qed.
Lemma read_u16_value z : (0 ≤ z < 2 ^ 16)%Z → read_u16 (int_value z) = Some z.
Proof.
  intros [Hlo Hhi]. unfold int_value. destruct (Z.leb_spec 0 z); [|lia]. unfold read_u16. destruct (Z.ltb_spec z (2 ^ 16)); [done|lia].
Qed.

#[local] Arguments string_map_value : simpl never.
#[local] Arguments strings_value : simpl never.
#[local] Arguments int_value : simpl never.
#[local] Arguments read_string_map : simpl never.
#[local] Arguments read_strings : simpl never.

(** Every field is found where it was put, or found missing where it was not. *)
Ltac find_fields :=
  repeat match goal with
  | |- context [put_opt _ _ ?o _] => destruct o; simpl
  | |- context [<[?k := _]> _ !! ?k] => rewrite lookup_insert_eq
  | |- context [<[_ := _]> _ !! _] => rewrite lookup_insert_ne by done
  | |- context [{[?k := _]} !! ?k] => rewrite lookup_singleton_eq
  | |- context [{[_ := _]} !! _] => rewrite lookup_singleton_ne by done
  end.
Ltac read_back := unfold need, or_default, optional; find_fields; simpl;
  rewrite ?read_strings_value, ?read_string_map_value; try done.

Lemma tool_pre_roundtrip p : tool_pre_read (tool_pre_write p) = Some p.
Proof. destruct p as [n a h]. unfold tool_pre_read, tool_pre_write. simpl. read_back. Qed.
Lemma tool_post_roundtrip p : tool_post_read (tool_post_write p) = Some p.
Proof. destruct p as [n r]. unfold tool_post_read, tool_post_write. simpl. read_back. Qed.
Lemma prompt_pre_roundtrip p : prompt_pre_read (prompt_pre_write p) = Some p.
Proof. destruct p as [n a]. unfold prompt_pre_read, prompt_pre_write. simpl. read_back. Qed.
Lemma prompt_post_roundtrip p : prompt_post_read (prompt_post_write p) = Some p.
Proof. destruct p as [n r]. unfold prompt_post_read, prompt_post_write. simpl. read_back. Qed.
Lemma resource_pre_roundtrip p : resource_pre_read (resource_pre_write p) = Some p.
Proof. destruct p as [u m]. unfold resource_pre_read, resource_pre_write. simpl. read_back. Qed.
Lemma resource_post_roundtrip p : resource_post_read (resource_post_write p) = Some p.
Proof. destruct p as [u c]. unfold resource_post_read, resource_post_write. simpl. read_back. Qed.

(** An integer that is present reads back. *)
Lemma optional_int (read : Value → option Z) m key z :
  m !! key = Some (int_value z) → read (int_value z) = Some z → optional read m key = Some (Some z).
Proof. intros Hm Hr. unfold optional. rewrite Hm. unfold int_value in *. by rewrite Hr. Qed.

Lemma identity_resolve_roundtrip p :
  in_width (HpIdentity p) → identity_resolve_read (identity_resolve_write p) = Some p.
Proof.
  destruct p as [t s h host port]. simpl. intros Hw. unfold identity_resolve_read, identity_resolve_write. simpl.
  destruct port as [n|]; simpl; [|read_back].
  rewrite (optional_int read_u16 _ _ n); [|by rewrite lookup_insert_eq|by apply read_u16_value, Hw]. read_back.
Qed.
Lemma attenuation_roundtrip c :
  (∀ n, ac_ttl_seconds c = Some n → in_i64 n = true) → attenuation_read (attenuation_write c) = Some c.
Proof.
  destruct c as [caps tmpl acts ttl]. simpl. intros Hw. unfold attenuation_read, attenuation_write. simpl.
  destruct ttl as [n|]; simpl; [|read_back].
  rewrite (optional_int read_i64 _ _ n); [|by rewrite lookup_insert_eq|by apply read_i64_value, Hw]. read_back.
Qed.
Lemma token_delegate_roundtrip p :
  in_width (HpDelegate p) → token_delegate_read (token_delegate_write p) = Some p.
Proof.
  destruct p as [name ty aud perms dom auth att bearer]. simpl. intros Hw. unfold token_delegate_read, token_delegate_write. simpl.
  destruct att as [c|]; simpl; [|read_back].
  assert (attenuation_read (attenuation_write c) = Some c) as Hc by (apply attenuation_roundtrip; intros n; by apply Hw).
  unfold need, or_default, optional. find_fields; simpl; unfold attenuation_write in *; rewrite ?Hc, ?read_strings_value; done.
Qed.

(** C40: a legacy payload survives the way through a worker: what the host writes for
    a hook reads back, under that hook, as the payload it was, whichever optional
    fields are present; for all eight types and the generic wrapper.  Nothing of it
    is withheld: the token of an identity or delegation payload is written and read
    in clear, although payloads.rs describes those two fields as redacted on the
    wire ([token_travels_in_payload]). *)
Theorem payload_survives_worker `{LegacySerde} hook p :
  payload_kind_for_hook hook = payload_kind p → (∀ m, p ≠ HpMessage m) → in_width p →
  ∃ v, serialize_payload p = Ok v ∧ deserialize_payload hook v = Ok p.
Proof.
  intros Hk Hm Hw. unfold deserialize_payload. rewrite Hk. unfold serialize_payload.
  destruct p as [m|p|p|p|p|p|p|p|p|v]; simpl; [by destruct (Hm m)|eexists; (split; [done|])..]; simpl.
  - by rewrite tool_pre_roundtrip.
  - by rewrite tool_post_roundtrip.
  - by rewrite prompt_pre_roundtrip.
  - by rewrite prompt_post_roundtrip.
  - by rewrite resource_pre_roundtrip.
  - by rewrite resource_post_roundtrip.
  - by rewrite identity_resolve_roundtrip.
  - by rewrite token_delegate_roundtrip.
  - done.
Qed.

(** The token in an identity or delegation payload is on the wire as it is. *)
Theorem token_travels_in_payload `{LegacySerde} :
  (∀ p, ∃ v, serialize_payload (HpIdentity p) = Ok v ∧ value_get v "raw_token" = Some (VString (ir_raw_token p))) ∧
  (∀ p token, td_bearer_token p = Some token →
     ∃ v, serialize_payload (HpDelegate p) = Ok v ∧ value_get v "bearer_token" = Some (VString token)).
Proof.
  split.
  - intros [tok src h [ch|] [cp|]]; eexists; by split.
  - intros [n t [a|] r [d|] e [c|] b] token; simpl; intros ->; eexists; by split.
Qed.

(** ** Debug printing *)

(** The fields of a [debug_struct]. *)
Inductive DebugField :=
| DStr (s : string) | DStrs (l : list string) | DOptStr (o : option string) | DOptInt (o : option Z)
| DAttenuation (o : option AttenuationConfig).

Definition identity_debug `{HashOrder} (p : IdentityResolvePayload) : list (string * DebugField) :=
  [("raw_token", DStr REDACTED); ("source", DStr (ir_source p));
   ("header_names", DStrs (map_iter (ir_headers p)).*1);
   ("client_host", DOptStr (ir_client_host p)); ("client_port", DOptInt (ir_client_port p))].
Definition delegate_debug (p : TokenDelegatePayload) : list (string * DebugField) :=
  [("target_name", DStr (td_target_name p)); ("target_type", DStr (td_target_type p));
   ("target_audience", DOptStr (td_target_audience p));
   ("required_permissions", DStrs (td_required_permissions p)); ("trust_domain", DOptStr (td_trust_domain p));
   ("auth_enforced_by", DStr (td_auth_enforced_by p)); ("route_attenuation", DAttenuation (td_route_attenuation p));
   ("bearer_token", DOptStr ((λ _, REDACTED) <$> td_bearer_token p))].

(** Printing a payload shows of its secrets only that they are there: other tokens
    and other header values of the same names print the same, names in any order. *)
Theorem debug_hides_secrets `{HashOrder} p token headers bearer q :
  dom headers = dom (ir_headers p) →
  (let p' := mkIdentityResolve token (ir_source p) headers (ir_client_host p) (ir_client_port p) in
   ∃ names names', names ≡ₚ names' ∧
     identity_debug p = <[2 := ("header_names", DStrs names)]> (identity_debug p') ∧
     identity_debug p' !! 2 = Some ("header_names", DStrs names')) ∧
  delegate_debug (mkTokenDelegate (td_target_name q) (td_target_type q) (td_target_audience q)
    (td_required_permissions q) (td_trust_domain q) (td_auth_enforced_by q) (td_route_attenuation q)
    ((λ _, bearer) <$> td_bearer_token q)) = delegate_debug q.
Proof.
  intros Hd. split.
  - exists (map_iter (ir_headers p)).*1, (map_iter headers).*1. split; [|done].
    assert (∀ m : gmap string string, (map_iter m).*1 ≡ₚ elements (dom m)) as Hdom.
    { intros m. rewrite map_iter_perm. apply NoDup_Permutation; [apply NoDup_fst_map_to_list|apply NoDup_elements|].
      intros k. rewrite elem_of_elements, elem_of_dom, list_elem_of_fmap. split.
      - intros ([k' v] & -> & Hv%elem_of_map_to_list). by eexists.
      - intros [v Hv]. exists (k, v). by rewrite elem_of_map_to_list. }
    by rewrite !Hdom, Hd.
  - destruct q as [? ? ? ? ? ? ? [b|]]; done.
Qed.

Module LegacyDemo.

#[local] Instance any_serde : LegacySerde := {
  host_message_write _ := Err "none"; host_message_read _ := Err "none"; serde_error _ _ := "bad";
  read_other_shape _ _ := Err "bad"
}.
Definition delegate : TokenDelegatePayload :=
  mkTokenDelegate "search" "tool" None ["read"] None "caller" (Some (mkAttenuationCfg [] None ["get"] (Some (-5)%Z))) (Some "t").

Lemma survives_worker_witness :
  ∃ v, serialize_payload (HpDelegate delegate) = Ok v ∧ deserialize_payload "token_delegate" v = Ok (HpDelegate delegate).
Proof. apply payload_survives_worker; [reflexivity|done|]. by intros c n [= <-] [= <-]. Defined.

(** A field that is written as null is read as absent, and a missing name is an
    error. *)
Example null_is_absent :
  deserialize_payload "tool_pre_invoke" (VObject {[ "name" := VString "f"; "args" := Null ]})
  = Ok (HpToolPre (mkToolPre "f" None None)).
Proof. by vm_compute. Qed.
Example name_is_required :
  result_map (λ _, tt) (deserialize_payload (Pay := HostPayload) "tool_pre_invoke" (VObject ∅))
  = Err (HProtocol "worker returned a modified payload that does not match hook 'tool_pre_invoke': bad").
Proof. by vm_compute. Qed.

End LegacyDemo.
