(* ===== verification/Monotonic.v ===== *)
(** * Add-only sets and guarded values (cpex-core/src/extensions/monotonic.rs and guarded.rs)

    The two wrapper types with all their methods, and what holding a token or not
    makes of a value over any sequence of calls.  A token is a value nobody
    outside the framework can make; here it is an argument. *)

From S2P Require Import Prelude RustStd Routing ExtData Extensions Bag.

Local Open Scope string_scope.

(** ** Add-only sets (monotonic.rs) *)

Record MonotonicSet (T : Type) `{Countable T} := mkMonotonic { ms_inner : gset T }.
Arguments mkMonotonic {T _ _}.
Arguments ms_inner {T _ _}.
Inductive DeclassifierToken := declassifier_token_new.

Section Monotonic.
Context {T : Type} `{Countable T}.

Definition monotonic_new : MonotonicSet T := mkMonotonic ∅.
Definition monotonic_from_set (set : gset T) : MonotonicSet T := mkMonotonic set.
Definition monotonic_default : MonotonicSet T := monotonic_new.
(** Whether the value is new, and the set after. *)
Definition monotonic_insert (self : MonotonicSet T) (value : T) : bool * MonotonicSet T :=
  (bool_decide (value ∉ ms_inner self), mkMonotonic ({[ value ]} ∪ ms_inner self)).
Definition monotonic_contains (self : MonotonicSet T) (value : T) : bool := bool_decide (value ∈ ms_inner self).
Definition monotonic_iter (self : MonotonicSet T) : list T := elements (ms_inner self).
Definition monotonic_len (self : MonotonicSet T) : nat := size (ms_inner self).
Definition monotonic_is_empty (self : MonotonicSet T) : bool := bool_decide (ms_inner self = ∅).
Definition monotonic_is_superset (self other : MonotonicSet T) : bool := bool_decide (ms_inner other ⊆ ms_inner self).
Definition monotonic_as_set (self : MonotonicSet T) : gset T := ms_inner self.
Definition remove_with_declassifier (self : MonotonicSet T) (value : T) (_ : DeclassifierToken) :
    bool * MonotonicSet T :=
  (bool_decide (value ∈ ms_inner self), mkMonotonic (ms_inner self ∖ {[ value ]})).

End Monotonic.

Section Labels.
Context `{UnicodeLower}.

Definition has_label (self : MonotonicSet string) (label : string) : bool :=
  existsb (λ l, String.eqb (to_lowercase l) (to_lowercase label)) (elements (ms_inner self)).
Definition monotonic_add_label (self : MonotonicSet string) (label : string) : MonotonicSet string :=
  (monotonic_insert self label).2.

(** The lookup ignores case and nothing else. *)
Lemma has_label_spec self label :
  has_label self label = true ↔ ∃ l, l ∈ ms_inner self ∧ to_lowercase l = to_lowercase label.
Proof.
  unfold has_label. rewrite existsb_exists. split.
  - intros (l & Hl%list_elem_of_In & He%String.eqb_eq). exists l. by rewrite elem_of_elements in Hl.
  - intros (l & Hl & He). exists l. rewrite <- list_elem_of_In, elem_of_elements, String.eqb_eq. done.
Qed.

(** What a holder of the set can do to it with the methods it may call: a token
    opens the removal. *)
Inductive method_step (token : option DeclassifierToken) : MonotonicSet string → MonotonicSet string → Prop :=
| ms_insert s v : method_step token s (monotonic_insert s v).2
| ms_add s v : method_step token s (monotonic_add_label s v)
| ms_remove s v t : token = Some t → method_step token s (remove_with_declassifier s v t).2.

(** Without a token labels stay, under the exact and under the case-blind lookup,
    and the later set is a superset of the earlier, whatever is called and in
    whatever order. *)
Theorem labels_stay s s' :
  rtc (method_step None) s s' →
  monotonic_is_superset s' s = true ∧ ∀ l, has_label s l = true → has_label s' l = true.
Proof.
  intros Hr. assert (ms_inner s ⊆ ms_inner s') as Hsub.
  { induction Hr as [|s1 s2 s3 Hs _ IH]; [done|]. transitivity (ms_inner s2); [|done].
    inversion Hs; subst; [set_solver|set_solver|done]. }
  split; [by apply bool_decide_eq_true|]. intros l. rewrite !has_label_spec. intros (l' & Hl & He). exists l'. set_solver.
Qed.

End Labels.

(** ** Guarded values (guarded.rs) *)

Section GuardedOps.
Context {T : Type}.

Definition guarded_read (self : Guarded T) : T := guarded_inner self.
(** The [&mut T] is the function applied to the value. *)
Definition guarded_write (self : Guarded T) (_ : WriteToken) (f : T → T) : Guarded T := guarded_new (f (guarded_inner self)).
Definition into_inner (self : Guarded T) : T := guarded_inner self.
Definition guarded_default (d : T) : Guarded T := guarded_new d.

(** Steps through the methods on a value in place. *)
Inductive guarded_step (token : option WriteToken) : Guarded T → Guarded T → Prop :=
| gs_read g : guarded_step token g g
| gs_write g t f : token = Some t → guarded_step token g (guarded_write g t f).

Lemma unwritten_without_token g g' : rtc (guarded_step None) g g' → guarded_read g' = guarded_read g.
Proof. induction 1 as [|g1 g2 g3 Hs _ IH]; [done|]. rewrite IH. by inversion Hs; subst. Qed.
Lemma write_then_read g t f : guarded_read (guarded_write g t f) = f (guarded_read g).
Proof. done. Qed.

End GuardedOps.

Module MonotonicDemo.

#[local] Instance ascii_only : UnicodeLower := to_ascii_lowercase.
Definition labels : MonotonicSet string := monotonic_add_label monotonic_new "PII".

Lemma labels_stay_witness : has_label (monotonic_add_label labels "HR") "pii" = true.
Proof.
  apply (labels_stay labels (monotonic_add_label labels "HR")); [|by vm_compute].
  apply rtc_once, ms_add.
Defined.

(** The type does not stop a holder from putting another set in its place, as
    [from_set] is public: the check is the superset test on the way back. *)
Example replaced_set_is_caught : monotonic_is_superset (monotonic_from_set ∅) labels = false.
Proof. by vm_compute. Qed.

End MonotonicDemo.
